(* ===== verification/_CoqProject ===== *)
-Q . S2P
Prelude.v
RStr.v
SipBase.v
SipHeader.v
SipUri.v
SipTyped.v
SipHeaders.v
SipMessage.v
SipBuild.v
Sample.v
SipRoundtrip.v
TxTimer.v
TxMachine.v
InviteClient.v
NonInviteClient.v
NonInviteServer.v
Stamp.v
InviteServer.v
TxManager.v
Dialog.v
DialogManager.v
RtpPacket.v
Srtp.v
Sdes.v
RFloat.v
Jitter.v
Rtcp.v
RtpSession.v
IceCandidate.v
Sdp.v
SdpAnswer.v
Dtmf.v
Hold.v
Transfer.v
DigestAuth.v
Registration.v
AudioCodec.v
Call.v
CallManager.v
CallManagerInv.v
SessionTimer.v
SessionRefresh.v
Stun.v
Turn.v
IceAgent.v
IceChecks.v
IceSessions.v
Wav.v
Mixer.v
StreamFraming.v
Resolver.v
TcpConnections.v
TcpReader.v
TlsConnections.v
GabbyAudio.v
GabbyCall.v
GabbyServer.v
SipContact.v
UdpTransport.v
StackConfig.v
