(* ===== verification/Prelude.v ===== *)
(** * rsiprtp: a verification development

    The program is the Rust crate [rsiprtp] ([src/crates/rsiprtp/src/], the paths below
    are relative to it): a SIP and RTP stack written sans-IO, as layers of state machines
    that receive messages and timer expiries and queue actions for their caller to poll.
    This library models its signalling core, from the bytes of a SIP message to calls,
    and its media plane below the codecs, from session descriptions to the bytes of
    protected RTP, and proves what makes each part correct.

    ** The parts and how they fit together

    - The SIP syntax turns bytes into requests and responses and back: header lines
      ([sip/parser/header.rs]), URIs ([sip/uri.rs]), typed header values
      ([sip/parser/name_addr.rs], [sip/parser/typed/], [sip/headers.rs]), framing and
      messages ([sip/parser/framing.rs], [sip/parser/message.rs], [sip/message.rs]) and the
      builders every other layer sends with.
    - The transport ([transport/]) finds where a URI is served, with the records of the DNS,
      and cuts the byte stream of a connection into messages and keep-alives.
    - The transaction layer ([transaction/]) has one machine for each of the four kinds of
      RFC 3261 section 17, INVITE or not, client or server, the INVITE server machine with
      the reliable provisional responses of RFC 3262; a manager owns the transactions,
      routes messages and timer expiries to them and forwards what they queue.
    - The dialog layer ([dialog/]) keeps the peer-to-peer state of a call: identifiers,
      sequence numbers, route set, the INVITE dialog that builds in-dialog requests, and a
      manager that routes messages by Call-ID and tags.
    - Session descriptions ([sdp/]) are the bodies in which two ends offer and answer codecs,
      ports, directions and the ICE candidates ([ice/candidate.rs]) of a call.
    - The media plane sends what was agreed: RTP packets and sessions with their statistics
      ([rtp/packet.rs], [rtp/session.rs]), the RTCP packets that report them ([rtp/rtcp.rs])
      and steer the sender's rate ([session/bitrate_bridge.rs]), their protection ([srtp/]),
      the jitter buffer that puts what arrives back in order ([media/jitter.rs]), the mixer of
      a conference ([media/mixer.rs]), recordings ([media/wav.rs]) and key presses as telephone
      events ([rtp/dtmf.rs]).
    - The NAT traversal ([ice/]) finds the path of the media: a STUN client, a TURN client,
      and the ICE agent that gathers candidates, pairs them with the peer's and checks the
      pairs while its dispatcher answers the checks of the peer; an ICE session
      ([session/ice_session.rs]) hands the validated socket to the media.
    - The session layer ([session/]) drives the layers below for a user agent: registration
      with digest authentication ([sip/auth.rs]), hold and resume, call transfer, the call
      with its media session ([session/call.rs]), and the manager that owns the calls and
      runs their session timers ([session/manager.rs]).
    - The application gabby ([src/crates/gabby/src/]) answers calls with a voice assistant: a SIP
      server ([server.rs]) and a task for each call ([call.rs]) that takes what it hears through a
      detector of speech and a recognizer to a language model and speaks the answer ([pipeline/]).

    ** The files

    - [Prelude]: byte strings, [Result], machine integers, record update, tactics and the
      hint database [rsip].
    - [RStr]: the operations of Rust's [str] and integer formatting the code uses.
    - [SipBase], [SipHeader], [SipUri], [SipTyped], [SipHeaders], [SipMessage], [SipBuild]:
      the SIP syntax, one file per group of source files named in each file's comment.
      [SipRoundtrip]: print and parse.  [SipContact]: the contacts with preferences of
      [sip/headers.rs] and the text of a float.  [Sample]: concrete messages for the witnesses.
    - [TxTimer]: [transaction/timer.rs].  [TxMachine]: the class of transaction machines,
      and a machine closed with an environment that fires only armed timers.
      [InviteClient], [NonInviteClient], [InviteServer], [NonInviteServer]: the four
      machines ([transaction/client/], [transaction/server/]), instances of the class.
      [Stamp]: the headers of a reliable provisional.
      [TxManager]: [transaction/manager.rs].
    - [Dialog]: [dialog/state.rs] and [dialog/invite.rs].  [DialogManager]:
      [dialog/manager.rs].
    - [RtpPacket]: [rtp/packet.rs].  [Srtp]: [srtp/kdf.rs] and [srtp/context.rs].  [Sdes]:
      [srtp/sdes.rs].
    - [RFloat]: the [f32] and [f64] operations the media code uses, on the IEEE numbers of
      the Standard Library's [SpecFloat].  [Jitter]: [media/jitter.rs].
    - [Rtcp]: [rtp/rtcp.rs].  [RtpSession]: [rtp/session.rs] and
      [session/bitrate_bridge.rs].
    - [IceCandidate]: [ice/candidate.rs].  [Sdp]: [sdp/parser.rs] and [sdp/builder.rs].
      [SdpAnswer]: [sdp/negotiation.rs], [sdp/ice_attrs.rs] and the deferred answer of
      [session/manager.rs].
    - [Dtmf]: [rtp/dtmf.rs].  [Hold]: [session/hold.rs].  [Transfer]: [session/transfer.rs].
      [DigestAuth]: [sip/auth.rs].  [Registration]: [session/registration.rs].
    - [Stun]: [ice/stun.rs], with the wire format the next two share.  [Turn]: [ice/turn.rs].
      [IceAgent]: [ice/agent.rs] and [session/ice_session.rs]; [IceChecks] the check of one
      agent answered by another, [IceSessions] the pair list and the checks of a session.
    - [Wav]: [media/wav.rs].  [Mixer]: [media/mixer.rs].
    - [Resolver]: [transport/resolver.rs] and [transport/traits.rs].  [StreamFraming]:
      [transport/keepalive.rs] and the read loops of [transport/tcp.rs] and [transport/tls.rs] as
      functions.  [TcpConnections] and [TlsConnections]: the two transports with their tables of
      connections, as tasks over one shared state that interleave where the code awaits;
      [TcpReader]: the read loop as a task implements the function.  [UdpTransport]:
      [transport/udp.rs].  [StackConfig]: [core/config.rs].
    - [AudioCodec]: the wrappers in [media/codec/] and [session/session_codec.rs].  [Call]:
      [session/call.rs].  [CallManager]: [session/manager.rs]; [CallManagerInv] its
      invariant, [SessionTimer] its timers, [SessionRefresh] two managers in one session.
    - [GabbyAudio]: the mu-law codec and the detector of speech of gabby.  [GabbyCall]: the handler of
      a call with the wrappers of [pipeline/], as code over the state of the handler, the world
      outside and a log.  [GabbyServer]: the server with its tasks and configuration.

    A Rust [struct] is a record with the source's fields, an [enum] an inductive type, a
    method on [&mut self] a function that returns the new value (with the result first
    where there is one), [?] the bind of [option] or [result].  A panic ([expect],
    [unwrap], overflow of a [Duration]) is [None] of an outer [option], so that a theorem
    that an operation returns is stated as such.  Unsigned integers are [Z] with the width
    in the hypotheses and the wrap-around of a release build written out.  A [HashMap] is
    a finite map ([gmap]); where the code iterates over one and the result could depend on
    the order, the order is an argument of the definition.  What the code draws at random
    (branch suffixes and tags from the [uuid] crate) is an argument, and so is the time a
    function reads.  What belongs to external crates or to large tables of the standard
    library is a parameter: the AES-CTR keystream and the HMAC of [Srtp], the HMAC
    and MD5 of [Turn] and [IceAgent], base64 in [Sdes], the hash functions of [DigestAuth], the codecs of [AudioCodec] (a class), the
    sine of [Wav], the answers of the DNS in [Resolver], the
    Unicode table of [to_uppercase] in [SdpAnswer], [Srtp] and [Sdes], the text
    form of an [IpAddr] (a class, with an IPv4 instance); for gabby the recognizer Vosk, the FFT of the
    resampler, and what the language model, the synthesizer and the clock answer (classes).

    ** What the theorems show

    - Refinement.  The INVITE server machine takes exactly the transitions of the standard's
      figure 7 with RFC 3262, stated as a relation on abstract states
      ([invite_server_refines_rfc]); the INVITE client machine those of figure 5 with what it
      sends and reports, but for one transition it leaves out and a few it adds, which are
      listed beside the figure ([invite_client_refines_rfc]); whatever the transaction manager stores evolved by
      handler calls of its machine alone ([manager_refines_machines]); every dialog of the
      dialog manager is a run of a new dialog, and the events reported for it are those of
      the run ([dialog_manager_history]).
    - Invariants, for every sequence of operations: the indices of both managers
      ([manager_invariant], [dialog_manager_invariant], [cleanup_exact]), the calls, deadlines
      and ports of the call manager ([call_manager_invariant]), the pairs of an ICE agent
      ([agent_pairs_invariant]), the buffer of
      reliable provisionals ([reliable_provisionals_invariant]), the order of the states
      of a dialog and its one outcome ([dialog_life]).
    - Termination and progress, in a system where only armed timers fire: a reliable
      provisional is given up after at most 64 expiries ([reliable_retransmission_ends]), and
      in every reachable unfinished state of a client machine a timer is armed that ends
      it ([invite_client_always_terminates], [non_invite_client_always_terminates],
      [invite_server_always_finishes]).
    - Routing and identity: a response built from a request is matched to it, responses
      and retransmitted requests reach one transaction and no other, a PRACK reaches its
      call, the BYE of one end ends the dialog of the other end ([bye_ends_peer]).
    - Sequence numbers: strictly increasing CSeq of the requests a dialog builds
      ([dialog_cseq_increasing]) and of the re-INVITEs it accepts
      ([reinvites_increasing]); RSeq stamping ([stamp_reliable_headers_correct]).
    - Transport: framed messages are delivered one by one, as sent and in order, however the
      stream is cut into reads ([stream_framing]).  Under every interleaving of senders, read
      loops and the accept loop a TCP connection carries whole frames ([tcp_writes_whole]) and
      is a channel of messages ([tcp_channel]); a write waits for no input
      ([tcp_write_needs_no_input]), while over TLS it does ([tls_send_waits_for_input]); the
      task that reads does what the function of [StreamFraming] does ([tcp_reader_refines]).
      The datagrams of a UDP socket reach the receiver in order, none twice ([udp_receiver]).
      What a URI resolves to has a target and the transport it asks for ([resolved_transports]).
    - Round trips of printing and parsing: URIs and addresses ([uri_roundtrip],
      [address_roundtrip]), contacts ([contact_roundtrip]), the fields of a built request
      ([built_request_identity]), session
      descriptions ([sdp_roundtrip]), ICE and crypto attributes ([ice_attributes_roundtrip],
      [sdes_roundtrip]), RTP packets without padding in both directions, with what the parser
      makes of one with padding ([rtp_codec_inverse]), and compound
      RTCP packets ([compound_roundtrip]).
    - Error behaviour on arbitrary bytes: the RTP and RTCP parsers return, never read past
      the end, and what they accept is what the lengths in the bytes declare
      ([rtp_parse_total], [rtcp_parse_total]).
    - Media streams under loss, repetition and reordering: the wrapping comparison of
      sequence numbers is the order of the unbounded ones ([sequence_compare_ideal]), a
      receiver of SRTP recovers what was protected ([srtp_stream_delivered],
      [srtcp_roundtrip]), its statistics are those of the stream, but that a packet overtaken
      by a later one is counted as lost ([media_statistics]), the jitter buffer accounts for every frame and plays a stream in order
      ([jitter_conserves], [jitter_reorders]), a NACK names exactly the lost packets
      ([nack_exact]), the congestion controller keeps its bounds and its raises stop at the
      estimates of the receiver ([congestion_bounds]).
    - Audio: a mix is well-typed, names the sources that speak and is the saturated sum of what
      they say ([mixer_typed]); a recording is played back ([wav_roundtrip]).
    - Two ends of a call together: offer and answer come to the same codecs and port, and
      both ends record the answerer's direction ([offer_answer_agreement]); hold and resume keep both ends in step with one
      shared direction ([hold_refines_shared_direction]); the digits dialled are heard
      ([dtmf_delivered]); the transferee reads the dialog the transferor wants replaced
      ([refer_to_roundtrip]) and its progress is followed ([transfer_followed]); a tick does
      to every call what its deadlines ask for, and nothing twice unless an interval is zero
      ([session_timer_tick]), and
      a session refreshed in time is ended by neither side ([refreshed_session_survives]).
    - Client and registrar together: an answer to a challenge is accepted by a registrar that
      follows RFC 7616 ([digest_accepted]), a client with the right password is registered
      ([registration_authenticated]), and the driver sends at most two requests and ends
      ([register_driver]).
    - NAT traversal: the STUN client returns the IPv4 address the server saw, whatever else
      arrives, and a wrong one for IPv6 ([stun_client_finds_address]); a TURN session against a
      server with the credentials of RFC 5766 and any policy for lifetimes ([turn_session]) and data through two relays ([turn_relay_roundtrip]); a
      connectivity check between two agents succeeds exactly with the peer's credentials
      ([connectivity_check_exact]), and a session ends with the best of the pairs that are
      checked, the first of their foundations, or refuses ([run_checks_selects_best]).
    - Gabby: mu-law is read back within its step ([ulaw_codec]); the decisions of the detector are those of
      the utterances heard ([vad_utterances]); the model gets the latest of the conversation
      ([llm_context]); the packets of a call are read by [RtpPacket] and carry the output of the
      synthesizer for the greeting and each answer, resampled chunk by chunk, in order and but for what is held back in the last chunk
      ([gabby_call_speech]), within bounds ([gabby_call_bounded]); a description of [Sdp] in an INVITE is
      answered with one that [Sdp] reads, by responses of [SipBuild], and the media goes to its IPv4
      address or else to where the INVITE came from ([gabby_answers_invite]); ports and
      calls stay in step ([gabby_calls]).

    Some theorems state a defect: a TLS send waits for input ([tls_send_waits_for_input]); an INVITE sent
    again ends the call at gabby ([gabby_repeated_invite]); an ACK for a failure response never reaches the INVITE
    server transaction through the manager ([ack_never_reaches_invite_server]); the speech behind the
    last chunk is held back ([gabby_call_speech]) and media for an IPv6 address goes elsewhere
    ([gabby_answers_invite]); the offerer records the direction of the answerer
    ([offer_answer_agreement]); Timer B ends an INVITE that rings for long ([invite_client_refines_rfc]); the
    examples at the end of the files evaluate others, among them a CSeq number that is used
    twice, dialogs that are never removed, a forged SRTP packet that blocks a stream, a
    cumulative loss that is read divided by 256.

    ** Bounds and fuel

    Recursion is structural except in decimal printing, whose fuel is one more than the
    base-2 logarithm of the number, which bounds its digits ([dec_fuel]), and in the loops of
    the RTCP parser and of the parser of digest parameters, whose fuel is one more than the
    bytes left: every round consumes one, and [rtcp_parse_total] and
    [parse_auth_params_total] show that the fuel never runs out; the fuel of [url_decode] is
    the length of the text ([url_decode_fuel]), and that of the walks over STUN attributes the
    number of bytes, of which each round consumes four ([attributes_fuel]); that of gabby's loops over
    chunks the length of the buffer they consume ([resample_chunks_done], [stt_chunks_consume]).  Handles and
    sequence numbers are assumed not to wrap in a run (fewer than 2^64 operations, CSeq
    below 2^32); the hypotheses say so where they are needed.

    ** What is not modelled

    - Left out of modelled files: error texts (an error is its constructor), log output, the
      binding and connecting of the sockets of [ice/], and Unicode case folding outside ASCII.
    - Not to be modelled: the system calls on sockets and the loading of certificates, the random
      number generator ([core/util.rs]), the ciphers and codecs of external crates; of gabby the command line, TOML and the
      loading of the speech model. *)

From Stdlib Require Export ZArith Lia Ascii.
From stdpp Require Export base tactics option list strings gmap.

#[export] Set Default Goal Selector "!".

(** ** Byte strings

    A Rust [&str], [String], [Vec<u8>] or [bytes::Bytes] is the list of its
    bytes.  [#"abc"] is the byte string of a literal. *)
Abbreviation str := (list ascii).

Declare Scope rust_scope.
Delimit Scope rust_scope with rust.
Open Scope rust_scope.

Notation "# s" := (String.list_ascii_of_string s%string)
  (at level 1, s at level 0, only parsing) : rust_scope.

(** ** Fallible code: Rust's [Result] *)
Inductive result (A E : Type) : Type :=
| Ok (a : A)
| Err (e : E).
Arguments Ok {A E} a.
Arguments Err {A E} e.

Definition rbind {A B E} (r : result A E) (k : A -> result B E) : result B E :=
  match r with
  | Ok a => k a
  | Err e => Err e
  end.

(** [Result::map_err] *)
Definition map_err {A E F} (f : E -> F) (r : result A E) : result A F :=
  match r with
  | Ok a => Ok a
  | Err e => Err (f e)
  end.

(** [Option::ok_or] *)
Definition ok_or {A E} (o : option A) (e : E) : result A E :=
  match o with
  | Some a => Ok a
  | None => Err e
  end.

(** [Result::ok] *)
Definition rok {A E} (r : result A E) : option A :=
  match r with
  | Ok a => Some a
  | Err _ => None
  end.

(** [Option::or_else] *)
Definition or_else {A} (o p : option A) : option A :=
  match o with
  | Some a => Some a
  | None => p
  end.

Definition is_some {A} (o : option A) : bool :=
  match o with Some _ => true | None => false end.

Definition is_ok {A E} (r : result A E) : bool :=
  match r with
  | Ok _ => true
  | Err _ => false
  end.

Notation "'let?' x ':=' e 'in' k" := (rbind e (fun x => k))
  (at level 10, x pattern, e at level 100, k at level 200)
  : rust_scope.

Notation "'let*' x ':=' e 'in' k" := (mbind (fun x => k) e)
  (at level 10, x pattern, e at level 100, k at level 200)
  : rust_scope.

(** ** Machine integers: a value of a w-bit unsigned type is a [Z] in range *)
Definition in_width (w : Z) (z : Z) : Prop := (0 <= z < 2 ^ w)%Z.
Abbreviation is_u8 := (in_width 8).
Abbreviation is_u16 := (in_width 16).
Abbreviation is_u32 := (in_width 32).
Abbreviation is_u64 := (in_width 64).

Definition wrap (w : Z) (z : Z) : Z := (z mod 2 ^ w)%Z.

Definition u8_max : Z := 255.
Definition u16_max : Z := 65535.
Definition u32_max : Z := 4294967295.
Definition u64_max : Z := 18446744073709551615.

(** [(lo..hi).contains(&x)] *)
Definition in_range (lo hi x : Z) : bool := ((lo <=? x) && (x <? hi))%Z.

(** ** Record update: [r <| field := v |>]

    A record type declares its eta-expansion once ([Settable]); the setter of a
    field is read off it when it is used. *)
Class Settable (R : Type) := eta_of : R -> R.

Class Setter {R T : Type} (p : R -> T) := set : T -> R -> R.
Arguments set {R T} p {_} / v r : rename.

Ltac solve_setter :=
  match goal with
  | |- @Setter ?R ?T ?p =>
      let f := constr:(fun (v : T) (r : R) =>
        ltac:(let e := eval hnf in (eta_of r) in
              match eval pattern (p r) in e with
              | ?g _ => let t := eval cbv beta in (g v) in exact t
              end)) in
      exact f
  end.

#[export] Hint Extern 0 (Setter _) => solve_setter : typeclass_instances.

Notation "r '<|' p ':=' v '|>'" := (set p v r)
  (at level 1, left associativity) : rust_scope.

(** ** Automation *)
Create HintDb rsip.

(** Split every equation between constructors of [result] and [option], and
    every conjunction, in the context. *)
Ltac inv_res := simplify_eq; destruct_and?; simplify_eq.

(** Name the result of a closed computation [e : option _] that evaluates to
    [Some]. *)
Tactic Notation "compute_some" constr(e) "as" ident(x) ident(H) :=
  let Hs := fresh in
  assert (is_some e = true) as Hs by (vm_compute; reflexivity);
  destruct e as [x|] eqn:H; [clear Hs|discriminate Hs].

(** Turn boolean comparisons on [Z] in the context into propositions. *)
Ltac zbool :=
  repeat match goal with
  | H : (_ && _)%bool = true |- _ => apply andb_prop in H; destruct H
  | H : (_ && _)%bool = false |- _ => apply andb_false_iff in H
  | H : (_ || _)%bool = false |- _ => apply orb_false_iff in H; destruct H
  | H : (_ || _)%bool = true |- _ => apply orb_true_iff in H
  | H : negb _ = true |- _ => apply negb_true_iff in H
  | H : negb _ = false |- _ => apply negb_false_iff in H
  | H : (_ <? _)%Z = true |- _ => apply Z.ltb_lt in H
  | H : (_ <? _)%Z = false |- _ => apply Z.ltb_ge in H
  | H : (_ <=? _)%Z = true |- _ => apply Z.leb_le in H
  | H : (_ <=? _)%Z = false |- _ => apply Z.leb_gt in H
  | H : (_ =? _)%Z = true |- _ => apply Z.eqb_eq in H
  | H : (_ =? _)%Z = false |- _ => apply Z.eqb_neq in H
  end.

(** ** Shared lemmas *)

Lemma in_range_true lo hi x : in_range lo hi x = true <-> (lo <= x < hi)%Z.
Proof. unfold in_range. rewrite andb_true_iff, Z.leb_le, Z.ltb_lt. tauto. Qed.

Lemma in_range_false lo hi x : in_range lo hi x = false <-> (x < lo \/ hi <= x)%Z.
Proof. unfold in_range. rewrite andb_false_iff, Z.leb_gt, Z.ltb_ge. tauto. Qed.

(** The classes of a status code, as the transaction layer tests them. *)
Inductive code_class (c : Z) : bool -> bool -> bool -> Prop :=
| Class_1xx : (100 <= c < 200)%Z -> code_class c true false false
| Class_2xx : (200 <= c < 300)%Z -> code_class c false true false
| Class_fail : (300 <= c)%Z -> code_class c false false true
| Class_other : (c < 100)%Z -> code_class c false false false.

Lemma code_classP c :
  code_class c (in_range 100 200 c) (in_range 200 300 c) (300 <=? c)%Z.
Proof.
  unfold in_range.
  destruct (Z.leb_spec 100 c), (Z.ltb_spec c 200), (Z.leb_spec 200 c), (Z.ltb_spec c 300),
    (Z.leb_spec 300 c); simpl; try lia; constructor; lia.
Qed.

Lemma wrap_range w z : (0 <= w)%Z -> in_width w (wrap w z).
Proof.
  intros Hw. unfold in_width, wrap. apply Z.mod_pos_bound.
  apply Z.pow_pos_nonneg; lia.
Qed.

Lemma wrap_small w z : in_width w z -> wrap w z = z.
Proof. intros. unfold wrap. by apply Z.mod_small. Qed.

(** Disjoint bit fields add up. *)
Lemma lor_shiftl_add a b n :
  (0 <= n)%Z -> (0 <= b < 2 ^ n)%Z -> Z.lor (Z.shiftl a n) b = (a * 2 ^ n + b)%Z.
Proof.
  intros Hn H. rewrite <- Z.add_nocarry_lor; [by rewrite Z.shiftl_mul_pow2|].
  apply Z.bits_inj'. intros m Hm. rewrite Z.land_spec, Z.bits_0.
  destruct (Z.lt_ge_cases m n); [by rewrite Z.shiftl_spec_low|].
  destruct (Z.eq_dec b 0%Z) as [->|]; [by rewrite Z.bits_0, andb_false_r|].
  rewrite (Z.bits_above_log2 b m); [by rewrite andb_false_r|lia|].
  apply Z.log2_lt_pow2; [lia|]. apply Z.lt_le_trans with (2 ^ n)%Z; [lia|]. by apply Z.pow_le_mono_r; lia.
Qed.

#[export] Hint Resolve wrap_range wrap_small : rsip.
