(* ===== verification/RStr.v ===== *)
(** * Rust's [str] and integer formatting

    The operations of the Rust standard library the SIP layer uses on text:
    trimming and splitting (with Rust's Unicode notion of whitespace, on UTF-8
    bytes), searching, ASCII case folding, UTF-8 validation, decimal printing
    and [str::parse] at an unsigned width.  [str::to_lowercase] is modelled by
    its ASCII part. *)

From S2P Require Import Prelude.

Local Open Scope Z_scope.

(** ** Characters *)

Definition code (c : ascii) : Z := Z.of_N (N_of_ascii c).

Definition chr (z : Z) : ascii := ascii_of_N (Z.to_N z).

Definition is_ascii_digit (c : ascii) : bool := (48 <=? code c) && (code c <=? 57).

Definition lower (c : ascii) : ascii :=
  if (65 <=? code c) && (code c <=? 90) then chr (code c + 32) else c.

Definition upper (c : ascii) : ascii :=
  if (97 <=? code c) && (code c <=? 122) then chr (code c - 32) else c.

Definition to_ascii_lowercase (s : str) : str := map lower s.
Definition to_ascii_uppercase (s : str) : str := map upper s.

Definition eqb (a b : str) : bool := bool_decide (a = b).

Definition eq_ignore_ascii_case (a b : str) : bool :=
  eqb (to_ascii_lowercase a) (to_ascii_lowercase b).

Definition blen (s : str) : Z := Z.of_nat (length s).

Definition is_empty (s : str) : bool := match s with [] => true | _ => false end.

(** ** Whitespace: the code points with the Unicode property White_Space, as
    their UTF-8 encodings *)

Definition ws1 (a : ascii) : bool := ((9 <=? code a) && (code a <=? 13)) || (code a =? 32).

Definition ws2 (a b : ascii) : bool :=
  (code a =? 194) && ((code b =? 133) || (code b =? 160)).

Definition ws3 (a b c : ascii) : bool :=
  ((code a =? 225) && (code b =? 154) && (code c =? 128)) ||
  ((code a =? 226) && (code b =? 128) &&
    (((128 <=? code c) && (code c <=? 138)) ||
     (code c =? 168) || (code c =? 169) || (code c =? 175))) ||
  ((code a =? 226) && (code b =? 129) && (code c =? 159)) ||
  ((code a =? 227) && (code b =? 128) && (code c =? 128)).

(** Number of bytes of the whitespace character [s] starts with, 0 if none. *)
Definition ws_len (s : str) : nat :=
  match s with
  | [] => 0
  | a :: r =>
      if ws1 a then 1 else
      match r with
      | [] => 0
      | b :: r' =>
          if ws2 a b then 2 else
          match r' with
          | [] => 0
          | c :: _ => if ws3 a b c then 3 else 0
          end
      end
  end%nat.

(** The same for the last character, on the reversed bytes. *)
Definition ws_len_rev (s : str) : nat :=
  match s with
  | [] => 0
  | a :: r =>
      if ws1 a then 1 else
      match r with
      | [] => 0
      | b :: r' =>
          if ws2 b a then 2 else
          match r' with
          | [] => 0
          | c :: _ => if ws3 c b a then 3 else 0
          end
      end
  end%nat.

(** Drop leading whitespace characters; [skip] counts the bytes that remain of
    the character being dropped. *)
Fixpoint strip_ws (wl : str -> nat) (skip : nat) (s : str) : str :=
  match s with
  | [] => []
  | _ :: r =>
      match skip with
      | S k => strip_ws wl k r
      | O =>
          match wl s with
          | O => s
          | S k => strip_ws wl k r
          end
      end
  end.

Definition trim_start (s : str) : str := strip_ws ws_len 0 s.
Definition trim_end (s : str) : str := reverse (strip_ws ws_len_rev 0 (reverse s)).
Definition trim (s : str) : str := trim_end (trim_start s).

(** [str::split_whitespace], collected. *)
Fixpoint split_ws (skip : nat) (acc : str) (s : str) : list str :=
  let flush := match acc with [] => [] | _ => [acc] end in
  match s with
  | [] => flush
  | c :: r =>
      match skip with
      | S k => split_ws k acc r
      | O =>
          match ws_len s with
          | O => split_ws 0 (acc ++ [c]) r
          | S k => flush ++ split_ws k [] r
          end
      end
  end.

Definition split_whitespace (s : str) : list str := split_ws 0 [] s.

(** ** Searching *)

(** [s.find(c)] with the two slices around the match: [s[..i]], [s[i+1..]]. *)
Fixpoint split_once (c : ascii) (s : str) : option (str * str) :=
  match s with
  | [] => None
  | d :: r =>
      if bool_decide (d = c) then Some ([], r)
      else match split_once c r with
           | Some (a, b) => Some (d :: a, b)
           | None => None
           end
  end.

(** [s.rfind(c)] with the two slices around the last match. *)
Fixpoint rsplit_once (c : ascii) (s : str) : option (str * str) :=
  match s with
  | [] => None
  | d :: r =>
      match rsplit_once c r with
      | Some (a, b) => Some (d :: a, b)
      | None => if bool_decide (d = c) then Some ([], r) else None
      end
  end.

(** [s.split(c)], collected: never empty. *)
Fixpoint split (c : ascii) (s : str) : list str :=
  match s with
  | [] => [[]]
  | d :: r =>
      if bool_decide (d = c) then [] :: split c r
      else match split c r with
           | h :: t => (d :: h) :: t
           | [] => [[d]]
           end
  end.

Fixpoint strip_prefix (p s : str) : option str :=
  match p, s with
  | [], _ => Some s
  | a :: p', b :: s' => if bool_decide (a = b) then strip_prefix p' s' else None
  | _ :: _, [] => None
  end.

Definition starts_with (p s : str) : bool :=
  match strip_prefix p s with Some _ => true | None => false end.

(** [s.find(p)] for a string pattern: the slices before the match and after it. *)
Fixpoint split_once_str (p s : str) : option (str * str) :=
  match strip_prefix p s with
  | Some rest => Some ([], rest)
  | None =>
      match s with
      | [] => None
      | d :: r =>
          match split_once_str p r with
          | Some (a, b) => Some (d :: a, b)
          | None => None
          end
      end
  end.

Definition contains (p s : str) : bool :=
  match split_once_str p s with Some _ => true | None => false end.

Definition contains_char (c : ascii) (s : str) : bool := existsb (fun d => bool_decide (d = c)) s.

(** [[a, b, c].join(sep)] *)
Fixpoint join (sep : str) (l : list str) : str :=
  match l with
  | [] => []
  | [a] => a
  | a :: r => a ++ sep ++ join sep r
  end.

(** ** Lines: [str::lines] (separators [\n] and [\r\n], no final empty line) *)

Definition LF : ascii := chr 10.
Definition CR : ascii := chr 13.
Definition CRLF : str := [CR; LF].

Definition strip_cr (s : str) : str :=
  match reverse s with
  | c :: r => if bool_decide (c = CR) then reverse r else s
  | [] => s
  end.

(** [split_inclusive('\n')] with the terminator of each piece removed, together
    with the carriage return before it.  The last piece has no terminator. *)
Fixpoint lines_of (pieces : list str) : list str :=
  match pieces with
  | [] => []
  | [last] => if is_empty last then [] else [last]
  | p :: r => strip_cr p :: lines_of r
  end.

Definition lines (s : str) : list str := lines_of (split LF s).

(** ** UTF-8 validation: [std::str::from_utf8] *)

Definition cont (c : ascii) : bool := (128 <=? code c) && (code c <=? 191).

Definition btw (lo hi : Z) (c : ascii) : bool := (lo <=? code c) && (code c <=? hi).

Fixpoint utf8_valid (s : str) : bool :=
  match s with
  | [] => true
  | a :: r =>
      if code a <? 128 then utf8_valid r else
      match r with
      | [] => false
      | b :: r2 =>
          if btw 194 223 a then cont b && utf8_valid r2 else
          match r2 with
          | [] => false
          | c :: r3 =>
              if ((code a =? 224) && btw 160 191 b) ||
                 (btw 225 236 a && cont b) ||
                 ((code a =? 237) && btw 128 159 b) ||
                 (btw 238 239 a && cont b)
              then cont c && utf8_valid r3 else
              match r3 with
              | [] => false
              | d :: r4 =>
                  if ((code a =? 240) && btw 144 191 b) ||
                     (btw 241 243 a && cont b) ||
                     ((code a =? 244) && btw 128 143 b)
                  then cont c && cont d && utf8_valid r4 else false
              end
          end
      end
  end.

(** ** Decimal numbers *)

Definition digit (d : Z) : ascii := chr (48 + d).
Definition digit_val (c : ascii) : Z := code c - 48.

Fixpoint dec_aux (fuel : nat) (n : Z) (acc : str) : str :=
  match fuel with
  | O => acc
  | S f =>
      let acc' := digit (n mod 10) :: acc in
      if n <? 10 then acc' else dec_aux f (n / 10) acc'
  end.

(** [n.to_string()] for an unsigned [n]. *)
Definition dec (n : Z) : str := dec_aux (S (Z.to_nat (Z.log2 n))) n [].

(** One step of [uN::from_str]: a digit, checked multiplication and addition. *)
Definition parse_step (max : Z) (acc : option Z) (c : ascii) : option Z :=
  match acc with
  | Some n =>
      if is_ascii_digit c then
        let m := n * 10 + digit_val c in
        if m <=? max then Some m else None
      else None
  | None => None
  end.

(** [s.parse::<uN>().ok()] where [max] is [uN::MAX]: an optional sign [+], then
    one or more digits. *)
Definition parse_uint (max : Z) (s : str) : option Z :=
  let body := match s with
              | c :: r => if bool_decide (c = "+"%char) then r else s
              | [] => s
              end in
  match body with
  | [] => None
  | _ => foldl (parse_step max) (Some 0) body
  end.

(** ** Lemmas *)

Lemma code_range c : 0 <= code c < 256.
Proof. unfold code. pose proof (N_ascii_bounded c). lia. Qed.

Lemma code_chr z : 0 <= z < 256 -> code (chr z) = z.
Proof. intros. unfold code, chr. rewrite N_ascii_embedding; lia. Qed.

Lemma chr_code c : chr (code c) = c.
Proof. unfold code, chr. rewrite N2Z.id. apply ascii_N_embedding. Qed.

Lemma code_inj a b : code a = code b -> a = b.
Proof. intros H. by rewrite <- (chr_code a), <- (chr_code b), H. Qed.

Lemma eqb_true a b : eqb a b = true <-> a = b.
Proof. unfold eqb. apply bool_decide_eq_true. Qed.

Lemma eq_ignore_case_refl s : eq_ignore_ascii_case s s = true.
Proof. by apply eqb_true. Qed.

Lemma eq_ignore_case_trans a b c :
  eq_ignore_ascii_case a b = true -> eq_ignore_ascii_case b c = true ->
  eq_ignore_ascii_case a c = true.
Proof. unfold eq_ignore_ascii_case. rewrite !eqb_true. congruence. Qed.

Lemma eq_ignore_case_sym a b :
  eq_ignore_ascii_case a b = eq_ignore_ascii_case b a.
Proof.
  unfold eq_ignore_ascii_case, eqb. apply bool_decide_ext. split; congruence.
Qed.

(** A character of a token: an ASCII character that is not whitespace. *)
Definition tokc (c : ascii) : bool := (code c <? 128) && negb (ws1 c).

Lemma ws_len_tok c r : tokc c = true -> ws_len (c :: r) = 0%nat.
Proof.
  unfold tokc. intros H. zbool. simpl.
  assert (forall b, ws2 c b = false) as E2.
  { intros b. unfold ws2. destruct (Z.eqb_spec (code c) 194); simpl; [lia | done]. }
  assert (forall b d, ws3 c b d = false) as E3.
  { intros b d. unfold ws3.
    destruct (Z.eqb_spec (code c) 225), (Z.eqb_spec (code c) 226),
      (Z.eqb_spec (code c) 227); lia || done. }
  rewrite H0. destruct r as [|b r]; [done|]. rewrite E2.
  destruct r as [|d r]; [done|]. by rewrite E3.
Qed.

Lemma ws_len_rev_tok c r : tokc c = true -> ws_len_rev (c :: r) = 0%nat.
Proof.
  unfold tokc. intros H. zbool. simpl.
  assert (forall b, ws2 b c = false) as E2.
  { intros b. unfold ws2.
    destruct (Z.eqb_spec (code c) 133), (Z.eqb_spec (code c) 160); try lia;
    by rewrite andb_false_r. }
  assert (forall b d, ws3 d b c = false) as E3.
  { intros b d. unfold ws3.
    repeat match goal with
    | |- context [(?x =? code c)] => rewrite (Z.eqb_sym x (code c))
    end.
    destruct (Z.eqb_spec (code c) 128), (Z.eqb_spec (code c) 168),
      (Z.eqb_spec (code c) 169), (Z.eqb_spec (code c) 175),
      (Z.eqb_spec (code c) 159), (Z.leb_spec 128 (code c)); try lia;
    by rewrite !andb_false_r. }
  rewrite H0. destruct r as [|b r]; [done|]. rewrite E2.
  destruct r as [|d r]; [done|]. by rewrite E3.
Qed.

Lemma trim_start_tok c r : tokc c = true -> trim_start (c :: r) = c :: r.
Proof. intros H. unfold trim_start. cbn [strip_ws]. by rewrite ws_len_tok. Qed.

Lemma trim_end_tok s c : tokc c = true -> trim_end (s ++ [c]) = s ++ [c].
Proof.
  intros H. unfold trim_end. rewrite reverse_app, reverse_singleton.
  cbn [app strip_ws]. rewrite ws_len_rev_tok by done.
  by rewrite reverse_cons, reverse_involutive.
Qed.

(** A string that neither starts nor ends with whitespace is its own trim. *)
Lemma trim_tok s :
  (forall c r, s = c :: r -> tokc c = true) ->
  (forall r c, s = r ++ [c] -> tokc c = true) ->
  trim s = s.
Proof.
  intros Hs He. unfold trim.
  assert (trim_start s = s) as ->.
  { destruct s as [|c r]; [done|]. apply trim_start_tok. eauto. }
  destruct s as [|c r] using rev_ind; [done|]. apply trim_end_tok. eauto.
Qed.

Lemma trim_all_tok s : Forall (fun c => tokc c = true) s -> trim s = s.
Proof.
  intros H. apply trim_tok.
  - intros c r ->. by inversion H.
  - intros r c ->. apply Forall_app in H as [_ H]. by inversion H.
Qed.

Lemma split_ws_tok a acc r :
  Forall (fun c => tokc c = true) a ->
  split_ws 0 acc (a ++ r) = split_ws 0 (acc ++ a) r.
Proof.
  revert acc. induction a as [|c a IH]; intros acc H; simpl.
  - by rewrite app_nil_r.
  - inversion H as [|? ? Hc Ha]; subst.
    pose proof (ws_len_tok c (a ++ r) Hc) as E. simpl in E. rewrite E.
    rewrite IH by done. by rewrite <- app_assoc.
Qed.

Lemma split_ws_space acc r :
  acc <> [] -> split_ws 0 acc (" "%char :: r) = acc :: split_ws 0 [] r.
Proof. intros H. simpl. by destruct acc. Qed.

Lemma split_ws_end acc : acc <> [] -> split_ws 0 acc [] = [acc].
Proof. by destruct acc. Qed.

(** Tokens joined by single spaces split back into the tokens. *)
Lemma split_whitespace_join (l : list str) :
  Forall (fun s => s <> [] /\ Forall (fun c => tokc c = true) s) l ->
  split_whitespace (join [" "%char] l) = l.
Proof.
  unfold split_whitespace.
  induction l as [|a l IH]; intros H; [done|].
  inversion H as [|? ? [Hne Ha] Hl]; subst.
  destruct l as [|b l].
  - simpl. rewrite <- (app_nil_r a) at 1. rewrite split_ws_tok by done.
    simpl. by destruct a.
  - simpl join. rewrite split_ws_tok by done. rewrite app_nil_l.
    change ([" "%char] ++ ?x) with (" "%char :: x).
    rewrite split_ws_space by done. f_equal. by apply IH.
Qed.

Lemma split_once_none c s : ~ In c s -> split_once c s = None.
Proof.
  induction s as [|d r IH]; intros H; [done|]. simpl in *.
  rewrite bool_decide_eq_false_2 by naive_solver. rewrite IH; naive_solver.
Qed.

Lemma split_once_app c a b : ~ In c a -> split_once c (a ++ c :: b) = Some (a, b).
Proof.
  induction a as [|d a IH]; intros H; simpl in *.
  - by rewrite bool_decide_eq_true_2.
  - rewrite bool_decide_eq_false_2 by naive_solver. rewrite IH; naive_solver.
Qed.

Lemma split_once_Some c s a b : split_once c s = Some (a, b) -> s = a ++ c :: b /\ ~ In c a.
Proof.
  revert a b. induction s as [|d r IH]; intros a b H; simpl in H; [done|].
  case_bool_decide; [simplify_eq; simpl; by split; [|intros []]|].
  destruct (split_once c r) as [[a' b']|]; [|done].
  destruct (IH a' b' eq_refl) as [-> ?]. simplify_eq. simpl. split; [done|tauto].
Qed.

Lemma strip_prefix_app p s : strip_prefix p (p ++ s) = Some s.
Proof. induction p; simpl; [done|]. by rewrite bool_decide_eq_true_2. Qed.

Lemma strip_prefix_Some p s r : strip_prefix p s = Some r -> s = p ++ r.
Proof.
  revert s. induction p as [|a p IH]; intros s H; simpl in *; [by simplify_eq|].
  destruct s as [|b s]; [done|]. case_bool_decide; [|done]. subst.
  by rewrite (IH s).
Qed.

(** *** Decimal *)

Lemma code_digit d : 0 <= d < 10 -> code (digit d) = 48 + d.
Proof. intros. unfold digit. apply code_chr. lia. Qed.

Lemma is_digit_digit d : 0 <= d < 10 -> is_ascii_digit (digit d) = true.
Proof.
  intros. unfold is_ascii_digit. rewrite code_digit by done.
  apply andb_true_intro. split; apply Z.leb_le; lia.
Qed.

Lemma digit_val_digit d : 0 <= d < 10 -> digit_val (digit d) = d.
Proof. intros. unfold digit_val. rewrite code_digit; lia. Qed.

Lemma dec_aux_app f n acc : dec_aux f n acc = dec_aux f n [] ++ acc.
Proof.
  revert n acc. induction f as [|f IH]; intros n acc; [done|]. simpl.
  destruct (n <? 10); [done|].
  rewrite IH, (IH _ [_]), <- app_assoc. done.
Qed.

Lemma parse_step_digit max a d :
  0 <= d < 10 -> a * 10 + d <= max ->
  parse_step max (Some a) (digit d) = Some (a * 10 + d).
Proof.
  intros. simpl. rewrite is_digit_digit, digit_val_digit by done.
  by destruct (Z.leb_spec (a * 10 + d) max); [|lia].
Qed.

Lemma foldl_dec_aux max f n :
  0 <= n <= max -> n < 10 ^ Z.of_nat f ->
  foldl (parse_step max) (Some 0) (dec_aux f n []) = Some n.
Proof.
  revert n. induction f as [|f IH]; intros n Hn Hf.
  - simpl in *. f_equal. lia.
  - simpl dec_aux. pose proof (Z.mod_pos_bound n 10 ltac:(lia)).
    pose proof (Z.div_mod n 10 ltac:(lia)) as Hdm.
    destruct (Z.ltb_spec n 10) as [Hlt|Hge].
    + rewrite Z.mod_small by lia. cbn [foldl].
      rewrite parse_step_digit by lia. done.
    + rewrite dec_aux_app, foldl_app, IH.
      * cbn [foldl]. rewrite parse_step_digit by lia. f_equal. lia.
      * split; [apply Z.div_pos; lia|].
        apply Z.div_le_upper_bound; lia.
      * apply Z.div_lt_upper_bound; [lia|].
        rewrite Nat2Z.inj_succ, Z.pow_succ_r in Hf by lia. lia.
Qed.

Lemma dec_fuel n : 0 <= n -> n < 10 ^ Z.of_nat (S (Z.to_nat (Z.log2 n))).
Proof.
  intros Hn. rewrite Nat2Z.inj_succ, Z2Nat.id by apply Z.log2_nonneg.
  destruct (Z.eq_dec n 0) as [->|]; [done|].
  apply Z.lt_le_trans with (2 ^ Z.succ (Z.log2 n)).
  - apply Z.log2_spec. lia.
  - apply Z.pow_le_mono_l. lia.
Qed.

Lemma dec_aux_digits f n acc :
  0 <= n ->
  Forall (fun c => is_ascii_digit c = true) acc ->
  Forall (fun c => is_ascii_digit c = true) (dec_aux f n acc).
Proof.
  revert n acc. induction f as [|f IH]; intros n acc Hn Ha; [done|]. simpl.
  assert (Forall (fun c => is_ascii_digit c = true) (digit (n mod 10) :: acc)).
  { constructor; [|done]. apply is_digit_digit. apply Z.mod_pos_bound. lia. }
  destruct (n <? 10); [done|]. apply IH; [|done]. apply Z.div_pos; lia.
Qed.

Lemma dec_digits n : 0 <= n -> Forall (fun c => is_ascii_digit c = true) (dec n).
Proof. intros. by apply dec_aux_digits. Qed.

Lemma dec_nonempty n : dec n <> [].
Proof.
  unfold dec. simpl. destruct (n <? 10); [done|].
  rewrite dec_aux_app. intros H. apply (f_equal length) in H.
  rewrite length_app in H. simpl in H. lia.
Qed.

Lemma digit_tokc c : is_ascii_digit c = true -> tokc c = true.
Proof.
  unfold is_ascii_digit, tokc, ws1. intros H. zbool.
  apply andb_true_intro. split; [apply Z.ltb_lt; lia|].
  apply negb_true_iff. apply orb_false_iff. split; [|apply Z.eqb_neq; lia].
  apply andb_false_iff. right. apply Z.leb_gt. lia.
Qed.

Lemma dec_tok n : 0 <= n -> Forall (fun c => tokc c = true) (dec n).
Proof. intros. eapply Forall_impl; [by apply dec_digits|]. apply digit_tokc. Qed.

Lemma digit_not_plus c : is_ascii_digit c = true -> c <> "+"%char.
Proof. intros H ->. vm_compute in H. done. Qed.

(** Printing a number and parsing it back at any width that holds it. *)
Lemma parse_dec max n : 0 <= n <= max -> parse_uint max (dec n) = Some n.
Proof.
  intros Hn. unfold parse_uint.
  pose proof (dec_digits n ltac:(lia)) as Hd.
  pose proof (dec_nonempty n).
  pose proof (foldl_dec_aux max _ n Hn (dec_fuel n ltac:(lia))) as E.
  fold (dec n) in E.
  destruct (dec n) as [|c r] eqn:D; [done|].
  inversion Hd; subst.
  rewrite bool_decide_eq_false_2 by by apply digit_not_plus. done.
Qed.

Lemma foldl_parse_None max s : foldl (parse_step max) None s = None.
Proof. by induction s. Qed.

Lemma foldl_parse_bound max s a n :
  0 <= a <= max -> foldl (parse_step max) (Some a) s = Some n -> 0 <= n <= max.
Proof.
  revert a. induction s as [|c s IH]; intros a Ha H; cbn [foldl] in H; [by simplify_eq|].
  destruct (parse_step max (Some a) c) as [m|] eqn:E; [|by rewrite foldl_parse_None in H].
  apply (IH m); [|done]. simpl in E. unfold is_ascii_digit, digit_val in E.
  destruct (Z.leb_spec 48 (code c)), (Z.leb_spec (code c) 57); simpl in E; try done.
  destruct (Z.leb_spec (a * 10 + (code c - 48)) max); [|done]. simplify_eq. lia.
Qed.

(** [str::parse] at a width returns a value of that width. *)
Lemma parse_uint_bound max s n : 0 <= max -> parse_uint max s = Some n -> 0 <= n <= max.
Proof.
  intros Hm. unfold parse_uint.
  destruct (match s with [] => s | _ => _ end) as [|c r]; [done|].
  intros H. eapply foldl_parse_bound; [|exact H]. lia.
Qed.

#[export] Hint Resolve dec_tok dec_nonempty digit_tokc : rsip.

(** *** Trimmed strings: no whitespace character at either end *)

Definition trimmed (s : str) : Prop := ws_len s = 0%nat /\ ws_len_rev (reverse s) = 0%nat.

Lemma strip_ws_stops wl k s : wl [] = 0%nat -> wl (strip_ws wl k s) = 0%nat.
Proof.
  intros H0. revert k. induction s as [|c s IH]; intros k; [done|].
  cbn [strip_ws]. destruct k; [|done]. by destruct (wl (c :: s)) eqn:E.
Qed.

Lemma strip_ws_suffix wl k s : exists p, s = p ++ strip_ws wl k s.
Proof.
  revert k. induction s as [|c s IH]; intros k; [by exists []|].
  cbn [strip_ws]. destruct k as [|k]; [destruct (wl (c :: s)) as [|k]; [by exists []|]|];
    destruct (IH k) as [p Hp]; exists (c :: p); simpl; congruence.
Qed.

Lemma strip_ws_id wl s : wl s = 0%nat -> strip_ws wl 0 s = s.
Proof. intros H. destruct s; [done|]. cbn [strip_ws]. by rewrite H. Qed.

Lemma ws_len_prefix a b : ws_len (a ++ b) = 0%nat -> ws_len a = 0%nat.
Proof.
  destruct a as [|x [|y [|z a]]]; simpl; [done| | |done].
  - by destruct (ws1 x).
  - by destruct (ws1 x), (ws2 x y).
Qed.

Lemma trim_trimmed s : trimmed (trim s).
Proof.
  unfold trim, trim_end. split.
  - destruct (strip_ws_suffix ws_len_rev 0 (reverse (trim_start s))) as [p Hp].
    apply (f_equal reverse) in Hp. rewrite reverse_involutive, reverse_app in Hp.
    apply (ws_len_prefix _ (reverse p)). rewrite <- Hp. by apply strip_ws_stops.
  - rewrite reverse_involutive. by apply strip_ws_stops.
Qed.

Lemma trimmed_trim s : trimmed s -> trim s = s.
Proof.
  intros [H1 H2]. unfold trim, trim_start, trim_end.
  rewrite (strip_ws_id ws_len s H1), (strip_ws_id ws_len_rev _ H2). apply reverse_involutive.
Qed.

Lemma trim_sub s c : In c (trim s) -> In c s.
Proof.
  unfold trim, trim_start, trim_end. intros H.
  destruct (strip_ws_suffix ws_len 0 s) as [p ->]. apply in_app_iff. right.
  rewrite <- list_elem_of_In, elem_of_reverse, list_elem_of_In in H.
  destruct (strip_ws_suffix ws_len_rev 0 (reverse (strip_ws ws_len 0 s))) as [q Hq].
  apply list_elem_of_In. rewrite <- elem_of_reverse, Hq. apply elem_of_app. right.
  by apply list_elem_of_In.
Qed.

Lemma trim_space s : trim (" "%char :: s) = trim s.
Proof. reflexivity. Qed.

(** Lower-casing leaves the bytes outside the letters alone. *)
Lemma code_lower c :
  code (lower c) = code c \/ (65 <= code c <= 90 /\ code (lower c) = code c + 32).
Proof.
  unfold lower. destruct (_ && _) eqn:E; [|by left]. right. zbool.
  rewrite code_chr by lia. lia.
Qed.

Lemma lower_eqb c k : k < 65 \/ 122 < k -> (code (lower c) =? k) = (code c =? k).
Proof.
  intros Hk. destruct (code_lower c) as [->|[? ->]]; [done|].
  destruct (Z.eqb_spec (code c + 32) k), (Z.eqb_spec (code c) k); lia || done.
Qed.

Lemma lower_leb_r c k : k < 65 \/ 122 < k -> (code (lower c) <=? k) = (code c <=? k).
Proof.
  intros Hk. destruct (code_lower c) as [->|[? ->]]; [done|].
  destruct (Z.leb_spec (code c + 32) k), (Z.leb_spec (code c) k); lia || done.
Qed.

Lemma lower_leb_l c k : k < 65 \/ 122 < k -> (k <=? code (lower c)) = (k <=? code c).
Proof.
  intros Hk. destruct (code_lower c) as [->|[? ->]]; [done|].
  destruct (Z.leb_spec k (code c + 32)), (Z.leb_spec k (code c)); lia || done.
Qed.

Lemma ws1_lower a : ws1 (lower a) = ws1 a.
Proof. unfold ws1. by rewrite lower_leb_l, lower_leb_r, lower_eqb by lia. Qed.

Lemma ws2_lower a b : ws2 (lower a) (lower b) = ws2 a b.
Proof. unfold ws2. by rewrite !lower_eqb by lia. Qed.

Lemma ws3_lower a b c : ws3 (lower a) (lower b) (lower c) = ws3 a b c.
Proof. unfold ws3. by rewrite !lower_eqb, lower_leb_l, lower_leb_r by lia. Qed.

Lemma trimmed_lower s : trimmed s -> trimmed (to_ascii_lowercase s).
Proof.
  unfold trimmed, to_ascii_lowercase. rewrite <- fmap_reverse.
  assert (forall s, ws_len (map lower s) = ws_len s) as E1.
  { intros [|a [|b [|c r]]]; simpl; by rewrite ?ws1_lower, ?ws2_lower, ?ws3_lower. }
  assert (forall s, ws_len_rev (map lower s) = ws_len_rev s) as E2.
  { intros [|a [|b [|c r]]]; simpl; by rewrite ?ws1_lower, ?ws2_lower, ?ws3_lower. }
  intros [H1 H2]. by rewrite E1, E2.
Qed.

Lemma lower_lower c : lower (lower c) = lower c.
Proof. by destruct c as [[] [] [] [] [] [] [] []]. Qed.

Lemma lowercase_idem s : to_ascii_lowercase (to_ascii_lowercase s) = to_ascii_lowercase s.
Proof. unfold to_ascii_lowercase. rewrite map_map. apply map_ext, lower_lower. Qed.

Lemma lower_comma c : lower c = ","%char -> c = ","%char.
Proof. by destruct c as [[] [] [] [] [] [] [] []]. Qed.

(** Splitting undoes joining when no piece holds the separator. *)
Lemma contains_char_in c s : contains_char c s = true <-> In c s.
Proof.
  unfold contains_char. rewrite existsb_exists. split.
  - intros (x & Hx & E). apply bool_decide_eq_true in E. by subst.
  - intros H. exists c. split; [done|]. by apply bool_decide_eq_true.
Qed.

Lemma split_no c s : ~ In c s -> split c s = [s].
Proof.
  induction s as [|d s IH]; intros H; [done|]. simpl in *.
  rewrite bool_decide_false by tauto. by rewrite IH by tauto.
Qed.

Lemma split_app c a b : ~ In c a -> split c (a ++ c :: b) = a :: split c b.
Proof.
  induction a as [|d a IH]; intros H; simpl in *.
  - by rewrite bool_decide_true.
  - rewrite bool_decide_false by tauto. by rewrite IH by tauto.
Qed.

Lemma split_pieces c s : Forall (fun p => ~ In c p) (split c s).
Proof.
  induction s as [|d s IH]; simpl; [apply Forall_singleton; tauto|].
  case_bool_decide as Hd; [constructor; [simpl; tauto|done]|].
  destruct (split c s) as [|h t].
  - apply Forall_singleton. simpl. tauto.
  - inversion IH; subst. constructor; [simpl; tauto|done].
Qed.

Lemma split_join_sp c t ts :
  c <> " "%char -> Forall (fun p => ~ In c p) (t :: ts) ->
  split c (join [c; " "%char] (t :: ts)) = t :: map (cons " "%char) ts.
Proof.
  intros Hc. revert t. induction ts as [|u ts IH]; intros t H; inversion H as [|? ? Ht Hu]; subst.
  - simpl. by apply split_no.
  - change (join [c; " "%char] (t :: u :: ts))
      with (t ++ c :: " "%char :: join [c; " "%char] (u :: ts)).
    rewrite split_app by done. f_equal. specialize (IH u Hu).
    change (split c (" "%char :: ?x)) with
      (if bool_decide (" "%char = c) then [] :: split c x
       else match split c x with h :: t => (" "%char :: h) :: t | [] => [[" "%char]] end).
    rewrite bool_decide_false by congruence. by rewrite IH.
Qed.
