(* ===== verification/SipBase.v ===== *)
(** * SIP base types

    [core/error.rs] ([SipError]), [sip/parser/method.rs] and the [Method] of
    [sip/message.rs], [sip/parser/status.rs] and [sip/parser/typed/cseq.rs].
    The text carried by an error is not modelled: an error is its constructor
    (with the header name for a missing header). *)

From S2P Require Import Prelude RStr.

Local Open Scope Z_scope.

(** ** Errors *)
Inductive SipError : Type :=
| Parse
| InvalidHeader
| MissingHeader (name : str)
| TransactionTimeout
| TransactionNotFound
| DialogNotFound
| InvalidDialogState
| AuthenticationFailed
| ResponseError (code : Z)
| RequestUriMismatch.

#[export] Instance SipError_eq_dec : EqDecision SipError.
Proof. solve_decision. Defined.

(** ** Methods: the parser's enum *)
Module PMethod.

Inductive t : Type :=
| Invite | Ack | Bye | Cancel | Register | Options | Info | Update
| Refer | Notify | Subscribe | Prack | Message | Publish.

#[global] Instance eq_dec : EqDecision t.
Proof. solve_decision. Defined.

Definition as_str (m : t) : str :=
  match m with
  | Invite => #"INVITE"
  | Ack => #"ACK"
  | Bye => #"BYE"
  | Cancel => #"CANCEL"
  | Register => #"REGISTER"
  | Options => #"OPTIONS"
  | Info => #"INFO"
  | Update => #"UPDATE"
  | Refer => #"REFER"
  | Notify => #"NOTIFY"
  | Subscribe => #"SUBSCRIBE"
  | Prack => #"PRACK"
  | Message => #"MESSAGE"
  | Publish => #"PUBLISH"
  end.

Definition creates_dialog (m : t) : bool :=
  match m with Invite | Subscribe => true | _ => false end.

Definition requires_ack (m : t) : bool :=
  match m with Invite => true | _ => false end.

Definition all : list t :=
  [Invite; Ack; Bye; Cancel; Register; Options; Info; Update; Refer; Notify;
   Subscribe; Prack; Message; Publish].

(** [FromStr]: the first method whose token matches, ignoring ASCII case. *)
Definition from_str (s : str) : result t SipError :=
  match find (fun m => eq_ignore_ascii_case s (as_str m)) all with
  | Some m => Ok m
  | None => Err Parse
  end.

End PMethod.

(** ** Methods: the public enum of [sip/message.rs] *)
Inductive Method : Type :=
| Invite | Ack | Bye | Cancel | Register | Options | Prack | Subscribe
| Notify | Publish | Info | Refer | Message | Update.

#[export] Instance Method_eq_dec : EqDecision Method.
Proof. solve_decision. Defined.

Definition method_creates_dialog (m : Method) : bool :=
  match m with Invite | Subscribe => true | _ => false end.

Definition is_invite (m : Method) : bool :=
  match m with Invite => true | _ => false end.

Definition method_from_parser (m : PMethod.t) : Method :=
  match m with
  | PMethod.Invite => Invite
  | PMethod.Ack => Ack
  | PMethod.Bye => Bye
  | PMethod.Cancel => Cancel
  | PMethod.Register => Register
  | PMethod.Options => Options
  | PMethod.Prack => Prack
  | PMethod.Subscribe => Subscribe
  | PMethod.Notify => Notify
  | PMethod.Publish => Publish
  | PMethod.Info => Info
  | PMethod.Refer => Refer
  | PMethod.Message => Message
  | PMethod.Update => Update
  end.

Definition method_to_parser (m : Method) : PMethod.t :=
  match m with
  | Invite => PMethod.Invite
  | Ack => PMethod.Ack
  | Bye => PMethod.Bye
  | Cancel => PMethod.Cancel
  | Register => PMethod.Register
  | Options => PMethod.Options
  | Prack => PMethod.Prack
  | Subscribe => PMethod.Subscribe
  | Notify => PMethod.Notify
  | Publish => PMethod.Publish
  | Info => PMethod.Info
  | Refer => PMethod.Refer
  | Message => PMethod.Message
  | Update => PMethod.Update
  end.

(** [Display for Method] *)
Definition method_to_string (m : Method) : str :=
  match m with
  | Invite => #"INVITE"
  | Ack => #"ACK"
  | Bye => #"BYE"
  | Cancel => #"CANCEL"
  | Register => #"REGISTER"
  | Options => #"OPTIONS"
  | Prack => #"PRACK"
  | Subscribe => #"SUBSCRIBE"
  | Notify => #"NOTIFY"
  | Publish => #"PUBLISH"
  | Info => #"INFO"
  | Refer => #"REFER"
  | Message => #"MESSAGE"
  | Update => #"UPDATE"
  end.

Definition method_all : list (Method * str) :=
  [(Invite, #"INVITE"); (Ack, #"ACK"); (Bye, #"BYE"); (Cancel, #"CANCEL");
   (Register, #"REGISTER"); (Options, #"OPTIONS"); (Prack, #"PRACK");
   (Subscribe, #"SUBSCRIBE"); (Notify, #"NOTIFY"); (Publish, #"PUBLISH");
   (Info, #"INFO"); (Refer, #"REFER"); (Message, #"MESSAGE"); (Update, #"UPDATE")].

(** [FromStr for Method] *)
Definition method_from_str (s : str) : result Method SipError :=
  match find (fun p => eq_ignore_ascii_case s (snd p)) method_all with
  | Some (m, _) => Ok m
  | None => Err Parse
  end.

(** ** Status codes *)
Module StatusCode.

(** The newtype [StatusCode(u16)]. *)
Record t : Type := new { as_u16 : Z }.

#[global] Instance eq_dec : EqDecision t.
Proof. solve_decision. Defined.

Definition is_provisional (c : t) : bool := in_range 100 200 (as_u16 c).
Definition is_success (c : t) : bool := in_range 200 300 (as_u16 c).
Definition is_redirection (c : t) : bool := in_range 300 400 (as_u16 c).
Definition is_client_error (c : t) : bool := in_range 400 500 (as_u16 c).
Definition is_server_error (c : t) : bool := in_range 500 600 (as_u16 c).
Definition is_global_failure (c : t) : bool := in_range 600 700 (as_u16 c).
Definition is_final (c : t) : bool := 200 <=? as_u16 c.

Definition reason_table : list (Z * str) :=
  [(100, #"Trying"); (180, #"Ringing"); (181, #"Call Is Being Forwarded");
   (182, #"Queued"); (183, #"Session Progress");
   (200, #"OK"); (202, #"Accepted");
   (300, #"Multiple Choices"); (301, #"Moved Permanently");
   (302, #"Moved Temporarily"); (305, #"Use Proxy"); (380, #"Alternative Service");
   (400, #"Bad Request"); (401, #"Unauthorized"); (402, #"Payment Required");
   (403, #"Forbidden"); (404, #"Not Found"); (405, #"Method Not Allowed");
   (406, #"Not Acceptable"); (407, #"Proxy Authentication Required");
   (408, #"Request Timeout"); (410, #"Gone"); (413, #"Request Entity Too Large");
   (414, #"Request-URI Too Long"); (415, #"Unsupported Media Type");
   (416, #"Unsupported URI Scheme"); (420, #"Bad Extension");
   (421, #"Extension Required"); (423, #"Interval Too Brief");
   (480, #"Temporarily Unavailable"); (481, #"Call/Transaction Does Not Exist");
   (482, #"Loop Detected"); (483, #"Too Many Hops"); (484, #"Address Incomplete");
   (485, #"Ambiguous"); (486, #"Busy Here"); (487, #"Request Terminated");
   (488, #"Not Acceptable Here"); (491, #"Request Pending"); (493, #"Undecipherable");
   (500, #"Server Internal Error"); (501, #"Not Implemented"); (502, #"Bad Gateway");
   (503, #"Service Unavailable"); (504, #"Server Time-out");
   (505, #"Version Not Supported"); (513, #"Message Too Large");
   (600, #"Busy Everywhere"); (603, #"Decline"); (604, #"Does Not Exist Anywhere");
   (606, #"Not Acceptable")].

Definition reason_phrase (c : t) : str :=
  match find (fun p => fst p =? as_u16 c) reason_table with
  | Some (_, r) => r
  | None => #"Unknown"
  end.

(** [Display for StatusCode] *)
Definition to_string (c : t) : str := dec (as_u16 c) ++ [" "%char] ++ reason_phrase c.

End StatusCode.

(** ** [CSeq] *)
Module CSeq.

Record t : Type := mk { seq : Z; method : PMethod.t }.

Definition parse (value : str) : result t SipError :=
  match split_whitespace value with
  | [] => Err InvalidHeader
  | [_] => Err InvalidHeader
  | [seq_tok; method_tok] =>
      let? seq := ok_or (parse_uint u32_max seq_tok) InvalidHeader in
      let? method := map_err (fun _ => InvalidHeader) (PMethod.from_str method_tok) in
      Ok (mk seq method)
  | _ => Err InvalidHeader
  end.

(** [Display for CSeq] *)
Definition to_string (c : t) : str := dec (seq c) ++ [" "%char] ++ PMethod.as_str (method c).

End CSeq.

(** ** Lemmas *)

Lemma pmethod_from_as_str m : PMethod.from_str (PMethod.as_str m) = Ok m.
Proof. by destruct m. Qed.

Lemma method_from_to_string m : method_from_str (method_to_string m) = Ok m.
Proof. by destruct m. Qed.

Lemma method_from_to_parser m : method_from_parser (method_to_parser m) = m.
Proof. by destruct m. Qed.

Lemma method_to_from_parser m : method_to_parser (method_from_parser m) = m.
Proof. by destruct m. Qed.

(** The two enums print the same tokens. *)
Lemma method_strings_agree m :
  PMethod.as_str (method_to_parser m) = method_to_string m.
Proof. by destruct m. Qed.

Lemma pmethod_as_str_inj : Inj (=) (=) PMethod.as_str.
Proof. intros a b H. by destruct a, b. Qed.

Lemma pmethod_tok m :
  PMethod.as_str m <> [] /\ Forall (fun c => tokc c = true) (PMethod.as_str m).
Proof. destruct m; split; try done; repeat constructor. Qed.

Lemma method_tok m :
  method_to_string m <> [] /\ Forall (fun c => tokc c = true) (method_to_string m).
Proof. destruct m; split; try done; repeat constructor. Qed.

Lemma dec_token n : 0 <= n -> dec n <> [] /\ Forall (fun c => tokc c = true) (dec n).
Proof. eauto with rsip. Qed.

(** The digest of a [CSeq] line: every 32-bit number and method survives. *)
Lemma cseq_roundtrip c : is_u32 (CSeq.seq c) -> CSeq.parse (CSeq.to_string c) = Ok c.
Proof.
  intros Hs. destruct c as [n m]. unfold in_width in Hs. simpl in *.
  unfold CSeq.parse, CSeq.to_string. simpl.
  change (dec n ++ " "%char :: PMethod.as_str m)
    with (join [" "%char] [dec n; PMethod.as_str m]).
  rewrite split_whitespace_join.
  - rewrite parse_dec by (unfold u32_max; lia). simpl.
    by rewrite pmethod_from_as_str.
  - repeat constructor; (apply dec_token || apply pmethod_tok); lia.
Qed.

Lemma cseq_parse_bound s c : CSeq.parse s = Ok c -> is_u32 (CSeq.seq c).
Proof.
  unfold CSeq.parse. destruct (split_whitespace s) as [|a [|b [|]]]; try done.
  destruct (parse_uint u32_max a) as [n|] eqn:E; [simpl|done].
  destruct (PMethod.from_str b); simpl; [|done]. intros H. inv_res. simpl.
  apply parse_uint_bound in E; [|done]. unfold in_width, u32_max in *. lia.
Qed.

#[export] Hint Resolve pmethod_tok method_tok dec_token : rsip.
