(* ===== verification/SipHeader.v ===== *)
(** * SIP headers, tier 1 ([sip/parser/header.rs])

    [Header] and the ordered collection [Headers]: recognition of a header line,
    compact forms, lookup by name. *)

From S2P Require Import Prelude RStr SipBase.

Local Open Scope Z_scope.

Definition MAX_HEADERS : Z := 256.
Definition MAX_HEADER_VALUE_LEN : Z := 8192.
Definition MAX_START_LINE_LEN : Z := 4096.

Module Header.

Inductive t : Type :=
| Allow (v : str)
| Authorization (v : str)
| CSeq (v : str)
| CallId (v : str)
| Contact (v : str)
| ContentLength (v : str)
| ContentType (v : str)
| Expires (v : str)
| From (v : str)
| MaxForwards (v : str)
| ProxyAuthenticate (v : str)
| ProxyAuthorization (v : str)
| RecordRoute (v : str)
| Require (v : str)
| Route (v : str)
| Supported (v : str)
| To (v : str)
| Via (v : str)
| WwwAuthenticate (v : str)
| Other (name v : str).

#[global] Instance eq_dec : EqDecision t.
Proof. solve_decision. Defined.

Definition name (h : t) : str :=
  match h with
  | Allow _ => #"Allow"
  | Authorization _ => #"Authorization"
  | CSeq _ => #"CSeq"
  | CallId _ => #"Call-ID"
  | Contact _ => #"Contact"
  | ContentLength _ => #"Content-Length"
  | ContentType _ => #"Content-Type"
  | Expires _ => #"Expires"
  | From _ => #"From"
  | MaxForwards _ => #"Max-Forwards"
  | ProxyAuthenticate _ => #"Proxy-Authenticate"
  | ProxyAuthorization _ => #"Proxy-Authorization"
  | RecordRoute _ => #"Record-Route"
  | Require _ => #"Require"
  | Route _ => #"Route"
  | Supported _ => #"Supported"
  | To _ => #"To"
  | Via _ => #"Via"
  | WwwAuthenticate _ => #"WWW-Authenticate"
  | Other n _ => n
  end.

Definition value (h : t) : str :=
  match h with
  | Allow v | Authorization v | CSeq v | CallId v | Contact v | ContentLength v
  | ContentType v | Expires v | From v | MaxForwards v | ProxyAuthenticate v
  | ProxyAuthorization v | RecordRoute v | Require v | Route v | Supported v
  | To v | Via v | WwwAuthenticate v => v
  | Other _ v => v
  end.

(** The table of compact forms, by lower-case letter. *)
Definition compact_table : list (ascii * str) :=
  [("i"%char, #"Call-ID"); ("m"%char, #"Contact"); ("f"%char, #"From");
   ("t"%char, #"To"); ("v"%char, #"Via"); ("c"%char, #"Content-Type");
   ("l"%char, #"Content-Length"); ("s"%char, #"Subject"); ("k"%char, #"Supported");
   ("e"%char, #"Content-Encoding"); ("r"%char, #"Refer-To");
   ("b"%char, #"Referred-By"); ("d"%char, #"Content-Disposition");
   ("o"%char, #"Event"); ("u"%char, #"Allow-Events")].

Definition resolve_name (n : str) : str :=
  let trimmed := trim n in
  match trimmed with
  | [c] =>
      match find (fun p => bool_decide (fst p = lower c)) compact_table with
      | Some (_, long) => long
      | None => trimmed
      end
  | _ => trimmed
  end.

Definition name_matches (h : t) (query : str) : bool :=
  let resolved := resolve_name query in
  match h with
  | Other n _ => eq_ignore_ascii_case n resolved
  | _ => eq_ignore_ascii_case (name h) resolved
  end.

(** The typed variants, by lower-case long name. *)
Definition long_table : list (str * (str -> t)) :=
  [(#"allow", Allow); (#"authorization", Authorization); (#"cseq", CSeq);
   (#"call-id", CallId); (#"contact", Contact); (#"content-length", ContentLength);
   (#"content-type", ContentType); (#"expires", Expires); (#"from", From);
   (#"max-forwards", MaxForwards); (#"proxy-authenticate", ProxyAuthenticate);
   (#"proxy-authorization", ProxyAuthorization); (#"record-route", RecordRoute);
   (#"require", Require); (#"route", Route); (#"supported", Supported); (#"to", To);
   (#"via", Via); (#"www-authenticate", WwwAuthenticate)].

Definition match_long_name (resolved other_name v : str) : t :=
  match find (fun p => eqb (fst p) (to_ascii_lowercase resolved)) long_table with
  | Some (_, mk) => mk v
  | None => Other other_name v
  end.

Definition build_header (raw_name v : str) : t :=
  let resolved := resolve_name raw_name in
  let trimmed_raw := trim raw_name in
  let other_name :=
    if (blen trimmed_raw =? 1) && negb (eqb resolved trimmed_raw)
    then resolved else raw_name in
  match_long_name resolved other_name v.

Definition parse_line (line : str) : result t SipError :=
  match split_once ":"%char line with
  | None => Err InvalidHeader
  | Some (before, after) =>
      let raw_name := trim before in
      if is_empty raw_name then Err InvalidHeader else
      let v := trim after in
      if MAX_HEADER_VALUE_LEN <? blen v then Err InvalidHeader else
      Ok (build_header raw_name v)
  end.

End Header.

Module Headers.

(** The collection is the vector of its headers, in insertion order. *)
Definition t : Type := list Header.t.

#[global] Instance eq_dec : EqDecision t := list_eq_dec.

Definition new : t := [].

Definition push (hs : t) (h : Header.t) : result t SipError :=
  if MAX_HEADERS <=? Z.of_nat (length hs) then Err InvalidHeader else Ok (hs ++ [h]).

Definition len (hs : t) : Z := Z.of_nat (length hs).

Definition get_first (hs : t) (name : str) : option Header.t :=
  find (fun h => Header.name_matches h name) hs.

Definition get_all (hs : t) (name : str) : list Header.t :=
  List.filter (fun h => Header.name_matches h name) hs.

Definition get_first_value (hs : t) (name : str) : option str :=
  Header.value <$> get_first hs name.

(** The size invariant every constructor of the collection keeps. *)
Definition wf (hs : t) : Prop := len hs <= MAX_HEADERS.

End Headers.

(** ** Lemmas *)

Lemma headers_new_wf : Headers.wf Headers.new.
Proof. unfold Headers.wf, Headers.len, Headers.new, MAX_HEADERS. simpl. lia. Qed.

(** [push] keeps the limit, appends at the end, and fails only at the limit. *)
Lemma headers_push_spec hs h :
  Headers.push hs h =
    if bool_decide (Headers.len hs < MAX_HEADERS) then Ok (hs ++ [h]) else Err InvalidHeader.
Proof.
  unfold Headers.push, Headers.len.
  destruct (Z.leb_spec MAX_HEADERS (Z.of_nat (length hs))); case_bool_decide; (done || lia).
Qed.

Lemma headers_push_ok hs h hs' :
  Headers.push hs h = Ok hs' -> hs' = hs ++ [h] /\ Headers.wf hs'.
Proof.
  rewrite headers_push_spec. case_bool_decide; [|done]. intros E. inv_res.
  split; [done|]. unfold Headers.wf, Headers.len in *. rewrite length_app. simpl. lia.
Qed.

(** Lookup after an append: the first matching header does not change. *)
Lemma headers_get_first_app hs1 hs2 n :
  Headers.get_first (hs1 ++ hs2) n =
  match Headers.get_first hs1 n with
  | Some h => Some h
  | None => Headers.get_first hs2 n
  end.
Proof.
  unfold Headers.get_first. induction hs1 as [|h hs1 IH]; simpl; [done|].
  by destruct (Header.name_matches h n).
Qed.

(** A typed variant is found by its own name. *)
Lemma name_matches_self h :
  (forall n v, h <> Header.Other n v) -> Header.name_matches h (Header.name h) = true.
Proof. intros H. destruct h; try reflexivity. by destruct (H name v). Qed.

(** Recognition is the inverse of printing the name: each typed variant is
    rebuilt from its own name and value. *)
Lemma build_header_name h :
  (forall n v, h <> Header.Other n v) ->
  Header.build_header (Header.name h) (Header.value h) = h.
Proof. intros H. destruct h; try reflexivity. by destruct (H name v). Qed.

#[export] Hint Resolve headers_new_wf : rsip.
