(* ===== verification/SipUri.v ===== *)
(** * SIP URIs ([sip/uri.rs])

    [SipUri::parse], the accessors, [Display] and the builder. *)

From S2P Require Import Prelude RStr SipBase.

Local Open Scope Z_scope.

Definition MAX_URI_HEADERS : Z := 32.
Definition MAX_URI_HEADER_VALUE_LEN : Z := 256.

Inductive Scheme : Type := Sip | Sips | Tel.

#[export] Instance Scheme_eq_dec : EqDecision Scheme.
Proof. solve_decision. Defined.

Definition scheme_as_str (s : Scheme) : str :=
  match s with
  | Sip => #"sip"
  | Sips => #"sips"
  | Tel => #"tel"
  end.

(** Header and URI parameters: a key, and a value unless it is a flag. *)
Abbreviation param := (str * option str)%type.

Record SipUri : Type := mkUri {
  scheme : Scheme;
  user : option str;
  host : str;
  port : option Z;
  params : list param;
  headers : list (str * str)
}.

#[export] Instance SipUri_eq_dec : EqDecision SipUri.
Proof. solve_decision. Defined.

(** *** Parsing *)

Definition parse_scheme (s : str) : result Scheme SipError :=
  if eqb s #"sip" then Ok Sip
  else if eqb s #"sips" then Ok Sips
  else if eqb s #"tel" then Ok Tel
  else Err Parse.

(** One [key=value] of the header part. *)
Definition uri_header (h : str) : str * str :=
  match split_once "="%char h with
  | Some (k, v) => (k, v)
  | None => (h, [])
  end.

(** The loop over [header_part.split('&')]. *)
Fixpoint parse_uri_headers (hs : list (str * str)) (parts : list str)
  : result (list (str * str)) SipError :=
  match parts with
  | [] => Ok hs
  | h :: rest =>
      if is_empty h then parse_uri_headers hs rest else
      if MAX_URI_HEADERS <=? Z.of_nat (length hs) then Err Parse else
      let kv := uri_header h in
      if MAX_URI_HEADER_VALUE_LEN <? blen (snd kv) then Err Parse else
      parse_uri_headers (hs ++ [kv]) rest
  end.

(** The parameter part starts at the first [;] after the userinfo. *)
Definition split_params (rest : str) : str * option str :=
  match split_once "@"%char rest with
  | Some (u, h) =>
      match split_once ";"%char h with
      | Some (hp, ps) => (u ++ "@"%char :: hp, Some ps)
      | None => (rest, None)
      end
  | None =>
      match split_once ";"%char rest with
      | Some (hp, ps) => (hp, Some ps)
      | None => (rest, None)
      end
  end.

Definition parse_host_port (host_port : str) : result (str * option Z) SipError :=
  if starts_with #"[" host_port then
    match split_once "]"%char host_port with
    | Some (before, after_bracket) =>
        let port := match strip_prefix #":" after_bracket with
                    | Some port_str => parse_uint u16_max port_str
                    | None => None
                    end in
        Ok (before ++ #"]", port)
    | None => Err Parse
    end
  else
    match rsplit_once ":"%char host_port with
    | Some (h, potential_port) =>
        if forallb is_ascii_digit potential_port
        then Ok (h, parse_uint u16_max potential_port)
        else Ok (host_port, None)
    | None => Ok (host_port, None)
    end.

Definition parse_user_host_port (sch : Scheme) (uhp : str)
  : result (option str * str * option Z) SipError :=
  match sch with
  | Tel => Ok (None, uhp, None)
  | _ =>
      let '(user, host_port) :=
        match split_once "@"%char uhp with
        | Some (u, hp) => (Some u, hp)
        | None => (None, uhp)
        end in
      let? (h, p) := parse_host_port host_port in
      Ok (user, h, p)
  end.

Definition uri_param (p : str) : list param :=
  let p := trim p in
  if is_empty p then []
  else match split_once "="%char p with
       | Some (k, v) => [(k, Some v)]
       | None => [(p, None)]
       end.

Definition parse_uri_params (ps : option str) : list param :=
  match ps with
  | Some s => flat_map uri_param (split ";"%char s)
  | None => []
  end.

Definition uri_parse (s0 : str) : result SipUri SipError :=
  let s := trim s0 in
  match split_once ":"%char s with
  | None => Err Parse
  | Some (scheme_str, rest) =>
      let? sch := parse_scheme (to_ascii_lowercase scheme_str) in
      let? (rest, hs) :=
        match split_once "?"%char rest with
        | Some (uri_part, header_part) =>
            let? hs := parse_uri_headers [] (split "&"%char header_part) in
            Ok (uri_part, hs)
        | None => Ok (rest, [])
        end in
      let '(uhp, params_str) := split_params rest in
      let? (user, host, port) := parse_user_host_port sch uhp in
      Ok (mkUri sch user host port (parse_uri_params params_str) hs)
  end.

(** *** Accessors *)

Definition is_secure (u : SipUri) : bool := bool_decide (scheme u = Sips).
Definition is_tel (u : SipUri) : bool := bool_decide (scheme u = Tel).

Definition effective_port (u : SipUri) : Z :=
  match port u with
  | Some p => p
  | None => if is_secure u then 5061 else 5060
  end.

Definition find_key {A} (name : str) (l : list (str * A)) : option (str * A) :=
  find (fun p => eqb (to_ascii_lowercase (fst p)) (to_ascii_lowercase name)) l.

Definition get_param (u : SipUri) (name : str) : option str :=
  match find_key name (params u) with
  | Some (_, v) => v
  | None => None
  end.

Definition has_param (u : SipUri) (name : str) : bool :=
  match find_key name (params u) with Some _ => true | None => false end.

Definition transport (u : SipUri) : option str := get_param u #"transport".

Definition get_header (u : SipUri) (name : str) : option str :=
  snd <$> find_key name (headers u).

Definition has_headers (u : SipUri) : bool :=
  match headers u with [] => false | _ => true end.

Definition is_loose_route (u : SipUri) : bool := has_param u #"lr".

(** *** [Display] *)

Definition show_param (p : param) : str :=
  match p with
  | (k, Some v) => #";" ++ k ++ #"=" ++ v
  | (k, None) => #";" ++ k
  end.

Definition show_params (ps : list param) : str := concat (map show_param ps).

Definition uri_to_string (u : SipUri) : str :=
  scheme_as_str (scheme u) ++ #":" ++
  (match user u with Some us => us ++ #"@" | None => [] end) ++
  host u ++
  (match port u with Some p => #":" ++ dec p | None => [] end) ++
  show_params (params u) ++
  (match headers u with
   | [] => []
   | hs => #"?" ++ join #"&" (map (fun kv => fst kv ++ #"=" ++ snd kv) hs)
   end).

(** *** The builder *)

Record SipUriBuilder : Type := mkUriBuilder {
  b_scheme : option Scheme;
  b_user : option str;
  b_host : option str;
  b_port : option Z;
  b_params : list param;
  b_headers : list (str * str)
}.

Definition uri_builder : SipUriBuilder := mkUriBuilder None None None None [] [].

Definition b_set_scheme (b : SipUriBuilder) (s : str) : SipUriBuilder :=
  let s := to_ascii_lowercase s in
  let sch := if eqb s #"sips" then Sips else if eqb s #"tel" then Tel else Sip in
  mkUriBuilder (Some sch) (b_user b) (b_host b) (b_port b) (b_params b) (b_headers b).

Definition b_set_user (b : SipUriBuilder) (s : str) : SipUriBuilder :=
  mkUriBuilder (b_scheme b) (Some s) (b_host b) (b_port b) (b_params b) (b_headers b).

Definition b_set_host (b : SipUriBuilder) (s : str) : SipUriBuilder :=
  mkUriBuilder (b_scheme b) (b_user b) (Some s) (b_port b) (b_params b) (b_headers b).

Definition b_set_port (b : SipUriBuilder) (p : Z) : SipUriBuilder :=
  mkUriBuilder (b_scheme b) (b_user b) (b_host b) (Some p) (b_params b) (b_headers b).

Definition b_param (b : SipUriBuilder) (k v : str) : SipUriBuilder :=
  mkUriBuilder (b_scheme b) (b_user b) (b_host b) (b_port b)
    (b_params b ++ [(k, Some v)]) (b_headers b).

Definition b_flag (b : SipUriBuilder) (k : str) : SipUriBuilder :=
  mkUriBuilder (b_scheme b) (b_user b) (b_host b) (b_port b)
    (b_params b ++ [(k, None)]) (b_headers b).

Definition b_header (b : SipUriBuilder) (k v : str) : SipUriBuilder :=
  mkUriBuilder (b_scheme b) (b_user b) (b_host b) (b_port b) (b_params b)
    (b_headers b ++ [(k, v)]).

Definition b_build (b : SipUriBuilder) : result SipUri SipError :=
  let? h := ok_or (b_host b) InvalidHeader in
  Ok (mkUri (default Sip (b_scheme b)) (b_user b) h (b_port b) (b_params b) (b_headers b)).

(** ** Lemmas *)

Lemma parse_uri_headers_bound hs parts out :
  Z.of_nat (length hs) <= MAX_URI_HEADERS ->
  Forall (fun kv => blen (snd kv) <= MAX_URI_HEADER_VALUE_LEN) hs ->
  parse_uri_headers hs parts = Ok out ->
  Z.of_nat (length out) <= MAX_URI_HEADERS /\
  Forall (fun kv => blen (snd kv) <= MAX_URI_HEADER_VALUE_LEN) out.
Proof.
  revert hs. induction parts as [|h parts IH]; intros hs Hl Hv H; cbn in H; [by inv_res|].
  destruct (is_empty h); [by eapply IH|].
  destruct (Z.leb_spec MAX_URI_HEADERS (Z.of_nat (length hs))); [done|].
  destruct (Z.ltb_spec MAX_URI_HEADER_VALUE_LEN (blen (uri_header h).2)); [done|].
  eapply IH; [| |exact H].
  - rewrite length_app. simpl. lia.
  - apply Forall_app. split; [done|]. constructor; [done|constructor].
Qed.

Lemma parse_host_port_bound hp h p :
  parse_host_port hp = Ok (h, Some p) -> is_u16 p.
Proof.
  unfold parse_host_port. intros H.
  assert (forall s, parse_uint u16_max s = Some p -> is_u16 p) as K.
  { intros s E. apply parse_uint_bound in E; [|done]. unfold in_width, u16_max in *. lia. }
  destruct (starts_with _ hp).
  - destruct (split_once _ hp) as [[a b]|]; [|done]. inv_res.
    repeat case_match; eauto || done.
  - destruct (rsplit_once _ hp) as [[a b]|]; [|done].
    destruct (forallb _ b); [|done]. inv_res. eauto.
Qed.
