(* ===== verification/SipTyped.v ===== *)
(** * Typed header values of the parser

    [sip/parser/name_addr.rs] and the typed headers [From], [To], [Contact] and
    [Via] of [sip/parser/typed/].  The [q] parameter of a [Contact] is a float
    and is left out. *)

From S2P Require Import Prelude RStr SipBase SipUri.

Local Open Scope Z_scope.

Definition DQ : ascii := chr 34.
Definition BS : ascii := chr 92.

(** ** Parameter lists [;k=v;k2], shared by name-addresses and [Via] *)

(** The pieces between the top-level [;], quoted strings being opaque. *)
Fixpoint split_top (quoted : bool) (acc : str) (s : str) : list str :=
  match s with
  | [] => [acc]
  | b :: r =>
      if quoted then
        match r with
        | c :: r' =>
            if bool_decide (b = BS) then split_top true (acc ++ [b; c]) r'
            else split_top (negb (bool_decide (b = DQ))) (acc ++ [b]) r
        | [] => [acc ++ [b]]
        end
      else if bool_decide (b = ";"%char) then acc :: split_top false [] r
      else split_top (bool_decide (b = DQ)) (acc ++ [b]) r
  end.

(** One trimmed piece: nothing, a flag, or a key with its value. *)
Definition chunk_param (chunk0 : str) : list param :=
  let chunk := trim chunk0 in
  if is_empty chunk then []
  else match split_once "="%char chunk with
       | Some (k, v) => [(trim k, Some (trim v))]
       | None => [(chunk, None)]
       end.

Definition parse_params (s0 : str) : result (list param) SipError :=
  let s := trim_start s0 in
  match s with
  | [] => Ok []
  | c :: r =>
      if bool_decide (c = ";"%char)
      then Ok (flat_map chunk_param (split_top false [] r))
      else Err InvalidHeader
  end.

(** Lookup of a header parameter by name, ignoring ASCII case; a flag has no
    value. *)
Definition find_param (ps : list param) (name : str) : option str :=
  match find (fun p => eq_ignore_ascii_case (fst p) name) ps with
  | Some (_, v) => v
  | None => None
  end.

(** ** Name-addresses *)
Module NameAddr.

Record t : Type := mk {
  display_name : option str;
  uri : SipUri;
  parameters : list param
}.

(** After the opening quote: the unescaped text and what follows the closing
    quote. *)
Fixpoint quoted_loop (out : str) (s : str) : result (str * str) SipError :=
  match s with
  | [] => Err InvalidHeader
  | b :: r =>
      if bool_decide (b = DQ) then
        if utf8_valid out then Ok (out, r) else Err InvalidHeader
      else if bool_decide (b = BS) then
        match r with
        | [] => Err InvalidHeader
        | c :: r' => quoted_loop (out ++ [c]) r'
        end
      else quoted_loop (out ++ [b]) r
  end.

Definition parse_quoted_string (s : str) : result (str * str) SipError :=
  match s with
  | [] => Err InvalidHeader
  | _ :: r => quoted_loop [] r
  end.

(** The first [<] outside quoted strings: [s[..lt]] and [s[lt..]]. *)
Fixpoint find_angle_bracket (quoted : bool) (acc : str) (s : str) : option (str * str) :=
  match s with
  | [] => None
  | b :: r =>
      if quoted then
        match r with
        | c :: r' =>
            if bool_decide (b = BS) then find_angle_bracket true (acc ++ [b; c]) r'
            else find_angle_bracket (negb (bool_decide (b = DQ))) (acc ++ [b]) r
        | [] => None
        end
      else if bool_decide (b = "<"%char) then Some (acc, s)
      else find_angle_bracket (bool_decide (b = DQ)) (acc ++ [b]) r
  end.

(** Phase 1: the optional display name. *)
Definition parse_display (s : str) : result (option str * str) SipError :=
  if starts_with [DQ] s then
    let? (name, after) := parse_quoted_string s in
    let after := trim_start after in
    if starts_with #"<" after then Ok (Some name, after) else Err InvalidHeader
  else
    match find_angle_bracket false [] s with
    | Some (before, from_lt) =>
        let leading := trim before in
        if is_empty leading then Ok (None, from_lt) else Ok (Some leading, from_lt)
    | None => Ok (None, s)
    end.

(** Phase 2: the URI text, bracketed or bare, and what follows. *)
Definition parse_uri_text (rest : str) : result (str * str) SipError :=
  match strip_prefix #"<" rest with
  | Some inner => ok_or (split_once ">"%char inner) InvalidHeader
  | None =>
      match split_once ";"%char rest with
      | Some (u, ps) => Ok (u, ";"%char :: ps)
      | None => Ok (rest, [])
      end
  end.

Definition parse (input : str) : result t SipError :=
  let s := trim input in
  if is_empty s then Err InvalidHeader else
  let? (display_name, rest) := parse_display s in
  let? (uri_text, after_uri) := parse_uri_text rest in
  let? uri := map_err (fun _ => InvalidHeader) (uri_parse (trim uri_text)) in
  let? parameters := parse_params after_uri in
  Ok (mk display_name uri parameters).

Definition tag (na : t) : option str := find_param (parameters na) #"tag".

Definition is_token_char (b : ascii) : bool :=
  ((97 <=? code b) && (code b <=? 122)) || ((65 <=? code b) && (code b <=? 90)) ||
  is_ascii_digit b ||
  existsb (fun c => bool_decide (b = c)) #"-.!%*_+`'~".

Definition needs_quoting (s : str) : bool :=
  is_empty s || existsb (fun b => negb (is_token_char b)) s.

Definition escape_quoted (s : str) : str :=
  flat_map (fun c => if bool_decide (c = DQ \/ c = BS) then [BS; c] else [c]) s.

Definition to_string (na : t) : str :=
  (match display_name na with
   | Some name =>
       if needs_quoting name then [DQ] ++ escape_quoted name ++ [DQ] ++ #" "
       else name ++ #" "
   | None => []
   end) ++
  #"<" ++ uri_to_string (uri na) ++ #">" ++ show_params (parameters na).

End NameAddr.

(** ** [From] and [To] *)
Module PFrom.

Record t : Type := mk { display_name : option str; uri : SipUri; params : list param }.

Definition parse (value : str) : result t SipError :=
  let? na := NameAddr.parse value in
  Ok (mk (NameAddr.display_name na) (NameAddr.uri na) (NameAddr.parameters na)).

Definition tag (f : t) : option str := find_param (params f) #"tag".

Definition to_string (f : t) : str :=
  NameAddr.to_string (NameAddr.mk (display_name f) (uri f) (params f)).

End PFrom.

Module PTo.

Record t : Type := mk { display_name : option str; uri : SipUri; params : list param }.

Definition parse (value : str) : result t SipError :=
  let? na := NameAddr.parse value in
  Ok (mk (NameAddr.display_name na) (NameAddr.uri na) (NameAddr.parameters na)).

Definition tag (f : t) : option str := find_param (params f) #"tag".

Definition to_string (f : t) : str :=
  NameAddr.to_string (NameAddr.mk (display_name f) (uri f) (params f)).

End PTo.

(** ** [Contact] *)
Module PContact.

Record addr : Type := mkAddr { display_name : option str; uri : SipUri; params : list param }.

Inductive t : Type :=
| Wildcard (params : list param)
| Addr (a : addr).

Definition parse_wildcard_params (s0 : str) : result (list param) SipError :=
  let s := trim_start s0 in
  match s with
  | [] => Ok []
  | c :: r =>
      if bool_decide (c = ";"%char)
      then Ok (flat_map chunk_param (split ";"%char r))
      else Err InvalidHeader
  end.

Definition is_wildcard (c : t) : bool :=
  match c with Wildcard _ => true | Addr _ => false end.

Definition parse (value : str) : result t SipError :=
  let trimmed := trim value in
  if is_empty trimmed then Err InvalidHeader else
  match strip_prefix #"*" trimmed with
  | Some rest =>
      let? ps := parse_wildcard_params (trim_start rest) in
      Ok (Wildcard ps)
  | None =>
      let? na := NameAddr.parse trimmed in
      Ok (Addr (mkAddr (NameAddr.display_name na) (NameAddr.uri na)
                       (NameAddr.parameters na)))
  end.

Definition params_of (c : t) : list param :=
  match c with Wildcard ps => ps | Addr a => params a end.

Definition expires (c : t) : option Z :=
  let* v := find_param (params_of c) #"expires" in parse_uint u32_max v.

Definition to_string (c : t) : str :=
  match c with
  | Wildcard ps => #"*" ++ show_params ps
  | Addr a => NameAddr.to_string (NameAddr.mk (display_name a) (uri a) (params a))
  end.

End PContact.

(** ** [Via] *)
Module PVia.

Record t : Type := mk {
  protocol : str;
  transport : str;
  sent_by : str;
  params : list param
}.

(** Split at the first [;] outside an IPv6 reference. *)
Fixpoint split_sent_by_params (in_v6 : bool) (acc : str) (rest : str)
  : result (str * str) SipError :=
  match rest with
  | [] => if in_v6 then Err InvalidHeader else Ok (acc, [])
  | b :: r =>
      if bool_decide (b = "["%char) then
        if in_v6 then Err InvalidHeader else split_sent_by_params true (acc ++ [b]) r
      else if bool_decide (b = "]"%char) then
        if in_v6 then split_sent_by_params false (acc ++ [b]) r else Err InvalidHeader
      else if bool_decide (b = ";"%char) && negb in_v6 then Ok (acc, rest)
      else split_sent_by_params in_v6 (acc ++ [b]) r
  end.

(** [sent-protocol]: [name/version] and the transport. *)
Definition parse_proto (proto_part : str) : result (str * str) SipError :=
  match rsplit_once "/"%char proto_part with
  | None => Err InvalidHeader
  | Some (p, t) =>
      let protocol := trim p in
      let transport := trim t in
      if is_empty protocol || is_empty transport then Err InvalidHeader
      else if negb (contains_char "/"%char protocol) then Err InvalidHeader
      else Ok (protocol, transport)
  end.

Definition is_blank (b : ascii) : bool := bool_decide (b = " "%char) || (code b =? 9).

Definition parse (value : str) : result t SipError :=
  let s := trim value in
  if is_empty s then Err InvalidHeader else
  match split_once " "%char s with
  | None => Err InvalidHeader
  | Some (before, after) =>
      let proto_part := trim before in
      let rest := trim_start after in
      let? (protocol, transport) := parse_proto proto_part in
      let? (sent_by0, params_part) := split_sent_by_params false [] rest in
      let sent_by := trim sent_by0 in
      if is_empty sent_by then Err InvalidHeader
      else if existsb is_blank sent_by then Err InvalidHeader
      else
        let? params := parse_params params_part in
        Ok (mk protocol transport sent_by params)
  end.

Definition branch (v : t) : option str := find_param (params v) #"branch".
Definition received (v : t) : option str := find_param (params v) #"received".
Definition maddr (v : t) : option str := find_param (params v) #"maddr".

Definition ttl (v : t) : option Z :=
  let* x := find_param (params v) #"ttl" in parse_uint u8_max x.

Definition rport (v : t) : option (option Z) :=
  match find (fun p => eq_ignore_ascii_case (fst p) #"rport") (params v) with
  | Some (_, None) => Some None
  | Some (_, Some text) => Some (parse_uint u16_max text)
  | None => None
  end.

Definition to_string (v : t) : str :=
  protocol v ++ #"/" ++ transport v ++ #" " ++ sent_by v ++ show_params (params v).

End PVia.
