(* ===== verification/SipHeaders.v ===== *)
(** * Header values used above the parser ([sip/headers.rs])

    The convenience [Via], [Route], [RecordRoute] and [RouteSet], option-tag
    lists ([Require], [Supported]), the session-timer headers ([SessionExpires],
    [MinSe], [Refresher]) and the reliable-provisional headers ([RSeq], [RAck]).
    [Contact] of this file, which carries a float, is left out. *)

From S2P Require Import Prelude RStr SipBase SipUri.

Local Open Scope Z_scope.

(** ** [Via] *)
Module Via.

Record t : Type := mk {
  protocol : str;
  host : str;
  port : Z;
  branch : str;
  received : option str;
  rport : option Z
}.

(** Host and port; a bracketed address keeps the whole text as its host. *)
Definition parse_host_port (host_port : str) : str * Z :=
  match rsplit_once ":"%char host_port with
  | Some (h, port_str) =>
      if forallb is_ascii_digit port_str && negb (contains_char "["%char host_port)
      then (h, default 5060 (parse_uint u16_max port_str))
      else (host_port, 5060)
  | None => (host_port, 5060)
  end.

(** The three variables of the parameter loop. *)
Definition vars : Type := (str * option str * option Z)%type.

Definition param_step (v : vars) (param0 : str) : vars :=
  let '(branch, received, rport) := v in
  let param := trim param0 in
  match strip_prefix #"branch=" param with
  | Some value => (value, received, rport)
  | None =>
      match strip_prefix #"received=" param with
      | Some value => (branch, Some value, rport)
      | None =>
          match strip_prefix #"rport=" param with
          | Some value => (branch, received, parse_uint u16_max value)
          | None => if eqb param #"rport" then (branch, received, None) else v
          end
      end
  end.

Definition parse (value0 : str) : result t SipError :=
  let value := trim value0 in
  match split_once " "%char value with
  | None => Err Parse
  | Some (proto, rest) =>
      let protocol := default [] (last (split "/"%char proto)) in
      if is_empty protocol then Err Parse else
      let '(host_port, params) :=
        match split_once ";"%char rest with
        | Some (hp, ps) => (hp, Some ps)
        | None => (rest, None)
        end in
      let '(host, port) := parse_host_port host_port in
      let '(branch, received, rport) :=
        match params with
        | Some ps => foldl param_step ([], None, None) (split ";"%char ps)
        | None => ([], None, None)
        end in
      if is_empty branch then Err Parse
      else Ok (mk protocol host port branch received rport)
  end.

Definition to_header_value (v : t) : str :=
  #"SIP/2.0/" ++ protocol v ++ #" " ++ host v ++ #":" ++ dec (port v) ++
  #";branch=" ++ branch v ++
  (match received v with Some r => #";received=" ++ r | None => [] end) ++
  (match rport v with Some p => #";rport=" ++ dec p | None => [] end).

End Via.

(** ** [RecordRoute], [Route] and [RouteSet] *)

(** The text between the angle brackets and what follows them, if anything. *)
Definition bracketed (value : str) : result (str * option str) SipError :=
  if starts_with #"<" value then
    match split_once ">"%char value with
    | Some (before, after) =>
        Ok (drop 1 before, if is_empty after then None else Some after)
    | None => Err Parse
    end
  else Err Parse.

Module RecordRoute.

Record t : Type := mk { uri : SipUri; lr : bool }.

Definition parse (value0 : str) : result t SipError :=
  let? (uri_str, params) := bracketed (trim value0) in
  let? uri := uri_parse uri_str in
  Ok (mk uri (default false (contains #"lr" <$> params))).

Definition parse_all (values : list str) : list t :=
  flat_map (fun value =>
    flat_map (fun part => match parse part with Ok rr => [rr] | Err _ => [] end)
      (split ","%char value)) values.

Definition to_header_value (r : t) : str :=
  #"<" ++ uri_to_string (uri r) ++ #">" ++ (if lr r then #";lr" else []).

End RecordRoute.

Module Route.

Record t : Type := mk { uri : SipUri; lr : bool }.

Definition parse (value0 : str) : result t SipError :=
  let? (uri_str, params) := bracketed (trim value0) in
  let? uri := uri_parse uri_str in
  Ok (mk uri (default false (contains #"lr" <$> params))).

Definition parse_all (values : list str) : list t :=
  flat_map (fun value =>
    flat_map (fun part => match parse part with Ok rr => [rr] | Err _ => [] end)
      (split ","%char value)) values.

Definition to_header_value (r : t) : str :=
  #"<" ++ uri_to_string (uri r) ++ #">" ++ (if lr r then #";lr" else []).

End Route.

Module RouteSet.

Definition t : Type := list Route.t.

Definition new : t := [].

Definition from_record_routes (rrs : list RecordRoute.t) (rev : bool) : t :=
  let routes := map (fun rr => Route.mk (RecordRoute.uri rr) (RecordRoute.lr rr)) rrs in
  if rev then reverse routes else routes.

Definition first (rs : t) : option Route.t := head rs.

Definition push (rs : t) (r : Route.t) : t := rs ++ [r].

End RouteSet.

(** ** Session timers *)
Inductive Refresher : Type := Uac | Uas.

#[export] Instance Refresher_eq_dec : EqDecision Refresher.
Proof. solve_decision. Defined.

Definition refresher_to_string (r : Refresher) : str :=
  match r with Uac => #"uac" | Uas => #"uas" end.

Definition refresher_parse (value : str) : result Refresher SipError :=
  let v := to_ascii_lowercase (trim value) in
  if eqb v #"uac" then Ok Uac else if eqb v #"uas" then Ok Uas else Err Parse.

Module SessionExpires.

Record t : Type := mk { delta_seconds : Z; refresher : option Refresher }.

(** One parameter of the list; a malformed refresher is an error. *)
Definition param_step (acc : result (option Refresher) SipError) (param0 : str)
  : result (option Refresher) SipError :=
  let? r := acc in
  let param := trim param0 in
  if is_empty param then Ok r else
  match split_once "="%char param with
  | Some (key, value) =>
      if eq_ignore_ascii_case (trim key) #"refresher"
      then let? x := refresher_parse (trim value) in Ok (Some x)
      else Ok r
  | None => Ok r
  end.

Definition parse (value0 : str) : result t SipError :=
  let value := trim value0 in
  let '(head, params) :=
    match split_once ";"%char value with
    | Some (h, ps) => (h, Some ps)
    | None => (value, None)
    end in
  let? delta := ok_or (parse_uint u32_max (trim head)) Parse in
  let? r := match params with
            | Some ps => foldl param_step (Ok None) (split ";"%char ps)
            | None => Ok None
            end in
  Ok (mk delta r).

Definition to_header_value (s : t) : str :=
  match refresher s with
  | Some r => dec (delta_seconds s) ++ #";refresher=" ++ refresher_to_string r
  | None => dec (delta_seconds s)
  end.

End SessionExpires.

Module MinSe.

Record t : Type := mk { secs : Z }.

Definition parse (value : str) : result t SipError :=
  let head := match split_once ";"%char value with Some (h, _) => h | None => value end in
  let? n := ok_or (parse_uint u32_max (trim head)) Parse in
  Ok (mk n).

Definition to_header_value (m : t) : str := dec (secs m).

End MinSe.

(** ** Option tags *)
Definition parse_option_tags (value : str) : result (list str) SipError :=
  let tags := List.filter (fun t => negb (is_empty t))
                (map (fun t => to_ascii_lowercase (trim t)) (split ","%char value)) in
  match tags with
  | [] => Err Parse
  | _ => Ok tags
  end.

Module Require_.

Record t : Type := mk { tags : list str }.

Definition parse (value : str) : result t SipError :=
  let? ts := parse_option_tags value in Ok (mk ts).

Definition to_header_value (r : t) : str := join #", " (tags r).

End Require_.

Module Supported.

Record t : Type := mk { tags : list str }.

Definition parse (value : str) : result t SipError :=
  let? ts := parse_option_tags value in Ok (mk ts).

Definition to_header_value (r : t) : str := join #", " (tags r).

End Supported.

(** ** Reliable provisionals *)
Module RSeq.

Record t : Type := mk { num : Z }.

Definition parse (value : str) : result t SipError :=
  let? n := ok_or (parse_uint u32_max (trim value)) Parse in Ok (mk n).

Definition to_header_value (r : t) : str := dec (num r).

End RSeq.

(** [parse_method] of this file: upper-cased, then matched exactly. *)
Definition parse_method (value : str) : result Method SipError :=
  match find (fun p => eqb (snd p) (to_ascii_uppercase value)) method_all with
  | Some (m, _) => Ok m
  | None => Err Parse
  end.

Module RAck.

Record t : Type := mk { rseq : Z; cseq : Z; method : Method }.

Definition parse (value : str) : result t SipError :=
  match split_whitespace value with
  | [a; b; c] =>
      let? rseq := ok_or (parse_uint u32_max a) Parse in
      let? cseq := ok_or (parse_uint u32_max b) Parse in
      let? method := parse_method c in
      Ok (mk rseq cseq method)
  | _ => Err Parse
  end.

Definition to_header_value (r : t) : str :=
  dec (rseq r) ++ #" " ++ dec (cseq r) ++ #" " ++ method_to_string (method r).

End RAck.

(** ** Lemmas *)

Lemma parse_method_to_string m : parse_method (method_to_string m) = Ok m.
Proof. by destruct m. Qed.

Lemma rack_roundtrip r :
  is_u32 (RAck.rseq r) -> is_u32 (RAck.cseq r) ->
  RAck.parse (RAck.to_header_value r) = Ok r.
Proof.
  destruct r as [a b m]. unfold in_width. simpl. intros Ha Hb.
  unfold RAck.parse, RAck.to_header_value. simpl.
  change (dec a ++ " "%char :: dec b ++ " "%char :: method_to_string m)
    with (join [" "%char] [dec a; dec b; method_to_string m]).
  rewrite split_whitespace_join.
  - rewrite !parse_dec by (unfold u32_max; lia). simpl.
    by rewrite parse_method_to_string.
  - repeat constructor; (apply dec_token || apply method_tok); lia.
Qed.

Lemma parse_trim_dec n : is_u32 n -> parse_uint u32_max (trim (dec n)) = Some n.
Proof.
  unfold in_width. intros H. rewrite trim_all_tok by (apply dec_tok; lia).
  apply parse_dec. unfold u32_max. lia.
Qed.

Lemma rseq_roundtrip r : is_u32 (RSeq.num r) -> RSeq.parse (RSeq.to_header_value r) = Ok r.
Proof.
  destruct r as [n]. simpl. intros H. unfold RSeq.parse, RSeq.to_header_value.
  simpl. by rewrite parse_trim_dec.
Qed.

Lemma dec_no_char c n : 0 <= n -> is_ascii_digit c = false -> ~ In c (dec n).
Proof.
  intros Hn Hc Hin. pose proof (dec_digits n Hn) as H.
  rewrite Forall_forall in H. apply list_elem_of_In in Hin.
  rewrite (H c Hin) in Hc. done.
Qed.

Lemma min_se_roundtrip m : is_u32 (MinSe.secs m) -> MinSe.parse (MinSe.to_header_value m) = Ok m.
Proof.
  destruct m as [n]. simpl. intros H. unfold MinSe.parse, MinSe.to_header_value.
  simpl. pose proof H as H'. unfold in_width in H'.
  rewrite split_once_none by (apply dec_no_char; [lia|done]).
  by rewrite parse_trim_dec.
Qed.

Lemma trim_dec_app n s c :
  0 <= n -> tokc c = true -> trim (dec n ++ s ++ [c]) = dec n ++ s ++ [c].
Proof.
  intros Hn Hc. apply trim_tok.
  - intros d r E. pose proof (dec_tok n Hn) as H. pose proof (dec_nonempty n).
    destruct (dec n) as [|x l]; [done|]. simpl in E. simplify_eq. by inversion H.
  - intros r d E. rewrite app_assoc in E. apply app_inj_tail in E as [_ <-]. done.
Qed.

Lemma session_expires_roundtrip s :
  is_u32 (SessionExpires.delta_seconds s) ->
  SessionExpires.parse (SessionExpires.to_header_value s) = Ok s.
Proof.
  destruct s as [n r]. simpl. intros H. pose proof H as H'. unfold in_width in H'.
  unfold SessionExpires.parse, SessionExpires.to_header_value. simpl.
  destruct r as [r|].
  - assert (trim (dec n ++ #";refresher=" ++ refresher_to_string r)
            = dec n ++ ";"%char :: (#"refresher=" ++ refresher_to_string r)) as E.
    { destruct r; [apply (trim_dec_app n #";refresher=ua" "c"%char)
                  |apply (trim_dec_app n #";refresher=ua" "s"%char)]; lia || done. }
    simpl in E |- *. rewrite E.
    rewrite split_once_app by (apply dec_no_char; [lia|done]).
    rewrite parse_trim_dec by done. by destruct r.
  - rewrite trim_all_tok by (apply dec_tok; lia).
    rewrite split_once_none by (apply dec_no_char; [lia|done]).
    by rewrite parse_trim_dec.
Qed.
