(* ===== verification/SipMessage.v ===== *)
(** * SIP messages

    [sip/parser/framing.rs] and [sip/parser/message.rs] (from bytes to a
    message and back), and the request and response wrappers and builders of
    [sip/message.rs].  [SipRequest] and [SipResponse] wrap a parser message and
    are identified with it. *)

From S2P Require Import Prelude RStr SipBase SipHeader SipUri SipTyped SipHeaders.

Local Open Scope Z_scope.

(** ** Framing *)

Definition MAX_FOLD_LINES_PER_HEADER : Z := 32.

(** Offset-free form of [find_separator]: the bytes before and after it. *)
Definition find_separator (data : str) : option (str * str) :=
  match split_once_str (CRLF ++ CRLF) data with
  | Some r => Some r
  | None => split_once_str [LF; LF] data
  end.

Definition split_first_line (head : str) : str * str :=
  match split_once_str CRLF head with
  | Some (l, r) => (l, r)
  | None =>
      match split_once LF head with
      | Some (l, r) => (l, r)
      | None => (head, [])
      end
  end.

Definition split_message (data : str) : result (str * str * str) SipError :=
  let? (head, body) := ok_or (find_separator data) Parse in
  if negb (utf8_valid head) then Err Parse else
  let '(start_line, header_block) := split_first_line head in
  if MAX_START_LINE_LEN <? blen start_line then Err Parse
  else Ok (start_line, header_block, body).

(** State of the loop of [parse_header_block]. *)
Record fold_state : Type := mkFold {
  f_headers : Headers.t;
  f_current : option str;
  f_folds : Z
}.

#[export] Instance fold_state_eta : Settable fold_state :=
  fun r => mkFold (f_headers r) (f_current r) (f_folds r).

Definition flush (st : fold_state) : result Headers.t SipError :=
  match f_current st with
  | Some line =>
      let? h := Header.parse_line line in
      Headers.push (f_headers st) h
  | None => Ok (f_headers st)
  end.

Definition header_line (st : fold_state) (raw_line : str) : result fold_state SipError :=
  match raw_line with
  | [] => Ok st
  | first_byte :: _ =>
      if bool_decide (first_byte = " "%char) || (code first_byte =? 9) then
        let? folded := ok_or (f_current st) InvalidHeader in
        let folds := f_folds st + 1 in
        if MAX_FOLD_LINES_PER_HEADER <? folds then Err InvalidHeader else
        let folded := folded ++ #" " ++ trim raw_line in
        if MAX_HEADER_VALUE_LEN + MAX_START_LINE_LEN <? blen folded then Err InvalidHeader
        else Ok (st <| f_current := Some folded |> <| f_folds := folds |>)
      else
        let? hs := flush st in
        Ok (mkFold hs (Some raw_line) 0)
  end.

Fixpoint header_lines (st : fold_state) (ls : list str) : result fold_state SipError :=
  match ls with
  | [] => Ok st
  | l :: rest => let? st' := header_line st l in header_lines st' rest
  end.

Definition parse_header_block (block : str) : result Headers.t SipError :=
  let? st := header_lines (mkFold Headers.new None 0) (lines block) in
  flush st.

Definition parse_request_line (line : str) : result (PMethod.t * str * str) SipError :=
  if MAX_START_LINE_LEN <? blen line then Err Parse else
  match split_whitespace line with
  | [m; uri_str; version] =>
      let? method := PMethod.from_str m in
      if negb (eqb version #"SIP/2.0") then Err Parse else
      let? _ := map_err (fun _ => Parse) (uri_parse uri_str) in
      Ok (method, uri_str, version)
  | _ => Err Parse
  end.

(** A control byte other than HTAB. *)
Definition forbidden_ctl (b : ascii) : bool :=
  (code b =? 127) || ((code b <? 32) && negb (code b =? 9)).

Definition parse_status_line (line : str) : result (str * StatusCode.t * str) SipError :=
  if MAX_START_LINE_LEN <? blen line then Err Parse else
  let? (version, rest) := ok_or (split_once " "%char line) Parse in
  let? (code_str, reason) := ok_or (split_once " "%char rest) Parse in
  if negb (eqb version #"SIP/2.0") then Err Parse else
  if negb (blen code_str =? 3) then Err Parse else
  let? c := ok_or (parse_uint u16_max code_str) Parse in
  if negb ((100 <=? c) && (c <=? 699)) then Err Parse else
  if existsb forbidden_ctl reason then Err Parse
  else Ok (version, StatusCode.new c, reason).

(** ** Messages *)
Record Request : Type := mkRequest {
  r_method : PMethod.t;
  r_uri : str;
  r_version : str;
  r_headers : Headers.t;
  r_body : str
}.

Record Response : Type := mkResponse {
  p_version : str;
  p_status_code : StatusCode.t;
  p_reason : str;
  p_headers : Headers.t;
  p_body : str
}.

#[export] Instance Request_eq_dec : EqDecision Request.
Proof. solve_decision. Defined.
#[export] Instance Response_eq_dec : EqDecision Response.
Proof. solve_decision. Defined.

#[export] Instance Response_eta : Settable Response := fun r =>
  mkResponse (p_version r) (p_status_code r) (p_reason r) (p_headers r) (p_body r).

Inductive Message : Type :=
| MRequest (r : Request)
| MResponse (r : Response).

(** Content-Length shortens the body, never extends it. *)
Definition trim_body (headers : Headers.t) (body : str) : str :=
  match Headers.get_first_value headers #"Content-Length" with
  | Some v =>
      match parse_uint u64_max (trim v) with
      | Some n => if n <=? blen body then take (Z.to_nat n) body else body
      | None => body
      end
  | None => body
  end.

Definition request_parse (data : str) : result Request SipError :=
  let? (start_line, header_block, body) := split_message data in
  let? (method, uri, version) := parse_request_line start_line in
  let? headers := parse_header_block header_block in
  Ok (mkRequest method uri version headers (trim_body headers body)).

Definition response_parse (data : str) : result Response SipError :=
  let? (start_line, header_block, body) := split_message data in
  let? (version, status_code, reason) := parse_status_line start_line in
  let? headers := parse_header_block header_block in
  Ok (mkResponse version status_code reason headers (trim_body headers body)).

(** The bytes before the first CR or LF. *)
Fixpoint first_line_bytes (data : str) : str :=
  match data with
  | [] => []
  | b :: r => if bool_decide (b = CR \/ b = LF) then [] else b :: first_line_bytes r
  end.

Definition message_parse (data : str) : result Message SipError :=
  if starts_with #"SIP/" (first_line_bytes data)
  then let? r := response_parse data in Ok (MResponse r)
  else let? r := request_parse data in Ok (MRequest r).

Definition write_header (body_len : Z) (h : Header.t) : str :=
  match h with
  | Header.ContentLength _ => #"Content-Length: " ++ dec body_len ++ CRLF
  | _ => Header.name h ++ #": " ++ Header.value h ++ CRLF
  end.

Definition write_headers (headers : Headers.t) (body_len : Z) : str :=
  concat (map (write_header body_len) headers).

Definition request_to_bytes (r : Request) : str :=
  PMethod.as_str (r_method r) ++ #" " ++ r_uri r ++ #" " ++ r_version r ++ CRLF ++
  write_headers (r_headers r) (blen (r_body r)) ++ CRLF ++ r_body r.

Definition response_to_bytes (r : Response) : str :=
  p_version r ++ #" " ++ dec (StatusCode.as_u16 (p_status_code r)) ++ #" " ++
  p_reason r ++ CRLF ++
  write_headers (p_headers r) (blen (p_body r)) ++ CRLF ++ p_body r.

Definition message_to_bytes (m : Message) : str :=
  match m with
  | MRequest r => request_to_bytes r
  | MResponse r => response_to_bytes r
  end.

(** [SipMessage::parse] of the wrapper: every error becomes [Parse]. *)
Definition sip_message_parse (data : str) : result Message SipError :=
  map_err (fun _ => Parse) (message_parse data).

(** ** Accessors (on the headers, as both wrappers share them) *)

Definition get_value (hs : Headers.t) (name : str) : result str SipError :=
  ok_or (Headers.get_first_value hs name) (MissingHeader name).

Definition as_parse_err {A} (r : result A SipError) : result A SipError :=
  map_err (fun _ => Parse) r.

Definition hs_call_id (hs : Headers.t) : result str SipError := get_value hs #"Call-ID".

Definition hs_from (hs : Headers.t) : result PFrom.t SipError :=
  let? v := get_value hs #"From" in as_parse_err (PFrom.parse v).

Definition hs_from_tag (hs : Headers.t) : result str SipError :=
  let? f := hs_from hs in ok_or (PFrom.tag f) InvalidHeader.

Definition hs_to_tag (hs : Headers.t) : option str :=
  let* v := Headers.get_first_value hs #"To" in
  let* t := rok (PTo.parse v) in
  PTo.tag t.

Definition hs_via_branch (hs : Headers.t) : result str SipError :=
  let? v := get_value hs #"Via" in
  let? via := as_parse_err (PVia.parse v) in
  ok_or (PVia.branch via) InvalidHeader.

Definition hs_cseq_typed (hs : Headers.t) : result CSeq.t SipError :=
  let? v := get_value hs #"CSeq" in as_parse_err (CSeq.parse v).

Definition hs_cseq (hs : Headers.t) : result Z SipError :=
  let? c := hs_cseq_typed hs in Ok (CSeq.seq c).

Definition hs_cseq_method (hs : Headers.t) : result Method SipError :=
  let? c := hs_cseq_typed hs in Ok (method_from_parser (CSeq.method c)).

Definition hs_contact_uri (hs : Headers.t) : option SipUri :=
  let* v := Headers.get_first_value hs #"Contact" in
  let* c := rok (PContact.parse v) in
  match c with
  | PContact.Wildcard _ => None
  | PContact.Addr a => Some (PContact.uri a)
  end.

(** The first value of a given variant, scanning for the variant itself. *)
Definition first_of (f : Header.t -> option str) (hs : Headers.t) : option str :=
  head (omap f hs).

Definition as_content_type (h : Header.t) : option str :=
  match h with Header.ContentType v => Some v | _ => None end.
Definition as_record_route (h : Header.t) : option str :=
  match h with Header.RecordRoute v => Some v | _ => None end.
Definition as_via (h : Header.t) : option str :=
  match h with Header.Via v => Some v | _ => None end.
Definition as_route (h : Header.t) : option str :=
  match h with Header.Route v => Some (trim v) | _ => None end.
Definition as_from (h : Header.t) : option str :=
  match h with Header.From v => Some v | _ => None end.
Definition as_to (h : Header.t) : option str :=
  match h with Header.To v => Some v | _ => None end.
Definition as_call_id (h : Header.t) : option str :=
  match h with Header.CallId v => Some v | _ => None end.
Definition as_cseq (h : Header.t) : option str :=
  match h with Header.CSeq v => Some v | _ => None end.
Definition as_www_authenticate (h : Header.t) : option str :=
  match h with Header.WwwAuthenticate v => Some v | _ => None end.
Definition as_proxy_authenticate (h : Header.t) : option str :=
  match h with Header.ProxyAuthenticate v => Some v | _ => None end.

Definition hs_content_type (hs : Headers.t) : option str := first_of as_content_type hs.
Definition hs_record_routes (hs : Headers.t) : list str := omap as_record_route hs.
Definition hs_via_headers_raw (hs : Headers.t) : list str := omap as_via hs.
Definition hs_route_headers (hs : Headers.t) : list str := omap as_route hs.

(** [find_other_header] *)
Definition find_other_header (hs : Headers.t) (name : str) : option str :=
  first_of (fun h =>
    match h with
    | Header.Other key v => if eq_ignore_ascii_case key name then Some (trim v) else None
    | _ => None
    end) hs.

(** Option tags of every [Require] line (typed or not), in order. *)
Definition require_tags (h : Header.t) : list str :=
  match h with
  | Header.Require v =>
      match Require_.parse v with Ok p => Require_.tags p | Err _ => [] end
  | Header.Other key v =>
      if eq_ignore_ascii_case key #"Require" then
        match Require_.parse v with Ok p => Require_.tags p | Err _ => [] end
      else []
  | _ => []
  end.

Definition find_require (hs : Headers.t) : option Require_.t :=
  match flat_map require_tags hs with
  | [] => None
  | tags => Some (Require_.mk tags)
  end.

Definition supported_tags (h : Header.t) : list str :=
  match h with
  | Header.Supported v =>
      match Supported.parse v with Ok p => Supported.tags p | Err _ => [] end
  | Header.Other key v =>
      if eq_ignore_ascii_case key #"Supported" then
        match Supported.parse v with Ok p => Supported.tags p | Err _ => [] end
      else []
  | _ => []
  end.

Definition find_supported (hs : Headers.t) : option Supported.t :=
  match flat_map supported_tags hs with
  | [] => None
  | tags => Some (Supported.mk tags)
  end.

Definition as_allow (h : Header.t) : option str :=
  match h with
  | Header.Allow v => Some v
  | Header.Other key v => if eq_ignore_ascii_case key #"Allow" then Some v else None
  | _ => None
  end.

Definition allow_methods (raw : str) : list Method :=
  flat_map (fun tok =>
    let trimmed := trim tok in
    if is_empty trimmed then []
    else match method_from_str trimmed with Ok m => [m] | Err _ => [] end)
    (split ","%char raw).

Definition find_allow (hs : Headers.t) : option (list Method) :=
  match omap as_allow hs with
  | [] => None
  | values => Some (flat_map allow_methods values)
  end.

Definition hs_session_expires (hs : Headers.t) : option SessionExpires.t :=
  let* v := or_else (find_other_header hs #"Session-Expires") (find_other_header hs #"x") in
  rok (SessionExpires.parse v).

Definition hs_min_se (hs : Headers.t) : option MinSe.t :=
  let* v := find_other_header hs #"Min-SE" in rok (MinSe.parse v).

Definition hs_rack (hs : Headers.t) : option RAck.t :=
  let* v := find_other_header hs #"RAck" in rok (RAck.parse v).

Definition hs_rseq (hs : Headers.t) : option RSeq.t :=
  let* v := find_other_header hs #"RSeq" in rok (RSeq.parse v).

(** *** Requests *)

Definition req_method (r : Request) : Method := method_from_parser (r_method r).

(** [None] is the panic of [expect]. *)
Definition req_uri (r : Request) : option SipUri := rok (uri_parse (r_uri r)).

Definition req_call_id (r : Request) := hs_call_id (r_headers r).
Definition req_from_tag (r : Request) := hs_from_tag (r_headers r).
Definition req_via_branch (r : Request) := hs_via_branch (r_headers r).
Definition req_to_tag (r : Request) := hs_to_tag (r_headers r).
Definition req_cseq (r : Request) := hs_cseq (r_headers r).
Definition req_cseq_method (r : Request) := hs_cseq_method (r_headers r).
Definition req_contact_uri (r : Request) := hs_contact_uri (r_headers r).
Definition req_rack (r : Request) := hs_rack (r_headers r).
Definition req_record_routes (r : Request) := hs_record_routes (r_headers r).

Definition req_from_tag_and_uri (r : Request) : result (str * SipUri) SipError :=
  let? f := hs_from (r_headers r) in
  let? tag := ok_or (PFrom.tag f) InvalidHeader in
  Ok (tag, PFrom.uri f).

Definition req_from_uri (r : Request) : result SipUri SipError :=
  let? f := hs_from (r_headers r) in Ok (PFrom.uri f).

Definition req_to_uri (r : Request) : result SipUri SipError :=
  let? v := get_value (r_headers r) #"To" in
  let? t := as_parse_err (PTo.parse v) in
  Ok (PTo.uri t).

(** *** Responses *)

Definition resp_status_code (r : Response) : Z := StatusCode.as_u16 (p_status_code r).

Definition resp_reason (r : Response) : str :=
  if negb (is_empty (p_reason r)) then p_reason r
  else StatusCode.reason_phrase (p_status_code r).

Definition resp_is_provisional (r : Response) : bool := in_range 100 200 (resp_status_code r).
Definition resp_is_success (r : Response) : bool := in_range 200 300 (resp_status_code r).
Definition resp_is_failure (r : Response) : bool := 300 <=? resp_status_code r.

Definition resp_call_id (r : Response) := hs_call_id (p_headers r).
Definition resp_from_tag (r : Response) := hs_from_tag (p_headers r).
Definition resp_to_tag (r : Response) := hs_to_tag (p_headers r).
Definition resp_via_branch (r : Response) := hs_via_branch (p_headers r).
Definition resp_cseq (r : Response) := hs_cseq (p_headers r).
Definition resp_cseq_method (r : Response) := hs_cseq_method (p_headers r).
Definition resp_contact_uri (r : Response) := hs_contact_uri (p_headers r).
Definition resp_record_routes (r : Response) := hs_record_routes (p_headers r).
Definition resp_rseq (r : Response) := hs_rseq (p_headers r).
Definition resp_www_authenticate (r : Response) := first_of as_www_authenticate (p_headers r).
Definition resp_proxy_authenticate (r : Response) := first_of as_proxy_authenticate (p_headers r).
Definition resp_security_server (r : Response) := find_other_header (p_headers r) #"Security-Server".
