(* ===== verification/SipBuild.v ===== *)
(** * Builders of requests and responses ([sip/message.rs])

    [SipRequestBuilder] and [SipResponseBuilder]: their fields, the setters that
    other components use, and [build]. *)

From S2P Require Import Prelude RStr SipBase SipHeader SipUri SipTyped SipHeaders.
From S2P Require Import SipMessage.

Local Open Scope Z_scope.

(** ** Requests *)
Record ReqBuilder : Type := mkReqBuilder {
  q_method : option PMethod.t;
  q_uri : option SipUri;
  q_uri_error : bool;
  q_via_branch : option str;
  q_via_host : option str;
  q_via_port : option Z;
  q_via_transport : option str;
  q_from_uri : option SipUri;
  q_from_uri_error : bool;
  q_from_tag : option str;
  q_from_display : option str;
  q_to_uri : option SipUri;
  q_to_uri_error : bool;
  q_to_tag : option str;
  q_call_id : option str;
  q_cseq : option Z;
  q_contact_uri : option SipUri;
  q_max_forwards : option Z;
  q_body : option str;
  q_content_type : option str;
  q_authorization : option str;
  q_proxy_authorization : option str;
  q_expires : option Z;
  q_require : option Require_.t;
  q_supported : option Supported.t;
  q_session_expires : option SessionExpires.t;
  q_min_se : option MinSe.t;
  q_rack : option RAck.t;
  q_allow : option (list Method);
  q_routes : option (list str);
  q_other_headers : list (str * str)
}.

#[export] Instance ReqBuilder_eta : Settable ReqBuilder := fun b =>
  mkReqBuilder (q_method b) (q_uri b) (q_uri_error b) (q_via_branch b) (q_via_host b)
    (q_via_port b) (q_via_transport b) (q_from_uri b) (q_from_uri_error b)
    (q_from_tag b) (q_from_display b) (q_to_uri b) (q_to_uri_error b) (q_to_tag b)
    (q_call_id b) (q_cseq b) (q_contact_uri b) (q_max_forwards b) (q_body b)
    (q_content_type b) (q_authorization b) (q_proxy_authorization b) (q_expires b)
    (q_require b) (q_supported b) (q_session_expires b) (q_min_se b) (q_rack b)
    (q_allow b) (q_routes b) (q_other_headers b).

Definition req_builder : ReqBuilder :=
  mkReqBuilder None None false None None None None None false None None None false
    None None None None None None None None None None None None None None None None
    None [].

Definition rq_method (m : Method) (b : ReqBuilder) : ReqBuilder :=
  b <| q_method := Some (method_to_parser m) |>.

Definition rq_uri (u : str) (b : ReqBuilder) : ReqBuilder :=
  match uri_parse u with
  | Ok p => b <| q_uri := Some p |> <| q_uri_error := false |>
  | Err _ => b <| q_uri_error := true |>
  end.

Definition rq_via (host : str) (port : Z) (transport branch : str) (b : ReqBuilder)
  : ReqBuilder :=
  b <| q_via_host := Some host |> <| q_via_port := Some port |>
    <| q_via_transport := Some transport |> <| q_via_branch := Some branch |>.

Definition rq_from (u tag : str) (b : ReqBuilder) : ReqBuilder :=
  let b := match uri_parse u with
           | Ok p => b <| q_from_uri := Some p |> <| q_from_uri_error := false |>
           | Err _ => b <| q_from_uri_error := true |>
           end in
  b <| q_from_tag := Some tag |>.

Definition rq_from_display (name : str) (b : ReqBuilder) : ReqBuilder :=
  b <| q_from_display := Some name |>.

Definition rq_to (u : str) (b : ReqBuilder) : ReqBuilder :=
  match uri_parse u with
  | Ok p => b <| q_to_uri := Some p |> <| q_to_uri_error := false |>
  | Err _ => b <| q_to_uri_error := true |>
  end.

Definition rq_to_tag (tag : str) (b : ReqBuilder) : ReqBuilder :=
  b <| q_to_tag := Some tag |>.

Definition rq_call_id (c : str) (b : ReqBuilder) : ReqBuilder :=
  b <| q_call_id := Some c |>.

Definition rq_cseq (n : Z) (b : ReqBuilder) : ReqBuilder :=
  b <| q_cseq := Some n |>.

Definition rq_contact (u : str) (b : ReqBuilder) : ReqBuilder :=
  match uri_parse u with
  | Ok p => b <| q_contact_uri := Some p |>
  | Err _ => b
  end.

Definition rq_max_forwards (n : Z) (b : ReqBuilder) : ReqBuilder :=
  b <| q_max_forwards := Some n |>.

Definition rq_body (body ct : str) (b : ReqBuilder) : ReqBuilder :=
  b <| q_body := Some body |> <| q_content_type := Some ct |>.

Definition rq_authorization (a : str) (b : ReqBuilder) : ReqBuilder :=
  b <| q_authorization := Some a |>.

Definition rq_proxy_authorization (a : str) (b : ReqBuilder) : ReqBuilder :=
  b <| q_proxy_authorization := Some a |>.

Definition rq_expires (n : Z) (b : ReqBuilder) : ReqBuilder :=
  b <| q_expires := Some n |>.

Definition rq_require (tags : list str) (b : ReqBuilder) : ReqBuilder :=
  b <| q_require := match tags with [] => None | _ => Some (Require_.mk tags) end |>.

Definition rq_supported (tags : list str) (b : ReqBuilder) : ReqBuilder :=
  b <| q_supported := match tags with [] => None | _ => Some (Supported.mk tags) end |>.

Definition rq_session_expires (secs : Z) (r : option Refresher) (b : ReqBuilder)
  : ReqBuilder :=
  b <| q_session_expires := Some (SessionExpires.mk secs r) |>.

Definition rq_min_se (secs : Z) (b : ReqBuilder) : ReqBuilder :=
  b <| q_min_se := Some (MinSe.mk secs) |>.

Definition rq_rack (rseq cseq : Z) (m : Method) (b : ReqBuilder) : ReqBuilder :=
  b <| q_rack := Some (RAck.mk rseq cseq m) |>.

Definition rq_allow (ms : list Method) (b : ReqBuilder) : ReqBuilder :=
  b <| q_allow := match ms with [] => None | _ => Some ms end |>.

Definition rq_route (rs : list str) (b : ReqBuilder) : ReqBuilder :=
  b <| q_routes := match rs with [] => None | _ => Some rs end |>.

Definition rq_header (n v : str) (b : ReqBuilder) : ReqBuilder :=
  b <| q_other_headers := q_other_headers b ++ [(n, v)] |>.

(** A header for an optional field. *)
Definition opt_header {A} (o : option A) (f : A -> Header.t) : list Header.t :=
  match o with Some a => [f a] | None => [] end.

Fixpoint push_all (hs : Headers.t) (l : list Header.t) : result Headers.t SipError :=
  match l with
  | [] => Ok hs
  | h :: r =>
      let? hs' := map_err (fun _ => InvalidHeader) (Headers.push hs h) in
      push_all hs' r
  end.

Definition via_value (transport host : str) (port : Z) (branch : str) : str :=
  #"SIP/2.0/" ++ transport ++ #" " ++ host ++ #":" ++ dec port ++ #";branch=" ++ branch.

Definition from_value (display : option str) (uri : SipUri) (tag : str) : str :=
  (match display with
   | Some d => [DQ] ++ d ++ [DQ] ++ #" "
   | None => []
   end) ++ #"<" ++ uri_to_string uri ++ #">;tag=" ++ tag.

Definition to_value (uri : SipUri) (tag : option str) : str :=
  #"<" ++ uri_to_string uri ++ #">" ++
  (match tag with Some t => #";tag=" ++ t | None => [] end).

Definition cseq_value (n : Z) (m : PMethod.t) : str :=
  dec n ++ #" " ++ method_to_string (method_from_parser m).

Definition allow_value (ms : list Method) : str := join #", " (map method_to_string ms).

(** The headers in the order [build] emits them. *)
Definition request_headers (b : ReqBuilder) (method : PMethod.t) (from_uri to_uri : SipUri)
  (from_tag call_id via_host via_branch : str) (cseq : Z) (body : str) : list Header.t :=
  [Header.Via (via_value (default #"UDP" (q_via_transport b)) via_host
                 (default 5060 (q_via_port b)) via_branch);
   Header.From (from_value (q_from_display b) from_uri from_tag);
   Header.To (to_value to_uri (q_to_tag b));
   Header.CallId call_id;
   Header.CSeq (cseq_value cseq method);
   Header.MaxForwards (dec (default 70 (q_max_forwards b)))] ++
  opt_header (q_contact_uri b) (fun u => Header.Contact (#"<" ++ uri_to_string u ++ #">")) ++
  opt_header (q_authorization b) Header.Authorization ++
  opt_header (q_proxy_authorization b) Header.ProxyAuthorization ++
  opt_header (q_expires b) (fun n => Header.Expires (dec n)) ++
  opt_header (q_require b) (fun r => Header.Require (Require_.to_header_value r)) ++
  opt_header (q_supported b) (fun s => Header.Supported (Supported.to_header_value s)) ++
  opt_header (q_session_expires b)
    (fun s => Header.Other #"Session-Expires" (SessionExpires.to_header_value s)) ++
  opt_header (q_min_se b) (fun m => Header.Other #"Min-SE" (MinSe.to_header_value m)) ++
  opt_header (q_rack b) (fun r => Header.Other #"RAck" (RAck.to_header_value r)) ++
  opt_header (q_allow b) (fun ms => Header.Allow (allow_value ms)) ++
  map Header.Route (default [] (q_routes b)) ++
  map (fun kv => Header.Other (fst kv) (snd kv)) (q_other_headers b) ++
  (if is_empty body then [] else opt_header (q_content_type b) Header.ContentType) ++
  [Header.ContentLength (dec (blen body))].

Definition req_build (b : ReqBuilder) : result Request SipError :=
  if q_uri_error b || q_from_uri_error b || q_to_uri_error b then Err InvalidHeader else
  let? method := ok_or (q_method b) InvalidHeader in
  let? uri := ok_or (q_uri b) InvalidHeader in
  let? from_uri := ok_or (q_from_uri b) InvalidHeader in
  let? from_tag := ok_or (q_from_tag b) InvalidHeader in
  let? to_uri := ok_or (q_to_uri b) InvalidHeader in
  let? call_id := ok_or (q_call_id b) InvalidHeader in
  let? cseq := ok_or (q_cseq b) InvalidHeader in
  let? via_host := ok_or (q_via_host b) InvalidHeader in
  let? via_branch := ok_or (q_via_branch b) InvalidHeader in
  let body := default [] (q_body b) in
  let? headers := push_all Headers.new
    (request_headers b method from_uri to_uri from_tag call_id via_host via_branch cseq body) in
  Ok (mkRequest method (uri_to_string uri) #"SIP/2.0" headers body).

(** ** Responses *)
Record RespBuilder : Type := mkRespBuilder {
  s_status_code : option Z;
  s_reason : option str;
  s_via : list str;
  s_from : option str;
  s_to : option str;
  s_call_id : option str;
  s_cseq : option str;
  s_contact_uri : option SipUri;
  s_body : option str;
  s_content_type : option str;
  s_require : option Require_.t;
  s_supported : option Supported.t;
  s_session_expires : option SessionExpires.t;
  s_min_se : option MinSe.t;
  s_rseq : option RSeq.t;
  s_allow : option (list Method)
}.

#[export] Instance RespBuilder_eta : Settable RespBuilder := fun b =>
  mkRespBuilder (s_status_code b) (s_reason b) (s_via b) (s_from b) (s_to b)
    (s_call_id b) (s_cseq b) (s_contact_uri b) (s_body b) (s_content_type b)
    (s_require b) (s_supported b) (s_session_expires b) (s_min_se b) (s_rseq b)
    (s_allow b).

Definition resp_builder : RespBuilder :=
  mkRespBuilder None None [] None None None None None None None None None None None None None.

Definition rs_status (c : Z) (reason : str) (b : RespBuilder) : RespBuilder :=
  b <| s_status_code := Some c |> <| s_reason := Some reason |>.

(** The [CSeq] is re-emitted in canonical form when it parses. *)
Definition canonical_cseq (req : Request) (raw : str) : str :=
  match req_cseq req, req_cseq_method req with
  | Ok n, Ok m => dec n ++ #" " ++ method_to_string m
  | _, _ => raw
  end.

Definition rs_from_request (req : Request) (b : RespBuilder) : RespBuilder :=
  let hs := r_headers req in
  let keep (o : option str) (old : option str) := or_else o old in
  b <| s_via := s_via b ++ omap as_via hs |>
    <| s_from := keep (first_of as_from hs) (s_from b) |>
    <| s_to := keep (first_of as_to hs) (s_to b) |>
    <| s_call_id := keep (first_of as_call_id hs) (s_call_id b) |>
    <| s_cseq := keep (canonical_cseq req <$> first_of as_cseq hs) (s_cseq b) |>.

Definition rs_to_tag (tag : str) (b : RespBuilder) : RespBuilder :=
  match s_to b with
  | Some to =>
      if contains #"tag=" to then b
      else b <| s_to := Some (to ++ #";tag=" ++ tag) |>
  | None => b
  end.

Definition rs_contact (u : str) (b : RespBuilder) : RespBuilder :=
  match uri_parse u with
  | Ok p => b <| s_contact_uri := Some p |>
  | Err _ => b
  end.

Definition rs_body (body ct : str) (b : RespBuilder) : RespBuilder :=
  b <| s_body := Some body |> <| s_content_type := Some ct |>.

Definition rs_require (tags : list str) (b : RespBuilder) : RespBuilder :=
  b <| s_require := match tags with [] => None | _ => Some (Require_.mk tags) end |>.

Definition rs_supported (tags : list str) (b : RespBuilder) : RespBuilder :=
  b <| s_supported := match tags with [] => None | _ => Some (Supported.mk tags) end |>.

Definition rs_session_expires (secs : Z) (r : option Refresher) (b : RespBuilder)
  : RespBuilder :=
  b <| s_session_expires := Some (SessionExpires.mk secs r) |>.

Definition rs_min_se (secs : Z) (b : RespBuilder) : RespBuilder :=
  b <| s_min_se := Some (MinSe.mk secs) |>.

Definition rs_rseq (n : Z) (b : RespBuilder) : RespBuilder :=
  b <| s_rseq := Some (RSeq.mk n) |>.

Definition rs_allow (ms : list Method) (b : RespBuilder) : RespBuilder :=
  b <| s_allow := match ms with [] => None | _ => Some ms end |>.

Definition response_headers (b : RespBuilder) (body : str) : list Header.t :=
  map Header.Via (s_via b) ++
  opt_header (s_from b) Header.From ++
  opt_header (s_to b) Header.To ++
  opt_header (s_call_id b) Header.CallId ++
  opt_header (s_cseq b) Header.CSeq ++
  opt_header (s_contact_uri b) (fun u => Header.Contact (#"<" ++ uri_to_string u ++ #">")) ++
  opt_header (s_require b) (fun r => Header.Require (Require_.to_header_value r)) ++
  opt_header (s_supported b) (fun s => Header.Supported (Supported.to_header_value s)) ++
  opt_header (s_session_expires b)
    (fun s => Header.Other #"Session-Expires" (SessionExpires.to_header_value s)) ++
  opt_header (s_min_se b) (fun m => Header.Other #"Min-SE" (MinSe.to_header_value m)) ++
  opt_header (s_rseq b) (fun r => Header.Other #"RSeq" (RSeq.to_header_value r)) ++
  opt_header (s_allow b) (fun ms => Header.Allow (allow_value ms)) ++
  (if is_empty body then [] else opt_header (s_content_type b) Header.ContentType) ++
  [Header.ContentLength (dec (blen body))].

Definition resp_build (b : RespBuilder) : result Response SipError :=
  let? status_code := ok_or (s_status_code b) InvalidHeader in
  let body := default [] (s_body b) in
  let? headers := push_all Headers.new (response_headers b body) in
  let reason := match s_reason b with
                | Some r => r
                | None => StatusCode.reason_phrase (StatusCode.new status_code)
                end in
  Ok (mkResponse #"SIP/2.0" (StatusCode.new status_code) reason headers body).

(** ** Lemmas *)

Lemma push_all_ok hs l out :
  push_all hs l = Ok out -> out = hs ++ l.
Proof.
  revert hs. induction l as [|h l IH]; intros hs H; simpl in H.
  - inv_res. by rewrite app_nil_r.
  - destruct (Headers.push hs h) as [hs'|] eqn:E; [|done]. simpl in H.
    apply headers_push_ok in E as [-> _]. apply IH in H as ->. by rewrite <- app_assoc.
Qed.

Lemma push_all_wf hs l out :
  Headers.wf hs -> push_all hs l = Ok out -> Headers.wf out.
Proof.
  revert hs. induction l as [|h l IH]; intros hs Hw H; simpl in H; [by inv_res|].
  destruct (Headers.push hs h) as [hs'|] eqn:E; [|done]. simpl in H.
  apply headers_push_ok in E as [_ Hw']. eauto.
Qed.

Lemma push_all_small hs l :
  Z.of_nat (length hs + length l) <= MAX_HEADERS -> push_all hs l = Ok (hs ++ l).
Proof.
  revert hs. induction l as [|h l IH]; intros hs Hl; cbn [push_all]; [by rewrite app_nil_r|].
  unfold Headers.push. simpl in Hl. destruct (Z.leb_spec MAX_HEADERS (Z.of_nat (length hs))); [lia|].
  cbn [map_err rbind]. rewrite IH; [by rewrite <- app_assoc|]. rewrite length_app. simpl. lia.
Qed.

(** A request has a bounded number of headers besides its routes and extra headers. *)
Lemma opt_header_length {X} (o : option X) g : (length (opt_header o g) <= 1)%nat.
Proof. destruct o; simpl; lia. Qed.

Lemma request_headers_length b m fu tu ft cid vh vb n body :
  (length (request_headers b m fu tu ft cid vh vb n body) <=
   18 + length (default [] (q_routes b)) + length (q_other_headers b))%nat.
Proof.
  unfold request_headers. rewrite !length_app, !length_map.
  assert (length (if is_empty body then [] else opt_header (q_content_type b) Header.ContentType) <= 1)%nat
    by (destruct (is_empty body); [simpl; lia|apply opt_header_length]).
  repeat match goal with
  | |- context [length (opt_header ?o ?g)] =>
      pose proof (opt_header_length o g); generalize dependent (length (opt_header o g)); intros
  end.
  simpl length in *. lia.
Qed.

(** A builder with its mandatory fields builds. *)
Lemma req_build_total b m u fu ft tu cid n vh vb :
  q_uri_error b = false -> q_from_uri_error b = false -> q_to_uri_error b = false ->
  q_method b = Some m -> q_uri b = Some u -> q_from_uri b = Some fu -> q_from_tag b = Some ft ->
  q_to_uri b = Some tu -> q_call_id b = Some cid -> q_cseq b = Some n -> q_via_host b = Some vh ->
  q_via_branch b = Some vb ->
  Z.of_nat (length (default [] (q_routes b)) + length (q_other_headers b)) <= 238 ->
  req_build b = Ok (mkRequest m (uri_to_string u) #"SIP/2.0"
    (request_headers b m fu tu ft cid vh vb n (default [] (q_body b))) (default [] (q_body b))).
Proof.
  intros E1 E2 E3 H1 H2 H3 H4 H5 H6 H7 H8 H9 Hl. unfold req_build.
  rewrite E1, E2, E3, H1, H2, H3, H4, H5, H6, H7, H8, H9. cbn [orb ok_or rbind].
  rewrite push_all_small; [done|].
  pose proof (request_headers_length b m fu tu ft cid vh vb n (default [] (q_body b))).
  unfold MAX_HEADERS, Headers.new. cbn [length]. lia.
Qed.

(** *** The Via line of a built request *)

(** Characters that stand for themselves in a [Via] value. *)
Definition viac (c : ascii) : bool :=
  tokc c && forallb (fun d => negb (bool_decide (c = d))) (DQ :: #";[]/").

Abbreviation via_ok s := (Forall (fun c => viac c = true) s).

Lemma viac_tokc c : viac c = true -> tokc c = true.
Proof. unfold viac. intros H. by zbool. Qed.

Lemma viac_ne c d : viac c = true -> viac d = false -> c <> d.
Proof. congruence. Qed.

Lemma via_ok_tok s : via_ok s -> Forall (fun c => tokc c = true) s.
Proof. intros H. eapply Forall_impl; [exact H|]. apply viac_tokc. Qed.

Lemma via_ok_not_in s d : via_ok s -> viac d = false -> ~ In d s.
Proof.
  intros H Hd Hin. rewrite Forall_forall in H. apply list_elem_of_In in Hin.
  rewrite (H d Hin) in Hd. done.
Qed.

Lemma dec_via_ok n : 0 <= n -> via_ok (dec n).
Proof.
  intros H. eapply Forall_impl; [by apply dec_digits|]. intros c Hc.
  unfold viac. rewrite digit_tokc by done. simpl.
  repeat (rewrite bool_decide_eq_false_2; [simpl|intros ->; by vm_compute in Hc]). done.
Qed.

Lemma rsplit_once_none c s : ~ In c s -> rsplit_once c s = None.
Proof.
  induction s as [|d r IH]; intros H; [done|]. simpl in *.
  rewrite IH by naive_solver. rewrite bool_decide_eq_false_2; naive_solver.
Qed.

Lemma rsplit_once_app c a b : ~ In c b -> rsplit_once c (a ++ c :: b) = Some (a, b).
Proof.
  intros H. induction a as [|d a IH]; simpl.
  - rewrite rsplit_once_none by done. by rewrite bool_decide_eq_true_2.
  - by rewrite IH.
Qed.

Lemma split_sent_by_ok acc s r :
  via_ok s -> PVia.split_sent_by_params false acc (s ++ ";"%char :: r) =
              Ok (acc ++ s, ";"%char :: r).
Proof.
  revert acc. induction s as [|c s IH]; intros acc H; simpl.
  - by rewrite app_nil_r.
  - inversion H as [|? ? Hc Hs]; subst.
    rewrite !bool_decide_eq_false_2 by (intros ->; by vm_compute in Hc).
    simpl. rewrite IH by done. by rewrite <- app_assoc.
Qed.

Lemma split_top_ok acc s : via_ok s -> split_top false acc s = [acc ++ s].
Proof.
  revert acc. induction s as [|c s IH]; intros acc H; simpl; [by rewrite app_nil_r|].
  inversion H as [|? ? Hc Hs]; subst.
  rewrite !bool_decide_eq_false_2 by (intros ->; by vm_compute in Hc).
  rewrite IH by done. by rewrite <- app_assoc.
Qed.

Lemma existsb_blank_tok s :
  Forall (fun c => tokc c = true) s -> existsb PVia.is_blank s = false.
Proof.
  induction 1 as [|c s Hc Hs IH]; [done|]. simpl. rewrite IH, orb_false_r.
  unfold PVia.is_blank, tokc, ws1 in *. zbool. rewrite orb_false_iff. split.
  - apply bool_decide_eq_false_2. intros ->. by vm_compute in H0.
  - apply Z.eqb_neq. lia.
Qed.

Lemma parse_proto_ok transport :
  via_ok transport -> transport <> [] ->
  PVia.parse_proto (#"SIP/2.0/" ++ transport) = Ok (#"SIP/2.0", transport).
Proof.
  intros Ht Hn. unfold PVia.parse_proto.
  change (#"SIP/2.0/" ++ transport) with (#"SIP/2.0" ++ "/"%char :: transport).
  rewrite rsplit_once_app by by apply via_ok_not_in.
  rewrite (trim_all_tok #"SIP/2.0") by by repeat constructor.
  rewrite (trim_all_tok transport) by by apply via_ok_tok.
  by destruct transport.
Qed.

Lemma parse_params_branch branch :
  via_ok branch ->
  parse_params (#";branch=" ++ branch) = Ok [(#"branch", Some branch)].
Proof.
  intros Hb. unfold parse_params. change (#";branch=" ++ branch)
    with (";"%char :: (#"branch=" ++ branch)).
  rewrite trim_start_tok by done. rewrite bool_decide_eq_true_2 by done.
  rewrite split_top_ok by (apply Forall_app; split; [by repeat constructor|done]).
  cbn [flat_map]. unfold chunk_param. rewrite app_nil_l.
  rewrite trim_all_tok by
    (apply Forall_app; split; [by repeat constructor|by apply via_ok_tok]).
  simpl. rewrite (trim_all_tok branch) by by apply via_ok_tok. done.
Qed.

Lemma via_value_trim transport host port branch :
  via_ok branch -> branch <> [] ->
  trim (via_value transport host port branch) = via_value transport host port branch.
Proof.
  intros Hb Hn. destruct branch as [|bc bl _] using rev_ind; [done|]. apply trim_tok.
  - intros c r. unfold via_value. simpl. intros E. by simplify_eq.
  - intros r c. unfold via_value. rewrite !app_assoc.
    intros [_ <-]%app_inj_tail. apply viac_tokc.
    apply Forall_app in Hb as [_ Hb]. by inversion Hb.
Qed.

Lemma host_port_ok host port :
  via_ok host -> 0 <= port ->
  via_ok (host ++ #":" ++ dec port) /\ is_empty (host ++ #":" ++ dec port) = false.
Proof.
  intros Hh Hp. split; [|by destruct host].
  apply Forall_app. split; [done|]. apply Forall_app.
  split; [by repeat constructor|by apply dec_via_ok].
Qed.

(** The parsed form of the [Via] line that [build] writes. *)
Lemma via_value_parse transport host port branch :
  via_ok transport -> transport <> [] -> via_ok host -> 0 <= port ->
  via_ok branch -> branch <> [] ->
  PVia.parse (via_value transport host port branch) =
  Ok (PVia.mk #"SIP/2.0" transport (host ++ #":" ++ dec port)
        [(#"branch", Some branch)]).
Proof.
  intros Ht Htn Hh Hp Hb Hbn. unfold PVia.parse. rewrite via_value_trim by done.
  destruct (host_port_ok host port Hh Hp) as [Hs He].
  remember (host ++ #":" ++ dec port) as hp eqn:Ehp.
  assert (via_value transport host port branch =
    (#"SIP/2.0/" ++ transport) ++ " "%char :: (hp ++ ";"%char :: (#"branch=" ++ branch))) as E.
  { subst hp. unfold via_value. by rewrite <- !app_assoc. }
  assert (is_empty (via_value transport host port branch) = false) as -> by done.
  rewrite E, split_once_app.
  2:{ rewrite in_app_iff. intros [Hin|Hin]; [by repeat destruct Hin as [Hin|Hin]|].
      by apply (via_ok_not_in _ " "%char Ht). }
  rewrite (trim_all_tok (#"SIP/2.0/" ++ transport)) by
    (apply Forall_app; split; [by repeat constructor|by apply via_ok_tok]).
  assert (trim_start (hp ++ ";"%char :: (#"branch=" ++ branch)) =
          hp ++ ";"%char :: (#"branch=" ++ branch)) as ->.
  { destruct hp as [|c r]; [done|]. apply trim_start_tok, viac_tokc. by inversion Hs. }
  rewrite parse_proto_ok by done. unfold rbind at 1.
  rewrite split_sent_by_ok by done. unfold rbind at 1. rewrite app_nil_l.
  rewrite (trim_all_tok hp) by by apply via_ok_tok. rewrite He.
  rewrite existsb_blank_tok by by apply via_ok_tok.
  change (";"%char :: (#"branch=" ++ branch)) with (#";branch=" ++ branch).
  by rewrite parse_params_branch.
Qed.

(** *** Reading back what was built *)

(** No untyped header carries one of the names the transaction layer reads;
    header lines from the wire satisfy this, since recognition is by name. *)
Definition other_ok (h : Header.t) : bool :=
  match h with
  | Header.Other n _ =>
      negb (eq_ignore_ascii_case n #"Via") && negb (eq_ignore_ascii_case n #"CSeq")
  | _ => true
  end.

Lemma get_first_typed q f hs :
  Forall (fun h => if Header.name_matches h q then f h = Some (Header.value h)
                   else f h = None) hs ->
  Headers.get_first_value hs q = first_of f hs.
Proof.
  unfold Headers.get_first_value, Headers.get_first, first_of.
  induction 1 as [|h hs Hh Hs IH]; [done|]. cbn [find omap list_omap].
  destruct (Header.name_matches h q); rewrite Hh; [done|exact IH].
Qed.

Lemma get_first_via hs :
  forallb other_ok hs = true -> Headers.get_first_value hs #"Via" = first_of as_via hs.
Proof.
  intros H. apply get_first_typed. rewrite forallb_forall in H.
  apply Forall_forall. intros h Hin%list_elem_of_In. specialize (H h Hin).
  destruct h as [| | | | | | | | | | | | | | | | | | |n v]; try reflexivity.
  unfold other_ok in H. zbool.
  change (Header.name_matches (Header.Other n v) #"Via") with (eq_ignore_ascii_case n #"Via").
  by rewrite H.
Qed.

Lemma get_first_cseq hs :
  forallb other_ok hs = true -> Headers.get_first_value hs #"CSeq" = first_of as_cseq hs.
Proof.
  intros H. apply get_first_typed. rewrite forallb_forall in H.
  apply Forall_forall. intros h Hin%list_elem_of_In. specialize (H h Hin).
  destruct h as [| | | | | | | | | | | | | | | | | | |n v]; try reflexivity.
  unfold other_ok in H. zbool.
  change (Header.name_matches (Header.Other n v) #"CSeq") with (eq_ignore_ascii_case n #"CSeq").
  by rewrite H0.
Qed.

Lemma req_build_ok b r :
  req_build b = Ok r ->
  exists m u fu ft tu cid n vh vb,
    q_method b = Some m /\ q_uri b = Some u /\ q_from_uri b = Some fu /\
    q_from_tag b = Some ft /\ q_to_uri b = Some tu /\ q_call_id b = Some cid /\
    q_cseq b = Some n /\ q_via_host b = Some vh /\ q_via_branch b = Some vb /\
    r = mkRequest m (uri_to_string u) #"SIP/2.0"
          (request_headers b m fu tu ft cid vh vb n (default [] (q_body b)))
          (default [] (q_body b)) /\
    Headers.wf (r_headers r).
Proof.
  unfold req_build. destruct (_ || _); [done|].
  repeat match goal with
  | |- context [ok_or (?f b)] => destruct (f b) eqn:?; cbn [rbind ok_or]; [|done]
  end.
  destruct (push_all _ _) as [hs|] eqn:E; [|done]. cbn [rbind]. intros H. inv_res.
  pose proof (push_all_wf _ _ _ headers_new_wf E) as Hw.
  apply push_all_ok in E. cbn [app Headers.new] in E.
  eexists _, _, _, _, _, _, _, _, _. split_and!; try done. simpl. by rewrite <- E.
Qed.

Lemma cseq_value_parse n m :
  is_u32 n -> CSeq.parse (cseq_value n m) = Ok (CSeq.mk n m).
Proof.
  intros H. rewrite <- (cseq_roundtrip (CSeq.mk n m)) by done. unfold CSeq.to_string,
    cseq_value. simpl. by rewrite <- method_strings_agree, method_to_from_parser.
Qed.

(** A built request is read back with the branch, Call-ID, sequence number and
    method it was given. *)
Lemma req_build_read b r :
  req_build b = Ok r ->
  via_ok (default #"UDP" (q_via_transport b)) -> default #"UDP" (q_via_transport b) <> [] ->
  0 <= default 5060 (q_via_port b) ->
  (forall h, q_via_host b = Some h -> via_ok h) ->
  (forall br, q_via_branch b = Some br -> via_ok br /\ br <> []) ->
  (forall n, q_cseq b = Some n -> is_u32 n) ->
  rok (req_via_branch r) = q_via_branch b /\
  rok (req_call_id r) = q_call_id b /\
  rok (req_cseq r) = q_cseq b /\
  Some (req_method r) = method_from_parser <$> q_method b /\
  rok (req_cseq_method r) = method_from_parser <$> q_method b.
Proof.
  intros Hb Ht Htn Hp Hh Hbr Hn.
  destruct (req_build_ok _ _ Hb) as (m & u & fu & ft & tu & cid & n & vh & vb &
    Em & _ & _ & _ & _ & Ec & En & Evh & Evb & -> & _).
  destruct (Hbr _ Evb). pose proof (Hh _ Evh). pose proof (Hn _ En).
  rewrite Em, Ec, En, Evb.
  remember (request_headers b m fu tu ft cid vh vb n (default [] (q_body b))) as hs eqn:Ehs.
  assert (Headers.get_first_value hs #"Via" =
    Some (via_value (default #"UDP" (q_via_transport b)) vh (default 5060 (q_via_port b)) vb))
    as Gv by (subst hs; reflexivity).
  assert (Headers.get_first_value hs #"Call-ID" = Some cid) as Gc by (subst hs; reflexivity).
  assert (Headers.get_first_value hs #"CSeq" = Some (cseq_value n m)) as Gs
    by (subst hs; reflexivity).
  unfold req_via_branch, req_call_id, req_cseq, req_cseq_method, req_method,
    hs_via_branch, hs_call_id, hs_cseq, hs_cseq_method, hs_cseq_typed, get_value.
  cbn [r_headers r_method]. rewrite Gv, Gc, Gs. cbn [ok_or rbind as_parse_err].
  rewrite via_value_parse, cseq_value_parse by done. done.
Qed.

Lemma opt_header_other_ok {X} (o : option X) g :
  (forall x, other_ok (g x) = true) -> forallb other_ok (opt_header o g) = true.
Proof. intros H. destruct o; simpl; [by rewrite H|done]. Qed.

Lemma response_headers_other_ok b body : forallb other_ok (response_headers b body) = true.
Proof.
  unfold response_headers. rewrite !forallb_app, !opt_header_other_ok by done.
  assert (forallb other_ok (map Header.Via (s_via b)) = true) as ->
    by by induction (s_via b).
  destruct (is_empty body); [done|]. by rewrite opt_header_other_ok.
Qed.

Lemma omap_opt_header {X} (f : Header.t -> option str) (o : option X) g :
  (forall x, f (g x) = None) -> omap f (opt_header o g) = [].
Proof. intros H. destruct o; simpl; [by rewrite H|done]. Qed.

Lemma response_headers_via b body : omap as_via (response_headers b body) = s_via b.
Proof.
  unfold response_headers. rewrite !omap_app.
  assert (omap as_via (map Header.Via (s_via b)) = s_via b) as ->.
  { induction (s_via b) as [|v l IH]; [done|].
    change (v :: omap as_via (map Header.Via l) = v :: l). by rewrite IH. }
  rewrite !omap_opt_header by done.
  assert (omap as_via (if is_empty body then [] else
    opt_header (s_content_type b) Header.ContentType) = []) as ->.
  { destruct (is_empty body); [done|]. by rewrite omap_opt_header. }
  simpl. by rewrite app_nil_r.
Qed.

Lemma response_headers_cseq b body :
  first_of as_cseq (response_headers b body) = s_cseq b.
Proof.
  unfold first_of, response_headers. rewrite !omap_app.
  assert (omap as_cseq (map Header.Via (s_via b)) = []) as ->.
  { by induction (s_via b). }
  destruct (s_cseq b) eqn:E; cbn [opt_header omap list_omap as_cseq app].
  - by rewrite !omap_opt_header.
  - rewrite !omap_opt_header by done.
    destruct (is_empty body); [done|]. by rewrite omap_opt_header.
Qed.

Lemma resp_build_ok b r :
  resp_build b = Ok r ->
  exists c, s_status_code b = Some c /\ resp_status_code r = c /\
    p_headers r = response_headers b (default [] (s_body b)) /\ Headers.wf (p_headers r).
Proof.
  unfold resp_build. destruct (s_status_code b) as [c|]; [|done]. cbn [ok_or rbind].
  destruct (push_all _ _) as [hs|] eqn:E; [|done]. cbn [rbind]. intros H. inv_res.
  pose proof (push_all_wf _ _ _ headers_new_wf E) as Hw.
  apply push_all_ok in E. cbn [app Headers.new] in E.
  exists c. split_and!; done.
Qed.

(** A request has the one [Via] its builder gave it. *)
Lemma opt_header_no_via {X} (o : option X) (g : X -> Header.t) l :
  (forall x, as_via (g x) = None) -> omap as_via (opt_header o g ++ l) = omap as_via l.
Proof. intros Hg. destruct o as [x|]; [|done]. cbn. by rewrite Hg. Qed.

Lemma map_no_via {X} (xs : list X) (g : X -> Header.t) l :
  (forall x, as_via (g x) = None) -> omap as_via (map g xs ++ l) = omap as_via l.
Proof. intros Hg. induction xs as [|x xs IH]; [done|]. cbn. by rewrite Hg. Qed.

Lemma request_headers_via b m fu tu ft cid vh vb n body :
  length (omap as_via (request_headers b m fu tu ft cid vh vb n body)) = 1%nat.
Proof.
  unfold request_headers. cbn [app omap list_omap as_via length]. f_equal.
  rewrite !opt_header_no_via, !map_no_via by done.
  destruct (is_empty body); [done|]. by rewrite opt_header_no_via.
Qed.

Lemma response_headers_length b body :
  (length (response_headers b body) <= 13 + length (s_via b))%nat.
Proof.
  unfold response_headers. rewrite !length_app, !length_map.
  assert (length (if is_empty body then [] else opt_header (s_content_type b) Header.ContentType) <= 1)%nat
    by (destruct (is_empty body); [simpl; lia|apply opt_header_length]).
  repeat match goal with
  | |- context [length (opt_header ?o ?g)] =>
      pose proof (opt_header_length o g); generalize dependent (length (opt_header o g)); intros
  end.
  simpl length in *. lia.
Qed.

(** A response with few [Via]s can be built. *)
Lemma resp_build_total b c :
  s_status_code b = Some c -> (length (s_via b) <= 200)%nat -> exists r, resp_build b = Ok r.
Proof.
  intros E Hv. unfold resp_build. rewrite E. cbn [ok_or rbind].
  rewrite push_all_small; [by eexists|].
  pose proof (response_headers_length b (default [] (s_body b))).
  unfold MAX_HEADERS, Headers.new. cbn [length]. lia.
Qed.

Lemma canonical_cseq_parse req raw :
  get_value (r_headers req) #"CSeq" = Ok raw ->
  (let? c := as_parse_err (CSeq.parse (canonical_cseq req raw)) in
   Ok (method_from_parser (CSeq.method c))) = req_cseq_method req.
Proof.
  intros Hr. unfold canonical_cseq, req_cseq, req_cseq_method, hs_cseq, hs_cseq_method,
    hs_cseq_typed. rewrite Hr. cbn [rbind].
  destruct (CSeq.parse raw) as [[n m]|] eqn:E; cbn [rbind as_parse_err map_err].
  - pose proof (cseq_parse_bound _ _ E) as Hn. simpl in *.
    rewrite <- method_strings_agree, method_to_from_parser.
    pose proof (cseq_roundtrip (CSeq.mk n m) Hn) as R. unfold CSeq.to_string in R.
    simpl in R. rewrite R. done.
  - by rewrite E.
Qed.

(** A response that copies a request's headers has the request's branch and
    [CSeq] method, whether they parse or not. *)
Lemma resp_build_match req b r :
  forallb other_ok (r_headers req) = true ->
  resp_build b = Ok r ->
  s_via b = omap as_via (r_headers req) ->
  s_cseq b = canonical_cseq req <$> first_of as_cseq (r_headers req) ->
  resp_via_branch r = req_via_branch req /\ resp_cseq_method r = req_cseq_method req.
Proof.
  intros Ho Hb Hv Hc.
  destruct (resp_build_ok _ _ Hb) as (c & _ & _ & Eh & _).
  pose proof (response_headers_other_ok b (default [] (s_body b))) as Hok.
  unfold resp_via_branch, req_via_branch, resp_cseq_method, hs_via_branch,
    hs_cseq_method, hs_cseq_typed, get_value. rewrite Eh.
  rewrite !get_first_via, !get_first_cseq by done. split.
  - unfold first_of. by rewrite response_headers_via, Hv.
  - rewrite response_headers_cseq, Hc.
    destruct (first_of as_cseq (r_headers req)) as [raw|] eqn:E.
    + cbn [fmap option_fmap option_map ok_or rbind].
      apply canonical_cseq_parse. unfold get_value.
      by rewrite get_first_cseq, E.
    + unfold req_cseq_method, hs_cseq_method, hs_cseq_typed, get_value.
      by rewrite get_first_cseq, E.
Qed.
