(* ===== verification/Sample.v ===== *)
(** * Concrete messages

    Requests and responses produced by the builders, used to instantiate the
    theorems of the transaction and dialog layers. *)

From S2P Require Import Prelude RStr SipBase SipHeader SipUri SipTyped SipHeaders.
From S2P Require Import SipMessage SipBuild.

Local Open Scope Z_scope.

Definition sample_builder (m : Method) : ReqBuilder :=
  rq_contact #"sip:alice@192.168.1.1:5060"
  (rq_cseq 1
  (rq_call_id #"test@example.com"
  (rq_to #"sip:bob@example.com"
  (rq_from #"sip:alice@example.com" #"fromtag"
  (rq_via #"192.168.1.1" 5060 #"UDP" #"z9hG4bKtest"
  (rq_uri #"sip:bob@example.com"
  (rq_method m req_builder))))))).

Definition or_empty (r : result Request SipError) : Request :=
  match r with
  | Ok x => x
  | Err _ => mkRequest PMethod.Options [] [] [] []
  end.

Definition sample_request (m : Method) : Request := or_empty (req_build (sample_builder m)).

Definition sample_resp_builder (m : Method) (c : Z) : RespBuilder :=
  rs_to_tag #"totag"
  (rs_status c (StatusCode.reason_phrase (StatusCode.new c))
  (rs_from_request (sample_request m) resp_builder)).

Definition sample_response (m : Method) (c : Z) : Response :=
  match resp_build (sample_resp_builder m c) with
  | Ok r => r
  | Err _ => mkResponse [] (StatusCode.new c) [] [] []
  end.
