(* ===== verification/SipRoundtrip.v ===== *)
(** * Round trips of the SIP syntax

    Printing a URI ([sip/uri.rs]) or a name-address ([sip/parser/name_addr.rs]) and
    parsing the text gives the value back, and the tags a request was built with are
    read from its headers. *)

From S2P Require Import Prelude RStr SipBase SipHeader SipUri SipTyped SipHeaders.
From S2P Require Import SipMessage SipBuild Sample.

Local Open Scope Z_scope.

(** ** Text without delimiters *)

(** ASCII, no whitespace, none of the characters of [ds], nor [<], [>] and the
    quote. *)
Definition plain (ds : str) (s : str) : bool :=
  forallb (fun c => tokc c && negb (contains_char c (#"<>" ++ DQ :: ds))) s.

Lemma plain_spec ds s :
  plain ds s = true <-> forall c, In c s -> tokc c = true /\ ~ In c (#"<>" ++ DQ :: ds).
Proof.
  unfold plain. rewrite forallb_forall.
  split; intros H c Hc; specialize (H c Hc).
  - apply andb_prop in H as [H1 H2]. split; [done|]. intros Hin.
    apply contains_char_in in Hin. by rewrite Hin in H2.
  - destruct H as [-> H]. apply negb_true_iff, not_true_iff_false.
    by rewrite contains_char_in.
Qed.

Lemma plain_In ds s c : plain ds s = true -> In c s -> tokc c = true /\ ~ In c (#"<>" ++ DQ :: ds).
Proof. rewrite plain_spec. auto. Qed.

Lemma plain_no ds s c : plain ds s = true -> In c (#"<>" ++ DQ :: ds) -> ~ In c s.
Proof. intros H Hc Hs. by destruct (plain_In _ _ _ H Hs). Qed.

Lemma plain_tok ds s : plain ds s = true -> Forall (fun c => tokc c = true) s.
Proof.
  intros H. apply Forall_forall. intros c Hc. apply list_elem_of_In in Hc.
  by destruct (plain_In _ _ _ H Hc).
Qed.

Lemma plain_app ds a b : plain ds (a ++ b) = plain ds a && plain ds b.
Proof. apply forallb_app. Qed.

Lemma plain_cons ds c s : plain ds (c :: s) = plain ds [c] && plain ds s.
Proof. unfold plain. simpl. by rewrite andb_true_r. Qed.

Lemma plain_sub ds ds' s : (forall c, In c ds' -> In c ds) -> plain ds s = true -> plain ds' s = true.
Proof.
  intros Hd. rewrite !plain_spec. intros H c Hc. destruct (H c Hc) as [H1 H2].
  split; [done|]. intros Hin. apply H2. rewrite in_app_iff in *. simpl in *. naive_solver.
Qed.

Lemma plain_one ds c : tokc c = true -> ~ In c (#"<>" ++ DQ :: ds) -> plain ds [c] = true.
Proof. intros H1 H2. rewrite plain_spec. by intros d [<-|[]]. Qed.

(** Solve [In c "literal"]. *)
Ltac in_lit := simpl; tauto.

Lemma is_empty_mid a c b : is_empty (a ++ c :: b) = false.
Proof. by destruct a. Qed.

Lemma split_nonempty c s : split c s <> [].
Proof. destruct s as [|d s]; simpl; [done|]. case_bool_decide; [done|]. by destruct (split c s). Qed.

Lemma split_join c l : l <> [] -> Forall (fun p => ~ In c p) l -> split c (join [c] l) = l.
Proof.
  intros Hn Hl. induction Hl as [|t ts Ht Hts IH]; [done|].
  destruct ts as [|u ts]; [by apply split_no|].
  change (join [c] (t :: u :: ts)) with (t ++ c :: join [c] (u :: ts)).
  rewrite split_app by done. by rewrite IH.
Qed.

(** ** URIs *)

Definition param_text (p : param) : str :=
  match p with (k, Some v) => k ++ #"=" ++ v | (k, None) => k end.

Definition wf_param (p : param) : bool :=
  plain #";=?@" (fst p) && negb (is_empty (fst p)) &&
  match snd p with Some v => plain #";?@" v | None => true end.

Definition wf_uri_header (kv : str * str) : bool :=
  plain #"&=" (fst kv) && plain #"&" (snd kv) && (blen (snd kv) <=? MAX_URI_HEADER_VALUE_LEN).

(** A host is a bracketed IPv6 reference or text without colons. *)
Definition wf_host (h : str) : bool :=
  match strip_prefix #"[" h with
  | Some r => match split_once "]"%char r with
              | Some (a, []) => plain #";?@]" a
              | _ => false
              end
  | None => plain #":;?@" h
  end.

(** What the grammar of the parser can give back: a telephone URI keeps the whole
    number in [host]. *)
Definition wf_uri (u : SipUri) : bool :=
  match scheme u with
  | Tel => negb (is_some (user u)) && negb (is_some (port u)) && plain #";?@" (host u)
  | _ =>
      match user u with Some us => plain #"?@" us | None => true end &&
      wf_host (host u) &&
      match port u with Some p => (0 <=? p) && (p <=? u16_max) | None => true end
  end &&
  forallb wf_param (params u) && forallb wf_uri_header (headers u) &&
  (Z.of_nat (length (headers u)) <=? MAX_URI_HEADERS).

Lemma show_params_join ps : ps <> [] -> show_params ps = ";"%char :: join #";" (map param_text ps).
Proof.
  intros Hn. induction ps as [|p ps IH]; [done|]. unfold show_params in *. simpl.
  assert (show_param p = ";"%char :: param_text p) as -> by by destruct p as [k []].
  destruct ps as [|q ps]; [simpl; by rewrite app_nil_r|].
  rewrite IH by done. done.
Qed.

Lemma wf_param_text ds p :
  (forall c, In c ds -> In c #";?@") -> wf_param p = true -> plain ds (param_text p) = true.
Proof.
  intros Hd. destruct p as [k v]. unfold wf_param. simpl. intros H. zbool.
  assert (plain ds k = true) as Hk
    by (eapply plain_sub; [|exact H]; intros c Hc; apply Hd in Hc; simpl in *; tauto).
  destruct v as [v|]; [|done]. change (k ++ #"=" ++ v) with (k ++ "="%char :: v).
  rewrite plain_app, plain_cons, Hk, andb_true_l. apply andb_true_intro. split.
  - apply plain_one; [done|]. intros Hin. simpl in Hin.
    destruct Hin as [E|[E|[E|E]]]; try done. apply Hd in E. simpl in E. naive_solver.
  - eapply plain_sub; [|exact H0]. exact Hd.
Qed.

Lemma uri_param_text p : wf_param p = true -> uri_param (param_text p) = [p].
Proof.
  intros H. pose proof (wf_param_text [] p ltac:(done) H) as Hp.
  unfold uri_param. rewrite trim_all_tok by (by eapply plain_tok).
  destruct p as [k v]. unfold wf_param in H. simpl in H. zbool.
  destruct v as [v|]; simpl param_text.
  - change (k ++ #"=" ++ v) with (k ++ "="%char :: v).
    rewrite is_empty_mid, split_once_app; [done|]. eapply plain_no; [exact H|in_lit].
  - rewrite H1. rewrite split_once_none; [done|]. eapply plain_no; [exact H|in_lit].
Qed.

Lemma parse_params_show ps :
  forallb wf_param ps = true ->
  flat_map uri_param (split ";"%char (join #";" (map param_text ps))) = ps.
Proof.
  intros H. destruct ps as [|p ps]; [done|].
  rewrite split_join; [|done|].
  - induction (p :: ps) as [|q qs IH]; [done|]. simpl in *. zbool.
    rewrite uri_param_text, IH by done. done.
  - apply Forall_map, Forall_forall. intros q Hq. apply list_elem_of_In in Hq.
    rewrite forallb_forall in H. eapply (plain_no #";"); [|in_lit].
    apply wf_param_text; [simpl; tauto|by apply H].
Qed.

Definition header_text (kv : str * str) : str := fst kv ++ #"=" ++ snd kv.

Lemma parse_headers_show acc hs :
  forallb wf_uri_header hs = true -> Z.of_nat (length acc + length hs) <= MAX_URI_HEADERS ->
  parse_uri_headers acc (map header_text hs) = Ok (acc ++ hs).
Proof.
  revert acc. induction hs as [|[k v] hs IH]; intros acc H Hl; simpl in *; [by rewrite app_nil_r|].
  unfold wf_uri_header in H. zbool. simpl in *. change (header_text (k, v)) with (k ++ "="%char :: v).
  rewrite is_empty_mid.
  destruct (Z.leb_spec MAX_URI_HEADERS (Z.of_nat (length acc))); [lia|].
  unfold uri_header. rewrite split_once_app by (eapply plain_no; [exact H|in_lit]).
  simpl. destruct (Z.ltb_spec MAX_URI_HEADER_VALUE_LEN (blen v)); [lia|].
  rewrite IH; [by rewrite <- app_assoc|done|rewrite length_app; simpl; lia].
Qed.

Definition port_text (p : option Z) : str := match p with Some p => #":" ++ dec p | None => [] end.

Definition port_ok (p : option Z) : Prop := forall n, p = Some n -> 0 <= n <= u16_max.

Lemma digit_plain ds c :
  forallb (fun d => negb (is_ascii_digit d)) ds = true -> is_ascii_digit c = true ->
  tokc c = true /\ ~ In c (#"<>" ++ DQ :: ds).
Proof.
  intros Hd Hc. split; [by apply digit_tokc|]. intros Hin. apply in_app_iff in Hin.
  rewrite forallb_forall in Hd. destruct Hin as [[<-|[<-|[]]]|[<-|Hin]]; try done.
  apply Hd in Hin. by rewrite Hc in Hin.
Qed.

Lemma port_text_plain ds p :
  forallb (fun d => negb (is_ascii_digit d)) ds = true -> ~ In ":"%char ds -> port_ok p ->
  plain ds (port_text p) = true.
Proof.
  intros Hd Hc Hp. destruct p as [n|]; [|done]. specialize (Hp n eq_refl).
  change (port_text (Some n)) with (":"%char :: dec n). rewrite plain_cons.
  apply andb_true_intro. split.
  - apply plain_one; [done|]. simpl. intros [?|[?|[?|?]]]; done.
  - apply plain_spec. intros c Hin. apply digit_plain; [done|].
    pose proof (dec_digits n ltac:(lia)) as HF. rewrite Forall_forall in HF.
    apply HF. by apply list_elem_of_In.
Qed.

(** The delimiters that do not occur in a host. *)
Lemma wf_host_plain h : wf_host h = true -> plain #";?@" h = true.
Proof.
  unfold wf_host. destruct (strip_prefix #"[" h) as [r|] eqn:E.
  - apply strip_prefix_Some in E. subst h.
    destruct (split_once "]"%char r) as [[a [|]]|] eqn:Es; try done.
    apply split_once_Some in Es as [-> _]. intros H. rewrite !plain_app.
    repeat (apply andb_true_intro; split); try done.
    eapply plain_sub; [|exact H]. simpl. tauto.
  - intros H. eapply plain_sub; [|exact H]. simpl. tauto.
Qed.

Lemma parse_host_port_show h p :
  wf_host h = true -> port_ok p -> parse_host_port (h ++ port_text p) = Ok (h, p).
Proof.
  unfold wf_host, parse_host_port. intros H Hp.
  destruct (strip_prefix #"[" h) as [r|] eqn:E.
  - apply strip_prefix_Some in E. subst h.
    destruct (split_once "]"%char r) as [[a [|]]|] eqn:Es; try done.
    apply split_once_Some in Es as [-> Hn].
    assert (starts_with #"[" ((#"[" ++ a ++ [ "]"%char]) ++ port_text p) = true) as ->
      by (unfold starts_with; rewrite <- app_assoc; by rewrite strip_prefix_app).
    replace ((#"[" ++ a ++ [ "]"%char]) ++ port_text p) with ((#"[" ++ a) ++ "]"%char :: port_text p)
      by (by rewrite <- !app_assoc).
    rewrite split_once_app by (simpl; naive_solver).
    destruct p as [n|]; [|by rewrite <- app_assoc].
    unfold port_text. rewrite strip_prefix_app, parse_dec by (by apply Hp).
    by rewrite <- app_assoc.
  - assert (starts_with #"[" (h ++ port_text p) = false) as ->.
    { unfold starts_with. destruct h as [|c h]; [by destruct p|].
      cbn [strip_prefix app String.list_ascii_of_string] in *. by case_bool_decide. }
    destruct p as [n|]; simpl port_text.
    + change (h ++ #":" ++ dec n) with (h ++ ":"%char :: dec n).
      specialize (Hp n eq_refl).
      assert (forallb is_ascii_digit (dec n) = true) as Hd.
      { apply forallb_forall. intros c Hc. pose proof (dec_digits n ltac:(lia)) as HF.
        rewrite Forall_forall in HF. apply HF. by apply list_elem_of_In. }
      rewrite rsplit_once_app, Hd, parse_dec; [done|done|].
      intros Hc. rewrite forallb_forall in Hd. by apply Hd in Hc.
    + rewrite app_nil_r, rsplit_once_none; [done|]. eapply plain_no; [exact H|in_lit].
Qed.

Definition user_text (us : option str) : str := match us with Some us => us ++ #"@" | None => [] end.

(** The tail of a URI after the host and port. *)
Lemma show_params_plain ps : forallb wf_param ps = true -> plain #"?@" (show_params ps) = true.
Proof.
  intros H. destruct ps as [|p ps]; [done|]. rewrite show_params_join by done.
  rewrite plain_cons. apply andb_true_intro. split; [done|].
  apply plain_spec. intros c Hc.
  assert (forall l, forallb wf_param l = true -> In c (join #";" (map param_text l)) ->
    c = ";"%char \/ exists q, In q l /\ In c (param_text q)) as K.
  { clear. induction l as [|q [|q' l] IH]; intros H Hin; [done| |].
    - right. exists q. split; [by left|done].
    - change (join #";" (map param_text (q :: q' :: l)))
        with (param_text q ++ ";"%char :: join #";" (map param_text (q' :: l))) in Hin.
      apply in_app_iff in Hin as [Hin|[<-|Hin]]; [right; exists q; split; [by left|done]|by left|].
      simpl in H. apply andb_prop in H as [_ H]. destruct (IH H Hin) as [?|(x & ? & ?)]; [by left|].
      right. exists x. split; [by right|done]. }
  destruct (K _ H Hc) as [->|(q & Hq & Hcq)]; [split; [done|simpl; naive_solver]|].
  eapply plain_In; [|exact Hcq]. rewrite forallb_forall in H.
  apply wf_param_text; [simpl; tauto|by apply H].
Qed.

Lemma split_params_show us hp ps :
  plain #";?@" hp = true -> forallb wf_param ps = true ->
  match us with Some u => plain #"?@" u = true | None => True end ->
  exists ps', split_params ((user_text us ++ hp) ++ show_params ps) = (user_text us ++ hp, ps') /\
    parse_uri_params ps' = ps.
Proof.
  intros Hh Hps Hus. unfold split_params.
  assert (forall x, split_once ";"%char (hp ++ show_params ps) = x ->
    (ps = [] /\ x = None) \/ (ps <> [] /\ x = Some (hp, join #";" (map param_text ps)))) as K.
  { intros x <-. destruct ps as [|p ps].
    - left. split; [done|]. simpl. rewrite app_nil_r. apply split_once_none.
      eapply plain_no; [exact Hh|in_lit].
    - right. split; [done|]. rewrite show_params_join by done. apply split_once_app.
      eapply plain_no; [exact Hh|in_lit]. }
  destruct us as [u|]; cbn [user_text].
  - assert (((u ++ #"@") ++ hp) ++ show_params ps = u ++ "@"%char :: (hp ++ show_params ps)) as ->
      by (by rewrite <- !app_assoc).
    rewrite split_once_app by (eapply plain_no; [exact Hus|in_lit]).
    destruct (K _ eq_refl) as [[-> ->]|[Hn ->]].
    + exists None. split; [|done]. simpl. by rewrite app_nil_r, <- app_assoc.
    + eexists. split; [by rewrite <- app_assoc|]. by apply parse_params_show.
  - simpl app. rewrite split_once_none.
    2:{ rewrite in_app_iff. intros [Hin|Hin].
        - eapply plain_no; [exact Hh| |exact Hin]. in_lit.
        - eapply plain_no; [by apply show_params_plain| |exact Hin]. in_lit. }
    destruct (K _ eq_refl) as [[-> ->]|[Hn ->]].
    + exists None. split; [|done]. simpl. by rewrite app_nil_r.
    + eexists. split; [done|]. by apply parse_params_show.
Qed.

(** The parts of a well-formed URI, whatever its scheme. *)
Lemma wf_uri_parts u :
  wf_uri u = true ->
  match user u with Some us => plain #"?@" us = true | None => True end /\
  plain #";?@" (host u ++ port_text (port u)) = true /\
  parse_user_host_port (scheme u) (user_text (user u) ++ host u ++ port_text (port u)) =
    Ok (user u, host u, port u) /\
  forallb wf_param (params u) = true /\ forallb wf_uri_header (headers u) = true /\
  Z.of_nat (length (headers u)) <= MAX_URI_HEADERS.
Proof.
  destruct u as [sch us h p ps hs]. unfold wf_uri. simpl. intros H. zbool.
  split_and!; try done.
  - destruct us as [us|]; [|done]. destruct sch; zbool; done.
  - destruct sch; zbool; [| |].
    1,2: rewrite plain_app, wf_host_plain by done; simpl; apply port_text_plain;
         [done|simpl; naive_solver|]; intros n ->; zbool; lia.
    destruct p; [done|]. by rewrite app_nil_r.
  - unfold parse_user_host_port.
    assert (sch = Tel \/
      wf_host h = true /\ port_ok p /\ match us with Some us => plain #"?@" us = true | None => True end
      /\ sch <> Tel) as [->|(Hh & Hp & Hu & Hs)].
    { destruct sch; [right|right|by left]; zbool; (split_and!; [done| |by destruct us|done]);
        intros n ->; zbool; lia. }
    { zbool. destruct us, p; try done. simpl. by rewrite app_nil_r. }
    destruct sch; [| |done].
    all: destruct us as [us|]; cbn [user_text];
      [assert ((us ++ #"@") ++ h ++ port_text p = us ++ "@"%char :: (h ++ port_text p)) as ->
         by (by rewrite <- app_assoc);
       rewrite split_once_app by (eapply plain_no; [exact Hu|in_lit])
      |cbn [app]; rewrite split_once_none;
       [|eapply (plain_no #";?@"); [|in_lit]; rewrite plain_app, wf_host_plain by done;
         apply port_text_plain; [done|simpl; naive_solver|done]]];
      by rewrite parse_host_port_show.
Qed.

Definition headers_text (hs : list (str * str)) : str :=
  match hs with [] => [] | _ => "?"%char :: join #"&" (map header_text hs) end.

Definition uri_body (u : SipUri) : str :=
  (user_text (user u) ++ host u ++ port_text (port u)) ++ show_params (params u).

Lemma uri_to_string_parts u :
  uri_to_string u = scheme_as_str (scheme u) ++ ":"%char :: uri_body u ++ headers_text (headers u).
Proof.
  unfold uri_to_string, uri_body, user_text, port_text, headers_text.
  rewrite <- !app_assoc. by destruct (headers u).
Qed.

Lemma uri_body_plain u : wf_uri u = true -> plain #"?" (uri_body u) = true.
Proof.
  intros H. destruct (wf_uri_parts u H) as (Hu & Hh & _ & Hp & _). unfold uri_body.
  rewrite !plain_app, !andb_true_iff. rewrite plain_app in Hh. apply andb_prop in Hh as [Hh1 Hh2].
  split_and!.
  - destruct (user u) as [us|]; [|done]. cbn [user_text].
    rewrite plain_app, andb_true_iff. split; [|done].
    eapply plain_sub; [|exact Hu]. simpl. tauto.
  - eapply plain_sub; [|exact Hh1]. simpl. tauto.
  - eapply plain_sub; [|exact Hh2]. simpl. tauto.
  - eapply plain_sub; [|by apply show_params_plain]. simpl. tauto.
Qed.

Lemma headers_text_plain hs : forallb wf_uri_header hs = true -> plain [] (headers_text hs) = true.
Proof.
  intros H. destruct hs as [|kv hs]; [done|]. unfold headers_text. rewrite plain_cons.
  apply andb_true_intro. split; [done|]. revert kv H.
  induction hs as [|kv' hs IH]; intros kv H; cbn [forallb] in H; apply andb_prop in H as [H0 H];
    (assert (plain [] (header_text kv) = true) as Hk;
     [unfold wf_uri_header, header_text in *; zbool; rewrite !plain_app, !andb_true_iff;
      split_and!; [|done|]; (eapply plain_sub; [|by eassumption]; done)|]).
  - done.
  - change (join #"&" (map header_text (kv :: kv' :: hs)))
      with (header_text kv ++ "&"%char :: join #"&" (map header_text (kv' :: hs))).
    rewrite plain_app, plain_cons, !andb_true_iff. split_and!; [done|done|]. by apply IH.
Qed.

Lemma uri_text_plain u : wf_uri u = true -> plain [] (uri_to_string u) = true.
Proof.
  intros H. rewrite uri_to_string_parts, plain_app, plain_cons, plain_app, !andb_true_iff.
  split_and!.
  - by destruct (scheme u).
  - done.
  - eapply plain_sub; [|by apply uri_body_plain]. done.
  - apply headers_text_plain. by destruct (wf_uri_parts u H) as (_ & _ & _ & _ & ? & _).
Qed.

Lemma uri_parse_print u : wf_uri u = true -> uri_parse (uri_to_string u) = Ok u.
Proof.
  intros H. destruct (wf_uri_parts u H) as (Hu & Hh & Huhp & Hps & Hhs & Hl).
  unfold uri_parse. rewrite trim_all_tok by (eapply plain_tok; by apply uri_text_plain).
  rewrite uri_to_string_parts, split_once_app by (destruct (scheme u); simpl; naive_solver).
  assert (parse_scheme (to_ascii_lowercase (scheme_as_str (scheme u))) = Ok (scheme u)) as ->
    by by destruct (scheme u).
  cbn [rbind]. pose proof (plain_no #"?" _ "?"%char (uri_body_plain u H) ltac:(in_lit)) as Hq.
  destruct (split_params_show (user u) (host u ++ port_text (port u)) (params u) Hh Hps Hu)
    as (ps' & Eps & Epp).
  change ((user_text (user u) ++ host u ++ port_text (port u)) ++ show_params (params u))
    with (uri_body u) in Eps.
  assert (match split_once "?"%char (uri_body u ++ headers_text (headers u)) with
    | Some (uri_part, header_part) =>
        let? hs := parse_uri_headers [] (split "&"%char header_part) in Ok (uri_part, hs)
    | None => Ok (uri_body u ++ headers_text (headers u), [])
    end = Ok (uri_body u, headers u)) as ->.
  { destruct (headers u) as [|kv hs] eqn:Ehs; unfold headers_text.
    - by rewrite app_nil_r, split_once_none.
    - rewrite split_once_app, split_join; [|done| |done].
      + rewrite parse_headers_show; done.
      + apply Forall_map, Forall_forall. intros x Hx. apply list_elem_of_In in Hx.
        rewrite forallb_forall in Hhs. apply Hhs in Hx. unfold wf_uri_header in Hx. zbool.
        unfold header_text. rewrite !in_app_iff. intros [Hin|[[Hin|[]]|Hin]]; [|done|].
        * eapply plain_no; [exact H0| |exact Hin]. in_lit.
        * eapply plain_no; [exact H2| |exact Hin]. in_lit. }
  cbn [rbind]. rewrite Eps, Huhp. cbn [rbind]. rewrite Epp. by destruct u.
Qed.

(** ** Name-addresses *)

Definition wf_na (na : NameAddr.t) : bool :=
  wf_uri (NameAddr.uri na) && forallb wf_param (NameAddr.parameters na) &&
  match NameAddr.display_name na with Some n => utf8_valid n | None => true end.

Lemma token_char_plain s :
  forallb NameAddr.is_token_char s = true -> plain [] s = true.
Proof.
  induction s as [|c s IH]; intros H; [done|]. cbn [forallb] in H.
  apply andb_prop in H as [Hc H]. rewrite plain_cons, IH by done.
  rewrite andb_true_r. clear -Hc. revert Hc. by destruct c as [[] [] [] [] [] [] [] []].
Qed.

Lemma needs_quoting_false s :
  NameAddr.needs_quoting s = false -> s <> [] /\ plain [] s = true.
Proof.
  unfold NameAddr.needs_quoting. intros H. apply orb_false_iff in H as [H1 H2].
  split; [by intros ->|]. apply token_char_plain, forallb_forall. intros c Hc.
  destruct (NameAddr.is_token_char c) eqn:E; [done|]. exfalso.
  apply not_true_iff_false in H2. apply H2, existsb_exists. exists c. by rewrite E.
Qed.

(** Escaping and unescaping a display name. *)
Lemma quoted_loop_escape out s rest :
  utf8_valid (out ++ s) = true ->
  NameAddr.quoted_loop out (NameAddr.escape_quoted s ++ DQ :: rest) = Ok (out ++ s, rest).
Proof.
  revert out. induction s as [|c s IH]; intros out H.
  - rewrite app_nil_r in *. cbn [NameAddr.escape_quoted flat_map app NameAddr.quoted_loop].
    by rewrite bool_decide_true, H.
  - replace (out ++ c :: s) with ((out ++ [c]) ++ s) in * by (by rewrite <- app_assoc).
    cbn [NameAddr.escape_quoted flat_map]. fold (NameAddr.escape_quoted s).
    case_bool_decide as Hc; cbn [app NameAddr.quoted_loop].
    + rewrite bool_decide_false by done. rewrite bool_decide_true by done. by apply IH.
    + rewrite !bool_decide_false by naive_solver. by apply IH.
Qed.

Lemma find_angle_bracket_app acc a r :
  ~ In DQ a -> ~ In "<"%char a ->
  NameAddr.find_angle_bracket false acc (a ++ "<"%char :: r) = Some (acc ++ a, "<"%char :: r).
Proof.
  revert acc. induction a as [|c a IH]; intros acc H1 H2; cbn [app NameAddr.find_angle_bracket].
  - by rewrite bool_decide_true, app_nil_r.
  - simpl in H1, H2. rewrite (bool_decide_false (c = "<"%char)) by naive_solver.
    rewrite (bool_decide_false (c = DQ)) by naive_solver.
    rewrite IH by naive_solver. by rewrite <- app_assoc.
Qed.

Lemma split_top_split acc s :
  ~ In DQ s -> split_top false acc s =
  match split ";"%char s with h :: t => (acc ++ h) :: t | [] => [acc] end.
Proof.
  revert acc. induction s as [|c s IH]; intros acc H; cbn [split_top split].
  - by rewrite app_nil_r.
  - simpl in H. case_bool_decide as Hc.
    + rewrite app_nil_r. f_equal. rewrite IH by naive_solver.
      pose proof (split_nonempty ";"%char s). by destruct (split _ s).
    + rewrite (bool_decide_false (c = DQ)) by naive_solver. rewrite IH by naive_solver.
      destruct (split _ s); [done|]. by rewrite <- app_assoc.
Qed.

Lemma chunk_param_text p : wf_param p = true -> chunk_param (param_text p) = [p].
Proof.
  intros H. pose proof (wf_param_text [] p ltac:(done) H) as Hp.
  unfold chunk_param. rewrite trim_all_tok by (by eapply plain_tok).
  destruct p as [k v]. unfold wf_param in H. cbn [fst snd] in H. zbool.
  destruct v as [v|]; cbn [param_text].
  - change (k ++ #"=" ++ v) with (k ++ "="%char :: v).
    rewrite is_empty_mid, split_once_app by (eapply plain_no; [exact H|in_lit]).
    by rewrite (trim_all_tok k), (trim_all_tok v) by (eapply plain_tok; eassumption).
  - rewrite H1. rewrite split_once_none; [done|]. eapply plain_no; [exact H|in_lit].
Qed.

Lemma parse_params_print ps :
  forallb wf_param ps = true -> parse_params (show_params ps) = Ok ps.
Proof.
  intros H. destruct ps as [|p ps]; [done|]. rewrite show_params_join by done.
  unfold parse_params. rewrite trim_start_tok by done. rewrite bool_decide_true by done.
  f_equal. pose proof (show_params_plain _ H) as Hp. rewrite show_params_join in Hp by done.
  rewrite split_top_split.
  2:{ intros Hin. eapply (plain_no #"?@"); [exact Hp| |by right]. in_lit. }
  rewrite split_join; [|done|].
  - cbn [app map]. change (param_text p :: map param_text ps) with (map param_text (p :: ps)).
    revert H. clear. generalize (p :: ps). intros l.
    induction l as [|q l IH]; intros H; [done|]. cbn [forallb] in H.
    apply andb_prop in H as [Hq H]. cbn [map flat_map]. by rewrite chunk_param_text, IH.
  - apply Forall_map, Forall_forall. intros q Hq. apply list_elem_of_In in Hq.
    rewrite forallb_forall in H. eapply (plain_no #";"); [|in_lit].
    apply wf_param_text; [simpl; tauto|by apply H].
Qed.

(** The address part of a printed name-address: everything after the display name. *)
Definition addr_text (na : NameAddr.t) : str :=
  "<"%char :: uri_to_string (NameAddr.uri na) ++ ">"%char :: show_params (NameAddr.parameters na).

Lemma trim_block d b :
  (forall c r, d ++ b = c :: r -> tokc c = true) -> b <> [] ->
  Forall (fun c => tokc c = true) b -> trim (d ++ b) = d ++ b.
Proof.
  intros H Hn Hb. apply trim_tok; [exact H|]. intros r c E.
  destruct b as [|x b] using rev_ind; [done|]. rewrite app_assoc in E.
  apply app_inj_tail in E as [_ ->]. apply Forall_app in Hb as [_ Hb]. by inversion Hb.
Qed.

Lemma addr_text_tok na : wf_na na = true -> Forall (fun c => tokc c = true) (addr_text na).
Proof.
  unfold wf_na, addr_text. intros H. zbool. constructor; [done|]. apply Forall_app. split.
  - eapply plain_tok. by apply uri_text_plain.
  - constructor; [done|]. eapply plain_tok. by apply show_params_plain.
Qed.

Lemma starts_with_head c s : starts_with [c] (c :: s) = true.
Proof. unfold starts_with. simpl. by rewrite bool_decide_true. Qed.

Lemma starts_with_other c d s : d <> c -> starts_with [c] (d :: s) = false.
Proof. intros H. unfold starts_with. simpl. by rewrite bool_decide_false by congruence. Qed.

Lemma trim_end_space s : trim_end (s ++ #" ") = trim_end s.
Proof. unfold trim_end. rewrite reverse_app. reflexivity. Qed.

Lemma trim_tok_space s : s <> [] -> Forall (fun c => tokc c = true) s -> trim (s ++ #" ") = s.
Proof.
  intros Hn H. unfold trim. destruct s as [|c s]; [done|].
  inversion H; subst. cbn [app]. rewrite trim_start_tok by done.
  change (c :: s ++ #" ") with ((c :: s) ++ #" "). rewrite trim_end_space.
  pose proof (trim_all_tok (c :: s) H) as E. unfold trim in E.
  by rewrite trim_start_tok in E.
Qed.

Lemma parse_uri_text_print na :
  wf_na na = true ->
  NameAddr.parse_uri_text (addr_text na) =
  Ok (uri_to_string (NameAddr.uri na), show_params (NameAddr.parameters na)).
Proof.
  unfold wf_na. intros H. zbool. unfold NameAddr.parse_uri_text, addr_text.
  change ("<"%char :: ?x) with (#"<" ++ x). rewrite strip_prefix_app.
  rewrite split_once_app; [done|]. eapply plain_no; [by apply uri_text_plain|in_lit].
Qed.

(** The display name of a printed name-address is read back. *)
Lemma parse_display_print na :
  wf_na na = true ->
  exists d, NameAddr.to_string na = d ++ addr_text na /\
    (forall c r, d ++ addr_text na = c :: r -> tokc c = true) /\
    NameAddr.parse_display (d ++ addr_text na) = Ok (NameAddr.display_name na, addr_text na).
Proof.
  intros H. unfold NameAddr.to_string, NameAddr.parse_display.
  destruct (NameAddr.display_name na) as [n|] eqn:En.
  - assert (utf8_valid n = true) as Hv by (unfold wf_na in H; rewrite En in H; by zbool).
    destruct (NameAddr.needs_quoting n) eqn:Eq.
    + exists ([DQ] ++ NameAddr.escape_quoted n ++ [DQ] ++ #" ").
      split; [done|]. split; [by intros c r [= <- _]|].
      assert (([DQ] ++ NameAddr.escape_quoted n ++ [DQ] ++ #" ") ++ addr_text na =
              DQ :: NameAddr.escape_quoted n ++ DQ :: " "%char :: addr_text na) as ->
        by (rewrite <- !app_assoc; done).
      rewrite starts_with_head. unfold NameAddr.parse_quoted_string.
      rewrite quoted_loop_escape by done. cbn [rbind app].
      assert (trim_start (" "%char :: addr_text na) = addr_text na) as ->
        by (change (trim_start (addr_text na) = addr_text na); by apply trim_start_tok).
      unfold addr_text at 1. change #"<" with ["<"%char]. by rewrite starts_with_head.
    + apply needs_quoting_false in Eq as [Hn Hp]. exists (n ++ #" ").
      split; [done|]. pose proof (plain_tok _ _ Hp) as Ht.
      destruct n as [|x n]; [done|]. inversion Ht; subst.
      split; [by intros c r [= <- _]|].
      assert (x <> DQ) as Hx by (intros ->; by apply (plain_no _ _ DQ Hp); [in_lit|left]).
      assert (starts_with [DQ] (((x :: n) ++ #" ") ++ addr_text na) = false) as ->
        by (by apply starts_with_other).
      unfold addr_text. rewrite find_angle_bracket_app.
      * change ([] ++ (x :: n) ++ #" ") with ((x :: n) ++ #" ").
        rewrite trim_tok_space by done. done.
      * rewrite in_app_iff. intros [Hin|[?|[]]]; [|done].
        apply (plain_no _ _ DQ Hp); [in_lit|done].
      * rewrite in_app_iff. intros [Hin|[?|[]]]; [|done].
        apply (plain_no _ _ "<"%char Hp); [in_lit|done].
  - exists []. split; [done|]. split; [by intros c r [= <- _]|].
    change ([] ++ addr_text na) with (addr_text na).
    unfold addr_text. rewrite starts_with_other by done.
    cbn [NameAddr.find_angle_bracket]. by rewrite bool_decide_true.
Qed.

Lemma name_addr_parse_print na : wf_na na = true -> NameAddr.parse (NameAddr.to_string na) = Ok na.
Proof.
  intros H. destruct (parse_display_print na H) as (d & -> & Hf & Hd).
  unfold NameAddr.parse. rewrite trim_block; [|done|done|by apply addr_text_tok].
  assert (is_empty (d ++ addr_text na) = false) as -> by (by destruct d).
  rewrite Hd. cbn [rbind]. rewrite parse_uri_text_print by done. cbn [rbind].
  unfold wf_na in H. zbool.
  rewrite trim_all_tok by (eapply plain_tok; by apply uri_text_plain).
  rewrite uri_parse_print by done. cbn [rbind map_err].
  rewrite parse_params_print by done. by destruct na.
Qed.

(** ** The tags of a built request *)

Lemma tag_param t : plain #";?@" t = true -> wf_param (#"tag", Some t) = true.
Proof. intros H. unfold wf_param. cbn [fst snd]. by rewrite H. Qed.

Lemma from_value_na u t :
  from_value None u t = NameAddr.to_string (NameAddr.mk None u [(#"tag", Some t)]).
Proof.
  unfold from_value, NameAddr.to_string, show_params. simpl. by rewrite app_nil_r.
Qed.

Lemma to_value_na u t :
  to_value u (Some t) = NameAddr.to_string (NameAddr.mk None u [(#"tag", Some t)]).
Proof. unfold to_value, NameAddr.to_string, show_params. simpl. by rewrite app_nil_r. Qed.

Lemma tag_value_parse u t :
  wf_uri u = true -> plain #";?@" t = true ->
  NameAddr.parse (NameAddr.to_string (NameAddr.mk None u [(#"tag", Some t)])) =
  Ok (NameAddr.mk None u [(#"tag", Some t)]).
Proof.
  intros Hu Ht. apply name_addr_parse_print. unfold wf_na. simpl forallb.
  cbn [NameAddr.uri NameAddr.parameters NameAddr.display_name forallb].
  by rewrite Hu, tag_param.
Qed.

(** A built request without a display name is read back with its tags and URIs. *)
Lemma req_build_tags b r fu ft tu tt :
  req_build b = Ok r -> q_from_display b = None ->
  q_from_uri b = Some fu -> q_from_tag b = Some ft -> q_to_uri b = Some tu ->
  q_to_tag b = Some tt ->
  wf_uri fu = true -> wf_uri tu = true -> plain #";?@" ft = true -> plain #";?@" tt = true ->
  rok (req_from_tag r) = Some ft /\ req_to_tag r = Some tt /\
  rok (req_from_uri r) = Some fu /\ rok (req_to_uri r) = Some tu.
Proof.
  intros Hb Hd Ef Eft Et Ett Wf Wt Pf Pt.
  destruct (req_build_ok _ _ Hb) as (m & u & fu' & ft' & tu' & cid & n & vh & vb &
    Em & _ & Ef' & Eft' & Et' & Ec & En & Evh & Evb & -> & _).
  rewrite Ef in Ef'. rewrite Eft in Eft'. rewrite Et in Et'.
  injection Ef' as <-. injection Eft' as <-. injection Et' as <-.
  remember (request_headers b m fu tu ft cid vh vb n (default [] (q_body b))) as hs eqn:Ehs.
  assert (Headers.get_first_value hs #"From" = Some (from_value None fu ft)) as Gf
    by (subst hs; rewrite <- Hd; reflexivity).
  assert (Headers.get_first_value hs #"To" = Some (to_value tu (Some tt))) as Gt
    by (subst hs; rewrite <- Ett; reflexivity).
  rewrite from_value_na in Gf. rewrite to_value_na in Gt.
  unfold req_from_tag, req_to_tag, req_from_uri, req_to_uri, hs_from_tag, hs_to_tag,
    hs_from, get_value. cbn [r_headers].
  rewrite Gf, Gt. cbn [ok_or rbind as_parse_err map_err mbind option_bind].
  unfold PFrom.parse, PTo.parse. by rewrite !tag_value_parse.
Qed.

(** ** Theorems *)

(** C17: printing a URI that the grammar allows ([wf_uri]) and parsing the text gives the URI back, for every scheme, with
    or without user, with host names and bracketed IPv6 hosts, ports, parameters and
    headers up to the parser's limits; and two such URIs print alike only when they are
    equal. *)
Theorem uri_roundtrip u :
  wf_uri u = true ->
  uri_parse (uri_to_string u) = Ok u /\
  (forall v, wf_uri v = true -> uri_to_string v = uri_to_string u -> v = u).
Proof.
  intros H. split; [by apply uri_parse_print|]. intros v Hv E.
  apply uri_parse_print in H, Hv. rewrite E in Hv. congruence.
Qed.

(** The From and To headers round trip: a printed address parses back to the same
    display name (any name: one that needs it is quoted and escaped), URI and
    parameters, hence with the same tag. *)
Theorem address_roundtrip na :
  wf_na na = true ->
  let f := PFrom.mk (NameAddr.display_name na) (NameAddr.uri na) (NameAddr.parameters na) in
  let t := PTo.mk (NameAddr.display_name na) (NameAddr.uri na) (NameAddr.parameters na) in
  NameAddr.parse (NameAddr.to_string na) = Ok na /\
  PFrom.parse (PFrom.to_string f) = Ok f /\ PTo.parse (PTo.to_string t) = Ok t.
Proof.
  intros H. pose proof (name_addr_parse_print na H) as E. destruct na as [n u ps].
  unfold PFrom.parse, PTo.parse, PFrom.to_string, PTo.to_string. simpl in *. by rewrite E.
Qed.

(** ** Witnesses *)

Definition sample_uri : SipUri :=
  mkUri Sips (Some #"bob;day=tue") #"[2001:db8::1]" (Some 5061)
    [(#"transport", Some #"tls"); (#"lr", None)] [(#"subject", #"call"); (#"x", [])].

Lemma uri_roundtrip_witness :
  uri_parse #"sips:bob;day=tue@[2001:db8::1]:5061;transport=tls;lr?subject=call&x=" = Ok sample_uri.
Proof. apply (uri_roundtrip sample_uri). vm_compute. reflexivity. Defined.

Definition sample_na : NameAddr.t :=
  NameAddr.mk (Some (#"Bob " ++ [DQ] ++ #"the" ++ [BS; DQ] ++ #" Builder")) sample_uri
    [(#"tag", Some #"a6c85cf"); (#"lr", None)].

Lemma address_roundtrip_witness : NameAddr.parse (NameAddr.to_string sample_na) = Ok sample_na.
Proof. apply (address_roundtrip sample_na). vm_compute. reflexivity. Defined.
