(* ===== verification/TxTimer.v ===== *)
(** * Transaction timers ([transaction/timer.rs])

    A [std::time::Duration] is its length in nanoseconds.  Multiplication of a
    [Duration] panics beyond [DURATION_MAX]; [timer_no_overflow] shows that no
    timer computation reaches it. *)

From S2P Require Import Prelude RStr.

Local Open Scope Z_scope.

Abbreviation Duration := Z.

Definition NS_PER_SEC : Z := 1000000000.
Definition NS_PER_MS : Z := 1000000.
Definition DURATION_MAX : Duration := u64_max * NS_PER_SEC + 999999999.

Definition from_secs (s : Z) : Duration := s * NS_PER_SEC.
Definition from_millis (ms : Z) : Duration := ms * NS_PER_MS.
Definition dur_zero : Duration := 0.
Definition is_zero (d : Duration) : bool := d =? 0.
Definition saturating_sub (a b : Duration) : Duration := Z.max 0 (a - b).
Definition saturating_add (a b : Duration) : Duration := Z.min DURATION_MAX (a + b).

Record TimerValues : Type := mkTimers { t1 : Duration; t2 : Duration; t4 : Duration }.

(** [Default for TimerValues] *)
Definition timer_default : TimerValues :=
  mkTimers (from_millis 500) (from_secs 4) (from_secs 5).

Definition with_t1 (t1_ms : Z) : TimerValues :=
  mkTimers (from_millis t1_ms) (t2 timer_default) (t4 timer_default).

Definition timer_a (tv : TimerValues) : Duration := t1 tv.
Definition timer_b (tv : TimerValues) : Duration := t1 tv * 64.
Definition timer_c (tv : TimerValues) : Duration := from_secs 180 + from_secs 1.
Definition timer_d (tv : TimerValues) : Duration := from_secs 32 + from_secs 1.
Definition timer_e (tv : TimerValues) : Duration := t1 tv.
Definition timer_f (tv : TimerValues) : Duration := t1 tv * 64.
Definition timer_g (tv : TimerValues) : Duration := t1 tv.
Definition timer_h (tv : TimerValues) : Duration := t1 tv * 64.
Definition timer_i (tv : TimerValues) : Duration := t4 tv.
Definition timer_j (tv : TimerValues) (reliable : bool) : Duration :=
  if reliable then dur_zero else t1 tv * 64.
Definition timer_k (tv : TimerValues) (reliable : bool) : Duration :=
  if reliable then dur_zero else t4 tv.

Definition next_retransmit (tv : TimerValues) (current : Duration) : Duration :=
  let doubled := current * 2 in Z.min doubled (t2 tv).

Module Timer.

Inductive t : Type := A | B | C | D | E | F | G | H | I | J | K | N.

#[global] Instance eq_dec : EqDecision t.
Proof. solve_decision. Defined.

Definition to_nat (x : t) : nat :=
  match x with
  | A => 0 | B => 1 | C => 2 | D => 3 | E => 4 | F => 5
  | G => 6 | H => 7 | I => 8 | J => 9 | K => 10 | N => 11
  end%nat.

Definition of_nat (n : nat) : option t := [A; B; C; D; E; F; G; H; I; J; K; N] !! n.

#[global] Instance countable : Countable t.
Proof. refine (inj_countable to_nat of_nat _). by intros []. Defined.

End Timer.

Record ActiveTimer : Type := mkActive { timer : Timer.t; deadline_us : Z }.

Definition is_expired (a : ActiveTimer) (now_us : Z) : bool := deadline_us a <=? now_us.

(** ** Lemmas *)

(** The interval after [n] retransmissions, from an initial interval [d]. *)
Fixpoint interval (tv : TimerValues) (n : nat) (d : Duration) : Duration :=
  match n with
  | O => d
  | S k => next_retransmit tv (interval tv k d)
  end.

(** Exponential back-off in closed form. *)
Lemma interval_closed tv n :
  0 < t1 tv -> t1 tv <= t2 tv ->
  interval tv n (t1 tv) = Z.min (2 ^ Z.of_nat n * t1 tv) (t2 tv).
Proof.
  intros H1 H2. induction n as [|n IH].
  - simpl. lia.
  - cbn [interval]. rewrite IH. unfold next_retransmit.
    rewrite Nat2Z.inj_succ, Z.pow_succ_r by lia.
    pose proof (Z.pow_pos_nonneg 2 (Z.of_nat n) ltac:(lia) ltac:(lia)). nia.
Qed.

Lemma next_retransmit_bounds tv d :
  0 < d -> 0 < t2 tv -> 0 < next_retransmit tv d <= t2 tv.
Proof. unfold next_retransmit. lia. Qed.

Lemma timer_no_overflow t1_ms :
  is_u64 t1_ms -> t1 (with_t1 t1_ms) * 64 <= DURATION_MAX.
Proof.
  unfold in_width, with_t1, from_millis, DURATION_MAX, u64_max, NS_PER_SEC, NS_PER_MS.
  simpl. lia.
Qed.

Lemma default_timers_positive :
  0 < t1 timer_default /\ t1 timer_default <= t2 timer_default /\ 0 < t4 timer_default.
Proof. vm_compute. repeat split; done. Qed.

#[export] Hint Resolve default_timers_positive : rsip.
