(* ===== verification/TxMachine.v ===== *)
(** * The interface of a transaction state machine

    What the transaction layer promises of each of its four machines: a
    transaction reacts to inputs, queues actions, and is or is not terminated.
    The class [TxMachine] states the interface; the system below closes a
    machine with its environment, which fires only timers that are armed, and
    the theorems of this file hold for every machine. *)

From S2P Require Import Prelude TxTimer.

(** The effect of an action on the timers of its transaction. *)
Inductive timer_op : Type :=
| Arm (t : Timer.t)
| Disarm (t : Timer.t)
| NoTimer.

Class TimerAction (Act : Type) := classify : Act -> timer_op.

Definition apply_op `{TimerAction Act} (armed : gset Timer.t) (a : Act) : gset Timer.t :=
  match classify a with
  | Arm t => {[t]} ∪ armed
  | Disarm t => armed ∖ {[t]}
  | NoTimer => armed
  end.

Definition apply_ops `{TimerAction Act} (armed : gset Timer.t) (acts : list Act)
  : gset Timer.t := foldl apply_op armed acts.

Class TxMachine (T In Act : Type) `{TimerAction Act} := {
  (** one handler call *)
  handle : T -> In -> T;
  (** [poll_actions]: the queued actions, and the machine with an empty queue *)
  drain : T -> list Act * T;
  (** the timer an input reports, if it is a timeout *)
  fired : In -> option Timer.t;
  terminated : T -> bool
}.

Section System.
Context {T In Act : Type} `{M : TxMachine T In Act}.

(** A machine together with the timers its environment has armed for it. *)
Definition config : Type := (T * gset Timer.t)%type.

Definition deliver (c : config) (i : In) : list Act * config :=
  let armed := match fired i with
               | Some t => c.2 ∖ {[t]}
               | None => c.2
               end in
  let '(acts, tx) := drain (handle c.1 i) in
  (acts, (tx, apply_ops armed acts)).

(** A timeout is delivered only for an armed timer. *)
Inductive sys_step : config -> In -> list Act -> config -> Prop :=
| Sys_step c i acts c' :
    (forall t, fired i = Some t -> t ∈ c.2) ->
    deliver c i = (acts, c') ->
    sys_step c i acts c'.

(** Creation: the actions queued by the constructor are performed first. *)
Definition start (tx : T) : list Act * config :=
  let '(acts, tx') := drain tx in (acts, (tx', apply_ops ∅ acts)).

(** The configurations reachable from a transaction, with the trace of all
    actions performed so far. *)
Inductive reach (tx : T) : list Act -> config -> Prop :=
| Reach_start acts c : start tx = (acts, c) -> reach tx acts c
| Reach_step tr c i acts c' :
    reach tx tr c -> sys_step c i acts c' -> reach tx (tr ++ acts) c'.

(** Rule induction for an invariant of configurations. *)
Lemma reach_inv (tx : T) (P : config -> Prop) :
  (forall acts c, start tx = (acts, c) -> P c) ->
  (forall c i acts c', P c -> sys_step c i acts c' -> P c') ->
  forall tr c, reach tx tr c -> P c.
Proof. intros H0 H1 tr c Hr. induction Hr; eauto. Qed.

(** A predicate on single actions that every handler respects holds of the
    whole trace. *)
Lemma reach_trace (tx : T) (P : config -> Prop) (Q : Act -> Prop) :
  (forall acts c, start tx = (acts, c) -> P c /\ Forall Q acts) ->
  (forall c i acts c', P c -> sys_step c i acts c' -> P c' /\ Forall Q acts) ->
  forall tr c, reach tx tr c -> P c /\ Forall Q tr.
Proof.
  intros H0 H1 tr c Hr. induction Hr as [acts c Hs|tr c i acts c' Hr [HP HQ] Hs]; [eauto|].
  destruct (H1 _ _ _ _ HP Hs). split; [done|]. by apply Forall_app.
Qed.

(** Runs from any configuration. *)
Inductive steps : config -> list Act -> config -> Prop :=
| Steps_nil c : steps c [] c
| Steps_cons c i acts c' tr c'' :
    sys_step c i acts c' -> steps c' tr c'' -> steps c (acts ++ tr) c''.

(** A predicate of configurations and one of actions that every step respects
    hold along a run. *)
Lemma steps_inv (P : config -> Prop) (Q : Act -> Prop) c tr c' :
  (forall c i acts c', P c -> sys_step c i acts c' -> P c' /\ Forall Q acts) ->
  P c -> steps c tr c' -> P c' /\ Forall Q tr.
Proof.
  intros Hq HP Hs. induction Hs as [c|c i acts c' tr c'' Hst _ IH]; [done|].
  destruct (Hq _ _ _ _ HP Hst) as [HP' HQ]. destruct (IH HP'). split; [done|].
  by apply Forall_app.
Qed.

(** The transactions that arise from [tx] by handler calls alone, each followed
    by a poll, with no assumption on when timers fire. *)
Inductive evolved (tx : T) : T -> Prop :=
| Evolved_start : evolved tx (drain tx).2
| Evolved_step tx' i : evolved tx tx' -> evolved tx (drain (handle tx' i)).2.

(** Canonical runs, for building executions. *)
Lemma reach_first (tx : T) : reach tx (start tx).1 (start tx).2.
Proof. apply Reach_start, surjective_pairing. Qed.

Lemma reach_next (tx : T) tr c i :
  reach tx tr c -> (forall t, fired i = Some t -> t ∈ c.2) ->
  reach tx (tr ++ (deliver c i).1) (deliver c i).2.
Proof.
  intros Hr Hf. eapply Reach_step; [exact Hr|].
  constructor; [exact Hf|apply surjective_pairing].
Qed.

End System.

Arguments config T : clear implicits.
