(* ===== verification/InviteClient.v ===== *)
(** * INVITE client transaction ([transaction/client/invite.rs])

    Transaction identifiers, the ACK for a failure response and the state machine of
    RFC 3261 17.1.1.  The theorems relate it to the transitions of the standard, say
    when it ends and what it reports, and that requests and responses made by the
    builders carry matching identifiers. *)

From S2P Require Import Prelude RStr SipBase SipHeader SipUri SipTyped SipHeaders.
From S2P Require Import SipMessage SipBuild Sample TxTimer TxMachine.

Local Open Scope Z_scope.

(** ** Transaction identifiers *)
Record TransactionId : Type := mkId { branch : str; id_method : Method }.

#[export] Instance TransactionId_eq_dec : EqDecision TransactionId.
Proof. solve_decision. Defined.

Definition from_request (req : Request) : option TransactionId :=
  let* branch := rok (req_via_branch req) in
  Some (mkId branch (req_method req)).

Definition from_response (resp : Response) : option TransactionId :=
  let* branch := rok (resp_via_branch resp) in
  let* method := rok (resp_cseq_method resp) in
  Some (mkId branch method).

(** ** The machine *)
Inductive State : Type := Calling | Proceeding | Completed | Terminated.

#[export] Instance State_eq_dec : EqDecision State.
Proof. solve_decision. Defined.

Inductive Event : Type :=
| Provisional (r : Response)
| Success (r : Response)
| Failure (r : Response)
| Timeout
| TransportError.

Inductive Action : Type :=
| Send (data : str)
| EventA (e : Event)
| SetTimer (t : Timer.t) (d : Duration)
| CancelTimer (t : Timer.t).

Record InviteClientTransaction : Type := mkTx {
  id : TransactionId;
  state : State;
  request : Request;
  timers : TimerValues;
  reliable : bool;
  retransmit_interval : Duration;
  actions : list Action
}.

#[export] Instance tx_eta : Settable InviteClientTransaction := fun x =>
  mkTx (id x) (state x) (request x) (timers x) (reliable x) (retransmit_interval x) (actions x).

Definition push (a : Action) (tx : InviteClientTransaction) : InviteClientTransaction :=
  tx <| actions := actions tx ++ [a] |>.

Definition is_terminated (tx : InviteClientTransaction) : bool :=
  bool_decide (state tx = Terminated).

(** *** The ACK of a non-2xx final response *)

Definition parse_via_or_default (via_raw : option str) (branch : str) : Via.t :=
  match via_raw with
  | Some v =>
      match Via.parse v with
      | Ok via => via
      | Err _ => Via.mk #"UDP" #"0.0.0.0" 5060 branch None None
      end
  | None => Via.mk #"UDP" #"0.0.0.0" 5060 branch None None
  end.

(** [req_uri] is [None] where [SipRequest::uri] panics, which it does not for a
    request that was parsed or built. *)
Definition build_ack_for_non_2xx (invite : Request) : option Request :=
  let* branch := rok (req_via_branch invite) in
  let* call_id := rok (req_call_id invite) in
  let* (from_tag, from_uri) := rok (req_from_tag_and_uri invite) in
  let via := parse_via_or_default (head (hs_via_headers_raw (r_headers invite))) branch in
  let* uri := req_uri invite in
  let* to_uri := rok (req_to_uri invite) in
  let* cseq := rok (req_cseq invite) in
  rok (req_build
    (rq_cseq cseq
    (rq_call_id call_id
    (rq_to (uri_to_string to_uri)
    (rq_from (uri_to_string from_uri) from_tag
    (rq_via (Via.host via) (Via.port via) (Via.protocol via) branch
    (rq_uri (uri_to_string uri)
    (rq_method Ack req_builder)))))))).

Definition send_ack (tx : InviteClientTransaction) : InviteClientTransaction :=
  match build_ack_for_non_2xx (request tx) with
  | Some ack => push (Send (request_to_bytes ack)) tx
  | None => tx
  end.

(** *** Construction and handlers *)

Definition new (request : Request) (reliable : bool) : option InviteClientTransaction :=
  if negb (bool_decide (req_method request = Invite)) then None else
  let* id := from_request request in
  let timers := timer_default in
  let interval := timer_a timers in
  let tx := mkTx id Calling request timers reliable interval [] in
  let tx := push (Send (request_to_bytes request)) tx in
  let tx := if negb reliable then push (SetTimer Timer.A interval) tx else tx in
  Some (push (SetTimer Timer.B (timer_b timers)) tx).

Definition handle_timeout (timer : Timer.t) (tx : InviteClientTransaction)
  : InviteClientTransaction :=
  match state tx, timer with
  | Calling, Timer.A =>
      let tx := push (Send (request_to_bytes (request tx))) tx in
      let tx := tx <| retransmit_interval :=
                        next_retransmit (timers tx) (retransmit_interval tx) |> in
      push (SetTimer Timer.A (retransmit_interval tx)) tx
  | Calling, Timer.B => push (EventA Timeout) (tx <| state := Terminated |>)
  | Proceeding, Timer.B => push (EventA Timeout) (tx <| state := Terminated |>)
  | Completed, Timer.D => tx <| state := Terminated |>
  | _, _ => tx
  end.

(** The end of a 3xx-6xx branch: acknowledge, report, wait for Timer D. *)
Definition complete (response : Response) (tx : InviteClientTransaction)
  : InviteClientTransaction :=
  let tx := send_ack tx in
  let tx := push (EventA (Failure response)) tx in
  let timer_d := if reliable tx then dur_zero else timer_d (timers tx) in
  if is_zero timer_d then tx <| state := Terminated |>
  else push (SetTimer Timer.D timer_d) tx.

Definition handle_response (response : Response) (tx : InviteClientTransaction)
  : InviteClientTransaction :=
  let code := resp_status_code response in
  match state tx with
  | Calling =>
      if in_range 100 200 code then
        let tx := tx <| state := Proceeding |> in
        let tx := if negb (reliable tx) then push (CancelTimer Timer.A) tx else tx in
        push (EventA (Provisional response)) tx
      else if in_range 200 300 code then
        let tx := tx <| state := Terminated |> in
        let tx := push (CancelTimer Timer.A) tx in
        let tx := push (CancelTimer Timer.B) tx in
        push (EventA (Success response)) tx
      else if 300 <=? code then
        let tx := tx <| state := Completed |> in
        let tx := push (CancelTimer Timer.A) tx in
        let tx := push (CancelTimer Timer.B) tx in
        complete response tx
      else tx
  | Proceeding =>
      if in_range 100 200 code then push (EventA (Provisional response)) tx
      else if in_range 200 300 code then
        let tx := tx <| state := Terminated |> in
        let tx := push (CancelTimer Timer.B) tx in
        push (EventA (Success response)) tx
      else if 300 <=? code then
        let tx := tx <| state := Completed |> in
        let tx := push (CancelTimer Timer.B) tx in
        complete response tx
      else tx
  | Completed => if 300 <=? code then send_ack tx else tx
  | Terminated =>
      if in_range 200 300 code then push (EventA (Success response)) tx else tx
  end.

Definition poll_actions (tx : InviteClientTransaction) : list Action * InviteClientTransaction :=
  (actions tx, tx <| actions := [] |>).

Definition handle_transport_error (tx : InviteClientTransaction) : InviteClientTransaction :=
  match state tx with
  | Calling | Proceeding => push (EventA TransportError) (tx <| state := Terminated |>)
  | _ => tx
  end.

(** *** The machine as an instance of the interface *)
Inductive Input : Type :=
| InTimeout (t : Timer.t)
| InResponse (r : Response)
| InTransportError.

#[export] Instance client_timer_action : TimerAction Action := fun a =>
  match a with
  | SetTimer t _ => Arm t
  | CancelTimer t => Disarm t
  | _ => NoTimer
  end.

Definition handle_input (tx : InviteClientTransaction) (i : Input) : InviteClientTransaction :=
  match i with
  | InTimeout t => handle_timeout t tx
  | InResponse r => handle_response r tx
  | InTransportError => handle_transport_error tx
  end.

#[export] Instance invite_client_machine : TxMachine InviteClientTransaction Input Action := {|
  handle := handle_input;
  drain := poll_actions;
  fired := fun i => match i with InTimeout t => Some t | _ => None end;
  terminated := is_terminated
|}.

(** ** Specification: RFC 3261, figure 5

    The figure as it is printed, with what it sends and tells its user. *)
Inductive output : Type := Sent (data : str) | Told (e : Event).

Definition outputs (l : list Action) : list output :=
  omap (fun a => match a with Send d => Some (Sent d) | EventA e => Some (Told e) | _ => None end) l.

Inductive figure5 (invite ack : str) : State -> Input -> list output -> State -> Prop :=
| F_timer_a : figure5 invite ack Calling (InTimeout Timer.A) [Sent invite] Calling
| F_timer_b : figure5 invite ack Calling (InTimeout Timer.B) [Told Timeout] Terminated
| F_transport s : s = Calling \/ s = Completed ->
    figure5 invite ack s InTransportError [Told TransportError] Terminated
| F_1xx s r : s = Calling \/ s = Proceeding -> 100 <= resp_status_code r < 200 ->
    figure5 invite ack s (InResponse r) [Told (Provisional r)] Proceeding
| F_2xx s r : s = Calling \/ s = Proceeding -> 200 <= resp_status_code r < 300 ->
    figure5 invite ack s (InResponse r) [Told (Success r)] Terminated
| F_failure s r : s = Calling \/ s = Proceeding -> 300 <= resp_status_code r < 700 ->
    figure5 invite ack s (InResponse r) [Sent ack; Told (Failure r)] Completed
| F_again r : 300 <= resp_status_code r < 700 ->
    figure5 invite ack Completed (InResponse r) [Sent ack] Completed
| F_timer_d : figure5 invite ack Completed (InTimeout Timer.D) [] Terminated.

(** What the code has in addition: Timer B runs on in Proceeding, where the figure stops it; an error of the
    transport ends Proceeding; a 2xx that comes late is handed on, as the user needs the 2xx of the other
    branches of a fork; a status of 700 and more is a failure. *)
Inductive added (ack : str) : State -> Input -> list output -> State -> Prop :=
| A_timer_b : added ack Proceeding (InTimeout Timer.B) [Told Timeout] Terminated
| A_transport : added ack Proceeding InTransportError [Told TransportError] Terminated
| A_2xx r : 200 <= resp_status_code r < 300 ->
    added ack Terminated (InResponse r) [Told (Success r)] Terminated
| A_failure s r : s = Calling \/ s = Proceeding -> 700 <= resp_status_code r ->
    added ack s (InResponse r) [Sent ack; Told (Failure r)] Completed
| A_again r : 700 <= resp_status_code r -> added ack Completed (InResponse r) [Sent ack] Completed.

(** What the code leaves out: an error of the transport for the ACK is not reported and does not end Completed. *)
Definition left_out (s : State) (i : Input) : Prop := s = Completed /\ i = InTransportError.

(** Over a reliable transport Timer D is zero: it fires as soon as Completed is reached. *)
Inductive timed (reliable : bool) (R : State -> Input -> list output -> State -> Prop)
  : State -> Input -> list output -> State -> Prop :=
| T_step s i o s' : R s i o s' -> reliable = false \/ s' <> Completed -> timed reliable R s i o s'
| T_timer_d s i o : R s i o Completed -> reliable = true -> timed reliable R s i o Terminated.

Definition completed_or_done (reliable : bool) : State := if reliable then Terminated else Completed.

(** What a handler call queues, beyond what was queued before. *)
Definition emitted (tx : InviteClientTransaction) (i : Input) : list Action :=
  drop (length (actions tx)) (actions (handle_input tx i)).

(** ** Lemmas *)

Lemma send_ack_fields tx :
  id (send_ack tx) = id tx /\ state (send_ack tx) = state tx /\
  request (send_ack tx) = request tx /\ timers (send_ack tx) = timers tx /\
  reliable (send_ack tx) = reliable tx /\
  retransmit_interval (send_ack tx) = retransmit_interval tx.
Proof. unfold send_ack. by destruct (build_ack_for_non_2xx _). Qed.

Lemma send_ack_state tx : state (send_ack tx) = state tx.
Proof. apply send_ack_fields. Qed.

(** The handlers never change the identity of a transaction. *)
Lemma handle_input_frame tx i :
  id (handle_input tx i) = id tx /\ request (handle_input tx i) = request tx /\
  timers (handle_input tx i) = timers tx /\ reliable (handle_input tx i) = reliable tx.
Proof.
  destruct i as [t|r|]; simpl.
  - unfold handle_timeout. destruct (state tx), t; done.
  - unfold handle_response, complete, send_ack.
    destruct (state tx); repeat case_match; done.
  - unfold handle_transport_error. by destruct (state tx).
Qed.

Lemma actions_send_ack tx :
  actions (send_ack tx) = actions tx ++
    match build_ack_for_non_2xx (request tx) with
    | Some ack => [Send (request_to_bytes ack)]
    | None => []
    end.
Proof.
  unfold send_ack. destruct (build_ack_for_non_2xx _); [done|]. by rewrite app_nil_r.
Qed.

(** The handlers only append to the queue. *)
Lemma handle_input_actions tx i :
  actions (handle_input tx i) = actions tx ++ emitted tx i.
Proof.
  unfold emitted.
  assert (exists l, actions (handle_input tx i) = actions tx ++ l) as [l ->].
  { destruct i as [t|r|]; simpl.
    - unfold handle_timeout. destruct (state tx), t; simpl; rewrite <- ?app_assoc;
        try (by eexists); exists []; by rewrite app_nil_r.
    - unfold handle_response, complete, send_ack, push.
      destruct (state tx); repeat case_match; simpl; rewrite <- ?app_assoc;
        try (by eexists); exists []; by rewrite app_nil_r.
    - unfold handle_transport_error. destruct (state tx); simpl;
        try (by eexists); exists []; by rewrite app_nil_r. }
  by rewrite drop_app_length.
Qed.

Lemma new_spec req rel tx :
  new req rel = Some tx ->
  exists tid, from_request req = Some tid /\ req_method req = Invite /\
  tx = mkTx tid Calling req timer_default rel (timer_a timer_default)
    ([Send (request_to_bytes req)] ++
     (if rel then [] else [SetTimer Timer.A (timer_a timer_default)]) ++
     [SetTimer Timer.B (timer_b timer_default)]).
Proof.
  unfold new. case_bool_decide as Hm; simpl; [|done].
  destruct (from_request req) as [tid|]; simpl; [|done].
  intros E. exists tid. split_and!; [done|done|]. by destruct rel; simpl in *; inv_res.
Qed.

(** What the environment keeps true of a transaction: an empty queue, the
    default timers, and the timer that bounds its current state. *)
Definition cfg_inv (c : config InviteClientTransaction) : Prop :=
  actions c.1 = [] /\ timers c.1 = timer_default /\
  match state c.1 with
  | Calling | Proceeding => Timer.B ∈ c.2
  | Completed => Timer.D ∈ c.2
  | Terminated => True
  end.

Lemma start_inv req rel tx acts c :
  new req rel = Some tx -> start tx = (acts, c) -> cfg_inv c.
Proof.
  intros (tid & _ & _ & ->)%new_spec. unfold start. simpl. intros E. inv_res.
  split_and!; [done|done|]. simpl. destruct rel; simpl; unfold apply_op; simpl; set_solver.
Qed.

Lemma step_inv c i acts c' : cfg_inv c -> sys_step c i acts c' -> cfg_inv c'.
Proof.
  destruct c as [tx armed]. intros (Ha & Ht & Hs) Hst. inversion Hst as [? ? ? ? Hf E]; subst.
  unfold deliver in E. simpl in *. inv_res. unfold cfg_inv. simpl.
  pose proof (handle_input_frame tx i) as (_ & _ & Htm & _).
  split_and!; [done|by rewrite Htm|].
  destruct i as [t|r|]; simpl in *.
  - unfold handle_timeout. destruct (state tx) eqn:S, t; simpl; rewrite ?S, ?Ha; simpl;
      try done; unfold apply_ops, apply_op; simpl; set_solver.
  - unfold handle_response, complete, send_ack, push.
    destruct (state tx) eqn:S; repeat case_match; simpl in *; rewrite ?S, ?Ha; simpl;
      try done; unfold apply_ops, apply_op; simpl; try congruence; set_solver.
  - unfold handle_transport_error. destruct (state tx) eqn:S; simpl; rewrite ?S, ?Ha; simpl;
      try done; unfold apply_ops, apply_op; simpl; set_solver.
Qed.

(** A transaction of an INVITE [req] as the environment finds it: over a reliable transport it never rests
    in Completed. *)
Definition resting (req : Request) (rel : bool) (tx : InviteClientTransaction) : Prop :=
  request tx = req /\ reliable tx = rel /\ actions tx = [] /\ timers tx = timer_default /\
  (rel = true -> state tx <> Completed).

Lemma reach_resting req rel tx0 tr c : new req rel = Some tx0 -> reach tx0 tr c -> resting req rel c.1.
Proof.
  intros Hn. revert tr c. apply (reach_inv tx0 (fun c => resting req rel c.1)).
  - apply new_spec in Hn as (tid & _ & _ & ->). unfold start. simpl. intros acts c E. by inv_res.
  - intros [tx armed] i acts c' (Hr & Hl & Ha & Ht & Hc) Hst. inversion Hst as [? ? ? ? _ E]; subst.
    unfold deliver in E. simpl in *. inv_res. pose proof (handle_input_frame tx i) as (_ & Hf1 & Hf2 & Hf3).
    unfold resting. simpl. split_and!; [done..|by rewrite Hf2|]. intros Hl. specialize (Hc Hl).
    destruct i as [t|r|]; simpl in *.
    + unfold handle_timeout. by destruct (state tx) eqn:S, t; simpl; rewrite ?S.
    + unfold handle_response, complete, send_ack, push.
      destruct (state tx) eqn:S; repeat case_match; simpl in *; rewrite ?S; try done; rewrite Hl in *; done.
    + unfold handle_transport_error. by destruct (state tx) eqn:S; simpl; rewrite ?S.
Qed.

(** Events that end a transaction other than with a 2xx. *)
Definition is_failure_event (a : Action) : bool :=
  match a with
  | EventA (Failure _) | EventA Timeout | EventA TransportError => true
  | _ => false
  end.

Definition failures (l : list Action) : nat := length (List.filter is_failure_event l).

Lemma failures_app a b : failures (a ++ b) = (failures a + failures b)%nat.
Proof. unfold failures. by rewrite List.filter_app, length_app. Qed.

Lemma failures_ack req :
  failures (match build_ack_for_non_2xx req with
            | Some ack => [Send (request_to_bytes ack)]
            | None => []
            end) = 0%nat.
Proof. by destruct (build_ack_for_non_2xx req). Qed.

(** An unsuccessful end is reported once, when the active states are left. *)
Lemma step_failures tx i :
  actions tx = [] ->
  let tx' := handle_input tx i in
  match state tx with
  | Calling | Proceeding =>
      match state tx' with
      | Calling | Proceeding => failures (actions tx') = 0%nat
      | _ => (failures (actions tx') <= 1)%nat
      end
  | _ => failures (actions tx') = 0%nat /\ state tx' <> Calling /\ state tx' <> Proceeding
  end.
Proof.
  intros Ha. destruct i as [t|r|]; simpl.
  - unfold handle_timeout. destruct (state tx) eqn:S, t; simpl; rewrite ?S, ?Ha; simpl;
      (done || (unfold failures; simpl; lia)).
  - unfold handle_response, complete, send_ack, push.
    destruct (state tx) eqn:S; repeat case_match; simpl in *; rewrite ?S, ?Ha; simpl;
      try done; unfold failures; simpl; lia.
  - unfold handle_transport_error. destruct (state tx) eqn:S; simpl; rewrite ?S, ?Ha; simpl;
      (done || (unfold failures; simpl; lia)).
Qed.

(** ** Theorems *)

(** *** The transitions of the code *)

Lemma timed_any rel R s i o s' :
  R s i o s' -> timed rel R s i o (if bool_decide (s' = Completed) then completed_or_done rel else s').
Proof.
  intros H. case_bool_decide as Hs; [subst; destruct rel|]; [by apply T_timer_d|by apply T_step; auto..].
Qed.

Definition takes (tx : InviteClientTransaction) (i : Input) (o : list output) (s' : State) : Prop :=
  outputs (emitted tx i) = o /\ state (handle_input tx i) = s'.

(** One handler call on a resting transaction, with Timer D where that is zero. *)
#[local] Ltac call :=
  unfold takes, emitted, handle_input, handle_response, handle_timeout, handle_transport_error, complete, send_ack, push;
  cbn -[in_range timer_d Z.leb];
  try match goal with |- context [resp_status_code ?r] => destruct (code_classP (resp_status_code r)); try lia end;
  cbn -[timer_d].

Section Transitions.
Context (req : Request) (rel : bool) (ack : Request) (tx : InviteClientTransaction).
Context (Hack : build_ack_for_non_2xx req = Some ack) (Hrest : resting req rel tx).

Lemma takes_figure i o s' :
  timed rel (figure5 (request_to_bytes req) (request_to_bytes ack)) (state tx) i o s' ->
  ~ left_out (state tx) i -> takes tx i o s'.
Proof.
  unfold left_out. destruct Hrest as (Hq & Hr & Ha & Ht & Hc). destruct tx as [tid st rq tv rl ri acts].
  cbn in Hq, Hr, Ha, Ht, Hc. subst rq rl acts tv. cbn [state]. clear Hrest.
  intros Hs Hl. revert Hc. destruct Hs as [? ? ? ? Hf Ho|? ? ? Hf Ho]; intros Hc;
    inversion Hf; subst; destruct_or?; simplify_eq; call; rewrite ?Hack; try (destruct rel);
    first [done|by exfalso; apply Hc|by exfalso; apply Hl|by exfalso; destruct Ho].
Qed.

Lemma takes_added i o s' :
  timed rel (added (request_to_bytes ack)) (state tx) i o s' -> takes tx i o s'.
Proof.
  destruct Hrest as (Hq & Hr & Ha & Ht & Hc). destruct tx as [tid st rq tv rl ri acts].
  cbn in Hq, Hr, Ha, Ht, Hc. subst rq rl acts tv. cbn [state]. clear Hrest.
  intros Hs. revert Hc. destruct Hs as [? ? ? ? Hf Ho|? ? ? Hf Ho]; intros Hc;
    inversion Hf; subst; destruct_or?; simplify_eq; call; rewrite ?Hack; try (destruct rel);
    first [done|by exfalso; apply Hc|by exfalso; destruct Ho].
Qed.

(** A transition of the figure or an added one, unless the handler does nothing. *)
Lemma has_transition i :
  (exists o s', timed rel (figure5 (request_to_bytes req) (request_to_bytes ack)) (state tx) i o s' /\ ~ left_out (state tx) i) \/
  (exists o s', timed rel (added (request_to_bytes ack)) (state tx) i o s') \/ handle_input tx i = tx.
Proof.
  destruct Hrest as (Hq & Hr & Ha & Ht & Hc). destruct tx as [tid st rq tv rl ri acts].
  cbn in Hq, Hr, Ha, Ht, Hc. subst rq rl acts tv. cbn [state]. clear Hrest.
  unfold left_out. destruct i as [t|r|].
  - destruct st, t; try (right; right; reflexivity).
    all: try (left; eexists _, _; split; [apply T_step; [constructor|by right]|by intros []]).
    right; left. eexists _, _. apply T_step; [constructor|by right].
  - unfold handle_input, handle_response. destruct (code_classP (resp_status_code r)) as [Hr|Hr|Hr|Hr]; [| |destruct (decide (resp_status_code r < 700))|].
    all: destruct st; try (right; right; unfold in_range; reflexivity).
    all: first
      [left; eexists _, _; split; [apply timed_any; constructor; solve [auto|lia]|by intros []]
      |right; left; eexists _, _; apply timed_any; constructor; solve [auto|lia]].
  - destruct st; try (right; right; reflexivity).
    + left; eexists _, _; split; [apply T_step; [constructor; auto|by right]|by intros []].
    + right; left. eexists _, _. apply T_step; [constructor|by right].
Qed.
End Transitions.

(** C2: What the INVITE client transaction does of RFC 3261 figure 5, state, requests sent and reports to the
    user together.  From every reachable state the code takes every transition of the figure but one (an
    error of the transport in Completed, which it ignores); what it does that the figure does not have is the list
    [added]; any other input leaves the transaction exactly as it was.  [ack] is the ACK built from the INVITE. *)
Theorem invite_client_refines_rfc req rel tx0 tr c ack i :
  new req rel = Some tx0 -> reach tx0 tr c -> build_ack_for_non_2xx req = Some ack ->
  let tx := c.1 in
  let takes o s' := outputs (emitted tx i) = o /\ state (handle_input tx i) = s' in
  let figure := timed rel (figure5 (request_to_bytes req) (request_to_bytes ack)) in
  let more := timed rel (added (request_to_bytes ack)) in
  (forall o s', figure (state tx) i o s' -> ~ left_out (state tx) i -> takes o s') /\
  (forall o s', more (state tx) i o s' -> takes o s') /\
  ((exists o s', figure (state tx) i o s' /\ ~ left_out (state tx) i) \/ (exists o s', more (state tx) i o s') \/
   handle_input tx i = tx).
Proof.
  intros Hn Hr Ha. pose proof (reach_resting _ _ _ _ _ Hn Hr) as Hs. cbv zeta. split_and!.
  - intros o s'. by eapply takes_figure.
  - intros o s'. by eapply takes_added.
  - by eapply has_transition.
Qed.

(** No INVITE client transaction gets stuck: in every reachable state that is
    not Terminated a timer is armed whose firing terminates the transaction. *)
Theorem invite_client_always_terminates req rel tx tr c :
  new req rel = Some tx -> reach tx tr c -> is_terminated c.1 = false ->
  exists t acts c', t ∈ c.2 /\ sys_step c (InTimeout t) acts c' /\ is_terminated c'.1 = true.
Proof.
  intros Hn Hr Ht.
  assert (cfg_inv c) as (Ha & _ & Hs).
  { eapply reach_inv; [| |exact Hr]; intros; [by eapply start_inv|by eapply step_inv]. }
  unfold is_terminated in Ht. apply bool_decide_eq_false in Ht.
  destruct (state c.1) eqn:S; [exists Timer.B|exists Timer.B|exists Timer.D|done];
    (eexists _, _; split; [exact Hs|]; split;
     [constructor; [simpl; intros; by simplify_eq|reflexivity]|];
     simpl; unfold handle_timeout, is_terminated; rewrite S; done).
Qed.

(** Over a whole run a client INVITE reports at most one unsuccessful outcome
    (a failure response, a timeout or a transport error) to its user. *)
Theorem invite_client_one_failure req rel tx tr c :
  new req rel = Some tx -> reach tx tr c -> (failures tr <= 1)%nat.
Proof.
  intros Hn Hr.
  assert (actions c.1 = [] /\
    match state c.1 with
    | Calling | Proceeding => failures tr = 0%nat
    | _ => (failures tr <= 1)%nat
    end) as [_ H].
  { induction Hr as [acts c Hs|tr c i acts c' Hr [Ha IH] Hst].
    - apply new_spec in Hn as (? & _ & _ & ->). unfold start in Hs. simpl in Hs. inv_res.
      split; [done|]. simpl. by destruct rel.
    - inversion Hst as [? ? ? ? _ E]; subst. unfold deliver in E. simpl in E. inv_res.
      split; [done|]. rewrite failures_app. pose proof (step_failures c.1 i Ha) as F.
      simpl in *. destruct (state c.1), (state (handle_input c.1 i)); intuition; lia. }
  destruct (state c.1); lia.
Qed.

(** Every 3xx-6xx final response that reaches a live INVITE client
    transaction, a retransmission in Completed included, is acknowledged: the
    ACK built from the INVITE is queued. *)
Theorem invite_client_acks_failures tx r ack :
  build_ack_for_non_2xx (request tx) = Some ack ->
  300 <= resp_status_code r -> state tx <> Terminated ->
  In (Send (request_to_bytes ack)) (emitted tx (InResponse r)).
Proof.
  intros Hack Hc Hs. unfold emitted. simpl.
  assert (in_range 100 200 (resp_status_code r) = false) as E1 by (apply in_range_false; lia).
  assert (in_range 200 300 (resp_status_code r) = false) as E2 by (apply in_range_false; lia).
  assert ((300 <=? resp_status_code r) = true) as E3 by by apply Z.leb_le.
  unfold handle_response, complete, send_ack, push. rewrite E1, E2, E3.
  destruct (state tx); [| | |done]; simpl; rewrite Hack; simpl; repeat case_match; simpl;
    rewrite <- ?app_assoc, drop_app_length; simpl; tauto.
Qed.

(** ** Witnesses *)

Lemma invite_client_refines_rfc_witness :
  exists tx ack, new (sample_request Invite) false = Some tx /\ build_ack_for_non_2xx (sample_request Invite) = Some ack /\
    let c := (start tx).2.1 in
    let r := sample_response Invite 486 in
    takes c (InResponse r) [Sent (request_to_bytes ack); Told (Failure r)] Completed.
Proof.
  compute_some (new (sample_request Invite) false) as tx E.
  compute_some (build_ack_for_non_2xx (sample_request Invite)) as ack A.
  exists tx, ack. split; [reflexivity|]. split; [reflexivity|].
  pose proof E as E'. apply new_spec in E' as (tid & _ & _ & ->).
  refine (proj1 (invite_client_refines_rfc _ _ _ (start _).1 (start _).2 ack (InResponse (sample_response Invite 486)) E
    (Reach_start _ _ _ (surjective_pairing _)) A) _ _ _ _).
  - apply T_step; [|by left]. apply F_failure; [by left|]. vm_compute. split; [discriminate|reflexivity].
  - by intros [].
Defined.

Lemma invite_client_always_terminates_witness :
  exists tx t acts c',
    new (sample_request Invite) false = Some tx /\
    t ∈ (start tx).2.2 /\ sys_step (start tx).2 (InTimeout t) acts c' /\
    is_terminated c'.1 = true.
Proof.
  compute_some (new (sample_request Invite) false) as tx E.
  destruct (invite_client_always_terminates _ _ tx (start tx).1 (start tx).2 E)
    as (t & acts & c' & H).
  - apply Reach_start. by destruct (start tx).
  - apply new_spec in E as (? & _ & _ & ->). reflexivity.
  - exists tx, t, acts, c'. exact (conj eq_refl H).
Defined.

Lemma invite_client_one_failure_witness :
  exists tx c', new (sample_request Invite) false = Some tx /\
    deliver (start tx).2 (InTimeout Timer.B) = ([EventA Timeout], c') /\
    (failures ((start tx).1 ++ [EventA Timeout]) <= 1)%nat.
Proof.
  compute_some (new (sample_request Invite) false) as tx E.
  pose proof E as E'. apply new_spec in E' as (tid & _ & _ & ->).
  eexists _, _. split; [reflexivity|]. split; [reflexivity|].
  eapply (invite_client_one_failure _ _ _ _ _ E).
  eapply Reach_step; [apply Reach_start; reflexivity|].
  apply Sys_step with (i := InTimeout Timer.B); [|reflexivity].
  intros t Ht. injection Ht as <-. clear E.
  unfold start, apply_ops, apply_op. simpl. set_solver.
Defined.

Lemma invite_client_acks_failures_witness :
  exists tx ack, new (sample_request Invite) false = Some tx /\
    build_ack_for_non_2xx (request tx) = Some ack /\
    In (Send (request_to_bytes ack)) (emitted tx (InResponse (sample_response Invite 486))).
Proof.
  compute_some (new (sample_request Invite) false) as tx E.
  apply new_spec in E as (tid & _ & _ & ->).
  compute_some (build_ack_for_non_2xx (sample_request Invite)) as ack A.
  eexists _, ack. split; [reflexivity|]. split; [exact A|].
  apply invite_client_acks_failures; [exact A|vm_compute; discriminate|discriminate].
Defined.

(** A response that the server side builds from a request (copying its Via
    lines and its CSeq) is matched to the client transaction of that request:
    both have the same transaction identifier. *)
Theorem response_matches_request req b r :
  forallb other_ok (r_headers req) = true ->
  req_cseq_method req = Ok (req_method req) ->
  s_via b = omap as_via (r_headers req) ->
  s_cseq b = canonical_cseq req <$> first_of as_cseq (r_headers req) ->
  resp_build b = Ok r ->
  from_response r = from_request req.
Proof.
  intros Ho Hm Hv Hc Hb. destruct (resp_build_match _ _ _ Ho Hb Hv Hc) as [E1 E2].
  unfold from_response, from_request. rewrite E1, E2, Hm. done.
Qed.

Lemma response_matches_request_witness :
  from_response (sample_response Invite 200) = from_request (sample_request Invite) /\
  from_request (sample_request Invite) = Some (mkId #"z9hG4bKtest" Invite).
Proof.
  split; [|vm_compute; reflexivity].
  apply (response_matches_request _ (sample_resp_builder Invite 200));
    vm_compute; reflexivity.
Defined.

(** A request produced by the builder is read back with the transaction
    identifier, Call-ID and sequence number it was given, and its CSeq names its
    own method, for every sequence number and every branch, host and transport
    without Via punctuation. *)
Theorem built_request_identity b r br m :
  q_via_branch b = Some br -> q_method b = Some m ->
  via_ok br -> br <> [] ->
  via_ok (default #"UDP" (q_via_transport b)) -> default #"UDP" (q_via_transport b) <> [] ->
  0 <= default 5060 (q_via_port b) ->
  (forall h, q_via_host b = Some h -> via_ok h) ->
  (forall n, q_cseq b = Some n -> is_u32 n) ->
  req_build b = Ok r ->
  from_request r = Some (mkId br (method_from_parser m)) /\
  rok (req_call_id r) = q_call_id b /\ rok (req_cseq r) = q_cseq b /\
  req_cseq_method r = Ok (req_method r).
Proof.
  intros Hb Hm Hbr Hbn Ht Htn Hp Hh Hn Hok.
  destruct (req_build_read b r Hok) as (E1 & E2 & E3 & E4 & E5); try done.
  { intros. by simplify_eq. }
  rewrite Hm in E4, E5. simpl in E4, E5. injection E4 as E4.
  unfold from_request. rewrite E1, Hb, E4. split_and!; try done.
  destruct (req_cseq_method r); simpl in E5; [|done]. by injection E5 as ->.
Qed.

Lemma built_request_identity_witness :
  from_request (sample_request Invite) = Some (mkId #"z9hG4bKtest" Invite) /\
  rok (req_call_id (sample_request Invite)) = Some #"test@example.com" /\
  rok (req_cseq (sample_request Invite)) = Some 1 /\
  req_cseq_method (sample_request Invite) = Ok (req_method (sample_request Invite)).
Proof.
  apply (built_request_identity (sample_builder Invite) _ #"z9hG4bKtest" PMethod.Invite).
  - vm_compute. reflexivity.
  - vm_compute. reflexivity.
  - repeat constructor.
  - discriminate.
  - repeat constructor.
  - discriminate.
  - vm_compute. discriminate.
  - intros h Hh. injection Hh as <-. repeat constructor.
  - intros n Hn. injection Hn as <-. vm_compute. split; [discriminate|reflexivity].
  - vm_compute. reflexivity.
Defined.
