(* ===== verification/NonInviteClient.v ===== *)
(** * Non-INVITE client transaction ([transaction/client/non_invite.rs])

    The state machine of RFC 3261 17.1.2: it always ends, retransmits with an interval
    of at most T2 on unreliable transports, and reports one outcome. *)

From S2P Require Import Prelude RStr SipBase SipHeader SipMessage SipBuild Sample.
From S2P Require Import TxTimer TxMachine InviteClient.

Local Open Scope Z_scope.

Inductive State : Type := Trying | Proceeding | Completed | Terminated.

#[export] Instance State_eq_dec : EqDecision State.
Proof. solve_decision. Defined.

Inductive Event : Type :=
| Provisional (r : Response)
| FinalResponse (r : Response)
| Timeout
| TransportError.

Inductive Action : Type :=
| Send (data : str)
| EventA (e : Event)
| SetTimer (t : Timer.t) (d : Duration)
| CancelTimer (t : Timer.t).

Record NonInviteClientTransaction : Type := mkTx {
  id : TransactionId;
  state : State;
  request : Request;
  timers : TimerValues;
  reliable : bool;
  retransmit_interval : Duration;
  actions : list Action
}.

#[export] Instance tx_eta : Settable NonInviteClientTransaction := fun x =>
  mkTx (id x) (state x) (request x) (timers x) (reliable x) (retransmit_interval x) (actions x).

Definition push (a : Action) (tx : NonInviteClientTransaction) : NonInviteClientTransaction :=
  tx <| actions := actions tx ++ [a] |>.

Definition is_terminated (tx : NonInviteClientTransaction) : bool :=
  bool_decide (state tx = Terminated).

Definition new (request : Request) (reliable : bool) : option NonInviteClientTransaction :=
  if bool_decide (req_method request = Invite) then None else
  let* id := from_request request in
  let timers := timer_default in
  let interval := timer_e timers in
  let tx := mkTx id Trying request timers reliable interval [] in
  let tx := push (Send (request_to_bytes request)) tx in
  let tx := if negb reliable then push (SetTimer Timer.E interval) tx else tx in
  Some (push (SetTimer Timer.F (timer_f timers)) tx).

Definition handle_timeout (timer : Timer.t) (tx : NonInviteClientTransaction)
  : NonInviteClientTransaction :=
  match state tx, timer with
  | Trying, Timer.E | Proceeding, Timer.E =>
      let tx := push (Send (request_to_bytes (request tx))) tx in
      let tx := tx <| retransmit_interval :=
                        next_retransmit (timers tx) (retransmit_interval tx) |> in
      push (SetTimer Timer.E (retransmit_interval tx)) tx
  | Trying, Timer.F | Proceeding, Timer.F =>
      push (EventA Timeout) (tx <| state := Terminated |>)
  | Completed, Timer.K => tx <| state := Terminated |>
  | _, _ => tx
  end.

(** A final response: the code has this block twice, in Trying and Proceeding. *)
Definition complete (response : Response) (tx : NonInviteClientTransaction)
  : NonInviteClientTransaction :=
  let tx := tx <| state := Completed |> in
  let tx := if negb (reliable tx) then push (CancelTimer Timer.E) tx else tx in
  let tx := push (CancelTimer Timer.F) tx in
  let tx := push (EventA (FinalResponse response)) tx in
  let timer_k := timer_k (timers tx) (reliable tx) in
  if is_zero timer_k then tx <| state := Terminated |>
  else push (SetTimer Timer.K timer_k) tx.

Definition handle_response (response : Response) (tx : NonInviteClientTransaction)
  : NonInviteClientTransaction :=
  let code := resp_status_code response in
  match state tx with
  | Trying =>
      if in_range 100 200 code then
        push (EventA (Provisional response)) (tx <| state := Proceeding |>)
      else if 200 <=? code then complete response tx
      else tx
  | Proceeding =>
      if in_range 100 200 code then push (EventA (Provisional response)) tx
      else if 200 <=? code then complete response tx
      else tx
  | Completed | Terminated => tx
  end.

Definition poll_actions (tx : NonInviteClientTransaction)
  : list Action * NonInviteClientTransaction := (actions tx, tx <| actions := [] |>).

Definition handle_transport_error (tx : NonInviteClientTransaction)
  : NonInviteClientTransaction :=
  match state tx with
  | Trying | Proceeding => push (EventA TransportError) (tx <| state := Terminated |>)
  | _ => tx
  end.

Inductive Input : Type :=
| InTimeout (t : Timer.t)
| InResponse (r : Response)
| InTransportError.

#[export] Instance non_invite_client_timer_action : TimerAction Action := fun a =>
  match a with
  | SetTimer t _ => Arm t
  | CancelTimer t => Disarm t
  | _ => NoTimer
  end.

Definition handle_input (tx : NonInviteClientTransaction) (i : Input)
  : NonInviteClientTransaction :=
  match i with
  | InTimeout t => handle_timeout t tx
  | InResponse r => handle_response r tx
  | InTransportError => handle_transport_error tx
  end.

#[export] Instance non_invite_client_machine
  : TxMachine NonInviteClientTransaction Input Action := {|
  handle := handle_input;
  drain := poll_actions;
  fired := fun i => match i with InTimeout t => Some t | _ => None end;
  terminated := is_terminated
|}.

(** What ends the transaction, as reported to its user. *)
Definition is_outcome (a : Action) : bool :=
  match a with
  | EventA (FinalResponse _) | EventA Timeout | EventA TransportError => true
  | _ => false
  end.

Definition outcomes (l : list Action) : nat := length (List.filter is_outcome l).

(** ** Lemmas *)

Lemma outcomes_app a b : outcomes (a ++ b) = (outcomes a + outcomes b)%nat.
Proof. unfold outcomes. by rewrite List.filter_app, length_app. Qed.

Lemma non_invite_client_new_spec req rel tx :
  new req rel = Some tx ->
  exists tid, from_request req = Some tid /\ req_method req <> Invite /\
  tx = mkTx tid Trying req timer_default rel (timer_e timer_default)
    ([Send (request_to_bytes req)] ++
     (if rel then [] else [SetTimer Timer.E (timer_e timer_default)]) ++
     [SetTimer Timer.F (timer_f timer_default)]).
Proof.
  unfold new. case_bool_decide as Hm; [done|].
  destruct (from_request req) as [tid|]; simpl; [|done].
  intros H. exists tid. split_and!; [done|done|]. by destruct rel; simpl in *; inv_res.
Qed.

(** Between polls: an empty queue, the default timers, the bounding timer armed,
    and the retransmission interval between T1 and T2. *)
Definition cfg_inv (c : config NonInviteClientTransaction) : Prop :=
  actions c.1 = [] /\ timers c.1 = timer_default /\
  0 < retransmit_interval c.1 <= t2 timer_default /\
  match state c.1 with
  | Trying | Proceeding => Timer.F ∈ c.2 /\ (reliable c.1 = false -> Timer.E ∈ c.2)
  | Completed => Timer.K ∈ c.2
  | Terminated => True
  end.

Lemma non_invite_client_start_inv req rel tx acts c :
  new req rel = Some tx -> start tx = (acts, c) -> cfg_inv c.
Proof.
  intros (tid & _ & _ & ->)%non_invite_client_new_spec. unfold start. simpl.
  intros H. inv_res. split_and!; [done|done|vm_compute; done|vm_compute; done|].
  simpl. destruct rel; simpl; unfold apply_op; simpl; set_solver.
Qed.

Lemma non_invite_client_step_inv c i acts c' :
  cfg_inv c -> sys_step c i acts c' -> cfg_inv c'.
Proof.
  destruct c as [tx armed]. intros (Ha & Ht & Hi & Hs) Hst.
  inversion Hst as [? ? ? ? Hf H]; subst. unfold deliver in H. simpl in *. inv_res.
  unfold cfg_inv. simpl.
  destruct i as [t|r|]; simpl in *.
  - unfold handle_timeout. destruct (state tx) eqn:S, t; simpl; rewrite ?S, ?Ht, ?Ha; simpl;
      (split_and!; try done; try (apply next_retransmit_bounds; [lia|done]);
       unfold apply_op; simpl; set_solver).
  - unfold handle_response, complete, push.
    destruct (state tx) eqn:S, (reliable tx) eqn:R; repeat case_match; simpl in *;
      rewrite ?S, ?Ha, ?R in *; simpl; split_and!; try done;
      unfold apply_op; simpl; try congruence; set_solver.
  - unfold handle_transport_error. destruct (state tx) eqn:S; simpl; rewrite ?S, ?Ha; simpl;
      split_and!; try done; unfold apply_op; simpl; set_solver.
Qed.

Lemma non_invite_client_step_outcomes tx i :
  actions tx = [] ->
  let tx' := handle_input tx i in
  match state tx with
  | Trying | Proceeding =>
      outcomes (actions tx') =
        match state tx' with Trying | Proceeding => 0%nat | _ => 1%nat end
  | _ => outcomes (actions tx') = 0%nat /\ state tx' <> Trying /\ state tx' <> Proceeding
  end.
Proof.
  intros Ha. destruct i as [t|r|]; simpl.
  - unfold handle_timeout. destruct (state tx) eqn:S, t; simpl; rewrite ?S, ?Ha; done.
  - unfold handle_response, complete, push.
    destruct (state tx) eqn:S; repeat case_match; simpl in *; rewrite ?S, ?Ha; simpl;
      try done; congruence.
  - unfold handle_transport_error. destruct (state tx) eqn:S; simpl; rewrite ?S, ?Ha; done.
Qed.

(** ** Theorems *)

(** A non-INVITE client transaction reports exactly one outcome (a final
    response, a timeout or a transport error), and does so precisely when it
    leaves its active states Trying and Proceeding. *)
Theorem non_invite_client_one_outcome req rel tx tr c :
  new req rel = Some tx -> reach tx tr c ->
  outcomes tr = match state c.1 with Trying | Proceeding => 0%nat | _ => 1%nat end.
Proof.
  intros Hn Hr.
  enough (actions c.1 = [] /\
    outcomes tr = match state c.1 with Trying | Proceeding => 0%nat | _ => 1%nat end)
    as [_ ?] by done.
  induction Hr as [acts c Hs|tr c i acts c' Hr [Ha IH] Hst].
  - apply non_invite_client_new_spec in Hn as (? & _ & _ & ->). unfold start in Hs.
    simpl in Hs. inv_res. split; [done|]. simpl. by destruct rel.
  - inversion Hst as [? ? ? ? _ H]; subst. unfold deliver in H. simpl in H. inv_res.
    split; [done|]. rewrite outcomes_app, IH.
    pose proof (non_invite_client_step_outcomes c.1 i Ha) as F. simpl in *.
    destruct (state c.1), (state (handle_input c.1 i)); intuition; lia.
Qed.

Lemma non_invite_client_one_outcome_witness :
  exists tx, new (sample_request Bye) true = Some tx /\
    outcomes ((start tx).1 ++ (deliver (start tx).2 (InResponse (sample_response Bye 200))).1)
      = 1%nat.
Proof.
  compute_some (new (sample_request Bye) true) as tx E.
  exists tx. split; [reflexivity|].
  rewrite (non_invite_client_one_outcome _ _ tx _
    (deliver (start tx).2 (InResponse (sample_response Bye 200))).2 E).
  - apply non_invite_client_new_spec in E as (? & _ & _ & ->). vm_compute. reflexivity.
  - apply (Reach_step tx _ (start tx).2 (InResponse (sample_response Bye 200))).
    + apply Reach_start. apply surjective_pairing.
    + apply Sys_step; [discriminate|]. apply surjective_pairing.
Defined.

(** No non-INVITE client transaction gets stuck: in every reachable state that
    is not Terminated a timer is armed whose firing terminates it; on an
    unreliable transport the retransmission timer E is armed as well while no
    final response has arrived, with an interval that never exceeds T2. *)
Theorem non_invite_client_always_terminates req rel tx tr c :
  new req rel = Some tx -> reach tx tr c -> is_terminated c.1 = false ->
  (exists t acts c', t ∈ c.2 /\ sys_step c (InTimeout t) acts c' /\
     is_terminated c'.1 = true) /\
  (state c.1 <> Completed -> reliable c.1 = false -> Timer.E ∈ c.2) /\
  0 < retransmit_interval c.1 <= t2 timer_default.
Proof.
  intros Hn Hr Ht.
  assert (cfg_inv c) as (Ha & _ & Hi & Hs).
  { eapply reach_inv; [| |exact Hr]; intros;
      [by eapply non_invite_client_start_inv|by eapply non_invite_client_step_inv]. }
  unfold is_terminated in Ht. apply bool_decide_eq_false in Ht.
  split; [|split; [by destruct (state c.1); intuition|done]].
  destruct (state c.1) eqn:S; [exists Timer.F|exists Timer.F|exists Timer.K|done];
    (eexists _, _; split; [try apply Hs; exact Hs|]; split;
     [constructor; [simpl; intros; simplify_eq; try apply Hs; exact Hs|reflexivity]|];
     simpl; unfold handle_timeout, is_terminated; rewrite S; done).
Qed.

Lemma non_invite_client_always_terminates_witness :
  exists tx, new (sample_request Register) false = Some tx /\
    is_terminated (start tx).2.1 = false /\ Timer.E ∈ (start tx).2.2.
Proof.
  compute_some (new (sample_request Register) false) as tx E.
  pose proof E as E'. apply non_invite_client_new_spec in E' as (tid & _ & _ & ->).
  eexists. split; [reflexivity|]. split; [reflexivity|].
  apply (non_invite_client_always_terminates _ _ _ _ _ E
    (Reach_start _ _ _ (surjective_pairing _))); [reflexivity|discriminate|reflexivity].
Defined.
