(* ===== verification/NonInviteServer.v ===== *)
(** * Non-INVITE server transaction ([transaction/server/non_invite.rs])

    The state machine of RFC 3261 17.2.2: the definitions follow the handlers of
    [NonInviteServerTransaction]; the theorems say what the peer sees when it
    retransmits its request, and that the transaction ends. *)

From S2P Require Import Prelude RStr SipBase SipHeader SipMessage SipBuild Sample.
From S2P Require Import TxTimer TxMachine InviteClient.

Local Open Scope Z_scope.

Inductive State : Type := Trying | Proceeding | Completed | Terminated.

#[export] Instance State_eq_dec : EqDecision State.
Proof. solve_decision. Defined.

Inductive Event : Type :=
| Request_ (r : Request)
| TransportError.

Inductive Action : Type :=
| Send (data : str)
| EventA (e : Event)
| SetTimer (t : Timer.t) (d : Duration)
| CancelTimer (t : Timer.t).

Record NonInviteServerTransaction : Type := mkTx {
  id : TransactionId;
  state : State;
  request : Request;
  last_response : option str;
  timers : TimerValues;
  reliable : bool;
  actions : list Action
}.

#[export] Instance tx_eta : Settable NonInviteServerTransaction := fun x =>
  mkTx (id x) (state x) (request x) (last_response x) (timers x) (reliable x) (actions x).

Definition push (a : Action) (tx : NonInviteServerTransaction) : NonInviteServerTransaction :=
  tx <| actions := actions tx ++ [a] |>.

Definition is_terminated (tx : NonInviteServerTransaction) : bool :=
  bool_decide (state tx = Terminated).

Definition new (request : Request) (reliable : bool) : option NonInviteServerTransaction :=
  if bool_decide (req_method request = Invite) then None else
  let* id := from_request request in
  let tx := mkTx id Trying request None timer_default reliable [] in
  Some (push (EventA (Request_ request)) tx).

Definition handle_timeout (timer : Timer.t) (tx : NonInviteServerTransaction)
  : NonInviteServerTransaction :=
  match state tx, timer with
  | Completed, Timer.J => tx <| state := Terminated |>
  | _, _ => tx
  end.

Definition handle_request (_request : Request) (tx : NonInviteServerTransaction)
  : NonInviteServerTransaction :=
  match state tx with
  | Trying => tx
  | Proceeding | Completed =>
      match last_response tx with
      | Some resp => push (Send resp) tx
      | None => tx
      end
  | Terminated => tx
  end.

(** The provisional branch without its state change, and the final branch; the
    code writes each out in Trying and in Proceeding. *)
Definition send_provisional (resp_bytes : str) (tx : NonInviteServerTransaction)
  : NonInviteServerTransaction :=
  push (Send resp_bytes) (tx <| last_response := Some resp_bytes |>).

Definition send_final (resp_bytes : str) (tx : NonInviteServerTransaction)
  : NonInviteServerTransaction :=
  let tx := tx <| state := Completed |> in
  let tx := tx <| last_response := Some resp_bytes |> in
  let tx := push (Send resp_bytes) tx in
  let timer_j := timer_j (timers tx) (reliable tx) in
  if is_zero timer_j then tx <| state := Terminated |>
  else push (SetTimer Timer.J timer_j) tx.

Definition send_response (response : Response) (tx : NonInviteServerTransaction)
  : NonInviteServerTransaction :=
  let code := resp_status_code response in
  let resp_bytes := response_to_bytes response in
  match state tx with
  | Trying =>
      if in_range 100 200 code then
        send_provisional resp_bytes (tx <| state := Proceeding |>)
      else if 200 <=? code then send_final resp_bytes tx
      else tx
  | Proceeding =>
      if in_range 100 200 code then send_provisional resp_bytes tx
      else if 200 <=? code then send_final resp_bytes tx
      else tx
  | _ => tx
  end.

Definition poll_actions (tx : NonInviteServerTransaction)
  : list Action * NonInviteServerTransaction := (actions tx, tx <| actions := [] |>).

Definition handle_transport_error (tx : NonInviteServerTransaction)
  : NonInviteServerTransaction :=
  match state tx with
  | Trying | Proceeding | Completed =>
      push (EventA TransportError) (tx <| state := Terminated |>)
  | Terminated => tx
  end.

(** ** The machine *)

Inductive Input : Type :=
| InTimeout (t : Timer.t)
| InRequest (r : Request)
| InRespond (r : Response)
| InTransportError.

#[export] Instance non_invite_server_timer_action : TimerAction Action := fun a =>
  match a with
  | SetTimer t _ => Arm t
  | CancelTimer t => Disarm t
  | _ => NoTimer
  end.

Definition handle_input (tx : NonInviteServerTransaction) (i : Input)
  : NonInviteServerTransaction :=
  match i with
  | InTimeout t => handle_timeout t tx
  | InRequest r => handle_request r tx
  | InRespond r => send_response r tx
  | InTransportError => handle_transport_error tx
  end.

#[export] Instance non_invite_server_machine
  : TxMachine NonInviteServerTransaction Input Action := {|
  handle := handle_input;
  drain := poll_actions;
  fired := fun i => match i with InTimeout t => Some t | _ => None end;
  terminated := is_terminated
|}.

(** The last message put on the wire. *)
Fixpoint last_sent (l : list Action) : option str :=
  match l with
  | [] => None
  | Send d :: l => match last_sent l with Some d' => Some d' | None => Some d end
  | _ :: l => last_sent l
  end.

(** ** Lemmas *)

Lemma last_sent_app a b :
  last_sent (a ++ b) = match last_sent b with Some d => Some d | None => last_sent a end.
Proof.
  induction a as [|[d|e|t d|t] a IH]; simpl; [by destruct (last_sent b)| |done|done|done].
  rewrite IH. by destruct (last_sent b).
Qed.

Lemma non_invite_server_new_spec req rel tx :
  new req rel = Some tx ->
  exists tid, from_request req = Some tid /\ req_method req <> Invite /\
  tx = mkTx tid Trying req None timer_default rel [EventA (Request_ req)].
Proof.
  unfold new. case_bool_decide as Hm; [done|].
  destruct (from_request req) as [tid|]; simpl; [|done].
  intros H. exists tid. split_and!; [done|done|]. by inv_res.
Qed.

(** Between polls the queue is empty, the buffered response is the last one put on
    the wire, and a completed transaction has Timer J armed. *)
Definition trace_inv (tr : list Action) (c : config NonInviteServerTransaction) : Prop :=
  actions c.1 = [] /\ timers c.1 = timer_default /\ last_response c.1 = last_sent tr /\
  match state c.1 with
  | Trying => last_response c.1 = None
  | Proceeding => is_some (last_response c.1) = true
  | Completed => is_some (last_response c.1) = true /\ Timer.J ∈ c.2
  | Terminated => True
  end.

Lemma non_invite_server_deliver tr tx armed i acts c' :
  trace_inv tr (tx, armed) -> deliver (tx, armed) i = (acts, c') ->
  trace_inv (tr ++ acts) c'.
Proof.
  intros (Ha & Ht & Hl & Hs) H. unfold deliver in H.
  destruct tx as [tid st rq lr tv rl ac]. simpl in *. subst. inv_res.
  unfold trace_inv. rewrite last_sent_app. simpl.
  destruct i as [t|r|r|]; simpl.
  - unfold handle_timeout. destruct st, t; simpl; split_and!; try done; set_solver.
  - unfold handle_request. destruct st; simpl; destruct (last_sent tr); simpl in *;
      split_and!; try done; unfold apply_op; simpl; set_solver.
  - unfold send_response, send_provisional, send_final, push.
    destruct st, rl; simpl in *; repeat case_match; simpl in *; simplify_eq;
      split_and!; try done; unfold apply_op; simpl; set_solver.
  - unfold handle_transport_error. destruct st; simpl in *; split_and!; try done.
Qed.

Lemma non_invite_server_reach_inv req rel tx tr c :
  new req rel = Some tx -> reach tx tr c -> trace_inv tr c.
Proof.
  intros (tid & _ & _ & ->)%non_invite_server_new_spec Hr.
  induction Hr as [acts c Hs|tr [tx armed] i acts c' Hr IH Hst].
  - unfold start in Hs. simpl in Hs. inv_res. done.
  - inversion Hst; subst. by eapply non_invite_server_deliver.
Qed.

(** ** Theorems *)

(** A retransmitted request is answered with exactly the bytes last put on the
    wire once a response was sent, is absorbed before that, and changes nothing
    else of the transaction. *)
Theorem non_invite_server_retransmission req rel tx tr c r :
  new req rel = Some tx -> reach tx tr c ->
  deliver c (InRequest r) =
    (match state c.1 with
     | Proceeding | Completed =>
         match last_sent tr with Some d => [Send d] | None => [] end
     | _ => []
     end, c) /\
  (state c.1 = Proceeding \/ state c.1 = Completed -> last_sent tr <> None).
Proof.
  intros Hn Hr. destruct (non_invite_server_reach_inv _ _ _ _ _ Hn Hr) as (Ha & _ & Hl & Hs).
  destruct c as [[tid st rq lr tv rl acts] armed]; simpl in *; subst.
  split; [|destruct st, (last_sent tr); naive_solver].
  unfold deliver; simpl; unfold handle_request; destruct st; simpl; try done;
    by destruct (last_sent tr).
Qed.

Lemma non_invite_server_retransmission_witness :
  exists tx, new (sample_request Bye) false = Some tx /\
    deliver (deliver (start tx).2 (InRespond (sample_response Bye 200))).2
      (InRequest (sample_request Bye))
    = ([Send (response_to_bytes (sample_response Bye 200))],
       (deliver (start tx).2 (InRespond (sample_response Bye 200))).2).
Proof.
  compute_some (new (sample_request Bye) false) as tx E.
  exists tx. split; [reflexivity|].
  pose proof (reach_next tx _ _ (InRespond (sample_response Bye 200)) (reach_first tx)) as R.
  specialize (R ltac:(intros t Ht; discriminate Ht)).
  rewrite (proj1 (non_invite_server_retransmission _ _ tx _ _ (sample_request Bye) E R)).
  clear R.
  f_equal. apply non_invite_server_new_spec in E as (? & _ & _ & ->).
  vm_compute. reflexivity.
Defined.

(** A final response ends the transaction's work: from every reachable state
    in which the TU may still answer, a response of class 2xx-6xx is put on the
    wire once and the transaction is either terminated at once (reliable
    transport) or completed with Timer J armed, whose firing terminates it; every
    later response of the TU is dropped. *)
Theorem non_invite_server_final req rel tx tr c r acts c' :
  new req rel = Some tx -> reach tx tr c ->
  state c.1 = Trying \/ state c.1 = Proceeding -> 200 <= resp_status_code r ->
  deliver c (InRespond r) = (acts, c') ->
  last_sent acts = Some (response_to_bytes r) /\
  (rel = true -> is_terminated c'.1 = true) /\
  (rel = false -> Timer.J ∈ c'.2 /\
     is_terminated (deliver c' (InTimeout Timer.J)).2.1 = true) /\
  forall r', deliver c' (InRespond r') = ([], c').
Proof.
  intros Hn Hr Hst Hc Hd.
  assert (reliable c.1 = rel) as Hrel.
  { eapply (reach_inv tx (fun c => reliable c.1 = rel)); [| |exact Hr].
    - apply non_invite_server_new_spec in Hn as (? & _ & _ & ->). unfold start. simpl.
      intros; by inv_res.
    - intros [tx0 ar] i ac c0 H Hs. inversion Hs as [? ? ? ? _ Hd']; subst.
      unfold deliver in Hd'. simpl in *. inv_res. simpl.
      destruct i; simpl; unfold handle_timeout, handle_request, send_response,
        send_provisional, send_final, handle_transport_error, push;
        repeat case_match; simpl; congruence. }
  destruct (non_invite_server_reach_inv _ _ _ _ _ Hn Hr) as (Ha & Ht & _ & _).
  destruct c as [[tid st rq lr tv rl ac] armed]; simpl in *; subst.
  unfold deliver in Hd; simpl in Hd; unfold send_response in Hd; simpl in Hd.
  replace (in_range 100 200 (resp_status_code r)) with false in Hd
    by (symmetry; apply in_range_false; lia).
  replace (200 <=? resp_status_code r) with true in Hd by (symmetry; lia).
  unfold send_final in Hd.
  destruct Hst as [-> | ->], rel; simpl in Hd; simplify_eq; simpl; split_and!; try done;
    intros; split_and!; try done; unfold apply_op; simpl; set_solver.
Qed.

Lemma non_invite_server_final_witness :
  exists tx, new (sample_request Register) false = Some tx /\
    is_terminated (deliver (deliver (start tx).2 (InRespond (sample_response Register 404))).2
      (InTimeout Timer.J)).2.1 = true.
Proof.
  compute_some (new (sample_request Register) false) as tx E.
  exists tx. split; [reflexivity|].
  assert (state (start tx).2.1 = Trying) as S.
  { pose proof E as E'. apply non_invite_server_new_spec in E' as (? & _ & _ & ->).
    reflexivity. }
  refine (proj2 (proj1 (proj2 (proj2 (non_invite_server_final _ _ tx _ (start tx).2
    (sample_response Register 404) _ _ E (Reach_start _ _ _ (surjective_pairing _))
    (or_introl S) _ (surjective_pairing _)))) eq_refl)).
  vm_compute. discriminate.
Defined.
