(* ===== verification/Stamp.v ===== *)
(** * Stamping a reliable provisional ([transaction/server/invite.rs])

    [stamp_reliable_headers] puts [Require: 100rel] and a fresh [RSeq] on a
    response the TU built (RFC 3262): the tags of all its [Require] lines are
    merged into one.  [None] is the panic of [expect] on a full header table. *)

From S2P Require Import Prelude RStr SipBase SipHeader SipUri SipTyped SipHeaders.
From S2P Require Import SipMessage SipBuild Sample.

Local Open Scope Z_scope.

(** [Require::parse(value).map(|p| p.0).unwrap_or_default()] *)
Definition tags_or_default (value : str) : list str :=
  match Require_.parse value with
  | Ok p => Require_.tags p
  | Err _ => []
  end.

Definition has_tag (tags : list str) (tag : str) : bool :=
  existsb (fun t => eq_ignore_ascii_case t tag) tags.

Definition merge_require_with_100rel (value : str) : str :=
  let tags := tags_or_default value in
  let tags := if negb (has_tag tags #"100rel") then tags ++ [ #"100rel"] else tags in
  join #", " tags.

(** [h.push(header).expect(..)] for each header in turn. *)
Fixpoint push_all (h : Headers.t) (l : list Header.t) : option Headers.t :=
  match l with
  | [] => Some h
  | header :: rest => let* h := rok (Headers.push h header) in push_all h rest
  end.

Definition is_require (h : Header.t) : bool :=
  match h with Header.Require _ => true | _ => false end.

(** [enumerate().rev().find_map(..)] *)
Fixpoint last_require_idx (l : list Header.t) : option nat :=
  match l with
  | [] => None
  | h :: rest =>
      match last_require_idx rest with
      | Some i => Some (S i)
      | None => if is_require h then Some O else None
      end
  end.

Definition add_tags (tags extra_tags : list str) : list str :=
  fold_left (fun tags tag => if has_tag tags tag then tags else tags ++ [tag])
    extra_tags tags.

Definition merge_into_last_require (headers : Headers.t) (extra_tags : list str)
  : option Headers.t :=
  let idx := last_require_idx headers in
  push_all Headers.new
    (imap (fun i header =>
       if bool_decide (Some i = idx) then
         match header with
         | Header.Require value =>
             Header.Require (join #", " (add_tags (tags_or_default value) extra_tags))
         | _ => header
         end
       else header) headers).

(** The value of a [Require] line, typed or not. *)
Definition require_value (h : Header.t) : option str :=
  match h with
  | Header.Require value => Some value
  | Header.Other key value =>
      if eq_ignore_ascii_case key #"Require" then Some value else None
  | _ => None
  end.

(** The loop over the existing headers. *)
Fixpoint stamp_loop (new_headers : Headers.t) (handled_require : bool) (existing : list Header.t)
  : option (Headers.t * bool) :=
  match existing with
  | [] => Some (new_headers, handled_require)
  | header :: rest =>
      match require_value header with
      | Some value =>
          if handled_require then
            let* new_headers :=
              match Require_.parse value with
              | Ok extra => merge_into_last_require new_headers (Require_.tags extra)
              | Err _ => Some new_headers
              end in
            stamp_loop new_headers handled_require rest
          else
            let merged := merge_require_with_100rel value in
            let* new_headers := rok (Headers.push new_headers (Header.Require merged)) in
            stamp_loop new_headers true rest
      | None =>
          let* new_headers := rok (Headers.push new_headers header) in
          stamp_loop new_headers handled_require rest
      end
  end.

Definition stamp_headers (existing : Headers.t) (rseq : Z) : option Headers.t :=
  let* (new_headers, handled_require) := stamp_loop Headers.new false existing in
  let* new_headers :=
    if negb handled_require
    then rok (Headers.push new_headers (Header.Require #"100rel"))
    else Some new_headers in
  rok (Headers.push new_headers (Header.Other #"RSeq" (dec rseq))).

Definition stamp_reliable_headers (response : Response) (rseq : Z) : option (Response * str) :=
  let* hs := stamp_headers (p_headers response) rseq in
  let response := response <| p_headers := hs |> in
  Some (response, response_to_bytes response).

(** ** Lemmas *)

Lemma rok_push hs h :
  rok (Headers.push hs h) =
    if bool_decide (Headers.len hs < MAX_HEADERS) then Some (hs ++ [h]) else None.
Proof. rewrite headers_push_spec. by case_bool_decide. Qed.

Lemma push_all_spec l hs :
  Headers.wf hs ->
  push_all hs l =
    if bool_decide (Z.of_nat (length (hs ++ l)) <= MAX_HEADERS) then Some (hs ++ l) else None.
Proof.
  unfold Headers.wf, Headers.len. revert hs. induction l as [|h l IH]; intros hs Hw.
  - simpl. rewrite app_nil_r, bool_decide_true by done. done.
  - cbn [push_all]. rewrite rok_push. unfold Headers.len.
    destruct (bool_decide_reflect (Z.of_nat (length hs) < MAX_HEADERS)) as [Hl|Hl];
      cbn [mbind option_bind].
    + rewrite IH by (rewrite length_app; simpl; lia). by rewrite <- app_assoc.
    + rewrite bool_decide_false; [done|]. rewrite length_app. simpl. lia.
Qed.

Lemma push_all_new l :
  Z.of_nat (length l) <= MAX_HEADERS -> push_all Headers.new l = Some l.
Proof.
  intros H. rewrite push_all_spec by apply headers_new_wf. simpl.
  by rewrite bool_decide_true.
Qed.

(** The header with the merged tags, when it is the [Require] entry. *)
Definition merge_at (l : list Header.t) (extra : list str) : list Header.t :=
  imap (fun i header =>
    if bool_decide (Some i = last_require_idx l) then
      match header with
      | Header.Require value =>
          Header.Require (join #", " (add_tags (tags_or_default value) extra))
      | _ => header
      end
    else header) l.

Lemma merge_into_last_require_total hs extra :
  Headers.wf hs -> merge_into_last_require hs extra = Some (merge_at hs extra).
Proof.
  intros Hw. unfold merge_into_last_require, merge_at. apply push_all_new.
  by rewrite length_imap.
Qed.

(** The only [Require] entry, in place. *)
Lemma last_require_idx_mid a v b :
  Forall (fun h => is_require h = false) b ->
  last_require_idx (a ++ Header.Require v :: b) = Some (length a).
Proof.
  intros Hb. assert (last_require_idx b = None) as Eb.
  { induction Hb as [|h b Hh _ IH]; [done|]. simpl. by rewrite IH, Hh. }
  induction a as [|h a IH]; simpl; [by rewrite Eb|by rewrite IH].
Qed.

Lemma merge_at_mid a v b extra :
  Forall (fun h => is_require h = false) b ->
  merge_at (a ++ Header.Require v :: b) extra =
    a ++ Header.Require (join #", " (add_tags (tags_or_default v) extra)) :: b.
Proof.
  intros Hb. unfold merge_at. rewrite last_require_idx_mid by done.
  rewrite imap_app. cbn [imap]. rewrite Nat.add_0_r, bool_decide_true by done. f_equal.
  - rewrite <- (list_fmap_id a) at 2. rewrite <- imap_const. apply imap_ext.
    intros i x Hi%lookup_lt_Some. rewrite bool_decide_false; [done|]. intros [=]; lia.
  - f_equal. rewrite <- (list_fmap_id b) at 2. rewrite <- imap_const. apply imap_ext.
    intros i x _. simpl. rewrite bool_decide_false; [done|]. intros [=]; lia.
Qed.

(** *** Option tags *)

(** A tag as [parse_option_tags] returns it. *)
Definition good_tag (t : str) : Prop :=
  t <> [] /\ ~ In ","%char t /\ trimmed t /\ to_ascii_lowercase t = t.

Lemma good_tag_100rel : good_tag #"100rel".
Proof.
  repeat split; [discriminate|].
  intros [H|[H|[H|[H|[H|[H|[]]]]]]]; discriminate H.
Qed.

Lemma parse_option_tags_good v ts :
  parse_option_tags v = Ok ts -> ts <> [] /\ Forall good_tag ts.
Proof.
  unfold parse_option_tags. intros H.
  assert (Forall good_tag (List.filter (fun t => negb (is_empty t))
    (map (fun t => to_ascii_lowercase (trim t)) (split ","%char v)))) as G.
  { apply Forall_forall. intros t Ht%list_elem_of_In.
    apply filter_In in Ht as [Ht Hne].
    apply in_map_iff in Ht as (p & <- & Hp).
    pose proof (split_pieces ","%char v) as Hs. rewrite List.Forall_forall in Hs.
    specialize (Hs p Hp). repeat split.
    - by destruct (to_ascii_lowercase (trim p)).
    - intros Hc. apply in_map_iff in Hc as (c & Hc%lower_comma & Hi). subst.
      by apply Hs, trim_sub.
    - by apply trimmed_lower, trim_trimmed.
    - by apply trimmed_lower, trim_trimmed.
    - apply lowercase_idem. }
  destruct (List.filter _ _); [done|]. inv_res. done.
Qed.

Lemma parse_option_tags_join ts :
  ts <> [] -> Forall good_tag ts -> parse_option_tags (join #", " ts) = Ok ts.
Proof.
  destruct ts as [|t ts]; [done|]. intros _ H. unfold parse_option_tags.
  change #", " with [","%char; " "%char].
  rewrite split_join_sp; [|discriminate|eapply Forall_impl; [exact H|]; by intros ? (? & ? & ?)].
  assert (map (fun t => to_ascii_lowercase (trim t)) (t :: map (cons " "%char) ts) = t :: ts)
    as ->.
  { inversion H as [|? ? (_ & _ & Htr & Hlo) Hts]; subst. simpl.
    rewrite trimmed_trim, Hlo by done. f_equal. rewrite map_map.
    rewrite <- (map_id ts) at 2. apply map_ext_in. intros u Hu%list_elem_of_In.
    rewrite Forall_forall in Hts. destruct (Hts u Hu) as (_ & _ & Htu & Hlu).
    by rewrite trim_space, trimmed_trim. }
  assert (forall l, Forall good_tag l -> List.filter (fun t => negb (is_empty t)) l = l) as F.
  { induction 1 as [|u l (Hu & _) _ IH]; [done|]. simpl. rewrite IH. by destruct u. }
  by rewrite F.
Qed.

Lemma tags_or_default_good v : Forall good_tag (tags_or_default v).
Proof.
  unfold tags_or_default, Require_.parse.
  destruct (parse_option_tags v) as [ts|] eqn:E; simpl; [|done].
  by apply parse_option_tags_good in E as [_ ?].
Qed.

Lemma tags_or_default_join ts :
  ts <> [] -> Forall good_tag ts -> tags_or_default (join #", " ts) = ts.
Proof.
  intros Hn Hg. unfold tags_or_default, Require_.parse. by rewrite parse_option_tags_join.
Qed.

(** On good tags, which are lower-case, the comparison is equality. *)
Lemma has_tag_good ts t :
  Forall good_tag ts -> good_tag t -> has_tag ts t = bool_decide (t ∈ ts).
Proof.
  intros Hts (_ & _ & _ & Ht). unfold has_tag. apply eq_true_iff_eq.
  rewrite existsb_exists, bool_decide_eq_true. split.
  - intros (u & Hu & E). rewrite <- list_elem_of_In in Hu.
    rewrite Forall_forall in Hts. destruct (Hts u Hu) as (_ & _ & _ & Hlu).
    unfold eq_ignore_ascii_case in E. apply eqb_true in E. congruence.
  - intros H. exists t. split; [by apply list_elem_of_In|apply eq_ignore_case_refl].
Qed.

Lemma add_tags_spec extra ts :
  Forall good_tag ts -> Forall good_tag extra ->
  Forall good_tag (add_tags ts extra) /\
  forall t, t ∈ add_tags ts extra <-> t ∈ ts \/ t ∈ extra.
Proof.
  revert ts. induction extra as [|e extra IH]; intros ts Hts He; unfold add_tags; simpl.
  - split; [done|]. set_solver.
  - inversion He as [|? ? Hge Hex]; subst. rewrite has_tag_good by done.
    destruct (bool_decide_reflect (e ∈ ts)) as [Hin|Hin].
    + destruct (IH ts Hts Hex) as [G M]. split; [done|]. intros t. rewrite M. set_solver.
    + destruct (IH (ts ++ [e])) as [G M]; [by apply Forall_app_2; [|constructor]|done|].
      split; [done|]. intros t. rewrite M. set_solver.
Qed.

(** *** The loop *)

Definition others (hs : list Header.t) : list Header.t :=
  List.filter (fun h => negb (is_some (require_value h))) hs.

Lemma require_tags_value h :
  require_tags h = match require_value h with Some v => tags_or_default v | None => [] end.
Proof. destruct h; try done. simpl. by destruct (eq_ignore_ascii_case _ _). Qed.

Lemma others_plain hs h : h ∈ others hs -> is_require h = false.
Proof.
  rewrite list_elem_of_In. intros [_ H]%filter_In. by destruct h.
Qed.

(** What the loop has built after the headers [ex]: the other headers in order,
    and one [Require] line, once one was met, with all tags so far and [100rel]. *)
Definition stamped (ex : list Header.t) (new : Headers.t) (handled : bool) : Prop :=
  (length new <= length ex)%nat /\
  if handled then
    exists a b ts, new = a ++ Header.Require (join #", " ts) :: b /\ a ++ b = others ex /\
      ts <> [] /\ Forall good_tag ts /\
      forall t, t ∈ ts <-> t = #"100rel" \/ t ∈ flat_map require_tags ex
  else new = others ex /\ flat_map require_tags ex = [].

Lemma others_app a b : others (a ++ b) = others a ++ others b.
Proof. apply List.filter_app. Qed.

Lemma stamped_other ex new handled h :
  require_value h = None -> stamped ex new handled ->
  stamped (ex ++ [h]) (new ++ [h]) handled.
Proof.
  intros Hv [Hl H]. split; [rewrite !length_app; simpl; lia|].
  assert (others (ex ++ [h]) = others ex ++ [h]) as Eo.
  { rewrite others_app. unfold others at 2. simpl. by rewrite Hv. }
  assert (flat_map require_tags (ex ++ [h]) = flat_map require_tags ex) as Et.
  { rewrite flat_map_app. simpl. rewrite require_tags_value, Hv. simpl. by rewrite app_nil_r. }
  rewrite Eo, Et. destruct handled.
  - destruct H as (a & b & ts & -> & Hab & H). exists a, (b ++ [h]), ts.
    split_and!; try apply H; [by rewrite <- app_assoc|]. by rewrite app_assoc, Hab.
  - destruct H as [-> H]. done.
Qed.

Lemma stamped_first ex new h v :
  require_value h = Some v -> stamped ex new false ->
  stamped (ex ++ [h]) (new ++ [Header.Require (merge_require_with_100rel v)]) true.
Proof.
  intros Hv [Hl [-> Ht]]. split; [rewrite !length_app; simpl; lia|].
  assert (others (ex ++ [h]) = others ex) as Eo.
  { rewrite others_app. unfold others at 2. simpl. rewrite Hv. apply app_nil_r. }
  rewrite Eo, flat_map_app, Ht. simpl. rewrite require_tags_value, Hv, app_nil_r.
  pose proof (tags_or_default_good v) as G. unfold merge_require_with_100rel.
  rewrite has_tag_good by eauto using good_tag_100rel.
  set (ts := tags_or_default v) in *.
  exists (others ex), [], (if negb (bool_decide (#"100rel" ∈ ts)) then ts ++ [ #"100rel"] else ts).
  destruct (bool_decide_reflect (#"100rel" ∈ ts)) as [Hi|Hi]; simpl negb; cbn iota;
    (split_and!; [done|apply app_nil_r| | |set_solver]).
  - intros E. rewrite E in Hi. set_solver.
  - done.
  - by destruct ts.
  - apply Forall_app_2; [done|]. constructor; [apply good_tag_100rel|done].
Qed.

Lemma stamped_more ex (new : Headers.t) h v :
  require_value h = Some v -> stamped ex new true -> Headers.wf new ->
  exists new' : Headers.t, match Require_.parse v with
      | Ok extra => merge_into_last_require new (Require_.tags extra)
      | Err _ => Some new
      end = Some new' /\ stamped (ex ++ [h]) new' true.
Proof.
  intros Hv [Hl (a & b & ts & -> & Hab & Hne & Hg & Hm)] Hwf.
  assert (others (ex ++ [h]) = others ex) as Eo.
  { rewrite others_app. unfold others at 2. simpl. rewrite Hv. apply app_nil_r. }
  assert (Forall (fun h => is_require h = false) b) as Hb.
  { apply Forall_forall. intros x Hx. apply (others_plain ex). rewrite <- Hab. set_solver. }
  assert (flat_map require_tags (ex ++ [h]) = flat_map require_tags ex ++ tags_or_default v)
    as Et.
  { rewrite flat_map_app. simpl. by rewrite require_tags_value, Hv, app_nil_r. }
  pose proof (tags_or_default_good v) as Gv.
  unfold tags_or_default in Et, Gv. unfold stamped. rewrite Eo, Et, length_app. simpl.
  destruct (Require_.parse v) as [extra|].
  - rewrite merge_into_last_require_total, merge_at_mid by done.
    eexists. split; [reflexivity|]. rewrite tags_or_default_join by done.
    destruct (add_tags_spec (Require_.tags extra) ts Hg Gv) as [G M].
    split; [rewrite length_app in *; simpl in *; lia|].
    exists a, b, (add_tags ts (Require_.tags extra)). split_and!; try done.
    + destruct ts as [|t ts]; [done|]. intros E. rewrite E in M.
      destruct (M t) as [_ M']. specialize (M' ltac:(set_solver)). set_solver.
    + intros t. rewrite M, Hm. set_solver.
  - exists (a ++ Header.Require (join #", " ts) :: b). split; [done|]. split; [lia|].
    exists a, b, ts. rewrite app_nil_r. done.
Qed.

Lemma stamp_loop_spec rest ex new handled :
  stamped ex new handled -> Z.of_nat (length (ex ++ rest)) <= MAX_HEADERS ->
  exists new' handled', stamp_loop new handled rest = Some (new', handled') /\
    stamped (ex ++ rest) new' handled'.
Proof.
  revert ex new handled. induction rest as [|h rest IH]; intros ex new handled Hs Hl.
  - rewrite app_nil_r. by exists new, handled.
  - replace (ex ++ h :: rest) with ((ex ++ [h]) ++ rest) in * by by rewrite <- app_assoc.
    assert (Headers.len new < MAX_HEADERS) as Hlt.
    { destruct Hs as [Hs _]. unfold Headers.len. rewrite !length_app in Hl. simpl in Hl. lia. }
    cbn [stamp_loop]. destruct (require_value h) as [v|] eqn:Hv.
    + destruct handled.
      * destruct (stamped_more ex new h v Hv Hs) as (new' & E & Hs');
          [unfold Headers.wf; lia|].
        rewrite E. cbn [mbind option_bind]. by apply IH.
      * rewrite rok_push, bool_decide_true by done. cbn [mbind option_bind].
        apply IH; [by apply stamped_first|done].
    + rewrite rok_push, bool_decide_true by done. cbn [mbind option_bind].
      apply IH; [by apply stamped_other|done].
Qed.

(** With room for two more headers the stamp does not panic, and its result is
    described without reference to the loop. *)
Lemma stamp_headers_spec hs n :
  Z.of_nat (length hs) + 2 <= MAX_HEADERS ->
  exists a b ts, stamp_headers hs n =
      Some (a ++ Header.Require (join #", " ts) :: b ++ [Header.Other #"RSeq" (dec n)]) /\
    a ++ b = others hs /\ ts <> [] /\ Forall good_tag ts /\
    forall t, t ∈ ts <-> t = #"100rel" \/ t ∈ flat_map require_tags hs.
Proof.
  intros Hl.
  destruct (stamp_loop_spec hs [] Headers.new false) as (new & handled & E & Hlen & Hs);
    [done|simpl; lia|].
  unfold stamp_headers. rewrite E. cbn [mbind option_bind].
  simpl app in Hlen, Hs. destruct handled; simpl negb; cbn iota.
  - destruct Hs as (a & b & ts & -> & Hs). exists a, b, ts.
    cbn [mbind option_bind]. rewrite rok_push, bool_decide_true by (unfold Headers.len; lia).
    by rewrite <- app_assoc.
  - destruct Hs as [-> Ht]. exists (others hs), [], [ #"100rel"].
    rewrite rok_push, bool_decide_true by (unfold Headers.len; lia). cbn [mbind option_bind].
    rewrite rok_push, bool_decide_true
      by (unfold Headers.len; rewrite length_app; simpl; lia).
    rewrite <- app_assoc, app_nil_r, Ht. split_and!; [done|done|done| |set_solver].
    constructor; [apply good_tag_100rel|done].
Qed.

Lemma find_require_mid a b ts :
  ts <> [] -> Forall good_tag ts ->
  Forall (fun h => require_value h = None) a -> Forall (fun h => require_value h = None) b ->
  find_require (a ++ Header.Require (join #", " ts) :: b) = Some (Require_.mk ts).
Proof.
  intros Hne Hg Ha Hb. unfold find_require.
  assert (forall l, Forall (fun h => require_value h = None) l ->
    flat_map require_tags l = []) as F.
  { induction 1 as [|h l Hh _ IH]; [done|]. simpl. by rewrite require_tags_value, Hh, IH. }
  rewrite flat_map_app. cbn [flat_map]. rewrite !F, require_tags_value, app_nil_r by done.
  simpl. rewrite tags_or_default_join by done. by destruct ts.
Qed.

Lemma first_of_none f (hs : Headers.t) : first_of f hs = None <-> omap f hs = [].
Proof. unfold first_of. by destruct (omap f hs). Qed.

Lemma omap_others {B} (f : Header.t -> option B) hs : omap f hs = [] -> omap f (others hs) = [].
Proof.
  unfold others. induction hs as [|h hs IH]; [done|]. simpl.
  destruct (f h) eqn:E; [done|]. intros H. destruct (negb _); simpl; [rewrite E|]; auto.
Qed.

Lemma others_no_require hs : Forall (fun h => require_value h = None) (others hs).
Proof.
  apply Forall_forall. intros h [_ H]%list_elem_of_In%filter_In.
  by destruct (require_value h).
Qed.

(** ** Theorems *)

(** C8: Stamping a reliable provisional is correct: given room for two more
    headers and no RSeq set by the TU, the stamp does not panic; the peer reads
    back exactly the given RSeq; it reads one set of required option tags, made of
    [100rel] and every tag the TU asked for; and every other header, the status
    line and the body stay as they were, in order. *)
Theorem stamp_reliable_headers_correct resp n :
  is_u32 n -> Headers.len (p_headers resp) + 2 <= MAX_HEADERS ->
  find_other_header (p_headers resp) #"RSeq" = None ->
  exists resp' ts, stamp_reliable_headers resp n = Some (resp', response_to_bytes resp') /\
    resp_rseq resp' = Some (RSeq.mk n) /\
    find_require (p_headers resp') = Some (Require_.mk ts) /\
    (forall t, t ∈ ts <-> t = #"100rel" \/ t ∈ flat_map require_tags (p_headers resp)) /\
    others (p_headers resp') = others (p_headers resp) ++ [Header.Other #"RSeq" (dec n)] /\
    p_status_code resp' = p_status_code resp /\ p_reason resp' = p_reason resp /\
    p_version resp' = p_version resp /\ p_body resp' = p_body resp.
Proof.
  intros Hn Hl Hr. destruct (stamp_headers_spec (p_headers resp) n Hl)
    as (a & b & ts & E & Hab & Hne & Hg & Hm).
  unfold stamp_reliable_headers. rewrite E. cbn [mbind option_bind].
  set (hs' := a ++ _) in *.
  eexists _, ts. split; [reflexivity|]. simpl.
  pose proof (others_no_require (p_headers resp)) as Ho. rewrite <- Hab in Ho.
  apply Forall_app in Ho as [Ha Hb].
  assert (others hs' = a ++ b ++ [Header.Other #"RSeq" (dec n)]) as Eo.
  { assert (forall l, Forall (fun h => require_value h = None) l -> others l = l) as F.
    { unfold others. induction 1 as [|h l Hh _ IH]; [done|]. simpl. by rewrite Hh, IH. }
    unfold hs'. rewrite others_app. unfold others at 2. simpl. fold (others (b ++ [Header.Other #"RSeq" (dec n)])).
    rewrite others_app, !F by done. done. }
  split_and!; try done.
  - assert (find_other_header hs' #"RSeq" = Some (dec n)) as Ef.
    { unfold hs'. unfold find_other_header in *.
      match type of Hr with first_of ?g _ = _ => set (f := g) in * end.
      apply first_of_none, omap_others in Hr.
      rewrite <- Hab, omap_app in Hr. apply app_eq_nil in Hr as [Hra Hrb].
      assert (f (Header.Other #"RSeq" (dec n)) = Some (dec n)) as Ef.
      { unfold f. rewrite trim_all_tok by (apply dec_tok; apply Hn). done. }
      unfold first_of. rewrite omap_app, Hra.
      change (head (omap f (b ++ [Header.Other #"RSeq" (dec n)])) = Some (dec n)).
      rewrite omap_app, Hrb. cbn [omap list_omap app]. by rewrite Ef. }
    unfold resp_rseq, hs_rseq. cbn [p_headers]. rewrite Ef. cbn [mbind option_bind].
    unfold RSeq.parse. rewrite trim_all_tok by (apply dec_tok; apply Hn).
    unfold in_width in Hn. rewrite parse_dec by (unfold u32_max; lia). done.
  - apply find_require_mid; try done. by apply Forall_app_2; [|constructor].
  - by rewrite Eo, <- Hab, app_assoc.
Qed.

Lemma stamp_reliable_headers_correct_witness :
  exists resp' (ts : list str),
    stamp_reliable_headers (sample_response Invite 183) 1 = Some (resp', response_to_bytes resp') /\
    resp_rseq resp' = Some (RSeq.mk 1) /\ #"100rel" ∈ ts.
Proof.
  destruct (stamp_reliable_headers_correct (sample_response Invite 183) 1)
    as (resp' & ts & E & R & _ & T & _);
    [vm_compute; split; [discriminate|reflexivity]|vm_compute; discriminate
    |vm_compute; reflexivity|].
  exists resp', ts. split; [exact E|]. split; [exact R|]. apply T. by left.
Defined.
