(* ===== verification/InviteServer.v ===== *)
(** * INVITE server transaction ([transaction/server/invite.rs])

    The state machine of RFC 3261 17.2.1 together with the reliable provisionals
    of RFC 3262.  [debug_assert!] is a no-op, as in a release build. *)

From Stdlib Require Import Sorted.
From S2P Require Import Prelude RStr SipBase SipHeader SipHeaders SipMessage SipBuild.
From S2P Require Import Sample TxTimer TxMachine InviteClient Stamp.

Local Open Scope Z_scope.

Inductive State : Type := Proceeding | Completed | Confirmed | Terminated.

#[export] Instance State_eq_dec : EqDecision State.
Proof. solve_decision. Defined.

(** [FinalSent] of the source. *)
Inductive FinalSent : Type := FinalNone | NonTwoXx | TwoXx.

#[export] Instance FinalSent_eq_dec : EqDecision FinalSent.
Proof. solve_decision. Defined.

Inductive Event : Type :=
| Request_ (r : Request)
| AckReceived
| PrackReceived (rseq : Z)
| PrackTimeout (rseq : Z) (final_sent : FinalSent)
| Timeout
| TransportError.

Inductive Action : Type :=
| Send (data : str)
| EventA (e : Event)
| SetTimer (t : Timer.t) (d : Duration)
| CancelTimer (t : Timer.t).

Record ReliableProvisional : Type := mkRel {
  rseq : Z;
  bytes : str;
  next_fire_after : Duration;
  next_interval : Duration;
  elapsed : Duration;
  abandon_at : Duration
}.

#[export] Instance rel_eta : Settable ReliableProvisional := fun x =>
  mkRel (rseq x) (bytes x) (next_fire_after x) (next_interval x) (elapsed x) (abandon_at x).

Record InviteServerTransaction : Type := mkTx {
  id : TransactionId;
  state : State;
  request : Request;
  last_response : option str;
  timers : TimerValues;
  reliable : bool;
  retransmit_interval : Duration;
  actions : list Action;
  next_rseq : Z;
  reliable_provisionals : list ReliableProvisional;
  final_sent : FinalSent
}.

#[export] Instance tx_eta : Settable InviteServerTransaction := fun x =>
  mkTx (id x) (state x) (request x) (last_response x) (timers x) (reliable x)
    (retransmit_interval x) (actions x) (next_rseq x) (reliable_provisionals x) (final_sent x).

Definition push (a : Action) (tx : InviteServerTransaction) : InviteServerTransaction :=
  tx <| actions := actions tx ++ [a] |>.

Definition is_terminated (tx : InviteServerTransaction) : bool :=
  bool_decide (state tx = Terminated).

Definition new (request : Request) (reliable : bool) : option InviteServerTransaction :=
  if negb (bool_decide (req_method request = Invite)) then None else
  let* id := from_request request in
  let timers := timer_default in
  let tx := mkTx id Proceeding request None timers reliable (timer_g timers) [] 1 [] FinalNone in
  Some (push (EventA (Request_ request)) tx).

Definition matches_invite_dialog (tx : InviteServerTransaction) (call_id from_tag : str) : bool :=
  match req_call_id (request tx), req_from_tag (request tx) with
  | Ok req_call_id, Ok req_from_tag => eqb req_call_id call_id && eqb req_from_tag from_tag
  | _, _ => false
  end.

(** The minimum of the remaining times; [None] on an empty buffer. *)
Definition min_fire (l : list ReliableProvisional) : option Duration :=
  match map next_fire_after l with
  | [] => None
  | d :: ds => Some (fold_left Z.min ds d)
  end.

(** One entry on a tick of length [due_in]: the entry, what it sends, and
    whether it is abandoned. *)
Definition tick_entry (tv : TimerValues) (due_in : Duration) (entry : ReliableProvisional)
  : ReliableProvisional * list Action * list Z :=
  let entry := entry <| next_fire_after := saturating_sub (next_fire_after entry) due_in |> in
  if negb (is_zero (next_fire_after entry)) then (entry, [], []) else
  let entry := entry <| elapsed := saturating_add (elapsed entry) (next_interval entry) |> in
  if abandon_at entry <=? elapsed entry then (entry, [], [rseq entry]) else
  let entry' := entry <| next_interval := Z.min (next_interval entry * 2) (t2 tv) |> in
  (entry' <| next_fire_after := next_interval entry' |>, [Send (bytes entry)], []).

(** The loop over the buffer, in order. *)
Fixpoint tick_all (tv : TimerValues) (due_in : Duration) (l : list ReliableProvisional)
  : list ReliableProvisional * list Action * list Z :=
  match l with
  | [] => ([], [], [])
  | entry :: rest =>
      let '(e, a, x) := tick_entry tv due_in entry in
      let '(es, acts, xs) := tick_all tv due_in rest in
      (e :: es, a ++ acts, x ++ xs)
  end.

Definition push_list (l : list Action) (tx : InviteServerTransaction) : InviteServerTransaction :=
  tx <| actions := actions tx ++ l |>.

Definition fire_timer_n (tx : InviteServerTransaction) : InviteServerTransaction :=
  match min_fire (reliable_provisionals tx) with
  | None => tx
  | Some due_in =>
      let '(entries, sends, to_abandon) :=
        tick_all (timers tx) due_in (reliable_provisionals tx) in
      let tx := push_list sends tx in
      let entries :=
        List.filter (fun e => negb (bool_decide (rseq e ∈ to_abandon))) entries in
      let tx := tx <| reliable_provisionals := entries |> in
      let tx := push_list
        (map (fun n => EventA (PrackTimeout n (final_sent tx))) to_abandon) tx in
      match min_fire entries with
      | Some next => push (SetTimer Timer.N next) tx
      | None => tx
      end
  end.

Definition handle_timeout (timer : Timer.t) (tx : InviteServerTransaction)
  : InviteServerTransaction :=
  match state tx, timer with
  | Completed, Timer.G =>
      let tx := match last_response tx with
                | Some resp => push (Send resp) tx
                | None => tx
                end in
      let tx := tx <| retransmit_interval :=
                        next_retransmit (timers tx) (retransmit_interval tx) |> in
      push (SetTimer Timer.G (retransmit_interval tx)) tx
  | Completed, Timer.H => push (EventA Timeout) (tx <| state := Terminated |>)
  | Confirmed, Timer.I => tx <| state := Terminated |>
  | _, Timer.N => fire_timer_n tx
  | _, _ => tx
  end.

Definition drain_reliable_provisionals (tx : InviteServerTransaction) : InviteServerTransaction :=
  match reliable_provisionals tx with
  | [] => tx
  | _ => push (CancelTimer Timer.N) (tx <| reliable_provisionals := [] |>)
  end.

Definition resend (tx : InviteServerTransaction) : InviteServerTransaction :=
  match last_response tx with
  | Some resp => push (Send resp) tx
  | None => tx
  end.

Definition handle_request (request : Request) (tx : InviteServerTransaction)
  : InviteServerTransaction :=
  match state tx with
  | Proceeding => if bool_decide (req_method request = Invite) then resend tx else tx
  | Completed =>
      if bool_decide (req_method request = Invite) then resend tx
      else if bool_decide (req_method request = Ack) then
        let tx := tx <| state := Confirmed |> in
        let tx := if negb (reliable tx) then push (CancelTimer Timer.G) tx else tx in
        let tx := push (CancelTimer Timer.H) tx in
        let tx := push (EventA AckReceived) tx in
        let timer_i := if reliable tx then dur_zero else timer_i (timers tx) in
        if is_zero timer_i then tx <| state := Terminated |>
        else push (SetTimer Timer.I timer_i) tx
      else tx
  | Confirmed => tx
  | Terminated => tx
  end.

Definition send_response (response : Response) (tx : InviteServerTransaction)
  : InviteServerTransaction :=
  let code := resp_status_code response in
  let resp_bytes := response_to_bytes response in
  match state tx with
  | Proceeding =>
      if in_range 100 200 code then
        push (Send resp_bytes) (tx <| last_response := Some resp_bytes |>)
      else if in_range 200 300 code then
        let tx := tx <| final_sent := TwoXx |> in
        let tx := drain_reliable_provisionals tx in
        let tx := tx <| state := Terminated |> in
        push (Send resp_bytes) tx
      else if 300 <=? code then
        let tx := tx <| final_sent := NonTwoXx |> in
        let tx := drain_reliable_provisionals tx in
        let tx := tx <| state := Completed |> in
        let tx := tx <| last_response := Some resp_bytes |> in
        let tx := push (Send resp_bytes) tx in
        let tx := if negb (reliable tx)
                  then push (SetTimer Timer.G (retransmit_interval tx)) tx else tx in
        push (SetTimer Timer.H (timer_h (timers tx))) tx
      else tx
  | _ => tx
  end.

(** [None] is the panic of [expect]: the RSeq space or the header table is full. *)
Definition send_provisional_reliable (response : Response) (tx : InviteServerTransaction)
  : option InviteServerTransaction :=
  if negb (bool_decide (state tx = Proceeding)) then Some tx else
  let n := next_rseq tx in
  if u32_max <? n + 1 then None else
  let tx := tx <| next_rseq := n + 1 |> in
  let* (_, stamped) := stamp_reliable_headers response n in
  let was_empty := match reliable_provisionals tx with [] => true | _ => false end in
  let entry := mkRel n stamped (t1 (timers tx)) (t1 (timers tx)) dur_zero
                 (t1 (timers tx) * 64) in
  let tx := tx <| reliable_provisionals := reliable_provisionals tx ++ [entry] |> in
  let tx := tx <| last_response := Some stamped |> in
  let tx := push (Send stamped) tx in
  Some (if was_empty then push (SetTimer Timer.N (t1 (timers tx))) tx else tx).

Definition handle_prack_received (n : Z) (tx : InviteServerTransaction)
  : InviteServerTransaction :=
  let before := length (reliable_provisionals tx) in
  let kept := List.filter (fun e => negb (rseq e =? n)) (reliable_provisionals tx) in
  let tx := tx <| reliable_provisionals := kept |> in
  if bool_decide (length kept = before) then tx
  else match kept with
       | [] => push (CancelTimer Timer.N) tx
       | _ =>
           let next := default (t1 (timers tx)) (min_fire kept) in
           let tx := push (CancelTimer Timer.N) tx in
           push (SetTimer Timer.N next) tx
       end.

Definition handle_event (event : Event) (tx : InviteServerTransaction)
  : InviteServerTransaction :=
  match event with
  | PrackReceived n => handle_prack_received n tx
  | _ => tx
  end.

Definition poll_actions (tx : InviteServerTransaction)
  : list Action * InviteServerTransaction := (actions tx, tx <| actions := [] |>).

Definition handle_transport_error (tx : InviteServerTransaction) : InviteServerTransaction :=
  match state tx with
  | Proceeding | Completed => push (EventA TransportError) (tx <| state := Terminated |>)
  | _ => tx
  end.

(** ** The machine

    A reliable provisional whose sending panics takes the endpoint down; the
    machine then keeps the transaction it had, and [reliable_no_panic] below says
    when this cannot happen. *)
Inductive Input : Type :=
| InTimeout (t : Timer.t)
| InRequest (r : Request)
| InRespond (r : Response)
| InReliable (r : Response)
| InEvent (e : Event)
| InTransportError.

#[export] Instance invite_server_timer_action : TimerAction Action := fun a =>
  match a with
  | SetTimer t _ => Arm t
  | CancelTimer t => Disarm t
  | _ => NoTimer
  end.

Definition handle_input (tx : InviteServerTransaction) (i : Input) : InviteServerTransaction :=
  match i with
  | InTimeout t => handle_timeout t tx
  | InRequest r => handle_request r tx
  | InRespond r => send_response r tx
  | InReliable r => default tx (send_provisional_reliable r tx)
  | InEvent e => handle_event e tx
  | InTransportError => handle_transport_error tx
  end.

#[export] Instance invite_server_machine
  : TxMachine InviteServerTransaction Input Action := {|
  handle := handle_input;
  drain := poll_actions;
  fired := fun i => match i with InTimeout t => Some t | _ => None end;
  terminated := is_terminated
|}.

(** ** Lemmas *)

(** *** The buffer of reliable provisionals *)

(** What a tick leaves of an entry: nothing when it is abandoned. *)
Definition tick_keep (tv : TimerValues) (due_in : Duration) (e : ReliableProvisional)
  : option ReliableProvisional :=
  let '(e', _, x) := tick_entry tv due_in e in
  match x with [] => Some e' | _ => None end.

Lemma tick_entry_rseq tv d e e' a x :
  tick_entry tv d e = (e', a, x) -> rseq e' = rseq e /\ (x = [] \/ x = [rseq e]).
Proof.
  unfold tick_entry. intros Ht. repeat case_match; inv_res; simpl; auto.
Qed.

Lemma tick_keep_rseq tv d e e' : tick_keep tv d e = Some e' -> rseq e' = rseq e.
Proof.
  unfold tick_keep. destruct (tick_entry tv d e) as [[e0 a] x] eqn:E.
  apply tick_entry_rseq in E as [E _]. destruct x; intros; inv_res. done.
Qed.

Lemma tick_all_abandoned tv d l es acts xs :
  tick_all tv d l = (es, acts, xs) -> forall n, n ∈ xs -> n ∈ map rseq l.
Proof.
  revert es acts xs. induction l as [|e l IH]; intros es acts xs H; simpl in H;
    [inv_res; by intros n ?%not_elem_of_nil|].
  destruct (tick_entry tv d e) as [[e0 a] x] eqn:E.
  destruct (tick_all tv d l) as [[es0 acts0] xs0] eqn:El. inv_res. simpl.
  apply tick_entry_rseq in E as [_ Hx]. specialize (IH _ _ _ eq_refl).
  intros n [Hn|Hn]%elem_of_app; [|by right; apply IH].
  destruct Hx as [-> | ->]; [by apply not_elem_of_nil in Hn|].
  apply list_elem_of_singleton in Hn as ->. by left.
Qed.

(** With distinct sequence numbers, [retain] drops exactly the abandoned. *)
Lemma tick_all_kept tv d l ys es acts xs :
  NoDup (map rseq l) -> (forall n, n ∈ ys -> n ∉ map rseq l) ->
  tick_all tv d l = (es, acts, xs) ->
  List.filter (fun e => negb (bool_decide (rseq e ∈ ys ++ xs))) es = omap (tick_keep tv d) l.
Proof.
  revert ys es acts xs. induction l as [|e l IH]; intros ys es acts xs Hd Hy H;
    simpl in H; [by inv_res|].
  destruct (tick_entry tv d e) as [[e0 a] x] eqn:E.
  destruct (tick_all tv d l) as [[es0 acts0] xs0] eqn:El. inv_res.
  simpl in Hd, Hy. apply NoDup_cons in Hd as [Hn Hd].
  pose proof (tick_all_abandoned _ _ _ _ _ _ El) as Hx.
  simpl. unfold tick_keep at 1. rewrite E. apply tick_entry_rseq in E as [Er [-> | ->]].
  - simpl. rewrite bool_decide_false.
    + simpl. f_equal. eapply IH; [done|set_solver|done].
    + rewrite Er, elem_of_app. intros [?|?]; [set_solver|]. by apply Hn, Hx.
  - rewrite (app_assoc ys [rseq e] xs0), bool_decide_true by (rewrite Er; set_solver).
    simpl. eapply IH; [done|set_solver|done].
Qed.

Lemma omap_map_sorted (keep : ReliableProvisional -> option ReliableProvisional) l :
  (forall e e', keep e = Some e' -> rseq e' = rseq e) ->
  StronglySorted Z.lt (map rseq l) -> StronglySorted Z.lt (map rseq (omap keep l)) /\
  (forall n, n ∈ map rseq (omap keep l) -> n ∈ map rseq l).
Proof.
  intros Hk. induction l as [|e l IH]; intros H; [by split; [constructor|]|].
  inversion H as [|? ? Hl He]; subst. destruct (IH Hl) as [Hs Hsub]. simpl.
  destruct (keep e) as [e'|] eqn:E; simpl.
  - rewrite (Hk _ _ E). split.
    + constructor; [done|]. rewrite Forall_forall in He. apply Forall_forall.
      intros n Hn. by apply He, Hsub.
    + set_solver.
  - split; [done|set_solver].
Qed.

Lemma sorted_nodup l : StronglySorted Z.lt l -> NoDup l.
Proof.
  induction 1 as [|x l _ IH Hx]; [constructor|]. constructor; [|done].
  intros Hin. rewrite Forall_forall in Hx. specialize (Hx _ Hin). lia.
Qed.

Lemma filter_omap {A} (p : A -> bool) l :
  List.filter p l = omap (fun x => if p x then Some x else None) l.
Proof. induction l as [|x l IH]; [done|]. simpl. rewrite IH. by destruct (p x). Qed.

Lemma min_fire_spec l d :
  min_fire l = Some d ->
  (exists e, e ∈ l /\ next_fire_after e = d) /\ Forall (fun e => d <= next_fire_after e) l.
Proof.
  unfold min_fire. destruct l as [|e l]; [done|]. simpl. intros H. injection H as <-.
  assert (forall l m,
    (fold_left Z.min l m = m \/ fold_left Z.min l m ∈ l) /\ fold_left Z.min l m <= m /\
    Forall (fun x => fold_left Z.min l m <= x) l) as F.
  { clear. induction l as [|x l IH]; intros m; simpl.
    - split_and!; [by left|lia|done].
    - destruct (IH (Z.min m x)) as (Hm & Hle & Hall).
      split_and!; [|lia|constructor; [lia|done]].
      destruct Hm as [Hm|Hm]; [|set_solver].
      destruct (Z.min_spec m x) as [[_ E]|[_ E]]; rewrite E in *; [by left|].
      right. rewrite Hm. set_solver. }
  destruct (F (map next_fire_after l) (next_fire_after e)) as (Hm & Hle & Hall). split.
  - destruct Hm as [Hm|Hm]; [exists e; split; [set_solver|done]|].
    apply list_elem_of_In, in_map_iff in Hm as (x & Hx & Hin). exists x.
    split; [|done]. apply list_elem_of_In in Hin. set_solver.
  - constructor; [done|]. by rewrite List.Forall_map in Hall.
Qed.

Lemma min_fire_none l : min_fire l = None <-> l = [].
Proof. by destruct l. Qed.

(** An entry on its schedule, under the default timers. *)
Record entry_ok (next : Z) (e : ReliableProvisional) : Prop := {
  ok_rseq : 1 <= rseq e < next;
  ok_fire : 0 < next_fire_after e;
  ok_interval : t1 timer_default <= next_interval e <= t2 timer_default;
  ok_elapsed : 0 <= elapsed e < abandon_at e;
  ok_abandon : abandon_at e = t1 timer_default * 64
}.

Lemma entry_ok_mono n m e : n <= m -> entry_ok n e -> entry_ok m e.
Proof. intros H []. constructor; try done; lia. Qed.

(** One tick of an entry on its schedule: it waits, it is abandoned, or it is sent
    again and moved forward by at least T1. *)
Inductive ticked (d : Duration) (e : ReliableProvisional)
  : ReliableProvisional * list Action * list Z -> Prop :=
| Ticked_wait e' : d < next_fire_after e -> elapsed e' = elapsed e ->
    (forall n, entry_ok n e -> entry_ok n e') -> ticked d e (e', [], [])
| Ticked_abandon e' : next_fire_after e <= d -> ticked d e (e', [], [rseq e])
| Ticked_resend e' : next_fire_after e <= d -> elapsed e + t1 timer_default <= elapsed e' ->
    (forall n, entry_ok n e -> entry_ok n e') -> ticked d e (e', [Send (bytes e)], []).

Lemma tick_entryP d e :
  entry_ok (rseq e + 1) e -> 0 < d -> ticked d e (tick_entry timer_default d e).
Proof.
  intros [Hr Hf Hi He Ha] Hd. unfold tick_entry, is_zero, saturating_sub. simpl.
  pose proof default_timers_positive as (Ht1 & Ht12 & _).
  destruct (Z.eqb_spec (Z.max 0 (next_fire_after e - d)) 0) as [Hz|Hz]; simpl.
  - assert (saturating_add (elapsed e) (next_interval e) = elapsed e + next_interval e) as Es.
    { unfold saturating_add. apply Z.min_r. revert Hi He. rewrite Ha.
      change (t1 timer_default) with 500000000. change (t2 timer_default) with 4000000000.
      change DURATION_MAX with 18446744073709551615999999999. lia. }
    rewrite Es. destruct (Z.leb_spec (abandon_at e) (elapsed e + next_interval e)).
    + apply Ticked_abandon. lia.
    + apply Ticked_resend; [lia|simpl in *; lia|].
      intros n []. constructor; simpl in *; try done; lia.
  - apply Ticked_wait; [lia|done|]. intros n []. constructor; simpl in *; try done; lia.
Qed.

Lemma tick_keep_ok n d e e' :
  entry_ok n e -> 0 < d -> tick_keep timer_default d e = Some e' -> entry_ok n e'.
Proof.
  intros Hok Hd. unfold tick_keep.
  assert (entry_ok (rseq e + 1) e) as Hok' by (destruct Hok; constructor; done || lia).
  destruct (tick_entryP d e Hok' Hd); intros; inv_res; auto.
Qed.

(** A tick in normal form. *)
Lemma fire_timer_n_spec tx n :
  timers tx = timer_default -> StronglySorted Z.lt (map rseq (reliable_provisionals tx)) ->
  Forall (entry_ok n) (reliable_provisionals tx) ->
  match min_fire (reliable_provisionals tx) with
  | None => fire_timer_n tx = tx
  | Some d => 0 < d /\ exists sends xs,
      let kept := omap (tick_keep timer_default d) (reliable_provisionals tx) in
      Forall (fun a => exists b, a = Send b) sends /\
      (forall m, m ∈ xs -> m ∈ map rseq (reliable_provisionals tx)) /\
      fire_timer_n tx =
        tx <| actions := actions tx ++ sends ++
                map (fun n => EventA (PrackTimeout n (final_sent tx))) xs ++
                match min_fire kept with Some t => [SetTimer Timer.N t] | None => [] end |>
           <| reliable_provisionals := kept |>
  end.
Proof.
  intros Ht Hs Hok. unfold fire_timer_n. destruct (min_fire _) as [d|] eqn:Em; [|done].
  apply min_fire_spec in Em as [(e & He & <-) _]. rewrite Forall_forall in Hok.
  split; [by destruct (Hok e He)|]. rewrite Ht.
  destruct (tick_all _ _ _) as [[es acts] xs] eqn:E. exists acts, xs.
  pose proof (tick_all_kept _ _ _ [] _ _ _ (sorted_nodup _ Hs) ltac:(set_solver) E) as Hk.
  simpl in Hk. simpl. split_and!.
  - clear Hk. revert es xs E. generalize (next_fire_after e). clear.
    intros d. revert acts. induction (reliable_provisionals tx) as [|x l IH];
      intros acts es xs E; simpl in E; [by inv_res|].
    destruct (tick_entry _ _ x) as [[e0 a] x0] eqn:E0.
    destruct (tick_all _ _ l) as [[es0 a0] xs0] eqn:El. inv_res.
    apply Forall_app_2; [|by eapply IH]. unfold tick_entry in E0.
    repeat case_match; inv_res; repeat constructor. by eexists.
  - by eapply tick_all_abandoned.
  - rewrite Hk. destruct tx as [i s r lr tv rl ri ac nr rp fs]; simpl.
    destruct (min_fire _); unfold push, push_list; simpl; rewrite <- ?app_assoc; [done|].
    by rewrite app_nil_r.
Qed.

(** *** The invariant *)

Definition rseqs (tx : InviteServerTransaction) : list Z := map rseq (reliable_provisionals tx).

(** The buffer: fresh, strictly increasing sequence numbers, every entry on its
    schedule. *)
Record buf_inv (tx : InviteServerTransaction) : Prop := {
  buf_timers : timers tx = timer_default;
  buf_next : 1 <= next_rseq tx <= u32_max;
  buf_ok : Forall (entry_ok (next_rseq tx)) (reliable_provisionals tx);
  buf_sorted : StronglySorted Z.lt (rseqs tx)
}.

(** Between polls: an empty queue; a non-empty buffer has Timer N armed and no
    final response behind it; a state that waits for its end has the timer that
    brings it. *)
Record srv_inv (c : config InviteServerTransaction) : Prop := {
  srv_queue : actions c.1 = [];
  srv_buf : buf_inv c.1;
  srv_armed : reliable_provisionals c.1 <> [] -> Timer.N ∈ c.2 /\ final_sent c.1 = FinalNone;
  srv_state :
    match state c.1 with
    | Proceeding => final_sent c.1 = FinalNone
    | Completed => reliable_provisionals c.1 = [] /\ Timer.H ∈ c.2 /\
        (reliable c.1 = false -> Timer.G ∈ c.2) /\ is_some (last_response c.1) = true
    | Confirmed => reliable_provisionals c.1 = [] /\ Timer.I ∈ c.2
    | Terminated => True
    end
}.

(** What a handler call may do to the buffer, and which abandonments it reports. *)
Record evolves (tx tx' : InviteServerTransaction) (acts : list Action) : Prop := {
  ev_next : next_rseq tx <= next_rseq tx';
  ev_new : forall n, n ∈ rseqs tx' -> n ∈ rseqs tx \/ next_rseq tx <= n;
  ev_reports : Forall (fun a =>
    match a with
    | EventA (PrackTimeout n fs) => fs = final_sent tx /\ n ∈ rseqs tx
    | _ => True
    end) acts
}.

Definition step_ok (c : config InviteServerTransaction) (i : Input) : Prop :=
  let '(acts, c') := deliver c i in srv_inv c' /\ evolves c.1 c'.1 acts.

Lemma buf_inv_same tx tx' :
  buf_inv tx -> timers tx' = timers tx -> next_rseq tx' = next_rseq tx ->
  reliable_provisionals tx' = reliable_provisionals tx -> buf_inv tx'.
Proof. intros [] Ht Hn Hr. constructor; unfold rseqs in *; by rewrite ?Ht, ?Hn, ?Hr. Qed.

Lemma buf_inv_empty tx tx' :
  buf_inv tx -> timers tx' = timers tx -> next_rseq tx' = next_rseq tx ->
  reliable_provisionals tx' = [] -> buf_inv tx'.
Proof.
  intros [] Ht Hn Hr. constructor; unfold rseqs in *; rewrite ?Ht, ?Hn, ?Hr; try done.
  constructor.
Qed.

(** A handler that keeps the buffer or empties it, and reports nothing. *)
Lemma evolves_plain tx tx' acts :
  next_rseq tx' = next_rseq tx ->
  reliable_provisionals tx' = reliable_provisionals tx \/ reliable_provisionals tx' = [] ->
  Forall (fun a => match a with EventA (PrackTimeout _ _) => False | _ => True end) acts ->
  evolves tx tx' acts.
Proof.
  intros Hn Hr Ha. constructor.
  - lia.
  - intros n. unfold rseqs. destruct Hr as [-> | ->]; [by left|by intros ?%not_elem_of_nil].
  - eapply Forall_impl; [exact Ha|]. by intros [|[]| |].
Qed.

Lemma step_ok_timer_n tx armed :
  srv_inv (tx, armed) -> Timer.N ∈ armed -> step_ok (tx, armed) (InTimeout Timer.N).
Proof.
  intros [Ha [Ht Hn Hok Hs] Har Hst] HN. simpl in *.
  pose proof (fire_timer_n_spec tx _ Ht Hs Hok) as F.
  assert (handle_timeout Timer.N tx = fire_timer_n tx) as Eh
    by (unfold handle_timeout; by destruct (state tx)).
  unfold step_ok, deliver. simpl. rewrite Eh.
  destruct (min_fire (reliable_provisionals tx)) as [d|] eqn:Em.
  - destruct F as (Hd & sends & xs & Hse & Hxs & ->). simpl. rewrite Ha. simpl.
    set (kept := omap (tick_keep timer_default d) (reliable_provisionals tx)).
    destruct (omap_map_sorted (tick_keep timer_default d) (reliable_provisionals tx))
      as [Hso Hsub]; [apply tick_keep_rseq|done|].
    assert (reliable_provisionals tx <> []) as Hne by (intros E; by rewrite E in Em).
    destruct (Har Hne) as [_ Hfs].
    split.
    + constructor; simpl; [done| | |by destruct (state tx); intuition congruence].
      * constructor; simpl; try done. apply Forall_forall. intros e He.
        apply list_elem_of_omap in He as (e0 & He0 & Hk). rewrite Forall_forall in Hok.
        eapply tick_keep_ok; eauto.
      * intros Hk. split; [|done]. unfold apply_ops. rewrite !foldl_app.
        destruct (min_fire kept) eqn:Emk; [|by apply min_fire_none in Emk].
        simpl. unfold apply_op at 1. simpl. set_solver.
    + constructor; simpl; [lia|by left; apply Hsub|].
      rewrite !Forall_app. split_and!.
      * eapply Forall_impl; [exact Hse|]. by intros a [b ->].
      * apply List.Forall_map, List.Forall_forall. intros m Hm%list_elem_of_In.
        split; [done|]. by apply Hxs.
      * destruct (min_fire kept); repeat constructor.
  - apply min_fire_none in Em. rewrite F. split.
    + constructor; simpl; [done|by apply (buf_inv_same tx)|by rewrite Em|].
      destruct (state tx); [done| | |done]; rewrite ?Ha; simpl; set_solver.
    + rewrite Ha. by apply evolves_plain; [|left|].
Qed.

Lemma step_ok_timer tx armed t :
  srv_inv (tx, armed) -> t ∈ armed -> step_ok (tx, armed) (InTimeout t).
Proof.
  intros Hi Ht. destruct (decide (t = Timer.N)) as [->|Hne]; [by apply step_ok_timer_n|].
  destruct Hi as [Ha Hb Har Hst]. unfold step_ok, deliver. simpl in *.
  destruct tx as [tid st rq lr tv rl ri ac nr rp fs]. simpl in *. subst ac.
  unfold handle_timeout. simpl.
  destruct st, t; try done; simpl;
    try (split; [constructor; simpl; [done|by apply (buf_inv_same _ _ Hb)|set_solver|set_solver]
                |by apply evolves_plain; [|left|]]).
  - destruct lr as [r|]; [|by destruct Hst as (_ & _ & _ & ?)]. simpl.
    split; [constructor; simpl; [done|by apply (buf_inv_same _ _ Hb)| |];
            unfold apply_op; simpl; set_solver
           |apply evolves_plain; [done|by left|by repeat constructor]].
  - split; [constructor; simpl; [done|by apply (buf_inv_same _ _ Hb)| |];
            unfold apply_op; simpl; set_solver
           |apply evolves_plain; [done|by left|by repeat constructor]].
Qed.

Lemma step_ok_request tx armed r :
  srv_inv (tx, armed) -> step_ok (tx, armed) (InRequest r).
Proof.
  intros [Ha Hb Har Hst]. unfold step_ok, deliver. simpl in *.
  destruct tx as [tid st rq lr tv rl ri ac nr rp fs]. simpl in *. subst ac.
  destruct Hb as [Htv Hnr Hok Hso]. simpl in Htv. subst tv.
  unfold handle_request, resend, push. simpl.
  destruct st, lr, rl; repeat case_bool_decide; simpl in *;
    (split; [constructor; simpl; [done|constructor; done| |];
             unfold apply_op; simpl; set_solver
            |apply evolves_plain; [done|by left|by repeat constructor]]).
Qed.

Lemma step_ok_respond tx armed r :
  srv_inv (tx, armed) -> step_ok (tx, armed) (InRespond r).
Proof.
  intros [Ha Hb Har Hst]. unfold step_ok, deliver. simpl in *.
  destruct tx as [tid st rq lr tv rl ri ac nr rp fs]. simpl in *. subst ac.
  unfold send_response, drain_reliable_provisionals, push. simpl.
  destruct st, (code_classP (resp_status_code r)), rp, rl; simpl in *;
    (split; [constructor; simpl;
       [done|first [by apply (buf_inv_same _ _ Hb)|by apply (buf_inv_empty _ _ Hb)]| |];
       unfold apply_op; simpl; set_solver
      |apply evolves_plain; [done|simpl; auto|by repeat constructor]]).
Qed.

Lemma step_ok_transport_error tx armed :
  srv_inv (tx, armed) -> step_ok (tx, armed) InTransportError.
Proof.
  intros [Ha Hb Har Hst]. unfold step_ok, deliver. simpl in *.
  destruct tx as [tid st rq lr tv rl ri ac nr rp fs]. simpl in *. subst ac.
  unfold handle_transport_error, push. destruct st; simpl;
    (split; [constructor; simpl; [done|by apply (buf_inv_same _ _ Hb)| |];
             unfold apply_op; simpl; set_solver
            |apply evolves_plain; [done|by left|by repeat constructor]]).
Qed.

Lemma step_ok_event tx armed e :
  srv_inv (tx, armed) -> step_ok (tx, armed) (InEvent e).
Proof.
  intros [Ha Hb Har Hst]. unfold step_ok, deliver. simpl in *.
  destruct tx as [tid st rq lr tv rl ri ac nr rp fs]. simpl in *. subst ac.
  destruct e as [| |n| | |]; simpl;
    try (split; [constructor; simpl; [done|by apply (buf_inv_same _ _ Hb)|set_solver|set_solver]
                |by apply evolves_plain; [|left|]]).
  destruct Hb as [Htv Hnr Hok Hso]. unfold rseqs in Hso. simpl in *. subst tv.
  unfold handle_prack_received. simpl.
  destruct (omap_map_sorted (fun e => if negb (rseq e =? n) then Some e else None) rp)
    as [Hks Hsub]; [intros e e' H; by destruct (negb _); simplify_eq|done|].
  rewrite <- filter_omap in Hks, Hsub.
  set (kept := List.filter _ rp) in *.
  assert (Forall (entry_ok nr) kept) as Hok'.
  { apply Forall_forall. intros e [He _]%list_elem_of_In%filter_In. rewrite Forall_forall in Hok.
    by apply Hok, list_elem_of_In. }
  assert (rp = [] -> kept = []) as Hnil by (by intros ->).
  assert (kept <> [] -> rp <> []) as Hne by tauto.
  clearbody kept. case_bool_decide as Hl; [|destruct kept as [|k ks]]; simpl;
    (split; [constructor; simpl; [done|by constructor| |];
             [|destruct st; try done; unfold apply_op; simpl; intuition; set_solver]
            |constructor; simpl; [lia|unfold rseqs; simpl; by left; apply Hsub
                                 |by repeat constructor]]).
  - intros Hk. apply Har. by apply Hne.
  - done.
  - intros _. unfold apply_op. simpl. split; [set_solver|]. apply Har. by apply Hne.
Qed.

(** A reliable provisional that does not panic, in normal form. *)
Lemma send_reliable_spec r tx tx' :
  send_provisional_reliable r tx = Some tx' -> state tx = Proceeding ->
  exists b, next_rseq tx < u32_max /\
    let e := mkRel (next_rseq tx) b (t1 (timers tx)) (t1 (timers tx)) 0 (t1 (timers tx) * 64) in
    tx' = tx <| next_rseq := next_rseq tx + 1 |>
             <| reliable_provisionals := reliable_provisionals tx ++ [e] |>
             <| last_response := Some b |>
             <| actions := actions tx ++ Send b ::
                  match reliable_provisionals tx with
                  | [] => [SetTimer Timer.N (t1 (timers tx))]
                  | _ => []
                  end |>.
Proof.
  intros H S. unfold send_provisional_reliable in H.
  rewrite S, bool_decide_true in H by done. cbn [negb] in H.
  destruct (Z.ltb_spec u32_max (next_rseq tx + 1)) as [Hm|Hm]; [done|].
  destruct (stamp_reliable_headers r (next_rseq tx)) as [[r' b]|]; [|done].
  simpl in H. exists b. split; [lia|]. injection H as <-.
  by destruct tx as [tid st rq lr tv rl ri ac nr [|e rp] fs]; simpl; unfold push; simpl;
    rewrite <- ?app_assoc.
Qed.

Lemma sorted_snoc l n :
  StronglySorted Z.lt l -> Forall (fun x => x < n) l -> StronglySorted Z.lt (l ++ [n]).
Proof.
  induction 1 as [|x l Hl IH Hx]; intros Hn; simpl; [by repeat constructor|].
  inversion Hn; subst. constructor; [by apply IH|].
  apply Forall_app_2; [done|by constructor].
Qed.

Lemma new_entry_ok n b :
  1 <= n -> entry_ok (n + 1) (mkRel n b (t1 timer_default) (t1 timer_default) 0
                                (t1 timer_default * 64)).
Proof.
  intros Hn. constructor; cbn [rseq next_fire_after next_interval elapsed abandon_at];
    first [lia | vm_compute; repeat split; first [reflexivity | discriminate]].
Qed.

Lemma step_ok_reliable tx armed r :
  srv_inv (tx, armed) -> step_ok (tx, armed) (InReliable r).
Proof.
  intros [Ha Hb Har Hst]. unfold step_ok, deliver. simpl in *.
  assert (forall tx', tx' = tx ->
    srv_inv (tx' <| actions := [] |>, apply_ops armed (actions tx')) /\
    evolves tx (tx' <| actions := [] |>) (actions tx')) as Same.
  { intros tx' ->. rewrite Ha. split.
    - constructor; simpl; try done. by apply (buf_inv_same _ _ Hb).
    - by apply evolves_plain; [|left|]. }
  destruct (send_provisional_reliable r tx) as [tx'|] eqn:E; simpl; [|by apply Same].
  destruct (decide (state tx = Proceeding)) as [S|S].
  2:{ apply Same. unfold send_provisional_reliable in E.
      rewrite bool_decide_false in E by done. simpl in E. by injection E as <-. }
  clear Same. destruct (send_reliable_spec _ _ _ E S) as (b & Hlt & ->).
  destruct Hb as [Htv Hnr Hok Hso]. unfold rseqs in *.
  destruct tx as [tid st rq lr tv rl ri ac nr rp fs]. cbn in Htv, Ha, S, Hnr, Hok, Hso, Har, Hlt.
  subst ac tv st. split.
  - constructor; [done| | |done].
    + constructor; [done|cbn; lia| |].
      * cbn. apply Forall_app_2.
        -- eapply Forall_impl; [exact Hok|]. intros e. apply entry_ok_mono. lia.
        -- constructor; [apply new_entry_ok; lia|done].
      * unfold rseqs. cbn. rewrite map_app. apply sorted_snoc; [done|].
        apply List.Forall_map. eapply Forall_impl; [exact Hok|]. intros e He. apply (ok_rseq _ _ He).
    + intros _. destruct rp as [|e rp]; cbn; unfold apply_op; cbn; [|apply Har; done].
      split; [set_solver|exact Hst].
  - constructor; [cbn; lia| |].
    + unfold rseqs. cbn. intros n. rewrite map_app, elem_of_app. intros [?|H]; [by left|right].
      simpl in H. apply list_elem_of_singleton in H as ->. lia.
    + cbn. destruct rp; by repeat constructor.
Qed.

(** *** Reachable configurations *)

Lemma invite_server_new_spec req rel tx :
  new req rel = Some tx ->
  timers tx = timer_default /\ state tx = Proceeding /\ next_rseq tx = 1 /\
  reliable_provisionals tx = [].
Proof.
  unfold new. case_bool_decide; simpl; [|done].
  destruct (from_request req) as [tid|]; simpl; [|done]. intros E. by injection E as <-.
Qed.

Lemma srv_start req rel tx :
  new req rel = Some tx -> srv_inv (start tx).2 /\ (start tx).1 = [EventA (Request_ req)].
Proof.
  unfold new. case_bool_decide; simpl; [|done].
  destruct (from_request req) as [tid|]; simpl; [|done]. intros E. injection E as <-.
  unfold start. simpl. split; [|done]. constructor; simpl; try done.
  constructor; simpl; [done|unfold u32_max; lia|done|constructor].
Qed.

Lemma srv_step c i acts c' :
  srv_inv c -> sys_step c i acts c' -> srv_inv c' /\ evolves c.1 c'.1 acts.
Proof.
  destruct c as [tx armed]. intros Hi Hs. inversion Hs as [? ? ? ? Hf Hd]; subst.
  assert (step_ok (tx, armed) i) as Hok.
  { destruct i; [by apply step_ok_timer; [|apply Hf]|by apply step_ok_request
      |by apply step_ok_respond|by apply step_ok_reliable|by apply step_ok_event
      |by apply step_ok_transport_error]. }
  unfold step_ok in Hok. by rewrite Hd in Hok.
Qed.

Lemma srv_reach req rel tx tr c :
  new req rel = Some tx -> reach tx tr c -> srv_inv c.
Proof.
  intros Hn Hr. eapply reach_inv; [| |exact Hr].
  - intros acts c0 E. destruct (srv_start _ _ _ Hn) as [H _]. by rewrite E in H.
  - intros c0 i acts c' H Hs. by eapply srv_step.
Qed.

(** Once gone, a sequence number never comes back. *)
Lemma rseq_gone c tr c' n :
  srv_inv c -> n < next_rseq c.1 -> n ∉ rseqs c.1 -> steps c tr c' ->
  (n ∉ rseqs c'.1) /\ (forall fs, EventA (PrackTimeout n fs) ∉ tr).
Proof.
  intros Hi Hl Hn Hs.
  destruct (steps_inv (fun c => srv_inv c /\ n < next_rseq c.1 /\ n ∉ rseqs c.1)
    (fun a => forall fs, a <> EventA (PrackTimeout n fs)) c tr c') as [(_ & _ & H) HQ];
    [|done|done|].
  - intros c0 i acts c1 (Hi0 & Hl0 & Hn0) Hst.
    destruct (srv_step _ _ _ _ Hi0 Hst) as [Hi1 [He1 He2 He3]]. split.
    + split_and!; [done|lia|]. intros [?|?]%He2; [done|lia].
    + eapply Forall_impl; [exact He3|]. intros a Ha fs ->. by destruct Ha.
  - split; [done|]. intros fs Hin. rewrite Forall_forall in HQ. by apply (HQ _ Hin fs).
Qed.

(** *** Exhaustion of the retransmissions *)

(** An upper bound on the ticks an entry still answers. *)
Definition ticks_left (e : ReliableProvisional) : nat :=
  Z.to_nat ((abandon_at e - elapsed e + t1 timer_default - 1) / t1 timer_default).

Definition total_left (l : list ReliableProvisional) : nat := list_sum (map ticks_left l).

Lemma ticks_left_bounds n e : entry_ok n e -> (1 <= ticks_left e <= 64)%nat.
Proof.
  intros [_ _ _ He Ha]. unfold ticks_left. rewrite Ha in *.
  change (t1 timer_default) with 500000000 in *.
  assert (1 <= (500000000 * 64 - elapsed e + 500000000 - 1) / 500000000 < 65); [|lia].
  split; [apply Z.div_le_lower_bound; lia|apply Z.div_lt_upper_bound; lia].
Qed.

Lemma ticks_left_mono n e e' :
  entry_ok n e -> entry_ok n e' -> elapsed e + t1 timer_default <= elapsed e' ->
  (ticks_left e' < ticks_left e)%nat.
Proof.
  intros [_ _ _ He Ha] [_ _ _ He' Ha'] Hd. unfold ticks_left. rewrite Ha, Ha' in *.
  change (t1 timer_default) with 500000000 in *.
  apply Z2Nat.inj_lt; [apply Z.div_pos; lia|apply Z.div_pos; lia|].
  apply Z.lt_le_trans with
    ((500000000 * 64 - elapsed e' + 500000000 - 1) / 500000000 + 1); [lia|].
  rewrite <- Z.div_add by lia. apply Z.div_le_mono; lia.
Qed.

Lemma tick_keep_left n d e :
  entry_ok n e -> 0 < d ->
  (total_left (option_list (tick_keep timer_default d e)) <= ticks_left e)%nat /\
  (next_fire_after e <= d ->
   (total_left (option_list (tick_keep timer_default d e)) < ticks_left e)%nat).
Proof.
  intros Hok Hd. unfold tick_keep.
  assert (entry_ok (rseq e + 1) e) as Hok' by (destruct Hok; constructor; done || lia).
  pose proof (ticks_left_bounds _ _ Hok) as Hb.
  destruct (tick_entryP d e Hok' Hd) as [e' Hw He Hk|e' Hw|e' Hw He Hk]; simpl;
    unfold total_left; simpl; rewrite ?Nat.add_0_r.
  - assert (ticks_left e' = ticks_left e) as Et.
    { unfold ticks_left. rewrite He. destruct (Hk _ Hok), Hok. congruence. }
    split; [lia|]. lia.
  - split; lia.
  - pose proof (ticks_left_mono _ _ _ Hok (Hk _ Hok) He). split; lia.
Qed.

Lemma total_left_tick n d l :
  Forall (entry_ok n) l -> 0 < d ->
  (total_left (omap (tick_keep timer_default d) l) <= total_left l)%nat /\
  ((exists e, e ∈ l /\ next_fire_after e <= d) ->
   (total_left (omap (tick_keep timer_default d) l) < total_left l)%nat).
Proof.
  intros Hok Hd. induction Hok as [|e l He Hl [IH1 IH2]].
  - split; [done|]. by intros (? & ?%not_elem_of_nil & _).
  - destruct (tick_keep_left n d e He Hd) as [K1 K2].
    assert (total_left (omap (tick_keep timer_default d) (e :: l)) =
      (total_left (option_list (tick_keep timer_default d e)) +
       total_left (omap (tick_keep timer_default d) l))%nat) as ->.
    { change (omap (tick_keep timer_default d) (e :: l)) with
        (match tick_keep timer_default d e with
         | Some y => y :: omap (tick_keep timer_default d) l
         | None => omap (tick_keep timer_default d) l
         end).
      destruct (tick_keep timer_default d e) as [y|]; [|done]. simpl option_list.
      change (total_left (y :: ?x)) with (ticks_left y + total_left x)%nat.
      change (total_left []) with 0%nat. lia. }
    change (total_left (e :: l)) with (ticks_left e + total_left l)%nat.
    split; [lia|]. intros (x & [->|Hx]%elem_of_cons & Hxd); [specialize (K2 Hxd); lia|].
    specialize (IH2 (ex_intro _ x (conj Hx Hxd))). lia.
Qed.

Lemma total_left_bound n l :
  Forall (entry_ok n) l -> (total_left l <= 64 * length l)%nat.
Proof.
  induction 1 as [|e l He _ IH]; [done|].
  change (total_left (e :: l)) with (ticks_left e + total_left l)%nat.
  pose proof (ticks_left_bounds _ _ He). simpl. lia.
Qed.

(** [k] consecutive firings of Timer N, each while it is armed. *)
Inductive n_fires : nat -> config InviteServerTransaction -> list Action ->
    config InviteServerTransaction -> Prop :=
| N_done c : n_fires 0 c [] c
| N_fire k c acts c' tr c'' :
    sys_step c (InTimeout Timer.N) acts c' -> n_fires k c' tr c'' ->
    n_fires (S k) c (acts ++ tr) c''.

Lemma n_fires_exhaust m c :
  srv_inv c -> (total_left (reliable_provisionals c.1) <= m)%nat ->
  exists k tr c', (k <= m)%nat /\ n_fires k c tr c' /\ reliable_provisionals c'.1 = [].
Proof.
  revert c. induction m as [|m IH]; intros [tx armed] Hi Hm.
  all: destruct (min_fire (reliable_provisionals tx)) as [d|] eqn:Em;
    [|apply min_fire_none in Em; exists 0%nat, [], (tx, armed);
      by split_and!; [lia|constructor|]].
  all: pose proof Hi as [Ha [Ht Hn Hok Hs] Har Hst]; simpl in *.
  all: pose proof (fire_timer_n_spec tx _ Ht Hs Hok) as F; rewrite Em in F.
  all: destruct F as (Hd & sends & xs & _ & _ & F).
  all: apply min_fire_spec in Em as [(e & He & Hed) _].
  all: destruct (total_left_tick _ d _ Hok Hd) as [_ Hlt].
  all: specialize (Hlt (ex_intro _ e (conj He (Z.eq_le_incl _ _ Hed)))).
  { lia. }
  destruct (deliver (tx, armed) (InTimeout Timer.N)) as [acts c'] eqn:E.
  assert (sys_step (tx, armed) (InTimeout Timer.N) acts c') as Hst'.
  { constructor; [|done]. simpl. intros t [= <-]. apply Har. intros En. rewrite En in He.
    by apply not_elem_of_nil in He. }
  destruct (srv_step _ _ _ _ Hi Hst') as [Hi' _].
  destruct (IH c' Hi') as (k & tr & c'' & Hk & Hf & Hnil).
  { assert (handle_timeout Timer.N tx = fire_timer_n tx) as Eh
      by (unfold handle_timeout; by destruct (state tx)).
    unfold deliver in E. simpl in E. rewrite Eh, F in E. injection E as <- <-. simpl. lia. }
  exists (S k), (acts ++ tr), c''. split_and!; [lia| |done]. by econstructor.
Qed.

(** ** Specification: the transitions of RFC 3261, figure 7, and RFC 3262 *)

Inductive label : Type :=
| L_timer (t : Timer.t)
| L_invite | L_ack
| L_1xx | L_2xx | L_3xx_6xx
| L_rel_1xx | L_prack
| L_transport_err
| L_other.

Definition label_of (i : Input) : label :=
  match i with
  | InTimeout t => L_timer t
  | InRequest r =>
      if bool_decide (req_method r = Invite) then L_invite
      else if bool_decide (req_method r = Ack) then L_ack else L_other
  | InRespond r =>
      let c := resp_status_code r in
      if in_range 100 200 c then L_1xx
      else if in_range 200 300 c then L_2xx
      else if 300 <=? c then L_3xx_6xx
      else L_other
  | InReliable _ => L_rel_1xx
  | InEvent (PrackReceived _) => L_prack
  | InEvent _ => L_other
  | InTransportError => L_transport_err
  end.

(** On a reliable transport Timer I is zero, so Confirmed is left at once. *)
Definition confirmed_or_done (reliable : bool) : State :=
  if reliable then Terminated else Confirmed.

Inductive rfc_step (reliable : bool) : State -> label -> State -> Prop :=
| R_invite s : s = Proceeding \/ s = Completed -> rfc_step reliable s L_invite s
| R_1xx l : l = L_1xx \/ l = L_rel_1xx -> rfc_step reliable Proceeding l Proceeding
| R_prack s l : l = L_prack \/ l = L_timer Timer.N -> rfc_step reliable s l s
| R_2xx : rfc_step reliable Proceeding L_2xx Terminated
| R_fail : rfc_step reliable Proceeding L_3xx_6xx Completed
| R_err s : s = Proceeding \/ s = Completed ->
    rfc_step reliable s L_transport_err Terminated
| R_timer_g : rfc_step reliable Completed (L_timer Timer.G) Completed
| R_timer_h : rfc_step reliable Completed (L_timer Timer.H) Terminated
| R_ack : rfc_step reliable Completed L_ack (confirmed_or_done reliable)
| R_timer_i : rfc_step reliable Confirmed (L_timer Timer.I) Terminated.

Lemma fire_timer_n_state tx : state (fire_timer_n tx) = state tx.
Proof.
  unfold fire_timer_n. destruct (min_fire _); [|done].
  destruct (tick_all _ _ _) as [[es acts] xs]. by destruct (min_fire _).
Qed.

Lemma prack_state n tx : state (handle_prack_received n tx) = state tx.
Proof.
  unfold handle_prack_received. case_bool_decide; [done|]. by destruct (List.filter _ _).
Qed.

Lemma reliable_state r tx : state (default tx (send_provisional_reliable r tx)) = state tx.
Proof.
  destruct (send_provisional_reliable r tx) as [tx'|] eqn:E; [|done].
  destruct (decide (state tx = Proceeding)) as [S|S].
  - destruct (send_reliable_spec _ _ _ E S) as (b & _ & ->). done.
  - unfold send_provisional_reliable in E. rewrite bool_decide_false in E by done.
    simpl in E. by injection E as <-.
Qed.

Lemma drain_fields tx :
  state (drain_reliable_provisionals tx) = state tx /\
  reliable (drain_reliable_provisionals tx) = reliable tx.
Proof. unfold drain_reliable_provisionals. by destruct (reliable_provisionals tx). Qed.

Lemma resend_state tx : state (resend tx) = state tx.
Proof. unfold resend. by destruct (last_response tx). Qed.

(** ** Theorems *)

(** C1: The INVITE server transaction implements the state machine of RFC 3261
    figure 7 with the reliable provisionals of RFC 3262: whenever the figure has a
    transition for the input, the code takes it, and an input the figure has no
    transition for leaves the transaction exactly as it was (the timers are the
    default ones, as every constructor sets them). *)
Theorem invite_server_refines_rfc tx i :
  timers tx = timer_default ->
  (forall s', rfc_step (reliable tx) (state tx) (label_of i) s' ->
              state (handle_input tx i) = s') /\
  ((exists s', rfc_step (reliable tx) (state tx) (label_of i) s') \/ handle_input tx i = tx).
Proof.
  intros Htv. split.
  - intros s'. destruct i as [t|r|r|r|e|]; cbn [label_of handle_input].
    + unfold handle_timeout, push.
      destruct (state tx) eqn:S, t; inversion 1; intuition; simplify_eq;
        rewrite ?fire_timer_n_state; try done; by destruct (last_response tx).
    + unfold handle_request, push.
      repeat case_bool_decide; destruct (state tx) eqn:S; inversion 1; intuition;
        simplify_eq; rewrite ?resend_state; try done; unfold confirmed_or_done;
        destruct (reliable tx) eqn:R; simpl; rewrite ?R, ?Htv; done.
    + unfold send_response.
      destruct (code_classP (resp_status_code r)), (state tx) eqn:S; inversion 1; intuition;
        simplify_eq; try done; by destruct (negb _).
    + inversion 1; intuition; simplify_eq; by rewrite reliable_state.
    + destruct e; cbn [handle_event]; inversion 1; intuition; simplify_eq;
        by rewrite prack_state.
    + unfold handle_transport_error. destruct (state tx) eqn:S; inversion 1; intuition;
        simplify_eq; done.
  - destruct i as [t|r|r|r|e|]; cbn [label_of handle_input].
    + unfold handle_timeout.
      destruct (state tx), t; (by right) || (left; eexists; by eauto using rfc_step).
    + unfold handle_request. repeat case_bool_decide; destruct (state tx);
        (by right) || (left; eexists; by eauto using rfc_step) || congruence.
    + unfold send_response. destruct (state tx), (code_classP (resp_status_code r));
        (by right) || (left; eexists; by eauto using rfc_step).
    + destruct (state tx) eqn:S; [left; eexists; by eauto using rfc_step| | |];
        right; unfold send_provisional_reliable; by rewrite S.
    + destruct e; (by right) || (left; eexists; by eauto using rfc_step).
    + unfold handle_transport_error. destruct (state tx);
        (by right) || (left; eexists; by eauto using rfc_step).
Qed.

(** C7: In every reachable state the outstanding reliable provisionals carry
    distinct, strictly increasing RSeq values that were all issued before (1 up to
    the next value, which stays in 32 bits); while any is outstanding Timer N is
    armed and no final response has been sent. *)
Theorem reliable_provisionals_invariant req rel tx tr c :
  new req rel = Some tx -> reach tx tr c ->
  StronglySorted Z.lt (rseqs c.1) /\
  Forall (fun n => 1 <= n < next_rseq c.1) (rseqs c.1) /\ next_rseq c.1 <= u32_max /\
  (reliable_provisionals c.1 <> [] -> Timer.N ∈ c.2 /\ final_sent c.1 = FinalNone).
Proof.
  intros Hn Hr. destruct (srv_reach _ _ _ _ _ Hn Hr) as [_ [_ Hx Hok Hs] Ha _].
  split_and!; [done| |lia|done].
  apply List.Forall_map. eapply Forall_impl; [exact Hok|]. intros e He. apply (ok_rseq _ _ He).
Qed.

(** C5: A PRACK ends the provisional it names for good: its entry leaves the
    buffer and all others stay, and in no continuation of the run is the number
    outstanding again or reported as abandoned. *)
Theorem prack_is_final req rel tx tr c n acts c1 tr' c2 :
  new req rel = Some tx -> reach tx tr c -> n < next_rseq c.1 ->
  deliver c (InEvent (PrackReceived n)) = (acts, c1) -> steps c1 tr' c2 ->
  reliable_provisionals c1.1 =
    List.filter (fun e => negb (rseq e =? n)) (reliable_provisionals c.1) /\
  (n ∉ rseqs c2.1) /\ (forall fs, EventA (PrackTimeout n fs) ∉ acts ++ tr').
Proof.
  intros Hn Hr Hl Hd Hs. pose proof (srv_reach _ _ _ _ _ Hn Hr) as Hi.
  assert (sys_step c (InEvent (PrackReceived n)) acts c1) as Hst by (by constructor).
  destruct (srv_step _ _ _ _ Hi Hst) as [Hi1 Hev].
  assert (reliable_provisionals c1.1 =
    List.filter (fun e => negb (rseq e =? n)) (reliable_provisionals c.1)) as Hk.
  { unfold deliver in Hd. simpl in Hd. injection Hd as _ <-. unfold handle_prack_received.
    simpl. case_bool_decide; [done|]. by destruct (List.filter _ _) eqn:E. }
  assert (n ∉ rseqs c1.1) as Hg.
  { unfold rseqs. rewrite Hk. intros (e & He & Hin)%list_elem_of_In%in_map_iff.
    apply filter_In in Hin as [_ Hin]. lia. }
  destruct Hev as [He1 _ _].
  destruct (rseq_gone c1 tr' c2 n) as [H1 H2]; [done|lia|done|done|].
  split_and!; [done|done|]. intros fs [Hin|Hin]%elem_of_app; [|by apply (H2 fs)].
  unfold deliver in Hd. simpl in Hd. injection Hd as <- _.
  pose proof (srv_queue _ Hi) as Hq. unfold handle_prack_received, push in Hin.
  repeat case_match; simpl in Hin; rewrite Hq in Hin; set_solver.
Qed.

(** An abandoned provisional is always reported with no final response sent:
    the other two values of [FinalSent] never reach the transaction user. *)
Theorem prack_timeout_before_final req rel tx tr c :
  new req rel = Some tx -> reach tx tr c ->
  forall n fs, EventA (PrackTimeout n fs) ∈ tr -> fs = FinalNone.
Proof.
  intros Hn Hr.
  destruct (reach_trace tx srv_inv (fun a =>
    forall n fs, a = EventA (PrackTimeout n fs) -> fs = FinalNone)) with tr c as [_ H];
    [| |done|].
  - intros acts c0 E. destruct (srv_start _ _ _ Hn) as [H1 H2].
    rewrite E in H1, H2. simpl in *. subst. split; [done|]. repeat constructor. by intros.
  - intros c0 i acts c' Hi Hst. destruct (srv_step _ _ _ _ Hi Hst) as [Hi' [_ _ He]].
    split; [done|]. eapply Forall_impl; [exact He|]. intros a Ha n fs ->.
    destruct Ha as [-> Hin]. apply (srv_armed _ Hi). intros E. unfold rseqs in Hin.
    rewrite E in Hin. by apply not_elem_of_nil in Hin.
  - intros n fs Hin. rewrite Forall_forall in H. by eapply H.
Qed.

(** C6: Retransmission of reliable provisionals ends: from every reachable state
    at most 64 firings of Timer N per outstanding provisional, each of an armed
    timer, leave none outstanding. *)
Theorem reliable_retransmission_ends req rel tx tr c :
  new req rel = Some tx -> reach tx tr c ->
  exists k tr' c', (k <= 64 * length (reliable_provisionals c.1))%nat /\
    n_fires k c tr' c' /\ reliable_provisionals c'.1 = [].
Proof.
  intros Hn Hr. pose proof (srv_reach _ _ _ _ _ Hn Hr) as Hi.
  pose proof (total_left_bound _ _ (buf_ok _ (srv_buf _ Hi))) as Hb.
  destruct (n_fires_exhaust _ c Hi (le_n _)) as (k & tr' & c' & Hk & H).
  exists k, tr', c'. split; [lia|done].
Qed.

Lemma invite_server_refines_rfc_witness :
  exists tx, new (sample_request Invite) false = Some tx /\
    state (handle_input tx (InRespond (sample_response Invite 486))) = Completed.
Proof.
  compute_some (new (sample_request Invite) false) as tx E. exists tx. split; [reflexivity|].
  destruct (invite_server_new_spec _ _ _ E) as (Ht & S & _).
  assert (label_of (InRespond (sample_response Invite 486)) = L_3xx_6xx) as L
    by (vm_compute; reflexivity).
  apply (proj1 (invite_server_refines_rfc tx (InRespond (sample_response Invite 486)) Ht)).
  rewrite S, L. constructor.
Defined.

(** A run for the witnesses: a call that rings reliably. *)
Definition ring (tx : InviteServerTransaction) : list Action * config InviteServerTransaction :=
  deliver (start tx).2 (InReliable (sample_response Invite 183)).

Lemma ring_reach tx : reach tx ((start tx).1 ++ (ring tx).1) (ring tx).2.
Proof. apply reach_next; [apply reach_first|]. intros t Ht. discriminate Ht. Qed.

Lemma ring_facts tx :
  new (sample_request Invite) false = Some tx ->
  rseqs (ring tx).2.1 = [1] /\ next_rseq (ring tx).2.1 = 2.
Proof.
  intros E.
  assert (option_map (fun tx => (rseqs (ring tx).2.1, next_rseq (ring tx).2.1))
    (new (sample_request Invite) false) = Some ([1], 2)) as H by (vm_compute; reflexivity).
  rewrite E in H. cbn [option_map] in H. injection H as H1 H2. split; [exact H1|exact H2].
Qed.

Lemma reliable_provisionals_invariant_witness :
  exists tx, new (sample_request Invite) false = Some tx /\
    rseqs (ring tx).2.1 = [1] /\ Timer.N ∈ (ring tx).2.2.
Proof.
  compute_some (new (sample_request Invite) false) as tx E.
  exists tx. split; [reflexivity|]. destruct (ring_facts tx E) as [H1 _]. split; [exact H1|].
  apply (reliable_provisionals_invariant _ _ tx _ _ E (ring_reach tx)).
  intros Hnil. unfold rseqs in H1. rewrite Hnil in H1. discriminate H1.
Defined.

Lemma prack_is_final_witness :
  exists tx, new (sample_request Invite) false = Some tx /\
    1 ∉ rseqs (deliver (ring tx).2 (InEvent (PrackReceived 1))).2.1.
Proof.
  compute_some (new (sample_request Invite) false) as tx E.
  exists tx. split; [reflexivity|]. destruct (ring_facts tx E) as [_ H2].
  apply (prack_is_final _ _ tx _ (ring tx).2 1 _ _ [] _ E (ring_reach tx)
    ltac:(rewrite H2; reflexivity) (surjective_pairing _) (Steps_nil _)).
Defined.

Lemma prack_timeout_before_final_witness :
  exists tx, new (sample_request Invite) false = Some tx /\
    forall n fs, EventA (PrackTimeout n fs) ∈ (start tx).1 ++ (ring tx).1 -> fs = FinalNone.
Proof.
  compute_some (new (sample_request Invite) false) as tx E.
  exists tx. split; [reflexivity|].
  apply (prack_timeout_before_final _ _ tx _ _ E (ring_reach tx)).
Defined.

Lemma reliable_retransmission_ends_witness :
  exists tx, new (sample_request Invite) false = Some tx /\
    exists k tr' c', (k <= 64)%nat /\ n_fires k (ring tx).2 tr' c' /\
      reliable_provisionals c'.1 = [].
Proof.
  compute_some (new (sample_request Invite) false) as tx E.
  exists tx. split; [reflexivity|]. destruct (ring_facts tx E) as [H1 _].
  destruct (reliable_retransmission_ends _ _ tx _ _ E (ring_reach tx)) as (k & tr' & c' & Hk & H).
  exists k, tr', c'. split; [|exact H].
  unfold rseqs in H1. apply (f_equal length) in H1. rewrite length_map in H1.
  rewrite H1 in Hk. exact Hk.
Defined.

(** A rejected call is always finished: in every reachable state after a
    3xx-6xx response Timer H is armed and terminates the transaction, on an
    unreliable transport Timer G is armed as well and resends the buffered
    response; an ACK stops both timers; and a confirmed transaction has Timer I
    armed, which terminates it. *)
Theorem invite_server_always_finishes req rel tx tr c :
  new req rel = Some tx -> reach tx tr c ->
  match state c.1 with
  | Completed =>
      Timer.H ∈ c.2 /\ state (deliver c (InTimeout Timer.H)).2.1 = Terminated /\
      (reliable c.1 = false -> Timer.G ∈ c.2) /\
      (exists r, last_response c.1 = Some r /\
         Send r ∈ (deliver c (InTimeout Timer.G)).1) /\
      (forall ack, req_method ack = Ack ->
         let c' := (deliver c (InRequest ack)).2 in
         state c'.1 = confirmed_or_done (reliable c.1) /\
         (Timer.H ∉ c'.2) /\ (reliable c.1 = false -> Timer.G ∉ c'.2))
  | Confirmed => Timer.I ∈ c.2 /\ state (deliver c (InTimeout Timer.I)).2.1 = Terminated
  | _ => True
  end.
Proof.
  intros Hn Hr. destruct (srv_reach _ _ _ _ _ Hn Hr) as [Ha [Htv _ _ _] _ Hst].
  destruct c as [[tid st rq lr tv rl ri ac nr rp fs] armed]. simpl in *. subst.
  destruct st; try done; [|by destruct Hst].
  destruct Hst as (-> & HH & HG & Hlr). destruct lr as [r|]; [|done].
  split_and!; try done.
  - exists r. split; [done|]. simpl. set_solver.
  - intros ack Hack. simpl. unfold handle_request. simpl.
    rewrite bool_decide_false, bool_decide_true by congruence.
    destruct rl; simpl; unfold apply_op; simpl; split_and!; try done; set_solver.
Qed.

Lemma invite_server_always_finishes_witness :
  exists tx, new (sample_request Invite) false = Some tx /\
    Timer.H ∈ (deliver (start tx).2 (InRespond (sample_response Invite 486))).2.2.
Proof.
  compute_some (new (sample_request Invite) false) as tx E.
  exists tx. split; [reflexivity|].
  pose proof (reach_next tx _ _ (InRespond (sample_response Invite 486)) (reach_first tx)) as R.
  specialize (R ltac:(intros t Ht; discriminate Ht)).
  pose proof (invite_server_always_finishes _ _ tx _ _ E R) as F.
  assert (option_map (fun tx => state
    (deliver (start tx).2 (InRespond (sample_response Invite 486))).2.1)
    (new (sample_request Invite) false) = Some Completed) as H by (vm_compute; reflexivity).
  rewrite E in H. cbn [option_map] in H. apply (inj Some) in H. rewrite H in F. apply F.
Defined.
