(* ===== verification/TxManager.v ===== *)
(** * Transaction manager ([transaction/manager.rs])

    The manager keeps the four kinds of transactions in hash maps by handle,
    finds them by transaction id, and turns their actions into its own.  A
    [HashMap] is a finite map; where the code iterates over one and the result
    can depend on the order, the order is an argument. *)

From S2P Require Import Prelude RStr SipBase SipHeader SipHeaders SipMessage SipBuild.
From S2P Require Import Sample TxTimer TxMachine InviteClient NonInviteClient.
From S2P Require Import NonInviteServer InviteServer.

Local Open Scope Z_scope.

#[export] Instance Method_countable : Countable Method.
Proof.
  refine (inj_countable
    (fun m => match m with
     | Invite => 0 | Ack => 1 | Bye => 2 | Cancel => 3 | Register => 4 | Options => 5
     | Prack => 6 | Subscribe => 7 | Notify => 8 | Publish => 9 | Info => 10 | Refer => 11
     | SipBase.Message => 12 | Update => 13
     end%nat)
    (fun n => [Invite; Ack; Bye; Cancel; Register; Options; Prack; Subscribe; Notify; Publish;
               Info; Refer; SipBase.Message; Update] !! n) _).
  by intros [].
Defined.

#[export] Instance TransactionId_countable : Countable TransactionId.
Proof.
  refine (inj_countable' (fun i => (branch i, id_method i)) (fun p => mkId p.1 p.2) _).
  by intros [].
Defined.

(** [TransactionHandle(u64)] *)
Abbreviation TransactionHandle := Z.

Inductive TransactionType : Type :=
| TInviteClient | TNonInviteClient | TInviteServer | TNonInviteServer.

#[export] Instance TransactionType_eq_dec : EqDecision TransactionType.
Proof. solve_decision. Defined.

Inductive ManagerEvent : Type :=
| MProvisional (r : Response)
| MInviteSuccess (r : Response)
| MInviteFailure (r : Response)
| MNonInviteFinalResponse (r : Response)
| MNonInviteProvisional (r : Response)
| MInviteRequest (r : Request)
| MNonInviteRequest (r : Request)
| MAckReceived
| MTimeout
| MTransportError
| MPrackTimeout (rseq : Z) (final_sent : FinalSent).

Inductive ManagerAction : Type :=
| MSend (data : str)
| MSetTimer (h : TransactionHandle) (t : Timer.t) (d : Duration)
| MCancelTimer (h : TransactionHandle) (t : Timer.t)
| MEvent (h : TransactionHandle) (e : ManagerEvent).

Record TransactionManager : Type := mkMgr {
  next_handle : Z;
  invite_clients : gmap TransactionHandle InviteClientTransaction;
  non_invite_clients : gmap TransactionHandle NonInviteClientTransaction;
  invite_servers : gmap TransactionHandle InviteServerTransaction;
  non_invite_servers : gmap TransactionHandle NonInviteServerTransaction;
  id_to_handle : gmap TransactionId TransactionHandle;
  handle_to_type : gmap TransactionHandle TransactionType;
  m_actions : list ManagerAction;
  m_reliable : bool
}.

#[export] Instance mgr_eta : Settable TransactionManager := fun m =>
  mkMgr (next_handle m) (invite_clients m) (non_invite_clients m) (invite_servers m)
    (non_invite_servers m) (id_to_handle m) (handle_to_type m) (m_actions m) (m_reliable m).

Definition mgr_new (reliable : bool) : TransactionManager :=
  mkMgr 1 ∅ ∅ ∅ ∅ ∅ ∅ [] reliable.

(** The increment wraps, as in a release build. *)
Definition alloc_handle (m : TransactionManager) : TransactionHandle * TransactionManager :=
  (next_handle m, m <| next_handle := wrap 64 (next_handle m + 1) |>).

(** ** The translation of actions *)

Definition invite_client_action (handle : TransactionHandle) (a : InviteClient.Action)
  : list ManagerAction :=
  match a with
  | InviteClient.Send data => [MSend data]
  | InviteClient.SetTimer t d => [MSetTimer handle t d]
  | InviteClient.CancelTimer t => [MCancelTimer handle t]
  | InviteClient.EventA e =>
      [MEvent handle
        match e with
        | InviteClient.Provisional r => MProvisional r
        | InviteClient.Success r => MInviteSuccess r
        | InviteClient.Failure r => MInviteFailure r
        | InviteClient.Timeout => MTimeout
        | InviteClient.TransportError => MTransportError
        end]
  end.

Definition non_invite_client_action (handle : TransactionHandle) (a : NonInviteClient.Action)
  : list ManagerAction :=
  match a with
  | NonInviteClient.Send data => [MSend data]
  | NonInviteClient.SetTimer t d => [MSetTimer handle t d]
  | NonInviteClient.CancelTimer t => [MCancelTimer handle t]
  | NonInviteClient.EventA e =>
      [MEvent handle
        match e with
        | NonInviteClient.Provisional r => MNonInviteProvisional r
        | NonInviteClient.FinalResponse r => MNonInviteFinalResponse r
        | NonInviteClient.Timeout => MTimeout
        | NonInviteClient.TransportError => MTransportError
        end]
  end.

Definition invite_server_action (handle : TransactionHandle) (a : InviteServer.Action)
  : list ManagerAction :=
  match a with
  | InviteServer.Send data => [MSend data]
  | InviteServer.SetTimer t d => [MSetTimer handle t d]
  | InviteServer.CancelTimer t => [MCancelTimer handle t]
  | InviteServer.EventA e =>
      match e with
      | InviteServer.Request_ r => [MEvent handle (MInviteRequest r)]
      | InviteServer.AckReceived => [MEvent handle MAckReceived]
      | InviteServer.Timeout => [MEvent handle MTimeout]
      | InviteServer.TransportError => [MEvent handle MTransportError]
      | InviteServer.PrackTimeout n fs => [MEvent handle (MPrackTimeout n fs)]
      | InviteServer.PrackReceived _ => []
      end
  end.

Definition non_invite_server_action (handle : TransactionHandle) (a : NonInviteServer.Action)
  : list ManagerAction :=
  match a with
  | NonInviteServer.Send data => [MSend data]
  | NonInviteServer.SetTimer t d => [MSetTimer handle t d]
  | NonInviteServer.CancelTimer t => [MCancelTimer handle t]
  | NonInviteServer.EventA e =>
      [MEvent handle
        match e with
        | NonInviteServer.Request_ r => MNonInviteRequest r
        | NonInviteServer.TransportError => MTransportError
        end]
  end.

(** The four [collect_*_actions]: drain the transaction into the manager's queue
    and keep it under its handle ([get_mut] has it in place already). *)
Definition put_invite_client (h : TransactionHandle) (tx : InviteClientTransaction)
  (m : TransactionManager) : TransactionManager :=
  let '(acts, tx) := InviteClient.poll_actions tx in
  m <| m_actions := m_actions m ++ flat_map (invite_client_action h) acts |>
    <| invite_clients := <[h := tx]> (invite_clients m) |>.

Definition put_non_invite_client (h : TransactionHandle) (tx : NonInviteClientTransaction)
  (m : TransactionManager) : TransactionManager :=
  let '(acts, tx) := NonInviteClient.poll_actions tx in
  m <| m_actions := m_actions m ++ flat_map (non_invite_client_action h) acts |>
    <| non_invite_clients := <[h := tx]> (non_invite_clients m) |>.

Definition put_invite_server (h : TransactionHandle) (tx : InviteServerTransaction)
  (m : TransactionManager) : TransactionManager :=
  let '(acts, tx) := InviteServer.poll_actions tx in
  m <| m_actions := m_actions m ++ flat_map (invite_server_action h) acts |>
    <| invite_servers := <[h := tx]> (invite_servers m) |>.

Definition put_non_invite_server (h : TransactionHandle) (tx : NonInviteServerTransaction)
  (m : TransactionManager) : TransactionManager :=
  let '(acts, tx) := NonInviteServer.poll_actions tx in
  m <| m_actions := m_actions m ++ flat_map (non_invite_server_action h) acts |>
    <| non_invite_servers := <[h := tx]> (non_invite_servers m) |>.

(** [id_to_handle.insert(id, handle); handle_to_type.insert(handle, ty)] *)
Definition index (id : TransactionId) (h : TransactionHandle) (ty : TransactionType)
  (m : TransactionManager) : TransactionManager :=
  m <| id_to_handle := <[id := h]> (id_to_handle m) |>
    <| handle_to_type := <[h := ty]> (handle_to_type m) |>.

(** ** Operations *)

Definition create_client_transaction (request : Request) (m : TransactionManager)
  : option TransactionHandle * TransactionManager :=
  let '(handle, m) := alloc_handle m in
  if bool_decide (req_method request = Invite) then
    match InviteClient.new request (m_reliable m) with
    | None => (None, m)
    | Some tx =>
        (Some handle,
         index (InviteClient.id tx) handle TInviteClient (put_invite_client handle tx m))
    end
  else
    match NonInviteClient.new request (m_reliable m) with
    | None => (None, m)
    | Some tx =>
        (Some handle,
         index (NonInviteClient.id tx) handle TNonInviteClient
           (put_non_invite_client handle tx m))
    end.

(** Find the first INVITE server transaction of the dialog, in iteration order. *)
Definition prack_target (order : list TransactionHandle) (m : TransactionManager)
  (call_id from_tag : str) : option TransactionHandle :=
  find (fun h =>
    match invite_servers m !! h with
    | Some tx => matches_invite_dialog tx call_id from_tag
    | None => false
    end) order.

Definition route_prack (order : list TransactionHandle) (request : Request)
  (m : TransactionManager) : TransactionManager :=
  match req_rack request with
  | None => m
  | Some rack =>
      match req_call_id request with
      | Err _ => m
      | Ok call_id =>
          match req_from_tag request with
          | Err _ => m
          | Ok from_tag =>
              match prack_target order m call_id from_tag with
              | None => m
              | Some h =>
                  match invite_servers m !! h with
                  | Some tx =>
                      put_invite_server h
                        (InviteServer.handle_event
                           (InviteServer.PrackReceived (RAck.rseq rack)) tx) m
                  | None => m
                  end
              end
          end
      end
  end.

Definition route_request (handle : TransactionHandle) (request : Request)
  (m : TransactionManager) : TransactionManager :=
  match handle_to_type m !! handle with
  | Some TInviteServer =>
      match invite_servers m !! handle with
      | Some tx => put_invite_server handle (InviteServer.handle_request request tx) m
      | None => m
      end
  | Some TNonInviteServer =>
      match non_invite_servers m !! handle with
      | Some tx => put_non_invite_server handle (NonInviteServer.handle_request request tx) m
      | None => m
      end
  | _ => m
  end.

Definition create_server (request : Request) (m : TransactionManager) : TransactionManager :=
  let '(handle, m) := alloc_handle m in
  if bool_decide (req_method request = Invite) then
    match InviteServer.new request (m_reliable m) with
    | Some tx => index (InviteServer.id tx) handle TInviteServer (put_invite_server handle tx m)
    | None => m
    end
  else if bool_decide (req_method request = Ack) then m
  else
    match NonInviteServer.new request (m_reliable m) with
    | Some tx =>
        index (NonInviteServer.id tx) handle TNonInviteServer
          (put_non_invite_server handle tx m)
    | None => m
    end.

Definition mgr_handle_request (order : list TransactionHandle) (request : Request)
  (m : TransactionManager) : TransactionManager :=
  let m := if bool_decide (req_method request = Prack)
           then route_prack order request m else m in
  match from_request request with
  | Some id =>
      match id_to_handle m !! id with
      | Some handle => route_request handle request m
      | None => create_server request m
      end
  | None => create_server request m
  end.

Definition mgr_handle_response (response : Response) (m : TransactionManager)
  : TransactionManager :=
  match from_response response with
  | None => m
  | Some id =>
      match id_to_handle m !! id with
      | None => m
      | Some handle =>
          match handle_to_type m !! handle with
          | Some TInviteClient =>
              match invite_clients m !! handle with
              | Some tx =>
                  put_invite_client handle (InviteClient.handle_response response tx) m
              | None => m
              end
          | Some TNonInviteClient =>
              match non_invite_clients m !! handle with
              | Some tx =>
                  put_non_invite_client handle (NonInviteClient.handle_response response tx) m
              | None => m
              end
          | _ => m
          end
      end
  end.

Definition handle_message (order : list TransactionHandle) (message : SipMessage.Message)
  (m : TransactionManager) : TransactionManager :=
  match message with
  | MRequest request => mgr_handle_request order request m
  | MResponse response => mgr_handle_response response m
  end.

Definition mgr_handle_timeout (handle : TransactionHandle) (timer : Timer.t)
  (m : TransactionManager) : TransactionManager :=
  match handle_to_type m !! handle with
  | Some TInviteClient =>
      match invite_clients m !! handle with
      | Some tx => put_invite_client handle (InviteClient.handle_timeout timer tx) m
      | None => m
      end
  | Some TNonInviteClient =>
      match non_invite_clients m !! handle with
      | Some tx => put_non_invite_client handle (NonInviteClient.handle_timeout timer tx) m
      | None => m
      end
  | Some TInviteServer =>
      match invite_servers m !! handle with
      | Some tx => put_invite_server handle (InviteServer.handle_timeout timer tx) m
      | None => m
      end
  | Some TNonInviteServer =>
      match non_invite_servers m !! handle with
      | Some tx => put_non_invite_server handle (NonInviteServer.handle_timeout timer tx) m
      | None => m
      end
  | None => m
  end.

Definition mgr_send_response (handle : TransactionHandle) (response : Response)
  (m : TransactionManager) : TransactionManager :=
  match handle_to_type m !! handle with
  | Some TInviteServer =>
      match invite_servers m !! handle with
      | Some tx => put_invite_server handle (InviteServer.send_response response tx) m
      | None => m
      end
  | Some TNonInviteServer =>
      match non_invite_servers m !! handle with
      | Some tx => put_non_invite_server handle (NonInviteServer.send_response response tx) m
      | None => m
      end
  | _ => m
  end.

Definition mgr_handle_transport_error (handle : TransactionHandle)
  (m : TransactionManager) : TransactionManager :=
  match handle_to_type m !! handle with
  | Some TInviteClient =>
      match invite_clients m !! handle with
      | Some tx => put_invite_client handle (InviteClient.handle_transport_error tx) m
      | None => m
      end
  | Some TNonInviteClient =>
      match non_invite_clients m !! handle with
      | Some tx => put_non_invite_client handle (NonInviteClient.handle_transport_error tx) m
      | None => m
      end
  | Some TInviteServer =>
      match invite_servers m !! handle with
      | Some tx => put_invite_server handle (InviteServer.handle_transport_error tx) m
      | None => m
      end
  | Some TNonInviteServer =>
      match non_invite_servers m !! handle with
      | Some tx => put_non_invite_server handle (NonInviteServer.handle_transport_error tx) m
      | None => m
      end
  | None => m
  end.

Definition mgr_poll_actions (m : TransactionManager) : list ManagerAction * TransactionManager :=
  (m_actions m, m <| m_actions := [] |>).

(** One block of [cleanup_terminated]: the handles and ids of the terminated
    transactions of one map. *)
Definition terminated_of {T} (is_terminated : T -> bool) (id : T -> TransactionId)
  (txs : gmap TransactionHandle T) : list (TransactionHandle * TransactionId) :=
  omap (fun p => if is_terminated p.2 then Some (p.1, id p.2) else None) (map_to_list txs).

Definition unindex (m : TransactionManager) (p : TransactionHandle * TransactionId)
  : TransactionManager :=
  m <| id_to_handle := delete p.2 (id_to_handle m) |>
    <| handle_to_type := delete p.1 (handle_to_type m) |>.

Definition cleanup_terminated (m : TransactionManager) : TransactionManager :=
  let m := fold_left (fun m p =>
      unindex (m <| invite_clients := delete p.1 (invite_clients m) |>) p)
    (terminated_of InviteClient.is_terminated InviteClient.id (invite_clients m)) m in
  let m := fold_left (fun m p =>
      unindex (m <| non_invite_clients := delete p.1 (non_invite_clients m) |>) p)
    (terminated_of NonInviteClient.is_terminated NonInviteClient.id (non_invite_clients m)) m in
  let m := fold_left (fun m p =>
      unindex (m <| invite_servers := delete p.1 (invite_servers m) |>) p)
    (terminated_of InviteServer.is_terminated InviteServer.id (invite_servers m)) m in
  fold_left (fun m p =>
      unindex (m <| non_invite_servers := delete p.1 (non_invite_servers m) |>) p)
    (terminated_of NonInviteServer.is_terminated NonInviteServer.id (non_invite_servers m)) m.

(** ** Lemmas *)

(** *** No handler changes the identity of its transaction *)

Lemma non_invite_client_id tx i :
  NonInviteClient.id (NonInviteClient.handle_input tx i) = NonInviteClient.id tx.
Proof.
  destruct i as [t|r|]; simpl.
  - unfold NonInviteClient.handle_timeout. by destruct (NonInviteClient.state tx), t.
  - unfold NonInviteClient.handle_response, NonInviteClient.complete.
    by destruct (NonInviteClient.state tx); repeat case_match.
  - unfold NonInviteClient.handle_transport_error. by destruct (NonInviteClient.state tx).
Qed.

Lemma non_invite_server_id tx i :
  NonInviteServer.id (NonInviteServer.handle_input tx i) = NonInviteServer.id tx.
Proof.
  destruct i as [t|r|r|]; simpl.
  - unfold NonInviteServer.handle_timeout. by destruct (NonInviteServer.state tx), t.
  - unfold NonInviteServer.handle_request. by repeat case_match.
  - unfold NonInviteServer.send_response, NonInviteServer.send_final.
    by destruct (NonInviteServer.state tx); repeat case_match.
  - unfold NonInviteServer.handle_transport_error. by destruct (NonInviteServer.state tx).
Qed.

Lemma invite_client_id tx i :
  InviteClient.id (InviteClient.handle_input tx i) = InviteClient.id tx.
Proof. apply InviteClient.handle_input_frame. Qed.

Lemma invite_server_id tx i :
  InviteServer.id (InviteServer.handle_input tx i) = InviteServer.id tx.
Proof.
  destruct i as [t|r|r|r|e|]; simpl.
  - unfold InviteServer.handle_timeout, fire_timer_n.
    by destruct (InviteServer.state tx), t; repeat case_match.
  - unfold InviteServer.handle_request, resend.
    by destruct (InviteServer.state tx); repeat case_match.
  - unfold InviteServer.send_response, drain_reliable_provisionals.
    by destruct (InviteServer.state tx); repeat case_match.
  - unfold send_provisional_reliable. destruct (negb _); [done|].
    destruct (_ <? _); [done|]. destruct (Stamp.stamp_reliable_headers _ _) as [[r' b]|]; [|done].
    cbn [mbind option_bind default]. by destruct (reliable_provisionals _).
  - destruct e; try done. unfold InviteServer.handle_event, handle_prack_received.
    case_bool_decide; [done|]. by destruct (List.filter _ _).
  - unfold InviteServer.handle_transport_error. by destruct (InviteServer.state tx).
Qed.

(** *** The abstract view: which transaction id lives under which handle *)

Definition ids (m : TransactionManager) (ty : TransactionType) : gmap Z TransactionId :=
  match ty with
  | TInviteClient => InviteClient.id <$> invite_clients m
  | TNonInviteClient => NonInviteClient.id <$> non_invite_clients m
  | TInviteServer => InviteServer.id <$> invite_servers m
  | TNonInviteServer => NonInviteServer.id <$> non_invite_servers m
  end.

Record same_view (m m' : TransactionManager) : Prop := {
  sv_next : next_handle m' = next_handle m;
  sv_ids : forall ty, ids m' ty = ids m ty;
  sv_idx : id_to_handle m' = id_to_handle m;
  sv_types : handle_to_type m' = handle_to_type m;
  sv_reliable : m_reliable m' = m_reliable m
}.

#[export] Instance same_view_preorder : PreOrder same_view.
Proof.
  split; [by constructor|].
  intros a b c [] []. constructor; intros; congruence.
Qed.

(** Whether a kind of transaction is for INVITE requests. *)
Definition invite_type (ty : TransactionType) : bool :=
  match ty with TInviteClient | TInviteServer => true | _ => false end.

Record mgr_inv (m : TransactionManager) : Prop := {
  inv_type : forall h ty, handle_to_type m !! h = Some ty <-> is_Some (ids m ty !! h);
  inv_idx : forall i h, id_to_handle m !! i = Some h -> exists ty, ids m ty !! h = Some i;
  inv_fresh : forall h ty, handle_to_type m !! h = Some ty -> 1 <= h < next_handle m;
  inv_method : forall h ty i, ids m ty !! h = Some i ->
    invite_type ty = bool_decide (id_method i = Invite)
}.

Lemma mgr_inv_view m m' : same_view m m' -> mgr_inv m -> mgr_inv m'.
Proof.
  intros [Hn Hi Hx Ht _] [I1 I2 I3 I4]. constructor; intros *; rewrite ?Hn, ?Hx, ?Ht.
  - rewrite Hi. apply I1.
  - intros H. destruct (I2 _ _ H) as [ty Hty]. exists ty. by rewrite Hi.
  - apply I3.
  - rewrite Hi. apply I4.
Qed.

Lemma fmap_insert_same {A B} (f : A -> B) (mp : gmap Z A) h x y :
  mp !! h = Some x -> f y = f x -> f <$> <[h := y]> mp = f <$> mp.
Proof.
  intros Hx Hf. apply map_eq. intros k. rewrite !lookup_fmap.
  destruct (decide (k = h)) as [->|Hk].
  - by rewrite lookup_insert_eq, Hx; simpl; rewrite Hf.
  - by rewrite lookup_insert_ne.
Qed.

(** Putting back a transaction with the same identity keeps the view. *)
Lemma put_invite_client_view h tx tx' m :
  invite_clients m !! h = Some tx -> InviteClient.id tx' = InviteClient.id tx ->
  same_view m (put_invite_client h tx' m).
Proof.
  intros Hl Hi. constructor; try done. intros []; try done. simpl.
  by apply fmap_insert_same with tx.
Qed.

Lemma put_non_invite_client_view h tx tx' m :
  non_invite_clients m !! h = Some tx -> NonInviteClient.id tx' = NonInviteClient.id tx ->
  same_view m (put_non_invite_client h tx' m).
Proof.
  intros Hl Hi. constructor; try done. intros []; try done. simpl.
  by apply fmap_insert_same with tx.
Qed.

Lemma put_invite_server_view h tx tx' m :
  invite_servers m !! h = Some tx -> InviteServer.id tx' = InviteServer.id tx ->
  same_view m (put_invite_server h tx' m).
Proof.
  intros Hl Hi. constructor; try done. intros []; try done. simpl.
  by apply fmap_insert_same with tx.
Qed.

Lemma put_non_invite_server_view h tx tx' m :
  non_invite_servers m !! h = Some tx -> NonInviteServer.id tx' = NonInviteServer.id tx ->
  same_view m (put_non_invite_server h tx' m).
Proof.
  intros Hl Hi. constructor; try done. intros []; try done. simpl.
  by apply fmap_insert_same with tx.
Qed.

Create HintDb mgr.
#[export] Hint Resolve put_invite_client_view put_non_invite_client_view
  put_invite_server_view put_non_invite_server_view : mgr.
#[export] Hint Extern 1 (same_view ?m ?m) => reflexivity : mgr.
#[export] Hint Extern 2 (InviteClient.id (InviteClient.handle_timeout ?t ?tx) = _) =>
  exact (invite_client_id tx (InviteClient.InTimeout t)) : mgr.
#[export] Hint Extern 2 (InviteClient.id (InviteClient.handle_response ?r ?tx) = _) =>
  exact (invite_client_id tx (InviteClient.InResponse r)) : mgr.
#[export] Hint Extern 2 (InviteClient.id (InviteClient.handle_transport_error ?tx) = _) =>
  exact (invite_client_id tx InviteClient.InTransportError) : mgr.
#[export] Hint Extern 2 (NonInviteClient.id (NonInviteClient.handle_timeout ?t ?tx) = _) =>
  exact (non_invite_client_id tx (NonInviteClient.InTimeout t)) : mgr.
#[export] Hint Extern 2 (NonInviteClient.id (NonInviteClient.handle_response ?r ?tx) = _) =>
  exact (non_invite_client_id tx (NonInviteClient.InResponse r)) : mgr.
#[export] Hint Extern 2 (NonInviteClient.id (NonInviteClient.handle_transport_error ?tx) = _) =>
  exact (non_invite_client_id tx NonInviteClient.InTransportError) : mgr.
#[export] Hint Extern 2 (InviteServer.id (InviteServer.handle_timeout ?t ?tx) = _) =>
  exact (invite_server_id tx (InviteServer.InTimeout t)) : mgr.
#[export] Hint Extern 2 (InviteServer.id (InviteServer.handle_request ?r ?tx) = _) =>
  exact (invite_server_id tx (InviteServer.InRequest r)) : mgr.
#[export] Hint Extern 2 (InviteServer.id (InviteServer.send_response ?r ?tx) = _) =>
  exact (invite_server_id tx (InviteServer.InRespond r)) : mgr.
#[export] Hint Extern 2 (InviteServer.id (InviteServer.handle_event ?e ?tx) = _) =>
  exact (invite_server_id tx (InviteServer.InEvent e)) : mgr.
#[export] Hint Extern 2 (InviteServer.id (InviteServer.handle_transport_error ?tx) = _) =>
  exact (invite_server_id tx InviteServer.InTransportError) : mgr.
#[export] Hint Extern 2 (NonInviteServer.id (NonInviteServer.handle_timeout ?t ?tx) = _) =>
  exact (non_invite_server_id tx (NonInviteServer.InTimeout t)) : mgr.
#[export] Hint Extern 2 (NonInviteServer.id (NonInviteServer.handle_request ?r ?tx) = _) =>
  exact (non_invite_server_id tx (NonInviteServer.InRequest r)) : mgr.
#[export] Hint Extern 2 (NonInviteServer.id (NonInviteServer.send_response ?r ?tx) = _) =>
  exact (non_invite_server_id tx (NonInviteServer.InRespond r)) : mgr.
#[export] Hint Extern 2 (NonInviteServer.id (NonInviteServer.handle_transport_error ?tx) = _) =>
  exact (non_invite_server_id tx NonInviteServer.InTransportError) : mgr.

(** The operations that route to an existing transaction keep the view. *)
Ltac view_cases :=
  repeat match goal with
  | |- context [match ?x with _ => _ end] => destruct x eqn:?
  end; eauto with mgr.

Lemma timeout_view h t m : same_view m (mgr_handle_timeout h t m).
Proof. unfold mgr_handle_timeout. view_cases. Qed.

Lemma response_view r m : same_view m (mgr_handle_response r m).
Proof. unfold mgr_handle_response. view_cases. Qed.

Lemma send_response_view h r m : same_view m (mgr_send_response h r m).
Proof. unfold mgr_send_response. view_cases. Qed.

Lemma transport_error_view h m : same_view m (mgr_handle_transport_error h m).
Proof. unfold mgr_handle_transport_error. view_cases. Qed.

Lemma route_prack_view o r m : same_view m (route_prack o r m).
Proof. unfold route_prack. view_cases. Qed.

Lemma route_request_view h r m : same_view m (route_request h r m).
Proof. unfold route_request. view_cases. Qed.

Lemma poll_view m : same_view m (mgr_poll_actions m).2.
Proof. by constructor. Qed.

(** *** Creation *)

Lemma alloc_inv m :
  mgr_inv m -> 0 <= next_handle m -> next_handle m + 1 < 2 ^ 64 ->
  mgr_inv (alloc_handle m).2 /\ next_handle (alloc_handle m).2 = next_handle m + 1.
Proof.
  intros [I1 I2 I3 I4] H0 Hn.
  assert (next_handle (alloc_handle m).2 = next_handle m + 1) as E
    by (apply wrap_small; unfold in_width; lia).
  split; [|done]. constructor; try done. intros h ty H. rewrite E.
  specialize (I3 h ty H). lia.
Qed.

(** A new transaction under a fresh handle. *)
Lemma insert_inv m m' ty i :
  mgr_inv m -> 1 <= next_handle m ->
  next_handle m' = next_handle m + 1 ->
  ids m' ty = <[next_handle m := i]> (ids m ty) ->
  (forall ty', ty' <> ty -> ids m' ty' = ids m ty') ->
  id_to_handle m' = <[i := next_handle m]> (id_to_handle m) ->
  handle_to_type m' = <[next_handle m := ty]> (handle_to_type m) ->
  invite_type ty = bool_decide (id_method i = Invite) -> mgr_inv m'.
Proof.
  intros [I1 I2 I3 I4] H1 Hn Hty Hty' Hx Ht Hm. set (h := next_handle m) in *.
  assert (handle_to_type m !! h = None) as Hfree.
  { destruct (handle_to_type m !! h) as [t|] eqn:E; [|done]. specialize (I3 _ _ E). lia. }
  assert (forall t, ids m t !! h = None) as Hfree'.
  { intros t. destruct (ids m t !! h) as [x|] eqn:E; [|done].
    assert (handle_to_type m !! h = Some t) as E' by (by apply I1; eexists). congruence. }
  assert (forall k t, ids m' t !! k =
    if decide (k = h /\ t = ty) then Some i else ids m t !! k) as Hids.
  { intros k t. destruct (decide (t = ty)) as [->|Ht'].
    - rewrite Hty. destruct (decide (k = h)) as [->|Hk].
      + rewrite lookup_insert_eq. by rewrite decide_True.
      + rewrite lookup_insert_ne by done. by rewrite decide_False by tauto.
    - rewrite Hty' by done. by rewrite decide_False by tauto. }
  constructor.
  - intros k t. rewrite Ht, Hids. destruct (decide (k = h)) as [->|Hk].
    + rewrite lookup_insert_eq, Hfree'. destruct (decide (h = h /\ t = ty)) as [[_ ->]|Hd].
      * split; [intros _; by eexists|done].
      * split; [intros [= ->]; tauto|by intros []].
    + rewrite lookup_insert_ne by done. rewrite decide_False by tauto. apply I1.
  - intros j k. rewrite Hx. destruct (decide (j = i)) as [->|Hj].
    + rewrite lookup_insert_eq. intros [= <-]. exists ty. rewrite Hids. by rewrite decide_True.
    + rewrite lookup_insert_ne by done. intros H. destruct (I2 _ _ H) as [t E]. exists t.
      rewrite Hids, decide_False; [done|]. intros [-> ->]. congruence.
  - intros k t. rewrite Ht, Hn. destruct (decide (k = h)) as [->|Hk].
    + rewrite lookup_insert_eq. intros [= <-]. lia.
    + rewrite lookup_insert_ne by done. intros H. specialize (I3 _ _ H). lia.
  - intros k t j. rewrite Hids. destruct (decide (k = h /\ t = ty)) as [[_ ->]|]; [|apply I4].
    by intros [= <-].
Qed.

Lemma from_request_method r i : from_request r = Some i -> id_method i = req_method r.
Proof.
  unfold from_request. destruct (rok (req_via_branch r)); [|done]. simpl. intros [= <-]. done.
Qed.

Lemma is_new_id req rel tx :
  InviteServer.new req rel = Some tx ->
  from_request req = Some (InviteServer.id tx) /\ req_method req = Invite.
Proof.
  unfold InviteServer.new. case_bool_decide; simpl; [|done].
  destruct (from_request req) as [tid|]; simpl; [|done]. intros [= <-]. done.
Qed.

Lemma create_client_inv r m :
  mgr_inv m -> 1 <= next_handle m -> next_handle m + 1 < 2 ^ 64 ->
  mgr_inv (create_client_transaction r m).2 /\
  next_handle (create_client_transaction r m).2 = next_handle m + 1.
Proof.
  intros Hi H1 Hn. destruct (alloc_inv m Hi) as [Ha Hw]; [lia|done|].
  unfold create_client_transaction. destruct (alloc_handle m) as [h m1] eqn:Eh.
  assert (h = next_handle m /\ m1 = (alloc_handle m).2) as [-> ->]
    by (split; [unfold alloc_handle in Eh; congruence|by rewrite Eh]).
  clear Eh.
  case_bool_decide as Hm.
  - destruct (InviteClient.new r _) as [tx|] eqn:E; [|done].
    apply InviteClient.new_spec in E as (tid & Hf & _ & ->). simpl. split; [|done].
    apply (insert_inv m _ TInviteClient tid); simpl; try done.
    + by rewrite fmap_insert.
    + by intros [].
    + symmetry. apply bool_decide_true. rewrite (from_request_method _ _ Hf). done.
  - destruct (NonInviteClient.new r _) as [tx|] eqn:E; [|done].
    apply NonInviteClient.non_invite_client_new_spec in E as (tid & Hf & _ & ->). simpl.
    split; [|done]. apply (insert_inv m _ TNonInviteClient tid); simpl; try done.
    + by rewrite fmap_insert.
    + by intros [].
    + symmetry. apply bool_decide_false. rewrite (from_request_method _ _ Hf). done.
Qed.

Lemma create_server_inv r m :
  mgr_inv m -> 1 <= next_handle m -> next_handle m + 1 < 2 ^ 64 ->
  mgr_inv (create_server r m) /\ next_handle (create_server r m) = next_handle m + 1.
Proof.
  intros Hi H1 Hn. destruct (alloc_inv m Hi) as [Ha Hw]; [lia|done|].
  unfold create_server. destruct (alloc_handle m) as [h m1] eqn:Eh.
  assert (h = next_handle m /\ m1 = (alloc_handle m).2) as [-> ->]
    by (split; [unfold alloc_handle in Eh; congruence|by rewrite Eh]).
  clear Eh.
  repeat case_bool_decide.
  - destruct (InviteServer.new r _) as [tx|] eqn:E; [|done].
    apply is_new_id in E as [Hf Hm]. split; [|done].
    apply (insert_inv m _ TInviteServer (InviteServer.id tx)); simpl; try done.
    + by rewrite fmap_insert.
    + by intros [].
    + symmetry. apply bool_decide_true. rewrite (from_request_method _ _ Hf). done.
  - done.
  - destruct (NonInviteServer.new r _) as [tx|] eqn:E; [|done].
    apply NonInviteServer.non_invite_server_new_spec in E as (tid & Hf & _ & ->). simpl.
    split; [|done]. apply (insert_inv m _ TNonInviteServer tid); simpl; try done.
    + by rewrite fmap_insert.
    + by intros [].
    + symmetry. apply bool_decide_false. rewrite (from_request_method _ _ Hf). done.
Qed.

Lemma request_inv o r m :
  mgr_inv m -> 1 <= next_handle m -> next_handle m + 1 < 2 ^ 64 ->
  mgr_inv (mgr_handle_request o r m) /\
  next_handle m <= next_handle (mgr_handle_request o r m) <= next_handle m + 1.
Proof.
  intros Hi H1 Hn. unfold mgr_handle_request.
  set (m' := if bool_decide _ then _ else _).
  assert (same_view m m') as Hv
    by (unfold m'; case_bool_decide; [apply route_prack_view|reflexivity]).
  clearbody m'. pose proof (mgr_inv_view _ _ Hv Hi) as Hi'. destruct Hv as [Hnx _ _ _ _].
  assert (mgr_inv (create_server r m') /\ next_handle (create_server r m') = next_handle m' + 1)
    as [Hc Hcn] by (apply create_server_inv; [done|lia|lia]).
  destruct (from_request r) as [i|]; [|split; [done|lia]].
  destruct (id_to_handle m' !! i) as [h|]; [|split; [done|lia]].
  pose proof (route_request_view h r m') as Hv. split; [by eapply mgr_inv_view|].
  rewrite (sv_next _ _ Hv). lia.
Qed.

(** *** Cleanup *)

(** What [cleanup_terminated] does to one map, and to the two indices. *)
Definition del_handles {T} (L : list (TransactionHandle * TransactionId))
  (mp : gmap TransactionHandle T) : gmap TransactionHandle T :=
  fold_left (fun mp p => delete p.1 mp) L mp.

Lemma del_handles_lookup {T} L (mp : gmap TransactionHandle T) h :
  del_handles L mp !! h = if decide (h ∈ L.*1) then None else mp !! h.
Proof.
  unfold del_handles. revert mp. induction L as [|p L IH]; intros mp; [done|].
  cbn [fold_left]. rewrite IH. destruct (decide (h ∈ L.*1)) as [Hi|Hi].
  - rewrite decide_True; [done|]. rewrite fmap_cons. by right.
  - destruct (decide (h = p.1)) as [->|Hne].
    + rewrite lookup_delete_eq, decide_True; [done|]. rewrite fmap_cons. by left.
    + rewrite lookup_delete_ne by done. rewrite decide_False; [done|].
      rewrite fmap_cons. by intros [?|?]%elem_of_cons.
Qed.

Lemma terminated_of_spec {T} (term : T -> bool) (id : T -> TransactionId) txs h i :
  (h, i) ∈ terminated_of term id txs <->
  exists tx, txs !! h = Some tx /\ term tx = true /\ id tx = i.
Proof.
  unfold terminated_of. rewrite list_elem_of_omap. split.
  - intros ([k tx] & Hk & Hf). apply elem_of_map_to_list in Hk. simpl in Hf.
    destruct (term tx) eqn:E; [|done]. simplify_eq. by exists tx.
  - intros (tx & Hl & Ht & <-). exists (h, tx). split; [by apply elem_of_map_to_list|].
    simpl. by rewrite Ht.
Qed.

Lemma terminated_of_handles {T} (term : T -> bool) (id : T -> TransactionId) txs h :
  h ∈ (terminated_of term id txs).*1 <-> exists tx, txs !! h = Some tx /\ term tx = true.
Proof.
  rewrite list_elem_of_fmap. split.
  - intros ([k i] & -> & Hi). apply terminated_of_spec in Hi as (tx & ? & ? & _). by exists tx.
  - intros (tx & Hl & Ht). exists (h, id tx). split; [done|]. apply terminated_of_spec. eauto.
Qed.

Lemma terminated_of_nodup {T} (term : T -> bool) (id : T -> TransactionId)
    (txs : gmap TransactionHandle T) : NoDup (terminated_of term id txs).*1.
Proof.
  unfold terminated_of. pose proof (NoDup_fst_map_to_list txs) as H.
  induction (map_to_list txs) as [|[k tx] l IH]; [constructor|].
  rewrite fmap_cons in H. apply NoDup_cons in H as [Hk Hl]. simpl.
  destruct (term tx); simpl; [|auto]. apply NoDup_cons. split; [|auto].
  intros ([k' i] & -> & Hi)%list_elem_of_fmap. apply list_elem_of_omap in Hi as ([k2 t2] & H2 & E).
  simpl in E. destruct (term t2); simplify_eq. apply Hk. apply list_elem_of_fmap.
  by exists (k', t2).
Qed.

(** Cleaning one map keeps exactly its live transactions. *)
Lemma del_terminated {T} (term : T -> bool) (id : T -> TransactionId) txs h tx :
  del_handles (terminated_of term id txs) txs !! h = Some tx <->
  txs !! h = Some tx /\ term tx = false.
Proof.
  rewrite del_handles_lookup. case_decide as Hd.
  - apply terminated_of_handles in Hd as (t & Hl & Ht). rewrite Hl. naive_solver congruence.
  - rewrite terminated_of_handles in Hd. split.
    + intros Hl. split; [done|]. destruct (term tx) eqn:E; [|done]. exfalso. eauto.
    + by intros [? _].
Qed.

(** Removing one indexed transaction keeps the invariant. *)
Lemma remove_inv m m' ty h i :
  mgr_inv m -> ids m ty !! h = Some i ->
  next_handle m' = next_handle m ->
  ids m' ty = delete h (ids m ty) -> (forall ty', ty' <> ty -> ids m' ty' = ids m ty') ->
  id_to_handle m' = delete i (id_to_handle m) ->
  handle_to_type m' = delete h (handle_to_type m) -> mgr_inv m'.
Proof.
  intros [I1 I2 I3 I4] Hh Hn Hty Hty' Hx Ht.
  assert (handle_to_type m !! h = Some ty) as Hth by (apply I1; by eexists).
  assert (forall k t, ids m' t !! k = if decide (k = h) then None else ids m t !! k) as Hids.
  { intros k t. destruct (decide (t = ty)) as [->|Hne].
    - rewrite Hty. destruct (decide (k = h)) as [->|Hk];
        [by rewrite lookup_delete_eq|by rewrite lookup_delete_ne].
    - rewrite Hty' by done. destruct (decide (k = h)) as [->|Hk]; [|done].
      destruct (ids m t !! h) as [x|] eqn:E; [|done].
      assert (handle_to_type m !! h = Some t) by (apply I1; by eexists). congruence. }
  constructor.
  - intros k t. rewrite Ht, Hids. destruct (decide (k = h)) as [->|Hk].
    + rewrite lookup_delete_eq. split; [done|by intros []].
    + rewrite lookup_delete_ne by done. apply I1.
  - intros j k. rewrite Hx. intros [Hj Hl]%lookup_delete_Some.
    destruct (I2 _ _ Hl) as [t E]. exists t. rewrite Hids, decide_False; [done|]. intros ->.
    assert (handle_to_type m !! h = Some t) by (apply I1; by eexists). congruence.
  - intros k t. rewrite Ht, Hn. intros [_ Hl]%lookup_delete_Some. by eapply I3.
  - intros k t j. rewrite Hids. case_decide; [done|]. apply I4.
Qed.

(** The body of the loop over the terminated transactions of one kind. *)
Definition remove_at (ty : TransactionType) (m : TransactionManager)
  (p : TransactionHandle * TransactionId) : TransactionManager :=
  unindex
    match ty with
    | TInviteClient => m <| invite_clients := delete p.1 (invite_clients m) |>
    | TNonInviteClient => m <| non_invite_clients := delete p.1 (non_invite_clients m) |>
    | TInviteServer => m <| invite_servers := delete p.1 (invite_servers m) |>
    | TNonInviteServer => m <| non_invite_servers := delete p.1 (non_invite_servers m) |>
    end p.

Definition del_if (b : bool) {T} (L : list (TransactionHandle * TransactionId))
  (mp : gmap TransactionHandle T) : gmap TransactionHandle T :=
  if b then del_handles L mp else mp.

(** A block touches its own map, the indices, and nothing else. *)
Record block_of (ty : TransactionType) (L : list (TransactionHandle * TransactionId))
  (m m' : TransactionManager) : Prop := {
  blk_ic : invite_clients m' = del_if (bool_decide (ty = TInviteClient)) L (invite_clients m);
  blk_nc : non_invite_clients m' =
    del_if (bool_decide (ty = TNonInviteClient)) L (non_invite_clients m);
  blk_is : invite_servers m' = del_if (bool_decide (ty = TInviteServer)) L (invite_servers m);
  blk_ns : non_invite_servers m' =
    del_if (bool_decide (ty = TNonInviteServer)) L (non_invite_servers m);
  blk_next : next_handle m' = next_handle m;
  blk_actions : m_actions m' = m_actions m;
  blk_reliable : m_reliable m' = m_reliable m
}.

Lemma block_spec ty L m : block_of ty L m (fold_left (remove_at ty) L m).
Proof.
  revert m. induction L as [|p L IH]; intros m.
  - constructor; try done; by case_bool_decide.
  - cbn [fold_left]. destruct (IH (remove_at ty m p)) as [H1 H2 H3 H4 H5 H6 H7].
    constructor; [rewrite H1|rewrite H2|rewrite H3|rewrite H4|rewrite H5|rewrite H6|rewrite H7];
      by destruct ty.
Qed.

Lemma block_inv ty L m :
  mgr_inv m -> NoDup L.*1 -> (forall h i, (h, i) ∈ L -> ids m ty !! h = Some i) ->
  mgr_inv (fold_left (remove_at ty) L m).
Proof.
  revert m. induction L as [|[h i] L IH]; intros m Hi Hd Hl; [done|].
  rewrite fmap_cons in Hd. apply NoDup_cons in Hd as [Hh Hd]. cbn [fold_left].
  assert (ids (remove_at ty m (h, i)) ty = delete h (ids m ty)) as E
    by (destruct ty; simpl; by rewrite fmap_delete).
  apply IH; [|done|].
  - apply (remove_inv m _ ty h i);
      [done|apply Hl; by left|by destruct ty|done| |by destruct ty|by destruct ty].
    destruct ty; by intros [].
  - intros k j Hk. rewrite E, lookup_delete_ne; [apply Hl; by right|].
    intros ->. apply Hh. apply list_elem_of_fmap. by exists (k, j).
Qed.

Lemma terminated_ids {T} (term : T -> bool) (id : T -> TransactionId)
    (txs : gmap TransactionHandle T) h i :
  (h, i) ∈ terminated_of term id txs -> (id <$> txs) !! h = Some i.
Proof.
  intros (tx & Hl & _ & <-)%terminated_of_spec. by rewrite lookup_fmap, Hl.
Qed.

(** [cleanup_terminated] as four blocks. *)
Lemma cleanup_blocks m :
  mgr_inv m ->
  mgr_inv (cleanup_terminated m) /\
  exists L1 L2 L3 L4 m1 m2 m3,
    L1 = terminated_of InviteClient.is_terminated InviteClient.id (invite_clients m) /\
    L2 = terminated_of NonInviteClient.is_terminated NonInviteClient.id (non_invite_clients m) /\
    L3 = terminated_of InviteServer.is_terminated InviteServer.id (invite_servers m) /\
    L4 = terminated_of NonInviteServer.is_terminated NonInviteServer.id (non_invite_servers m) /\
    block_of TInviteClient L1 m m1 /\ block_of TNonInviteClient L2 m1 m2 /\
    block_of TInviteServer L3 m2 m3 /\ block_of TNonInviteServer L4 m3 (cleanup_terminated m).
Proof.
  intros Hi. unfold cleanup_terminated.
  change (fun m p => unindex (m <| invite_clients := delete p.1 (invite_clients m) |>) p)
    with (remove_at TInviteClient).
  change (fun m p => unindex (m <| non_invite_clients := delete p.1 (non_invite_clients m) |>) p)
    with (remove_at TNonInviteClient).
  change (fun m p => unindex (m <| invite_servers := delete p.1 (invite_servers m) |>) p)
    with (remove_at TInviteServer).
  change (fun m p => unindex (m <| non_invite_servers := delete p.1 (non_invite_servers m) |>) p)
    with (remove_at TNonInviteServer).
  cbv zeta.
  set (L1 := terminated_of _ _ (invite_clients m)).
  pose proof (block_spec TInviteClient L1 m) as B1.
  assert (mgr_inv (fold_left (remove_at TInviteClient) L1 m)) as I1
    by (apply block_inv; [done|apply terminated_of_nodup|apply terminated_ids]).
  set (m1 := fold_left _ L1 m) in *. clearbody m1.
  set (L2 := terminated_of _ _ (non_invite_clients m1)).
  pose proof (block_spec TNonInviteClient L2 m1) as B2.
  assert (mgr_inv (fold_left (remove_at TNonInviteClient) L2 m1)) as I2
    by (apply block_inv; [done|apply terminated_of_nodup|apply terminated_ids]).
  set (m2 := fold_left _ L2 m1) in *. clearbody m2.
  set (L3 := terminated_of _ _ (invite_servers m2)).
  pose proof (block_spec TInviteServer L3 m2) as B3.
  assert (mgr_inv (fold_left (remove_at TInviteServer) L3 m2)) as I3
    by (apply block_inv; [done|apply terminated_of_nodup|apply terminated_ids]).
  set (m3 := fold_left _ L3 m2) in *. clearbody m3.
  set (L4 := terminated_of _ _ (non_invite_servers m3)).
  pose proof (block_spec TNonInviteServer L4 m3) as B4.
  split; [by apply block_inv; [|apply terminated_of_nodup|apply terminated_ids]|].
  exists L1, L2, L3, L4, m1, m2, m3.
  destruct B1 as [B1a B1b B1c B1d], B2 as [B2a B2b B2c B2d], B3 as [B3a B3b B3c B3d].
  simpl in *. split_and!; try done; unfold L2, L3, L4;
    by rewrite ?B3d, ?B2d, ?B2c, ?B1d, ?B1c, ?B1b.
Qed.

(** ** Runs of the manager *)

Inductive Op : Type :=
| OpCreate (r : Request)
| OpMessage (order : list TransactionHandle) (msg : SipMessage.Message)
| OpTimeout (h : TransactionHandle) (t : Timer.t)
| OpRespond (h : TransactionHandle) (r : Response)
| OpTransportError (h : TransactionHandle)
| OpPoll
| OpCleanup.

Definition exec (m : TransactionManager) (op : Op) : TransactionManager :=
  match op with
  | OpCreate r => (create_client_transaction r m).2
  | OpMessage order msg => handle_message order msg m
  | OpTimeout h t => mgr_handle_timeout h t m
  | OpRespond h r => mgr_send_response h r m
  | OpTransportError h => mgr_handle_transport_error h m
  | OpPoll => (mgr_poll_actions m).2
  | OpCleanup => cleanup_terminated m
  end.

Definition run (reliable : bool) (ops : list Op) : TransactionManager :=
  fold_left exec ops (mgr_new reliable).

Lemma mgr_new_inv rel : mgr_inv (mgr_new rel).
Proof.
  constructor; simpl.
  - intros h ty. rewrite lookup_empty. split; [done|]. destruct ty; simpl;
      rewrite fmap_empty, lookup_empty; by intros [].
  - intros i h. by rewrite lookup_empty.
  - intros h ty. by rewrite lookup_empty.
  - intros h [] i; simpl; by rewrite fmap_empty, lookup_empty.
Qed.

Lemma exec_inv m op :
  mgr_inv m -> 1 <= next_handle m -> next_handle m + 1 < 2 ^ 64 ->
  mgr_inv (exec m op) /\ next_handle m <= next_handle (exec m op) <= next_handle m + 1.
Proof.
  intros Hi H1 Hn.
  assert (forall m', same_view m m' ->
    mgr_inv m' /\ next_handle m <= next_handle m' <= next_handle m + 1) as V.
  { intros m' Hv. split; [by eapply mgr_inv_view|]. rewrite (sv_next _ _ Hv). lia. }
  destruct op as [r|o [r|r]|h t|h r|h| |]; simpl.
  - destruct (create_client_inv r m Hi H1 Hn) as [? ?]. split; [done|lia].
  - by apply request_inv.
  - apply V, response_view.
  - apply V, timeout_view.
  - apply V, send_response_view.
  - apply V, transport_error_view.
  - exact (V _ (poll_view m)).
  - destruct (cleanup_blocks m Hi) as (Hc & L1 & L2 & L3 & L4 & m1 & m2 & m3 & _ & _ & _ & _ &
      [_ _ _ _ E1] & [_ _ _ _ E2] & [_ _ _ _ E3] & [_ _ _ _ E4]). split; [done|]. lia.
Qed.

Lemma run_inv_from ops m :
  mgr_inv m -> 1 <= next_handle m -> next_handle m + Z.of_nat (length ops) < 2 ^ 64 ->
  mgr_inv (fold_left exec ops m).
Proof.
  revert m. induction ops as [|op ops IH]; intros m Hi H1 Hn; [done|].
  simpl length in Hn. destruct (exec_inv m op Hi H1) as [Hi' Hb]; [lia|].
  cbn [fold_left]. apply IH; [done|lia|lia].
Qed.

(** *** The manager drives the machines through their interface *)

(** Every stored transaction was created by its constructor and has evolved by
    handler calls, each polled. *)
Record all_evolved (rel : bool) (m : TransactionManager) : Prop := {
  ae_rel : m_reliable m = rel;
  ae_ic : forall h tx, invite_clients m !! h = Some tx ->
    exists req tx0, InviteClient.new req rel = Some tx0 /\ evolved tx0 tx;
  ae_nc : forall h tx, non_invite_clients m !! h = Some tx ->
    exists req tx0, NonInviteClient.new req rel = Some tx0 /\ evolved tx0 tx;
  ae_is : forall h tx, invite_servers m !! h = Some tx ->
    exists req tx0, InviteServer.new req rel = Some tx0 /\ evolved tx0 tx;
  ae_ns : forall h tx, non_invite_servers m !! h = Some tx ->
    exists req tx0, NonInviteServer.new req rel = Some tx0 /\ evolved tx0 tx
}.

Ltac put_insert :=
  intros Hm Hx; destruct Hm; constructor; try done;
  intros k tx0; simpl; rewrite lookup_insert; case_decide; subst;
  [intros ?; simplify_eq; exact Hx | eauto].

Lemma put_ic_evolved rel h tx m :
  all_evolved rel m ->
  (exists req tx0, InviteClient.new req rel = Some tx0 /\
     evolved tx0 (InviteClient.poll_actions tx).2) ->
  all_evolved rel (put_invite_client h tx m).
Proof. put_insert. Qed.

Lemma put_nc_evolved rel h tx m :
  all_evolved rel m ->
  (exists req tx0, NonInviteClient.new req rel = Some tx0 /\
     evolved tx0 (NonInviteClient.poll_actions tx).2) ->
  all_evolved rel (put_non_invite_client h tx m).
Proof. put_insert. Qed.

Lemma put_is_evolved rel h tx m :
  all_evolved rel m ->
  (exists req tx0, InviteServer.new req rel = Some tx0 /\
     evolved tx0 (InviteServer.poll_actions tx).2) ->
  all_evolved rel (put_invite_server h tx m).
Proof. put_insert. Qed.

Lemma put_ns_evolved rel h tx m :
  all_evolved rel m ->
  (exists req tx0, NonInviteServer.new req rel = Some tx0 /\
     evolved tx0 (NonInviteServer.poll_actions tx).2) ->
  all_evolved rel (put_non_invite_server h tx m).
Proof. put_insert. Qed.

(** The indices do not matter. *)
Lemma index_evolved rel i h ty m : all_evolved rel m -> all_evolved rel (index i h ty m).
Proof. by intros []. Qed.

Section Steps.
Context (rel : bool) (m : TransactionManager) (Hm : all_evolved rel m).

Lemma ic_step h tx i :
  invite_clients m !! h = Some tx ->
  all_evolved rel (put_invite_client h (InviteClient.handle_input tx i) m).
Proof.
  intros Hl. apply put_ic_evolved; [done|].
  destruct (ae_ic _ _ Hm _ _ Hl) as (req & tx0 & Hn & He).
  exists req, tx0. split; [done|]. exact (Evolved_step tx0 tx i He).
Qed.

Lemma nc_step h tx i :
  non_invite_clients m !! h = Some tx ->
  all_evolved rel (put_non_invite_client h (NonInviteClient.handle_input tx i) m).
Proof.
  intros Hl. apply put_nc_evolved; [done|].
  destruct (ae_nc _ _ Hm _ _ Hl) as (req & tx0 & Hn & He).
  exists req, tx0. split; [done|]. exact (Evolved_step tx0 tx i He).
Qed.

Lemma is_step h tx i :
  invite_servers m !! h = Some tx ->
  all_evolved rel (put_invite_server h (InviteServer.handle_input tx i) m).
Proof.
  intros Hl. apply put_is_evolved; [done|].
  destruct (ae_is _ _ Hm _ _ Hl) as (req & tx0 & Hn & He).
  exists req, tx0. split; [done|]. exact (Evolved_step tx0 tx i He).
Qed.

Lemma ns_step h tx i :
  non_invite_servers m !! h = Some tx ->
  all_evolved rel (put_non_invite_server h (NonInviteServer.handle_input tx i) m).
Proof.
  intros Hl. apply put_ns_evolved; [done|].
  destruct (ae_ns _ _ Hm _ _ Hl) as (req & tx0 & Hn & He).
  exists req, tx0. split; [done|]. exact (Evolved_step tx0 tx i He).
Qed.

Lemma timeout_evolved h t : all_evolved rel (mgr_handle_timeout h t m).
Proof.
  unfold mgr_handle_timeout. repeat case_match; try done;
    [by apply (ic_step _ _ (InviteClient.InTimeout t))
    |by apply (nc_step _ _ (NonInviteClient.InTimeout t))
    |by apply (is_step _ _ (InviteServer.InTimeout t))
    |by apply (ns_step _ _ (NonInviteServer.InTimeout t))].
Qed.

Lemma response_evolved r : all_evolved rel (mgr_handle_response r m).
Proof.
  unfold mgr_handle_response. repeat case_match; try done;
    [by apply (ic_step _ _ (InviteClient.InResponse r))
    |by apply (nc_step _ _ (NonInviteClient.InResponse r))].
Qed.

Lemma send_response_evolved h r : all_evolved rel (mgr_send_response h r m).
Proof.
  unfold mgr_send_response. repeat case_match; try done;
    [by apply (is_step _ _ (InviteServer.InRespond r))
    |by apply (ns_step _ _ (NonInviteServer.InRespond r))].
Qed.

Lemma transport_error_evolved h : all_evolved rel (mgr_handle_transport_error h m).
Proof.
  unfold mgr_handle_transport_error. repeat case_match; try done;
    [by apply (ic_step _ _ InviteClient.InTransportError)
    |by apply (nc_step _ _ NonInviteClient.InTransportError)
    |by apply (is_step _ _ InviteServer.InTransportError)
    |by apply (ns_step _ _ NonInviteServer.InTransportError)].
Qed.

Lemma route_prack_evolved o r : all_evolved rel (route_prack o r m).
Proof.
  unfold route_prack. repeat case_match; try done.
  by apply (is_step _ _ (InviteServer.InEvent (InviteServer.PrackReceived _))).
Qed.

Lemma route_request_evolved h r : all_evolved rel (route_request h r m).
Proof.
  unfold route_request. repeat case_match; try done;
    [by apply (is_step _ _ (InviteServer.InRequest r))
    |by apply (ns_step _ _ (NonInviteServer.InRequest r))].
Qed.

Lemma alloc_evolved : all_evolved rel (alloc_handle m).2.
Proof. by destruct Hm. Qed.

End Steps.

Lemma create_client_evolved rel r m :
  all_evolved rel m -> all_evolved rel (create_client_transaction r m).2.
Proof.
  intros Hm%alloc_evolved. unfold create_client_transaction.
  destruct (alloc_handle m) as [h m1]. simpl in Hm. case_bool_decide.
  - destruct (InviteClient.new r _) as [tx|] eqn:E; [|done].
    rewrite (ae_rel _ _ Hm) in E. apply index_evolved, put_ic_evolved; [done|].
    exists r, tx. split; [done|]. exact (Evolved_start tx).
  - destruct (NonInviteClient.new r _) as [tx|] eqn:E; [|done].
    rewrite (ae_rel _ _ Hm) in E. apply index_evolved, put_nc_evolved; [done|].
    exists r, tx. split; [done|]. exact (Evolved_start tx).
Qed.

Lemma create_server_evolved rel r m :
  all_evolved rel m -> all_evolved rel (create_server r m).
Proof.
  intros Hm%alloc_evolved. unfold create_server.
  destruct (alloc_handle m) as [h m1]. simpl in Hm. repeat case_bool_decide; try done.
  - destruct (InviteServer.new r _) as [tx|] eqn:E; [|done].
    rewrite (ae_rel _ _ Hm) in E. apply index_evolved, put_is_evolved; [done|].
    exists r, tx. split; [done|]. exact (Evolved_start tx).
  - destruct (NonInviteServer.new r _) as [tx|] eqn:E; [|done].
    rewrite (ae_rel _ _ Hm) in E. apply index_evolved, put_ns_evolved; [done|].
    exists r, tx. split; [done|]. exact (Evolved_start tx).
Qed.

Lemma request_evolved rel o r m :
  all_evolved rel m -> all_evolved rel (mgr_handle_request o r m).
Proof.
  intros Hm. unfold mgr_handle_request.
  set (m' := if bool_decide _ then _ else _).
  assert (all_evolved rel m') as Hm'
    by (unfold m'; case_bool_decide; [by apply route_prack_evolved|done]).
  clearbody m'. destruct (from_request r) as [i|]; [|by apply create_server_evolved].
  destruct (id_to_handle m' !! i); [by apply route_request_evolved|].
  by apply create_server_evolved.
Qed.

Lemma block_evolved rel ty L m m' :
  block_of ty L m m' -> all_evolved rel m -> all_evolved rel m'.
Proof.
  intros [B1 B2 B3 B4 _ _ B5] [H0 H1 H2 H3 H4].
  assert (forall b T (mp : gmap TransactionHandle T) h tx,
    del_if b L mp !! h = Some tx -> mp !! h = Some tx) as D.
  { intros [] T mp h tx; simpl; [|done]. rewrite del_handles_lookup. by destruct (decide (h ∈ L.*1)). }
  constructor; [congruence|rewrite B1|rewrite B2|rewrite B3|rewrite B4];
    intros h tx Hl%D; eauto.
Qed.

Lemma exec_evolved rel m op : mgr_inv m -> all_evolved rel m -> all_evolved rel (exec m op).
Proof.
  intros Hi Hm. destruct op as [r|o [r|r]|h t|h r|h| |]; cbn [exec handle_message].
  - by apply create_client_evolved.
  - by apply request_evolved.
  - by apply response_evolved.
  - by apply timeout_evolved.
  - by apply send_response_evolved.
  - by apply transport_error_evolved.
  - by destruct Hm.
  - destruct (cleanup_blocks m Hi) as (_ & L1 & L2 & L3 & L4 & m1 & m2 & m3 & _ & _ & _ & _ &
      B1 & B2 & B3 & B4). eauto using block_evolved.
Qed.

(** ** Theorems *)

(** C4: The manager's indices are consistent in every run (of fewer than 2^64 - 1
    operations, so that no handle is reused): a handle has a type exactly when the
    map of that type holds a transaction under it, no handle is in two maps, all
    handles were issued, an indexed transaction id leads to a stored transaction
    with exactly that id, and INVITE ids are in the INVITE maps. *)
Theorem manager_invariant rel ops :
  Z.of_nat (length ops) < 2 ^ 64 - 1 -> mgr_inv (run rel ops).
Proof.
  intros Hl. apply run_inv_from; [apply mgr_new_inv|simpl; lia|]. simpl next_handle. lia.
Qed.

Lemma manager_invariant_witness :
  mgr_inv (run false [OpCreate (sample_request Invite); OpCleanup]).
Proof. apply (manager_invariant false). reflexivity. Defined.

(** C3: The manager drives its transactions only through their interface: in every
    run each stored transaction was made by the constructor of its kind, for the
    manager's transport, and changed by handler calls each followed by a poll, so
    the four machines' theorems speak about what the manager stores. *)
Theorem manager_refines_machines rel ops :
  Z.of_nat (length ops) < 2 ^ 64 - 1 -> all_evolved rel (run rel ops).
Proof.
  intros Hl. unfold run.
  assert (forall ops m, mgr_inv m -> 1 <= next_handle m ->
    next_handle m + Z.of_nat (length ops) < 2 ^ 64 -> all_evolved rel m ->
    all_evolved rel (fold_left exec ops m)) as F.
  { clear. intros ops. induction ops as [|op ops IH]; intros m Hi H1 Hn Hm; [done|].
    simpl length in Hn. destruct (exec_inv m op Hi H1) as [Hi' Hb]; [lia|].
    cbn [fold_left]. apply IH; [done|lia|lia|by apply exec_evolved]. }
  apply F; [apply mgr_new_inv|simpl; lia|simpl next_handle; lia|].
  constructor; [done|..]; intros h tx He; simpl in He; rewrite lookup_empty in He;
    discriminate He.
Qed.

Lemma manager_refines_machines_witness :
  all_evolved true (run true [OpCreate (sample_request Invite);
    OpMessage [] (MResponse (sample_response Invite 180))]).
Proof. apply (manager_refines_machines true). reflexivity. Defined.

(** Cleanup removes exactly the terminated transactions, of all four kinds, and
    leaves no index entry that points to a removed one. *)
Theorem cleanup_exact m :
  mgr_inv m ->
  let m' := cleanup_terminated m in
  (forall h tx, invite_clients m' !! h = Some tx <->
     invite_clients m !! h = Some tx /\ InviteClient.is_terminated tx = false) /\
  (forall h tx, non_invite_clients m' !! h = Some tx <->
     non_invite_clients m !! h = Some tx /\ NonInviteClient.is_terminated tx = false) /\
  (forall h tx, invite_servers m' !! h = Some tx <->
     invite_servers m !! h = Some tx /\ InviteServer.is_terminated tx = false) /\
  (forall h tx, non_invite_servers m' !! h = Some tx <->
     non_invite_servers m !! h = Some tx /\ NonInviteServer.is_terminated tx = false) /\
  (forall i h, id_to_handle m' !! i = Some h -> exists ty, ids m' ty !! h = Some i) /\
  m_actions m' = m_actions m.
Proof.
  intros Hi m'. destruct (cleanup_blocks m Hi) as (Hc & L1 & L2 & L3 & L4 & m1 & m2 & m3 &
    -> & -> & -> & -> & [A1 A2 A3 A4 _ A6] & [B1 B2 B3 B4 _ B6] & [C1 C2 C3 C4 _ C6] &
    [D1 D2 D3 D4 _ D6]). fold m' in D1, D2, D3, D4, D6, Hc.
  simpl in *. split_and!.
  - intros h tx. rewrite D1, C1, B1, A1. apply del_terminated.
  - intros h tx. rewrite D2, C2, B2, A2. apply del_terminated.
  - intros h tx. rewrite D3, C3, B3, A3. apply del_terminated.
  - intros h tx. rewrite D4, C4, B4, A4. apply del_terminated.
  - apply (inv_idx _ Hc).
  - congruence.
Qed.

Lemma cleanup_exact_witness :
  exists m, mgr_inv m /\ is_some (non_invite_servers m !! 1) = true /\
    non_invite_servers (cleanup_terminated m) !! 1 = None.
Proof.
  set (ops := [OpMessage [] (MRequest (sample_request Bye));
               OpRespond 1 (sample_response Bye 200)]).
  assert (mgr_inv (run true ops)) as Hi
    by (apply run_inv_from; [apply mgr_new_inv|discriminate|reflexivity]).
  exists (run true ops). split; [exact Hi|]. split; [vm_compute; reflexivity|].
  destruct (cleanup_exact (run true ops) Hi) as (_ & _ & _ & H & _).
  specialize (H 1). destruct (non_invite_servers (cleanup_terminated _) !! 1) as [tx|];
    [exfalso|reflexivity].
  destruct (proj1 (H tx) eq_refl) as [Hl Ht].
  assert (NonInviteServer.is_terminated <$> non_invite_servers (run true ops) !! 1 = Some true)
    as Hc by (vm_compute; reflexivity).
  rewrite Hl in Hc. cbn in Hc. apply (inj Some) in Hc. rewrite Hc in Ht. discriminate Ht.
Defined.

(** A response reaches at most one transaction: the client transaction stored
    under the response's id. That transaction handles it once, its actions are
    appended in order, and every other transaction of all four kinds, and the
    indices, stay as they were. *)
Theorem response_routing m r i :
  mgr_inv m -> from_response r = Some i ->
  let m' := mgr_handle_response r m in
  (forall h tx, invite_clients m !! h = Some tx ->
     if decide (id_to_handle m !! i = Some h)
     then invite_clients m' !! h = Some (InviteClient.poll_actions
            (InviteClient.handle_response r tx)).2 /\
          m_actions m' = m_actions m ++ flat_map (invite_client_action h)
            (InviteClient.actions (InviteClient.handle_response r tx))
     else invite_clients m' !! h = Some tx) /\
  (forall h tx, non_invite_clients m !! h = Some tx ->
     if decide (id_to_handle m !! i = Some h)
     then non_invite_clients m' !! h = Some (NonInviteClient.poll_actions
            (NonInviteClient.handle_response r tx)).2 /\
          m_actions m' = m_actions m ++ flat_map (non_invite_client_action h)
            (NonInviteClient.actions (NonInviteClient.handle_response r tx))
     else non_invite_clients m' !! h = Some tx) /\
  invite_servers m' = invite_servers m /\ non_invite_servers m' = non_invite_servers m /\
  id_to_handle m' = id_to_handle m /\ handle_to_type m' = handle_to_type m /\
  (id_to_handle m !! i = None -> m' = m).
Proof.
  intros [I1 I2 I3 I4] Hr m'. unfold m', mgr_handle_response. rewrite Hr.
  destruct (id_to_handle m !! i) as [h0|] eqn:Ei.
  2:{ split_and!; try done; intros h tx Hl; by rewrite decide_False by done. }
  assert (forall h tx, invite_clients m !! h = Some tx ->
    handle_to_type m !! h = Some TInviteClient) as T1.
  { intros h tx Hl. apply I1. simpl. rewrite lookup_fmap, Hl. by eexists. }
  assert (forall h tx, non_invite_clients m !! h = Some tx ->
    handle_to_type m !! h = Some TNonInviteClient) as T2.
  { intros h tx Hl. apply I1. simpl. rewrite lookup_fmap, Hl. by eexists. }
  destruct (handle_to_type m !! h0) as [ty|] eqn:Ety;
    [destruct ty|]; try destruct (invite_clients m !! h0) as [tx0|] eqn:E1;
    try destruct (non_invite_clients m !! h0) as [tx1|] eqn:E2;
    try (specialize (T1 _ _ E1); congruence); try (specialize (T2 _ _ E2); congruence);
    simpl; split_and!; try done; intros h tx Hl;
    destruct (decide (Some h0 = Some h)) as [[= ->]|Hne]; try done; try congruence;
    rewrite ?lookup_insert_eq, ?lookup_insert_ne by congruence; try done; simplify_eq; done.
Qed.

(** Retransmissions do not multiply transactions: a request whose id is indexed
    (any but PRACK, which is routed first) creates no transaction, keeps every
    handle, and if the id belongs to a server transaction it is handed to exactly
    that one. *)
Theorem retransmission_absorbed o m r i h :
  mgr_inv m -> from_request r = Some i -> id_to_handle m !! i = Some h ->
  req_method r <> Prack ->
  let m' := mgr_handle_request o r m in
  same_view m m' /\
  (forall tx, invite_servers m !! h = Some tx ->
     invite_servers m' = <[h := (InviteServer.poll_actions
       (InviteServer.handle_request r tx)).2]> (invite_servers m)) /\
  (forall tx, non_invite_servers m !! h = Some tx ->
     non_invite_servers m' = <[h := (NonInviteServer.poll_actions
       (NonInviteServer.handle_request r tx)).2]> (non_invite_servers m)).
Proof.
  intros [I1 _ _ _] Hf Hi Hp m'. unfold m', mgr_handle_request.
  rewrite bool_decide_false by done. rewrite Hf, Hi. split; [apply route_request_view|].
  unfold route_request. split; intros tx Hl.
  - assert (handle_to_type m !! h = Some TInviteServer) as ->
      by (apply I1; simpl; rewrite lookup_fmap, Hl; by eexists). by rewrite Hl.
  - assert (handle_to_type m !! h = Some TNonInviteServer) as ->
      by (apply I1; simpl; rewrite lookup_fmap, Hl; by eexists). by rewrite Hl.
Qed.

(** An ACK never reaches an INVITE server transaction through the manager: its
    id is made from the method of the request, so it is not the id of the INVITE,
    and the INVITE server transactions stay as they were; one that waits in
    Completed is left to Timer H. *)
Theorem ack_never_reaches_invite_server o m ack :
  mgr_inv m -> req_method ack = Ack ->
  invite_servers (mgr_handle_request o ack m) = invite_servers m.
Proof.
  intros [I1 I2 I3 I4] Hm. unfold mgr_handle_request.
  rewrite bool_decide_false by congruence.
  assert (invite_servers (create_server ack m) = invite_servers m) as Hc.
  { unfold create_server. destruct (alloc_handle m) as [h m1] eqn:E.
    assert (invite_servers m1 = invite_servers m) as <-
      by (unfold alloc_handle in E; by simplify_eq).
    rewrite bool_decide_false, bool_decide_true by congruence. done. }
  destruct (from_request ack) as [i|] eqn:Hf; [|done].
  destruct (id_to_handle m !! i) as [h|] eqn:Hi; [|done].
  destruct (I2 _ _ Hi) as [ty Hty]. pose proof (I4 _ _ _ Hty) as Hinv.
  rewrite (from_request_method _ _ Hf), Hm, bool_decide_false in Hinv by done.
  assert (handle_to_type m !! h = Some ty) as Ht by (apply I1; by eexists).
  unfold route_request. rewrite Ht. destruct ty; try done. by repeat case_match.
Qed.

(** A PRACK is matched to its call: if exactly one INVITE server transaction is
    of the PRACK's dialog, whatever the iteration order, the acknowledged RSeq
    leaves that transaction's buffer, all its other reliable provisionals stay,
    and no other INVITE server transaction changes. *)
Theorem prack_reaches_its_call order m r rack call_id from_tag h tx :
  req_method r = Prack -> req_rack r = Some rack -> req_call_id r = Ok call_id ->
  req_from_tag r = Ok from_tag ->
  invite_servers m !! h = Some tx -> matches_invite_dialog tx call_id from_tag = true ->
  (forall h' tx', invite_servers m !! h' = Some tx' ->
     matches_invite_dialog tx' call_id from_tag = true -> h' = h) ->
  order ≡ₚ (map_to_list (invite_servers m)).*1 ->
  let m' := route_prack order r m in
  (exists tx', invite_servers m' !! h = Some tx' /\
     reliable_provisionals tx' =
       List.filter (fun e => negb (rseq e =? RAck.rseq rack)) (reliable_provisionals tx)) /\
  (forall h', h' <> h -> invite_servers m' !! h' = invite_servers m !! h').
Proof.
  intros _ Hra Hci Hft Hl Hmt Hu Ho m'. unfold m', route_prack. rewrite Hra, Hci, Hft.
  assert (prack_target order m call_id from_tag = Some h) as ->.
  { unfold prack_target. destruct (find _ order) as [h'|] eqn:E.
    - apply find_some in E as [_ E]. destruct (invite_servers m !! h') as [tx'|] eqn:E'; [|done].
      f_equal. by eapply Hu.
    - apply (find_none _ _) with (x := h) in E; [by rewrite Hl, Hmt in E|].
      apply list_elem_of_In. rewrite Ho. apply list_elem_of_fmap. exists (h, tx).
      split; [done|]. by apply elem_of_map_to_list. }
  rewrite Hl. simpl. split.
  - eexists. rewrite lookup_insert_eq. split; [reflexivity|]. simpl.
    unfold handle_prack_received. simpl. case_bool_decide; [done|].
    by destruct (List.filter _ _) eqn:E.
  - intros h' Hne. by rewrite lookup_insert_ne.
Qed.

(** *** Witnesses *)

Lemma response_routing_witness :
  exists i, from_response (sample_response Invite 180) = Some i /\
    id_to_handle (run false [OpCreate (sample_request Invite)]) !! i = Some 1 /\
    handle_to_type (mgr_handle_response (sample_response Invite 180)
      (run false [OpCreate (sample_request Invite)])) =
    handle_to_type (run false [OpCreate (sample_request Invite)]).
Proof.
  compute_some (from_response (sample_response Invite 180)) as i E.
  exists i. split; [reflexivity|]. split.
  - assert (option_map (fun i => id_to_handle (run false [OpCreate (sample_request Invite)]) !! i)
      (from_response (sample_response Invite 180)) = Some (Some 1)) as H
      by (vm_compute; reflexivity).
    rewrite E in H. cbn [option_map] in H. apply (inj Some) in H. exact H.
  - apply (response_routing (run false [OpCreate (sample_request Invite)]) _ i); [|exact E].
    apply run_inv_from; [apply mgr_new_inv|discriminate|reflexivity].
Defined.

Lemma retransmission_absorbed_witness :
  same_view (run false [OpMessage [] (MRequest (sample_request Invite))])
    (mgr_handle_request [] (sample_request Invite)
      (run false [OpMessage [] (MRequest (sample_request Invite))])).
Proof.
  compute_some (from_request (sample_request Invite)) as i E.
  assert (option_map (fun i =>
      id_to_handle (run false [OpMessage [] (MRequest (sample_request Invite))]) !! i)
    (from_request (sample_request Invite)) = Some (Some 1)) as H
    by (vm_compute; reflexivity).
  rewrite E in H. cbn [option_map] in H. apply (inj Some) in H.
  apply (retransmission_absorbed [] _ (sample_request Invite) i 1); [|exact E|exact H|].
  - apply run_inv_from; [apply mgr_new_inv|discriminate|reflexivity].
  - intros Hp. assert (req_method (sample_request Invite) = Invite) as Hi
      by (vm_compute; reflexivity). rewrite Hp in Hi. discriminate Hi.
Defined.

Lemma ack_never_reaches_invite_server_witness :
  invite_servers (mgr_handle_request [] (sample_request Ack)
    (run false [OpMessage [] (MRequest (sample_request Invite));
                OpRespond 1 (sample_response Invite 486)])) =
  invite_servers (run false [OpMessage [] (MRequest (sample_request Invite));
                             OpRespond 1 (sample_response Invite 486)]).
Proof.
  apply (ack_never_reaches_invite_server []).
  - apply run_inv_from; [apply mgr_new_inv|discriminate|reflexivity].
  - vm_compute. reflexivity.
Defined.

Definition sample_prack : Request :=
  or_empty (req_build (rq_rack 1 1 Invite (sample_builder Prack))).

Lemma prack_reaches_its_call_witness :
  exists tx0, InviteServer.new (sample_request Invite) false = Some tx0 /\
    exists tx', invite_servers (route_prack [1] sample_prack
      ((mgr_new false) <| invite_servers := {[1 := tx0]} |>)) !! 1 = Some tx' /\
      reliable_provisionals tx' = [].
Proof.
  compute_some (InviteServer.new (sample_request Invite) false) as tx0 E.
  exists tx0. split; [reflexivity|].
  assert (option_map (fun tx => matches_invite_dialog tx #"test@example.com" #"fromtag")
    (InviteServer.new (sample_request Invite) false) = Some true) as Hm
    by (vm_compute; reflexivity).
  rewrite E in Hm. cbn [option_map] in Hm. apply (inj Some) in Hm.
  compute_some (req_rack sample_prack) as rack R.
  destruct (prack_reaches_its_call [1] ((mgr_new false) <| invite_servers := {[1 := tx0]} |>)
    sample_prack rack #"test@example.com" #"fromtag" 1 tx0) as [(tx' & H1 & H2) _].
  - vm_compute. reflexivity.
  - exact R.
  - vm_compute. reflexivity.
  - vm_compute. reflexivity.
  - apply lookup_singleton_eq.
  - exact Hm.
  - intros h' tx' Hl _. change (({[1 := tx0]} : gmap Z _) !! h' = Some tx') in Hl.
    apply lookup_singleton_Some in Hl as [<- _]. reflexivity.
  - cbn. rewrite map_to_list_singleton. reflexivity.
  - exists tx'. split; [exact H1|]. rewrite H2.
    destruct (InviteServer.invite_server_new_spec _ _ _ E) as (_ & _ & _ & ->). reflexivity.
Defined.
