(* ===== verification/Dialog.v ===== *)
(** * INVITE dialogs ([dialog/state.rs], [dialog/invite.rs])

    Dialog identifiers, the dialog state ([DialogInfo]), and the INVITE dialog as a
    state machine that builds the in-dialog requests.  The random part of a branch
    ([Uuid::new_v4().simple()]) is an argument; [None] is a panic where a builder's
    [expect] fails. *)

From Stdlib Require Import Sorted.
From S2P Require Import Prelude RStr SipBase SipHeader SipUri SipTyped SipHeaders.
From S2P Require Import SipMessage SipBuild SipRoundtrip Sample.

Local Open Scope Z_scope.

(** ** [dialog/state.rs] *)

Record DialogId : Type := mkDialogId { d_call_id : str; d_local_tag : str; d_remote_tag : str }.

#[export] Instance DialogId_eq_dec : EqDecision DialogId.
Proof. solve_decision. Defined.

Definition from_request_uac (request : Request) (remote_tag : str) : option DialogId :=
  let* call_id := rok (req_call_id request) in
  let* local_tag := rok (req_from_tag request) in
  Some (mkDialogId call_id local_tag remote_tag).

Definition from_response_uac (response : Response) : option DialogId :=
  let* call_id := rok (resp_call_id response) in
  let* local_tag := rok (resp_from_tag response) in
  let* remote_tag := resp_to_tag response in
  Some (mkDialogId call_id local_tag remote_tag).

Definition from_request_uas (request : Request) (local_tag : str) : option DialogId :=
  let* call_id := rok (req_call_id request) in
  let* remote_tag := rok (req_from_tag request) in
  Some (mkDialogId call_id local_tag remote_tag).

Inductive DialogState : Type := Early | Confirmed | Terminating | Terminated.

#[export] Instance DialogState_eq_dec : EqDecision DialogState.
Proof. solve_decision. Defined.

(** [RouteSet] of [dialog/state.rs]. *)
Record DRouteSet : Type := mkRouteSet { routes : list str; loose_routing : bool }.

Definition route_set_empty : DRouteSet := mkRouteSet [] false.

Definition from_record_route_values (record_route_values : list str) (reverse : bool)
  : DRouteSet :=
  let record_routes := RecordRoute.parse_all record_route_values in
  let rs := map RecordRoute.to_header_value record_routes in
  let rs := if reverse then rev rs else rs in
  let loose := match record_routes with rr :: _ => RecordRoute.lr rr | [] => false end in
  mkRouteSet rs loose.

Record DialogInfo : Type := mkInfo {
  id : DialogId;
  state : DialogState;
  local_seq : Z;
  remote_seq : option Z;
  local_uri : str;
  remote_uri : str;
  remote_target : str;
  local_contact : str;
  route_set : DRouteSet;
  secure : bool
}.

#[export] Instance info_eta : Settable DialogInfo := fun x =>
  mkInfo (id x) (state x) (local_seq x) (remote_seq x) (local_uri x) (remote_uri x)
    (remote_target x) (local_contact x) (route_set x) (secure x).

Definition detect_secure_transport (request : Request) : bool :=
  match hs_via_headers_raw (r_headers request) with
  | [] => false
  | first_via :: _ =>
      let via_value := trim (default first_via (strip_prefix #"Via:" (trim first_via))) in
      match Via.parse via_value with
      | Ok via => eq_ignore_ascii_case (Via.protocol via) #"TLS"
      | Err _ => false
      end
  end.

Definition uri_or_empty (u : option SipUri) : str := default [] (uri_to_string <$> u).

Definition from_invite_response_uac (request : Request) (response : Response)
  (st : DialogState) : option DialogInfo :=
  let* id := from_response_uac response in
  let* local_uri := rok (req_from_uri request) in
  let* remote_uri := rok (req_to_uri request) in
  let* remote_target := resp_contact_uri response in
  let* local_seq := rok (req_cseq request) in
  let route_set := from_record_route_values (resp_record_routes response) true in
  let secure := detect_secure_transport request in
  let local_contact := uri_or_empty (req_contact_uri request) in
  Some (mkInfo id st local_seq None (uri_to_string local_uri) (uri_to_string remote_uri)
          (uri_to_string remote_target) local_contact route_set secure).

Definition from_invite_uas (request : Request) (local_tag local_contact : str)
  (st : DialogState) : option DialogInfo :=
  let* call_id := rok (req_call_id request) in
  let* (remote_tag, remote_uri) := rok (req_from_tag_and_uri request) in
  let id := mkDialogId call_id local_tag remote_tag in
  let* local_uri := rok (req_to_uri request) in
  let* remote_target := req_contact_uri request in
  let* remote_seq := rok (req_cseq request) in
  let route_set := from_record_route_values (req_record_routes request) false in
  let secure := detect_secure_transport request in
  Some (mkInfo id st 0 (Some remote_seq) (uri_to_string local_uri) (uri_to_string remote_uri)
          (uri_to_string remote_target) local_contact route_set secure).

(** The addition wraps, as in a release build. *)
Definition next_local_seq (i : DialogInfo) : Z * DialogInfo :=
  let n := wrap 32 (local_seq i + 1) in (n, i <| local_seq := n |>).

Definition update_remote_seq (seq : Z) (i : DialogInfo) : bool * DialogInfo :=
  match remote_seq i with
  | None => (true, i <| remote_seq := Some seq |>)
  | Some current =>
      if current <? seq then (true, i <| remote_seq := Some seq |>) else (false, i)
  end.

(** ** [dialog/invite.rs] *)

Inductive Role : Type := Uac | Uas.

#[export] Instance Role_eq_dec : EqDecision Role.
Proof. solve_decision. Defined.

Inductive TerminationReason : Type :=
| ByeSent
| ByeReceived_
| Rejected (code : Z)
| Cancelled
| Error (msg : str).

Inductive Event : Type :=
| Established
| Provisional (r : Response)
| ReInvite (r : Request)
| ByeReceived (r : Request)
| TerminatedE (reason : TerminationReason)
| SessionProgress (r : Response).

Inductive Action : Type :=
| SendRequest (r : Request)
| SendResponse (r : Response)
| EventA (e : Event).

Record InviteDialog : Type := mkDialog {
  info : DialogInfo;
  role : Role;
  invite : Request;
  actions : list Action;
  ack_done : bool
}.

#[export] Instance dialog_eta : Settable InviteDialog := fun x =>
  mkDialog (info x) (role x) (invite x) (actions x) (ack_done x).

Definition push (a : Action) (d : InviteDialog) : InviteDialog :=
  d <| actions := actions d ++ [a] |>.

Definition set_state (s : DialogState) (d : InviteDialog) : InviteDialog :=
  d <| info := (info d) <| state := s |> |>.

Definition new_uac (invite : Request) : InviteDialog :=
  let local_contact := uri_or_empty (req_contact_uri invite) in
  let i := mkInfo (mkDialogId [] [] []) Early (default 1 (rok (req_cseq invite))) None
             (uri_or_empty (rok (req_from_uri invite)))
             (uri_or_empty (rok (req_to_uri invite))) [] local_contact route_set_empty false in
  mkDialog i Uac invite [] false.

Definition new_uas (invite : Request) (local_tag local_contact : str) : option InviteDialog :=
  let* i := from_invite_uas invite local_tag local_contact Early in
  Some (mkDialog i Uas invite [] false).

Definition from_dialog_info (i : DialogInfo) (role : Role) : option InviteDialog :=
  let* invite := rok (req_build
    (rq_cseq (Z.max (local_seq i) 1)
    (rq_call_id (d_call_id (id i))
    (rq_to (remote_uri i)
    (rq_from (local_uri i) (d_local_tag (id i))
    (rq_via #"0.0.0.0" 5060 #"UDP" #"z9hG4bKplaceholder"
    (rq_uri (remote_uri i)
    (rq_method Invite req_builder)))))))) in
  Some (mkDialog i role invite [] false).

Definition is_terminated (d : InviteDialog) : bool :=
  bool_decide (state (info d) = Terminated).

Definition handle_response (response : Response) (d : InviteDialog) : InviteDialog :=
  if negb (bool_decide (role d = Uac)) then d else
  let code := resp_status_code response in
  match state (info d) with
  | Early =>
      if in_range 100 200 code then
        if negb (code =? 100) then
          let d := match from_invite_response_uac (invite d) response Early with
                   | Some new_info => d <| info := new_info |>
                   | None => d
                   end in
          let d := if code =? 183 then push (EventA (SessionProgress response)) d else d in
          push (EventA (Provisional response)) d
        else d
      else if in_range 200 300 code then
        let d := match from_invite_response_uac (invite d) response Confirmed with
                 | Some new_info => d <| info := new_info |>
                 | None => set_state Confirmed d
                 end in
        push (EventA Established) d
      else if 300 <=? code then
        push (EventA (TerminatedE (Rejected code))) (set_state Terminated d)
      else d
  | _ => d
  end.

Definition handle_request (request : Request) (d : InviteDialog) : InviteDialog :=
  match req_cseq request with
  | Err _ => d
  | Ok cseq =>
      match req_method request with
      | Bye =>
          let d := set_state Terminated d in
          let d := push (EventA (ByeReceived request)) d in
          push (EventA (TerminatedE ByeReceived_)) d
      | Invite =>
          if bool_decide (state (info d) = Confirmed) then
            let '(fresh, i) := update_remote_seq cseq (info d) in
            let d := d <| info := i |> in
            if fresh then push (EventA (ReInvite request)) d else d
          else d
      | Ack =>
          if bool_decide (role d = Uas) && bool_decide (state (info d) = Confirmed)
          then d <| ack_done := true |> else d
      | Cancel =>
          if bool_decide (state (info d) = Early) && bool_decide (role d = Uas)
          then push (EventA (TerminatedE Cancelled)) (set_state Terminated d)
          else d
      | _ => d
      end
  end.

Definition send_response (response : Response) (d : InviteDialog) : InviteDialog :=
  if negb (bool_decide (role d = Uas)) then d else
  let code := resp_status_code response in
  if in_range 200 300 code && bool_decide (state (info d) = Early) then
    let d := set_state Confirmed d in
    let d := push (SendResponse response) d in
    push (EventA Established) d
  else if (300 <=? code) && bool_decide (state (info d) = Early) then
    let d := set_state Terminated d in
    let d := push (SendResponse response) d in
    push (EventA (TerminatedE (Rejected code))) d
  else push (SendResponse response) d.

Definition branch_of (uuid : str) : str := #"z9hG4bK" ++ uuid.

Definition with_contact (i : DialogInfo) (b : ReqBuilder) : ReqBuilder :=
  if is_empty (local_contact i) then b else rq_contact (local_contact i) b.

(** What every in-dialog request has in common. *)
Definition in_dialog_builder (i : DialogInfo) (m : Method) (cseq : Z) (uuid : str)
  : ReqBuilder :=
  rq_max_forwards 70
  (rq_cseq cseq
  (rq_call_id (d_call_id (id i))
  (rq_to_tag (d_remote_tag (id i))
  (rq_to (remote_uri i)
  (rq_from (local_uri i) (d_local_tag (id i))
  (rq_via #"0.0.0.0" 5060 #"UDP" (branch_of uuid)
  (rq_uri (remote_target i)
  (rq_method m req_builder)))))))).

Definition add_headers (extra : list (str * str)) (b : ReqBuilder) : ReqBuilder :=
  fold_left (fun b kv => rq_header kv.1 kv.2 b) extra b.

(** Both roles use the same four fields. *)
Definition build_in_dialog_request_with (d : InviteDialog) (m : Method) (cseq : Z)
  (extra : list (str * str)) (uuid : str) : option Request :=
  rok (req_build
    (add_headers extra
    (with_contact (info d)
    (rq_route (routes (route_set (info d)))
    (in_dialog_builder (info d) m cseq uuid))))).

Definition build_in_dialog_request (d : InviteDialog) (m : Method) (cseq : Z) (uuid : str)
  : option Request := build_in_dialog_request_with d m cseq [] uuid.

Definition send_bye (uuid : str) (d : InviteDialog) : option Request * InviteDialog :=
  if negb (bool_decide (state (info d) = Confirmed)) then (None, d) else
  let d := set_state Terminating d in
  let '(cseq, i) := next_local_seq (info d) in
  let d := d <| info := i |> in
  match build_in_dialog_request d Bye cseq uuid with
  | None => (None, d)
  | Some bye => (Some bye, push (SendRequest bye) d)
  end.

Definition build_prack (resp : Response) (uuid : str) (d : InviteDialog)
  : option (Request * InviteDialog) :=
  let rseq := default 0 (RSeq.num <$> resp_rseq resp) in
  let cseq_orig := default 0 (rok (resp_cseq resp)) in
  let* cseq_method := rok (resp_cseq_method resp) in
  let '(cseq, i) := next_local_seq (info d) in
  let d := d <| info := i |> in
  let* r := rok (req_build
    (with_contact i
    (rq_route (routes (route_set i))
    (rq_rack rseq cseq_orig cseq_method
    (in_dialog_builder i Prack cseq uuid))))) in
  Some (r, d).

Definition allow_set : list Method := [Invite; Ack; Bye; Cancel; Options; Prack; Update].

Definition build_update (session_expires : option Z) (uuid : str) (d : InviteDialog)
  : option (Request * InviteDialog) :=
  let '(cseq, i) := next_local_seq (info d) in
  let d := d <| info := i |> in
  let b := with_contact i
    (rq_route (routes (route_set i))
    (rq_allow allow_set
    (in_dialog_builder i Update cseq uuid))) in
  let b := match session_expires with
           | Some secs => rq_supported [ #"timer"] (rq_session_expires secs (Some SipHeaders.Uac) b)
           | None => b
           end in
  let* r := rok (req_build b) in
  Some (r, d).

Definition handle_update (req : Request) (d : InviteDialog) : option Response :=
  let b := rs_allow allow_set (rs_from_request req (rs_status 200 #"OK" resp_builder)) in
  let b := if is_empty (local_contact (info d)) then b
           else rs_contact (local_contact (info d)) b in
  let b := match hs_session_expires (r_headers req) with
           | Some se =>
               rs_session_expires (SessionExpires.delta_seconds se) (SessionExpires.refresher se) b
           | None => b
           end in
  rok (resp_build b).

Definition build_bye_with_reason (reason uuid : str) (d : InviteDialog)
  : option Request * InviteDialog :=
  if negb (bool_decide (state (info d) = Confirmed)) then (None, d) else
  let cseq := Z.min u32_max (local_seq (info d) + 1) in
  match build_in_dialog_request_with d Bye cseq [(#"Reason", reason)] uuid with
  | None => (None, d)
  | Some bye =>
      let d := d <| info := (info d) <| local_seq := cseq |> |> in
      let d := set_state Terminating d in
      (Some bye, push (SendRequest bye) d)
  end.

Definition poll_actions (d : InviteDialog) : list Action * InviteDialog :=
  (actions d, d <| actions := [] |>).

Definition ack_sent (d : InviteDialog) : InviteDialog := d <| ack_done := true |>.

Definition is_ack_complete (d : InviteDialog) : bool := ack_done d.

(** ** Runs of a dialog

    An operation on the dialog, followed by a poll: the requests it built, the
    actions it queued, and the dialog.  [None] is a panic. *)
Inductive Op : Type :=
| OpResponse (r : Response)
| OpRequest (r : Request)
| OpSendResponse (r : Response)
| OpSendBye (uuid : str)
| OpPrack (r : Response) (uuid : str)
| OpUpdate (session_expires : option Z) (uuid : str)
| OpByeReason (reason uuid : str)
| OpAckSent.

Definition apply_op (d : InviteDialog) (op : Op) : option (list Request * InviteDialog) :=
  match op with
  | OpResponse r => Some ([], handle_response r d)
  | OpRequest r => Some ([], handle_request r d)
  | OpSendResponse r => Some ([], send_response r d)
  | OpSendBye uuid => let '(o, d) := send_bye uuid d in Some (option_list o, d)
  | OpPrack r uuid => let* (p, d) := build_prack r uuid d in Some ([p], d)
  | OpUpdate se uuid => let* (u, d) := build_update se uuid d in Some ([u], d)
  | OpByeReason reason uuid =>
      let '(o, d) := build_bye_with_reason reason uuid d in Some (option_list o, d)
  | OpAckSent => Some ([], ack_sent d)
  end.

Definition dstep (d : InviteDialog) (op : Op)
  : option (list Request * list Action * InviteDialog) :=
  let* (sent, d) := apply_op d op in
  let '(acts, d) := poll_actions d in
  Some (sent, acts, d).

Fixpoint drun (d : InviteDialog) (ops : list Op)
  : option (list Request * list Action * InviteDialog) :=
  match ops with
  | [] => Some ([], [], d)
  | op :: rest =>
      let* (sent, acts, d) := dstep d op in
      let* (sent', acts', d) := drun d rest in
      Some (sent ++ sent', acts ++ acts', d)
  end.

(** The branch suffix an operation uses. *)
Definition op_uuid (op : Op) : str :=
  match op with
  | OpSendBye u | OpPrack _ u | OpUpdate _ u | OpByeReason _ u => u
  | _ => []
  end.

(** The order of the life of a dialog. *)
Definition rank (s : DialogState) : Z :=
  match s with Early => 0 | Confirmed => 1 | Terminating => 2 | Terminated => 3 end.

Definition cseq_of (r : Request) : option Z := rok (req_cseq r).

(** The sequence numbers of the re-INVITEs handed to the user. *)
Definition reinvites (acts : list Action) : list (option Z) :=
  omap (fun a => match a with EventA (ReInvite r) => Some (cseq_of r) | _ => None end) acts.

(** ** Lemmas *)

Lemma option_bind_some {A B} (x : A) (f : A -> option B) : (Some x ≫= f) = f x.
Proof. done. Qed.

Lemma from_response_uac_fields req resp s i :
  from_invite_response_uac req resp s = Some i -> state i = s /\ Some (local_seq i) = cseq_of req /\
  remote_seq i = None.
Proof.
  unfold from_invite_response_uac, cseq_of.
  repeat match goal with
  | |- context [mbind _ ?x] => destruct x; cbn [mbind option_bind]; [|done]
  end.
  intros H. by injection H as <-.
Qed.

Lemma handle_response_state r d :
  (state (info (handle_response r d)) = state (info d) \/
   (state (info d) = Early /\ role d = Uac)) /\
  role (handle_response r d) = role d /\ invite (handle_response r d) = invite d /\
  (role d = Uas \/ state (info d) <> Early -> handle_response r d = d).
Proof.
  unfold handle_response. case_bool_decide as Hr; simpl.
  2:{ split_and!; auto. }
  destruct (state (info d)) eqn:S; try (split_and!; by auto).
  split_and!; [by right| | |intros [?|?]; congruence].
  - by repeat case_match.
  - by repeat case_match.
Qed.

(** Every operation keeps the identity of the dialog and moves its state forward. *)
Lemma apply_op_frame d op sent d' :
  apply_op d op = Some (sent, d') ->
  rank (state (info d)) <= rank (state (info d')) /\ role d' = role d /\ invite d' = invite d.
Proof.
  assert (rank Early = 0 /\ rank Confirmed = 1 /\ rank Terminating = 2 /\ rank Terminated = 3)
    as (R0 & R1 & R2 & R3) by done.
  assert (forall s, 0 <= rank s <= 3) as R by (intros []; simpl; lia).
  destruct op as [r|r|r|u|r u|se u|reason u|]; simpl; intros H.
  - injection H as <- <-. destruct (handle_response_state r d) as ([->|[-> _]] & -> & -> & _);
      split_and!; try done; try lia; apply R.
  - injection H as <- <-. unfold handle_request, set_state, update_remote_seq.
    destruct (req_cseq r) as [cs|]; [|split_and!; [lia|done|done]].
    destruct (req_method r); repeat case_match; simpl in *; simplify_eq; simpl;
      split_and!; try done; try lia; apply R.
  - injection H as <- <-. unfold send_response, set_state, push.
    repeat case_match; simpl in *; split_and!; try done; try lia; zbool;
      repeat match goal with H : bool_decide _ = true |- _ => apply bool_decide_eq_true in H end;
      match goal with H : state (info d) = _ |- _ => rewrite H end; simpl; lia.
  - unfold send_bye in H. case_bool_decide as S; simpl in H; [|simplify_eq; split_and!; [lia|done|done]].
    destruct (build_in_dialog_request _ _ _ _); simplify_eq; simpl; rewrite S; simpl;
      split_and!; try done; lia.
  - unfold build_prack in H. destruct (rok (resp_cseq_method r)); [|done]. simpl in H.
    destruct (rok (req_build _)); [|done]. simpl in H. simplify_eq. simpl. split_and!; [lia|done|done].
  - unfold build_update in H. simpl in H.
    destruct (rok (req_build _)); [|done]. simpl in H. simplify_eq. simpl. split_and!; [lia|done|done].
  - unfold build_bye_with_reason in H.
    case_bool_decide as S; simpl in H; [|simplify_eq; split_and!; [lia|done|done]].
    destruct (build_in_dialog_request_with _ _ _ _ _); simplify_eq; simpl; rewrite ?S; simpl;
      split_and!; try done; lia.
  - by simplify_eq.
Qed.

(** *** Reading back in-dialog requests *)

(** The fields of a builder that all in-dialog requests share. *)
Record core (i : DialogInfo) (m : Method) (cseq : Z) (uuid : str) (b : ReqBuilder) : Prop := {
  core_method : q_method b = Some (method_to_parser m);
  core_via_host : q_via_host b = Some #"0.0.0.0";
  core_via_port : q_via_port b = Some 5060;
  core_via_transport : q_via_transport b = Some #"UDP";
  core_branch : q_via_branch b = Some (branch_of uuid);
  core_cseq : q_cseq b = Some cseq;
  core_call_id : q_call_id b = Some (d_call_id (id i));
  core_from_tag : q_from_tag b = Some (d_local_tag (id i));
  core_from_uri : forall u, q_from_uri b = Some u -> uri_parse (local_uri i) = Ok u;
  core_to_uri : forall u, q_to_uri b = Some u -> uri_parse (remote_uri i) = Ok u;
  core_to_tag : q_to_tag b = Some (d_remote_tag (id i));
  core_display : q_from_display b = None
}.

Lemma in_dialog_core i m cseq uuid : core i m cseq uuid (in_dialog_builder i m cseq uuid).
Proof.
  unfold in_dialog_builder, rq_uri, rq_from, rq_to.
  destruct (uri_parse (remote_target i)) eqn:E1, (uri_parse (local_uri i)) eqn:E2,
    (uri_parse (remote_uri i)) eqn:E3;
    constructor; simpl; try done; intros u E; congruence.
Qed.

Lemma core_contact i m c u b : core i m c u b -> core i m c u (with_contact i b).
Proof.
  intros [H1 H2 H3 H4 H5 H6 H7 H8 H9 H10 H11 H12].
  unfold with_contact, rq_contact. destruct (is_empty _); [by constructor|].
  destruct (uri_parse (local_contact i)); by constructor.
Qed.

Lemma core_route i m c u rs b : core i m c u b -> core i m c u (rq_route rs b).
Proof. intros []. by constructor. Qed.

Lemma core_rack i m c u x y z b : core i m c u b -> core i m c u (rq_rack x y z b).
Proof. intros []. by constructor. Qed.

Lemma core_allow i m c u x b : core i m c u b -> core i m c u (rq_allow x b).
Proof. intros []. by constructor. Qed.

Lemma core_timer i m c u x y z b :
  core i m c u b -> core i m c u (rq_supported x (rq_session_expires y z b)).
Proof. intros []. by constructor. Qed.

Lemma core_header i m c u k v b : core i m c u b -> core i m c u (rq_header k v b).
Proof. intros []. by constructor. Qed.

Lemma core_headers i m c u l b : core i m c u b -> core i m c u (add_headers l b).
Proof.
  unfold add_headers. revert b. induction l as [|kv l IH]; intros b H; [done|].
  apply IH. by apply core_header.
Qed.

#[export] Hint Resolve in_dialog_core core_contact core_route core_rack core_allow core_timer
  core_header core_headers : rsip.

Lemma core_cseq_read i m c u b r :
  core i m c u b -> via_ok u -> is_u32 c -> req_build b = Ok r ->
  cseq_of r = Some c /\ rok (req_call_id r) = Some (d_call_id (id i)) /\ req_method r = m.
Proof.
  intros [H1 H2 H3 H4 H5 H6 H7 _ _ _ _ _] Hu Hc Hb.
  destruct (req_build_read b r Hb) as (_ & R1 & R2 & R3 & _).
  - rewrite H4. by repeat constructor.
  - rewrite H4. done.
  - rewrite H3. simpl. lia.
  - intros h E. rewrite H2 in E. injection E as <-. by repeat constructor.
  - intros br E. rewrite H5 in E. injection E as <-. split; [|done].
    apply Forall_app. split; [by repeat constructor|done].
  - intros n E. rewrite H6 in E. by injection E as <-.
  - unfold cseq_of. rewrite R1, R2, H6, H7. split_and!; [done|done|].
    rewrite H1 in R3. simpl in R3. rewrite method_from_to_parser in R3. by injection R3.
Qed.

(** *** The peer's view of an in-dialog request *)

(** The dialog identifier a receiver reads from a request: its own tag is in [To]. *)
Definition request_dialog_id (r : Request) : option DialogId :=
  let* call_id := rok (req_call_id r) in
  let* from_tag := rok (req_from_tag r) in
  let* to_tag := req_to_tag r in
  Some (mkDialogId call_id to_tag from_tag).

(** The identifier of the same dialog at the other end. *)
Definition mirror (i : DialogId) : DialogId :=
  mkDialogId (d_call_id i) (d_remote_tag i) (d_local_tag i).

(** Addresses and tags that the header syntax can carry. *)
Definition printable_info (i : DialogInfo) : bool :=
  match uri_parse (local_uri i), uri_parse (remote_uri i) with
  | Ok l, Ok r => wf_uri l && wf_uri r
  | _, _ => false
  end && plain #";?@" (d_local_tag (id i)) && plain #";?@" (d_remote_tag (id i)).

Lemma core_mirror i m c u b r :
  core i m c u b -> via_ok u -> is_u32 c -> printable_info i = true -> req_build b = Ok r ->
  request_dialog_id r = Some (mirror (id i)).
Proof.
  intros C Hu Hc Hp Hb. destruct (core_cseq_read _ _ _ _ _ _ C Hu Hc Hb) as (_ & Ecid & _).
  unfold printable_info in Hp. apply andb_prop in Hp as [Hp Ht2]. apply andb_prop in Hp as [Hp Ht1].
  destruct (uri_parse (local_uri i)) as [l|] eqn:El; [|done].
  destruct (uri_parse (remote_uri i)) as [q|] eqn:Er; [|done]. apply andb_prop in Hp as [Hl Hq].
  destruct (req_build_ok _ _ Hb) as (_ & _ & fu & _ & tu & _ & _ & _ & _ &
    _ & _ & Ef & _ & Et & _).
  pose proof (core_from_uri _ _ _ _ _ C _ Ef) as Ef'. rewrite El in Ef'. injection Ef' as <-.
  pose proof (core_to_uri _ _ _ _ _ C _ Et) as Et'. rewrite Er in Et'. injection Et' as <-.
  destruct (req_build_tags b r l _ q _ Hb (core_display _ _ _ _ _ C) Ef
    (core_from_tag _ _ _ _ _ C) Et (core_to_tag _ _ _ _ _ C) Hl Hq Ht1 Ht2) as (R1 & R2 & _).
  unfold request_dialog_id. by rewrite Ecid, R1, R2.
Qed.

Lemma rok_some {A E} (x : result A E) a : rok x = Some a -> x = Ok a.
Proof. destruct x; simpl; [by intros [= ->]|done]. Qed.

(** The builder of a request depends on the identity of the dialog only. *)
Lemma core_info i j m c u b :
  id i = id j -> local_uri i = local_uri j -> remote_uri i = remote_uri j ->
  core i m c u b -> core j m c u b.
Proof.
  intros E1 E2 E3 [H1 H2 H3 H4 H5 H6 H7 H8 H9 H10 H11 H12].
  rewrite ?E1, ?E2, ?E3 in *. by constructor.
Qed.

(** [r] was built in dialog [d] with sequence number [c]. *)
Definition built_in (d : InviteDialog) (c : Z) (r : Request) : Prop :=
  exists m u b, core (info d) m c u b /\ via_ok u /\ is_u32 c /\ req_build b = Ok r.

Lemma built_in_cseq d c r : built_in d c r -> cseq_of r = Some c.
Proof. intros (m & u & b & C & Hu & Hc & Hb). by eapply core_cseq_read. Qed.

Lemma built_in_mirror d c r :
  built_in d c r -> printable_info (info d) = true ->
  request_dialog_id r = Some (mirror (id (info d))).
Proof. intros (m & u & b & C & Hu & Hc & Hb) Hp. by eapply core_mirror. Qed.

(** What an operation does to the local sequence number. *)
Record seq_step (d d' : InviteDialog) (sent : list Request) : Prop := {
  sq_mono : local_seq (info d) <= local_seq (info d') <= local_seq (info d) + 1;
  sq_sent : sent = [] \/ exists r, sent = [r] /\ built_in d (local_seq (info d')) r /\
              local_seq (info d') = local_seq (info d) + 1
}.

Lemma seq_step_one d d' r m u b i :
  local_seq (info d') = local_seq (info d) + 1 -> is_u32 (local_seq (info d) + 1) -> via_ok u ->
  core i m (local_seq (info d) + 1) u b -> id i = id (info d) ->
  local_uri i = local_uri (info d) -> remote_uri i = remote_uri (info d) ->
  rok (req_build b) = Some r -> seq_step d d' [r].
Proof.
  intros E Hc Hu C E1 E2 E3 Hb. constructor; [lia|]. right. exists r. split; [done|].
  split; [|done]. rewrite E. exists m, u, b. split_and!; try done.
  - by eapply core_info.
  - by apply rok_some.
Qed.

Ltac built m u E :=
  eapply (seq_step_one _ _ _ m u);
    [| | | | | | |exact E]; [done|done|done|eauto 8 with rsip|done..].

Lemma apply_op_seq d op sent d' :
  role d = Uas \/ state (info d) <> Early ->
  via_ok (op_uuid op) -> 0 <= local_seq (info d) -> local_seq (info d) + 1 < 2 ^ 32 ->
  apply_op d op = Some (sent, d') -> seq_step d d' sent.
Proof.
  intros Hs Hu H0 H1.
  assert (wrap 32 (local_seq (info d) + 1) = local_seq (info d) + 1) as Hw
    by (apply wrap_small; unfold in_width; lia).
  assert (is_u32 (local_seq (info d) + 1)) as Hw' by (unfold in_width; lia).
  assert (forall d', local_seq (info d') = local_seq (info d) -> seq_step d d' []) as Same
    by (intros d0 E; constructor; [lia|by left]).
  destruct op as [r|r|r|u|r u|se u|reason u|]; simpl; intros H.
  - injection H as <- <-. apply Same. by rewrite (proj2 (proj2 (proj2 (handle_response_state r d))) Hs).
  - injection H as <- <-. apply Same. unfold handle_request, update_remote_seq.
    destruct (req_cseq r); [|done]. destruct (req_method r); by repeat case_match; simplify_eq.
  - injection H as <- <-. apply Same. unfold send_response. by repeat case_match.
  - unfold send_bye, build_in_dialog_request, build_in_dialog_request_with in H.
    case_bool_decide; simpl in H; [|simplify_eq; by apply Same]. rewrite Hw in H.
    destruct (rok (req_build _)) as [bye|] eqn:E; simplify_eq; simpl.
    + built Bye u E.
    + constructor; simpl; [lia|by left].
  - unfold build_prack in H. destruct (rok (resp_cseq_method r)); [|done].
    simpl in H. rewrite Hw in H. destruct (rok (req_build _)) as [p|] eqn:E; [|done].
    simpl in H. simplify_eq. built Prack u E.
  - unfold build_update in H. simpl in H. rewrite Hw in H.
    destruct (rok (req_build _)) as [p|] eqn:E; [|done].
    simpl in H. simplify_eq.
    destruct se; built Update u E.
  - unfold build_bye_with_reason, build_in_dialog_request_with in H.
    case_bool_decide; simpl in H; [|simplify_eq; by apply Same].
    assert (Z.min u32_max (local_seq (info d) + 1) = local_seq (info d) + 1) as Hm
      by (unfold u32_max; lia).
    rewrite Hm in H. destruct (rok (req_build _)) as [bye|] eqn:E; simplify_eq; simpl.
    + built Bye u E.
    + by apply Same.
  - simplify_eq. by apply Same.
Qed.

Lemma send_bye_method u d bye d' :
  via_ok u -> 0 <= local_seq (info d) < 2 ^ 32 - 1 -> send_bye u d = (Some bye, d') ->
  req_method bye = Bye.
Proof.
  intros Hu Hc H. unfold send_bye, build_in_dialog_request, build_in_dialog_request_with in H.
  case_bool_decide; simpl in H; [|done].
  destruct (rok (req_build _)) as [r|] eqn:E; simplify_eq. apply rok_some in E.
  refine (proj2 (proj2 (core_cseq_read _ Bye _ u _ _ _ Hu _ E))); [auto 8 with rsip|].
  by apply wrap_range.
Qed.

(** *** Events of a dialog's life *)

(** The events that end the setup of the dialog: accepted, rejected or cancelled. *)
Definition setup_outcome (a : Action) : bool :=
  match a with
  | EventA Established | EventA (TerminatedE (Rejected _)) | EventA (TerminatedE Cancelled) => true
  | _ => false
  end.

Definition is_send_request (a : Action) : bool :=
  match a with SendRequest _ => true | _ => false end.

Definition count (f : Action -> bool) (l : list Action) : Z :=
  Z.of_nat (length (List.filter f l)).

Lemma count_app f l l' : count f (l ++ l') = count f l + count f l'.
Proof. unfold count. rewrite List.filter_app, length_app. lia. Qed.

(** 1 while the dialog is still to be set up, and while it can still be ended. *)
Definition pending_setup (d : InviteDialog) : Z :=
  if decide (state (info d) = Early) then 1 else 0.

Definition pending_bye (d : InviteDialog) : Z :=
  if decide (rank (state (info d)) <= 1) then 1 else 0.

(** A step queues at most one outcome and one BYE, and only when the dialog leaves
    the state that allows it. *)
Lemma apply_op_budget d op sent d' :
  actions d = [] -> apply_op d op = Some (sent, d') ->
  count setup_outcome (actions d') + pending_setup d' <= pending_setup d /\
  count is_send_request (actions d') + pending_bye d' <= pending_bye d.
Proof.
  intros A H. destruct d as [i ro inv acts ackd]. simpl in A. subst acts.
  destruct i as [did st ls rs lu ru rt lc rset sec]. unfold pending_setup, pending_bye.
  destruct op as [r|r|r|u|r u|se u|reason u|]; simpl in H.
  - injection H as <- <-. unfold handle_response. simpl.
    destruct (bool_decide (ro = Uac)); [|simpl; split; reflexivity]. simpl.
    destruct st; try (simpl; split; reflexivity).
    destruct (in_range 100 200 _); [destruct (negb _); [|simpl; split; reflexivity]|
      destruct (in_range 200 300 _); [|destruct (300 <=? _); simpl; split; done]].
    + destruct (from_invite_response_uac inv r Early) as [i|] eqn:E.
      * destruct (from_response_uac_fields _ _ _ _ E) as [E' _].
        destruct (_ =? 183); simpl; rewrite E'; split; done.
      * destruct (_ =? 183); simpl; split; done.
    + destruct (from_invite_response_uac inv r Confirmed) as [i|] eqn:E.
      * destruct (from_response_uac_fields _ _ _ _ E) as [E' _].
        simpl; rewrite E'; split; done.
      * simpl; split; done.
  - injection H as <- <-. unfold handle_request, update_remote_seq. simpl.
    destruct (req_cseq r) as [cs|]; [|simpl; split; reflexivity].
    destruct (req_method r), st, ro, rs as [n|]; try (simpl; split; done); simpl;
      destruct (n <? cs); simpl; split; done.
  - injection H as <- <-. unfold send_response. simpl.
    destruct ro, st, (in_range 200 300 _), (300 <=? _); simpl; split; done.
  - unfold send_bye in H. destruct st; simpl in H; try (simplify_eq; simpl; split; reflexivity).
    destruct (build_in_dialog_request _ _ _ _); simplify_eq; simpl; split; done.
  - unfold build_prack in H. destruct (rok (resp_cseq_method r)); [|done]. simpl in H.
    destruct (rok (req_build _)); [|done]. simpl in H. simplify_eq. simpl. split; reflexivity.
  - unfold build_update in H. simpl in H. destruct (rok (req_build _)); [|done].
    simpl in H. simplify_eq. simpl. split; reflexivity.
  - unfold build_bye_with_reason in H.
    destruct st; simpl in H; try (simplify_eq; simpl; split; reflexivity).
    destruct (build_in_dialog_request_with _ _ _ _ _); simplify_eq; simpl; split; done.
  - simplify_eq. simpl. split; reflexivity.
Qed.

Lemma drun_cons d op ops sent acts d' :
  drun d (op :: ops) = Some (sent, acts, d') ->
  exists s1 d1 s2 a2, apply_op d op = Some (s1, d1) /\
    drun (d1 <| actions := [] |>) ops = Some (s2, a2, d') /\
    sent = s1 ++ s2 /\ acts = actions d1 ++ a2.
Proof.
  simpl. unfold dstep, poll_actions.
  destruct (apply_op d op) as [[s1 d1]|]; [|done]. cbn [mbind option_bind].
  destruct (drun _ ops) as [[[s2 a2] d2]|] eqn:E; [|done]. cbn [mbind option_bind].
  intros H. injection H as <- <- <-. by exists s1, d1, s2, a2.
Qed.

Lemma drun_snoc d ops s a d1 op s1 d2 :
  drun d ops = Some (s, a, d1) -> apply_op d1 op = Some (s1, d2) ->
  drun d (ops ++ [op]) = Some (s ++ s1, a ++ actions d2, d2 <| actions := [] |>).
Proof.
  revert d s a. induction ops as [|o ops IH]; intros d s a H1 H2.
  - injection H1 as <- <- <-. cbn [app drun]. unfold dstep. rewrite H2.
    cbn [mbind option_bind poll_actions]. by rewrite !app_nil_r.
  - apply drun_cons in H1 as (s0 & d0 & s2 & a2 & E1 & E2 & -> & ->).
    cbn [app drun]. unfold dstep. rewrite E1. cbn [mbind option_bind poll_actions].
    rewrite (IH _ _ _ E2 H2). cbn [mbind option_bind]. by rewrite <- !app_assoc.
Qed.

(** The peer's sequence number is not lost: only an early dialog of a caller
    replaces its state, and no re-INVITE is accepted before. *)
Definition remote_kept (d : InviteDialog) : Prop :=
  role d = Uas \/ state (info d) <> Early \/ remote_seq (info d) = None.

Definition above (o : option Z) (n : Z) : Prop :=
  match o with Some m => m < n | None => True end.

(** What an operation does to the remote sequence number. *)
Lemma apply_op_remote d op sent d' :
  actions d = [] -> remote_kept d -> apply_op d op = Some (sent, d') ->
  remote_kept d' /\
  ((reinvites (actions d') = [] /\ remote_seq (info d') = remote_seq (info d)) \/
   exists n, reinvites (actions d') = [Some n] /\ remote_seq (info d') = Some n /\
     above (remote_seq (info d)) n /\ state (info d') <> Early).
Proof.
  intros A K H. destruct d as [i ro inv acts ackd]. simpl in A. subst acts.
  destruct i as [did st ls rs lu ru rt lc rset sec]. unfold remote_kept in *. simpl in *.
  destruct op as [r|r|r|u|r u|se u|reason u|]; simpl in H.
  - injection H as <- <-. unfold handle_response. simpl.
    destruct ro; [|simpl; split; auto]. simpl.
    destruct st; try (simpl; split; auto; fail).
    destruct K as [K|[K|K]]; [done|done|]. subst rs.
    destruct (in_range 100 200 _); [destruct (negb _); [|simpl; auto]|
      destruct (in_range 200 300 _); [|destruct (300 <=? _); simpl; auto]].
    + destruct (from_invite_response_uac inv r Early) as [i|] eqn:E.
      * destruct (from_response_uac_fields _ _ _ _ E) as (_ & _ & E').
        destruct (_ =? 183); simpl; rewrite E'; auto.
      * destruct (_ =? 183); simpl; auto.
    + destruct (from_invite_response_uac inv r Confirmed) as [i|] eqn:E; [|simpl; auto].
      destruct (from_response_uac_fields _ _ _ _ E) as (_ & _ & E'). simpl. rewrite E'. auto.
  - injection H as <- <-. unfold handle_request, update_remote_seq. simpl.
    destruct (req_cseq r) as [cs|] eqn:Ecs; [|simpl; auto].
    assert (cseq_of r = Some cs) as Ec by (unfold cseq_of; by rewrite Ecs).
    destruct (req_method r), st, ro; simpl; try (split; [by auto|by auto]).
    all: destruct rs as [n|]; simpl; [destruct (n <? cs) eqn:Hn|]; simpl; zbool;
      (split; [by auto|]); try (left; done); right; exists cs; rewrite Ec; auto.
  - injection H as <- <-. unfold send_response. simpl.
    destruct ro, st, (in_range 200 300 _), (300 <=? _); simpl; auto.
  - unfold send_bye in H. destruct st; simpl in H; try (simplify_eq; simpl; by auto).
    destruct (build_in_dialog_request _ _ _ _); simplify_eq; simpl; auto.
  - unfold build_prack in H. destruct (rok (resp_cseq_method r)); [|done]. simpl in H.
    destruct (rok (req_build _)); [|done]. simpl in H. simplify_eq. simpl. auto.
  - unfold build_update in H. simpl in H. destruct (rok (req_build _)); [|done].
    simpl in H. simplify_eq. simpl. auto.
  - unfold build_bye_with_reason in H.
    destruct st; simpl in H; try (simplify_eq; simpl; by auto).
    destruct (build_in_dialog_request_with _ _ _ _ _); simplify_eq; simpl; auto.
  - simplify_eq. simpl. auto.
Qed.

(** ** Theorems *)

(** C12: the life of an INVITE dialog.  Along any sequence of operations from a polled
    dialog (responses and requests received, responses sent, BYE, PRACK, UPDATE built),
    the state only moves forward (early, confirmed, terminating, terminated); the role
    and the INVITE never change; the setup has at most one outcome (established,
    rejected or cancelled), and none if it was already over; and at most one BYE is
    queued for sending, none from a dialog that is already ending. *)
Theorem dialog_life d ops sent acts d' :
  actions d = [] -> drun d ops = Some (sent, acts, d') ->
  rank (state (info d)) <= rank (state (info d')) /\ role d' = role d /\ invite d' = invite d /\
  count setup_outcome acts + pending_setup d' <= pending_setup d /\
  count is_send_request acts + pending_bye d' <= pending_bye d.
Proof.
  revert d sent acts. induction ops as [|op ops IH]; intros d sent acts A H.
  - injection H as <- <- <-. unfold count. simpl. split_and!; try done; lia.
  - apply drun_cons in H as (s1 & d1 & s2 & a2 & H1 & H2 & -> & ->).
    destruct (apply_op_frame _ _ _ _ H1) as (F1 & F2 & F3).
    destruct (apply_op_budget _ _ _ _ A H1) as (B1 & B2).
    apply IH in H2 as (I1 & I2 & I3 & I4 & I5); [|done].
    change (pending_setup (d1 <| actions := [] |>)) with (pending_setup d1) in I4.
    change (pending_bye (d1 <| actions := [] |>)) with (pending_bye d1) in I5.
    simpl in I1, I2, I3. rewrite !count_app. split_and!; try congruence; lia.
Qed.

(** The requests a dialog builds carry strictly increasing CSeq numbers, all above
    the dialog's sequence number at the start, whatever it receives in between (the
    called side always; the calling side once the dialog is confirmed). *)
Theorem dialog_cseq_increasing d ops sent acts d' :
  role d = Uas \/ state (info d) <> Early ->
  Forall (fun op => via_ok (op_uuid op)) ops ->
  0 <= local_seq (info d) -> local_seq (info d) + Z.of_nat (length ops) < 2 ^ 32 ->
  drun d ops = Some (sent, acts, d') ->
  exists ns, map cseq_of sent = map Some ns /\ StronglySorted Z.lt (local_seq (info d) :: ns).
Proof.
  revert d sent acts. induction ops as [|op ops IH]; intros d sent acts Hs Hu H0 H1 H.
  - injection H as <- <- <-. exists []. split; [done|]. repeat constructor.
  - apply drun_cons in H as (s1 & d1 & s2 & a2 & R1 & R2 & -> & ->).
    inversion Hu as [|? ? Hu1 Hu2]; subst. rewrite length_cons in H1.
    destruct (apply_op_frame _ _ _ _ R1) as (F1 & F2 & _).
    destruct (apply_op_seq _ _ _ _ Hs Hu1 H0 ltac:(lia) R1) as [M S].
    apply IH in R2 as (ns & E & SS); [| |done|simpl; lia|simpl; lia].
    2:{ simpl. rewrite F2. destruct Hs as [?|Hs]; [by left|right].
        intros E. rewrite E in F1. destruct (state (info d)); done || (simpl in F1; lia). }
    simpl in SS. inversion SS as [|? ? SS1 SS2]; subst.
    destruct S as [->|(r & -> & Er%built_in_cseq & En)].
    + exists ns. split; [done|]. constructor; [done|].
      eapply Forall_impl; [exact SS2|]. intros n; simpl; lia.
    + exists (local_seq (info d1) :: ns). simpl. rewrite Er, E. split; [done|].
      constructor; [done|]. constructor; [lia|].
      eapply Forall_impl; [exact SS2|]. intros n; simpl; lia.
Qed.

(** Re-INVITEs are handed to the user in strictly increasing CSeq order: a repeated
    or reordered one is dropped, over any sequence of operations, and none is accepted
    with a number not above the last one seen. *)
Theorem reinvites_increasing d ops sent acts d' :
  actions d = [] -> remote_kept d -> drun d ops = Some (sent, acts, d') ->
  exists ns, reinvites acts = map Some ns /\ StronglySorted Z.lt ns /\
    Forall (above (remote_seq (info d))) ns.
Proof.
  revert d sent acts. induction ops as [|op ops IH]; intros d sent acts A K H.
  - injection H as <- <- <-. exists []. split_and!; [done|repeat constructor|done].
  - apply drun_cons in H as (s1 & d1 & s2 & a2 & H1 & H2 & -> & ->).
    destruct (apply_op_remote _ _ _ _ A K H1) as (K' & S).
    apply IH in H2 as (ns & E & SS & FF); [|done|exact K'].
    unfold reinvites. rewrite omap_app. fold (reinvites (actions d1)) (reinvites a2).
    rewrite E. simpl in FF. destruct S as [[-> Er]|(n & -> & Er & Ab & _)].
    + exists ns. rewrite Er in FF. by split_and!.
    + exists (n :: ns). rewrite Er in FF. simpl in FF.
      split_and!; [done|by constructor|].
      constructor; [done|]. eapply Forall_impl; [exact FF|].
      intros k Hk. destruct (remote_seq (info d)); simpl in *; lia || done.
Qed.

(** ** Witnesses and an example *)

Definition bob_response (c : Z) : Response :=
  match resp_build (rs_contact #"sip:bob@192.168.1.2:5060" (sample_resp_builder Invite c)) with
  | Ok r => r
  | Err _ => mkResponse [] (StatusCode.new c) [] [] []
  end.

Definition reinvite (n : Z) : Request := or_empty (req_build (rq_cseq n (sample_builder Invite))).

Definition bob_dialog : option InviteDialog :=
  new_uas (sample_request Invite) #"totag" #"sip:bob@192.168.1.2:5060".

(** Bob answers, gets a re-INVITE twice, updates the session and hangs up. *)
Definition bob_ops : list Op :=
  [OpSendResponse (bob_response 200); OpRequest (reinvite 7); OpRequest (reinvite 7);
   OpUpdate (Some 1800) #"u1"; OpSendBye #"u2"; OpSendBye #"u3"].

Lemma bob_facts :
  exists d sent acts d', bob_dialog = Some d /\ drun d bob_ops = Some (sent, acts, d') /\
    actions d = [] /\ role d = Uas /\ local_seq (info d) = 0.
Proof.
  assert (option_map actions bob_dialog = Some []) as A by (vm_compute; reflexivity).
  assert (option_map role bob_dialog = Some Uas) as B by (vm_compute; reflexivity).
  assert (option_map (fun d => local_seq (info d)) bob_dialog = Some 0) as C
    by (vm_compute; reflexivity).
  assert (is_some (bob_dialog ≫= fun d => drun d bob_ops) = true) as R
    by (vm_compute; reflexivity).
  compute_some bob_dialog as d E.
  rewrite option_bind_some in R. cbv beta in R.
  cbn [option_map] in A, B, C. apply (inj Some) in A, B, C.
  destruct (drun d bob_ops) as [[[sent acts] d']|] eqn:Er; [|discriminate R].
  exists d, sent, acts, d'. split; [reflexivity|]. split; [exact Er|].
  split; [exact A|]. split; [exact B|exact C].
Qed.

Lemma dialog_life_witness :
  exists d sent acts d', bob_dialog = Some d /\ drun d bob_ops = Some (sent, acts, d') /\
    count setup_outcome acts <= 1 /\ count is_send_request acts <= 1.
Proof.
  destruct bob_facts as (d & sent & acts & d' & E & Er & A & _ & _).
  exists d, sent, acts, d'. split; [exact E|]. split; [exact Er|].
  destruct (dialog_life d bob_ops sent acts d' A Er) as (_ & _ & _ & H1 & H2).
  unfold pending_setup, pending_bye in H1, H2. repeat case_decide; lia.
Defined.

Lemma dialog_cseq_increasing_witness :
  exists d sent acts d' ns, bob_dialog = Some d /\ drun d bob_ops = Some (sent, acts, d') /\
    map cseq_of sent = map Some ns /\ StronglySorted Z.lt (local_seq (info d) :: ns).
Proof.
  destruct bob_facts as (d & sent & acts & d' & E & Er & _ & A & B).
  destruct (dialog_cseq_increasing d bob_ops sent acts d') as (ns & H1 & H2).
  - left. exact A.
  - repeat constructor.
  - rewrite B. discriminate.
  - rewrite B. reflexivity.
  - exact Er.
  - exists d, sent, acts, d', ns. split; [exact E|]. split; [exact Er|]. by split.
Defined.

Lemma reinvites_increasing_witness :
  exists d sent acts d' ns, bob_dialog = Some d /\ drun d bob_ops = Some (sent, acts, d') /\
    reinvites acts = map Some ns /\ StronglySorted Z.lt ns.
Proof.
  destruct bob_facts as (d & sent & acts & d' & E & Er & B & A & _).
  destruct (reinvites_increasing d bob_ops sent acts d' B (or_introl A) Er)
    as (ns & H1 & H2 & _).
  exists d, sent, acts, d', ns. split; [exact E|]. split; [exact Er|]. by split.
Defined.

(** What the run does: one UPDATE and one BYE, numbered 1 and 2; the repeated
    re-INVITE is dropped and the second hang-up does nothing. *)
Example bob_run :
  (let* d := bob_dialog in let* (sent, acts, _) := drun d bob_ops in
   Some (map cseq_of sent, reinvites acts)) = Some ([Some 1; Some 2], [Some 7]).
Proof. vm_compute. reflexivity. Qed.

(** The number of a PRACK sent on an early dialog is used again: the 2xx recomputes the
    local sequence number from the INVITE. *)
Definition ringing : Response :=
  match resp_build (rs_rseq 1 (rs_contact #"sip:bob@192.168.1.2:5060"
                                 (sample_resp_builder Invite 183))) with
  | Ok r => r
  | Err _ => mkResponse [] (StatusCode.new 183) [] [] []
  end.

Example early_prack_cseq_reused :
  (let* (sent, _, _) := drun (new_uac (sample_request Invite))
      [OpResponse ringing; OpPrack ringing #"u1"; OpResponse (bob_response 200); OpSendBye #"u2"] in
   Some (map cseq_of sent)) = Some [Some 2; Some 2].
Proof. vm_compute. reflexivity. Qed.
