(* ===== verification/DialogManager.v ===== *)
(** * The dialog manager ([dialog/manager.rs])

    Dialogs by handle, the index from dialog identifiers to handles, and the callers'
    dialogs that wait for an answer by Call-ID and From tag.  The hash maps are finite
    maps; the local tag of a new called-side dialog ([Uuid::new_v4()]) and the branch
    suffix of a BYE are arguments. *)

From Stdlib Require Import Sorted.
From S2P Require Import Prelude RStr SipBase SipHeader SipUri SipTyped SipHeaders.
From S2P Require Import SipMessage SipBuild SipRoundtrip Sample Dialog.

Local Open Scope Z_scope.

#[export] Instance DialogId_countable : Countable DialogId.
Proof.
  apply (inj_countable' (fun i => (d_call_id i, d_local_tag i, d_remote_tag i))
           (fun t => mkDialogId t.1.1 t.1.2 t.2)).
  by intros [].
Defined.

Module DialogManager.

Abbreviation DialogHandle := Z.

Inductive ManagerEvent : Type :=
| IncomingInvite (r : Request)
| MEstablished
| MProvisional (r : Response)
| MSessionProgress (r : Response)
| MReInvite (r : Request)
| MByeReceived (r : Request)
| MTerminated (reason : TerminationReason).

Inductive ManagerAction : Type :=
| MSendRequest (r : Request)
| MSendResponse (r : Response)
| MEvent (h : DialogHandle) (e : ManagerEvent).

Record t : Type := mk {
  next_handle : Z;
  dialogs : gmap DialogHandle InviteDialog;
  id_to_handle : gmap DialogId DialogHandle;
  pending_uac : gmap (str * str) DialogHandle;
  actions : list ManagerAction;
  local_contact : str
}.

#[export] Instance mgr_eta : Settable t := fun x =>
  mk (next_handle x) (dialogs x) (id_to_handle x) (pending_uac x) (actions x) (local_contact x).

Definition new (local_contact : str) : t := mk 1 ∅ ∅ ∅ [] local_contact.

(** The increment wraps, as in a release build. *)
Definition alloc_handle (m : t) : DialogHandle * t :=
  (next_handle m, m <| next_handle := wrap 64 (next_handle m + 1) |>).

Definition manager_event (e : Event) : ManagerEvent :=
  match e with
  | Established => MEstablished
  | Provisional r => MProvisional r
  | SessionProgress r => MSessionProgress r
  | ReInvite r => MReInvite r
  | ByeReceived r => MByeReceived r
  | TerminatedE reason => MTerminated reason
  end.

Definition manager_action (h : DialogHandle) (a : Action) : ManagerAction :=
  match a with
  | SendRequest r => MSendRequest r
  | SendResponse r => MSendResponse r
  | EventA e => MEvent h (manager_event e)
  end.

Definition collect_dialog_actions (h : DialogHandle) (m : t) : t :=
  match dialogs m !! h with
  | Some dialog =>
      let '(acts, dialog) := Dialog.poll_actions dialog in
      m <| dialogs := <[h := dialog]> (dialogs m) |>
        <| actions := actions m ++ map (manager_action h) acts |>
  | None => m
  end.

(** The handle is allocated before the headers are looked at. *)
Definition create_dialog (invite : Request) (m : t) : option DialogHandle * t :=
  if negb (bool_decide (req_method invite = Invite)) then (None, m) else
  let '(handle, m) := alloc_handle m in
  let dialog := new_uac invite in
  match rok (req_call_id invite) with
  | None => (None, m)
  | Some call_id =>
      match rok (req_from_tag invite) with
      | None => (None, m)
      | Some from_tag =>
          let m := m <| pending_uac := <[(call_id, from_tag) := handle]> (pending_uac m) |> in
          (Some handle, m <| dialogs := <[handle := dialog]> (dialogs m) |>)
      end
  end.

Definition find_dialog_for_request (request : Request) (m : t) : option DialogHandle :=
  let* call_id := rok (req_call_id request) in
  let* from_tag := rok (req_from_tag request) in
  let* to_tag := req_to_tag request in
  id_to_handle m !! mkDialogId call_id to_tag from_tag.

Definition create_uas_dialog (local_tag : str) (request : Request) (m : t)
  : option DialogHandle * t :=
  let '(handle, m) := alloc_handle m in
  match new_uas request local_tag (local_contact m) with
  | None => (None, m)
  | Some dialog =>
      let id := id (info dialog) in
      let m := m <| dialogs := <[handle := dialog]> (dialogs m) |> in
      let m := m <| id_to_handle := <[id := handle]> (id_to_handle m) |> in
      (Some handle, m <| actions := actions m ++ [MEvent handle (IncomingInvite request)] |>)
  end.

Definition handle_request (local_tag : str) (request : Request) (m : t)
  : option DialogHandle * t :=
  match find_dialog_for_request request m with
  | Some handle =>
      let m := match dialogs m !! handle with
               | Some dialog =>
                   collect_dialog_actions handle
                     (m <| dialogs := <[handle := Dialog.handle_request request dialog]> (dialogs m) |>)
               | None => m
               end in
      (Some handle, m)
  | None =>
      if bool_decide (req_method request = Invite)
      then create_uas_dialog local_tag request m
      else (None, m)
  end.

Definition find_dialog_for_response (call_id from_tag : str) (to_tag : option str) (m : t)
  : option DialogHandle :=
  match pending_uac m !! (call_id, from_tag) with
  | Some h => Some h
  | None =>
      match to_tag with
      | Some to_tag => id_to_handle m !! mkDialogId call_id from_tag to_tag
      | None => None
      end
  end.

Definition confirmed_now (old new : DialogState) : bool :=
  bool_decide (old = Early) && bool_decide (new = Confirmed).

Definition handle_response (response : Response) (m : t) : option DialogHandle * t :=
  match rok (resp_call_id response) with
  | None => (None, m)
  | Some call_id =>
  match rok (resp_from_tag response) with
  | None => (None, m)
  | Some from_tag =>
  match find_dialog_for_response call_id from_tag (resp_to_tag response) m with
  | None => (None, m)
  | Some handle =>
      let m := match dialogs m !! handle with
               | Some dialog =>
                   let old_state := state (info dialog) in
                   let dialog := Dialog.handle_response response dialog in
                   let new_state := state (info dialog) in
                   let m := m <| dialogs := <[handle := dialog]> (dialogs m) |> in
                   let m := if confirmed_now old_state new_state then
                              m <| id_to_handle := <[id (info dialog) := handle]> (id_to_handle m) |>
                                <| pending_uac := delete (call_id, from_tag) (pending_uac m) |>
                            else m in
                   collect_dialog_actions handle m
               | None => m
               end in
      (Some handle, m)
  end end end.

Definition send_response (handle : DialogHandle) (response : Response) (m : t) : t :=
  match dialogs m !! handle with
  | Some dialog =>
      let old_state := state (info dialog) in
      let dialog := Dialog.send_response response dialog in
      let new_state := state (info dialog) in
      let m := m <| dialogs := <[handle := dialog]> (dialogs m) |> in
      let m := if confirmed_now old_state new_state then
                 m <| id_to_handle := <[id (info dialog) := handle]> (id_to_handle m) |>
               else m in
      collect_dialog_actions handle m
  | None => m
  end.

Definition send_bye (uuid : str) (handle : DialogHandle) (m : t) : option Request * t :=
  match dialogs m !! handle with
  | Some dialog =>
      let '(bye, dialog) := Dialog.send_bye uuid dialog in
      (bye, collect_dialog_actions handle (m <| dialogs := <[handle := dialog]> (dialogs m) |>))
  | None => (None, m)
  end.

Definition ack_sent (handle : DialogHandle) (m : t) : t :=
  match dialogs m !! handle with
  | Some dialog => m <| dialogs := <[handle := Dialog.ack_sent dialog]> (dialogs m) |>
  | None => m
  end.

Definition poll (m : t) : list ManagerAction * t := (actions m, m <| actions := [] |>).

(** The handles and identifiers to remove, in the order of the map's iteration. *)
Definition to_remove (m : t) : list (DialogHandle * DialogId) :=
  omap (fun hd => if is_terminated hd.2 then Some (hd.1, id (info hd.2)) else None)
    (map_to_list (dialogs m)).

Definition remove_entry (m : t) (hi : DialogHandle * DialogId) : t :=
  m <| dialogs := delete hi.1 (dialogs m) |>
    <| id_to_handle := delete hi.2 (id_to_handle m) |>.

Definition cleanup_terminated (m : t) : t := fold_left remove_entry (to_remove m) m.

(** ** Runs of the manager *)

Inductive MOp : Type :=
| MCreate (invite : Request)
| MRequest (local_tag : str) (r : Request)
| MResponse (r : Response)
| MRespond (h : DialogHandle) (r : Response)
| MBye (uuid : str) (h : DialogHandle)
| MAck (h : DialogHandle)
| MCleanup.

Definition apply_mop (m : t) (op : MOp) : t :=
  match op with
  | MCreate invite => (create_dialog invite m).2
  | MRequest local_tag r => (handle_request local_tag r m).2
  | MResponse r => (handle_response r m).2
  | MRespond h r => send_response h r m
  | MBye uuid h => (send_bye uuid h m).2
  | MAck h => ack_sent h m
  | MCleanup => cleanup_terminated m
  end.

(** Each operation is followed by a poll. *)
Fixpoint mrun (m : t) (ops : list MOp) : list ManagerAction * t :=
  match ops with
  | [] => ([], m)
  | op :: rest =>
      let '(acts, m) := poll (apply_mop m op) in
      let '(acts', m) := mrun m rest in
      (acts ++ acts', m)
  end.

(** ** The effect of an operation *)

(** The dialog is in the index, or may be: it is past the setup of a caller. *)
Definition settled (d : InviteDialog) : Prop := role d = Uas \/ state (info d) <> Early.

Definition polled (d : InviteDialog) : InviteDialog := d <| Dialog.actions := [] |>.

Definition key_of (r : Request) (k : str * str) : Prop :=
  rok (req_call_id r) = Some k.1 /\ rok (req_from_tag r) = Some k.2.

(** What an operation and the poll after it can do to the manager. *)
Inductive effect (m : t) : list ManagerAction -> t -> Prop :=
| Eff_none :
    effect m [] m
| Eff_alloc :
    effect m [] (m <| next_handle := wrap 64 (next_handle m + 1) |>)
| Eff_update h d op sent d1 ids pend :
    dialogs m !! h = Some d -> apply_op d op = Some (sent, d1) ->
    (ids = id_to_handle m \/ settled d1 /\ ids = <[id (info d1) := h]> (id_to_handle m)) ->
    (forall k x, pend !! k = Some x -> pending_uac m !! k = Some x) ->
    effect m (map (manager_action h) (Dialog.actions d1))
      (mk (next_handle m) (<[h := polled d1]> (dialogs m)) ids pend [] (local_contact m))
| Eff_uac invite k :
    req_method invite = Invite -> key_of invite k ->
    effect m []
      (mk (wrap 64 (next_handle m + 1)) (<[next_handle m := new_uac invite]> (dialogs m))
         (id_to_handle m) (<[k := next_handle m]> (pending_uac m)) [] (local_contact m))
| Eff_uas tag request d :
    req_method request = Invite -> new_uas request tag (local_contact m) = Some d ->
    effect m [MEvent (next_handle m) (IncomingInvite request)]
      (mk (wrap 64 (next_handle m + 1)) (<[next_handle m := d]> (dialogs m))
         (<[id (info d) := next_handle m]> (id_to_handle m)) (pending_uac m) [] (local_contact m))
| Eff_clean dlgs ids :
    (forall h, dlgs !! h = match dialogs m !! h with
                           | Some d => if is_terminated d then None else Some d
                           | None => None
                           end) ->
    (forall i x, ids !! i = Some x <-> id_to_handle m !! i = Some x /\
       forall h d, dialogs m !! h = Some d -> is_terminated d = true -> id (info d) <> i) ->
    effect m [] (mk (next_handle m) dlgs ids (pending_uac m) [] (local_contact m)).

(** ** Lemmas *)

Lemma collect_insert h d m :
  collect_dialog_actions h (m <| dialogs := <[h := d]> (dialogs m) |>) =
  m <| dialogs := <[h := polled d]> (dialogs m) |>
    <| actions := actions m ++ map (manager_action h) (Dialog.actions d) |>.
Proof.
  unfold collect_dialog_actions. simpl. rewrite lookup_insert_eq. simpl.
  by rewrite insert_insert_eq.
Qed.

Lemma to_remove_spec m h i :
  (h, i) ∈ to_remove m <->
  exists d, dialogs m !! h = Some d /\ is_terminated d = true /\ id (info d) = i.
Proof.
  unfold to_remove. rewrite list_elem_of_omap. split.
  - intros ([h' d] & Hin & E). apply elem_of_map_to_list in Hin. simpl in E.
    destruct (is_terminated d) eqn:Et; [|done]. injection E as <- <-. eauto.
  - intros (d & Hd & Et & <-). exists (h, d). split; [by apply elem_of_map_to_list|].
    simpl. by rewrite Et.
Qed.

Lemma cleanup_fold l m :
  let m' := fold_left remove_entry l m in
  (forall h d, dialogs m' !! h = Some d <-> dialogs m !! h = Some d /\ h ∉ l.*1) /\
  (forall i x, id_to_handle m' !! i = Some x <-> id_to_handle m !! i = Some x /\ i ∉ l.*2) /\
  next_handle m' = next_handle m /\ pending_uac m' = pending_uac m /\
  actions m' = actions m /\ local_contact m' = local_contact m.
Proof.
  revert m. induction l as [|[h0 i0] l IH]; intros m m'.
  - subst m'. simpl. split_and!; try done; intros; set_solver.
  - subst m'. simpl. specialize (IH (remove_entry m (h0, i0))). simpl in IH.
    destruct IH as (I1 & I2 & -> & -> & -> & ->). split_and!; try done.
    + intros h d. rewrite I1, lookup_delete_Some. set_solver.
    + intros i x. rewrite I2, lookup_delete_Some. set_solver.
Qed.

Lemma cleanup_effect m :
  actions m = [] -> effect m (poll (cleanup_terminated m)).1 (poll (cleanup_terminated m)).2.
Proof.
  intros A. pose proof (cleanup_fold (to_remove m) m) as C. cbv zeta in C.
  fold (cleanup_terminated m) in C. destruct (cleanup_terminated m) as [n ds ids pend acts lc].
  simpl in C. destruct C as (C1 & C2 & -> & -> & -> & ->). unfold poll. simpl. rewrite A.
  apply Eff_clean.
  - intros h. destruct (dialogs m !! h) as [d|] eqn:Ed.
    + destruct (is_terminated d) eqn:Et.
      * apply eq_None_not_Some. intros [d' Hd']. apply C1 in Hd' as [_ Hn]. apply Hn.
        apply list_elem_of_fmap. exists (h, id (info d)). split; [done|].
        apply to_remove_spec. eauto.
      * apply C1. split; [done|]. intros ([h' i] & -> & Hin)%list_elem_of_fmap.
        apply to_remove_spec in Hin as (d' & Ed' & Et' & _). simpl in *. congruence.
    + apply eq_None_not_Some. intros [d' Hd']. apply C1 in Hd' as [? _]. congruence.
  - intros i x. rewrite C2. split; intros [H1 H2]; (split; [done|]).
    + intros h d Hd Ht <-. apply H2, list_elem_of_fmap. exists (h, id (info d)).
      split; [done|]. apply to_remove_spec. eauto.
    + intros ([h i'] & -> & Hin)%list_elem_of_fmap.
      apply to_remove_spec in Hin as (d & Hd & Ht & E). by apply (H2 h d).
Qed.

(** A dialog operation, the index update that may follow it, and the collection of its
    actions. *)
Lemma update_effect m h d op sent d1 ids pend :
  actions m = [] -> dialogs m !! h = Some d -> apply_op d op = Some (sent, d1) ->
  (ids = id_to_handle m \/ settled d1 /\ ids = <[id (info d1) := h]> (id_to_handle m)) ->
  (forall k x, pend !! k = Some x -> pending_uac m !! k = Some x) ->
  let m' := collect_dialog_actions h
    (mk (next_handle m) (<[h := d1]> (dialogs m)) ids pend [] (local_contact m)) in
  effect m (poll m').1 (poll m').2.
Proof.
  intros A Hd Ho Hi Hp m'. subst m'. unfold collect_dialog_actions. simpl.
  rewrite lookup_insert_eq. unfold poll. simpl. rewrite insert_insert_eq.
  by apply (Eff_update m h d op sent d1).
Qed.

Lemma confirmed_settled old d : confirmed_now old (state (info d)) = true -> settled d.
Proof.
  unfold confirmed_now. intros H. apply andb_prop in H as [_ H].
  apply bool_decide_eq_true in H. right. by rewrite H.
Qed.

Lemma response_effect m r :
  actions m = [] ->
  effect m (poll (handle_response r m).2).1 (poll (handle_response r m).2).2.
Proof.
  intros A. destruct m as [n ds ids pend acts lc]. simpl in A. subst acts.
  pose (m := mk n ds ids pend [] lc). fold m.
  assert (effect m (poll m).1 (poll m).2) as Skip by apply Eff_none.
  unfold handle_response. destruct (rok (resp_call_id r)) as [c|]; [|apply Skip].
  destruct (rok (resp_from_tag r)) as [f|]; [|apply Skip].
  destruct (find_dialog_for_response c f (resp_to_tag r) m) as [h|]; [|apply Skip].
  simpl. destruct (ds !! h) as [d|] eqn:Ed; [|apply Skip].
  destruct (confirmed_now _ _) eqn:Ec; simpl.
  - apply confirmed_settled in Ec.
    apply (update_effect m h d (OpResponse r) []); auto.
    intros k x Hk. by apply lookup_delete_Some in Hk as [_ ?].
  - by apply (update_effect m h d (OpResponse r) []); auto.
Qed.

Lemma send_response_effect m h r :
  actions m = [] ->
  effect m (poll (send_response h r m)).1 (poll (send_response h r m)).2.
Proof.
  intros A. destruct m as [n ds ids pend acts lc]. simpl in A. subst acts.
  pose (m := mk n ds ids pend [] lc). fold m. unfold send_response. simpl.
  destruct (ds !! h) as [d|] eqn:Ed; [|apply Eff_none].
  destruct (confirmed_now _ _) eqn:Ec; simpl.
  - apply confirmed_settled in Ec. by apply (update_effect m h d (OpSendResponse r) []); auto.
  - by apply (update_effect m h d (OpSendResponse r) []); auto.
Qed.

(** Every operation has one of the effects. *)
Lemma apply_mop_effect m op :
  actions m = [] -> (forall h d, dialogs m !! h = Some d -> Dialog.actions d = []) ->
  effect m (poll (apply_mop m op)).1 (poll (apply_mop m op)).2.
Proof.
  intros A P. destruct m as [n ds ids pend acts lc]. simpl in A. subst acts.
  pose (m := mk n ds ids pend [] lc). fold m. change ds with (dialogs m) in P.
  assert (effect m (poll m).1 (poll m).2) as Skip by apply Eff_none.
  destruct op as [inv|tag r|r|h r|u h|h|]; simpl.
  - unfold create_dialog. case_bool_decide as Hm; simpl; [|apply Skip].
    destruct (rok (req_call_id inv)) as [c|] eqn:Ec; [|apply (Eff_alloc m)].
    destruct (rok (req_from_tag inv)) as [f|] eqn:Ef; [|apply (Eff_alloc m)].
    by apply (Eff_uac m inv (c, f)).
  - unfold handle_request. destruct (find_dialog_for_request r m) as [h|].
    + simpl. destruct (ds !! h) as [d|] eqn:Ed; [|apply Skip].
      by apply (update_effect m h d (OpRequest r) []); auto.
    + case_bool_decide as Hm; [|apply Skip]. unfold create_uas_dialog. simpl.
      destruct (new_uas r tag lc) as [d|] eqn:En; [|apply (Eff_alloc m)].
      by apply (Eff_uas m tag r d).
  - by apply response_effect.
  - by apply send_response_effect.
  - unfold send_bye. simpl. destruct (ds !! h) as [d|] eqn:Ed; [|apply Skip].
    destruct (Dialog.send_bye u d) as [o d1] eqn:Eb. simpl.
    apply (update_effect m h d (OpSendBye u) (option_list o)); auto. simpl. by rewrite Eb.
  - unfold ack_sent. simpl. destruct (ds !! h) as [d|] eqn:Ed; [|apply Skip].
    assert (Dialog.ack_sent d = polled (Dialog.ack_sent d)) as E
      by (pose proof (P _ _ Ed) as Pd; destruct d; simpl in Pd; by subst).
    unfold poll. simpl. rewrite E.
    assert (map (manager_action h) (Dialog.actions (Dialog.ack_sent d)) = []) as E'
      by (simpl; by rewrite (P _ _ Ed)).
    pose proof (Eff_update m h d OpAckSent [] (Dialog.ack_sent d) ids pend Ed eq_refl) as Eff.
    rewrite E' in Eff. apply Eff; auto.
  - by apply cleanup_effect.
Qed.

(** *** The invariant *)

Record wf (m : t) : Prop := {
  wf_actions : actions m = [];
  wf_next : 1 <= next_handle m;
  wf_dialogs : forall h d, dialogs m !! h = Some d ->
    1 <= h < next_handle m /\ Dialog.actions d = [];
  wf_ids : forall i h, id_to_handle m !! i = Some h ->
    exists d, dialogs m !! h = Some d /\ id (info d) = i /\ settled d;
  wf_pending : forall k h, pending_uac m !! k = Some h ->
    1 <= h < next_handle m /\
    forall d, dialogs m !! h = Some d -> role d = Uac /\ key_of (invite d) k
}.

Lemma wf_new lc : wf (new lc).
Proof. constructor; simpl; try done; intros ? ? H; by rewrite lookup_empty in H. Qed.

(** A settled dialog keeps its identifier. *)
Lemma settled_step d op sent d1 :
  settled d -> apply_op d op = Some (sent, d1) -> settled d1 /\ id (info d1) = id (info d).
Proof.
  intros S H. destruct (apply_op_frame _ _ _ _ H) as (F1 & F2 & _). split.
  - destruct S as [S|S]; [left; congruence|]. right. intros E. rewrite E in F1.
    destruct (state (info d)); done || (simpl in F1; lia).
  - destruct op as [r|r|r|u|r u|se u|reason u|]; simpl in H.
    + injection H as <- <-. by rewrite (proj2 (proj2 (proj2 (handle_response_state r d))) S).
    + injection H as <- <-. unfold Dialog.handle_request, update_remote_seq.
      destruct (req_cseq r); [|done]. destruct (req_method r); by repeat case_match; simplify_eq.
    + injection H as <- <-. unfold Dialog.send_response. by repeat case_match.
    + unfold Dialog.send_bye in H. case_bool_decide; simpl in H; [|by simplify_eq].
      destruct (build_in_dialog_request _ _ _ _); by simplify_eq.
    + unfold build_prack in H. destruct (rok (resp_cseq_method r)); [|done]. simpl in H.
      destruct (rok (req_build _)); [|done]. simpl in H. by simplify_eq.
    + unfold build_update in H. simpl in H. destruct (rok (req_build _)); [|done].
      simpl in H. by simplify_eq.
    + unfold build_bye_with_reason in H. case_bool_decide; simpl in H; [|by simplify_eq].
      destruct (build_in_dialog_request_with _ _ _ _ _); by simplify_eq.
    + by simplify_eq.
Qed.

Lemma new_uas_fields r tag lc d :
  new_uas r tag lc = Some d ->
  role d = Uas /\ invite d = r /\ Dialog.actions d = [] /\ state (info d) = Early.
Proof.
  unfold new_uas, from_invite_uas.
  destruct (rok (req_call_id r)); cbn [mbind option_bind]; [|done].
  destruct (rok (req_from_tag_and_uri r)) as [[rt ru]|]; cbn [mbind option_bind]; [|done].
  destruct (rok (req_to_uri r)); cbn [mbind option_bind]; [|done].
  destruct (req_contact_uri r); cbn [mbind option_bind]; [|done].
  destruct (rok (req_cseq r)); cbn [mbind option_bind]; [|done].
  intros H. by injection H as <-.
Qed.

Lemma wf_update m h d op sent d1 ids pend :
  wf m -> dialogs m !! h = Some d -> apply_op d op = Some (sent, d1) ->
  (ids = id_to_handle m \/ settled d1 /\ ids = <[id (info d1) := h]> (id_to_handle m)) ->
  (forall k x, pend !! k = Some x -> pending_uac m !! k = Some x) ->
  wf (mk (next_handle m) (<[h := polled d1]> (dialogs m)) ids pend [] (local_contact m)).
Proof.
  intros [WA WN WD WI WP] Hd Ho Hi Hp. constructor; simpl; try done.
  - intros h' d'. rewrite lookup_insert_Some. intros [[<- <-]|[_ H]]; [|eauto].
    destruct (WD _ _ Hd). by split.
  - assert (forall i x, id_to_handle m !! i = Some x ->
      exists d', <[h := polled d1]> (dialogs m) !! x = Some d' /\ id (info d') = i /\ settled d')
      as Old.
    { intros i x H. destruct (WI _ _ H) as (d0 & H0 & E0 & S0).
      destruct (decide (x = h)) as [->|Hx].
      - rewrite Hd in H0. injection H0 as <-. destruct (settled_step _ _ _ _ S0 Ho) as [S1 E1].
        exists (polled d1). rewrite lookup_insert_eq. split_and!; [done| |done].
        change (id (info d1) = i). congruence.
      - exists d0. by rewrite lookup_insert_ne. }
    destruct Hi as [->|[S1 ->]]; [done|]. intros i x.
    rewrite lookup_insert_Some. intros [[<- <-]|[_ H]]; [|by apply Old].
    exists (polled d1). by rewrite lookup_insert_eq.
  - intros k x H. destruct (WP _ _ (Hp _ _ H)) as [W1 W2]. split; [done|].
    intros d'. rewrite lookup_insert_Some. intros [[<- <-]|[_ H']]; [|by apply W2].
    destruct (apply_op_frame _ _ _ _ Ho) as (_ & F2 & F3). simpl. rewrite F2, F3. by apply W2.
Qed.

(** A new dialog, under the next handle. *)
Lemma wf_insert m d ids pend :
  wf m -> Dialog.actions d = [] ->
  (ids = id_to_handle m \/ settled d /\ ids = <[id (info d) := next_handle m]> (id_to_handle m)) ->
  (pend = pending_uac m \/
   exists k, role d = Uac /\ key_of (invite d) k /\ pend = <[k := next_handle m]> (pending_uac m)) ->
  wf (mk (next_handle m + 1) (<[next_handle m := d]> (dialogs m)) ids pend [] (local_contact m)).
Proof.
  intros [WA WN WD WI WP] Ha Hi Hp. constructor; simpl; try done; try lia.
  - intros h d'. rewrite lookup_insert_Some. intros [[<- <-]|[_ H]]; [split; [lia|done]|].
    destruct (WD _ _ H). split; [lia|done].
  - assert (forall i h, id_to_handle m !! i = Some h ->
      exists d', <[next_handle m := d]> (dialogs m) !! h = Some d' /\ id (info d') = i /\ settled d')
      as Old.
    { intros i h H. destruct (WI _ _ H) as (d0 & H0 & E0 & S0). exists d0.
      rewrite lookup_insert_ne; [done|]. destruct (WD _ _ H0). lia. }
    destruct Hi as [->|[S ->]]; [done|]. intros i h.
    rewrite lookup_insert_Some. intros [[<- <-]|[_ H]]; [|by apply Old].
    exists d. by rewrite lookup_insert_eq.
  - assert (forall k h, pending_uac m !! k = Some h -> 1 <= h < next_handle m + 1 /\
      forall d', <[next_handle m := d]> (dialogs m) !! h = Some d' -> role d' = Uac /\ key_of (invite d') k)
      as Old.
    { intros k h H. destruct (WP _ _ H) as [W1 W2]. split; [lia|]. intros d'.
      rewrite lookup_insert_ne by lia. apply W2. }
    destruct Hp as [->|(k & R & K & ->)]; [done|]. intros k' h.
    rewrite lookup_insert_Some. intros [[<- <-]|[_ H]]; [|by apply Old].
    split; [lia|]. intros d'. rewrite lookup_insert_eq. by intros [= <-].
Qed.

Lemma wf_clean m dlgs ids :
  wf m ->
  (forall h, dlgs !! h = match dialogs m !! h with
                         | Some d => if is_terminated d then None else Some d
                         | None => None
                         end) ->
  (forall i x, ids !! i = Some x <-> id_to_handle m !! i = Some x /\
     forall h d, dialogs m !! h = Some d -> is_terminated d = true -> id (info d) <> i) ->
  wf (mk (next_handle m) dlgs ids (pending_uac m) [] (local_contact m)).
Proof.
  intros [WA WN WD WI WP] Hdl Hid.
  assert (forall h d, dlgs !! h = Some d -> dialogs m !! h = Some d) as Sub.
  { intros h d. rewrite Hdl. destruct (dialogs m !! h) as [d'|]; [|done].
    by destruct (is_terminated d'). }
  constructor; simpl; try done.
  - intros h d H. eauto.
  - intros i h H. apply Hid in H as [H Hn']. destruct (WI _ _ H) as (d & H0 & E0 & S0).
    exists d. split; [|done]. rewrite Hdl, H0. destruct (is_terminated d) eqn:Et; [|done].
    by destruct (Hn' _ _ H0 Et).
  - intros k h H. destruct (WP _ _ H) as [W1 W2]. split; [done|]. eauto.
Qed.

Lemma effect_wf m acts m' :
  wf m -> next_handle m + 1 < 2 ^ 64 -> effect m acts m' ->
  wf m' /\ next_handle m <= next_handle m' <= next_handle m + 1.
Proof.
  intros W Hn E. pose proof (wf_next _ W) as WN.
  assert (wrap 64 (next_handle m + 1) = next_handle m + 1) as Hw
    by (apply wrap_small; unfold in_width; lia).
  inversion E as [| |h d op sent d1 ids pend Hd Ho Hi Hp|inv k Hm Hk|tag r d Hm Hd|dlgs ids Hdl Hid];
    subst; clear E; simpl; rewrite ?Hw; (split; [|lia]).
  - done.
  - destruct W as [WA _ WD WI WP]. constructor; simpl; rewrite ?Hw; try done; try lia.
    + intros h d H. destruct (WD _ _ H). split; [lia|done].
    + intros k h H. destruct (WP _ _ H). split; [lia|done].
  - by eapply wf_update.
  - apply wf_insert; [done|done|by left|]. right. by exists k.
  - destruct (new_uas_fields _ _ _ _ Hd) as (Fr & _ & Fa & _).
    apply wf_insert; [done|done| |by left]. right. split; [by left|done].
  - by apply wf_clean.
Qed.

(** *** The history of a dialog *)

Definition events_of (h : DialogHandle) (log : list ManagerAction) : list ManagerEvent :=
  omap (fun a => match a with
                 | MEvent h' e => if decide (h' = h) then Some e else None
                 | _ => None
                 end) log.

Definition dialog_events (acts : list Action) : list ManagerEvent :=
  omap (fun a => match a with EventA e => Some (manager_event e) | _ => None end) acts.

(** A dialog as the manager creates it. *)
Definition born (lc : str) (d : InviteDialog) : Prop :=
  req_method (invite d) = Invite /\
  (d = new_uac (invite d) \/ exists tag, new_uas (invite d) tag lc = Some d).

Definition birth_events (d : InviteDialog) : list ManagerEvent :=
  match role d with Uas => [IncomingInvite (invite d)] | Uac => [] end.

Lemma events_of_app h l l' : events_of h (l ++ l') = events_of h l ++ events_of h l'.
Proof. apply omap_app. Qed.

Lemma events_of_map h h' acts :
  events_of h (map (manager_action h') acts) = if decide (h' = h) then dialog_events acts else [].
Proof.
  unfold events_of, dialog_events. destruct (decide (h' = h)) as [->|Hn].
  - induction acts as [|[r|r|e] acts IH]; simpl; [done|done|done|].
    rewrite decide_True by done. f_equal. exact IH.
  - induction acts as [|[r|r|e] acts IH]; simpl; [done|done|done|].
    by rewrite decide_False.
Qed.

(** [log] is what was polled so far. *)
Record hist (lc : str) (log : list ManagerAction) (m : t) : Prop := {
  hist_wf : wf m;
  hist_contact : local_contact m = lc;
  hist_dialogs : forall h d, dialogs m !! h = Some d ->
    exists d0 ops sent acts, born lc d0 /\ drun d0 ops = Some (sent, acts, d) /\
      events_of h log = birth_events d0 ++ dialog_events acts;
  hist_fresh : forall h, next_handle m <= h -> events_of h log = []
}.

Lemma effect_contact m acts m' : effect m acts m' -> local_contact m' = local_contact m.
Proof. by destruct 1. Qed.

Lemma effect_hist lc log m acts m' :
  hist lc log m -> next_handle m + 1 < 2 ^ 64 -> effect m acts m' -> hist lc (log ++ acts) m'.
Proof.
  intros [HW HC HD HF] Hn E. destruct (effect_wf _ _ _ HW Hn E) as [HW' Hn'].
  constructor; [done|rewrite <- HC; by eapply effect_contact| |].
  - intros h x Hx. rewrite events_of_app.
    inversion E as [| |h1 d op sent d1 ids pend Hd Ho Hi Hp|inv k Hm Hk|tag r d Hm Hd|dlgs ids Hdl Hid];
      subst; clear E; simpl in Hx; rewrite ?app_nil_r; auto.
    + rewrite events_of_map. apply lookup_insert_Some in Hx as [[<- <-]|[Hne Hx]].
      * rewrite decide_True by done. destruct (HD _ _ Hd) as (d0 & ops & s & a & B & R & Ev).
        exists d0, (ops ++ [op]), (s ++ sent), (a ++ Dialog.actions d1). split; [done|].
        split; [by apply drun_snoc with d|]. rewrite Ev. unfold dialog_events.
        by rewrite omap_app, app_assoc.
      * rewrite decide_False by done. rewrite app_nil_r. auto.
    + apply lookup_insert_Some in Hx as [[<- <-]|[Hne Hx]]; [|auto].
      exists (new_uac inv), [], [], []. split; [split; [done|by left]|]. split; [done|].
      by apply HF.
    + apply lookup_insert_Some in Hx as [[<- <-]|[Hne Hx]].
      * destruct (new_uas_fields _ _ _ _ Hd) as (Fr & Fi & _). exists d, [], [], [].
        split; [split; [congruence|right; exists tag; congruence]|]. split; [done|].
        rewrite HF by done. simpl. rewrite decide_True by done.
        unfold birth_events. by rewrite Fr, Fi.
      * simpl. rewrite decide_False by done. rewrite app_nil_r. auto.
    + apply HD. rewrite Hdl in Hx. destruct (dialogs m !! h) as [d|]; [|done].
      destruct (is_terminated d); [done|congruence].
  - intros h Hh. rewrite events_of_app, HF by lia.
    inversion E as [| |h1 d op sent d1 ids pend Hd Ho Hi Hp|inv k Hm Hk|tag r d Hm Hd|dlgs ids Hdl Hid];
      subst; clear E; try done.
    + rewrite events_of_map, decide_False; [done|]. simpl in Hh.
      destruct (wf_dialogs _ HW _ _ Hd). lia.
    + simpl. rewrite decide_False; [done|]. simpl in Hh. unfold wrap in Hh.
      rewrite Z.mod_small in Hh; [lia|]. pose proof (wf_next _ HW). lia.
Qed.

Lemma mrun_hist lc log m ops log' m' :
  hist lc log m -> next_handle m + Z.of_nat (length ops) < 2 ^ 64 ->
  mrun m ops = (log', m') -> hist lc (log ++ log') m'.
Proof.
  revert log m log'. induction ops as [|op ops IH]; intros log m log' H Hn R.
  - injection R as <- <-. by rewrite app_nil_r.
  - rewrite length_cons in Hn. cbn [mrun] in R.
    pose proof (hist_wf _ _ _ H) as W.
    pose proof (apply_mop_effect m op (wf_actions _ W)
      (fun h d Hd => proj2 (wf_dialogs _ W h d Hd))) as E.
    destruct (poll (apply_mop m op)) as [acts m1]. simpl in E.
    destruct (mrun m1 ops) as [acts' m2] eqn:Er. injection R as <- <-.
    destruct (effect_wf _ _ _ W ltac:(lia) E) as [_ Hb].
    rewrite app_assoc. apply (IH (log ++ acts) m1 acts'); [|lia|exact Er].
    eapply effect_hist; [done|lia|done].
Qed.

Lemma hist_new lc : hist lc [] (new lc).
Proof. constructor; [apply wf_new|done| |done]. intros h d H. simpl in H. by rewrite lookup_empty in H. Qed.

(** *** Routing *)

Lemma find_dialog_id r m :
  find_dialog_for_request r m = (let* i := request_dialog_id r in id_to_handle m !! i).
Proof.
  unfold find_dialog_for_request, request_dialog_id.
  destruct (rok (req_call_id r)); [|done]. cbn [mbind option_bind].
  destruct (rok (req_from_tag r)); [|done]. cbn [mbind option_bind].
  by destruct (req_to_tag r).
Qed.

(** A request whose identifier is in the index goes to its dialog alone. *)
Lemma handle_request_routed tag r m i h :
  wf m -> request_dialog_id r = Some i -> id_to_handle m !! i = Some h ->
  exists d, dialogs m !! h = Some d /\ id (info d) = i /\
    let d' := Dialog.handle_request r d in
    handle_request tag r m =
      (Some h, m <| dialogs := <[h := polled d']> (dialogs m) |>
                 <| actions := map (manager_action h) (Dialog.actions d') |>).
Proof.
  intros W Hi Hh. destruct (wf_ids _ W _ _ Hh) as (d & Hd & Ei & _). exists d.
  split_and!; [done|done|]. unfold handle_request. rewrite find_dialog_id, Hi.
  cbn [mbind option_bind]. rewrite Hh, Hd, collect_insert, (wf_actions _ W). done.
Qed.

(** ** Theorems *)

(** C11: the dialog manager's bookkeeping.  After any sequence of operations (fewer than
    2^64 - 1 of them), every identifier in the index belongs to a live dialog that has
    exactly that identifier and is past the setup of a caller, handles are below the
    next one, no dialog keeps unpolled actions, and a pending entry of a live dialog
    names the Call-ID and From tag of the INVITE that dialog was created with. *)
Theorem dialog_manager_invariant lc ops log m :
  Z.of_nat (length ops) < 2 ^ 64 - 1 -> mrun (new lc) ops = (log, m) -> wf m.
Proof.
  intros Hn R. apply (hist_wf lc ([] ++ log)). eapply mrun_hist; [apply hist_new| |exact R].
  simpl. lia.
Qed.

(** C9: the manager multiplexes dialogs faithfully.  After any sequence of operations,
    every dialog in the manager is the result of running a newly created dialog (a
    caller's, or a called side's for a received INVITE) through some sequence of dialog
    operations, and the events the manager reported for its handle are the incoming
    call (called side) followed by exactly the events of that run, in order, nothing
    lost, repeated or taken from another dialog. *)
Theorem dialog_manager_history lc ops log m h d :
  Z.of_nat (length ops) < 2 ^ 64 - 1 -> mrun (new lc) ops = (log, m) ->
  dialogs m !! h = Some d ->
  exists d0 dops sent acts, born lc d0 /\ drun d0 dops = Some (sent, acts, d) /\
    events_of h log = birth_events d0 ++ dialog_events acts.
Proof.
  intros Hn R. apply (hist_dialogs lc ([] ++ log)).
  eapply mrun_hist; [apply hist_new| |exact R]. simpl. lia.
Qed.

(** C10: hanging up ends the call at the other end.  The BYE a confirmed dialog builds,
    received by a manager that indexes the mirrored identifier, reaches that dialog and
    no other: it is terminated, the user is told of the BYE and of the end of the call,
    and the clean-up then removes exactly what the dialog occupied. *)
Theorem bye_ends_peer uuid d bye d' tag m h :
  Dialog.send_bye uuid d = (Some bye, d') ->
  via_ok uuid -> 0 <= local_seq (info d) < 2 ^ 32 - 1 -> printable_info (info d) = true ->
  wf m -> id_to_handle m !! mirror (id (info d)) = Some h ->
  exists m', handle_request tag bye m = (Some h, m') /\
    (exists p, dialogs m' !! h = Some p /\ state (info p) = Terminated) /\
    actions m' = [MEvent h (MByeReceived bye); MEvent h (MTerminated ByeReceived_)] /\
    (forall h', h' <> h -> dialogs m' !! h' = dialogs m !! h') /\
    dialogs (cleanup_terminated m') !! h = None /\
    id_to_handle (cleanup_terminated m') !! mirror (id (info d)) = None.
Proof.
  intros Hb Hu Hc Hp W Hh.
  assert (state (info d) = Confirmed) as St
    by (unfold Dialog.send_bye in Hb; by case_bool_decide; [|discriminate Hb]).
  assert (apply_op d (OpSendBye uuid) = Some ([bye], d')) as Ho by (simpl; by rewrite Hb).
  assert (settled d) as Sd by (right; by rewrite St).
  destruct (sq_sent _ _ _ (apply_op_seq d (OpSendBye uuid) _ _ Sd Hu ltac:(lia) ltac:(lia) Ho))
    as [?|(r & [= <-] & Bi & _)]; [done|].
  pose proof (built_in_mirror _ _ _ Bi Hp) as Hm.
  assert (req_method bye = Bye) as Hbye by (by eapply send_bye_method).
  destruct (handle_request_routed tag bye m _ h W Hm Hh) as (q & Hq & Eq & ->).
  assert (exists cs, req_cseq bye = Ok cs) as [cs Hcs].
  { apply built_in_cseq in Bi. apply rok_some in Bi. eauto. }
  assert (Dialog.handle_request bye q =
    push (EventA (TerminatedE ByeReceived_)) (push (EventA (ByeReceived bye)) (set_state Terminated q)))
    as -> by (unfold Dialog.handle_request; by rewrite Hcs, Hbye).
  destruct (wf_dialogs _ W _ _ Hq) as [_ Aq]. eexists. split; [done|].
  split; [eexists; split; [simpl; by rewrite lookup_insert_eq|done]|].
  split; [simpl; by rewrite Aq|].
  split; [intros h' Hne; simpl; by rewrite lookup_insert_ne|].
  match goal with |- dialogs (cleanup_terminated ?m1) !! h = None /\ _ => set (m' := m1) end.
  pose proof (cleanup_fold (to_remove m') m') as C. cbv zeta in C.
  fold (cleanup_terminated m') in C. destruct C as (C1 & C2 & _).
  assert ((h, mirror (id (info d))) ∈ to_remove m') as Hin.
  { apply to_remove_spec. eexists. split; [unfold m'; simpl; apply lookup_insert_eq|].
    split; [done|exact Eq]. }
  split; apply eq_None_not_Some.
  - intros [x Hx]. apply C1 in Hx as [_ Hx]. apply Hx, list_elem_of_fmap.
    by exists (h, mirror (id (info d))).
  - intros [x Hx]. apply C2 in Hx as [_ Hx]. apply Hx, list_elem_of_fmap.
    by exists (h, mirror (id (info d))).
Qed.

(** ** Witnesses and examples *)

(** Alice's side of a call that Bob has answered. *)
Definition alice : InviteDialog :=
  Dialog.handle_response (bob_response 200) (new_uac (sample_request Invite)).

(** Bob's manager: Alice's INVITE came in and was answered. *)
Definition bob_mops : list MOp :=
  [MRequest #"totag" (sample_request Invite); MRespond 1 (bob_response 200)].

Definition bob : t := (mrun (new #"sip:bob@192.168.1.2:5060") bob_mops).2.

Lemma hist_of_run lc ops :
  Z.of_nat (length ops) < 2 ^ 64 - 1 -> hist lc (mrun (new lc) ops).1 (mrun (new lc) ops).2.
Proof.
  intros H. apply (mrun_hist lc [] (new lc) ops); [apply hist_new|simpl; lia|].
  apply surjective_pairing.
Qed.

Lemma bob_hist :
  hist #"sip:bob@192.168.1.2:5060" (mrun (new #"sip:bob@192.168.1.2:5060") bob_mops).1 bob.
Proof. unfold bob. apply hist_of_run. reflexivity. Qed.

Lemma dialog_manager_invariant_witness :
  forallb (fun hd => is_some (id_to_handle bob !! id (info hd.2))) (map_to_list (dialogs bob)) = true
  /\ wf bob.
Proof.
  split; [vm_compute; reflexivity|]. unfold bob.
  refine (dialog_manager_invariant #"sip:bob@192.168.1.2:5060" bob_mops
    (mrun (new #"sip:bob@192.168.1.2:5060") bob_mops).1
    (mrun (new #"sip:bob@192.168.1.2:5060") bob_mops).2 _ (surjective_pairing _)).
  reflexivity.
Defined.

Lemma dialog_manager_history_witness :
  exists d d0 dops sent acts, dialogs bob !! 1 = Some d /\
    born #"sip:bob@192.168.1.2:5060" d0 /\ drun d0 dops = Some (sent, acts, d) /\
    birth_events d0 ++ dialog_events acts = [IncomingInvite (sample_request Invite); MEstablished].
Proof.
  compute_some (dialogs bob !! 1) as d Ed.
  destruct (dialog_manager_history #"sip:bob@192.168.1.2:5060" bob_mops
    (mrun (new #"sip:bob@192.168.1.2:5060") bob_mops).1
    (mrun (new #"sip:bob@192.168.1.2:5060") bob_mops).2 1 d
    ltac:(reflexivity) (surjective_pairing _) Ed)
    as (d0 & dops & sent & acts & B & R & E).
  exists d, d0, dops, sent, acts. split; [reflexivity|]. split; [exact B|]. split; [exact R|].
  rewrite <- E. vm_compute. reflexivity.
Defined.

Lemma bye_ends_peer_witness :
  exists bye d' m', Dialog.send_bye #"u1" alice = (Some bye, d') /\
    handle_request #"x" bye bob = (Some 1, m') /\
    actions m' = [MEvent 1 (MByeReceived bye); MEvent 1 (MTerminated ByeReceived_)] /\
    dialogs (cleanup_terminated m') !! 1 = None.
Proof.
  assert (is_some (Dialog.send_bye #"u1" alice).1 = true) as Hs by (vm_compute; reflexivity).
  destruct (Dialog.send_bye #"u1" alice) as [[bye|] d'] eqn:Eb; [clear Hs|discriminate Hs].
  destruct (bye_ends_peer #"u1" alice bye d' #"x" bob 1 Eb) as (m' & H1 & _ & H2 & _ & H3 & _).
  - repeat constructor.
  - assert (local_seq (info alice) = 1) as -> by (vm_compute; reflexivity). by split.
  - vm_compute. reflexivity.
  - exact (hist_wf _ _ _ bob_hist).
  - vm_compute. reflexivity.
  - exists bye, d', m'. split; [reflexivity|]. split; [exact H1|]. split; [exact H2|exact H3].
Defined.

(** A dialog that is ended locally is never removed: the answer to the BYE does not move
    it out of the terminating state, and the clean-up takes terminated dialogs only. *)
Definition bye_answer : Response :=
  match resp_build (sample_resp_builder Bye 200) with
  | Ok r => r
  | Err _ => mkResponse [] (StatusCode.new 200) [] [] []
  end.

Example local_bye_leaks_dialog :
  let m := (mrun (new #"sip:alice@192.168.1.1:5060")
     [MCreate (sample_request Invite); MResponse (bob_response 200); MBye #"u1" 1;
      MResponse bye_answer; MCleanup]).2 in
  (handle_response bye_answer m).1 = Some 1 /\
  option_map (fun d => state (info d)) (dialogs m !! 1) = Some Terminating.
Proof. vm_compute. split; reflexivity. Qed.

(** A rejected call leaves its entry among the pending ones. *)
Example rejected_call_leaks_entry :
  let m := (mrun (new #"sip:alice@192.168.1.1:5060")
     [MCreate (sample_request Invite); MResponse (bob_response 486); MCleanup]).2 in
  dialogs m !! 1 = None /\ pending_uac m !! (#"test@example.com", #"fromtag") = Some 1.
Proof. vm_compute. split; reflexivity. Qed.

End DialogManager.
