(* ===== verification/RtpPacket.v ===== *)
(** * RTP packets ([rtp/packet.rs])

    Parsing and building of RTP packets at the level of bytes, and the comparison of
    16-bit sequence numbers.  A byte is a [Z] below 256.  Reading past the end of a
    buffer ([bytes::Buf]) or slicing out of range panics: the outer [option] of [parse]
    is [None] then, and [rtp_parse_total] shows that it never is. *)

From S2P Require Import Prelude.

Local Open Scope Z_scope.

Definition RTP_HEADER_SIZE : Z := 12.
Definition MAX_CSRC : Z := 15.

Definition zlen {A} (l : list A) : Z := Z.of_nat (length l).

Record ExtensionHeader : Type := mkExt { profile : Z; ext_data : list Z }.

Record RtpPacket : Type := mkRtp {
  version : Z;
  padding : bool;
  extension : bool;
  marker : bool;
  payload_type : Z;
  sequence_number : Z;
  timestamp : Z;
  ssrc : Z;
  csrc : list Z;
  extension_header : option ExtensionHeader;
  payload : list Z
}.

#[export] Instance rtp_eta : Settable RtpPacket := fun x =>
  mkRtp (version x) (padding x) (extension x) (marker x) (payload_type x) (sequence_number x)
    (timestamp x) (ssrc x) (csrc x) (extension_header x) (payload x).

Inductive RtpParseError : Type :=
| TooShort (n : Z)
| InvalidVersion (v : Z)
| ExtensionTruncated
| PayloadTruncated.

(** ** Big-endian integers ([bytes::Buf], [bytes::BufMut]) *)

Definition get_u8 (buf : list Z) : option (Z * list Z) :=
  match buf with b :: r => Some (b, r) | [] => None end.

Definition get_u16 (buf : list Z) : option (Z * list Z) :=
  let* (a, buf) := get_u8 buf in
  let* (b, buf) := get_u8 buf in
  Some (256 * a + b, buf).

Definition get_u32 (buf : list Z) : option (Z * list Z) :=
  let* (a, buf) := get_u16 buf in
  let* (b, buf) := get_u16 buf in
  Some (65536 * a + b, buf).

Definition put_u16 (z : Z) : list Z := [z / 256; z mod 256].
Definition put_u32 (z : Z) : list Z := put_u16 (z / 65536) ++ put_u16 (z mod 65536).

(** [buf[..n]] with the rest. *)
Definition split_to (n : Z) (buf : list Z) : option (list Z * list Z) :=
  if zlen buf <? n then None else Some (take (Z.to_nat n) buf, drop (Z.to_nat n) buf).

Fixpoint get_csrcs (n : nat) (buf : list Z) : option (list Z * list Z) :=
  match n with
  | O => Some ([], buf)
  | S n =>
      let* (c, buf) := get_u32 buf in
      let* (cs, buf) := get_csrcs n buf in
      Some (c :: cs, buf)
  end.

Definition bit (b : bool) : Z := if b then 1 else 0.

(** ** [parse] *)

Definition first_version (b : Z) : Z := Z.land (Z.shiftr b 6) 3.
Definition first_padding (b : Z) : bool := Z.land (Z.shiftr b 5) 1 =? 1.
Definition first_extension (b : Z) : bool := Z.land (Z.shiftr b 4) 1 =? 1.
Definition first_csrc_count (b : Z) : Z := Z.land b 15.
Definition second_marker (b : Z) : bool := Z.land (Z.shiftr b 7) 1 =? 1.
Definition second_payload_type (b : Z) : Z := Z.land b 127.

(** The extension header, when the X bit is set. *)
Definition parse_extension (extension : bool) (buf : list Z)
  : option (result (option ExtensionHeader * list Z) RtpParseError) :=
  if extension then
    if zlen buf <? 4 then Some (Err ExtensionTruncated) else
    let* (profile, buf) := get_u16 buf in
    let* (words, buf) := get_u16 buf in
    let length := words * 4 in
    if zlen buf <? length then Some (Err ExtensionTruncated) else
    let* (data, buf) := split_to length buf in
    Some (Ok (Some (mkExt profile data), buf))
  else Some (Ok (None, buf)).

(** The length of the payload: what is left, without the padding. *)
Definition payload_length (padding : bool) (data buf : list Z) : option (result Z RtpParseError) :=
  if padding && negb (zlen buf =? 0) then
    let* padding_count := last data in
    if zlen buf <? padding_count then Some (Err PayloadTruncated)
    else Some (Ok (zlen buf - padding_count))
  else Some (Ok (zlen buf)).

Definition parse (data : list Z) : option (result RtpPacket RtpParseError) :=
  if zlen data <? RTP_HEADER_SIZE then Some (Err (TooShort (zlen data))) else
  let* (first_byte, buf) := get_u8 data in
  let version := first_version first_byte in
  let padding := first_padding first_byte in
  let extension := first_extension first_byte in
  let csrc_count := first_csrc_count first_byte in
  if negb (version =? 2) then Some (Err (InvalidVersion version)) else
  let* (second_byte, buf) := get_u8 buf in
  let marker := second_marker second_byte in
  let payload_type := second_payload_type second_byte in
  let* (sequence_number, buf) := get_u16 buf in
  let* (timestamp, buf) := get_u32 buf in
  let* (ssrc, buf) := get_u32 buf in
  if zlen buf <? csrc_count * 4 then Some (Err (TooShort (zlen data))) else
  let* (csrc, buf) := get_csrcs (Z.to_nat csrc_count) buf in
  let* ext := parse_extension extension buf in
  match ext with
  | Err e => Some (Err e)
  | Ok (extension_header, buf) =>
      let* len := payload_length padding data buf in
      match len with
      | Err e => Some (Err e)
      | Ok len =>
          let* (payload, _) := split_to len buf in
          Some (Ok (mkRtp version padding extension marker payload_type sequence_number
                      timestamp ssrc csrc extension_header payload))
      end
  end.

(** ** [build] *)

Definition div_ceil (a b : Z) : Z := (a + b - 1) / b.

(** Shifts on [u8] drop the bits above the width. *)
Definition first_byte (p : RtpPacket) : Z :=
  Z.lor (Z.lor (Z.lor (wrap 8 (Z.shiftl (version p) 6)) (wrap 8 (Z.shiftl (bit (padding p)) 5)))
           (wrap 8 (Z.shiftl (bit (is_some (extension_header p))) 4)))
    (Z.land (wrap 8 (zlen (csrc p))) 15).

Definition second_byte (p : RtpPacket) : Z :=
  Z.lor (wrap 8 (Z.shiftl (bit (marker p)) 7)) (Z.land (payload_type p) 127).

Definition build_extension (e : option ExtensionHeader) : list Z :=
  match e with
  | None => []
  | Some ext =>
      let word_len := div_ceil (zlen (ext_data ext)) 4 in
      put_u16 (profile ext) ++ put_u16 (wrap 16 word_len) ++ ext_data ext ++
      replicate (Z.to_nat (word_len * 4 - zlen (ext_data ext))) 0
  end.

Definition build (p : RtpPacket) : list Z :=
  [first_byte p; second_byte p] ++ put_u16 (sequence_number p) ++ put_u32 (timestamp p) ++
  put_u32 (ssrc p) ++ concat (map put_u32 (csrc p)) ++ build_extension (extension_header p) ++
  payload p.

(** ** The rest of the file *)

Definition new (payload_type sequence_number timestamp ssrc : Z) : RtpPacket :=
  mkRtp 2 false false false payload_type sequence_number timestamp ssrc [] None [].

Definition with_marker (m : bool) (p : RtpPacket) : RtpPacket := p <| marker := m |>.
Definition with_payload (l : list Z) (p : RtpPacket) : RtpPacket := p <| payload := l |>.

Definition with_csrc (c : Z) (p : RtpPacket) : RtpPacket :=
  if zlen (csrc p) <? MAX_CSRC then p <| csrc := csrc p ++ [c] |> else p.

Definition header_size (p : RtpPacket) : Z :=
  RTP_HEADER_SIZE + zlen (csrc p) * 4 +
  match extension_header p with
  | Some e => 4 + div_ceil (zlen (ext_data e)) 4 * 4
  | None => 0
  end.

(** [as i16]: the value of the 16 bits in two's complement. *)
Definition as_i16 (z : Z) : Z := if z <? 32768 then z else z - 65536.

Definition sequence_diff (a b : Z) : Z := as_i16 (wrap 16 (a - b)).

Definition sequence_newer (a b : Z) : bool := 0 <? sequence_diff a b.

(** ** Lemmas *)

Lemma zlen_nonneg {A} (l : list A) : 0 <= zlen l.
Proof. unfold zlen. lia. Qed.

Lemma zlen_app {A} (l l' : list A) : zlen (l ++ l') = zlen l + zlen l'.
Proof. unfold zlen. rewrite length_app. lia. Qed.

Lemma zlen_cons {A} (x : A) l : zlen (x :: l) = 1 + zlen l.
Proof. unfold zlen. simpl. lia. Qed.

(** A boolean property of all bytes is decided by computation. *)
Lemma byte_forall (P : Z -> bool) :
  forallb P (seqZ 0 256) = true -> forall b, is_u8 b -> P b = true.
Proof.
  rewrite forallb_forall. intros H b Hb. apply H, list_elem_of_In, elem_of_seqZ.
  unfold in_width in Hb. lia.
Qed.

Lemma get_put_u16 z r : get_u16 (put_u16 z ++ r) = Some (z, r).
Proof.
  unfold get_u16, put_u16. cbn [app get_u8 mbind option_bind].
  rewrite <- Z_div_mod_eq_full. done.
Qed.

Lemma get_put_u32 z r : get_u32 (put_u32 z ++ r) = Some (z, r).
Proof.
  unfold get_u32, put_u32. rewrite <- app_assoc, get_put_u16. cbn [mbind option_bind].
  rewrite get_put_u16. cbn [mbind option_bind]. rewrite <- Z_div_mod_eq_full. done.
Qed.

Lemma div_mod_join q k r : 0 <= r < q -> (q * k + r) / q = k /\ (q * k + r) mod q = r.
Proof.
  intros H. rewrite (Z.mul_comm q k). split.
  - rewrite Z.div_add_l, Z.div_small by lia. lia.
  - rewrite Z.add_comm, Z_mod_plus_full. by apply Z.mod_small.
Qed.

Lemma put_get_u16 a b : is_u8 b -> put_u16 (256 * a + b) = [a; b].
Proof. unfold in_width, put_u16. intros H. by destruct (div_mod_join 256 a b H) as [-> ->]. Qed.

Lemma put_get_u32 a b c d :
  is_u8 b -> is_u8 c -> is_u8 d ->
  put_u32 (65536 * (256 * a + b) + (256 * c + d)) = [a; b; c; d].
Proof.
  unfold put_u32. intros Hb Hc Hd.
  destruct (div_mod_join 65536 (256 * a + b) (256 * c + d)) as [-> ->];
    [unfold in_width in *; lia|].
  by rewrite !put_get_u16.
Qed.

Lemma put_u16_bytes z : is_u16 z -> Forall is_u8 (put_u16 z).
Proof.
  unfold in_width, put_u16. intros H.
  constructor; [split; [apply Z.div_pos; lia|apply Z.div_lt_upper_bound; lia]|].
  constructor; [by apply Z.mod_pos_bound|constructor].
Qed.

Lemma put_u32_bytes z : is_u32 z -> Forall is_u8 (put_u32 z).
Proof.
  intros H. unfold in_width in H. apply Forall_app. split; apply put_u16_bytes.
  - split; [apply Z.div_pos; lia|apply Z.div_lt_upper_bound; lia].
  - by apply Z.mod_pos_bound.
Qed.

Lemma get_csrcs_put cs r : get_csrcs (length cs) (concat (map put_u32 cs) ++ r) = Some (cs, r).
Proof.
  induction cs as [|c cs IH]; [done|]. cbn [length map concat get_csrcs].
  rewrite <- app_assoc, get_put_u32. cbn [mbind option_bind]. by rewrite IH.
Qed.

Lemma zlen_put_csrcs cs : zlen (concat (map put_u32 cs)) = 4 * zlen cs.
Proof.
  induction cs as [|c cs IH]; [done|]. cbn [map concat]. rewrite zlen_app, zlen_cons, IH.
  unfold zlen at 1. simpl. lia.
Qed.

Lemma split_to_app l r : split_to (zlen l) (l ++ r) = Some (l, r).
Proof.
  unfold split_to. rewrite zlen_app. pose proof (zlen_nonneg r).
  destruct (Z.ltb_spec (zlen l + zlen r) (zlen l)); [lia|].
  unfold zlen. rewrite Nat2Z.id, take_app_length, drop_app_length. done.
Qed.

Lemma split_to_inv n buf a r :
  0 <= n -> split_to n buf = Some (a, r) -> buf = a ++ r /\ zlen a = n.
Proof.
  unfold split_to. intros Hn. destruct (Z.ltb_spec (zlen buf) n); [done|].
  intros E. simplify_eq. rewrite take_drop. split; [done|]. unfold zlen in *.
  rewrite length_take. lia.
Qed.

(** Reading [n] sources from a buffer that has them. *)
Lemma get_csrcs_total n buf :
  Z.of_nat n * 4 <= zlen buf -> exists cs r, get_csrcs n buf = Some (cs, r) /\ length cs = n.
Proof.
  revert buf. induction n as [|n IH]; intros buf H; [by exists [], buf|].
  destruct buf as [|a [|b [|c [|d buf]]]]; unfold zlen in H; simpl in H; try lia.
  destruct (IH buf) as (cs & r & E & El); [unfold zlen; lia|].
  exists (65536 * (256 * a + b) + (256 * c + d) :: cs), r. simpl. rewrite E. simpl. by rewrite El.
Qed.

Lemma get_csrcs_inv n buf cs r :
  Forall is_u8 buf -> get_csrcs n buf = Some (cs, r) ->
  buf = concat (map put_u32 cs) ++ r /\ length cs = n /\ Forall is_u32 cs.
Proof.
  revert buf cs. induction n as [|n IH]; intros buf cs F H; cbn [get_csrcs] in H; [by simplify_eq|].
  destruct buf as [|a [|b [|c [|d buf]]]]; try done.
  cbn [get_u32 get_u16 get_u8 mbind option_bind] in H.
  destruct (get_csrcs n buf) as [[cs' r']|] eqn:E; [|done]. cbn [mbind option_bind] in H.
  injection H as <- <-. rewrite !Forall_cons in F. destruct F as (Fa & Fb & Fc & Fd & F).
  destruct (IH buf cs' F E) as (-> & <- & Fcs). cbn [map concat].
  rewrite put_get_u32 by done. split; [done|]. split; [done|]. constructor; [|done].
  unfold in_width in *. lia.
Qed.

(** What is read from a header byte is what was put there. *)
Definition first_fields (p x : bool) (n : Z) : Z :=
  Z.lor (Z.lor (Z.lor (wrap 8 (Z.shiftl 2 6)) (wrap 8 (Z.shiftl (bit p) 5)))
           (wrap 8 (Z.shiftl (bit x) 4))) (Z.land (wrap 8 n) 15).

Lemma first_byte_read p x n :
  0 <= n <= MAX_CSRC ->
  let b := first_fields p x n in
  first_version b = 2 /\ first_padding b = p /\ first_extension b = x /\ first_csrc_count b = n.
Proof.
  intros H. assert (forallb (fun n => let b := first_fields p x n in
    (first_version b =? 2) && bool_decide (first_padding b = p) &&
    bool_decide (first_extension b = x) && (first_csrc_count b =? n)) (seqZ 0 16) = true) as C
    by (destruct p, x; vm_compute; reflexivity).
  rewrite forallb_forall in C. specialize (C n). unfold MAX_CSRC in H. cbv zeta in *.
  assert (In n (seqZ 0 16)) as Hin by (apply list_elem_of_In, elem_of_seqZ; lia).
  apply C in Hin. rewrite !andb_true_iff, !bool_decide_eq_true, !Z.eqb_eq in Hin. tauto.
Qed.

Lemma second_byte_read m t :
  0 <= t < 128 ->
  let b := Z.lor (wrap 8 (Z.shiftl (bit m) 7)) (Z.land t 127) in
  second_marker b = m /\ second_payload_type b = t.
Proof.
  intros H. assert (forallb (fun t => let b := Z.lor (wrap 8 (Z.shiftl (bit m) 7)) (Z.land t 127) in
    bool_decide (second_marker b = m) && (second_payload_type b =? t)) (seqZ 0 128) = true) as C
    by (destruct m; vm_compute; reflexivity).
  rewrite forallb_forall in C. specialize (C t). cbv zeta in *.
  assert (In t (seqZ 0 128)) as Hin by (apply list_elem_of_In, elem_of_seqZ; lia).
  apply C in Hin. rewrite !andb_true_iff, !bool_decide_eq_true, !Z.eqb_eq in Hin. tauto.
Qed.

(** The header bytes are put together again from their fields. *)
Lemma first_byte_join b :
  is_u8 b -> first_version b = 2 ->
  first_fields (first_padding b) (first_extension b) (first_csrc_count b) = b /\
  0 <= first_csrc_count b <= MAX_CSRC.
Proof.
  intros Hb Hv. assert (negb (first_version b =? 2) ||
    ((first_fields (first_padding b) (first_extension b) (first_csrc_count b) =? b) &&
     ((0 <=? first_csrc_count b) && (first_csrc_count b <=? MAX_CSRC))) = true) as C.
  { revert b Hb Hv. assert (forall b, is_u8 b -> (fun b => negb (first_version b =? 2) ||
    ((first_fields (first_padding b) (first_extension b) (first_csrc_count b) =? b) &&
     ((0 <=? first_csrc_count b) && (first_csrc_count b <=? MAX_CSRC)))) b = true) as K
      by (apply byte_forall; vm_compute; reflexivity).
    intros b Hb _. exact (K b Hb). }
  rewrite Hv in C. change (negb (2 =? 2)) with false in C. cbn [orb] in C.
  rewrite !andb_true_iff, Z.eqb_eq, !Z.leb_le in C. tauto.
Qed.

Lemma second_byte_join b :
  is_u8 b ->
  Z.lor (wrap 8 (Z.shiftl (bit (second_marker b)) 7)) (Z.land (second_payload_type b) 127) = b /\
  0 <= second_payload_type b < 128.
Proof.
  intros Hb. assert ((fun b => (Z.lor (wrap 8 (Z.shiftl (bit (second_marker b)) 7))
      (Z.land (second_payload_type b) 127) =? b) &&
    ((0 <=? second_payload_type b) && (second_payload_type b <? 128))) b = true) as C
    by (revert b Hb; apply byte_forall; vm_compute; reflexivity).
  cbv beta in C. rewrite !andb_true_iff, Z.eqb_eq, Z.leb_le, Z.ltb_lt in C. tauto.
Qed.

(** *** The two halves of the codec *)

(** A packet the format can carry.  Extensions are whole words. *)
Record packet_ok (p : RtpPacket) : Prop := {
  ok_version : version p = 2;
  ok_extension : extension p = is_some (extension_header p);
  ok_type : 0 <= payload_type p < 128;
  ok_seq : is_u16 (sequence_number p);
  ok_timestamp : is_u32 (timestamp p);
  ok_ssrc : is_u32 (ssrc p);
  ok_count : zlen (csrc p) <= MAX_CSRC;
  ok_csrc : Forall is_u32 (csrc p);
  ok_ext : forall e, extension_header p = Some e ->
    is_u16 (profile e) /\ exists w, zlen (ext_data e) = w * 4 /\ is_u16 w
}.

Lemma div_ceil_words w : 0 <= w -> div_ceil (w * 4) 4 = w.
Proof. intros H. unfold div_ceil. replace (w * 4 + 4 - 1) with (4 * w + 3) by lia.
  by destruct (div_mod_join 4 w 3). Qed.

Lemma build_extension_words e w :
  zlen (ext_data e) = w * 4 -> is_u16 w ->
  build_extension (Some e) = put_u16 (profile e) ++ put_u16 w ++ ext_data e.
Proof.
  intros Hl Hw. unfold build_extension. rewrite Hl, div_ceil_words by (unfold in_width in *; lia).
  rewrite wrap_small by done. replace (w * 4 - w * 4) with 0 by lia. cbn [Z.to_nat replicate].
  by rewrite app_nil_r.
Qed.

Lemma parse_build_extension o r :
  (forall e, o = Some e -> is_u16 (profile e) /\ exists w, zlen (ext_data e) = w * 4 /\ is_u16 w) ->
  parse_extension (is_some o) (build_extension o ++ r) = Some (Ok (o, r)).
Proof.
  intros H. destruct o as [e|]; [|done]. destruct (H e eq_refl) as (_ & w & Hl & Hw).
  rewrite (build_extension_words e w Hl Hw). unfold parse_extension. cbn [is_some].
  rewrite <- !app_assoc. pose proof (zlen_nonneg (ext_data e ++ r)).
  destruct (Z.ltb_spec (zlen (put_u16 (profile e) ++ put_u16 w ++ ext_data e ++ r)) 4) as [Hlt|_].
  { rewrite !(zlen_app (put_u16 _)) in Hlt. unfold zlen at 1 2 in Hlt. simpl in Hlt. lia. }
  rewrite get_put_u16. cbn [mbind option_bind]. rewrite get_put_u16. cbn [mbind option_bind].
  rewrite zlen_app, <- Hl. pose proof (zlen_nonneg r).
  destruct (Z.ltb_spec (zlen (ext_data e) + zlen r) (zlen (ext_data e))); [lia|].
  rewrite split_to_app. cbn [mbind option_bind]. by destruct e.
Qed.

Lemma zlen_build p :
  zlen (build p) = 12 + 4 * zlen (csrc p) + zlen (build_extension (extension_header p)) +
                   zlen (payload p).
Proof.
  unfold build. rewrite !zlen_app, zlen_put_csrcs. unfold zlen at 1 2 3 4. simpl. lia.
Qed.

Lemma zlen_nil_inv {A} (l : list A) : zlen l = 0 -> l = [].
Proof. destruct l; [done|]. unfold zlen. simpl. lia. Qed.

(** What is read from the bytes of a packet: the writer keeps the padding flag and writes no padding, so with
    the flag the last byte of the payload is taken for the length of the padding. *)
Definition reread (p : RtpPacket) : result RtpPacket RtpParseError :=
  match last (payload p) with
  | Some n =>
      if padding p then
        if zlen (payload p) <? n then Err PayloadTruncated
        else Ok (p <| payload := take (Z.to_nat (zlen (payload p) - n)) (payload p) |>)
      else Ok p
  | None => Ok p
  end.

Lemma build_ends p n : last (payload p) = Some n -> last (build p) = Some n.
Proof. intros H. unfold build. by rewrite !last_app, H. Qed.

(** The end of the parse, on what is left after the header. *)
Lemma read_payload p :
  (padding p = true -> Forall is_u8 (payload p)) ->
  (let* len := payload_length (padding p) (build p) (payload p) in
   match len with
   | Err e => Some (Err e)
   | Ok len => let* (pl, _) := split_to len (payload p) in Some (Ok (p <| payload := pl |>))
   end) = Some (reread p).
Proof.
  intros F. unfold payload_length, reread.
  assert (forall q, q <| payload := payload q |> = q) as Hid by (by intros []).
  assert (split_to (zlen (payload p)) (payload p) = Some (payload p, [])) as Hall
    by (pose proof (split_to_app (payload p) []) as E; by rewrite app_nil_r in E).
  destruct (last (payload p)) as [n|] eqn:El.
  - rewrite (build_ends p n El).
    assert (zlen (payload p) <> 0) as Hz by (intros E; apply zlen_nil_inv in E; by rewrite E in El).
    rewrite (proj2 (Z.eqb_neq _ _) Hz). destruct (padding p); cbn [andb negb mbind option_bind].
    + assert (is_u8 n) as Hn.
      { apply last_Some in El as [l El]. specialize (F eq_refl). rewrite El, Forall_app, Forall_singleton in F. apply F. }
      destruct (Z.ltb_spec (zlen (payload p)) n); [done|]. unfold split_to, in_width in *.
      cbn [mbind option_bind]. destruct (Z.ltb_spec (zlen (payload p)) (zlen (payload p) - n)); [lia|done].
    + rewrite Hall. cbn [mbind option_bind]. by rewrite Hid.
  - apply last_None in El. assert (zlen (payload p) = 0) as Hz by by rewrite El.
    rewrite (proj2 (Z.eqb_eq _ _) Hz), andb_false_r. cbn [mbind option_bind].
    rewrite Hall. cbn [mbind option_bind]. by rewrite Hid.
Qed.

Lemma parse_build_any p :
  packet_ok p -> (padding p = true -> Forall is_u8 (payload p)) -> parse (build p) = Some (reread p).
Proof.
  intros [Hv Hx Ht _ _ _ Hn _ He] Hu. rewrite <- (read_payload p Hu).
  destruct (first_byte_read (padding p) (is_some (extension_header p)) (zlen (csrc p)))
    as (F1 & F2 & F3 & F4); [split; [apply zlen_nonneg|done]|].
  destruct (second_byte_read (marker p) (payload_type p) Ht) as (S1 & S2).
  assert (first_byte p = first_fields (padding p) (is_some (extension_header p)) (zlen (csrc p))) as Ef
    by (unfold first_byte; by rewrite Hv).
  rewrite <- Ef in *. clear Ef. fold (second_byte p) in S1, S2.
  pose proof (zlen_build p) as Hl. pose proof (zlen_nonneg (csrc p)).
  pose proof (zlen_nonneg (build_extension (extension_header p))).
  pose proof (zlen_nonneg (payload p)).
  unfold parse. destruct (Z.ltb_spec (zlen (build p)) RTP_HEADER_SIZE) as [Hlt|_];
    [unfold RTP_HEADER_SIZE in Hlt; lia|]. clear Hl.
  assert (get_u8 (build p) = Some (first_byte p, second_byte p :: put_u16 (sequence_number p) ++
    put_u32 (timestamp p) ++ put_u32 (ssrc p) ++ concat (map put_u32 (csrc p)) ++
    build_extension (extension_header p) ++ payload p)) as -> by reflexivity.
  generalize (build p) as data. intros data. cbn [mbind option_bind].
  rewrite F1. change (negb (2 =? 2)) with false. cbn [get_u8 mbind option_bind].
  rewrite get_put_u16. cbn [mbind option_bind]. rewrite get_put_u32. cbn [mbind option_bind].
  rewrite get_put_u32. cbn [mbind option_bind]. rewrite F4.
  destruct (Z.ltb_spec (zlen (concat (map put_u32 (csrc p)) ++
    build_extension (extension_header p) ++ payload p)) (zlen (csrc p) * 4)) as [Hlt|_];
    [rewrite !zlen_app, zlen_put_csrcs in Hlt; lia|].
  assert (Z.to_nat (zlen (csrc p)) = length (csrc p)) as -> by (unfold zlen; lia).
  rewrite get_csrcs_put. cbn [mbind option_bind]. rewrite F3, parse_build_extension by done.
  cbn [mbind option_bind]. rewrite F2, S1, S2.
  destruct (payload_length (padding p) data (payload p)) as [[len|e]|]; [|done..]. cbn [mbind option_bind].
  destruct (split_to len (payload p)) as [[pl pad]|]; [|done]. cbn [mbind option_bind]. destruct p. simpl in *. by subst.
Qed.

Lemma parse_build p : packet_ok p -> padding p = false -> parse (build p) = Some (Ok p).
Proof.
  intros H Hp. rewrite parse_build_any by (done || by rewrite Hp). unfold reread. rewrite Hp. by destruct (last _).
Qed.

(** The twelve fixed bytes. *)
Lemma split_12 (data : list Z) :
  12 <= zlen data ->
  exists b0 b1 b2 b3 b4 b5 b6 b7 b8 b9 b10 b11 rest,
    data = b0 :: b1 :: b2 :: b3 :: b4 :: b5 :: b6 :: b7 :: b8 :: b9 :: b10 :: b11 :: rest.
Proof.
  unfold zlen. intros H.
  do 12 (destruct data as [|? data]; [simpl in H; lia|]). by repeat eexists.
Qed.

(** The outcome of the extension parser: it never panics, and what it accepts it can
    print again. *)
Lemma parse_extension_spec x buf :
  Forall is_u8 buf ->
  exists r, parse_extension x buf = Some r /\
  match r with
  | Err e => e = ExtensionTruncated
  | Ok (o, rest) => buf = build_extension o ++ rest /\ x = is_some o /\ Forall is_u8 rest /\
      forall e, o = Some e -> is_u16 (profile e) /\ exists w, zlen (ext_data e) = w * 4 /\ is_u16 w
  end.
Proof.
  intros F. unfold parse_extension. destruct x; [|by eexists].
  destruct (Z.ltb_spec (zlen buf) 4) as [|Hl]; [by eexists|].
  destruct buf as [|a [|b [|c [|d buf]]]]; unfold zlen in Hl; simpl in Hl; try lia.
  rewrite !Forall_cons in F. destruct F as (Fa & Fb & Fc & Fd & F).
  cbn [get_u16 get_u8 mbind option_bind].
  destruct (Z.ltb_spec (zlen buf) ((256 * c + d) * 4)) as [|Hb]; [by eexists|].
  assert (is_u16 (256 * c + d)) as Hw by (unfold in_width in *; lia).
  destruct (split_to ((256 * c + d) * 4) buf) as [[dat rest]|] eqn:Es.
  2:{ unfold split_to in Es. by destruct (Z.ltb_spec (zlen buf) ((256 * c + d) * 4)); [lia|]. }
  cbn [mbind option_bind]. eexists. split; [done|].
  apply split_to_inv in Es as [-> El]; [|unfold in_width in *; lia].
  apply Forall_app in F as [_ F]. split_and!; [|done|done|].
  - rewrite (build_extension_words (mkExt (256 * a + b) dat) _ El Hw). cbn [profile ext_data].
    by rewrite !put_get_u16.
  - intros e [= <-]. cbn [profile ext_data]. split; [unfold in_width in *; lia|]. by eexists.
Qed.

Lemma payload_length_spec pd data buf :
  Forall is_u8 data -> data <> [] ->
  exists r, payload_length pd data buf = Some r /\
  match r with
  | Err e => e = PayloadTruncated
  | Ok n => n <= zlen buf /\ 0 <= n /\ (pd = false -> n = zlen buf) /\ (n = zlen buf \/ last data = Some (zlen buf - n))
  end.
Proof.
  intros F Hn. pose proof (zlen_nonneg buf). unfold payload_length.
  destruct (pd && negb (zlen buf =? 0)) eqn:E.
  - destruct (last data) as [c|] eqn:El; [|by apply last_None in El].
    cbn [mbind option_bind]. assert (is_u8 c) as Hc.
    { apply last_Some in El as [l ->]. apply Forall_app in F as [_ F]. by inversion F. }
    destruct (Z.ltb_spec (zlen buf) c); [by eexists|]. eexists. split; [done|].
    unfold in_width in Hc. split_and!; [lia|lia| |right; f_equal; lia]. intros ->. done.
  - eexists. split; [done|]. split_and!; lia || done || by left.
Qed.

(** Building the packet read from its header bytes. *)
Lemma build_read b0 b1 b2 b3 b4 b5 b6 b7 b8 b9 b10 b11 cs o pl pad :
  is_u8 b0 -> is_u8 b1 -> is_u8 b3 -> is_u8 b5 -> is_u8 b6 -> is_u8 b7 -> is_u8 b9 -> is_u8 b10 ->
  is_u8 b11 -> first_version b0 = 2 -> zlen cs = first_csrc_count b0 ->
  first_extension b0 = is_some o ->
  b0 :: b1 :: b2 :: b3 :: b4 :: b5 :: b6 :: b7 :: b8 :: b9 :: b10 :: b11 ::
    concat (map put_u32 cs) ++ build_extension o ++ pl ++ pad =
  build (mkRtp (first_version b0) (first_padding b0) (first_extension b0) (second_marker b1)
    (second_payload_type b1) (256 * b2 + b3) (65536 * (256 * b4 + b5) + (256 * b6 + b7))
    (65536 * (256 * b8 + b9) + (256 * b10 + b11)) cs o pl) ++ pad.
Proof.
  intros F0 F1 F3 F5 F6 F7 F9 F10 F11 Hv Ec Hx.
  destruct (first_byte_join b0 F0 Hv) as [J0 _]. destruct (second_byte_join b1 F1) as [J1 _].
  unfold build, first_byte, second_byte.
  cbn [RtpPacket.version RtpPacket.padding RtpPacket.csrc extension_header RtpPacket.marker
       RtpPacket.payload_type RtpPacket.payload sequence_number timestamp ssrc].
  rewrite Ec, <- Hx, Hv.
  fold (first_fields (first_padding b0) (first_extension b0) (first_csrc_count b0)).
  rewrite J0, J1, put_get_u16, !put_get_u32 by done. by rewrite <- !app_assoc.
Qed.

(** The parser is total on bytes.  What it accepts is the printed packet followed by the
    padding it removed. *)
Lemma parse_spec data :
  Forall is_u8 data ->
  exists r, parse data = Some r /\
  match r with
  | Ok p => packet_ok p /\ exists pad, data = build p ++ pad /\ (padding p = false -> pad = []) /\
      (pad = [] \/ last pad = Some (zlen pad))
  | Err (TooShort n) => n = zlen data /\ zlen data < 12 + 4 * MAX_CSRC
  | Err (InvalidVersion v) => v <> 2
  | Err _ => True
  end.
Proof.
  intros F. unfold parse. destruct (Z.ltb_spec (zlen data) RTP_HEADER_SIZE) as [Hl|Hl].
  { eexists. split; [done|]. unfold RTP_HEADER_SIZE, MAX_CSRC in *. lia. }
  destruct (split_12 data Hl) as (b0 & b1 & b2 & b3 & b4 & b5 & b6 & b7 & b8 & b9 & b10 & b11 &
    rest & Ed).
  assert (data <> []) as Hne by (by rewrite Ed).
  assert (get_u8 data = Some (b0, drop 1 data)) as -> by (by rewrite Ed).
  assert (drop 1 data = b1 :: b2 :: b3 :: b4 :: b5 :: b6 :: b7 :: b8 :: b9 :: b10 :: b11 :: rest)
    as -> by (by rewrite Ed).
  pose proof F as F'. rewrite Ed, !Forall_cons in F'.
  destruct F' as (F0 & F1 & F2 & F3 & F4 & F5 & F6 & F7 & F8 & F9 & F10 & F11 & Fr).
  cbn [get_u8 get_u16 get_u32 mbind option_bind].
  destruct (Z.eqb_spec (first_version b0) 2) as [Hv|Hv]; [|by eexists]. cbn [negb].
  destruct (first_byte_join b0 F0 Hv) as [J0 Hc]. destruct (second_byte_join b1 F1) as [J1 Ht].
  destruct (Z.ltb_spec (zlen rest) (first_csrc_count b0 * 4)) as [Hs|Hs].
  { eexists. split; [done|]. split; [done|]. rewrite Ed. unfold zlen, MAX_CSRC in *. simpl. lia. }
  destruct (get_csrcs_total (Z.to_nat (first_csrc_count b0)) rest) as (cs & r1 & Ecs & Hcl);
    [lia|]. rewrite Ecs. cbn [mbind option_bind].
  destruct (get_csrcs_inv _ _ _ _ Fr Ecs) as (-> & _ & Fcs). apply Forall_app in Fr as [_ Fr1].
  destruct (parse_extension_spec (first_extension b0) r1 Fr1) as (re & -> & Hre).
  cbn [mbind option_bind]. destruct re as [[o r2]|e]; [|by subst e; eexists].
  destruct Hre as (-> & Hx & Fr2 & Ho).
  destruct (payload_length_spec (first_padding b0) data r2 F Hne) as (rp & -> & Hrp).
  cbn [mbind option_bind]. destruct rp as [n|e]; [|by subst e; eexists].
  destruct Hrp as (Hn1 & Hn2 & Hn3 & Hn4).
  destruct (split_to n r2) as [[pl pad]|] eqn:Es.
  2:{ unfold split_to in Es. by destruct (Z.ltb_spec (zlen r2) n); [lia|]. }
  cbn [mbind option_bind]. eexists. split; [done|].
  apply split_to_inv in Es as [-> El]; [|done].
  assert (zlen cs = first_csrc_count b0) as Ecc by (unfold zlen; lia).
  split.
  - constructor; simpl; done || (unfold in_width in *; lia).
  - rewrite zlen_app in Hn3, Hn4. exists pad. split; [rewrite Ed; by apply build_read|]. split.
    + simpl. intros Hp. apply zlen_nil_inv. apply Hn3 in Hp. lia.
    + destruct Hn4 as [Hn4|Hn4]; [left; apply zlen_nil_inv; lia|].
      destruct (last pad) as [c|] eqn:Ep; [|by left; apply last_None in Ep]. right.
      rewrite Ed, !app_comm_cons, !app_assoc, last_app, Ep in Hn4. injection Hn4 as Hn4. f_equal. lia.
Qed.

Lemma wrap_sub i j : wrap 16 (wrap 16 i - wrap 16 j) = wrap 16 (i - j).
Proof. unfold wrap. by rewrite <- Zminus_mod. Qed.

Lemma sequence_diff_window i j :
  -32768 <= i - j < 32768 -> sequence_diff (wrap 16 i) (wrap 16 j) = i - j.
Proof.
  intros H. unfold sequence_diff. rewrite wrap_sub. unfold as_i16, wrap.
  change (2 ^ 16) with 65536.
  assert (0 <= i - j /\ (i - j) mod 65536 = i - j \/
          i - j < 0 /\ (i - j) mod 65536 = i - j + 65536) as [[? ->]|[? ->]].
  { destruct (Z.neg_nonneg_cases (i - j)); [right|left]; (split; [done|]).
    - rewrite <- (Z_mod_plus_full _ 1), Z.mod_small; lia.
    - apply Z.mod_small. lia. }
  - destruct (Z.ltb_spec (i - j) 32768); lia.
  - destruct (Z.ltb_spec (i - j + 65536) 32768); lia.
Qed.

(** ** Theorems *)

(** C18: [build] and [parse] are inverse to each other on packets without padding: every such packet the
    format can carry is read back from its bytes as it was, and bytes that parse to such a packet are exactly what
    [build] prints for it.  With the padding flag they are not: the bytes of a packet are read back as [reread]
    says, without as many bytes as the last of its payload counts, and bytes that parse are what [build] prints
    with the padding behind it, whose last byte is its length. *)
Theorem rtp_codec_inverse p data :
  (packet_ok p -> (padding p = true -> Forall is_u8 (payload p)) -> parse (build p) = Some (reread p)) /\
  (padding p = false -> reread p = Ok p) /\
  (Forall is_u8 data -> parse data = Some (Ok p) ->
    exists pad, data = build p ++ pad /\ (padding p = false -> pad = []) /\ (pad = [] \/ last pad = Some (zlen pad))).
Proof.
  split_and!; [by apply parse_build_any| |].
  - unfold reread. intros ->. by destruct (last _).
  - intros F E. destruct (parse_spec data F) as (r & Er & H). rewrite E in Er. injection Er as <-. apply H.
Qed.

(** Parsing any bytes returns, never reading past the buffer.  An accepted packet has
    every field within its width, at most fifteen sources and an extension of whole words,
    and its bytes are the printed packet followed by the padding that was removed; a
    packet of 72 bytes or more is never too short, and a version error is not version 2. *)
Theorem rtp_parse_total data :
  Forall is_u8 data ->
  exists r, parse data = Some r /\
  match r with
  | Ok p => packet_ok p /\ exists pad, data = build p ++ pad /\ (padding p = false -> pad = [])
  | Err (TooShort n) => n = zlen data /\ zlen data < 72
  | Err (InvalidVersion v) => v <> 2
  | Err _ => True
  end.
Proof.
  intros F. destruct (parse_spec data F) as (r & E & H). exists r. split; [done|].
  destruct r as [p|[]]; try done. destruct H as (Hp & pad & E' & Hn & _). eauto.
Qed.

(** Comparing 16-bit sequence numbers agrees with comparing the unbounded packet
    indices they are the low halves of, as long as the packets are within half the
    number space of each other, whatever number of times the counter wrapped. *)
Theorem sequence_compare_ideal i j :
  -32768 < i - j < 32768 ->
  sequence_diff (wrap 16 i) (wrap 16 j) = i - j /\
  sequence_newer (wrap 16 i) (wrap 16 j) = (j <? i) /\
  (sequence_newer (wrap 16 i) (wrap 16 j) = true -> sequence_newer (wrap 16 j) (wrap 16 i) = false).
Proof.
  intros H. unfold sequence_newer. rewrite !sequence_diff_window by lia.
  destruct (Z.ltb_spec 0 (i - j)), (Z.ltb_spec j i), (Z.ltb_spec 0 (j - i)); auto; lia.
Qed.

(** ** Witnesses *)

Definition sample_packet : RtpPacket :=
  mkRtp 2 false true true 96 65535 160 12345 [7; 4294967295] (Some (mkExt 48862 [1; 2; 3; 4]))
    [170; 187].

Lemma sample_packet_ok : packet_ok sample_packet.
Proof.
  constructor; simpl; try done.
  - by repeat constructor.
  - intros e [= <-]. split; [done|]. by exists 1.
Qed.

Lemma rtp_codec_inverse_witness :
  let padded := with_payload [10; 20; 2] (new 0 1 160 12345) <| padding := true |> in
  parse (build sample_packet) = Some (Ok sample_packet) /\
  parse (build padded) = Some (Ok (padded <| payload := [10] |>)) /\
  exists pad, [128; 0; 0; 1; 0; 0; 0; 160; 0; 0; 48; 57] = build (new 0 1 160 12345) ++ pad /\ pad = [].
Proof.
  intros padded. split; [|split].
  - rewrite <- (proj1 (proj2 (rtp_codec_inverse sample_packet [])) eq_refl).
    apply (rtp_codec_inverse sample_packet []); [exact sample_packet_ok|discriminate].
  - apply (rtp_codec_inverse padded []); [|intros _; by repeat constructor].
    constructor; simpl; try done; by repeat constructor.
  - destruct (proj2 (proj2 (rtp_codec_inverse (new 0 1 160 12345) [128; 0; 0; 1; 0; 0; 0; 160; 0; 0; 48; 57])))
      as (pad & E & Hp & _); [by repeat constructor|reflexivity|].
    exists pad. split; [exact E|by apply Hp].
Defined.

Lemma rtp_parse_total_witness :
  exists r, parse [144; 0; 0; 1; 0; 0; 0; 160; 0; 0; 48; 57; 190; 222; 0; 9] = Some r /\
    r = Err ExtensionTruncated.
Proof.
  destruct (rtp_parse_total [144; 0; 0; 1; 0; 0; 0; 160; 0; 0; 48; 57; 190; 222; 0; 9])
    as (r & E & _).
  - by repeat constructor.
  - exists r. split; [exact E|]. vm_compute in E. by injection E as <-.
Defined.

Lemma sequence_compare_ideal_witness : sequence_newer 5 65530 = true.
Proof. exact (proj1 (proj2 (sequence_compare_ideal 65541 65530 ltac:(split; reflexivity)))). Defined.

(** Building a padded packet keeps the padding flag but writes no padding, so the last
    payload byte is taken for the padding length when the bytes are read again. *)
Example padded_build_not_reread :
  let p := with_payload [10; 20; 2] (new 0 1 160 12345) <| padding := true |> in
  parse (build p) = Some (Ok (p <| payload := [10] |>)).
Proof. vm_compute. reflexivity. Qed.
