(* ===== verification/Srtp.v ===== *)
(** * Secure RTP ([srtp/kdf.rs], [srtp/context.rs])

    Key derivation and the protection of RTP and RTCP packets.  The AES-CTR key stream
    and HMAC-SHA1 come from other crates: they are parameters, of which only the lengths
    of the outputs are assumed.  The outer [option] is a panic (an index or slice out of
    range); the error texts are the constructors of [SrtpError]. *)

From S2P Require Import Prelude RStr RtpPacket.

Local Open Scope Z_scope.

(** ** [srtp/kdf.rs] *)

Inductive CryptoSuite : Type := AesCm128HmacSha1_80 | AesCm128HmacSha1_32.

Definition suite_as_str (s : CryptoSuite) : str :=
  match s with
  | AesCm128HmacSha1_80 => #"AES_CM_128_HMAC_SHA1_80"
  | AesCm128HmacSha1_32 => #"AES_CM_128_HMAC_SHA1_32"
  end.

(** [to_uppercase] is the Unicode table behind [str::to_uppercase]. *)
Definition suite_parse (to_uppercase : str -> str) (s : str) : option CryptoSuite :=
  let u := to_uppercase s in
  if eqb u #"AES_CM_128_HMAC_SHA1_80" then Some AesCm128HmacSha1_80
  else if eqb u #"AES_CM_128_HMAC_SHA1_32" then Some AesCm128HmacSha1_32
  else None.

Definition auth_tag_len (s : CryptoSuite) : nat :=
  match s with AesCm128HmacSha1_80 => 10 | AesCm128HmacSha1_32 => 4 end.

Definition master_key_len (s : CryptoSuite) : nat := 16.
Definition master_salt_len (s : CryptoSuite) : nat := 14.
Definition session_key_len (s : CryptoSuite) : nat := 16.
Definition session_salt_len (s : CryptoSuite) : nat := 14.
Definition session_auth_key_len (s : CryptoSuite) : nat := 20.

Inductive Label : Type :=
| SrtpEncryption | SrtpAuthentication | SrtpSalt
| SrtcpEncryption | SrtcpAuthentication | SrtcpSalt.

Definition label_byte (l : Label) : Z :=
  match l with
  | SrtpEncryption => 0 | SrtpAuthentication => 1 | SrtpSalt => 2
  | SrtcpEncryption => 3 | SrtcpAuthentication => 4 | SrtcpSalt => 5
  end.

Record SessionKeys : Type := mkKeys {
  srtp_enc_key : list Z;
  srtp_auth_key : list Z;
  srtp_salt : list Z;
  srtcp_enc_key : list Z;
  srtcp_auth_key : list Z;
  srtcp_salt : list Z
}.

Inductive SrtpError : Type :=
| BadKeyLength | BadSaltLength
| PacketTooShort | ExtensionTooShort | HeaderTooShort | AuthenticationFailed.

(** [iv[..salt.len()].copy_from_slice(salt)] into sixteen zeros. *)
Definition copy_into_16 (salt : list Z) : option (list Z) :=
  if decide (length salt <= 16)%nat then Some (salt ++ replicate (16 - length salt) 0) else None.

Definition xor_bytes (a b : list Z) : list Z := zip_with Z.lxor a b.

(** ** [srtp/context.rs] *)

Record SrtpContext : Type := mkCtx {
  suite : CryptoSuite;
  keys : SessionKeys;
  sender_roc : Z;
  receiver_roc : Z;
  highest_seq : Z;
  first_packet : bool
}.

#[export] Instance ctx_eta : Settable SrtpContext := fun x =>
  mkCtx (suite x) (keys x) (sender_roc x) (receiver_roc x) (highest_seq x) (first_packet x).

Record SrtcpContext : Type := mkCtcp { c_suite : CryptoSuite; c_keys : SessionKeys; c_index : Z }.

#[export] Instance ctcp_eta : Settable SrtcpContext := fun x =>
  mkCtcp (c_suite x) (c_keys x) (c_index x).

(** [u16::from_be_bytes([l[i], l[i+1]])] *)
Definition u16_at (l : list Z) (i : nat) : option Z :=
  let* a := l !! i in
  let* b := l !! S i in
  Some (256 * a + b).

Definition u32_at (l : list Z) (i : nat) : option Z :=
  let* a := u16_at l i in
  let* b := u16_at l (i + 2) in
  Some (65536 * a + b).

(** The low 48 bits, as [index.to_be_bytes()[2..]]. *)
Definition be48 (index : Z) : list Z := put_u16 (wrap 16 (index / 2 ^ 32)) ++ put_u32 (wrap 32 index).

Definition build_iv (salt : list Z) (ssrc index : Z) : option (list Z) :=
  let* iv := copy_into_16 salt in
  Some (xor_bytes iv ([0; 0; 0; 0] ++ put_u32 ssrc ++ be48 index ++ [0; 0])).

Definition build_srtcp_iv (salt : list Z) (ssrc index : Z) : option (list Z) :=
  let* iv := copy_into_16 salt in
  Some (xor_bytes iv ([0; 0; 0; 0] ++ put_u32 ssrc ++ [0; 0] ++ put_u32 index ++ [0; 0])).

Definition get_rtp_header_len (rtp : list Z) : option (result Z SrtpError) :=
  if zlen rtp <? 12 then Some (Err PacketTooShort) else
  let* b0 := rtp !! 0%nat in
  let cc := Z.land b0 15 in
  let has_extension := negb (Z.land b0 16 =? 0) in
  let header_len := 12 + cc * 4 in
  let* hl :=
    if has_extension then
      if zlen rtp <? header_len + 4 then Some (Err ExtensionTooShort) else
      let* ext_len := u16_at rtp (Z.to_nat (header_len + 2)) in
      Some (Ok (header_len + (4 + ext_len * 4)))
    else Some (Ok header_len) in
  match hl with
  | Err e => Some (Err e)
  | Ok header_len =>
      if zlen rtp <? header_len then Some (Err HeaderTooShort) else Some (Ok header_len)
  end.

Definition estimate_roc (current_roc highest_seq new_seq : Z) : Z :=
  if highest_seq <? 32768 then
    if (highest_seq <? new_seq) && (32768 <? new_seq - highest_seq)
    then wrap 32 (current_roc - 1) else current_roc
  else if (new_seq <? highest_seq) && (32768 <? highest_seq - new_seq)
  then wrap 32 (current_roc + 1) else current_roc.

Definition constant_time_compare (a b : list Z) : bool :=
  if negb (Nat.eqb (length a) (length b)) then false
  else fold_left Z.lor (zip_with Z.lxor a b) 0 =? 0.

(** [(roc as u64) << 16 | seq] *)
Definition packet_index (roc seq : Z) : Z := Z.lor (Z.shiftl roc 16) seq.

Section Crypto.

(** [Ctr128BE<Aes128>]: the first [n] bytes of the key stream of a key and an initial
    counter block; [Hmac<Sha1>]: the 20-byte code of a message under a key. *)
Variable keystream : list Z -> list Z -> nat -> list Z.
Variable hmac : list Z -> list Z -> list Z.

Definition derive_key (master_key master_salt : list Z) (label : Label) (len : nat)
  : option (list Z) :=
  let* x := copy_into_16 master_salt in
  let iv := xor_bytes x (replicate 7 0 ++ [label_byte label] ++ replicate 8 0) in
  Some (take len (xor_bytes (replicate ((len + 15) / 16 * 16) 0)
                    (keystream master_key iv ((len + 15) / 16 * 16)))).

Definition derive (suite : CryptoSuite) (master_key master_salt : list Z)
  : option (result SessionKeys SrtpError) :=
  if negb (Nat.eqb (length master_key) (master_key_len suite)) then Some (Err BadKeyLength) else
  if negb (Nat.eqb (length master_salt) (master_salt_len suite)) then Some (Err BadSaltLength) else
  let* k1 := derive_key master_key master_salt SrtpEncryption (session_key_len suite) in
  let* k2 := derive_key master_key master_salt SrtpAuthentication (session_auth_key_len suite) in
  let* k3 := derive_key master_key master_salt SrtpSalt (session_salt_len suite) in
  let* k4 := derive_key master_key master_salt SrtcpEncryption (session_key_len suite) in
  let* k5 := derive_key master_key master_salt SrtcpAuthentication (session_auth_key_len suite) in
  let* k6 := derive_key master_key master_salt SrtcpSalt (session_salt_len suite) in
  Some (Ok (mkKeys k1 k2 k3 k4 k5 k6)).

Definition srtp_new (suite : CryptoSuite) (master_key master_salt : list Z)
  : option (result SrtpContext SrtpError) :=
  let* r := derive suite master_key master_salt in
  Some (let? keys := r in Ok (mkCtx suite keys 0 0 0 true)).

Definition apply_keystream (key iv payload : list Z) : list Z :=
  xor_bytes payload (keystream key iv (length payload)).

Definition compute_auth_tag (c : SrtpContext) (packet : list Z) (roc : Z) : list Z :=
  hmac (srtp_auth_key (keys c)) (packet ++ put_u32 roc).

(** [&tag[..n]]: the slice is in range when the code has at least [n] bytes. *)
Definition prefix_of (n : nat) (l : list Z) : option (list Z) :=
  if decide (n <= length l)%nat then Some (take n l) else None.

Definition protect (rtp : list Z) (c : SrtpContext)
  : option (result (list Z) SrtpError * SrtpContext) :=
  if zlen rtp <? 12 then Some (Err PacketTooShort, c) else
  let* seq := u16_at rtp 2 in
  let c := if (seq <? 32768) && (32768 <? highest_seq c)
           then c <| sender_roc := wrap 32 (sender_roc c + 1) |> else c in
  let c := c <| highest_seq := seq |> in
  let* ssrc := u32_at rtp 8 in
  let index := packet_index (sender_roc c) seq in
  let* iv := build_iv (srtp_salt (keys c)) ssrc index in
  let* hl := get_rtp_header_len rtp in
  match hl with
  | Err e => Some (Err e, c)
  | Ok hl =>
      let output := take (Z.to_nat hl) rtp ++
        apply_keystream (srtp_enc_key (keys c)) iv (drop (Z.to_nat hl) rtp) in
      let* tag := prefix_of (auth_tag_len (suite c)) (compute_auth_tag c output (sender_roc c)) in
      Some (Ok (output ++ tag), c)
  end.

Definition unprotect (srtp : list Z) (c : SrtpContext)
  : option (result (list Z) SrtpError * SrtpContext) :=
  let tag_len := auth_tag_len (suite c) in
  if zlen srtp <? 12 + Z.of_nat tag_len then Some (Err PacketTooShort, c) else
  let packet := take (length srtp - tag_len) srtp in
  let received_tag := drop (length srtp - tag_len) srtp in
  let* seq := u16_at packet 2 in
  let '(roc, c) := if first_packet c
                   then (0, c <| first_packet := false |> <| highest_seq := seq |>)
                   else (estimate_roc (receiver_roc c) (highest_seq c) seq, c) in
  let* expected_tag := prefix_of tag_len (compute_auth_tag c packet roc) in
  if negb (constant_time_compare expected_tag received_tag)
  then Some (Err AuthenticationFailed, c) else
  let index := packet_index roc seq in
  let current_index := packet_index (receiver_roc c) (highest_seq c) in
  let c := if current_index <? index
           then c <| receiver_roc := roc |> <| highest_seq := seq |> else c in
  let* ssrc := u32_at packet 8 in
  let* iv := build_iv (srtp_salt (keys c)) ssrc index in
  let* hl := get_rtp_header_len packet in
  match hl with
  | Err e => Some (Err e, c)
  | Ok hl =>
      Some (Ok (take (Z.to_nat hl) packet ++
              apply_keystream (srtp_enc_key (keys c)) iv (drop (Z.to_nat hl) packet)), c)
  end.

(** *** SRTCP *)

Definition srtcp_new (suite : CryptoSuite) (master_key master_salt : list Z)
  : option (result SrtcpContext SrtpError) :=
  let* r := derive suite master_key master_salt in
  Some (let? keys := r in Ok (mkCtcp suite keys 0)).

Definition srtcp_auth_tag (c : SrtcpContext) (packet : list Z) : list Z :=
  hmac (srtcp_auth_key (c_keys c)) packet.

Definition srtcp_protect (rtcp : list Z) (c : SrtcpContext)
  : option (result (list Z) SrtpError * SrtcpContext) :=
  if zlen rtcp <? 8 then Some (Err PacketTooShort, c) else
  let* ssrc := u32_at rtcp 4 in
  let srtcp_index := Z.lor 2147483648 (c_index c) in
  let c := c <| c_index := Z.land (wrap 32 (c_index c + 1)) 2147483647 |> in
  let* iv := build_srtcp_iv (srtcp_salt (c_keys c)) ssrc srtcp_index in
  let output := take 8 rtcp ++ apply_keystream (srtcp_enc_key (c_keys c)) iv (drop 8 rtcp) ++
    put_u32 srtcp_index in
  let* tag := prefix_of (auth_tag_len (c_suite c)) (srtcp_auth_tag c output) in
  Some (Ok (output ++ tag), c).

Definition srtcp_unprotect (srtcp : list Z) (c : SrtcpContext)
  : option (result (list Z) SrtpError) :=
  let tag_len := auth_tag_len (c_suite c) in
  if zlen srtcp <? 8 + 4 + Z.of_nat tag_len then Some (Err PacketTooShort) else
  let packet_with_index := take (length srtcp - tag_len) srtcp in
  let received_tag := drop (length srtcp - tag_len) srtcp in
  let* expected_tag := prefix_of tag_len (srtcp_auth_tag c packet_with_index) in
  if negb (constant_time_compare expected_tag received_tag) then Some (Err AuthenticationFailed) else
  let index_offset := (length packet_with_index - 4)%nat in
  let* srtcp_index := u32_at packet_with_index index_offset in
  let is_encrypted := negb (Z.land srtcp_index 2147483648 =? 0) in
  let packet := take index_offset packet_with_index in
  if negb is_encrypted then Some (Ok packet) else
  let* ssrc := u32_at packet 4 in
  let* iv := build_srtcp_iv (srtcp_salt (c_keys c)) ssrc srtcp_index in
  Some (Ok (take 8 packet ++ apply_keystream (srtcp_enc_key (c_keys c)) iv (drop 8 packet))).

End Crypto.

(** ** Lemmas *)

Lemma fold_lor_zero l acc : fold_left Z.lor l acc = 0 <-> acc = 0 /\ Forall (fun x => x = 0) l.
Proof.
  revert acc. induction l as [|x l IH]; intros acc; simpl.
  - split; [by intros ->|by intros [-> _]].
  - rewrite IH, Z.lor_eq_0_iff, Forall_cons. tauto.
Qed.

Lemma constant_time_compare_eq a b : constant_time_compare a b = true <-> a = b.
Proof.
  unfold constant_time_compare. destruct (Nat.eqb_spec (length a) (length b)) as [E|E]; simpl.
  2:{ split; [done|]. by intros ->. }
  rewrite Z.eqb_eq, fold_lor_zero. split.
  - intros [_ H]. revert b E H. induction a as [|x a IH]; intros [|y b] E H; try done.
    simpl in *. inversion H as [|? ? Hx Ha]; subst. apply Z.lxor_eq in Hx. subst.
    f_equal. apply IH; [lia|done].
  - intros ->. split; [done|]. clear E. induction b as [|y b IH]; simpl; constructor; [|done].
    apply Z.lxor_nilpotent.
Qed.

Lemma packet_index_add roc seq : 0 <= seq < 65536 -> packet_index roc seq = roc * 65536 + seq.
Proof. intros H. by apply lor_shiftl_add. Qed.

(** The cycle and the sequence number of an ideal index. *)
Lemma index_split j : j = (j / 65536) * 65536 + j mod 65536 /\ 0 <= j mod 65536 < 65536.
Proof. split; [rewrite Z.mul_comm; by apply Z_div_mod_eq_full|by apply Z.mod_pos_bound]. Qed.

Lemma index_inv j q r : j = q * 65536 + r -> 0 <= r < 65536 -> j / 65536 = q /\ j mod 65536 = r.
Proof.
  intros -> H. rewrite (Z.mul_comm q). by apply div_mod_join.
Qed.

Lemma estimate_roc_window h j :
  0 <= h < 2 ^ 48 -> 0 <= j < 2 ^ 48 -> -32768 < j - h < 32768 ->
  estimate_roc (h / 65536) (h mod 65536) (j mod 65536) = j / 65536.
Proof.
  intros Hh Hj Hd. destruct (index_split h) as [Eh Rh]. destruct (index_split j) as [Ej Rj].
  assert (0 <= j / 65536 < 2 ^ 32) as Bj.
  { split; [apply Z.div_pos; lia|]. apply Z.div_lt_upper_bound; lia. }
  unfold estimate_roc. destruct (Z.ltb_spec (h mod 65536) 32768).
  - destruct (Z.ltb_spec (h mod 65536) (j mod 65536)),
      (Z.ltb_spec 32768 (j mod 65536 - h mod 65536)); simpl; try lia.
    rewrite wrap_small; unfold in_width; lia.
  - destruct (Z.ltb_spec (j mod 65536) (h mod 65536)),
      (Z.ltb_spec 32768 (h mod 65536 - j mod 65536)); simpl; try lia.
    rewrite wrap_small; unfold in_width; lia.
Qed.

(** *** Headers *)

Lemma take_lookup_eq (l l' : list Z) n i :
  take n l' = take n l -> (i < n)%nat -> l' !! i = l !! i.
Proof. intros E H. rewrite <- (lookup_take_lt l' n i), <- (lookup_take_lt l n i), E by done. done. Qed.

Lemma u16_at_take l l' n i :
  take n l' = take n l -> (S i < n)%nat -> u16_at l' i = u16_at l i.
Proof.
  intros E H. unfold u16_at. by rewrite (take_lookup_eq l l' n i), (take_lookup_eq l l' n (S i)) by (done || lia).
Qed.

Lemma u32_at_take l l' n i :
  take n l' = take n l -> (i + 3 < n)%nat -> u32_at l' i = u32_at l i.
Proof.
  intros E H. unfold u32_at. rewrite (u16_at_take l l' n i), (u16_at_take l l' n (i + 2)) by (done || lia).
  done.
Qed.

Lemma header_len_bounds rtp hl :
  Forall is_u8 rtp -> get_rtp_header_len rtp = Some (Ok hl) -> 12 <= hl <= zlen rtp.
Proof.
  unfold get_rtp_header_len. intros F. destruct (Z.ltb_spec (zlen rtp) 12); [done|].
  destruct (rtp !! 0%nat) as [b0|]; [|done]. cbn [mbind option_bind].
  pose proof (Z.land_nonneg b0 15) as Hcc.
  destruct (negb _) eqn:Hx.
  - destruct (Z.ltb_spec (zlen rtp) (12 + Z.land b0 15 * 4 + 4)); [done|].
    unfold u16_at. destruct (rtp !! Z.to_nat (12 + Z.land b0 15 * 4 + 2)) as [a|] eqn:Ea; [|done].
    cbn [mbind option_bind].
    destruct (rtp !! S (Z.to_nat (12 + Z.land b0 15 * 4 + 2))) as [b|] eqn:Eb; [|done].
    cbn [mbind option_bind].
    destruct (Z.ltb_spec (zlen rtp) (12 + Z.land b0 15 * 4 + (4 + (256 * a + b) * 4))); [done|].
    intros [= <-]. rewrite Forall_lookup in F. apply F in Ea, Eb. unfold in_width in *.
    assert (0 <= Z.land b0 15) by (apply Hcc; right; lia). lia.
  - cbn [mbind option_bind]. destruct (Z.ltb_spec (zlen rtp) (12 + Z.land b0 15 * 4)); [done|].
    intros [= <-]. assert (0 <= Z.land b0 15) by (apply Hcc; right; lia). lia.
Qed.

(** The header length is read from the header alone. *)
Lemma header_len_stable rtp rtp' hl :
  Forall is_u8 rtp -> get_rtp_header_len rtp = Some (Ok hl) ->
  length rtp' = length rtp -> take (Z.to_nat hl) rtp' = take (Z.to_nat hl) rtp ->
  get_rtp_header_len rtp' = Some (Ok hl).
Proof.
  intros F H El Et. destruct (header_len_bounds _ _ F H) as [Hlo Hhi].
  assert (zlen rtp' = zlen rtp) as Ez by (unfold zlen; by rewrite El).
  unfold get_rtp_header_len in *. rewrite Ez.
  rewrite (take_lookup_eq rtp rtp' (Z.to_nat hl) 0) by (done || lia).
  destruct (Z.ltb_spec (zlen rtp) 12); [done|].
  destruct (rtp !! 0%nat) as [b0|]; [|done]. cbn [mbind option_bind] in *.
  assert (0 <= Z.land b0 15) as Hcc by (apply Z.land_nonneg; right; lia).
  destruct (negb _); [|done].
  destruct (Z.ltb_spec (zlen rtp) (12 + Z.land b0 15 * 4 + 4)); [done|].
  destruct (u16_at rtp (Z.to_nat (12 + Z.land b0 15 * 4 + 2))) as [x|] eqn:Ex; [|done].
  cbn [mbind option_bind] in H.
  destruct (Z.ltb_spec (zlen rtp) (12 + Z.land b0 15 * 4 + (4 + x * 4))); [done|].
  injection H as <-.
  assert (0 <= x).
  { unfold u16_at in Ex. destruct (rtp !! Z.to_nat _) as [a|] eqn:Ea; [|done].
    cbn [mbind option_bind] in Ex. destruct (rtp !! S _) as [b|] eqn:Eb; [|done].
    injection Ex as <-. rewrite Forall_lookup in F. apply F in Ea, Eb. unfold in_width in *. lia. }
  rewrite (u16_at_take rtp rtp' (Z.to_nat (12 + Z.land b0 15 * 4 + (4 + x * 4)))) by (done || lia).
  rewrite Ex. cbn [mbind option_bind].
  destruct (Z.ltb_spec (zlen rtp) (12 + Z.land b0 15 * 4 + (4 + x * 4))); [lia|done].
Qed.

Lemma u16_at_some l i : (S i < length l)%nat -> exists z, u16_at l i = Some z.
Proof.
  intros H. unfold u16_at. destruct (lookup_lt_is_Some_2 l i) as [a ->]; [lia|].
  destruct (lookup_lt_is_Some_2 l (S i)) as [b ->]; [lia|]. by eexists.
Qed.

Lemma u32_at_some l i : (i + 3 < length l)%nat -> exists z, u32_at l i = Some z.
Proof.
  intros H. unfold u32_at. destruct (u16_at_some l i) as [a ->]; [lia|].
  destruct (u16_at_some l (i + 2)) as [b ->]; [lia|]. by eexists.
Qed.

Lemma xor_bytes_twice a k : (length a <= length k)%nat -> xor_bytes (xor_bytes a k) k = a.
Proof.
  revert k. induction a as [|x a IH]; intros [|y k] H; simpl in *; try done; try lia.
  unfold xor_bytes in *. simpl. f_equal.
  - by rewrite Z.lxor_assoc, Z.lxor_nilpotent, Z.lxor_0_r.
  - apply IH. lia.
Qed.

Lemma length_xor_bytes a k : (length a <= length k)%nat -> length (xor_bytes a k) = length a.
Proof. intros H. unfold xor_bytes. rewrite length_zip_with. lia. Qed.

Lemma build_iv_some salt ssrc index :
  (length salt <= 16)%nat -> exists iv, build_iv salt ssrc index = Some iv.
Proof. intros H. unfold build_iv, copy_into_16. rewrite decide_True by done. by eexists. Qed.

(** *** SRTCP *)

Lemma u16_at_app a x y b : u16_at (a ++ x :: y :: b) (length a) = Some (256 * x + y).
Proof.
  unfold u16_at. rewrite (lookup_app_r a _ (length a)), (lookup_app_r a _ (S (length a))) by lia.
  replace (length a - length a)%nat with 0%nat by lia.
  by replace (S (length a) - length a)%nat with 1%nat by lia.
Qed.

Lemma u32_at_app a z b : u32_at (a ++ put_u32 z ++ b) (length a) = Some z.
Proof.
  unfold u32_at, put_u32, put_u16. cbn [app]. rewrite u16_at_app. cbn [mbind option_bind].
  replace (length a + 2)%nat with (length (a ++ [z / 65536 / 256; (z / 65536) mod 256]))
    by (rewrite length_app; simpl; lia).
  change (?l ++ ?p :: ?q :: ?r :: ?s :: b) with (l ++ [p; q] ++ r :: s :: b).
  rewrite app_assoc, u16_at_app. cbn [mbind option_bind]. f_equal.
  rewrite <- !Z_div_mod_eq_full. done.
Qed.

Lemma set_top_bit i :
  0 <= i < 2 ^ 31 -> Z.lor 2147483648 i = 2147483648 + i /\
  Z.land (Z.lor 2147483648 i) 2147483648 <> 0.
Proof.
  intros H. split.
  - rewrite <- Z.add_nocarry_lor; [done|]. change 2147483648 with (Z.shiftl 1 31).
    apply Z.bits_inj'. intros n Hn. rewrite Z.land_spec, Z.bits_0.
    destruct (Z.lt_ge_cases n 31); [by rewrite Z.shiftl_spec_low|].
    destruct (Z.eq_dec i 0) as [->|]; [by rewrite Z.bits_0, andb_false_r|].
    rewrite (Z.bits_above_log2 i n); [by rewrite andb_false_r|lia|].
    apply Z.log2_lt_pow2; [lia|]. apply Z.lt_le_trans with (2 ^ 31); [lia|].
    by apply Z.pow_le_mono_r.
  - intros E. assert (Z.testbit (Z.land (Z.lor 2147483648 i) 2147483648) 31 = false) as Hb
      by (by rewrite E, Z.bits_0).
    by rewrite Z.land_spec, Z.lor_spec in Hb.
Qed.

Lemma build_srtcp_iv_some salt ssrc index :
  (length salt <= 16)%nat -> exists iv, build_srtcp_iv salt ssrc index = Some iv.
Proof. intros H. unfold build_srtcp_iv, copy_into_16. rewrite decide_True by done. by eexists. Qed.

Lemma land_31 z : Z.land z 2147483647 = z mod 2 ^ 31.
Proof. change 2147483647 with (Z.ones 31). by apply Z.land_ones. Qed.

(** ** A stream of packets *)

Section Stream.

Variable keystream : list Z -> list Z -> nat -> list Z.
Variable hmac : list Z -> list Z -> list Z.
Hypothesis keystream_length : forall k iv n, length (keystream k iv n) = n.
Hypothesis hmac_length : forall k m, length (hmac k m) = 20%nat.

Lemma apply_keystream_twice k iv p :
  apply_keystream keystream k iv (apply_keystream keystream k iv p) = p.
Proof.
  unfold apply_keystream. rewrite length_xor_bytes by (by rewrite keystream_length).
  apply xor_bytes_twice. by rewrite keystream_length.
Qed.

Lemma length_apply_keystream k iv p : length (apply_keystream keystream k iv p) = length p.
Proof. unfold apply_keystream. apply length_xor_bytes. by rewrite keystream_length. Qed.

Lemma tag_some s k m :
  exists tag, prefix_of (auth_tag_len s) (hmac k m) = Some tag /\ length tag = auth_tag_len s.
Proof.
  unfold prefix_of. rewrite hmac_length, decide_True by (destruct s; simpl; lia).
  eexists. split; [done|]. rewrite length_take, hmac_length. destruct s; simpl; lia.
Qed.

(** The sender is at ideal index [i]: the last packet it protected. *)
Definition sender_at (c : SrtpContext) (i : Z) : Prop :=
  0 <= i < 2 ^ 48 /\ sender_roc c = i / 65536 /\ highest_seq c = i mod 65536.

(** The next index: within the first cycle, or less than half the number space ahead. *)
Definition next_index (i j : Z) : Prop := i <= j < 2 ^ 48 /\ (j < 65536 \/ j - i < 32768).

(** The receiver: fresh, or with highest index [h]. *)
Definition receiver_at (c : SrtpContext) (o : option Z) : Prop :=
  match o with
  | None => first_packet c = true /\ receiver_roc c = 0
  | Some h => first_packet c = false /\ 0 <= h < 2 ^ 48 /\ receiver_roc c = h / 65536 /\
              highest_seq c = h mod 65536
  end.

Definition in_window (o : option Z) (j : Z) : Prop :=
  0 <= j < 2 ^ 48 /\ match o with None => j < 65536 | Some h => -32768 < j - h < 32768 end.

Definition highest (o : option Z) (j : Z) : Z := match o with None => j | Some h => Z.max h j end.

(** A packet with ideal index [j] and a complete header. *)
Definition rtp_ok (j : Z) (rtp : list Z) : Prop :=
  Forall is_u8 rtp /\ u16_at rtp 2 = Some (j mod 65536) /\
  exists hl, get_rtp_header_len rtp = Some (Ok hl).

Definition same_keys (c c' : SrtpContext) : Prop := suite c = suite c' /\ keys c = keys c'.

(** What it takes to read the packet [rtp] with index [j] from [out]. *)
Definition readable (c : SrtpContext) (j : Z) (rtp out : list Z) : Prop :=
  forall r o, same_keys c r -> receiver_at r o -> in_window o j ->
  exists r', unprotect keystream hmac out r = Some (Ok rtp, r') /\ same_keys c r' /\
    receiver_at r' (Some (highest o j)).

Lemma sender_step c i j :
  sender_at c i -> next_index i j ->
  (if (j mod 65536 <? 32768) && (32768 <? highest_seq c)
   then wrap 32 (sender_roc c + 1) else sender_roc c) = j / 65536.
Proof.
  intros (Hi & -> & ->) [Hj Hn]. destruct (index_split i) as [Ei Ri].
  destruct (index_split j) as [Ej Rj].
  assert (0 <= i / 65536) by (apply Z.div_pos; lia).
  assert (0 <= j / 65536 < 2 ^ 32) by (split; [apply Z.div_pos|apply Z.div_lt_upper_bound]; lia).
  destruct (Z.ltb_spec (j mod 65536) 32768), (Z.ltb_spec 32768 (i mod 65536)); simpl; try lia.
  rewrite wrap_small; unfold in_width; lia.
Qed.

Lemma receiver_roc_ok r o j :
  receiver_at r o -> in_window o j ->
  let '(roc, r') := if first_packet r
     then (0, r <| first_packet := false |> <| highest_seq := j mod 65536 |>)
     else (estimate_roc (receiver_roc r) (highest_seq r) (j mod 65536), r) in
  roc = j / 65536 /\ receiver_at r' (Some (default j o)) /\ same_keys r r'.
Proof.
  intros Hr [Hj Hw]. destruct o as [h|]; simpl in *.
  - destruct Hr as (Hf & Hh & E1 & E2). rewrite Hf. split; [|split; [exact (conj Hf (conj Hh (conj E1 E2)))|by split]].
    rewrite E1, E2. by apply estimate_roc_window.
  - destruct Hr as (Hf & E). rewrite Hf. rewrite (Z.div_small j) by lia.
    split; [done|]. split; [|by split].
    simpl. auto.
Qed.

Lemma receiver_advance r o j :
  receiver_at r (Some (default j o)) -> in_window o j ->
  receiver_at (if packet_index (receiver_roc r) (highest_seq r) <? packet_index (j / 65536) (j mod 65536)
               then r <| receiver_roc := j / 65536 |> <| highest_seq := j mod 65536 |> else r)
    (Some (highest o j)).
Proof.
  intros (Hf & Hh & E1 & E2) [Hj Hw]. destruct (index_split j) as [Ej Rj].
  destruct (index_split (default j o)) as [Eh Rh].
  rewrite E1, E2, !packet_index_add by done. rewrite <- Ej, <- Eh.
  assert (highest o j = Z.max (default j o) j) as -> by (destruct o; simpl; lia).
  destruct (Z.ltb_spec (default j o) j).
  - rewrite Z.max_r by lia. simpl. auto.
  - rewrite Z.max_l by lia. simpl. auto.
Qed.

(** The encrypted packet keeps the header and the length. *)
Definition encrypted (k iv rtp : list Z) (hl : Z) : list Z :=
  take (Z.to_nat hl) rtp ++ apply_keystream keystream k iv (drop (Z.to_nat hl) rtp).

Lemma encrypted_facts k iv rtp hl :
  0 <= hl <= zlen rtp ->
  let e := encrypted k iv rtp hl in
  length e = length rtp /\ take (Z.to_nat hl) e = take (Z.to_nat hl) rtp /\
  take (Z.to_nat hl) e ++ apply_keystream keystream k iv (drop (Z.to_nat hl) e) = rtp.
Proof.
  intros H e. subst e. unfold encrypted, zlen in *.
  assert (length (take (Z.to_nat hl) rtp) = Z.to_nat hl) as El by (rewrite length_take; lia).
  assert (take (Z.to_nat hl) (take (Z.to_nat hl) rtp ++
    apply_keystream keystream k iv (drop (Z.to_nat hl) rtp)) = take (Z.to_nat hl) rtp) as Et
    by (rewrite <- El at 1; apply take_app_length).
  split_and!; [|done|].
  - rewrite length_app, length_apply_keystream, El, length_drop. lia.
  - rewrite Et. rewrite <- El at 2. rewrite drop_app_length, apply_keystream_twice.
    apply take_drop.
Qed.

(** The receiver reads an authentic packet of the window. *)
Lemma encrypted_readable c j rtp hl ssrc iv tag :
  rtp_ok j rtp -> get_rtp_header_len rtp = Some (Ok hl) -> u32_at rtp 8 = Some ssrc ->
  build_iv (srtp_salt (keys c)) ssrc (packet_index (j / 65536) (j mod 65536)) = Some iv ->
  let e := encrypted (srtp_enc_key (keys c)) iv rtp hl in
  prefix_of (auth_tag_len (suite c)) (hmac (srtp_auth_key (keys c)) (e ++ put_u32 (j / 65536))) =
    Some tag -> length tag = auth_tag_len (suite c) ->
  readable c j rtp (e ++ tag).
Proof.
  intros (F & Hs & _) Hhl Hss Hiv e Htag Hlt r o [Ks Kk] Hr Hw.
  destruct (header_len_bounds _ _ F Hhl) as [Hlo Hhi].
  destruct (encrypted_facts (srtp_enc_key (keys c)) iv rtp hl ltac:(lia)) as (El & Et & Ed).
  fold e in El, Et, Ed.
  assert (length (e ++ tag) = (length e + auth_tag_len (suite r))%nat) as Elen
    by (rewrite length_app, Hlt, Ks; done).
  unfold unprotect. destruct (Z.ltb_spec (zlen (e ++ tag)) (12 + Z.of_nat (auth_tag_len (suite r))))
    as [Hlen|_]; [unfold zlen in *; lia|].
  assert (length (e ++ tag) - auth_tag_len (suite r) = length e)%nat as -> by lia.
  rewrite take_app_length, drop_app_length.
  rewrite (u16_at_take rtp e (Z.to_nat hl)), Hs by (done || lia). cbn [mbind option_bind].
  pose proof (receiver_roc_ok r o j Hr Hw) as Hroc.
  destruct (if first_packet r then _ else _) as [roc r1]. destruct Hroc as (-> & Hr1 & [Ks1 Kk1]).
  unfold compute_auth_tag. rewrite <- Kk1, <- Kk, <- Ks, Htag. cbn [mbind option_bind].
  rewrite (proj2 (constant_time_compare_eq tag tag) eq_refl). cbn [negb].
  pose proof (receiver_advance r1 o j Hr1 Hw) as Hr2.
  destruct (packet_index (receiver_roc r1) (highest_seq r1) <? packet_index (j / 65536) (j mod 65536));
    cbn [keys]; rewrite (u32_at_take rtp e (Z.to_nat hl)), Hss by (done || lia);
    cbn [mbind option_bind set keys]; rewrite <- Kk1, <- Kk, Hiv; cbn [mbind option_bind];
    rewrite (header_len_stable rtp e hl F Hhl El Et); cbn [mbind option_bind]; rewrite Ed;
    (eexists; split; [done|]; split; [split; simpl; congruence|exact Hr2]).
Qed.

Lemma protect_readable c i j rtp :
  sender_at c i -> next_index i j -> rtp_ok j rtp -> (length (srtp_salt (keys c)) <= 16)%nat ->
  exists out c', protect keystream hmac rtp c = Some (Ok out, c') /\ sender_at c' j /\
    same_keys c c' /\ readable c j rtp out.
Proof.
  intros Hc Hn Hok Hsalt. pose proof Hok as (F & Hs & hl & Hhl).
  destruct (header_len_bounds _ _ F Hhl) as [Hlo Hhi].
  unfold protect. destruct (Z.ltb_spec (zlen rtp) 12); [lia|]. rewrite Hs. cbn [mbind option_bind].
  pose proof (sender_step c i j Hc Hn) as Hroc.
  assert ((if (j mod 65536 <? 32768) && (32768 <? highest_seq c)
           then c <| sender_roc := wrap 32 (sender_roc c + 1) |> else c)
          = c <| sender_roc := j / 65536 |>) as ->.
  { destruct (_ && _); [by rewrite <- Hroc|]. rewrite <- Hroc. by destruct c. }
  destruct (u32_at_some rtp 8) as [ssrc Hss]; [unfold zlen in *; lia|].
  rewrite Hss. cbn [mbind option_bind set keys sender_roc suite].
  destruct (build_iv_some (srtp_salt (keys c)) ssrc (packet_index (j / 65536) (j mod 65536)) Hsalt)
    as [iv Hiv]. rewrite Hiv. cbn [mbind option_bind]. rewrite Hhl. cbn [mbind option_bind].
  fold (encrypted (srtp_enc_key (keys c)) iv rtp hl).
  destruct (tag_some (suite c) (srtp_auth_key (keys c))
    (encrypted (srtp_enc_key (keys c)) iv rtp hl ++ put_u32 (j / 65536))) as (tag & Htag & Hlt).
  unfold compute_auth_tag. cbn [keys]. rewrite Htag. cbn [mbind option_bind].
  eexists _, _. split; [done|]. split; [|split; [by split|]].
  - destruct Hn as [Hj _]. destruct Hc as [Hi _]. split; [lia|]. by split.
  - by eapply encrypted_readable.
Qed.

(** Runs of a sender and of a receiver; an error ends the run. *)
Fixpoint protect_all (ps : list (list Z)) (c : SrtpContext) : option (list (list Z) * SrtpContext) :=
  match ps with
  | [] => Some ([], c)
  | p :: ps =>
      let* (r, c) := protect keystream hmac p c in
      let* out := rok r in
      let* (outs, c) := protect_all ps c in
      Some (out :: outs, c)
  end.

Fixpoint unprotect_all (ps : list (list Z)) (c : SrtpContext)
  : option (list (list Z) * SrtpContext) :=
  match ps with
  | [] => Some ([], c)
  | p :: ps =>
      let* (r, c) := unprotect keystream hmac p c in
      let* out := rok r in
      let* (outs, c) := unprotect_all ps c in
      Some (out :: outs, c)
  end.

(** The indices a sender may use one after the other, and those a receiver may see: lost,
    repeated and reordered packets are allowed, within half the number space of the
    highest index so far. *)
Fixpoint increasing_from (i : Z) (js : list Z) : Prop :=
  match js with
  | [] => True
  | j :: js => next_index i j /\ increasing_from j js
  end.

Fixpoint within_window (o : option Z) (js : list Z) : Prop :=
  match js with
  | [] => True
  | j :: js => in_window o j /\ within_window (Some (highest o j)) js
  end.

Lemma protect_all_readable c0 c i ps :
  same_keys c0 c -> (length (srtp_salt (keys c)) <= 16)%nat -> sender_at c i ->
  increasing_from i (map fst ps) -> Forall (fun p => rtp_ok p.1 p.2) ps ->
  exists outs c', protect_all (map snd ps) c = Some (outs, c') /\
    Forall2 (fun p out => readable c0 p.1 p.2 out) ps outs.
Proof.
  intros K Hsalt. revert c i K Hsalt. induction ps as [|[j rtp] ps IH]; intros c i K Hsalt Hc Hi F.
  - exists [], c. by split.
  - destruct Hi as [Hn Hi]. inversion F as [|? ? F1 F2]; subst. simpl in *.
    destruct (protect_readable c i j rtp Hc Hn F1 Hsalt) as (out & c1 & -> & Hc1 & [K1 K2] & Hr).
    cbn [mbind option_bind rok].
    destruct K as [K3 K4].
    destruct (IH c1 j) as (outs & c2 & E & H2); try done.
    { split; congruence. } { by rewrite <- K2. }
    rewrite E. cbn [mbind option_bind]. eexists _, _. split; [done|]. constructor; [|done].
    intros r o [Q1 Q2] Hro Hw. destruct (Hr r o) as (r' & E' & [S1 S2] & A').
    { split; congruence. } { done. } { done. }
    exists r'. split; [exact E'|]. split; [split; congruence|done].
Qed.

Lemma unprotect_all_reads c0 r o ds outs :
  same_keys c0 r -> receiver_at r o -> within_window o (map fst ds) ->
  Forall2 (fun p out => readable c0 p.1 p.2 out) ds outs ->
  exists r', unprotect_all outs r = Some (map snd ds, r').
Proof.
  intros K Hr Hw F. revert r o K Hr Hw. induction F as [|[j rtp] out ds outs H F IH];
    intros r o K Hr Hw; [by eexists|].
  destruct Hw as [Hj Hw]. simpl in H. destruct (H r o K Hr Hj) as (r1 & E & K1 & Hr1).
  simpl. rewrite E. cbn [mbind option_bind rok].
  destruct (IH r1 _ K1 Hr1 Hw) as (r2 & ->). by eexists.
Qed.

Lemma Forall2_pick {A B} (R : A -> B -> Prop) l k (ds : list nat) :
  Forall2 R l k -> Forall (fun n => n < length l)%nat ds ->
  Forall2 R (omap (fun n => l !! n) ds) (omap (fun n => k !! n) ds).
Proof.
  intros H F. induction F as [|n ds Hn F IH]; simpl; [constructor|].
  destruct (lookup_lt_is_Some_2 l n Hn) as [a Ea].
  destruct (Forall2_lookup_l _ _ _ _ _ H Ea) as (b & Eb & Hab).
  rewrite Ea, Eb. by constructor.
Qed.

Lemma derive_key_length mk ms l n k :
  derive_key keystream mk ms l n = Some k -> length k = n.
Proof.
  unfold derive_key. destruct (copy_into_16 ms); [|done]. cbn [mbind option_bind].
  intros H. apply (inj Some) in H. subst k.
  rewrite length_take, length_xor_bytes, length_replicate.
  - pose proof (Nat.div_mod_eq (n + 15) 16). pose proof (Nat.mod_upper_bound (n + 15) 16 ltac:(done)). lia.
  - by rewrite length_replicate, keystream_length.
Qed.

Lemma srtp_new_fields s mk ms c :
  srtp_new keystream s mk ms = Some (Ok c) ->
  sender_at c 0 /\ receiver_at c None /\ suite c = s /\ length (srtp_salt (keys c)) = 14%nat.
Proof.
  unfold srtp_new, derive. destruct (negb (length mk =? _)%nat); [done|].
  destruct (negb (length ms =? _)%nat); [done|].
  destruct (derive_key _ _ _ SrtpEncryption _) as [k1|]; [|done]. cbn [mbind option_bind].
  destruct (derive_key _ _ _ SrtpAuthentication _) as [k2|]; [|done]. cbn [mbind option_bind].
  destruct (derive_key _ _ _ SrtpSalt _) as [k3|] eqn:E3; [|done]. cbn [mbind option_bind].
  destruct (derive_key _ _ _ SrtcpEncryption _) as [k4|]; [|done]. cbn [mbind option_bind].
  destruct (derive_key _ _ _ SrtcpAuthentication _) as [k5|]; [|done]. cbn [mbind option_bind].
  destruct (derive_key _ _ _ SrtcpSalt _) as [k6|]; [|done]. cbn [mbind option_bind rbind].
  intros [= <-]. apply derive_key_length in E3. by split_and!.
Qed.

(** ** Theorems *)

(** C19: what is sent is what is received.  A sender and a receiver made from the same
    master key protect and unprotect a stream of RTP packets with any number of sequence
    number wrap-arounds (up to the 2^48 packets of the key); the channel may lose, repeat
    and reorder packets as long as each is within half the sequence number space of the
    highest one delivered before: every packet that arrives comes out as it went in, its
    header readable on the way and its index estimated as the sender counted it.  Of the
    cipher and the authentication code only their output lengths are assumed. *)
Theorem srtp_stream_delivered s mk ms c ps ds :
  srtp_new keystream s mk ms = Some (Ok c) ->
  increasing_from 0 (map fst ps) -> Forall (fun p => rtp_ok p.1 p.2) ps ->
  Forall (fun n => n < length ps)%nat ds ->
  within_window None (map fst (omap (fun n => ps !! n) ds)) ->
  exists outs c' r', protect_all (map snd ps) c = Some (outs, c') /\
    unprotect_all (omap (fun n => outs !! n) ds) c =
      Some (map snd (omap (fun n => ps !! n) ds), r').
Proof.
  intros Hc Hi F Hd Hw. destruct (srtp_new_fields _ _ _ _ Hc) as (Hs & Hr & _ & Hl).
  destruct (protect_all_readable c c 0 ps) as (outs & c' & E & H2); try done; [lia|].
  destruct (unprotect_all_reads c c None _ _ ltac:(by split) Hr Hw (Forall2_pick _ _ _ _ H2 Hd))
    as [r' Er]. by exists outs, c', r'.
Qed.

(** The text an SRTCP packet is made of: header, encrypted body, index. *)
Lemma srtcp_read c r rtcp idx ssrc iv tag :
  c_suite r = c_suite c -> c_keys r = c_keys c -> 8 <= zlen rtcp -> 0 <= idx < 2 ^ 31 ->
  u32_at rtcp 4 = Some ssrc ->
  build_srtcp_iv (srtcp_salt (c_keys c)) ssrc (Z.lor 2147483648 idx) = Some iv ->
  let e := encrypted (srtcp_enc_key (c_keys c)) iv rtcp 8 in
  let w := e ++ put_u32 (Z.lor 2147483648 idx) in
  prefix_of (auth_tag_len (c_suite c)) (hmac (srtcp_auth_key (c_keys c)) w) = Some tag ->
  length tag = auth_tag_len (c_suite c) ->
  srtcp_unprotect keystream hmac (w ++ tag) r = Some (Ok rtcp).
Proof.
  intros Es Ek Hl Hi Hss Hiv e w Htag Hlt.
  destruct (encrypted_facts (srtcp_enc_key (c_keys c)) iv rtcp 8 ltac:(lia)) as (El & Et & Ed).
  fold e in El, Et, Ed. change (Z.to_nat 8) with 8%nat in *.
  assert (length w = length e + 4)%nat as Hw by (unfold w; rewrite length_app; done).
  unfold srtcp_unprotect. rewrite Es.
  destruct (Z.ltb_spec (zlen (w ++ tag)) (8 + 4 + Z.of_nat (auth_tag_len (c_suite c)))) as [Hx|_];
    [rewrite zlen_app in Hx; unfold zlen in *; lia|].
  assert (length (w ++ tag) - auth_tag_len (c_suite c) = length w)%nat as ->
    by (rewrite length_app; lia).
  rewrite take_app_length, drop_app_length. unfold srtcp_auth_tag. rewrite Ek, Htag.
  cbn [mbind option_bind]. rewrite (proj2 (constant_time_compare_eq tag tag) eq_refl). cbn [negb].
  assert (length w - 4 = length e)%nat as -> by lia.
  assert (u32_at w (length e) = Some (Z.lor 2147483648 idx)) as ->.
  { unfold w. pose proof (u32_at_app e (Z.lor 2147483648 idx) []) as E.
    by rewrite app_nil_r in E. }
  cbn [mbind option_bind]. destruct (set_top_bit idx Hi) as [_ Hb].
  apply Z.eqb_neq in Hb. rewrite Hb. cbn [negb].
  assert (take (length e) w = e) as -> by apply take_app_length.
  rewrite (u32_at_take rtcp e 8), Hss by (done || lia). cbn [mbind option_bind].
  rewrite Hiv. cbn [mbind option_bind]. by rewrite Ed.
Qed.

(** RTCP packets round trip through SRTCP, from any state of the sender: the receiver
    needs no state, and the index that separates the key streams of two packets is counted
    up modulo 2^31 with every packet. *)
Theorem srtcp_roundtrip c rtcp :
  8 <= zlen rtcp -> 0 <= c_index c < 2 ^ 31 -> (length (srtcp_salt (c_keys c)) <= 16)%nat ->
  exists out c', srtcp_protect keystream hmac rtcp c = Some (Ok out, c') /\
    c_index c' = (c_index c + 1) mod 2 ^ 31 /\ c_keys c' = c_keys c /\
    forall r, c_suite r = c_suite c -> c_keys r = c_keys c ->
      srtcp_unprotect keystream hmac out r = Some (Ok rtcp).
Proof.
  intros Hl Hi Hs. unfold srtcp_protect. destruct (Z.ltb_spec (zlen rtcp) 8); [lia|].
  destruct (u32_at_some rtcp 4) as [ssrc Hss]; [unfold zlen in *; lia|]. rewrite Hss.
  cbn [mbind option_bind set c_keys c_suite].
  destruct (build_srtcp_iv_some (srtcp_salt (c_keys c)) ssrc (Z.lor 2147483648 (c_index c)) Hs)
    as [iv Hiv]. rewrite Hiv. cbn [mbind option_bind]. unfold srtcp_auth_tag. cbn [c_keys].
  rewrite !app_assoc.
  change (take 8 rtcp ++ apply_keystream keystream (srtcp_enc_key (c_keys c)) iv (drop 8 rtcp))
    with (encrypted (srtcp_enc_key (c_keys c)) iv rtcp 8).
  destruct (tag_some (c_suite c) (srtcp_auth_key (c_keys c))
    (encrypted (srtcp_enc_key (c_keys c)) iv rtcp 8 ++ put_u32 (Z.lor 2147483648 (c_index c))))
    as (tag & Htag & Hlt). rewrite Htag. cbn [mbind option_bind].
  eexists _, _. split; [done|]. simpl. split; [|split; [done|]].
  - rewrite wrap_small by (unfold in_width; lia). apply land_31.
  - intros r Es Ek. by eapply srtcp_read.
Qed.

End Stream.

(** ** Witnesses and examples: a toy cipher and a toy authentication code *)

Definition toy_keystream (k iv : list Z) (n : nat) : list Z :=
  replicate n ((fold_left Z.add k 7 + fold_left Z.add iv 11) mod 256).

Definition toy_hmac (k m : list Z) : list Z :=
  replicate 20 (fold_left (fun a b => (31 * a + b) mod 251) (k ++ m) 1).

Lemma toy_keystream_length k iv n : length (toy_keystream k iv n) = n.
Proof. apply length_replicate. Qed.

Lemma toy_hmac_length k m : length (toy_hmac k m) = 20%nat.
Proof. apply length_replicate. Qed.

Definition toy_context : SrtpContext :=
  match srtp_new toy_keystream AesCm128HmacSha1_80 (replicate 16 1) (replicate 14 2) with
  | Some (Ok c) => c
  | _ => mkCtx AesCm128HmacSha1_80 (mkKeys [] [] [] [] [] []) 0 0 0 true
  end.

Lemma toy_context_new :
  srtp_new toy_keystream AesCm128HmacSha1_80 (replicate 16 1) (replicate 14 2) =
  Some (Ok toy_context).
Proof. vm_compute. reflexivity. Qed.

Definition toy_packet (j : Z) : Z * list Z :=
  (j, build (with_payload [1; 2; 3] (new 0 (j mod 65536) (160 * j) 99))).

(** Packets before and after a wrap-around of the sequence number. *)
Definition toy_stream : list (Z * list Z) := map toy_packet [65534; 65535; 65536; 65537].

Lemma toy_packet_ok j : 0 <= j < 1000000 -> rtp_ok j (toy_packet j).2.
Proof.
  intros H. destruct (index_split j) as [_ R]. unfold rtp_ok, toy_packet. cbn [snd].
  split_and!.
  - unfold build. cbn [sequence_number timestamp ssrc csrc extension_header payload with_payload
      new set map concat build_extension app].
    apply Forall_cons; split; [change (is_u8 128); unfold in_width; lia|].
    apply Forall_cons; split; [change (is_u8 0); unfold in_width; lia|].
    apply Forall_app. split; [apply put_u16_bytes; unfold in_width; lia|].
    apply Forall_app. split; [apply put_u32_bytes; unfold in_width; lia|].
    by repeat constructor.
  - unfold build. cbn [app sequence_number with_payload new set u16_at lookup list_lookup mbind option_bind].
    unfold u16_at. simpl. f_equal. symmetry. apply Z_div_mod_eq_full.
  - exists 12. reflexivity.
Qed.

Lemma srtp_stream_delivered_witness :
  exists outs c' r',
    protect_all toy_keystream toy_hmac (map snd toy_stream) toy_context = Some (outs, c') /\
    unprotect_all toy_keystream toy_hmac (omap (fun n => outs !! n) [0; 3; 2; 2]%nat) toy_context =
      Some (map (fun j => (toy_packet j).2) [65534; 65537; 65536; 65536], r').
Proof.
  apply (srtp_stream_delivered toy_keystream toy_hmac toy_keystream_length toy_hmac_length
    AesCm128HmacSha1_80 (replicate 16 1) (replicate 14 2) toy_context toy_stream [0; 3; 2; 2]%nat).
  - exact toy_context_new.
  - cbn [increasing_from map toy_stream toy_packet fst]. unfold next_index. lia.
  - repeat (constructor; [apply toy_packet_ok; lia|]). constructor.
  - repeat (constructor; [simpl; lia|]). constructor.
  - cbn [within_window map omap list_omap lookup list_lookup toy_stream toy_packet fst].
    unfold in_window. simpl. lia.
Defined.

Lemma srtcp_roundtrip_witness :
  exists out c', srtcp_protect toy_keystream toy_hmac [128; 201; 0; 1; 0; 0; 0; 9; 4; 5]
      (mkCtcp AesCm128HmacSha1_32 (keys toy_context) (2 ^ 31 - 1)) = Some (Ok out, c') /\
    c_index c' = 0 /\
    srtcp_unprotect toy_keystream toy_hmac out
      (mkCtcp AesCm128HmacSha1_32 (keys toy_context) 5) =
      Some (Ok [128; 201; 0; 1; 0; 0; 0; 9; 4; 5]).
Proof.
  destruct (srtcp_roundtrip toy_keystream toy_hmac toy_keystream_length toy_hmac_length
    (mkCtcp AesCm128HmacSha1_32 (keys toy_context) (2 ^ 31 - 1))
    [128; 201; 0; 1; 0; 0; 0; 9; 4; 5]) as (out & c' & E & Ei & _ & H).
  - vm_compute. discriminate.
  - split; [vm_compute; discriminate|reflexivity].
  - apply Nat.leb_le. vm_compute. reflexivity.
  - exists out, c'. split; [exact E|]. split; [exact Ei|]. apply H; reflexivity.
Defined.

(** There is no replay list: the same packet is accepted again and again. *)
Example replay_accepted :
  (let* (outs, _) := protect_all toy_keystream toy_hmac [(toy_packet 7).2] toy_context in
   let* (got, _) := unprotect_all toy_keystream toy_hmac (outs ++ outs ++ outs) toy_context in
   Some (length got)) = Some 3%nat.
Proof. vm_compute. reflexivity. Qed.

(** The first packet sets the receiver's sequence number before its tag is checked: after
    one forged packet the genuine stream is rejected. *)
Example forged_first_packet_blocks :
  (let* (outs, _) := protect_all toy_keystream toy_hmac [(toy_packet 7).2] toy_context in
   let* genuine := outs !! 0%nat in
   let forged := (toy_packet 65535).2 ++ replicate 10 0 in
   let* (r1, c) := unprotect toy_keystream toy_hmac forged toy_context in
   let* (r2, _) := unprotect toy_keystream toy_hmac genuine c in
   Some (r1, r2)) = Some (Err AuthenticationFailed, Err AuthenticationFailed).
Proof. vm_compute. reflexivity. Qed.
