(* ===== verification/Sdes.v ===== *)
(** * SDES key exchange ([srtp/sdes.rs])

    The [a=crypto] attribute: parsing and printing.  Base64 ([base64] crate), the
    floating-point logarithm of a lifetime and the Unicode table of [str::to_uppercase] are
    parameters; the error texts are the
    constructors of [SdesError]. *)

From S2P Require Import Prelude RStr RtpPacket Srtp.

Local Open Scope Z_scope.

Record SdesAttribute : Type := mkSdes {
  tag : Z;
  crypto_suite : CryptoSuite;
  master_key : list Z;
  master_salt : list Z;
  lifetime : option Z;
  mki : option (Z * Z)
}.

Inductive SdesError : Type :=
| InvalidFormat | InvalidTag | UnknownSuite | NotInline | InvalidBase64 | InvalidKeyLength
| InvalidLifetime | LifetimeTooLarge | InvalidMkiValue | InvalidMkiLength.

Section Sdes.

Variable b64_encode : list Z -> str.
Variable b64_decode : str -> option (list Z).
Variable to_uppercase : str -> str.
(** [(lifetime as f64).log2() as u32] *)
Variable log2_u32 : Z -> Z.

(** One optional parameter after the key. *)
Definition parse_option (acc : option Z * option (Z * Z)) (part : str)
  : result (option Z * option (Z * Z)) SdesError :=
  match strip_prefix #"2^" part with
  | Some exp_str =>
      let? exp := ok_or (parse_uint u32_max exp_str) InvalidLifetime in
      if 48 <? exp then Err LifetimeTooLarge else Ok (Some (Z.shiftl 1 exp), snd acc)
  | None =>
      if contains_char ":"%char part then
        match split ":"%char part with
        | [a; b] =>
            let? value := ok_or (parse_uint u32_max a) InvalidMkiValue in
            let? len := ok_or (parse_uint u8_max b) InvalidMkiLength in
            Ok (fst acc, Some (value, len))
        | _ => Ok acc
        end
      else Ok acc
  end.

Fixpoint parse_options (acc : option Z * option (Z * Z)) (parts : list str)
  : result (option Z * option (Z * Z)) SdesError :=
  match parts with
  | [] => Ok acc
  | p :: r => let? acc := parse_option acc p in parse_options acc r
  end.

Definition parse_key_params (s : str)
  : result (list Z * list Z * (option Z * option (Z * Z))) SdesError :=
  match split "|"%char s with
  | [] => Err InvalidBase64
  | first :: rest =>
      let? key_material := ok_or (b64_decode first) InvalidBase64 in
      if negb (Nat.eqb (length key_material) 30) then Err InvalidKeyLength else
      let? opts := parse_options (None, None) rest in
      Ok (take 16 key_material, drop 16 key_material, opts)
  end.

Definition sdes_parse (s : str) : result SdesAttribute SdesError :=
  match split_whitespace s with
  | p0 :: p1 :: key_params :: _ =>
      let? tag := ok_or (parse_uint u32_max p0) InvalidTag in
      let? suite := ok_or (suite_parse to_uppercase p1) UnknownSuite in
      match strip_prefix #"inline:" key_params with
      | None => Err NotInline
      | Some key_data =>
          let? (mk, ms, (life, mki)) := parse_key_params key_data in
          Ok (mkSdes tag suite mk ms life mki)
      end
  | _ => Err InvalidFormat
  end.

Definition to_sdp (a : SdesAttribute) : str :=
  let key_b64 := b64_encode (master_key a ++ master_salt a) in
  dec (tag a) ++ #" " ++ suite_as_str (crypto_suite a) ++ #" inline:" ++ key_b64 ++
  match lifetime a with Some l => #"|2^" ++ dec (log2_u32 l) | None => [] end ++
  match mki a with Some (v, l) => #"|" ++ dec v ++ #":" ++ dec l | None => [] end.

(** The key material is given by the caller's random bytes. *)
Definition new_with (tag : Z) (suite : CryptoSuite) (key salt : list Z) : SdesAttribute :=
  mkSdes tag suite key salt None None.

(** ** Lemmas *)

Hypothesis b64_roundtrip : forall l, Forall is_u8 l -> b64_decode (b64_encode l) = Some l.
(** The standard alphabet: letters, digits, [+], [/] and [=]. *)
Hypothesis b64_alphabet : forall l c, Forall is_u8 l -> In c (b64_encode l) ->
  tokc c = true /\ c <> "|"%char.
Hypothesis log2_power : forall e, 0 <= e <= 48 -> log2_u32 (2 ^ e) = e.

(** On ASCII text the Unicode table is the ASCII one. *)
Hypothesis to_uppercase_ascii : forall s, Forall (fun c => code c < 128) s -> to_uppercase s = to_ascii_uppercase s.

Lemma suite_parse_print c : suite_parse to_uppercase (suite_as_str c) = Some c.
Proof. unfold suite_parse. rewrite to_uppercase_ascii; [by destruct c|]. by destruct c; repeat constructor. Qed.

Record sdes_ok (a : SdesAttribute) : Prop := {
  ok_tag : is_u32 (tag a);
  ok_key : length (master_key a) = 16%nat;
  ok_salt : length (master_salt a) = 14%nat;
  ok_bytes : Forall is_u8 (master_key a ++ master_salt a);
  ok_lifetime : forall l, lifetime a = Some l -> exists e, 0 <= e <= 48 /\ l = 2 ^ e;
  ok_mki : forall v l, mki a = Some (v, l) -> is_u32 v /\ is_u8 l
}.

(** The optional parameters as the parser splits them. *)
Definition option_texts (a : SdesAttribute) : list str :=
  match lifetime a with Some l => [ #"2^" ++ dec (log2_u32 l)] | None => [] end ++
  match mki a with Some (v, l) => [dec v ++ #":" ++ dec l] | None => [] end.

Definition key_text (a : SdesAttribute) : str :=
  join #"|" (b64_encode (master_key a ++ master_salt a) :: option_texts a).

Lemma to_sdp_text a :
  to_sdp a = join #" " [dec (tag a); suite_as_str (crypto_suite a); #"inline:" ++ key_text a].
Proof.
  unfold to_sdp, key_text, option_texts. cbn [join].
  destruct (lifetime a), (mki a) as [[v l]|]; cbn [app join]; rewrite <- ?app_assoc, ?app_nil_r; done.
Qed.

Lemma digits_no c n : 0 <= n -> is_ascii_digit c = false -> ~ In c (dec n).
Proof.
  intros Hn Hc Hin. pose proof (dec_digits n Hn) as F. rewrite Forall_forall in F.
  apply list_elem_of_In, F in Hin. congruence.
Qed.

Lemma parse_lifetime acc e :
  0 <= e <= 48 -> parse_option acc (#"2^" ++ dec e) = Ok (Some (2 ^ e), snd acc).
Proof.
  intros He. unfold parse_option. rewrite strip_prefix_app, parse_dec by (unfold u32_max; lia).
  cbn [ok_or rbind]. destruct (Z.ltb_spec 48 e); [lia|]. by rewrite Z.shiftl_1_l.
Qed.

Lemma parse_mki acc v l :
  is_u32 v -> is_u8 l -> parse_option acc (dec v ++ #":" ++ dec l) = Ok (fst acc, Some (v, l)).
Proof.
  unfold in_width. intros Hv Hl. unfold parse_option.
  assert (strip_prefix #"2^" (dec v ++ #":" ++ dec l) = None) as ->.
  { destruct (strip_prefix _ _) as [r|] eqn:E; [|done]. apply strip_prefix_Some in E.
    assert (In "^"%char (dec v ++ #":" ++ dec l)) as Hin by (rewrite E; simpl; auto).
    rewrite !in_app_iff in Hin. destruct Hin as [Hin|[[?|[]]|Hin]]; [|done|];
      (by apply digits_no in Hin; [|lia|]). }
  assert (contains_char ":"%char (dec v ++ #":" ++ dec l) = true) as ->.
  { unfold contains_char. rewrite !existsb_app. simpl. by rewrite orb_true_r. }
  change (dec v ++ #":" ++ dec l) with (dec v ++ ":"%char :: dec l).
  rewrite split_app, split_no by (apply digits_no; [lia|done]).
  rewrite !parse_dec by (unfold u32_max, u8_max; lia). done.
Qed.

Lemma parse_option_texts a :
  sdes_ok a -> parse_options (None, None) (option_texts a) = Ok (lifetime a, mki a).
Proof.
  intros [_ _ _ _ Hl Hm]. unfold option_texts.
  destruct (lifetime a) as [l|] eqn:El, (mki a) as [[v n]|] eqn:Em; cbn [app parse_options]; [| | |done].
  - destruct (Hl l eq_refl) as (e & He & ->). destruct (Hm v n eq_refl).
    rewrite log2_power, parse_lifetime by done. cbn [rbind]. by rewrite parse_mki.
  - destruct (Hl l eq_refl) as (e & He & ->). by rewrite log2_power, parse_lifetime.
  - destruct (Hm v n eq_refl). by rewrite parse_mki.
Qed.

(** The texts of the optional parameters are tokens without the separator. *)
Lemma option_texts_plain a :
  sdes_ok a ->
  Forall (fun s => ~ In "|"%char s /\ Forall (fun c => tokc c = true) s) (option_texts a).
Proof.
  intros [_ _ _ _ Hl Hm]. unfold option_texts. apply Forall_app. split.
  - destruct (lifetime a) as [l|]; [|constructor]. destruct (Hl l eq_refl) as (e & He & ->).
    rewrite log2_power by done. apply Forall_singleton. split.
    + rewrite in_app_iff. intros [[?|[?|[]]]|Hin]; [done|done|].
      by apply digits_no in Hin; [|lia|].
    + apply Forall_app. split; [by repeat constructor|]. apply dec_tok. lia.
  - destruct (mki a) as [[v n]|]; [|constructor]. destruct (Hm v n eq_refl) as [Hv Hn].
    unfold in_width in *. apply Forall_singleton. split.
    + rewrite !in_app_iff. intros [Hin|[[?|[]]|Hin]]; [|done|]; (by apply digits_no in Hin; [|lia|]).
    + apply Forall_app. split; [apply dec_tok; lia|].
      apply Forall_app. split; [by repeat constructor|apply dec_tok; lia].
Qed.

Lemma split_bar l : l <> [] -> Forall (fun p => ~ In "|"%char p) l -> split "|"%char (join #"|" l) = l.
Proof.
  intros Hn F. induction F as [|t ts Ht Hts IH]; [done|].
  destruct ts as [|u ts]; [by apply split_no|].
  change (join #"|" (t :: u :: ts)) with (t ++ "|"%char :: join #"|" (u :: ts)).
  rewrite split_app by done. by rewrite IH.
Qed.

Lemma join_tok sep l :
  Forall (fun c => tokc c = true) sep -> Forall (fun s => Forall (fun c => tokc c = true) s) l ->
  Forall (fun c => tokc c = true) (join sep l).
Proof.
  intros Hs F. induction F as [|t ts Ht Hts IH]; [constructor|].
  destruct ts as [|u ts]; [done|]. change (join sep (t :: u :: ts)) with (t ++ sep ++ join sep (u :: ts)).
  apply Forall_app. split; [done|]. apply Forall_app. by split.
Qed.

Lemma key_params_print a :
  sdes_ok a ->
  parse_key_params (key_text a) = Ok (master_key a, master_salt a, (lifetime a, mki a)) /\
  Forall (fun c => tokc c = true) (key_text a).
Proof.
  intros H. pose proof (option_texts_plain a H) as Hp. unfold key_text. split.
  - unfold parse_key_params. rewrite split_bar; [|done|].
    + rewrite b64_roundtrip by apply (ok_bytes a H). cbn [ok_or rbind].
      rewrite length_app, (ok_key a H), (ok_salt a H). cbn [negb Nat.eqb Nat.add].
      rewrite parse_option_texts by done. cbn [rbind].
      rewrite <- (ok_key a H), take_app_length, drop_app_length. done.
    + constructor; [|eapply Forall_impl; [exact Hp|]; by intros s []].
      intros Hin. by apply b64_alphabet in Hin as [_ ?]; [|apply (ok_bytes a H)].
  - apply join_tok; [by repeat constructor|].
    constructor; [|eapply Forall_impl; [exact Hp|]; by intros s []].
    apply Forall_forall. intros c Hc. apply list_elem_of_In in Hc.
    apply b64_alphabet in Hc as [? _]; [done|apply (ok_bytes a H)].
Qed.

(** ** Theorems *)

(** The attribute the library sends is the attribute the peer's library reads: tag,
    crypto suite, the 16-byte key, the 14-byte salt, the lifetime and the key identifier,
    in every combination of the optional parts, for every key material. *)
Theorem sdes_roundtrip a : sdes_ok a -> sdes_parse (to_sdp a) = Ok a.
Proof.
  intros H. destruct (key_params_print a H) as [Hk Ht]. pose proof (ok_tag a H) as Hu.
  unfold in_width in Hu. unfold sdes_parse. rewrite to_sdp_text, split_whitespace_join.
  - rewrite parse_dec by (unfold u32_max; lia). cbn [ok_or rbind].
    rewrite suite_parse_print. cbn [ok_or rbind]. rewrite strip_prefix_app, Hk. cbn [rbind]. by destruct a.
  - constructor; [split; [apply dec_nonempty|apply dec_tok; lia]|].
    constructor; [by destruct (crypto_suite a); split; repeat constructor|].
    constructor; [|constructor]. split; [done|].
    apply Forall_app. split; [by repeat constructor|done].
Qed.

End Sdes.

(** ** Witnesses *)

(** Hexadecimal in place of base64. *)
Definition hex_digit (d : Z) : ascii := chr (if d <? 10 then 48 + d else 87 + d).
Definition hex_val (c : ascii) : Z := if code c <? 58 then code c - 48 else code c - 87.

Fixpoint hex_encode (l : list Z) : str :=
  match l with
  | [] => []
  | b :: l => hex_digit (b / 16) :: hex_digit (b mod 16) :: hex_encode l
  end.

Fixpoint hex_decode (s : str) : option (list Z) :=
  match s with
  | [] => Some []
  | a :: b :: s => let* l := hex_decode s in Some (16 * hex_val a + hex_val b :: l)
  | _ => None
  end.

Lemma hex_byte b :
  is_u8 b ->
  16 * hex_val (hex_digit (b / 16)) + hex_val (hex_digit (b mod 16)) = b /\
  (forall c, c = hex_digit (b / 16) \/ c = hex_digit (b mod 16) -> tokc c = true /\ c <> "|"%char).
Proof.
  intros Hb. pose (ok c := tokc c && negb (bool_decide (c = "|"%char))).
  assert ((fun b => (16 * hex_val (hex_digit (b / 16)) + hex_val (hex_digit (b mod 16)) =? b) &&
    (ok (hex_digit (b / 16)) && ok (hex_digit (b mod 16)))) b = true) as C
    by (revert b Hb; apply byte_forall; vm_compute; reflexivity).
  cbv beta in C. rewrite !andb_true_iff, Z.eqb_eq in C. destruct C as (C1 & C2 & C3).
  split; [done|]. intros c [->| ->]; unfold ok in *; rewrite andb_true_iff, negb_true_iff,
    bool_decide_eq_false in *; naive_solver.
Qed.

Lemma hex_roundtrip l : Forall is_u8 l -> hex_decode (hex_encode l) = Some l.
Proof.
  induction 1 as [|b l Hb F IH]; [done|]. cbn [hex_encode hex_decode]. rewrite IH.
  cbn [mbind option_bind]. by destruct (hex_byte b Hb) as [-> _].
Qed.

Lemma hex_alphabet l c : Forall is_u8 l -> In c (hex_encode l) -> tokc c = true /\ c <> "|"%char.
Proof.
  induction 1 as [|b l Hb F IH]; [done|]. cbn [hex_encode]. intros [<-|[<-|Hin]]; [| |by apply IH].
  - apply (hex_byte b Hb). by left.
  - apply (hex_byte b Hb). by right.
Qed.

Definition sample_sdes : SdesAttribute :=
  mkSdes 1 AesCm128HmacSha1_80 (seqZ 240 16) (seqZ 0 14) (Some (2 ^ 31)) (Some (4294967295, 4)).

Lemma sdes_roundtrip_witness :
  sdes_parse hex_decode to_ascii_uppercase (to_sdp hex_encode Z.log2 sample_sdes) = Ok sample_sdes.
Proof.
  apply (sdes_roundtrip hex_encode hex_decode to_ascii_uppercase Z.log2 hex_roundtrip hex_alphabet).
  - intros e He. apply Z.log2_pow2. lia.
  - done.
  - constructor; try reflexivity.
    + split; reflexivity || (vm_compute; discriminate).
    + apply Forall_forall. intros x Hx. unfold in_width. cbn [master_key master_salt sample_sdes] in Hx.
      apply elem_of_app in Hx as [Hx|Hx]; apply elem_of_seqZ in Hx; lia.
    + intros l [= <-]. exists 31. split; [lia|reflexivity].
    + intros v l [= <- <-]. unfold in_width. lia.
Defined.
