(* ===== verification/RFloat.v ===== *)
(** * Floating point

    Rust's [f32] and [f64] as the executable IEEE 754 specification of the Standard
    Library, with the conversions from and to integers and durations. *)

From Stdlib Require Import SpecFloat.
From S2P Require Import Prelude.

Local Open Scope Z_scope.

Abbreviation float := spec_float.

(** ** Conversions *)

(** [z as f64], [z as f32]: to nearest, ties to even. *)
Definition f64_of_Z (z : Z) : float := binary_normalize 53 1024 z 0 false.
Definition f32_of_Z (z : Z) : float := binary_normalize 24 128 z 0 false.

Definition clamp (lo hi z : Z) : Z := Z.max lo (Z.min hi z).

(** [x as T] for an integer type with bounds [lo] and [hi]: truncated towards zero,
    saturated, and 0 for a value that is not a number. *)
Definition float_to_int (lo hi : Z) (x : float) : Z :=
  match x with
  | S754_zero _ => 0
  | S754_infinity s => if s then lo else hi
  | S754_nan => 0
  | S754_finite s m e =>
      let a := if 0 <=? e then Zpos m * 2 ^ e else Zpos m / 2 ^ (- e) in
      clamp lo hi (if s then - a else a)
  end.

Definition as_u8 := float_to_int 0 255.
Definition f_as_i16 := float_to_int (-32768) 32767.
Definition f_as_u32 := float_to_int 0 4294967295.
Definition f_as_i32 := float_to_int (-2147483648) 2147483647.
Definition f_as_i64 := float_to_int (-9223372036854775808) 9223372036854775807.

(** ** Operations *)

Definition f64_add := SFadd 53 1024.
Definition f64_sub := SFsub 53 1024.
Definition f64_mul := SFmul 53 1024.
Definition f64_div := SFdiv 53 1024.
Definition f64_lt := SFltb.

Definition f32_sub := SFsub 24 128.
Definition f32_mul := SFmul 24 128.
Definition f32_div := SFdiv 24 128.

Definition f64_zero : float := S754_zero false.

(** [a.min(b)] for numbers. *)
Definition f64_min (a b : float) : float := if SFltb b a then b else a.

(** [Duration::as_secs_f64] of a duration in nanoseconds. *)
Definition as_secs_f64 (ns : Z) : float :=
  f64_add (f64_of_Z (ns / 1000000000)) (f64_div (f64_of_Z (ns mod 1000000000)) (f64_of_Z 1000000000)).

(** ** Lemmas *)

(** The integer nearest to [k * m * 2 ^ e], ties to even. *)
Definition scaled (k : Z) (m : positive) (e : Z) : Z :=
  if 0 <=? e then k * Zpos m * 2 ^ e
  else
    let d := 2 ^ (- e) in
    let q := k * Zpos m / d in
    let r := k * Zpos m mod d in
    if (2 * r <? d) || ((2 * r =? d) && Z.even q) then q else q + 1.

(** [Duration::from_secs_f64], in nanoseconds; a negative number, an infinity, no number and what a [Duration]
    does not hold panic. *)
Definition from_secs_f64 (x : float) : option Z :=
  match x with
  | S754_zero _ => Some 0
  | S754_finite false m e => let ns := scaled 1000000000 m e in if ns <? 2 ^ 64 * 1000000000 then Some ns else None
  | _ => None
  end.

Lemma float_to_int_range lo hi x : lo <= 0 <= hi -> lo <= float_to_int lo hi x <= hi.
Proof.
  intros H. destruct x as [| [] | |s m e]; simpl; try lia. unfold clamp. lia.
Qed.

Example f64_literal : f64_div (f64_of_Z 2) (f64_of_Z 100) = S754_finite false 5764607523034235 (-58).
Proof. vm_compute. reflexivity. Qed.

Example f64_secs : f_as_i32 (f64_mul (as_secs_f64 20000000) (f64_of_Z 8000)) = 160.
Proof. vm_compute. reflexivity. Qed.
