(* ===== verification/Jitter.v ===== *)
(** * The jitter buffer ([media/jitter.rs])

    Packets by RTP timestamp, the playout position, the adaptive delay and the
    statistics.  The ordered map is a finite map with the smallest key computed; an
    [Instant] is a number of nanoseconds, passed as [now]; samples are integers.  A
    division by a zero clock rate or packet size panics: [None]. *)

From S2P Require Import Prelude RFloat RtpPacket.

Local Open Scope Z_scope.

Record JitterBufferConfig : Type := mkConfig {
  min_delay_ms : Z;
  max_delay_ms : Z;
  initial_delay_ms : Z;
  clock_rate : Z;
  samples_per_packet : Z
}.

Definition default_config : JitterBufferConfig := mkConfig 20 200 60 8000 160.

(** [u32] arithmetic of a release build. *)
Definition ms_to_samples (c : JitterBufferConfig) (ms : Z) : Z := wrap 32 (ms * clock_rate c) / 1000.

Definition samples_to_ms (c : JitterBufferConfig) (samples : Z) : option Z :=
  if clock_rate c =? 0 then None else Some (wrap 32 (samples * 1000) / clock_rate c).

Record BufferedPacket : Type := mkPacket {
  b_sequence : Z;
  b_timestamp : Z;
  b_samples : list Z;
  received_at : Z
}.

Inductive PlayoutDecision : Type := Play | Expand | Conceal | Accelerate | Silence.

Record JitterStats : Type := mkStats {
  packets_received : Z;
  packets_played : Z;
  packets_lost : Z;
  packets_late : Z;
  packets_duplicate : Z;
  buffer_depth : Z;
  target_delay_ms : Z;
  jitter_ms : float
}.

#[export] Instance stats_eta : Settable JitterStats := fun x =>
  mkStats (packets_received x) (packets_played x) (packets_lost x) (packets_late x)
    (packets_duplicate x) (buffer_depth x) (target_delay_ms x) (jitter_ms x).

Definition default_stats : JitterStats := mkStats 0 0 0 0 0 0 0 f64_zero.

Record JitterBuffer : Type := mkJB {
  config : JitterBufferConfig;
  packets : gmap Z BufferedPacket;
  target_delay : Z;
  jitter : float;
  next_seq : option Z;
  next_playout_ts : option Z;
  last_arrival : option (Z * Z);
  stats : JitterStats;
  last_samples : list Z;
  primed : bool;
  first_packet_time : option Z
}.

#[export] Instance jb_eta : Settable JitterBuffer := fun x =>
  mkJB (config x) (packets x) (target_delay x) (jitter x) (next_seq x) (next_playout_ts x)
    (last_arrival x) (stats x) (last_samples x) (primed x) (first_packet_time x).

Definition silence (c : JitterBufferConfig) : list Z :=
  replicate (Z.to_nat (samples_per_packet c)) 0.

Definition jb_new (c : JitterBufferConfig) : JitterBuffer :=
  mkJB c ∅ (ms_to_samples c (initial_delay_ms c)) f64_zero None None None default_stats
    (silence c) false None.

(** [a.wrapping_sub(b) as i32] *)
Definition as_i32 (z : Z) : Z := if z <? 2147483648 then z else z - 4294967296.
Definition as_i64 (z : Z) : Z := if z <? 2 ^ 63 then z else z - 2 ^ 64.
Definition timestamp_diff (a b : Z) : Z := as_i32 (wrap 32 (a - b)).
Definition timestamp_before (a b : Z) : bool := timestamp_diff a b <? 0.

(** J(i) = J(i-1) + (|D(i-1,i)| - J(i-1))/16 *)
Definition update_jitter (now timestamp : Z) (b : JitterBuffer) : float :=
  match last_arrival b with
  | None => jitter b
  | Some (last_time, last_ts) =>
      let arrival_diff := Z.max 0 (now - last_time) in
      let arrival_samples := f_as_i64 (f64_mul (as_secs_f64 arrival_diff)
                                         (f64_of_Z (clock_rate (config b)))) in
      let ts_diff := timestamp_diff timestamp last_ts in
      let d := f64_of_Z (Z.abs (as_i64 (wrap 64 (arrival_samples - ts_diff)))) in
      f64_add (jitter b) (f64_div (f64_sub d (jitter b)) (f64_of_Z 16))
  end.

Definition adapt_delay (b : JitterBuffer) : option JitterBuffer :=
  let c := config b in
  let jitter_samples := f_as_u32 (jitter b) in
  let new_target := Z.min (Z.max (wrap 32 (2 * jitter_samples)) (ms_to_samples c (min_delay_ms c)))
                      (ms_to_samples c (max_delay_ms c)) in
  let td := if target_delay b <? new_target
            then target_delay b + (new_target - target_delay b) / 4
            else if new_target <? target_delay b
            then target_delay b - (target_delay b - new_target) / 16
            else target_delay b in
  let* ms := samples_to_ms c td in
  Some (b <| target_delay := td |>
          <| stats := (stats b) <| target_delay_ms := ms |>
               <| jitter_ms := f64_div (f64_mul (jitter b) (f64_of_Z 1000)) (f64_of_Z (clock_rate c)) |> |>).

(** What [push] does when the packet is accepted. *)
Definition store_packet (now sequence timestamp : Z) (samples : list Z) (b : JitterBuffer)
  : option JitterBuffer :=
  let b := match next_seq b with
           | Some expected =>
               let d := sequence_diff sequence expected in
               if 0 <? d then b <| next_seq := Some (wrap 16 (sequence + 1)) |>
               else if d =? 0 then b <| next_seq := Some (wrap 16 (sequence + 1)) |>
               else b
           | None => b
           end in
  let b := b <| packets := <[timestamp := mkPacket sequence timestamp samples now]> (packets b) |> in
  let* b := adapt_delay b in
  if primed b then Some b else
  if samples_per_packet (config b) =? 0 then None else
  let packets_needed := target_delay b / samples_per_packet (config b) in
  Some (if Z.max packets_needed 1 <=? Z.of_nat (size (packets b))
        then b <| primed := true |> else b).

Definition push (now sequence timestamp : Z) (samples : list Z) (b : JitterBuffer)
  : option (bool * JitterBuffer) :=
  let b := b <| stats := (stats b) <| packets_received := packets_received (stats b) + 1 |> |> in
  let b := match first_packet_time b with
           | None => b <| first_packet_time := Some now |> <| next_seq := Some sequence |>
                       <| next_playout_ts := Some timestamp |>
           | Some _ => b
           end in
  let b := b <| jitter := update_jitter now timestamp b |> in
  let b := b <| last_arrival := Some (now, timestamp) |> in
  match packets b !! timestamp with
  | Some _ =>
      Some (false, b <| stats := (stats b) <| packets_duplicate := packets_duplicate (stats b) + 1 |> |>)
  | None =>
      let late := match next_playout_ts b with
                  | Some playout_ts => timestamp_before timestamp playout_ts
                  | None => false
                  end in
      if late then
        Some (false, b <| stats := (stats b) <| packets_late := packets_late (stats b) + 1 |> |>)
      else
        let* b := store_packet now sequence timestamp samples b in
        Some (true, b)
  end.

(** [sample as f32 * (1.0 - (i as f32 / len as f32) * 0.5)] as [i16]. *)
Definition fade (len i sample : Z) : Z :=
  let half := f32_div (f32_of_Z 1) (f32_of_Z 2) in
  let factor := f32_sub (f32_of_Z 1) (f32_mul (f32_div (f32_of_Z i) (f32_of_Z len)) half) in
  f_as_i16 (f32_mul (f32_of_Z sample) factor).

Fixpoint fade_from (len i : Z) (l : list Z) : list Z :=
  match l with
  | [] => []
  | s :: r => fade len i s :: fade_from len (i + 1) r
  end.

Definition conceal_packet (b : JitterBuffer) : list Z * JitterBuffer :=
  let concealed := fade_from (zlen (last_samples b)) 0 (last_samples b) in
  (concealed, b <| last_samples := concealed |>).

(** [self.packets.keys().next()]: the smallest key. *)
Definition first_key (m : gmap Z BufferedPacket) : option Z :=
  foldr (fun kv acc => match acc with None => Some kv.1 | Some k => Some (Z.min kv.1 k) end)
    None (map_to_list m).

Definition depth (b : JitterBuffer) : Z := Z.of_nat (size (packets b)).

(** A lost frame: counted and concealed. *)
Definition conceal (b : JitterBuffer) : PlayoutDecision * list Z * JitterBuffer :=
  let b := b <| stats := (stats b) <| packets_lost := packets_lost (stats b) + 1 |> |> in
  let '(samples, b) := conceal_packet b in
  (Conceal, samples, b <| stats := (stats b) <| buffer_depth := depth b |> |>).

(** [a as i32 * 2], wrapping. *)
Definition double_i32 (z : Z) : Z := as_i32 (wrap 32 (as_i32 (wrap 32 z) * 2)).

Definition pop (b : JitterBuffer) : option (PlayoutDecision * list Z * JitterBuffer) :=
  let c := config b in
  if negb (primed b) then Some (Silence, silence c, b) else
  match next_playout_ts b with
  | None => Some (Silence, silence c, b)
  | Some playout_ts =>
      let b := b <| next_playout_ts := Some (wrap 32 (playout_ts + samples_per_packet c)) |> in
      match packets b !! playout_ts with
      | Some packet =>
          let b := b <| packets := delete playout_ts (packets b) |> in
          let b := b <| stats := (stats b) <| packets_played := packets_played (stats b) + 1 |> |> in
          let b := b <| last_samples := b_samples packet |> in
          Some (Play, b_samples packet, b <| stats := (stats b) <| buffer_depth := depth b |> |>)
      | None =>
          match first_key (packets b) with
          | Some next_ts =>
              let gap := timestamp_diff next_ts playout_ts in
              if gap <=? as_i32 (wrap 32 (samples_per_packet c)) then Some (conceal b)
              else if double_i32 (target_delay b) <? gap then
                let b := b <| next_playout_ts := Some next_ts |> in
                let* packet := packets b !! next_ts in
                let b := b <| packets := delete next_ts (packets b) |> in
                let b := b <| stats := (stats b) <| buffer_depth := depth b |> |> in
                let b := b <| stats := (stats b) <| packets_played := packets_played (stats b) + 1 |> |> in
                Some (Accelerate, b_samples packet, b <| last_samples := b_samples packet |>)
              else Some (conceal b)
          | None => Some (conceal b)
          end
      end
  end.

Definition jb_reset (b : JitterBuffer) : JitterBuffer :=
  b <| packets := ∅ |> <| next_seq := None |> <| next_playout_ts := None |>
    <| last_arrival := None |> <| last_samples := silence (config b) |> <| primed := false |>
    <| first_packet_time := None |> <| jitter := f64_zero |>
    <| target_delay := ms_to_samples (config b) (initial_delay_ms (config b)) |>.

(** ** Runs *)

Inductive JOp : Type :=
| JPush (now sequence timestamp : Z) (samples : list Z)
| JPop
| JReset.

(** The frames in the buffer. *)
Definition frames (b : JitterBuffer) : list (list Z) :=
  map (fun kv => b_samples kv.2) (map_to_list (packets b)).

(** The frames a run accepted, those it played, and those a reset threw away. *)
Record jlog : Type := mkLog {
  accepted : list (list Z);
  played : list (list Z);
  discarded : list (list Z)
}.

Definition jstep (b : JitterBuffer) (op : JOp) : option (jlog * JitterBuffer) :=
  match op with
  | JPush now sequence timestamp samples =>
      match push now sequence timestamp samples b with
      | Some (true, b') => Some (mkLog [samples] [] [], b')
      | Some (false, b') => Some (mkLog [] [] [], b')
      | None => None
      end
  | JPop =>
      match pop b with
      | Some (Play, samples, b') | Some (Accelerate, samples, b') =>
          Some (mkLog [] [samples] [], b')
      | Some (_, _, b') => Some (mkLog [] [] [], b')
      | None => None
      end
  | JReset => Some (mkLog [] [] (frames b), jb_reset b)
  end.

Definition log_app (l l' : jlog) : jlog :=
  mkLog (accepted l ++ accepted l') (played l ++ played l') (discarded l ++ discarded l').

Fixpoint jrun (b : JitterBuffer) (ops : list JOp) : option (jlog * JitterBuffer) :=
  match ops with
  | [] => Some (mkLog [] [] [], b)
  | op :: ops =>
      match jstep b op with
      | Some (l, b') =>
          match jrun b' ops with
          | Some (l', b'') => Some (log_app l l', b'')
          | None => None
          end
      | None => None
      end
  end.

Definition op_ok (op : JOp) : Prop :=
  match op with
  | JPush _ sequence timestamp _ => is_u16 sequence /\ is_u32 timestamp
  | _ => True
  end.

(** ** Lemmas *)

Record config_ok (c : JitterBufferConfig) : Prop := {
  ok_rate : 0 < clock_rate c;
  ok_size : 0 < samples_per_packet c < 2 ^ 31;
  ok_min : 0 <= min_delay_ms c <= initial_delay_ms c;
  ok_max : initial_delay_ms c <= max_delay_ms c;
  ok_fits : max_delay_ms c * clock_rate c < 2 ^ 32
}.

Lemma ms_to_samples_mono c a b :
  config_ok c -> 0 <= a <= b -> b <= max_delay_ms c ->
  0 <= ms_to_samples c a <= ms_to_samples c b.
Proof.
  intros [Hr _ _ _ Hf] Hab Hb. unfold ms_to_samples, wrap.
  assert (0 <= a * clock_rate c <= b * clock_rate c) as H1 by nia.
  assert (b * clock_rate c < 2 ^ 32) as H2 by nia.
  rewrite !Z.mod_small by lia. split; [apply Z.div_pos; lia|apply Z.div_le_mono; lia].
Qed.

(** The smallest key is a key, and there is one unless the map is empty. *)
Lemma first_key_spec m :
  match first_key m with
  | Some k => is_Some (m !! k) /\ forall t, is_Some (m !! t) -> k <= t
  | None => m = ∅
  end.
Proof.
  unfold first_key.
  assert (forall l : list (Z * BufferedPacket),
    match foldr (fun kv acc => match acc with None => Some kv.1 | Some k => Some (Z.min kv.1 k) end)
      None l with
    | Some k => k ∈ l.*1 /\ forall t, t ∈ l.*1 -> k <= t
    | None => l = []
    end) as K.
  { induction l as [|[k p] l IH]; simpl; [done|].
    destruct (foldr _ None l) as [k'|].
    - destruct IH as [I1 I2]. split.
      + destruct (Z.min_spec k k') as [[_ ->]|[_ ->]]; set_solver.
      + intros t [->|Ht]%elem_of_cons; [lia|]. specialize (I2 t Ht). lia.
    - subst l. simpl. split; [set_solver|]. intros t Ht%list_elem_of_singleton. lia. }
  specialize (K (map_to_list m)). destruct (foldr _ _ _) as [k|].
  - destruct K as [K1 K2]. split.
    + apply list_elem_of_fmap in K1 as ([k' p] & -> & Hin). apply elem_of_map_to_list in Hin.
      by exists p.
    + intros t [p Hp]. apply K2, list_elem_of_fmap. exists (t, p).
      split; [done|]. by apply elem_of_map_to_list.
  - by apply map_to_list_empty_iff.
Qed.

Definition min_samples (c : JitterBufferConfig) : Z := ms_to_samples c (min_delay_ms c).
Definition max_samples (c : JitterBufferConfig) : Z := ms_to_samples c (max_delay_ms c).

(** The invariant of the buffer; [k] frames have been thrown away by resets. *)
Record jb_inv (c : JitterBufferConfig) (k : Z) (b : JitterBuffer) : Prop := {
  ji_config : config b = c;
  ji_count : packets_received (stats b) =
    packets_played (stats b) + depth b + k + packets_late (stats b) + packets_duplicate (stats b);
  ji_delay : min_samples c <= target_delay b <= max_samples c;
  ji_playout : forall t, next_playout_ts b = Some t -> is_u32 t;
  ji_keys : forall t p, packets b !! t = Some p -> is_u32 t /\ b_timestamp p = t;
  ji_started : first_packet_time b <> None -> next_playout_ts b <> None;
  ji_primed : primed b = true -> next_playout_ts b <> None
}.

Lemma adapt_delay_spec c b :
  config_ok c -> config b = c -> min_samples c <= target_delay b <= max_samples c ->
  exists b', adapt_delay b = Some b' /\
    min_samples c <= target_delay b' <= max_samples c /\ config b' = config b /\
    packets b' = packets b /\ next_playout_ts b' = next_playout_ts b /\
    primed b' = primed b /\ first_packet_time b' = first_packet_time b /\
    packets_received (stats b') = packets_received (stats b) /\
    packets_played (stats b') = packets_played (stats b) /\
    packets_late (stats b') = packets_late (stats b) /\
    packets_duplicate (stats b') = packets_duplicate (stats b).
Proof.
  intros Hc <- Hd. unfold adapt_delay, samples_to_ms.
  destruct (Z.eqb_spec (clock_rate (config b)) 0) as [E|_]; [pose proof (ok_rate _ Hc); lia|].
  cbn [mbind option_bind]. eexists. split; [done|]. simpl. split; [|by split_and!].
  set (n := Z.min _ _).
  assert (min_samples (config b) <= n <= max_samples (config b)) as Hn.
  { unfold n. fold (min_samples (config b)) (max_samples (config b)). lia. }
  destruct (Z.ltb_spec (target_delay b) n).
  - assert (0 <= (n - target_delay b) / 4 <= n - target_delay b)
      by (split; [apply Z.div_pos; lia|apply Z.div_le_upper_bound; lia]). lia.
  - destruct (Z.ltb_spec n (target_delay b)); [|lia].
    assert (0 <= (target_delay b - n) / 16 <= target_delay b - n)
      by (split; [apply Z.div_pos; lia|apply Z.div_le_upper_bound; lia]). lia.
Qed.

Lemma frames_insert b t p :
  packets b !! t = None ->
  map (fun kv => b_samples kv.2) (map_to_list (<[t := p]> (packets b))) ≡ₚ b_samples p :: frames b.
Proof. intros H. unfold frames. by rewrite map_to_list_insert. Qed.

Lemma frames_delete b t p :
  packets b !! t = Some p ->
  frames b ≡ₚ b_samples p :: map (fun kv => b_samples kv.2) (map_to_list (delete t (packets b))).
Proof. intros H. unfold frames. by rewrite <- (map_to_list_delete _ _ _ H). Qed.

(** A packet that is accepted is stored, and nothing else changes hands. *)
Record stored (b : JitterBuffer) (t : Z) (p : BufferedPacket) (b' : JitterBuffer) : Prop := {
  st_packets : packets b' = <[t := p]> (packets b);
  st_playout : next_playout_ts b' = next_playout_ts b;
  st_started : first_packet_time b' = first_packet_time b;
  st_primed : Z.max (target_delay b' / samples_per_packet (config b)) 1 <= depth b' -> primed b' = true
}.

Lemma store_packet_spec c k b now sequence timestamp samples :
  config_ok c -> is_u32 timestamp -> jb_inv c (k + 1) b -> next_playout_ts b <> None ->
  packets b !! timestamp = None ->
  exists b', store_packet now sequence timestamp samples b = Some b' /\ jb_inv c k b' /\
    stored b timestamp (mkPacket sequence timestamp samples now) b'.
Proof.
  intros Hc Ht [I1 I2 I3 I4 I5 I6 I7] Hn Hfree. unfold store_packet.
  set (b1 := match next_seq b with Some _ => _ | None => _ end).
  assert (exists s, b1 = b <| next_seq := s |>) as [s Hs].
  { unfold b1. destruct (next_seq b); [destruct (0 <? _); [by eexists|];
      destruct (_ =? 0); [by eexists|]|]; exists (next_seq b); by destruct b. }
  clearbody b1. set (b2 := b1 <| packets := _ |>).
  assert (config b2 = c) as Hb2 by (unfold b2; by rewrite Hs).
  destruct (adapt_delay_spec c b2 Hc Hb2) as (b3 & -> & A1 & A2 & A3 & A4 & A5 & A6 & A7 & A8 & A9 & A10).
  { unfold b2. by rewrite Hs. }
  cbn [mbind option_bind].
  assert (packets b3 = <[timestamp := mkPacket sequence timestamp samples now]> (packets b)) as P3.
  { rewrite A3. unfold b2. by rewrite Hs. }
  assert (next_playout_ts b3 = next_playout_ts b) as N3 by (rewrite A4; unfold b2; by rewrite Hs).
  assert (first_packet_time b3 = first_packet_time b) as T3 by (rewrite A6; unfold b2; by rewrite Hs).
  assert (forall pr, jb_inv c k (b3 <| primed := pr |>)) as K.
  { intros pr. split; simpl.
    - by rewrite A2.
    - unfold depth in *. simpl. rewrite P3, map_size_insert_None by done.
      rewrite A7, A8, A9, A10. unfold b2. rewrite Hs. simpl. lia.
    - done.
    - intros t. rewrite N3. apply I4.
    - intros t p. rewrite P3. intros [[<- <-]|[_ H]]%lookup_insert_Some; [done|eauto].
    - intros _. by rewrite N3.
    - intros _. by rewrite N3. }
  assert (b3 = b3 <| primed := primed b3 |>) as Heta by by destruct b3.
  destruct (primed b3) eqn:E.
  { exists b3. split; [done|]. split; [by rewrite Heta|by split]. }
  rewrite A2, Hb2. destruct (Z.eqb_spec (samples_per_packet c) 0); [pose proof (ok_size _ Hc); lia|].
  destruct (Z.leb_spec (Z.max (target_delay b3 / samples_per_packet c) 1) (Z.of_nat (size (packets b3)))).
  - exists (b3 <| primed := true |>). split; [done|]. split; [done|by split].
  - exists b3. split; [done|]. split; [by rewrite Heta|]. split; try done.
    rewrite I1. unfold depth. lia.
Qed.

(** The state a [push] works on, before it decides what to do with the packet. *)
Definition arrived (now sequence timestamp : Z) (b : JitterBuffer) : JitterBuffer :=
  let b := b <| stats := (stats b) <| packets_received := packets_received (stats b) + 1 |> |> in
  let b := match first_packet_time b with
           | None => b <| first_packet_time := Some now |> <| next_seq := Some sequence |>
                       <| next_playout_ts := Some timestamp |>
           | Some _ => b
           end in
  let b := b <| jitter := update_jitter now timestamp b |> in
  b <| last_arrival := Some (now, timestamp) |>.

Lemma arrived_inv c k b now sequence timestamp :
  is_u32 timestamp -> jb_inv c k b ->
  jb_inv c (k + 1) (arrived now sequence timestamp b) /\
  packets (arrived now sequence timestamp b) = packets b /\
  next_playout_ts (arrived now sequence timestamp b) <> None.
Proof.
  intros Ht [I1 I2 I3 I4 I5 I6 I7]. unfold arrived. generalize (update_jitter now timestamp).
  destruct b as [c0 ps td j ns np la st ls pr [t0|]]; intros f; simpl in *;
    (split; [|split; [done|]]); try split; simpl; unfold depth in *; simpl in *; 
    first [done|lia|by auto|by apply I6|by intros ? [= <-]|idtac].
Qed.

Lemma jstep_push c k b now sequence timestamp samples :
  config_ok c -> op_ok (JPush now sequence timestamp samples) -> jb_inv c k b ->
  exists l b', jstep b (JPush now sequence timestamp samples) = Some (l, b') /\
    jb_inv c (k + zlen (discarded l)) b' /\
    accepted l ++ frames b ≡ₚ played l ++ discarded l ++ frames b'.
Proof.
  intros Hc [_ Ht] I. destruct (arrived_inv c k b now sequence timestamp Ht I) as (A1 & A2 & A3).
  unfold jstep, push. fold (arrived now sequence timestamp b).
  set (b1 := arrived now sequence timestamp b) in *. clearbody b1.
  assert (frames b1 = frames b) as F1 by (unfold frames; by rewrite A2).
  destruct (packets b1 !! timestamp) as [p|] eqn:E.
  - eexists _, _. split; [done|]. simpl. rewrite <- F1.
    split; [|reflexivity]. destruct A1 as [I1 I2 I3 I4 I5 I6 I7]. split; try done.
    unfold depth in *. simpl. unfold zlen. simpl. lia.
  - set (late := match next_playout_ts b1 with Some _ => _ | None => _ end). destruct late.
    + eexists _, _. split; [done|]. simpl. rewrite <- F1.
      split; [|reflexivity]. destruct A1 as [I1 I2 I3 I4 I5 I6 I7]. split; try done.
      unfold depth in *. simpl. unfold zlen. simpl. lia.
    + destruct (store_packet_spec c k b1 now sequence timestamp samples Hc Ht A1 A3 E)
        as (b2 & -> & S1 & S2).
      cbn [mbind option_bind]. eexists _, _. split; [done|]. simpl. rewrite Z.add_0_r, <- F1.
      split; [done|]. unfold frames at 2. by rewrite (st_packets _ _ _ _ S2), frames_insert.
Qed.

Lemma conceal_inv c k b :
  jb_inv c k b ->
  exists samples b', conceal b = (Conceal, samples, b') /\ jb_inv c k b' /\ frames b' = frames b /\
    next_playout_ts b' = next_playout_ts b.
Proof.
  intros [I1 I2 I3 I4 I5 I6 I7]. unfold conceal, conceal_packet. eexists _, _. split; [done|].
  split; [|done]. by split.
Qed.

(** Playing a packet of the buffer. *)
Lemma played_inv c k b t p ls d st :
  jb_inv c k b -> packets b !! t = Some p ->
  packets_received st = packets_received (stats b) ->
  packets_played st = packets_played (stats b) + 1 ->
  packets_late st = packets_late (stats b) ->
  packets_duplicate st = packets_duplicate (stats b) ->
  is_u32 d ->
  jb_inv c k (b <| packets := delete t (packets b) |> <| last_samples := ls |>
                <| next_playout_ts := Some d |> <| stats := st |>).
Proof.
  intros [I1 I2 I3 I4 I5 I6 I7] Hp E1 E2 E3 E4 Hd. split; simpl; try done.
  - unfold depth in *. simpl. rewrite E1, E2, E3, E4. rewrite map_size_delete_Some by done.
    assert (size (packets b) <> 0%nat) by (intros E%map_size_empty_inv; by rewrite E, lookup_empty in Hp).
    lia.
  - intros x [= <-]. done.
  - intros x q [_ H]%lookup_delete_Some. eauto.
Qed.

Lemma wrap32_u32 z : is_u32 (wrap 32 z).
Proof. unfold wrap, is_u32. pose proof (Z.mod_pos_bound z (2 ^ 32)). lia. Qed.

(** Moving the playout position keeps the invariant. *)
Lemma advance_inv c k b d :
  jb_inv c k b -> is_u32 d -> jb_inv c k (b <| next_playout_ts := Some d |>).
Proof. intros [I1 I2 I3 I4 I5 I6 I7] Hd. split; simpl; try done. by intros t [= <-]. Qed.

Lemma jstep_pop c k b :
  jb_inv c k b ->
  exists l b', jstep b JPop = Some (l, b') /\ jb_inv c (k + zlen (discarded l)) b' /\
    accepted l ++ frames b ≡ₚ played l ++ discarded l ++ frames b'.
Proof.
  intros I. unfold jstep, pop. destruct (primed b) eqn:Hp; cbn [negb].
  2:{ eexists _, _. split; [done|]. simpl. by rewrite Z.add_0_r. }
  destruct (next_playout_ts b) as [t|] eqn:Hn; [|by destruct (ji_primed _ _ _ I)].
  pose proof (advance_inv c k b _ I (wrap32_u32 (t + samples_per_packet (config b)))) as I'.
  set (d := wrap 32 _) in *. set (b1 := b <| next_playout_ts := Some d |>) in *.
  assert (frames b1 = frames b) as F1 by done.
  assert (packets b1 = packets b) as P1 by done.
  assert (target_delay b1 = target_delay b) as T1 by done.
  rewrite <- F1. destruct (packets b1 !! t) as [p|] eqn:E.
  { eexists _, _. split; [done|]. simpl. rewrite Z.add_0_r. rewrite (frames_delete b1 t p E).
    split; [|done]. eapply (played_inv c k b t p); try done. apply wrap32_u32. }
  assert (exists l b', match Some (conceal b1) with
            | Some (Play, samples, b') | Some (Accelerate, samples, b') => Some (mkLog [] [samples] [], b')
            | Some (_, _, b') => Some (mkLog [] [] [], b')
            | None => None end = Some (l, b') /\
          jb_inv c (k + zlen (discarded l)) b' /\
          accepted l ++ frames b1 ≡ₚ played l ++ discarded l ++ frames b') as HC.
  { destruct (conceal_inv c k b1 I') as (s & b' & -> & C1 & C2 & _).
    eexists _, _. split; [done|]. simpl. by rewrite C2, Z.add_0_r. }
  pose proof (first_key_spec (packets b1)) as Hf. destruct (first_key (packets b1)) as [n|]; [|done].
  destruct Hf as [[p Hp'] _]. destruct (_ <=? _); [done|]. destruct (_ <? _); [|done].
  assert (packets (b1 <| next_playout_ts := Some n |>) !! n = Some p) as -> by exact Hp'.
  cbn [mbind option_bind].
  eexists _, _. split; [done|]. simpl. rewrite Z.add_0_r. rewrite (frames_delete b1 n p Hp').
  split; [|done]. eapply (played_inv c k b n p); try done. by apply (ji_keys _ _ _ I n p).
Qed.

Lemma jstep_reset c k b :
  config_ok c -> jb_inv c k b ->
  exists l b', jstep b JReset = Some (l, b') /\ jb_inv c (k + zlen (discarded l)) b' /\
    accepted l ++ frames b ≡ₚ played l ++ discarded l ++ frames b'.
Proof.
  intros Hc [I1 I2 I3 I4 I5 I6 I7]. eexists _, _. split; [done|]. split.
  - split; simpl; try done.
    + unfold depth in *. simpl. unfold zlen, frames. rewrite map_size_empty, length_map, length_map_to_list. lia.
    + rewrite I1. unfold min_samples, max_samples. destruct Hc as [? ? Hmin Hmax ?].
      split; apply ms_to_samples_mono; (split; try done; lia) || lia || done.
  - simpl. unfold frames at 3. simpl. rewrite map_to_list_empty. by rewrite app_nil_r.
Qed.

Lemma jb_new_inv c : config_ok c -> jb_inv c 0 (jb_new c).
Proof.
  intros Hc. split; simpl; try done. unfold min_samples, max_samples.
  destruct Hc as [? ? Hmin Hmax ?].
  split; apply ms_to_samples_mono; (split; try done; lia) || lia || done.
Qed.

Lemma jrun_inv c ops b k :
  config_ok c -> Forall op_ok ops -> jb_inv c k b ->
  exists l b', jrun b ops = Some (l, b') /\ jb_inv c (k + zlen (discarded l)) b' /\
    accepted l ++ frames b ≡ₚ played l ++ discarded l ++ frames b'.
Proof.
  intros Hc Ho. revert b k. induction Ho as [|op ops Hop Ho IH]; intros b k I.
  - exists (mkLog [] [] []), b. simpl. by rewrite Z.add_0_r.
  - assert (exists l b', jstep b op = Some (l, b') /\ jb_inv c (k + zlen (discarded l)) b' /\
      accepted l ++ frames b ≡ₚ played l ++ discarded l ++ frames b') as (l & b1 & E & I1 & F1).
    { destruct op; [by apply jstep_push|by apply jstep_pop|by apply jstep_reset]. }
    destruct (IH b1 _ I1) as (l' & b2 & E' & I2 & F2).
    exists (log_app l l'), b2. simpl. rewrite E, E'. split; [done|]. split.
    + unfold zlen in *. rewrite length_app. by rewrite Nat2Z.inj_add, Z.add_assoc.
    + rewrite <- app_assoc, (Permutation_app_comm (accepted l')), (app_assoc (accepted l)), F1.
      rewrite <- !app_assoc, (Permutation_app_comm (frames b1)), F2. solve_Permutation.
Qed.

(** ** A stream of frames *)

Section stream.
Context (c : JitterBufferConfig) (t0 : Z) (frame : nat -> list Z).

(** The timestamp of frame [i] of a stream that starts at [t0]. *)
Definition stream_ts (i : nat) : Z := wrap 32 (t0 + Z.of_nat i * samples_per_packet c).

(** The arrival of frame [i]: when, and under which sequence number. *)
Definition arrival (a : Z * Z * nat) : JOp :=
  let '(now, sequence, i) := a in JPush now sequence (stream_ts i) (frame i).

Context (Hc : config_ok c).

Lemma stream_ts_diff i n :
  Z.of_nat n * samples_per_packet c < 2 ^ 31 -> (i < n)%nat -> is_u32 t0 ->
  timestamp_diff (stream_ts i) t0 = Z.of_nat i * samples_per_packet c.
Proof.
  intros Hn Hi Ht. pose proof (ok_size _ Hc). unfold timestamp_diff, stream_ts, as_i32, wrap.
  rewrite Zminus_mod_idemp_l. replace (t0 + Z.of_nat i * samples_per_packet c - t0)
    with (Z.of_nat i * samples_per_packet c) by lia.
  rewrite Z.mod_small by nia. destruct (Z.ltb_spec (Z.of_nat i * samples_per_packet c) 2147483648); nia.
Qed.

Lemma stream_ts_inj n i j :
  Z.of_nat n * samples_per_packet c < 2 ^ 31 -> is_u32 t0 -> (i < n)%nat -> (j < n)%nat ->
  stream_ts i = stream_ts j -> i = j.
Proof.
  intros Hn Ht Hi Hj E. pose proof (ok_size _ Hc).
  pose proof (stream_ts_diff i n Hn Hi Ht) as D. rewrite E, (stream_ts_diff j n Hn Hj Ht) in D. nia.
Qed.

Lemma timestamp_diff_self t : timestamp_diff t t = 0.
Proof. unfold timestamp_diff. by rewrite Z.sub_diag. Qed.

Lemma stream_ts_u32 i : is_u32 (stream_ts i).
Proof. apply wrap32_u32. Qed.

Lemma stream_ts_step i : stream_ts (S i) = wrap 32 (stream_ts i + samples_per_packet c).
Proof. unfold stream_ts, wrap. rewrite Zplus_mod_idemp_l. f_equal. lia. Qed.

Lemma stream_ts_0 : is_u32 t0 -> stream_ts 0 = t0.
Proof. unfold stream_ts, wrap, is_u32. intros H. rewrite Z.mod_small; lia. Qed.

(** A packet that is new and not behind the playout position is accepted. *)
Lemma push_accepts k b now sequence t samples :
  is_u32 t -> jb_inv c k b -> packets b !! t = None ->
  (forall d, first_packet_time b <> None -> next_playout_ts b = Some d -> timestamp_before t d = false) ->
  exists b', push now sequence t samples b = Some (true, b') /\ jb_inv c k b' /\
    packets b' = <[t := mkPacket sequence t samples now]> (packets b) /\
    next_playout_ts b' = (if first_packet_time b is Some _ then next_playout_ts b else Some t) /\
    first_packet_time b' <> None /\
    (Z.max (max_samples c / samples_per_packet c) 1 <= depth b' -> primed b' = true).
Proof.
  intros Ht I Hfree Hlate. destruct (arrived_inv c k b now sequence t Ht I) as (A1 & A2 & A3).
  unfold push. fold (arrived now sequence t b).
  assert (next_playout_ts (arrived now sequence t b) =
    (if first_packet_time b is Some _ then next_playout_ts b else Some t)) as A4.
  { unfold arrived. destruct b as [? ? ? ? ? ? ? ? ? ? [?|]]; done. }
  assert (first_packet_time (arrived now sequence t b) <> None) as A5.
  { unfold arrived. destruct b as [? ? ? ? ? ? ? ? ? ? [?|]]; done. }
  set (b1 := arrived now sequence t b) in *. clearbody b1. rewrite A2, Hfree.
  replace (match next_playout_ts b1 with Some d => timestamp_before t d | None => false end) with false.
  2:{ rewrite A4. destruct (first_packet_time b).
      - destruct (next_playout_ts b); [|done]. symmetry. by apply Hlate.
      - unfold timestamp_before. by rewrite timestamp_diff_self. }
  rewrite <- A2 in Hfree.
  destruct (store_packet_spec c k b1 now sequence t samples Hc Ht A1 A3 Hfree) as (b2 & -> & S1 & [? S2 S3 S4]).
  cbn [mbind option_bind]. exists b2. rewrite S2, A4, S3, <- A2. split_and!; try done.
  intros Hd. apply S4. etrans; [|exact Hd]. rewrite (ji_config _ _ _ A1).
  pose proof (ok_size _ Hc). pose proof (ji_delay _ _ _ S1).
  pose proof (Z.div_le_mono (target_delay b2) (max_samples c) (samples_per_packet c)). lia.
Qed.

(** The buffer holds the frames [l] of the stream and will play from [t0]. *)
Record holds (l : list nat) (b : JitterBuffer) : Prop := {
  ho_frames : forall i, i ∈ l -> exists p, packets b !! stream_ts i = Some p /\ b_samples p = frame i;
  ho_only : forall t, is_Some (packets b !! t) -> exists i, i ∈ l /\ t = stream_ts i;
  ho_playout : next_playout_ts b = Some t0;
  ho_started : first_packet_time b <> None;
  ho_primed : (0 < length l)%nat -> max_samples c / samples_per_packet c <= zlen l -> primed b = true;
  ho_size : depth b = zlen l
}.

Context (n : nat) (Hn : Z.of_nat n * samples_per_packet c < 2 ^ 31) (Ht0 : is_u32 t0).

Lemma holds_push l k b now sequence i :
  holds l b -> jb_inv c k b -> (i < n)%nat -> (forall j, j ∈ l -> (j < n)%nat) -> i ∉ l ->
  exists b', jstep b (arrival (now, sequence, i)) = Some (mkLog [frame i] [] [], b') /\
    jb_inv c k b' /\ holds (l ++ [i]) b'.
Proof.
  intros [H1 H2 H3 H4 H5 H6] I Hi Hl Hni.
  assert (packets b !! stream_ts i = None) as Hfree.
  { destruct (packets b !! stream_ts i) eqn:E; [|done]. destruct (H2 (stream_ts i)) as (j & Hj & Ej); [done|].
    apply (stream_ts_inj n) in Ej; [by subst|done|done|done|by apply Hl]. }
  destruct (push_accepts k b now sequence (stream_ts i) (frame i) (stream_ts_u32 i) I Hfree)
    as (b' & E & I' & P1 & P2 & P3 & P4).
  { intros d _ Hd. rewrite H3 in Hd. apply (inj Some) in Hd as <-. unfold timestamp_before.
    rewrite (stream_ts_diff i n Hn Hi Ht0). pose proof (ok_size _ Hc). apply Z.ltb_ge. lia. }
  exists b'. simpl. rewrite E. split; [done|]. split; [done|].
  assert (depth b' = zlen (l ++ [i])) as D.
  { unfold depth, zlen in *. rewrite P1, map_size_insert_None by done. rewrite length_app. simpl. lia. }
  split; [| | |done| |done].
  - intros j Hj. rewrite P1. destruct (decide (j = i)) as [->|Hji].
    + rewrite lookup_insert_eq. by eexists.
    + assert (j ∈ l) as Hjl by set_solver. rewrite lookup_insert_ne; [by apply H1|].
      intros Ej. apply (stream_ts_inj n) in Ej; [done|done|done|done|by apply Hl].
  - intros t. rewrite P1, lookup_insert_is_Some. intros [<-|[_ Ht]]; [exists i; set_solver|].
    destruct (H2 t Ht) as (j & Hj & ->). exists j. set_solver.
  - rewrite P2, H3. by case_match.
  - intros _ Hmax. apply P4. rewrite D. unfold zlen in *. rewrite length_app in *. cbn [length] in *. lia.
Qed.

Lemma holds_pushes arr l k b :
  holds l b -> jb_inv c k b -> NoDup (l ++ arr.*2) -> (forall j, j ∈ l ++ arr.*2 -> (j < n)%nat) ->
  exists b', jrun b (map arrival arr) = Some (mkLog (map frame arr.*2) [] [], b') /\
    jb_inv c k b' /\ holds (l ++ arr.*2) b'.
Proof.
  revert l b. induction arr as [|[[now sequence] i] arr IH]; intros l b H I Hd Hlt; simpl in *.
  { exists b. rewrite app_nil_r. done. }
  destruct (holds_push l k b now sequence i H I) as (b1 & E & I1 & H1).
  { apply Hlt. set_solver. } { intros j Hj. apply Hlt. set_solver. }
  { apply NoDup_app in Hd as (_ & Hd & _). intros Hi. apply (Hd i Hi). set_solver. }
  simpl in E. rewrite E. rewrite cons_middle, app_assoc in Hd, Hlt.
  destruct (IH _ _ H1 I1 Hd Hlt) as (b2 & E2 & I2 & H2).
  rewrite E2. exists b2. rewrite cons_middle, app_assoc. done.
Qed.

(** Playing the frames from position [m] on. *)
Lemma plays_from m b :
  primed b = true -> config b = c -> (m <= n)%nat -> next_playout_ts b = Some (stream_ts m) ->
  (forall i, (m <= i < n)%nat -> exists p, packets b !! stream_ts i = Some p /\ b_samples p = frame i) ->
  exists b', jrun b (replicate (n - m) JPop) = Some (mkLog [] (map frame (seq m (n - m))) [], b') /\
    next_playout_ts b' = Some (stream_ts n).
Proof.
  remember (n - m)%nat as r eqn:Er. revert m b Er.
  induction r as [|r IH]; intros m b Er Hp Hcb Hm Hn' Hf; simpl.
  { exists b. split; [done|]. by replace n with m by lia. }
  destruct (Hf m) as (p & Hp' & Es); [lia|].
  unfold pop. rewrite Hp, Hn', Hcb. cbn [negb].
  set (b1 := b <| next_playout_ts := _ |>). assert (packets b1 !! stream_ts m = Some p) as -> by done.
  set (b2 := _ <| stats := _ |>).
  destruct (IH (S m) b2) as (b' & E & N); [lia|done|done|lia| | |].
  - unfold b2, b1. simpl. by rewrite stream_ts_step.
  - intros i Hi. destruct (Hf i) as (q & Hq & Eq); [lia|]. exists q. split; [|done].
    unfold b2, b1. simpl. rewrite lookup_delete_ne; [done|].
    intros Ei. apply (stream_ts_inj n) in Ei; [lia|done|done|lia|lia].
  - exists b'. rewrite E. unfold log_app. simpl. by rewrite Es.
Qed.

End stream.

Lemma jrun_app b ops ops' l b' l' b'' :
  jrun b ops = Some (l, b') -> jrun b' ops' = Some (l', b'') ->
  jrun b (ops ++ ops') = Some (log_app l l', b'').
Proof.
  revert b l. induction ops as [|op ops IH]; intros b l E E'; simpl in *.
  - apply (inj Some) in E. simplify_eq. rewrite E'. by destruct l'.
  - destruct (jstep b op) as [[l1 b1]|]; [|done]. destruct (jrun b1 ops) as [[l2 b2]|] eqn:E2; [|done].
    apply (inj Some) in E. simplify_eq. rewrite (IH b1 l2 E2 E'). unfold log_app. simpl. by rewrite !app_assoc.
Qed.

(** The first frame starts the stream. *)
Lemma holds_first c t0 frame now sequence :
  config_ok c -> is_u32 t0 ->
  exists b, jrun (jb_new c) [arrival c t0 frame (now, sequence, 0%nat)] = Some (mkLog [frame 0%nat] [] [], b) /\
    jb_inv c 0 b /\ holds c t0 frame [0%nat] b.
Proof.
  intros Hc Ht. pose proof (stream_ts_0 c t0 Ht) as T.
  destruct (push_accepts c Hc 0 (jb_new c) now sequence t0 (frame 0%nat) Ht (jb_new_inv c Hc))
    as (b & E & I & P1 & P2 & P3 & P4); [done|done|].
  exists b. simpl. rewrite T, E. split; [done|]. split; [done|]. simpl in P1, P2.
  assert (depth b = zlen [0%nat]) as D.
  { unfold depth. rewrite P1, map_size_insert_None by done. by rewrite map_size_empty. }
  split; [| |done|done| |done].
  - intros i ->%list_elem_of_singleton. rewrite T, P1, lookup_insert_eq. by eexists.
  - intros t. rewrite P1, lookup_insert_is_Some. intros [<-|[_ [p Hp]]].
    + exists 0%nat. split; [set_solver|by rewrite T].
    + by apply lookup_empty_Some in Hp.
  - intros _ Hm. apply P4. rewrite D. unfold zlen in *. cbn [length] in *. lia.
Qed.

(** ** Properties *)

(** C20: whatever is pushed, popped and reset, in whatever order and with whatever
    timestamps, the buffer never panics (the [expect] in [pop] included), loses no accepted
    frame and plays none twice over: the frames accepted are those played, those thrown away by
    a reset and those still held; the counters account for every packet received, and the target
    delay stays between the configured bounds. *)
Theorem jitter_conserves c ops :
  config_ok c -> Forall op_ok ops ->
  exists l b, jrun (jb_new c) ops = Some (l, b) /\
    accepted l ≡ₚ played l ++ discarded l ++ frames b /\
    packets_received (stats b) = packets_played (stats b) + depth b + zlen (discarded l) +
      packets_late (stats b) + packets_duplicate (stats b) /\
    min_samples c <= target_delay b <= max_samples c.
Proof.
  intros Hc Ho. destruct (jrun_inv c ops (jb_new c) 0 Hc Ho (jb_new_inv c Hc)) as (l & b & E & I & F).
  exists l, b. split; [done|]. split; [|split; [apply (ji_count _ _ _ I)|apply (ji_delay _ _ _ I)]].
  rewrite <- F. unfold frames. simpl. by rewrite map_to_list_empty, app_nil_r.
Qed.

Lemma default_config_ok : config_ok default_config.
Proof. split; simpl; lia. Qed.

Lemma jitter_conserves_witness :
  exists l b, jrun (jb_new default_config) [JPush 0 1 0 [5]; JPop; JReset; JPush 1 2 160 [6]] = Some (l, b) /\
    accepted l ≡ₚ played l ++ discarded l ++ frames b /\
    packets_received (stats b) = packets_played (stats b) + depth b + zlen (discarded l) +
      packets_late (stats b) + packets_duplicate (stats b) /\
    min_samples default_config <= target_delay b <= max_samples default_config.
Proof.
  apply (jitter_conserves default_config [JPush 0 1 0 [5]; JPop; JReset; JPush 1 2 160 [6]] default_config_ok).
  repeat constructor; simpl; unfold is_u16, is_u32; lia.
Defined.

(** The frames of a stream that arrive in any order after the first one, at any times, are
    played in the order they were sent, each exactly once and with the samples it was pushed
    with: the playout after a buffer's worth of packets undoes the reordering of the network,
    across the wrap of the timestamps too. *)
Theorem jitter_reorders c t0 frame n now sequence rest :
  config_ok c -> is_u32 t0 ->
  Z.of_nat n * samples_per_packet c < 2 ^ 31 -> max_samples c / samples_per_packet c <= Z.of_nat n ->
  0%nat :: rest.*2 ≡ₚ seq 0 n ->
  exists b,
    jrun (jb_new c) (map (arrival c t0 frame) ((now, sequence, 0%nat) :: rest) ++ replicate n JPop) =
    Some (mkLog (map frame (0%nat :: rest.*2)) (map frame (seq 0 n)) [], b).
Proof.
  intros Hc Ht Hn Hm Hp.
  destruct (holds_first c t0 frame now sequence Hc Ht) as (b1 & E1 & I1 & H1).
  destruct (holds_pushes c t0 frame Hc n Hn Ht rest [0%nat] 0 b1 H1 I1) as (b2 & E2 & I2 & H2).
  { simpl. rewrite Hp. apply NoDup_seq. }
  { intros j Hj. simpl in Hj. rewrite Hp in Hj. apply elem_of_seq in Hj. lia. }
  assert (length ([0%nat] ++ rest.*2) = n) as L.
  { change ([0%nat] ++ rest.*2) with (0%nat :: rest.*2). by rewrite Hp, length_seq. }
  destruct (plays_from c t0 frame Hc n Hn Ht 0 b2) as (b3 & E3 & _).
  - apply (ho_primed _ _ _ _ _ H2); unfold zlen; rewrite L; [|done]. rewrite <- L. simpl. lia.
  - apply I2.
  - lia.
  - rewrite (ho_playout _ _ _ _ _ H2). by rewrite stream_ts_0.
  - intros i Hi. apply (ho_frames _ _ _ _ _ H2). simpl. rewrite Hp. apply elem_of_seq. lia.
  - exists b3. rewrite Nat.sub_0_r in E3. pose proof (jrun_app _ _ _ _ _ _ _ E1 E2) as E12.
    pose proof (jrun_app _ _ _ _ _ _ _ E12 E3) as E123. unfold log_app in E123.
    cbn [accepted played discarded] in E123. rewrite !app_nil_r in E123. exact E123.
Qed.

(** Ten frames across the wrap of the timestamps, the last first after the opening one. *)
Lemma jitter_reorders_witness :
  let rest := [(1, 9, 9%nat); (2, 3, 3%nat); (3, 1, 1%nat); (4, 2, 2%nat); (5, 4, 4%nat);
               (6, 8, 8%nat); (7, 7, 7%nat); (8, 6, 6%nat); (9, 5, 5%nat)] in
  exists b,
    jrun (jb_new default_config)
      (map (arrival default_config 4294967000 (fun i => [Z.of_nat i])) ((0, 0, 0%nat) :: rest) ++
       replicate 10 JPop) =
    Some (mkLog (map (fun i => [Z.of_nat i]) [0; 9; 3; 1; 2; 4; 8; 7; 6; 5]%nat)
            (map (fun i => [Z.of_nat i]) (seq 0 10)) [], b).
Proof.
  intros rest. apply (jitter_reorders default_config 4294967000 (fun i => [Z.of_nat i]) 10 0 0 rest
                        default_config_ok).
  - unfold is_u32; lia.
  - simpl; lia.
  - vm_compute; discriminate.
  - apply NoDup_Permutation; [apply (bool_decide_unpack _); by vm_compute|apply NoDup_seq|].
    intros i. rewrite elem_of_seq. simpl. rewrite !elem_of_cons, elem_of_nil. lia.
Defined.

(** The frames and decisions of [n] pops. *)
Fixpoint pops (n : nat) (b : JitterBuffer) : list PlayoutDecision :=
  match n with
  | O => []
  | S n => match pop b with Some (d, _, b) => d :: pops n b | None => [] end
  end.

(** A packet between two playout positions is never played: it stays the smallest key, its gap
    is negative, and every later loss is concealed although a packet far ahead is waiting; without
    it the buffer skips to that packet. *)
Example stale_packet_blocks :
  let before := [JPush 0 1 0 [1]; JPush 1 2 240 [2]; JPush 2 3 480 [3]; JPop; JPop; JPop; JPop] in
  option_map (fun lb => (pops 50 lb.2, size (packets lb.2)))
    (jrun (jb_new default_config) (before ++ [JPush 3 4 100080 [4]])) = Some (replicate 50 Conceal, 2%nat) /\
  option_map (fun lb => pops 2 lb.2)
    (jrun (jb_new default_config) ([JPush 0 1 0 [1]; JPush 2 3 480 [3]; JPush 2 3 320 [3];
       JPop; JPop; JPop; JPop] ++ [JPush 3 4 100080 [4]])) = Some [Accelerate; Conceal].
Proof. by vm_compute. Qed.

(** After skipping ahead the playout position is the packet just played, so a copy of that packet
    is accepted and played again. *)
Example accelerate_replays :
  option_map (fun lb => played lb.1)
    (jrun (jb_new default_config) [JPush 0 1 0 [1]; JPush 0 2 160 [2]; JPush 0 3 320 [3]; JPop; JPop; JPop;
       JPush 0 4 9600 [4]; JPop; JPush 0 4 9600 [4]; JPop]) = Some [[1]; [2]; [3]; [4]; [4]].
Proof. by vm_compute. Qed.
