(* ===== verification/Rtcp.v ===== *)
(** * RTCP ([rtp/rtcp.rs])

    The packet types of RFC 3550, RFC 4585, RFC 5104 and REMB with their codecs, and the compound
    packet.  Bytes are integers; a [String] is the list of its bytes; a parser returns [None]
    where the code would panic (a read past the end, a slice out of range). *)

From stdpp Require Import sorting.
From S2P Require Import Prelude RtpPacket.

Local Open Scope Z_scope.

(** ** Errors and panics *)

Inductive RtcpParseError : Type :=
| RTooShort (n : Z)
| RInvalidVersion (v : Z)
| UnknownPacketType (pt : Z)
| InvalidReportCount.

Definition parsed (A : Type) : Type := option (result A RtcpParseError).

Definition pbind {A B} (x : parsed A) (k : A -> parsed B) : parsed B :=
  match x with
  | Some (Ok a) => k a
  | Some (Err e) => Some (Err e)
  | None => None
  end.

Definition pok {A} (a : A) : parsed A := Some (Ok a).
Definition perr {A} (e : RtcpParseError) : parsed A := Some (Err e).

(** A read that panics at the end of the buffer. *)
Definition pget {A} (o : option A) : parsed A := match o with Some a => pok a | None => None end.

Notation "'let!' x ':=' e 'in' k" := (pbind e (fun x => k))
  (at level 10, x pattern, e at level 100, k at level 200) : rust_scope.

(** ** The common header *)

Inductive RtcpType : Type :=
| TSenderReport | TReceiverReport | TSourceDescription | TGoodbye | TApplicationDefined
| TTransportFeedback | TPayloadFeedback.

Definition type_code (t : RtcpType) : Z :=
  match t with
  | TSenderReport => 200 | TReceiverReport => 201 | TSourceDescription => 202 | TGoodbye => 203
  | TApplicationDefined => 204 | TTransportFeedback => 205 | TPayloadFeedback => 206
  end.

#[export] Instance rtcp_type_eq : EqDecision RtcpType.
Proof. solve_decision. Defined.

Definition type_of (v : Z) : option RtcpType :=
  if v =? 200 then Some TSenderReport else if v =? 201 then Some TReceiverReport
  else if v =? 202 then Some TSourceDescription else if v =? 203 then Some TGoodbye
  else if v =? 204 then Some TApplicationDefined else if v =? 205 then Some TTransportFeedback
  else if v =? 206 then Some TPayloadFeedback else None.

Record RtcpHeader : Type := mkHeader {
  h_version : Z;
  h_padding : bool;
  h_count : Z;
  h_type : RtcpType;
  h_length : Z
}.

Definition header_parse (data : list Z) : parsed (RtcpHeader * list Z) :=
  match data with
  | b0 :: b1 :: b2 :: b3 :: rest =>
      let version := first_version b0 in
      if negb (version =? 2) then perr (RInvalidVersion version) else
      match type_of b1 with
      | None => perr (UnknownPacketType b1)
      | Some t => pok (mkHeader version (first_padding b0) (Z.land b0 31) t (256 * b2 + b3), rest)
      end
  | _ => perr (RTooShort (zlen data))
  end.

Definition header_build (h : RtcpHeader) : list Z :=
  [Z.lor (Z.lor (wrap 8 (Z.shiftl (h_version h) 6)) (wrap 8 (Z.shiftl (bit (h_padding h)) 5)))
     (Z.land (h_count h) 31); type_code (h_type h)] ++ put_u16 (h_length h).

(** The header every [build] writes. *)
Definition header_of (count : Z) (t : RtcpType) (length : Z) : list Z :=
  header_build (mkHeader 2 false count t length).

(** ** NTP timestamps *)

Record NtpTimestamp : Type := mkNtp { seconds : Z; fraction : Z }.

Definition NTP_UNIX_OFFSET : Z := 2208988800.

(** [now] with the time since the Unix epoch in nanoseconds. *)
Definition ntp_now (since_epoch : Z) : NtpTimestamp :=
  mkNtp (wrap 32 (since_epoch / 1000000000 + NTP_UNIX_OFFSET))
    (wrap 32 (Z.shiftl (since_epoch mod 1000000000) 32 / 1000000000)).

Definition compact (t : NtpTimestamp) : Z :=
  Z.lor (wrap 32 (Z.shiftl (Z.land (seconds t) 65535) 16)) (Z.land (Z.shiftr (fraction t) 16) 65535).

Definition from_compact (c : Z) : NtpTimestamp :=
  mkNtp (Z.land (Z.shiftr c 16) 65535) (wrap 32 (Z.shiftl (Z.land c 65535) 16)).

(** ** Reports *)

Record ReportBlock : Type := mkBlock {
  rb_ssrc : Z;
  fraction_lost : Z;
  cumulative_lost : Z;
  extended_seq : Z;
  rb_jitter : Z;
  last_sr : Z;
  delay_since_sr : Z
}.

#[export] Instance block_eta : Settable ReportBlock := fun x =>
  mkBlock (rb_ssrc x) (fraction_lost x) (cumulative_lost x) (extended_seq x) (rb_jitter x)
    (last_sr x) (delay_since_sr x).

Definition BLOCK_SIZE : Z := 24.

(** [i32::from_be_bytes([0, b1, b2, b3]) >> 8], as it is written. *)
Definition block_parse (data : list Z) : parsed ReportBlock :=
  if zlen data <? BLOCK_SIZE then perr (RTooShort (zlen data)) else
  let! (ssrc, buf) := pget (get_u32 data) in
  let! (fraction, buf) := pget (get_u8 buf) in
  let! (b1, buf) := pget (get_u8 buf) in
  let! (b2, buf) := pget (get_u8 buf) in
  let! (b3, buf) := pget (get_u8 buf) in
  let cumulative := Z.shiftr (65536 * b1 + 256 * b2 + b3) 8 in
  let! (ext, buf) := pget (get_u32 buf) in
  let! (jitter, buf) := pget (get_u32 buf) in
  let! (sr, buf) := pget (get_u32 buf) in
  let! (delay, buf) := pget (get_u32 buf) in
  pok (mkBlock ssrc fraction cumulative ext jitter sr delay).

(** [cumulative_lost.to_be_bytes()] from the second byte on. *)
Definition lost_bytes (z : Z) : list Z := drop 1 (put_u32 (wrap 32 z)).

Definition block_build (b : ReportBlock) : list Z :=
  put_u32 (rb_ssrc b) ++ [fraction_lost b] ++ lost_bytes (cumulative_lost b) ++
  put_u32 (extended_seq b) ++ put_u32 (rb_jitter b) ++ put_u32 (last_sr b) ++ put_u32 (delay_since_sr b).

Fixpoint blocks_parse (n : nat) (buf : list Z) : parsed (list ReportBlock) :=
  match n with
  | O => pok []
  | S n =>
      if zlen buf <? BLOCK_SIZE then perr InvalidReportCount else
      let! (data, buf) := pget (split_to BLOCK_SIZE buf) in
      let! block := match block_parse data with Some (Ok b) => pok b | _ => None end in
      let! blocks := blocks_parse n buf in
      pok (block :: blocks)
  end.

Record SenderReport : Type := mkSR {
  sr_ssrc : Z;
  ntp_timestamp : NtpTimestamp;
  rtp_timestamp : Z;
  sender_packet_count : Z;
  sender_octet_count : Z;
  sr_blocks : list ReportBlock
}.

Definition sr_parse (data : list Z) : parsed SenderReport :=
  let! (header, rest) := header_parse data in
  if negb (bool_decide (h_type header = TSenderReport))
  then perr (UnknownPacketType (type_code (h_type header))) else
  if zlen rest <? 24 then perr (RTooShort (zlen rest)) else
  let! (ssrc, buf) := pget (get_u32 rest) in
  let! (secs, buf) := pget (get_u32 buf) in
  let! (frac, buf) := pget (get_u32 buf) in
  let! (ts, buf) := pget (get_u32 buf) in
  let! (pc, buf) := pget (get_u32 buf) in
  let! (oc, buf) := pget (get_u32 buf) in
  let! blocks := blocks_parse (Z.to_nat (h_count header)) buf in
  pok (mkSR ssrc (mkNtp secs frac) ts pc oc blocks).

Definition sr_build (r : SenderReport) : list Z :=
  let report_count := Z.min (zlen (sr_blocks r)) 31 in
  header_of report_count TSenderReport (6 + report_count * 6) ++
  put_u32 (sr_ssrc r) ++ put_u32 (seconds (ntp_timestamp r)) ++ put_u32 (fraction (ntp_timestamp r)) ++
  put_u32 (rtp_timestamp r) ++ put_u32 (sender_packet_count r) ++ put_u32 (sender_octet_count r) ++
  concat (map block_build (sr_blocks r)).

Record ReceiverReport : Type := mkRR { rr_ssrc : Z; rr_blocks : list ReportBlock }.

Definition rr_parse (data : list Z) : parsed ReceiverReport :=
  let! (header, rest) := header_parse data in
  if negb (bool_decide (h_type header = TReceiverReport))
  then perr (UnknownPacketType (type_code (h_type header))) else
  if zlen rest <? 4 then perr (RTooShort (zlen rest)) else
  let! (ssrc, buf) := pget (get_u32 rest) in
  let! blocks := blocks_parse (Z.to_nat (h_count header)) buf in
  pok (mkRR ssrc blocks).

Definition rr_build (r : ReceiverReport) : list Z :=
  let report_count := Z.min (zlen (rr_blocks r)) 31 in
  header_of report_count TReceiverReport (1 + report_count * 6) ++
  put_u32 (rr_ssrc r) ++ concat (map block_build (rr_blocks r)).

(** ** [String::from_utf8_lossy] *)

Definition byte_in (lo hi b : Z) : bool := (lo <=? b) && (b <=? hi).

(** [safe_get(i) & 192 == TAG_CONT_U8], where a missing byte counts as 0. *)
Definition cont_at (l : list Z) : bool := match l with b :: _ => byte_in 128 191 b | [] => false end.
Definition second_in (lo hi : Z) (l : list Z) : bool :=
  match l with b :: _ => byte_in lo hi b | [] => false end.

(** The next character: whether it is well-formed, and how many bytes it, or the malformed
    sequence, takes. *)
Definition utf8_chunk (b : Z) (r : list Z) : bool * nat :=
  if b <? 128 then (true, 1%nat) else
  if byte_in 194 223 b then if cont_at r then (true, 2%nat) else (false, 1%nat) else
  if byte_in 224 239 b then
    if (if b =? 224 then second_in 160 191 r else if b =? 237 then second_in 128 159 r
        else second_in 128 191 r)
    then if cont_at (drop 1 r) then (true, 3%nat) else (false, 2%nat)
    else (false, 1%nat) else
  if byte_in 240 244 b then
    if (if b =? 240 then second_in 144 191 r else if b =? 244 then second_in 128 143 r
        else second_in 128 191 r)
    then if cont_at (drop 1 r)
         then if cont_at (drop 2 r) then (true, 4%nat) else (false, 3%nat)
         else (false, 2%nat)
    else (false, 1%nat)
  else (false, 1%nat).

Definition REPLACEMENT : list Z := [239; 191; 189].

(** [skip] counts the bytes left of the sequence that is being copied or replaced. *)
Fixpoint lossy (keep : bool) (skip : nat) (l : list Z) : list Z :=
  match l with
  | [] => []
  | b :: r =>
      match skip with
      | S k => if keep then b :: lossy keep k r else lossy keep k r
      | O =>
          let '(ok, n) := utf8_chunk b r in
          if ok then b :: lossy true (n - 1) r else REPLACEMENT ++ lossy false (n - 1) r
      end
  end.

Definition from_utf8_lossy (l : list Z) : list Z := lossy true 0 l.

(** ** Source descriptions *)

Inductive SdesType : Type := End | CName | Name | Email | Phone | Location | Tool | Note | Private.

Definition sdes_code (t : SdesType) : Z :=
  match t with
  | End => 0 | CName => 1 | Name => 2 | Email => 3 | Phone => 4 | Location => 5 | Tool => 6 | Note => 7 | Private => 8
  end.

Definition sdes_type_of (v : Z) : option SdesType :=
  if v =? 1 then Some CName else if v =? 2 then Some Name else if v =? 3 then Some Email
  else if v =? 4 then Some Phone else if v =? 5 then Some Location else if v =? 6 then Some Tool
  else if v =? 7 then Some Note else if v =? 8 then Some Private else None.

Record SdesItem : Type := mkItem { item_type : SdesType; item_value : list Z }.
Record SdesChunk : Type := mkChunk { chunk_ssrc : Z; items : list SdesItem }.
Record SourceDescription : Type := mkSdes { chunks : list SdesChunk }.

Definition with_cname (ssrc : Z) (cname : list Z) : SourceDescription :=
  mkSdes [mkChunk ssrc [mkItem CName cname]].

(** The items of a chunk up to the terminating zero; each takes at least one byte. *)
Fixpoint items_parse (fuel : nat) (buf : list Z) : parsed (list SdesItem * list Z) :=
  match fuel with
  | O => None
  | S fuel =>
      if zlen buf <? 1 then perr (RTooShort (zlen buf)) else
      let! (t, buf) := pget (get_u8 buf) in
      if t =? 0 then pok ([], buf) else
      if zlen buf <? 1 then perr (RTooShort (zlen buf)) else
      let! (len, buf) := pget (get_u8 buf) in
      if zlen buf <? len then perr (RTooShort (zlen buf)) else
      let! (value, buf) := pget (split_to len buf) in
      let! (l, buf) := items_parse fuel buf in
      pok (match sdes_type_of t with
           | Some t => mkItem t (from_utf8_lossy value) :: l
           | None => l
           end, buf)
  end.

(** The bytes missing to a multiple of four. *)
Definition pad_len (n : Z) : Z := (4 - n mod 4) mod 4.

Fixpoint chunks_parse (n : nat) (buf : list Z) : parsed (list SdesChunk) :=
  match n with
  | O => pok []
  | S n =>
      if zlen buf <? 4 then perr (RTooShort (zlen buf)) else
      let chunk_start := zlen buf in
      let! (ssrc, buf) := pget (get_u32 buf) in
      let! (its, buf) := items_parse (S (length buf)) buf in
      let pad := pad_len (chunk_start - zlen buf) in
      if zlen buf <? pad then perr (RTooShort (zlen buf)) else
      let! (_, buf) := pget (split_to pad buf) in
      let! cs := chunks_parse n buf in
      pok (mkChunk ssrc its :: cs)
  end.

Definition sdes_packet_parse (data : list Z) : parsed SourceDescription :=
  let! (header, rest) := header_parse data in
  if negb (bool_decide (h_type header = TSourceDescription))
  then perr (UnknownPacketType (type_code (h_type header))) else
  let declared := h_length header * 4 in
  if zlen rest <? declared then perr (RTooShort (zlen rest)) else
  let! (buf, _) := pget (split_to declared rest) in
  let! cs := chunks_parse (Z.to_nat (h_count header)) buf in
  pok (mkSdes cs).

(** [while !buf.len().is_multiple_of(4) { put_u8(0) }] *)
Definition pad4 (buf : list Z) : list Z := buf ++ replicate (Z.to_nat (pad_len (zlen buf))) 0.

Definition item_build (i : SdesItem) : list Z :=
  [sdes_code (item_type i); wrap 8 (zlen (item_value i))] ++ item_value i.

Definition chunk_build (buf : list Z) (c : SdesChunk) : list Z :=
  pad4 (buf ++ put_u32 (chunk_ssrc c) ++ concat (map item_build (items c)) ++ [0]).

Definition sdes_packet_build (s : SourceDescription) : list Z :=
  let buf := foldl chunk_build [0; 0; 0; 0] (chunks s) in
  let chunk_count := Z.min (zlen (chunks s)) 31 in
  let length := wrap 16 ((zlen buf - 4) / 4) in
  [Z.lor 128 chunk_count; type_code TSourceDescription; Z.shiftr length 8; Z.land length 255] ++ drop 4 buf.

(** ** Goodbye *)

Record Goodbye : Type := mkBye { bye_ssrcs : list Z; reason : option (list Z) }.

Definition bye_new (ssrc : Z) : Goodbye := mkBye [ssrc] None.

Definition bye_parse (data : list Z) : parsed Goodbye :=
  let! (header, rest) := header_parse data in
  if negb (bool_decide (h_type header = TGoodbye))
  then perr (UnknownPacketType (type_code (h_type header))) else
  let declared := h_length header * 4 in
  if zlen rest <? declared then perr (RTooShort (zlen rest)) else
  let! (buf, _) := pget (split_to declared rest) in
  if zlen buf <? h_count header * 4 then perr (RTooShort (zlen buf)) else
  let! (ssrcs, buf) := pget (get_csrcs (Z.to_nat (h_count header)) buf) in
  if 1 <=? zlen buf then
    let! (len, buf) := pget (get_u8 buf) in
    if zlen buf <? len then perr (RTooShort (zlen buf)) else
    let! (value, _) := pget (split_to len buf) in
    pok (mkBye ssrcs (Some (from_utf8_lossy value)))
  else pok (mkBye ssrcs None).

(** [(n + 3) & !3] *)
Definition round4 (n : Z) : Z := (n + 3) / 4 * 4.

Definition bye_build (g : Goodbye) : list Z :=
  let ssrc_count := Z.min (zlen (bye_ssrcs g)) 31 in
  let content_len :=
    match reason g with
    | Some r => round4 (zlen (bye_ssrcs g) * 4 + (1 + zlen r))
    | None => zlen (bye_ssrcs g) * 4
    end in
  let buf := header_of ssrc_count TGoodbye (wrap 16 (content_len / 4)) ++
             concat (map put_u32 (bye_ssrcs g)) in
  match reason g with
  | Some r => pad4 (buf ++ [wrap 8 (zlen r)] ++ r)
  | None => buf
  end.

(** ** Feedback *)

Record NackEntry : Type := mkNackEntry { pid : Z; blp : Z }.

Definition nack_single (seq : Z) : NackEntry := mkNackEntry seq 0.

(** The bits of the sequence numbers that follow [pid]. *)
Definition blp_of (pid : Z) (seqs : list Z) : Z :=
  foldl (fun blp seq => let diff := wrap 16 (wrap 16 (seq - pid) - 1) in
           if diff <? 16 then Z.lor blp (wrap 16 (Z.shiftl 1 diff)) else blp) 0 seqs.

Definition from_sequences (seqs : list Z) : option NackEntry :=
  match seqs with
  | [] => None
  | pid :: rest => Some (mkNackEntry pid (blp_of pid rest))
  end.

Definition lost_sequences (n : NackEntry) : list Z :=
  pid n :: map (fun i => wrap 16 (pid n + (i + 1)))
    (List.filter (fun i => Z.land (Z.shiftr (blp n) i) 1 =? 1) (seqZ 0 16)).

Record Nack : Type := mkNack { nack_sender : Z; nack_media : Z; nacks : list NackEntry }.

Definition nack_new (sender media lost_seq : Z) : Nack := mkNack sender media [nack_single lost_seq].

(** One round of the grouping loop: what goes with [pid]. *)
Definition with_pid (pid seq : Z) : bool :=
  let diff := wrap 16 (seq - pid) in (0 <? diff) && (diff <=? 16).

Fixpoint group_lost (fuel : nat) (remaining : list Z) : list NackEntry :=
  match fuel, remaining with
  | S fuel, pid :: rest =>
      mkNackEntry pid (blp_of pid (List.filter (with_pid pid) rest)) ::
      group_lost fuel (List.filter (fun seq => negb (with_pid pid seq)) rest)
  | _, _ => []
  end.

Definition from_lost_packets (sender media : Z) (lost_seqs : list Z) : Nack :=
  let remaining := merge_sort Z.le lost_seqs in
  mkNack sender media (group_lost (length remaining) remaining).

Fixpoint nacks_parse (fuel : nat) (buf : list Z) : parsed (list NackEntry) :=
  match fuel with
  | O => None
  | S fuel =>
      if 4 <=? zlen buf then
        let! (pid, buf) := pget (get_u16 buf) in
        let! (blp, buf) := pget (get_u16 buf) in
        let! l := nacks_parse fuel buf in
        pok (mkNackEntry pid blp :: l)
      else pok []
  end.

(** The prefix the feedback parsers share: the header with its format number, two sources. *)
Definition feedback_parse (t : RtcpType) (fmt min_len : Z) (data : list Z) : parsed (Z * Z * list Z) :=
  let! (header, rest) := header_parse data in
  if negb (bool_decide (h_type header = t)) || negb (h_count header =? fmt)
  then perr (UnknownPacketType (type_code (h_type header))) else
  if zlen rest <? min_len then perr (RTooShort (zlen rest)) else
  let! (sender, buf) := pget (get_u32 rest) in
  let! (media, buf) := pget (get_u32 buf) in
  pok (sender, media, buf).

Definition nack_parse (data : list Z) : parsed Nack :=
  let! (sender, media, buf) := feedback_parse TTransportFeedback 1 8 data in
  let! l := nacks_parse (S (length buf)) buf in
  pok (mkNack sender media l).

Definition nack_build (n : Nack) : list Z :=
  header_of 1 TTransportFeedback (wrap 16 (2 + zlen (nacks n))) ++
  put_u32 (nack_sender n) ++ put_u32 (nack_media n) ++
  concat (map (fun e => put_u16 (pid e) ++ put_u16 (blp e)) (nacks n)).

Definition all_lost_sequences (n : Nack) : list Z := flat_map lost_sequences (nacks n).

Record Pli : Type := mkPli { pli_sender : Z; pli_media : Z }.

Definition pli_new (sender media : Z) : Pli := mkPli sender media.

Definition pli_parse (data : list Z) : parsed Pli :=
  let! (sender, media, _) := feedback_parse TPayloadFeedback 1 8 data in pok (mkPli sender media).

Definition pli_build (p : Pli) : list Z :=
  header_of 1 TPayloadFeedback 2 ++ put_u32 (pli_sender p) ++ put_u32 (pli_media p).

Record FirEntry : Type := mkFirEntry { fir_ssrc : Z; seq_nr : Z }.
Record Fir : Type := mkFir { fir_sender : Z; fir_media : Z; fir_entries : list FirEntry }.

Definition fir_new (sender target seq_nr : Z) : Fir := mkFir sender 0 [mkFirEntry target seq_nr].

Fixpoint firs_parse (fuel : nat) (buf : list Z) : parsed (list FirEntry) :=
  match fuel with
  | O => None
  | S fuel =>
      if 8 <=? zlen buf then
        let! (ssrc, buf) := pget (get_u32 buf) in
        let! (seq, buf) := pget (get_u8 buf) in
        let! (_, buf) := pget (get_u8 buf) in
        let! (_, buf) := pget (get_u16 buf) in
        let! l := firs_parse fuel buf in
        pok (mkFirEntry ssrc seq :: l)
      else pok []
  end.

Definition fir_parse (data : list Z) : parsed Fir :=
  let! (sender, media, buf) := feedback_parse TPayloadFeedback 4 8 data in
  let! l := firs_parse (S (length buf)) buf in
  pok (mkFir sender media l).

Definition fir_build (f : Fir) : list Z :=
  header_of 4 TPayloadFeedback (wrap 16 (2 + zlen (fir_entries f) * 2)) ++
  put_u32 (fir_sender f) ++ put_u32 (fir_media f) ++
  concat (map (fun e => put_u32 (fir_ssrc e) ++ [seq_nr e; 0] ++ put_u16 0) (fir_entries f)).

(** ** Receiver estimated maximum bitrate *)

Record Remb : Type := mkRemb { remb_sender : Z; remb_media : Z; bitrate : Z; remb_ssrcs : list Z }.

Definition UNIQUE_ID : list Z := [82; 69; 77; 66].

Definition remb_new (sender bitrate : Z) (ssrcs : list Z) : Remb := mkRemb sender 0 bitrate ssrcs.

(** At most [n] sources, as far as the buffer goes. *)
Fixpoint ssrcs_parse (n : nat) (buf : list Z) : parsed (list Z) :=
  match n with
  | O => pok []
  | S n =>
      if zlen buf <? 4 then pok [] else
      let! (s, buf) := pget (get_u32 buf) in
      let! l := ssrcs_parse n buf in
      pok (s :: l)
  end.

Definition remb_parse (data : list Z) : parsed Remb :=
  let! (sender, media, buf) := feedback_parse TPayloadFeedback 15 16 data in
  let! (unique_id, buf) := pget (split_to 4 buf) in
  if negb (bool_decide (unique_id = UNIQUE_ID)) then perr (UnknownPacketType 206) else
  let! (num_ssrc, buf) := pget (get_u8 buf) in
  let! (b13, buf) := pget (get_u8 buf) in
  let br_exp := Z.shiftr (Z.land b13 252) 2 in
  let! (b14, buf) := pget (get_u8 buf) in
  let! (b15, buf) := pget (get_u8 buf) in
  let mantissa := Z.lor (Z.lor (Z.shiftl (Z.land b13 3) 16) (Z.shiftl b14 8)) b15 in
  let bitrate := wrap 64 (Z.shiftl mantissa br_exp) in
  let! ssrcs := ssrcs_parse (Z.to_nat num_ssrc) buf in
  pok (mkRemb sender media bitrate ssrcs).

(** [64 - leading_zeros]: the number of bits of a positive number. *)
Definition bit_length (z : Z) : Z := Z.log2 z + 1.

Definition encode_bitrate (bitrate : Z) : Z * Z :=
  if bitrate =? 0 then (0, 0) else
  let bits := bit_length bitrate in
  if bits <=? 18 then (wrap 32 bitrate, 0)
  else let exp := bits - 18 in (Z.land (wrap 32 (Z.shiftr bitrate exp)) 262143, exp).

Definition remb_build (r : Remb) : list Z :=
  let ssrc_count := Z.min (zlen (remb_ssrcs r)) 255 in
  let '(mantissa, exp) := encode_bitrate (bitrate r) in
  header_of 15 TPayloadFeedback (wrap 16 (4 + ssrc_count)) ++
  put_u32 (remb_sender r) ++ put_u32 (remb_media r) ++ UNIQUE_ID ++
  [ssrc_count; Z.lor (wrap 8 (Z.shiftl exp 2)) (Z.land (wrap 8 (Z.shiftr mantissa 16)) 3)] ++
  put_u16 (Z.land mantissa 65535) ++
  concat (map put_u32 (take (Z.to_nat ssrc_count) (remb_ssrcs r))).

(** ** Compound packets *)

Inductive RtcpPacket : Type :=
| PSenderReport (r : SenderReport)
| PReceiverReport (r : ReceiverReport)
| PSourceDescription (s : SourceDescription)
| PGoodbye (g : Goodbye)
| PNack (n : Nack)
| PPli (p : Pli)
| PFir (f : Fir)
| PRemb (r : Remb)
| PUnknown (packet_type : Z) (bytes : list Z).

Definition packet_build (p : RtcpPacket) : list Z :=
  match p with
  | PSenderReport r => sr_build r
  | PReceiverReport r => rr_build r
  | PSourceDescription s => sdes_packet_build s
  | PGoodbye g => bye_build g
  | PNack n => nack_build n
  | PPli p => pli_build p
  | PFir f => fir_build f
  | PRemb r => remb_build r
  | PUnknown _ bytes => bytes
  end.

Definition compound_build (packets : list RtcpPacket) : list Z := concat (map packet_build packets).

Definition sender_compound (sr : SenderReport) (cname : list Z) : list RtcpPacket :=
  [PSenderReport sr; PSourceDescription (with_cname (sr_ssrc sr) cname)].

Definition receiver_compound (rr : ReceiverReport) (cname : list Z) : list RtcpPacket :=
  [PReceiverReport rr; PSourceDescription (with_cname (rr_ssrc rr) cname)].

Definition add_nack (n : Nack) (ps : list RtcpPacket) : list RtcpPacket := ps ++ [PNack n].
Definition add_pli (p : Pli) (ps : list RtcpPacket) : list RtcpPacket := ps ++ [PPli p].
Definition add_fir (f : Fir) (ps : list RtcpPacket) : list RtcpPacket := ps ++ [PFir f].
Definition add_remb (r : Remb) (ps : list RtcpPacket) : list RtcpPacket := ps ++ [PRemb r].

Inductive CompoundError : Type :=
| Truncated
| BadVersion
| PacketError (e : RtcpParseError).

(** [map(Ctor)] and [map_err(|e| format!("{e}"))] *)
Definition as_packet {A} (c : A -> RtcpPacket) (x : parsed A) : option (result RtcpPacket CompoundError) :=
  match x with
  | Some (Ok a) => Some (Ok (c a))
  | Some (Err e) => Some (Err (PacketError e))
  | None => None
  end.

(** The packet of one slice of the compound. *)
Definition packet_parse (pt subtype : Z) (pkt : list Z) : option (result RtcpPacket CompoundError) :=
  if pt =? 200 then as_packet PSenderReport (sr_parse pkt)
  else if pt =? 201 then as_packet PReceiverReport (rr_parse pkt)
  else if pt =? 202 then as_packet PSourceDescription (sdes_packet_parse pkt)
  else if pt =? 203 then as_packet PGoodbye (bye_parse pkt)
  else if (pt =? 206) && (subtype =? 15) && (16 <=? zlen pkt) &&
          bool_decide (take 4 (drop 12 pkt) = UNIQUE_ID)
  then as_packet PRemb (remb_parse pkt)
  else Some (Ok (PUnknown pt pkt)).

Fixpoint compound_loop (fuel : nat) (remaining : list Z) : option (result (list RtcpPacket) CompoundError) :=
  match fuel with
  | O => None
  | S fuel =>
      match remaining with
      | [] => Some (Ok [])
      | b0 :: b1 :: b2 :: b3 :: _ =>
          if negb (first_version b0 =? 2) then Some (Err BadVersion) else
          let pkt_len := (256 * b2 + b3 + 1) * 4 in
          if zlen remaining <? pkt_len then Some (Err Truncated) else
          let* (pkt, rest) := split_to pkt_len remaining in
          let* r := packet_parse b1 (Z.land b0 31) pkt in
          match r with
          | Err e => Some (Err e)
          | Ok p =>
              let* rs := compound_loop fuel rest in
              Some (let? ps := rs in Ok (p :: ps))
          end
      | _ => Some (Err Truncated)
      end
  end.

Definition compound_parse (data : list Z) : option (result (list RtcpPacket) CompoundError) :=
  compound_loop (S (length data)) data.

(** ** Parsing never panics *)

Definition bytes_ok (l : list Z) : Prop := Forall is_u8 l.

Lemma get_u8_total buf :
  bytes_ok buf -> 1 <= zlen buf ->
  exists b r, get_u8 buf = Some (b, r) /\ is_u8 b /\ bytes_ok r /\ zlen r = zlen buf - 1.
Proof.
  intros H Hl. destruct buf as [|b r]; [done|]. inversion H; subst. exists b, r.
  rewrite zlen_cons. split_and!; [done|done|done|lia].
Qed.

Lemma get_u16_total buf :
  bytes_ok buf -> 2 <= zlen buf ->
  exists z r, get_u16 buf = Some (z, r) /\ bytes_ok r /\ zlen r = zlen buf - 2.
Proof.
  intros H Hl. unfold get_u16. destruct (get_u8_total buf) as (a & r & -> & _ & Hr & Lr); [done|lia|].
  cbn [mbind option_bind]. destruct (get_u8_total r) as (b & r' & -> & _ & Hr' & Lr'); [done|lia|].
  cbn [mbind option_bind]. eexists _, _. split_and!; [done|done|lia].
Qed.

Lemma get_u32_total buf :
  bytes_ok buf -> 4 <= zlen buf ->
  exists z r, get_u32 buf = Some (z, r) /\ bytes_ok r /\ zlen r = zlen buf - 4.
Proof.
  intros H Hl. unfold get_u32. destruct (get_u16_total buf) as (a & r & -> & Hr & Lr); [done|lia|].
  cbn [mbind option_bind]. destruct (get_u16_total r) as (b & r' & -> & Hr' & Lr'); [done|lia|].
  cbn [mbind option_bind]. eexists _, _. split_and!; [done|done|lia].
Qed.

Lemma split_to_total n buf :
  bytes_ok buf -> 0 <= n <= zlen buf ->
  exists a r, split_to n buf = Some (a, r) /\ bytes_ok a /\ bytes_ok r /\ zlen a = n /\ zlen r = zlen buf - n.
Proof.
  intros H Hn. unfold split_to. destruct (Z.ltb_spec (zlen buf) n); [lia|].
  exists (take (Z.to_nat n) buf), (drop (Z.to_nat n) buf). unfold zlen, bytes_ok in *.
  split_and!; [done|by apply Forall_take|by apply Forall_drop| |]; rewrite ?length_take, ?length_drop; lia.
Qed.

(** A parser that returns, and what it leaves. *)
Definition returns {A} (x : parsed A) (P : A -> Prop) : Prop :=
  exists r, x = Some r /\ forall a, r = Ok a -> P a.

Lemma returns_pok {A} (a : A) (P : A -> Prop) : P a -> returns (pok a) P.
Proof. intros H. exists (Ok a). split; [done|]. by intros a' [= <-]. Qed.

Lemma returns_perr {A} e (P : A -> Prop) : returns (perr e) P.
Proof. by exists (Err e). Qed.

Lemma returns_bind {A B} (x : parsed A) (k : A -> parsed B) (P : A -> Prop) (Q : B -> Prop) :
  returns x P -> (forall a, P a -> returns (k a) Q) -> returns (pbind x k) Q.
Proof.
  intros (r & -> & HP) HK. destruct r as [a|e]; simpl; [|apply returns_perr]. by apply HK, HP.
Qed.

Lemma returns_get {A B} (o : option A) (k : A -> parsed B) (P : A -> Prop) (Q : B -> Prop) :
  (exists a, o = Some a /\ P a) -> (forall a, P a -> returns (k a) Q) -> returns (pbind (pget o) k) Q.
Proof. intros (a & -> & Ha) HK. simpl. by apply HK. Qed.

Lemma returns_weaken {A} (x : parsed A) (P Q : A -> Prop) :
  returns x P -> (forall a, P a -> Q a) -> returns x Q.
Proof. intros (r & -> & H) HQ. exists r. split; [done|]. intros a E. by apply HQ, H. Qed.

(** Stepping over one read of the code. *)

Lemma returns_u32 {B} buf (k : Z * list Z -> parsed B) Q :
  bytes_ok buf -> 4 <= zlen buf ->
  (forall z r, bytes_ok r -> zlen r = zlen buf - 4 -> returns (k (z, r)) Q) ->
  returns (pbind (pget (get_u32 buf)) k) Q.
Proof. intros H L HK. destruct (get_u32_total buf H L) as (z & r & -> & Hr & Lr). by apply HK. Qed.

Lemma returns_u16 {B} buf (k : Z * list Z -> parsed B) Q :
  bytes_ok buf -> 2 <= zlen buf ->
  (forall z r, bytes_ok r -> zlen r = zlen buf - 2 -> returns (k (z, r)) Q) ->
  returns (pbind (pget (get_u16 buf)) k) Q.
Proof. intros H L HK. destruct (get_u16_total buf H L) as (z & r & -> & Hr & Lr). by apply HK. Qed.

Lemma returns_u8 {B} buf (k : Z * list Z -> parsed B) Q :
  bytes_ok buf -> 1 <= zlen buf ->
  (forall z r, is_u8 z -> bytes_ok r -> zlen r = zlen buf - 1 -> returns (k (z, r)) Q) ->
  returns (pbind (pget (get_u8 buf)) k) Q.
Proof. intros H L HK. destruct (get_u8_total buf H L) as (z & r & -> & Hz & Hr & Lr). by apply HK. Qed.

Lemma returns_split {B} n buf (k : list Z * list Z -> parsed B) Q :
  bytes_ok buf -> 0 <= n <= zlen buf ->
  (forall a r, bytes_ok a -> bytes_ok r -> zlen a = n -> zlen r = zlen buf - n -> returns (k (a, r)) Q) ->
  returns (pbind (pget (split_to n buf)) k) Q.
Proof.
  intros H L HK. destruct (split_to_total n buf H L) as (a & r & -> & Ha & Hr & La & Lr). by apply HK.
Qed.

Ltac read_step :=
  first [ apply returns_pok | apply returns_perr
        | apply returns_u32; [assumption|lia|intros]
        | apply returns_u16; [assumption|lia|intros]
        | apply returns_u8; [assumption|lia|intros]
        | apply returns_split; [assumption|lia|intros] ].

Ltac length_test :=
  match goal with
  | |- returns (if (zlen ?b <? ?n) then _ else _) _ => destruct (Z.ltb_spec (zlen b) n); [apply returns_perr|]
  | |- returns (if (?n <=? zlen ?b) then _ else _) _ => destruct (Z.leb_spec n (zlen b))
  end.

Definition yes {A} : A -> Prop := fun _ => True.

Lemma block_parse_exact data : bytes_ok data -> 24 <= zlen data -> exists b, block_parse data = pok b.
Proof.
  intros H L. unfold block_parse, BLOCK_SIZE. destruct (Z.ltb_spec (zlen data) 24); [lia|].
  destruct (get_u32_total data) as (? & r1 & -> & ? & ?); [done|lia|]. cbn [pget pbind pok].
  destruct (get_u8_total r1) as (? & r2 & -> & ? & ? & ?); [done|lia|]. cbn [pget pbind pok].
  destruct (get_u8_total r2) as (? & r3 & -> & ? & ? & ?); [done|lia|]. cbn [pget pbind pok].
  destruct (get_u8_total r3) as (? & r4 & -> & ? & ? & ?); [done|lia|]. cbn [pget pbind pok].
  destruct (get_u8_total r4) as (? & r5 & -> & ? & ? & ?); [done|lia|]. cbn [pget pbind pok].
  destruct (get_u32_total r5) as (? & r6 & -> & ? & ?); [done|lia|]. cbn [pget pbind pok].
  destruct (get_u32_total r6) as (? & r7 & -> & ? & ?); [done|lia|]. cbn [pget pbind pok].
  destruct (get_u32_total r7) as (? & r8 & -> & ? & ?); [done|lia|]. cbn [pget pbind pok].
  destruct (get_u32_total r8) as (? & r9 & -> & ? & ?); [done|lia|]. cbn [pget pbind pok]. by eexists.
Qed.

Lemma blocks_parse_returns n buf : bytes_ok buf -> returns (blocks_parse n buf) yes.
Proof.
  revert buf. induction n as [|n IH]; intros buf H; simpl; [by read_step|].
  unfold BLOCK_SIZE. length_test. read_step. destruct (block_parse_exact a) as [b ->]; [done|lia|].
  simpl. eapply returns_bind; [by apply IH|]. intros. by read_step.
Qed.

Lemma header_parse_returns data :
  bytes_ok data ->
  returns (header_parse data) (fun x => bytes_ok x.2 /\ 0 <= h_length x.1 /\ 0 <= h_count x.1 /\ zlen x.2 = zlen data - 4).
Proof.
  intros H. unfold header_parse. destruct data as [|b0 [|b1 [|b2 [|b3 rest]]]]; try apply returns_perr.
  do 4 (inversion H as [|? ? ? H']; clear H; rename H' into H; subst).
  destruct (negb _); [apply returns_perr|]. destruct (type_of b1); [|apply returns_perr].
  apply returns_pok. simpl. unfold in_width in *. rewrite !zlen_cons.
  split_and!; [done|lia|apply Z.land_nonneg; lia|lia].
Qed.

(** Pass the header and the tests on it. *)
Ltac read_header :=
  eapply returns_bind; [apply header_parse_returns; eassumption|];
  let h := fresh "h" in intros [h rest] (? & ? & ? & ?); cbn [fst snd] in *;
  match goal with |- returns (if ?b then _ else _) _ => destruct b; [apply returns_perr|] end.

Lemma sr_parse_returns data : bytes_ok data -> returns (sr_parse data) yes.
Proof.
  intros H. unfold sr_parse. read_header. length_test. do 6 read_step.
  eapply returns_bind; [by apply blocks_parse_returns|]. intros. by read_step.
Qed.

Lemma rr_parse_returns data : bytes_ok data -> returns (rr_parse data) yes.
Proof.
  intros H. unfold rr_parse. read_header. length_test. read_step.
  eapply returns_bind; [by apply blocks_parse_returns|]. intros. by read_step.
Qed.

Lemma items_parse_returns fuel buf :
  bytes_ok buf -> (length buf < fuel)%nat ->
  returns (items_parse fuel buf) (fun x => bytes_ok x.2 /\ zlen x.2 <= zlen buf).
Proof.
  revert buf. induction fuel as [|fuel IH]; intros buf H Hf; [lia|]. cbn [items_parse].
  length_test. read_step. destruct (z =? 0); [apply returns_pok; simpl; split; [done|lia]|].
  length_test. read_step. length_test. match goal with H : is_u8 z0 |- _ => unfold in_width in H end.
  read_step. eapply returns_bind.
  - apply IH; [done|]. unfold zlen in *. lia.
  - intros [l buf'] [? ?]. apply returns_pok. simpl in *. split; [done|]. lia.
Qed.

Lemma chunks_parse_returns n buf : bytes_ok buf -> returns (chunks_parse n buf) yes.
Proof.
  revert buf. induction n as [|n IH]; intros buf H; cbn [chunks_parse]; [by read_step|].
  length_test. read_step. eapply returns_bind; [apply items_parse_returns; [done|lia]|].
  intros [its buf'] [? ?]. cbn [fst snd] in *. length_test.
  assert (0 <= pad_len (zlen buf - zlen buf')) by (unfold pad_len; pose proof (Z.mod_pos_bound (4 - (zlen buf - zlen buf') mod 4) 4); lia).
  read_step. eapply returns_bind; [by apply IH|]. intros. by read_step.
Qed.

Lemma sdes_parse_returns data : bytes_ok data -> returns (sdes_packet_parse data) yes.
Proof.
  intros H. unfold sdes_packet_parse. read_header. length_test. read_step.
  eapply returns_bind; [by apply chunks_parse_returns|]. intros. by read_step.
Qed.

Lemma get_csrcs_bytes n buf cs r : bytes_ok buf -> get_csrcs n buf = Some (cs, r) -> bytes_ok r.
Proof.
  intros H E. destruct (get_csrcs_inv n buf cs r H E) as (-> & _ & _). by apply Forall_app in H as [_ H].
Qed.

Lemma bye_parse_returns data : bytes_ok data -> returns (bye_parse data) yes.
Proof.
  intros H. unfold bye_parse. read_header. length_test. read_step. length_test.
  destruct (get_csrcs_total (Z.to_nat (h_count h)) a) as (cs & r' & E & _); [lia|].
  assert (bytes_ok r') by by apply (get_csrcs_bytes (Z.to_nat (h_count h)) a cs). rewrite E. cbn [pget pbind pok].
  length_test; [|by read_step]. read_step. length_test. match goal with H : is_u8 z |- _ => unfold in_width in H end.
  read_step. by read_step.
Qed.

Lemma feedback_parse_returns t fmt n data :
  bytes_ok data -> 8 <= n ->
  returns (feedback_parse t fmt n data) (fun x => bytes_ok x.2 /\ n - 8 <= zlen x.2).
Proof.
  intros H Hn. unfold feedback_parse. read_header. length_test. do 2 read_step.
  apply returns_pok. simpl. split; [done|lia].
Qed.

Lemma ssrcs_parse_returns n buf : bytes_ok buf -> returns (ssrcs_parse n buf) yes.
Proof.
  revert buf. induction n as [|n IH]; intros buf H; cbn [ssrcs_parse]; [by read_step|].
  destruct (Z.ltb_spec (zlen buf) 4); [by read_step|]. read_step.
  eapply returns_bind; [by apply IH|]. intros. by read_step.
Qed.

Lemma remb_parse_returns data : bytes_ok data -> returns (remb_parse data) yes.
Proof.
  intros H. unfold remb_parse. eapply returns_bind; [apply feedback_parse_returns; [done|lia]|].
  intros [[s m] buf] [? ?]. cbn [fst snd] in *. read_step. destruct (negb _); [apply returns_perr|].
  do 4 read_step. eapply returns_bind; [by apply ssrcs_parse_returns|]. intros. by read_step.
Qed.

(** ** The length field *)

(** Each packet of the compound is parsed on its own, on the slice its length field declares. *)
Inductive slices : list Z -> list RtcpPacket -> Prop :=
| slices_nil : slices [] []
| slices_cons b0 b1 b2 b3 body rest p ps :
    first_version b0 = 2 -> zlen body = (256 * b2 + b3) * 4 ->
    packet_parse b1 (Z.land b0 31) (b0 :: b1 :: b2 :: b3 :: body) = Some (Ok p) ->
    slices rest ps -> slices (b0 :: b1 :: b2 :: b3 :: body ++ rest) (p :: ps).

Lemma packet_parse_total pt sub pkt : bytes_ok pkt -> exists r, packet_parse pt sub pkt = Some r.
Proof.
  intros H. unfold packet_parse.
  assert (forall {A} (c : A -> RtcpPacket) x, returns x yes -> exists r, as_packet c x = Some r) as K.
  { intros A c x ([a|e] & -> & _); by eexists. }
  destruct (pt =? 200); [by apply K, sr_parse_returns|].
  destruct (pt =? 201); [by apply K, rr_parse_returns|].
  destruct (pt =? 202); [by apply K, sdes_parse_returns|].
  destruct (pt =? 203); [by apply K, bye_parse_returns|].
  destruct (_ && _); [by apply K, remb_parse_returns|by eexists].
Qed.

Lemma compound_loop_spec fuel data :
  bytes_ok data -> (length data < fuel)%nat ->
  exists r, compound_loop fuel data = Some r /\ forall ps, r = Ok ps -> slices data ps.
Proof.
  revert data. induction fuel as [|fuel IH]; intros data H Hf; [lia|]. cbn [compound_loop].
  destruct data as [|b0 [|b1 [|b2 [|b3 rest]]]]; try (eexists; split; [done|]; done).
  { eexists. split; [done|]. intros ps [= <-]. constructor. }
  destruct (Z.eqb_spec (first_version b0) 2) as [Hv|]; cbn [negb]; [|by eexists].
  set (data := b0 :: b1 :: b2 :: b3 :: rest) in *.
  destruct (Z.ltb_spec (zlen data) ((256 * b2 + b3 + 1) * 4)) as [|Hl]; [by eexists|].
  assert (is_u8 b2 /\ is_u8 b3) as [H2 H3].
  { unfold data in H. do 3 (inversion H as [|? ? ? H']; clear H; rename H' into H; subst). by inversion H. }
  unfold in_width in *.
  destruct (split_to_total ((256 * b2 + b3 + 1) * 4) data H) as (pkt & r & E & Hp & Hr & Lp & Lr); [lia|].
  rewrite E. cbn [mbind option_bind]. destruct (packet_parse_total b1 (Z.land b0 31) pkt Hp) as [x Ex].
  rewrite Ex. cbn [mbind option_bind]. destruct x as [p|e]; [|by eexists].
  assert (length r < fuel)%nat as Hlt by (unfold zlen in *; lia).
  destruct (IH r Hr Hlt) as (y & -> & Hy). cbn [mbind option_bind].
  eexists. split; [done|]. intros ps Eps. destruct y as [ps'|]; [|done]. simpl in Eps.
  injection Eps as <-. apply split_to_inv in E as [E _]; [|lia].
  assert (exists body, pkt = b0 :: b1 :: b2 :: b3 :: body /\ rest = body ++ r) as (body & -> & ->).
  { unfold data in E. destruct pkt as [|? [|? [|? [|? body]]]]; unfold zlen in Lp; simpl in Lp; try lia.
    exists body. simpl in E. injection E as <- <- <- <- ->. done. }
  apply slices_cons; [done| |done|by apply Hy]. rewrite !zlen_cons in Lp. lia.
Qed.

(** C21: parsing any bytes as a compound returns: no read past the end, no slice out of range, no
    endless loop, whatever lengths and counts the packets declare; and an accepted compound is the
    sequence of the slices its length fields declare, each parsed on its own. *)
Theorem rtcp_parse_total data :
  bytes_ok data ->
  exists r, compound_parse data = Some r /\ forall ps, r = Ok ps -> slices data ps.
Proof. intros H. apply compound_loop_spec; [done|lia]. Qed.

(** ** Negative acknowledgements *)

Definition nack_diff (pid seq : Z) : Z := wrap 16 (wrap 16 (seq - pid) - 1).

Lemma wrap16_range z : 0 <= wrap 16 z < 65536.
Proof. unfold wrap. apply Z.mod_pos_bound. lia. Qed.

Lemma land1_testbit b i : 0 <= i -> (Z.land (Z.shiftr b i) 1 =? 1) = Z.testbit b i.
Proof.
  intros Hi. change 1 with (Z.ones 1) at 1. rewrite Z.land_ones by lia. rewrite Z.shiftr_div_pow2 by lia.
  change (2 ^ 1) with 2. rewrite <- Z.testbit_spec' by lia. by destruct (Z.testbit b i).
Qed.

Lemma blp_of_testbit pid l i :
  0 <= i < 16 -> Z.testbit (blp_of pid l) i = existsb (fun seq => nack_diff pid seq =? i) l.
Proof.
  intros Hi. unfold blp_of.
  assert (forall acc, Z.testbit (foldl (fun blp seq => let diff := wrap 16 (wrap 16 (seq - pid) - 1) in
    if diff <? 16 then Z.lor blp (wrap 16 (Z.shiftl 1 diff)) else blp) acc l) i =
    Z.testbit acc i || existsb (fun seq => nack_diff pid seq =? i) l) as K.
  { induction l as [|seq l IH]; intros acc; cbn [foldl existsb]; [by rewrite orb_false_r|].
    rewrite IH. fold (nack_diff pid seq). cbn zeta.
    pose proof (wrap16_range (wrap 16 (seq - pid) - 1)) as Hd. fold (nack_diff pid seq) in Hd.
    destruct (Z.ltb_spec (nack_diff pid seq) 16) as [Hlt|Hge].
    - rewrite Z.lor_spec, Z.shiftl_1_l. unfold wrap. rewrite Z.mod_small.
      + rewrite Z.pow2_bits_eqb by lia. by rewrite orb_assoc.
      + split; [lia|]. apply Z.pow_lt_mono_r; lia.
    - destruct (Z.eqb_spec (nack_diff pid seq) i); [lia|]. done. }
  rewrite K. by rewrite Z.bits_0.
Qed.

Lemma nack_diff_add pid seq :
  is_u16 seq -> wrap 16 (pid + (nack_diff pid seq + 1)) = seq.
Proof.
  intros H. unfold in_width in H. unfold nack_diff, wrap.
  rewrite Zminus_mod_idemp_l, Z.add_assoc, (Z.add_comm pid), <- Z.add_assoc, Zplus_mod_idemp_l.
  replace (seq - pid - 1 + (pid + 1)) with seq by lia. by apply Z.mod_small.
Qed.

Lemma with_pid_diff pid seq : with_pid pid seq = true -> 0 <= nack_diff pid seq < 16.
Proof.
  unfold with_pid, nack_diff. intros [H1%Z.ltb_lt H2%Z.leb_le]%andb_prop.
  unfold wrap at 1 3. rewrite Z.mod_small; lia.
Qed.

Lemma lost_sequences_group pid l s :
  Forall is_u16 l -> Forall (fun seq => with_pid pid seq = true) l ->
  s ∈ lost_sequences (mkNackEntry pid (blp_of pid l)) <-> s = pid \/ s ∈ l.
Proof.
  intros Hu Hl. unfold lost_sequences. cbn [Rtcp.pid blp]. rewrite elem_of_cons.
  apply or_iff_compat_l. rewrite !list_elem_of_In, in_map_iff. rewrite Forall_forall in Hu, Hl. split.
  - intros (i & <- & Hin). apply filter_In in Hin as [Hi%list_elem_of_In%elem_of_seqZ Hb].
    rewrite land1_testbit, blp_of_testbit in Hb by lia.
    apply existsb_exists in Hb as (seq & Hin & <-%Z.eqb_eq).
    rewrite nack_diff_add; [done|]. by apply Hu, list_elem_of_In.
  - intros Hin. exists (nack_diff pid s). apply list_elem_of_In in Hin.
    pose proof (with_pid_diff pid s (Hl s Hin)) as Hd.
    split; [by apply nack_diff_add, Hu|]. apply filter_In. split; [apply list_elem_of_In, elem_of_seqZ; lia|].
    rewrite land1_testbit, blp_of_testbit by lia. apply existsb_exists. exists s.
    split; [by apply list_elem_of_In|by apply Z.eqb_refl].
Qed.

Lemma group_lost_spec fuel l s :
  Forall is_u16 l -> (length l <= fuel)%nat ->
  s ∈ flat_map lost_sequences (group_lost fuel l) <-> s ∈ l.
Proof.
  revert l. induction fuel as [|fuel IH]; intros l Hu Hf; [by destruct l; simpl in Hf; [|lia]|].
  destruct l as [|p l]; [done|]. inversion Hu as [|? ? Hp Hl]; subst. cbn [group_lost flat_map].
  pose proof (List.filter_length_le (fun seq => negb (with_pid p seq)) l) as Hle. simpl in Hf.
  assert (forall f, Forall is_u16 (List.filter f l)) as Hfil.
  { intros f. rewrite Forall_forall in *. intros x Hx%list_elem_of_In.
    apply filter_In in Hx as [Hx _]. by apply Hl, list_elem_of_In. }
  rewrite elem_of_app, IH by (done || lia). rewrite lost_sequences_group; [|done|].
  2:{ apply Forall_forall. intros x Hx%list_elem_of_In. by apply filter_In in Hx as [_ Hx]. }
  rewrite elem_of_cons, !list_elem_of_In, !filter_In.
  destruct (with_pid p s); simpl; intuition congruence.
Qed.

(** C22: a NACK made from a list of lost packets names exactly those packets: grouping into a base
    number and a mask of the sixteen following ones neither drops nor invents a sequence number,
    for lists in any order, with repetitions and across the wrap. *)
Theorem nack_exact sender media lost s :
  Forall is_u16 lost ->
  s ∈ all_lost_sequences (from_lost_packets sender media lost) <-> s ∈ lost.
Proof.
  intros H. unfold all_lost_sequences, from_lost_packets. cbn [nacks].
  rewrite group_lost_spec by first [by rewrite merge_sort_Permutation|done]. by rewrite merge_sort_Permutation.
Qed.

(** ** Building and parsing *)

Lemma count_byte_read c :
  0 <= c < 32 ->
  first_version (Z.lor 128 c) = 2 /\ first_padding (Z.lor 128 c) = false /\ Z.land (Z.lor 128 c) 31 = c.
Proof.
  intros H. assert (forallb (fun c => (first_version (Z.lor 128 c) =? 2) && negb (first_padding (Z.lor 128 c)) &&
    (Z.land (Z.lor 128 c) 31 =? c)) (seqZ 0 32) = true) as K by by vm_compute.
  rewrite forallb_forall in K. specialize (K c). rewrite <- list_elem_of_In, elem_of_seqZ in K.
  specialize (K ltac:(lia)). zbool. by split_and!.
Qed.

Lemma header_of_bytes c t l :
  0 <= c < 32 -> header_of c t l = [Z.lor 128 c; type_code t; l / 256; l mod 256].
Proof.
  intros H. unfold header_of, header_build, put_u16. cbn [h_version h_padding h_count h_type h_length app].
  change (Z.lor (wrap 8 (Z.shiftl 2 6)) (wrap 8 (Z.shiftl (bit false) 5))) with 128.
  change 31 with (Z.ones 5). rewrite Z.land_ones by lia. by rewrite Z.mod_small by lia.
Qed.

Lemma type_of_code t : type_of (type_code t) = Some t.
Proof. by destruct t. Qed.

Lemma header_roundtrip c t l r :
  0 <= c < 32 -> header_parse (header_of c t l ++ r) = pok (mkHeader 2 false c t l, r).
Proof.
  intros H. rewrite header_of_bytes by done. destruct (count_byte_read c H) as (Hv & Hp & Hc).
  unfold header_parse. cbn [app]. rewrite Hv, Hp, Hc, type_of_code. cbn [negb Z.eqb Pos.eqb].
  by rewrite <- Z_div_mod_eq_full.
Qed.

Lemma pget_u32 {B} z r (k : Z * list Z -> parsed B) : pbind (pget (get_u32 (put_u32 z ++ r))) k = k (z, r).
Proof. by rewrite get_put_u32. Qed.

Lemma pget_u16 {B} z r (k : Z * list Z -> parsed B) : pbind (pget (get_u16 (put_u16 z ++ r))) k = k (z, r).
Proof. by rewrite get_put_u16. Qed.

Lemma pget_split {B} l r n (k : list Z * list Z -> parsed B) :
  n = zlen l -> pbind (pget (split_to n (l ++ r))) k = k (l, r).
Proof. intros ->. by rewrite split_to_app. Qed.

Lemma zlen_put_u32 z : zlen (put_u32 z) = 4.
Proof. done. Qed.

(** What a receiver reads from a report block: the code drops the low byte of the cumulative loss. *)
Definition wire_block (b : ReportBlock) : ReportBlock :=
  b <| cumulative_lost := cumulative_lost b mod 2 ^ 24 / 256 |>.

Lemma lost_bytes_read z :
  exists b1 b2 b3, lost_bytes z = [b1; b2; b3] /\ Z.shiftr (65536 * b1 + 256 * b2 + b3) 8 = z mod 2 ^ 24 / 256.
Proof.
  eexists _, _, _. split; [done|]. rewrite Z.shiftr_div_pow2 by lia. change (2 ^ 8) with 256. f_equal.
  unfold wrap. replace (z mod 2 ^ 24) with ((z mod 2 ^ 32) mod 2 ^ 24).
  2:{ change (2 ^ 32) with (2 ^ 24 * 256). rewrite Z.rem_mul_r by lia.
      rewrite Z.mul_comm, Z_mod_plus_full, Z.mod_mod by lia. done. }
  set (w := z mod 2 ^ 32).
  pose proof (Z_div_mod_eq_full w 65536). pose proof (Z_div_mod_eq_full (w / 65536) 256).
  pose proof (Z_div_mod_eq_full (w mod 65536) 256).
  pose proof (Z.mod_pos_bound w 65536). pose proof (Z.mod_pos_bound (w / 65536) 256).
  pose proof (Z.mod_pos_bound (w mod 65536) 256).
  apply (Z.mod_unique_pos w (2 ^ 24) (w / 65536 / 256)); lia.
Qed.

Lemma block_roundtrip b : block_parse (block_build b) = pok (wire_block b).
Proof.
  unfold block_parse. destruct (lost_bytes_read (cumulative_lost b)) as (b1 & b2 & b3 & E & Ez).
  unfold block_build. rewrite E. change (zlen _ <? BLOCK_SIZE) with false. cbn iota.
  rewrite pget_u32. cbn [app get_u8 pget pbind pok]. rewrite Ez.
  rewrite !pget_u32. by rewrite <- (app_nil_r (put_u32 (delay_since_sr b))), pget_u32.
Qed.

Lemma zlen_block b : zlen (block_build b) = 24.
Proof. done. Qed.

Lemma blocks_roundtrip l : blocks_parse (length l) (concat (map block_build l)) = pok (map wire_block l).
Proof.
  induction l as [|b l IH]; [done|]. cbn [length map concat blocks_parse].
  rewrite zlen_app, zlen_block. destruct (Z.ltb_spec (24 + zlen (concat (map block_build l))) BLOCK_SIZE) as [H|_].
  { pose proof (zlen_nonneg (concat (map block_build l))). unfold BLOCK_SIZE in H. lia. }
  rewrite pget_split by done. rewrite block_roundtrip. cbn [pbind pok]. by rewrite IH.
Qed.

Lemma zlen_blocks l : zlen (concat (map block_build l)) = 24 * zlen l.
Proof. induction l as [|b l IH]; [done|]. cbn [map concat]. rewrite zlen_app, zlen_cons, zlen_block, IH. lia. Qed.

(** A packet whose length field is right and which parses on its own. *)
Definition framed (data : list Z) (q : RtcpPacket) : Prop :=
  exists c t l body, 0 <= c < 32 /\ data = header_of c t l ++ body /\ zlen body = l * 4 /\
    packet_parse (type_code t) c data = Some (Ok q).

Lemma sr_framed r :
  zlen (sr_blocks r) <= 31 ->
  framed (sr_build r) (PSenderReport (mkSR (sr_ssrc r) (ntp_timestamp r) (rtp_timestamp r)
    (sender_packet_count r) (sender_octet_count r) (map wire_block (sr_blocks r)))).
Proof.
  intros H. pose proof (zlen_nonneg (sr_blocks r)) as H0. unfold sr_build. rewrite Z.min_l by done.
  eexists _, _, _, _. split; [|split; [done|]]; [lia|]. rewrite !zlen_app, zlen_blocks, !zlen_put_u32.
  split; [lia|]. unfold packet_parse. cbn [type_code Z.eqb Pos.eqb]. unfold sr_parse.
  rewrite header_roundtrip by lia. cbn [pbind pok h_type h_count]. rewrite bool_decide_true by done. cbn [negb].
  rewrite !zlen_app, zlen_blocks, !zlen_put_u32. destruct (Z.ltb_spec (4 + (4 + (4 + (4 + (4 + (4 + 24 * zlen (sr_blocks r))))))) 24); [lia|].
  rewrite !pget_u32. unfold zlen. rewrite Nat2Z.id, blocks_roundtrip. simpl.
  by destruct (ntp_timestamp r).
Qed.

Lemma rr_framed r :
  zlen (rr_blocks r) <= 31 ->
  framed (rr_build r) (PReceiverReport (mkRR (rr_ssrc r) (map wire_block (rr_blocks r)))).
Proof.
  intros H. pose proof (zlen_nonneg (rr_blocks r)) as H0. unfold rr_build. rewrite Z.min_l by done.
  eexists _, _, _, _. split; [|split; [done|]]; [lia|]. rewrite !zlen_app, zlen_blocks, !zlen_put_u32.
  split; [lia|]. unfold packet_parse. cbn [type_code Z.eqb Pos.eqb]. unfold rr_parse.
  rewrite header_roundtrip by lia. cbn [pbind pok h_type h_count]. rewrite bool_decide_true by done. cbn [negb].
  rewrite !zlen_app, zlen_blocks, !zlen_put_u32. destruct (Z.ltb_spec (4 + 24 * zlen (rr_blocks r)) 4); [lia|].
  rewrite !pget_u32. unfold zlen. by rewrite Nat2Z.id, blocks_roundtrip.
Qed.

(** *** Source descriptions *)

Definition text_ok (v : list Z) : Prop := zlen v <= 255 /\ from_utf8_lossy v = v.

(** An item of the type that ends the list would end it for the reader. *)
Definition item_ok (i : SdesItem) : Prop := item_type i <> End /\ text_ok (item_value i).

Lemma item_code_read t : t <> End -> (sdes_code t =? 0) = false /\ sdes_type_of (sdes_code t) = Some t.
Proof. by destruct t. Qed.

Lemma items_roundtrip l r fuel :
  Forall item_ok l -> (length (concat (map item_build l)) < fuel)%nat ->
  items_parse fuel (concat (map item_build l) ++ 0 :: r) = pok (l, r).
Proof.
  intros H. revert fuel. induction H as [|i l [Hne [Hl Hv]] Hls IH]; intros fuel Hf.
  - destruct fuel as [|fuel]; [lia|]. cbn [map concat app items_parse]. rewrite zlen_cons.
    pose proof (zlen_nonneg r). by destruct (Z.ltb_spec (1 + zlen r) 1); [lia|].
  - cbn [map concat] in *. rewrite length_app in Hf. unfold item_build in Hf at 1. cbn [length app] in Hf.
    destruct fuel as [|fuel]; [lia|]. unfold item_build at 1. cbn [app]. rewrite <- app_assoc.
    cbn [items_parse]. rewrite !zlen_cons, !zlen_app. pose proof (zlen_nonneg (item_value i)) as H0.
    pose proof (zlen_nonneg (concat (map item_build l) ++ 0 :: r)) as H1. rewrite zlen_app in H1.
    destruct (Z.ltb_spec (1 + (1 + (zlen (item_value i) + (zlen (concat (map item_build l)) + zlen (0 :: r))))) 1); [lia|].
    cbn [get_u8 pget pbind pok]. destruct (item_code_read (item_type i) Hne) as [-> Ht].
    rewrite !zlen_cons, !zlen_app.
    destruct (Z.ltb_spec (1 + (zlen (item_value i) + (zlen (concat (map item_build l)) + zlen (0 :: r)))) 1); [lia|].
    cbn [get_u8 pget pbind pok]. rewrite wrap_small by (unfold in_width; lia). rewrite ?zlen_app.
    destruct (Z.ltb_spec (zlen (item_value i) + (zlen (concat (map item_build l)) + zlen (0 :: r))) (zlen (item_value i))); [lia|].
    rewrite pget_split by done. rewrite IH by lia. cbn [pbind pok]. rewrite Ht, Hv. by destruct i.
Qed.

Lemma pad_len_range n : 0 <= pad_len n < 4.
Proof. unfold pad_len. apply Z.mod_pos_bound. lia. Qed.

Lemma pad_len_round n : n + pad_len n = round4 n.
Proof.
  unfold pad_len, round4. pose proof (Z_div_mod_eq_full n 4). pose proof (Z.mod_pos_bound n 4 ltac:(lia)).
  assert (n mod 4 = 0 \/ n mod 4 = 1 \/ n mod 4 = 2 \/ n mod 4 = 3) as [E|[E|[E|E]]] by lia; rewrite E in *;
    (change ((4 - 0) mod 4) with 0 || change ((4 - 1) mod 4) with 3 || change ((4 - 2) mod 4) with 2 ||
     change ((4 - 3) mod 4) with 1).
  - replace (n + 3) with (4 * (n / 4) + 3) by lia. rewrite (proj1 (div_mod_join 4 (n / 4) 3 ltac:(lia))). lia.
  - replace (n + 3) with (4 * (n / 4 + 1) + 0) by lia. rewrite (proj1 (div_mod_join 4 (n / 4 + 1) 0 ltac:(lia))). lia.
  - replace (n + 3) with (4 * (n / 4 + 1) + 1) by lia. rewrite (proj1 (div_mod_join 4 (n / 4 + 1) 1 ltac:(lia))). lia.
  - replace (n + 3) with (4 * (n / 4 + 1) + 2) by lia. rewrite (proj1 (div_mod_join 4 (n / 4 + 1) 2 ltac:(lia))). lia.
Qed.

Lemma pad_len_shift k n : pad_len (4 * k + n) = pad_len n.
Proof. unfold pad_len. by rewrite Z.add_comm, Z.mul_comm, Z_mod_plus_full. Qed.

Lemma zlen_pad4 l : zlen (pad4 l) = round4 (zlen l).
Proof.
  unfold pad4. rewrite zlen_app, <- pad_len_round. pose proof (pad_len_range (zlen l)).
  unfold zlen at 2. rewrite length_replicate. lia.
Qed.

Lemma pad4_shift buf l k : zlen buf = 4 * k -> pad4 (buf ++ l) = buf ++ pad4 l.
Proof. intros H. unfold pad4. by rewrite zlen_app, H, pad_len_shift, app_assoc. Qed.

(** The bytes of one chunk. *)
Definition chunk_bytes (c : SdesChunk) : list Z :=
  pad4 (put_u32 (chunk_ssrc c) ++ concat (map item_build (items c)) ++ [0]).

Lemma zlen_chunk_bytes c : exists k, zlen (chunk_bytes c) = 4 * k.
Proof. unfold chunk_bytes. rewrite zlen_pad4. unfold round4. eexists. by rewrite Z.mul_comm. Qed.

Lemma zlen_chunks cs : exists k, zlen (concat (map chunk_bytes cs)) = 4 * k /\ 0 <= k.
Proof.
  induction cs as [|c cs (k & E & Hk)]; [exists 0; done|]. cbn [map concat]. rewrite zlen_app, E.
  destruct (zlen_chunk_bytes c) as [j Ej]. exists (j + k). pose proof (zlen_nonneg (chunk_bytes c)). lia.
Qed.

Lemma foldl_chunks cs buf k :
  zlen buf = 4 * k -> foldl chunk_build buf cs = buf ++ concat (map chunk_bytes cs).
Proof.
  revert buf k. induction cs as [|c cs IH]; intros buf k H; cbn [foldl map concat]; [by rewrite app_nil_r|].
  unfold chunk_build at 2. rewrite (pad4_shift _ _ k H). fold (chunk_bytes c).
  destruct (zlen_chunk_bytes c) as [j Ej]. rewrite (IH _ (k + j)) by (rewrite zlen_app; lia). by rewrite app_assoc.
Qed.

Lemma chunks_roundtrip cs :
  Forall (fun c => Forall item_ok (items c)) cs ->
  chunks_parse (length cs) (concat (map chunk_bytes cs)) = pok cs.
Proof.
  induction 1 as [|c cs Hc Hcs IH]; [done|]. cbn [length map concat chunks_parse].
  set (body := concat (map item_build (items c))). set (rest := concat (map chunk_bytes cs)) in *.
  set (n := zlen (put_u32 (chunk_ssrc c) ++ body ++ [0])).
  assert (n = 4 + (zlen body + 1)) as En by (unfold n; by rewrite !zlen_app, zlen_put_u32).
  assert (chunk_bytes c ++ rest = put_u32 (chunk_ssrc c) ++ body ++ 0 :: replicate (Z.to_nat (pad_len n)) 0 ++ rest) as ->.
  { unfold chunk_bytes, pad4. fold body n. by rewrite <- !app_assoc. }
  pose proof (zlen_nonneg body). pose proof (zlen_nonneg rest). pose proof (pad_len_range n).
  assert (zlen (replicate (Z.to_nat (pad_len n)) 0) = pad_len n) as Lp.
  { unfold zlen. rewrite length_replicate. lia. }
  rewrite !zlen_app, zlen_cons, zlen_app, zlen_put_u32, Lp.
  destruct (Z.ltb_spec (4 + (zlen body + (1 + (pad_len n + zlen rest)))) 4); [lia|].
  rewrite pget_u32. unfold body at 1 2. rewrite items_roundtrip; [|done|rewrite length_app; lia].
  fold body. cbn [pbind pok].
  rewrite zlen_app, Lp. replace (4 + (zlen body + (1 + (pad_len n + zlen rest))) - (pad_len n + zlen rest)) with n by lia.
  destruct (Z.ltb_spec (pad_len n + zlen rest) (pad_len n)); [lia|].
  rewrite pget_split by done. rewrite IH. cbn [pbind pok]. by destruct c.
Qed.

Lemma sdes_header len count :
  0 <= count < 32 ->
  [Z.lor 128 count; type_code TSourceDescription; Z.shiftr len 8; Z.land len 255] =
    header_of count TSourceDescription len.
Proof.
  intros H. rewrite header_of_bytes by done. rewrite Z.shiftr_div_pow2 by lia. change 255 with (Z.ones 8).
  by rewrite Z.land_ones by lia.
Qed.

Definition sdes_ok (s : SourceDescription) : Prop :=
  zlen (chunks s) <= 31 /\ Forall (fun c => Forall item_ok (items c)) (chunks s) /\
  zlen (concat (map chunk_bytes (chunks s))) < 4 * 65536.

Lemma sdes_framed s : sdes_ok s -> framed (sdes_packet_build s) (PSourceDescription s).
Proof.
  intros (H1 & H2 & H3). pose proof (zlen_nonneg (chunks s)) as H0.
  destruct (zlen_chunks (chunks s)) as (k & Ek & Hk). set (b := concat (map chunk_bytes (chunks s))) in *.
  assert (sdes_packet_build s = header_of (zlen (chunks s)) TSourceDescription k ++ b) as E.
  { unfold sdes_packet_build. rewrite (foldl_chunks _ _ 1) by done. fold b.
    rewrite zlen_app, Ek. change (zlen [0; 0; 0; 0]) with 4. rewrite Z.min_l by done.
    replace ((4 + 4 * k - 4) / 4) with k by (replace (4 + 4 * k - 4) with (4 * k + 0) by lia;
      by destruct (div_mod_join 4 k 0 ltac:(lia))).
    rewrite wrap_small by (unfold in_width; lia). by rewrite sdes_header by lia. }
  exists (zlen (chunks s)), TSourceDescription, k, b. split; [lia|]. split; [done|]. split; [lia|].
  rewrite E. unfold packet_parse. cbn [type_code Z.eqb Pos.eqb]. unfold sdes_packet_parse.
  rewrite header_roundtrip by lia. cbn [pbind pok h_type h_count h_length]. rewrite bool_decide_true by done. cbn [negb].
  rewrite Ek. destruct (Z.ltb_spec (4 * k) (k * 4)); [lia|].
  rewrite <- (app_nil_r b). rewrite pget_split by lia. unfold zlen. rewrite Nat2Z.id.
  unfold b. rewrite chunks_roundtrip by done. by destruct s.
Qed.

Definition bye_ok (g : Goodbye) : Prop :=
  zlen (bye_ssrcs g) <= 31 /\ forall r, reason g = Some r -> text_ok r.

(** The bytes after the header. *)
Definition bye_body (g : Goodbye) : list Z :=
  concat (map put_u32 (bye_ssrcs g)) ++
  match reason g with Some r => pad4 ([wrap 8 (zlen r)] ++ r) | None => [] end.

Lemma round4_shift k n : round4 (4 * k + n) = 4 * k + round4 n.
Proof. rewrite <- !pad_len_round, pad_len_shift. lia. Qed.

Lemma zlen_bye_body g : exists k, zlen (bye_body g) = 4 * k /\ 0 <= k /\
  (bye_ok g -> k < 65536) /\ bye_build g = header_of (Z.min (zlen (bye_ssrcs g)) 31) TGoodbye (wrap 16 k) ++ bye_body g.
Proof.
  pose proof (zlen_nonneg (bye_ssrcs g)) as H0. unfold bye_body, bye_build, bye_ok.
  destruct (reason g) as [r|]; rewrite zlen_app, zlen_put_csrcs.
  - pose proof (zlen_nonneg r) as Hr. rewrite zlen_pad4. change ([?x] ++ r) with (x :: r). rewrite zlen_cons.
    exists (zlen (bye_ssrcs g) + (1 + zlen r + 3) / 4).
    assert (round4 (1 + zlen r) = 4 * ((1 + zlen r + 3) / 4)) as Er by (unfold round4; lia).
    rewrite Er. split; [lia|]. split; [pose proof (Z.div_pos (1 + zlen r + 3) 4); lia|]. split.
    + intros [H1 H2]. destruct (H2 r eq_refl) as [H3 _].
      assert ((1 + zlen r + 3) / 4 < 128) by (apply Z.div_lt_upper_bound; lia). lia.
    + rewrite (Z.mul_comm (zlen _) 4), round4_shift, Er, <- Z.mul_add_distr_l, (Z.mul_comm 4), Z.div_mul by lia.
      rewrite <- !app_assoc. rewrite (app_assoc (header_of _ _ _)).
      change ([?x] ++ r) with (x :: r). rewrite (pad4_shift _ _ (1 + zlen (bye_ssrcs g))).
      * by rewrite <- app_assoc.
      * rewrite zlen_app, zlen_put_csrcs. change (zlen (header_of _ _ _)) with 4. lia.
  - exists (zlen (bye_ssrcs g)). change (zlen []) with 0. split; [lia|]. split; [lia|]. split; [lia|].
    by rewrite Z.div_mul, app_nil_r by lia.
Qed.

Lemma bye_framed g : bye_ok g -> framed (bye_build g) (PGoodbye g).
Proof.
  intros H. destruct (zlen_bye_body g) as (k & Ek & Hk & Hlt & E). specialize (Hlt H). destruct H as [H1 H2].
  pose proof (zlen_nonneg (bye_ssrcs g)) as H0. rewrite E. rewrite Z.min_l by done.
  rewrite wrap_small by (unfold in_width; lia).
  eexists _, _, _, _. split; [|split; [done|]]; [lia|]. split; [lia|].
  unfold packet_parse. cbn [type_code Z.eqb Pos.eqb]. unfold bye_parse.
  rewrite header_roundtrip by lia. cbn [pbind pok h_type h_count h_length]. rewrite bool_decide_true by done. cbn [negb].
  rewrite Ek. destruct (Z.ltb_spec (4 * k) (k * 4)); [lia|].
  rewrite <- (app_nil_r (bye_body g)). rewrite pget_split by lia. rewrite Ek.
  unfold bye_body in *. rewrite zlen_app, zlen_put_csrcs in Ek.
  set (tail := match reason g with Some r => _ | None => _ end) in *. pose proof (zlen_nonneg tail).
  destruct (Z.ltb_spec (4 * k) (zlen (bye_ssrcs g) * 4)); [lia|].
  unfold zlen at 1. rewrite Nat2Z.id, get_csrcs_put. cbn [pget pbind pok]. subst tail.
  destruct g as [ss [r|]]; simpl in *; [|done]. destruct (H2 r eq_refl) as [Hlen Hutf].
  pose proof (zlen_nonneg r). unfold pad4. cbn [app]. rewrite !zlen_cons.
  destruct (Z.leb_spec 1 (1 + zlen (r ++ replicate (Z.to_nat (pad_len (1 + zlen r))) 0))) as [_|Hbad].
  2:{ pose proof (zlen_nonneg (r ++ replicate (Z.to_nat (pad_len (1 + zlen r))) 0)). lia. }
  cbn [get_u8 pget pbind pok]. rewrite wrap_small by (unfold in_width; lia). rewrite zlen_app.
  destruct (Z.ltb_spec (zlen r + zlen (replicate (Z.to_nat (pad_len (1 + zlen r))) 0)) (zlen r)) as [Hbad|_].
  { pose proof (zlen_nonneg (replicate (Z.to_nat (pad_len (1 + zlen r))) 0)). lia. }
  rewrite pget_split by done. cbn [pbind pok]. by rewrite Hutf.
Qed.

(** *** Feedback *)

Definition nack_ok (n : Nack) : Prop := zlen (nacks n) < 65000.
Definition fir_ok (f : Fir) : Prop := zlen (fir_entries f) < 30000.

Lemma zlen_concat_map {A} (f : A -> list Z) k l :
  (forall x, zlen (f x) = k) -> zlen (concat (map f l)) = k * zlen l.
Proof.
  intros H. induction l as [|x l IH]; cbn [map concat]; [unfold zlen; simpl; lia|].
  rewrite zlen_app, zlen_cons, IH, H. lia.
Qed.

(** A feedback packet other than REMB is handed on as it is. *)
Lemma feedback_framed t fmt l body :
  t = TTransportFeedback \/ t = TPayloadFeedback -> 0 <= fmt < 15 -> zlen body = l * 4 ->
  framed (header_of fmt t l ++ body) (PUnknown (type_code t) (header_of fmt t l ++ body)).
Proof.
  intros Ht Hf Hl. exists fmt, t, l, body. split; [lia|]. split; [done|]. split; [done|].
  unfold packet_parse. destruct (Z.eqb_spec fmt 15); [lia|]. by destruct Ht as [-> | ->].
Qed.

Lemma nack_framed n : nack_ok n -> framed (nack_build n) (PUnknown 205 (nack_build n)).
Proof.
  unfold nack_ok, nack_build. intros H. pose proof (zlen_nonneg (nacks n)).
  apply (feedback_framed TTransportFeedback); [by left|lia|].
  rewrite !zlen_app, (zlen_concat_map _ 4) by done. rewrite !zlen_put_u32, wrap_small by (unfold in_width; lia). lia.
Qed.

Lemma pli_framed p : framed (pli_build p) (PUnknown 206 (pli_build p)).
Proof. apply (feedback_framed TPayloadFeedback); [by right|lia|done]. Qed.

Lemma fir_framed f : fir_ok f -> framed (fir_build f) (PUnknown 206 (fir_build f)).
Proof.
  unfold fir_ok, fir_build. intros H. pose proof (zlen_nonneg (fir_entries f)).
  apply (feedback_framed TPayloadFeedback); [by right|lia|].
  rewrite !zlen_app, (zlen_concat_map _ 8) by done. rewrite !zlen_put_u32, wrap_small by (unfold in_width; lia). lia.
Qed.

(** *** Bit rates *)

(** The rate a receiver reads: the 18 leading bits. *)
Definition wire_rate (b : Z) : Z := let '(m, e) := encode_bitrate b in m * 2 ^ e.

Lemma encode_bitrate_spec b :
  is_u64 b ->
  let '(m, e) := encode_bitrate b in
  0 <= m < 2 ^ 18 /\ 0 <= e <= 46 /\ m * 2 ^ e <= b < (m + 1) * 2 ^ e /\ (e = 0 \/ 2 ^ 17 <= m).
Proof.
  unfold in_width, encode_bitrate, bit_length. intros H. destruct (Z.eqb_spec b 0) as [->|Hb]; [lia|].
  destruct (Z.log2_spec b ltac:(lia)) as [H1 H2].
  assert (Z.log2 b < 64) as Hlog by (apply Z.log2_lt_pow2; lia). pose proof (Z.log2_nonneg b).
  destruct (Z.leb_spec (Z.log2 b + 1) 18) as [Hs|Hl].
  - assert (b < 2 ^ 18) by (apply Z.lt_le_trans with (2 ^ Z.succ (Z.log2 b)); [done|apply Z.pow_le_mono_r; lia]).
    rewrite wrap_small by (unfold in_width; lia). lia.
  - set (e := Z.log2 b + 1 - 18) in *. assert (0 < 2 ^ e) by (apply Z.pow_pos_nonneg; lia).
    rewrite Z.shiftr_div_pow2 by lia.
    assert (2 ^ 17 <= b / 2 ^ e < 2 ^ 18) as Hm.
    { split; [apply Z.div_le_lower_bound|apply Z.div_lt_upper_bound]; try done;
        rewrite <- Z.pow_add_r by lia; [replace (e + 17) with (Z.log2 b) by lia|
          replace (e + 18) with (Z.succ (Z.log2 b)) by lia]; done. }
    rewrite wrap_small by (unfold in_width; lia). change 262143 with (Z.ones 18). rewrite Z.land_ones by lia.
    rewrite (Z.mod_small _ (2 ^ 18)) by lia.
    pose proof (Z_div_mod_eq_full b (2 ^ e)). pose proof (Z.mod_pos_bound b (2 ^ e)). split_and!; try lia.
Qed.

(** The rate carried by a REMB packet is never above the rate it was made from and less than
    one part in 2^17 below it, over the whole 64-bit range; up to 18 bits it is exact. *)
Theorem remb_rate_precision b :
  is_u64 b ->
  wire_rate b <= b /\ (b - wire_rate b) * 2 ^ 17 <= b /\ (b < 2 ^ 18 -> wire_rate b = b).
Proof.
  intros H. pose proof (encode_bitrate_spec b H) as K. unfold wire_rate.
  destruct (encode_bitrate b) as [m e] eqn:E. destruct K as (Hm & He & Hb & Hx).
  assert (0 < 2 ^ e) by (apply Z.pow_pos_nonneg; lia). split; [lia|]. destruct Hx as [->|Hx].
  - change (2 ^ 0) with 1 in *. split; lia.
  - split; [nia|]. intros Hs. destruct (Z.eq_dec e 0) as [->|]; [change (2 ^ 0) with 1 in *; lia|].
    assert (2 ^ 1 <= 2 ^ e) by (apply Z.pow_le_mono_r; lia). nia.
Qed.

(** The byte that holds the exponent and the two leading bits of the mantissa. *)
Lemma exponent_byte_read e h :
  0 <= e < 64 -> 0 <= h < 4 ->
  let b := Z.lor (wrap 8 (Z.shiftl e 2)) (Z.land (wrap 8 h) 3) in
  Z.shiftr (Z.land b 252) 2 = e /\ Z.land b 3 = h.
Proof.
  intros He Hh. assert (forallb (fun e => forallb (fun h =>
    let b := Z.lor (wrap 8 (Z.shiftl e 2)) (Z.land (wrap 8 h) 3) in
    (Z.shiftr (Z.land b 252) 2 =? e) && (Z.land b 3 =? h)) (seqZ 0 4)) (seqZ 0 64) = true) as K by by vm_compute.
  rewrite forallb_forall in K. specialize (K e). rewrite <- list_elem_of_In, elem_of_seqZ in K.
  specialize (K ltac:(lia)). rewrite forallb_forall in K. specialize (K h).
  rewrite <- list_elem_of_In, elem_of_seqZ in K. specialize (K ltac:(lia)). cbn zeta in *. zbool. done.
Qed.

(** The mantissa is put together from its two bits and two bytes. *)
Lemma mantissa_join m :
  0 <= m < 2 ^ 18 ->
  Z.lor (Z.lor (Z.shiftl (Z.shiftr m 16) 16) (Z.shiftl (Z.land m 65535 / 256) 8)) (Z.land m 65535 mod 256) = m.
Proof.
  intros H. change 65535 with (Z.ones 16). rewrite Z.land_ones by lia. set (w := m mod 2 ^ 16).
  assert (0 <= w < 65536) as Hw by (apply Z.mod_pos_bound; lia).
  rewrite <- Z.lor_assoc, (lor_shiftl_add (w / 256)), lor_shiftl_add; try lia.
  - rewrite Z.shiftr_div_pow2 by lia. pose proof (Z_div_mod_eq_full m (2 ^ 16)).
    pose proof (Z_div_mod_eq_full w 256). unfold w in *. lia.
  - pose proof (Z_div_mod_eq_full w 256). lia.
  - apply Z.mod_pos_bound. lia.
Qed.

Lemma ssrcs_roundtrip l : ssrcs_parse (length l) (concat (map put_u32 l)) = pok l.
Proof.
  induction l as [|s l IH]; [done|]. cbn [length map concat ssrcs_parse]. rewrite zlen_app, zlen_put_u32.
  pose proof (zlen_nonneg (concat (map put_u32 l))).
  destruct (Z.ltb_spec (4 + zlen (concat (map put_u32 l))) 4); [lia|]. rewrite pget_u32, IH. done.
Qed.

Definition remb_ok (r : Remb) : Prop := zlen (remb_ssrcs r) <= 255 /\ is_u64 (bitrate r).

Lemma remb_framed r :
  remb_ok r ->
  framed (remb_build r) (PRemb (mkRemb (remb_sender r) (remb_media r) (wire_rate (bitrate r)) (remb_ssrcs r))).
Proof.
  intros [H1 H2]. pose proof (zlen_nonneg (remb_ssrcs r)) as H0. unfold remb_build, wire_rate.
  rewrite Z.min_l by done. pose proof (encode_bitrate_spec _ H2) as K.
  destruct (encode_bitrate (bitrate r)) as [m e]. destruct K as (Hm & He & Hb & _). unfold in_width in H2.
  replace (take (Z.to_nat (zlen (remb_ssrcs r))) (remb_ssrcs r)) with (remb_ssrcs r)
    by (unfold zlen; by rewrite Nat2Z.id, take_ge).
  rewrite wrap_small by (unfold in_width; lia).
  set (b := Z.lor (wrap 8 (Z.shiftl e 2)) (Z.land (wrap 8 (Z.shiftr m 16)) 3)).
  assert (0 <= Z.shiftr m 16 < 4) as Hh.
  { rewrite Z.shiftr_div_pow2 by lia. split; [apply Z.div_pos; lia|apply Z.div_lt_upper_bound; lia]. }
  destruct (exponent_byte_read e (Z.shiftr m 16) ltac:(lia) Hh) as [Re Rh]. fold b in Re, Rh.
  eexists _, _, _, _. split; [|split; [reflexivity|]]; [lia|].
  rewrite !zlen_app, zlen_put_csrcs, !zlen_put_u32. change (zlen UNIQUE_ID) with 4. change (zlen [_; _]) with 2.
  change (zlen (put_u16 _)) with 2. split; [lia|].
  assert (forall t, packet_parse 206 15 (header_of 15 TPayloadFeedback (4 + zlen (remb_ssrcs r)) ++
    put_u32 (remb_sender r) ++ put_u32 (remb_media r) ++ UNIQUE_ID ++ t) =
    as_packet PRemb (remb_parse (header_of 15 TPayloadFeedback (4 + zlen (remb_ssrcs r)) ++
    put_u32 (remb_sender r) ++ put_u32 (remb_media r) ++ UNIQUE_ID ++ t))) as P.
  { intros t. unfold packet_parse. cbn [Z.eqb Pos.eqb andb]. rewrite !zlen_app, !zlen_put_u32.
    change (zlen UNIQUE_ID) with 4. change (zlen (header_of _ _ _)) with 4. pose proof (zlen_nonneg t).
    destruct (Z.leb_spec 16 (4 + (4 + (4 + (4 + zlen t))))); [|lia]. by rewrite bool_decide_true. }
  cbn [type_code]. rewrite P. unfold remb_parse, feedback_parse. rewrite header_roundtrip by lia.
  cbn [pbind pok h_type h_count]. rewrite bool_decide_true by done. cbn [negb orb Z.eqb Pos.eqb].
  rewrite !zlen_app, zlen_put_csrcs, !zlen_put_u32. change (zlen UNIQUE_ID) with 4. change (zlen [_; _]) with 2.
  change (zlen (put_u16 _)) with 2.
  destruct (Z.ltb_spec (4 + (4 + (4 + (2 + (2 + 4 * zlen (remb_ssrcs r)))))) 16); [lia|].
  rewrite !pget_u32. cbn [pbind pok]. rewrite pget_split by done. rewrite bool_decide_true by done. cbn [negb].
  cbn [app get_u8 put_u16 pget pbind pok]. rewrite Re, Rh, mantissa_join by done.
  rewrite Z.shiftl_mul_pow2, wrap_small by (unfold in_width; lia).
  unfold zlen. by rewrite Nat2Z.id, ssrcs_roundtrip.
Qed.

(** *** The compound *)

Definition packet_ok (p : RtcpPacket) : Prop :=
  match p with
  | PSenderReport r => zlen (sr_blocks r) <= 31
  | PReceiverReport r => zlen (rr_blocks r) <= 31
  | PSourceDescription s => sdes_ok s
  | PGoodbye g => bye_ok g
  | PNack n => nack_ok n
  | PPli _ => True
  | PFir f => fir_ok f
  | PRemb r => remb_ok r
  | PUnknown _ _ => False
  end.

(** What the receiver of a packet finds in the compound. *)
Definition on_wire (p : RtcpPacket) : RtcpPacket :=
  match p with
  | PSenderReport r =>
      PSenderReport (mkSR (sr_ssrc r) (ntp_timestamp r) (rtp_timestamp r) (sender_packet_count r)
        (sender_octet_count r) (map wire_block (sr_blocks r)))
  | PReceiverReport r => PReceiverReport (mkRR (rr_ssrc r) (map wire_block (rr_blocks r)))
  | PNack n => PUnknown 205 (nack_build n)
  | PPli p => PUnknown 206 (pli_build p)
  | PFir f => PUnknown 206 (fir_build f)
  | PRemb r => PRemb (mkRemb (remb_sender r) (remb_media r) (wire_rate (bitrate r)) (remb_ssrcs r))
  | p => p
  end.

Lemma packet_framed p : packet_ok p -> framed (packet_build p) (on_wire p).
Proof.
  destruct p; simpl; [apply sr_framed|apply rr_framed|apply sdes_framed|apply bye_framed|apply nack_framed|
    intros _; apply pli_framed|apply fir_framed|apply remb_framed|done].
Qed.

Lemma framed_slices data q rest ps : framed data q -> slices rest ps -> slices (data ++ rest) (q :: ps).
Proof.
  intros (c & t & l & body & Hc & -> & Hl & Hp) Hs. rewrite header_of_bytes in * by done.
  destruct (count_byte_read c Hc) as (Hv & _ & Hcount). rewrite <- app_assoc. cbn [app].
  apply slices_cons; [done| |by rewrite Hcount|done]. rewrite <- Z_div_mod_eq_full. done.
Qed.

Lemma slices_parse data ps fuel :
  slices data ps -> (length data < fuel)%nat -> compound_loop fuel data = Some (Ok ps).
Proof.
  intros H. revert fuel. induction H as [|b0 b1 b2 b3 body rest p ps Hv Hl Hp Hs IH]; intros fuel Hf;
    (destruct fuel as [|fuel]; [lia|]); [done|]. cbn [compound_loop]. rewrite Hv. cbn [negb Z.eqb Pos.eqb].
  pose proof (zlen_nonneg rest). rewrite !zlen_cons, zlen_app.
  destruct (Z.ltb_spec (1 + (1 + (1 + (1 + (zlen body + zlen rest))))) ((256 * b2 + b3 + 1) * 4)); [lia|].
  replace ((256 * b2 + b3 + 1) * 4) with (zlen (b0 :: b1 :: b2 :: b3 :: body)) by (rewrite !zlen_cons; lia).
  change (b0 :: b1 :: b2 :: b3 :: body ++ rest) with ((b0 :: b1 :: b2 :: b3 :: body) ++ rest).
  rewrite split_to_app. cbn [mbind option_bind]. rewrite Hp. cbn [mbind option_bind].
  rewrite IH; [done|]. simpl in Hf. rewrite length_app in Hf. lia.
Qed.

(** A compound of reports, source descriptions, goodbyes and feedback is parsed packet by
    packet into what was built: the length field of every packet is right, counts, texts and lists
    come back, a REMB rate to 18 bits, NACK, PLI and FIR as raw bytes.  The one field that does
    not survive is the cumulative loss of a report block, of which the parser keeps the upper
    sixteen of its 24 bits only. *)
Theorem compound_roundtrip ps :
  Forall packet_ok ps -> compound_parse (compound_build ps) = Some (Ok (map on_wire ps)).
Proof.
  intros H. apply slices_parse; [|lia]. unfold compound_build.
  induction H as [|p ps Hp Hps IH]; [constructor|]. cbn [map concat]. apply framed_slices; [|done].
  by apply packet_framed.
Qed.

(** ** Witnesses and examples *)

Definition sample_report : ReceiverReport := mkRR 7 [mkBlock 9 12 5 70000 3 0 0].

(** Five lost packets are reported as none. *)
Example cumulative_lost_dropped :
  option_map (fun r => match r with Ok r => map cumulative_lost (rr_blocks r) | Err _ => [] end)
    (rr_parse (rr_build sample_report)) = Some [0].
Proof. by vm_compute. Qed.

(** More than 31 report blocks are all written, but neither counted nor covered by the length
    field: what follows in the compound is misread. *)
Example too_many_blocks :
  compound_parse (rr_build (mkRR 7 (replicate 32 (mkBlock 9 12 5 70000 3 0 0)))) = Some (Err BadVersion).
Proof. by vm_compute. Qed.

Lemma compound_roundtrip_witness :
  let ps := [PReceiverReport sample_report; PSourceDescription (with_cname 7 [97; 64; 98]);
             PGoodbye (mkBye [7] (Some [98; 121; 101])); PNack (from_lost_packets 1 2 [65535; 3; 4]);
             PRemb (remb_new 1 1000001 [5])] in
  compound_parse (compound_build ps) = Some (Ok (map on_wire ps)).
Proof.
  intros ps. apply (compound_roundtrip ps). repeat (apply Forall_cons; split); try done.
  - split; [by vm_compute|]. split; [|by vm_compute]. repeat (apply Forall_cons; split); done.
  - split; [by vm_compute|]. by intros r [= <-].
Defined.

Lemma rtcp_parse_total_witness :
  exists r, compound_parse [129; 201; 0; 1; 0; 0; 0; 7] = Some r /\ forall ps, r = Ok ps -> slices [129; 201; 0; 1; 0; 0; 0; 7] ps.
Proof. apply (rtcp_parse_total [129; 201; 0; 1; 0; 0; 0; 7]). repeat constructor; lia. Defined.

Lemma nack_exact_witness : 3 ∈ all_lost_sequences (from_lost_packets 1 2 [65535; 3; 4; 3]).
Proof.
  apply (nack_exact 1 2 [65535; 3; 4; 3] 3); [repeat constructor; unfold in_width; lia|set_solver].
Defined.

Lemma remb_rate_precision_witness : wire_rate 1000001 <= 1000001.
Proof. apply (remb_rate_precision 1000001). unfold in_width; lia. Defined.
