(* ===== verification/RtpSession.v ===== *)
(** * RTP sessions and congestion control ([rtp/session.rs], [session/bitrate_bridge.rs])

    The sender's numbering, the receiver's statistics and the reports made of them, the AIMD
    controller, and the filter between the controller and an adaptive codec.  An [Instant] or a
    [Duration] is a number of nanoseconds; the clock readings of one call are its argument [now]. *)

From Stdlib Require Import SpecFloat.
From S2P Require Import Prelude RFloat RtpPacket Rtcp Jitter.

Local Open Scope Z_scope.

(** ** The session *)

Record ReceiverState : Type := mkRecv {
  max_seq : Z;
  base_seq : Z;
  initialized : bool;
  r_packets_received : Z;
  r_packets_lost : Z;
  expected_packets : Z;
  last_timestamp : Z;
  r_jitter : Z;
  r_last_arrival : option Z
}.

#[export] Instance recv_eta : Settable ReceiverState := fun x =>
  mkRecv (max_seq x) (base_seq x) (initialized x) (r_packets_received x) (r_packets_lost x)
    (expected_packets x) (last_timestamp x) (r_jitter x) (r_last_arrival x).

Definition default_recv : ReceiverState := mkRecv 0 0 false 0 0 0 0 0 None.

Record RtpSession : Type := mkSession {
  s_ssrc : Z;
  s_payload_type : Z;
  s_clock_rate : Z;
  s_next_seq : Z;
  current_timestamp : Z;
  packets_sent : Z;
  octets_sent : Z;
  start_time : Z;
  receiver_state : ReceiverState
}.

#[export] Instance session_eta : Settable RtpSession := fun x =>
  mkSession (s_ssrc x) (s_payload_type x) (s_clock_rate x) (s_next_seq x) (current_timestamp x)
    (packets_sent x) (octets_sent x) (start_time x) (receiver_state x).

(** The initial sequence number and timestamp are random. *)
Definition session_new (now seq0 ts0 ssrc payload_type clock_rate : Z) : RtpSession :=
  mkSession ssrc payload_type clock_rate seq0 ts0 0 0 now default_recv.

(** What [create_packet] and [create_packet_at] share. *)
Definition packet_at (payload : list Z) (timestamp : Z) (marker : bool) (s : RtpSession)
  : RtpPacket * RtpSession :=
  (with_payload payload (with_marker marker (new (s_payload_type s) (s_next_seq s) timestamp (s_ssrc s))),
   s <| s_next_seq := wrap 16 (s_next_seq s + 1) |>
     <| packets_sent := packets_sent s + 1 |> <| octets_sent := octets_sent s + zlen payload |>).

Definition create_packet (payload : list Z) (samples : Z) (marker : bool) (s : RtpSession)
  : RtpPacket * RtpSession :=
  let timestamp := current_timestamp s in
  let '(p, s) := packet_at payload timestamp marker s in
  (p, s <| current_timestamp := wrap 32 (timestamp + samples) |>).

Definition create_packet_at (payload : list Z) (timestamp : Z) (marker : bool) (s : RtpSession)
  : RtpPacket * RtpSession :=
  let '(p, s) := packet_at payload timestamp marker s in
  (p, s <| current_timestamp := timestamp |>).

Definition samples_in (ns rate : Z) : float := f64_mul (as_secs_f64 ns) (f64_of_Z rate).

Definition update_timestamp (now : Z) (s : RtpSession) : RtpSession :=
  let samples := f_as_u32 (samples_in (Z.max 0 (now - start_time s)) (s_clock_rate s)) in
  s <| current_timestamp := wrap 32 (current_timestamp s + samples) |> <| start_time := now |>.

Definition timestamp_for_duration (d : Z) (s : RtpSession) : Z :=
  wrap 32 (current_timestamp s + f_as_u32 (samples_in d (s_clock_rate s))).

Definition saturating_u32 (z : Z) : Z := clamp 0 4294967295 z.

(** The jitter estimate in [i32] arithmetic, of a release build; [>> 4] rounds down. *)
Definition next_jitter (arrival_samples ts_diff jitter : Z) : Z :=
  let d := Z.abs (as_i32 (wrap 32 (arrival_samples - ts_diff))) in
  let adjustment := Z.shiftr (as_i32 (wrap 32 (as_i32 d - as_i32 jitter))) 4 in
  saturating_u32 (jitter + adjustment).

Definition receive_packet (now : Z) (packet : RtpPacket) (s : RtpSession) : RtpSession :=
  let r := receiver_state s in
  let seq := sequence_number packet in
  let ts := timestamp packet in
  if negb (initialized r) then
    s <| receiver_state := r <| base_seq := seq |> <| max_seq := seq |> <| initialized := true |>
           <| last_timestamp := ts |> <| r_last_arrival := Some now |>
           <| r_packets_received := 1 |> <| expected_packets := 1 |> |>
  else
    let r := r <| r_packets_received := r_packets_received r + 1 |> in
    let seq_diff := sequence_diff seq (max_seq r) in
    let r :=
      if 0 <? seq_diff then
        let r := r <| expected_packets := expected_packets r + seq_diff |> in
        let r := if 1 <? seq_diff then r <| r_packets_lost := r_packets_lost r + (seq_diff - 1) |> else r in
        r <| max_seq := seq |>
      else r in
    let r :=
      match r_last_arrival r with
      | Some last_arrival =>
          let arrival_samples := f_as_i32 (samples_in (Z.max 0 (now - last_arrival)) (s_clock_rate s)) in
          let ts_diff := as_i32 (wrap 32 (ts - last_timestamp r)) in
          r <| r_jitter := next_jitter arrival_samples ts_diff (r_jitter r) |>
      | None => r
      end in
    s <| receiver_state := r <| last_timestamp := ts |> <| r_last_arrival := Some now |> |>.

Definition f64_256 : float := f64_of_Z 256.

(** [(lost / expected * 256.0).min(255.0) as u8] *)
Definition fraction_lost_of (r : ReceiverState) : Z :=
  if 0 <? expected_packets r then
    as_u8 (f64_min (f64_mul (f64_div (f64_of_Z (r_packets_lost r)) (f64_of_Z (expected_packets r))) f64_256)
             (f64_of_Z 255))
  else 0.

Definition report_block (ssrc : Z) (r : ReceiverState) : list ReportBlock :=
  if initialized r then
    [mkBlock ssrc (fraction_lost_of r) (Z.min (r_packets_lost r) 8388607) (max_seq r) (r_jitter r) 0 0]
  else [].

Definition create_sender_report (since_epoch : Z) (s : RtpSession) : SenderReport :=
  mkSR (s_ssrc s) (ntp_now since_epoch) (current_timestamp s) (wrap 32 (packets_sent s))
    (wrap 32 (octets_sent s)) (report_block 0 (receiver_state s)).

Definition create_receiver_report (remote_ssrc : Z) (s : RtpSession) : ReceiverReport :=
  mkRR (s_ssrc s) (report_block remote_ssrc (receiver_state s)).

Definition create_rtcp_compound (since_epoch : Z) (cname : list Z) (is_sender : bool) (s : RtpSession)
  : list RtcpPacket :=
  if is_sender then sender_compound (create_sender_report since_epoch s) cname
  else receiver_compound (create_receiver_report 0 s) cname.

Definition packet_loss_percent (s : RtpSession) : float :=
  let r := receiver_state s in
  if expected_packets r =? 0 then f64_zero
  else f64_mul (f64_div (f64_of_Z (r_packets_lost r)) (f64_of_Z (expected_packets r))) (f64_of_Z 100).

Definition session_jitter_ms (s : RtpSession) : float :=
  f64_mul (f64_div (f64_of_Z (r_jitter (receiver_state s))) (f64_of_Z (s_clock_rate s))) (f64_of_Z 1000).

(** ** Congestion control *)

Inductive CongestionState : Type := SlowStart | CongestionAvoidance | Recovery.

Record CongestionController : Type := mkCC {
  cc_state : CongestionState;
  target_bitrate : Z;
  min_bitrate : Z;
  max_bitrate : Z;
  ssthresh : Z;
  last_increase : Z;
  last_decrease : Z;
  rtt_samples : list Z;
  smoothed_rtt : Z;
  rtt_var : Z;
  nacks_in_interval : Z;
  packets_in_interval : Z;
  last_remb : option Z
}.

#[export] Instance cc_eta : Settable CongestionController := fun x =>
  mkCC (cc_state x) (target_bitrate x) (min_bitrate x) (max_bitrate x) (ssthresh x) (last_increase x)
    (last_decrease x) (rtt_samples x) (smoothed_rtt x) (rtt_var x) (nacks_in_interval x)
    (packets_in_interval x) (last_remb x).

Definition MS : Z := 1000000.

Definition cc_new (now initial_bitrate min_bitrate max_bitrate : Z) : CongestionController :=
  mkCC SlowStart initial_bitrate min_bitrate max_bitrate (max_bitrate / 2) now now [] (100 * MS) (50 * MS) 0 0 None.

Definition cc_default (now : Z) : CongestionController := cc_new now 500000 50000 5000000.

Definition on_packet_sent (c : CongestionController) : CongestionController :=
  c <| packets_in_interval := wrap 32 (packets_in_interval c + 1) |>.

Definition on_nack (now lost_packets : Z) (c : CongestionController) : CongestionController :=
  let c := c <| nacks_in_interval := wrap 32 (nacks_in_interval c + lost_packets) |> in
  if now - last_decrease c <? smoothed_rtt c then c else
  let c := c <| target_bitrate := Z.max (target_bitrate c / 2) (min_bitrate c) |> in
  c <| ssthresh := target_bitrate c |> <| cc_state := Recovery |> <| last_decrease := now |>.

Definition on_remb (now bitrate : Z) (c : CongestionController) : CongestionController :=
  let c := c <| last_remb := Some bitrate |> in
  let c :=
    if bitrate <? wrap 64 (target_bitrate c * 90) / 100 then
      let c := c <| target_bitrate := Z.max bitrate (min_bitrate c) |> in
      c <| ssthresh := target_bitrate c |> <| cc_state := CongestionAvoidance |> <| last_decrease := now |>
    else c in
  if bitrate <? max_bitrate c then c <| max_bitrate := bitrate |> else c.

(** Duration arithmetic is exact to the nanosecond, divisions round down. *)
Definition on_rtt (rtt : Z) (c : CongestionController) : CongestionController :=
  let samples := if 10 <=? zlen (rtt_samples c) then drop 1 (rtt_samples c) else rtt_samples c in
  let c := c <| rtt_samples := samples ++ [rtt] |> in
  if zlen (rtt_samples c) =? 1 then c <| smoothed_rtt := rtt |> <| rtt_var := rtt / 2 |>
  else
    let diff := Z.abs (smoothed_rtt c - rtt) in
    let c := c <| rtt_var := rtt_var c * 3 / 4 + diff / 4 |> in
    c <| smoothed_rtt := smoothed_rtt c * 7 / 8 + rtt / 8 |>.

(** The literal 0.02. *)
Definition f64_two_percent : float := f64_div (f64_of_Z 2) (f64_of_Z 100).

Definition loss_ratio (c : CongestionController) : float :=
  if 0 <? packets_in_interval c
  then f64_div (f64_of_Z (nacks_in_interval c)) (f64_of_Z (packets_in_interval c)) else f64_zero.

(** The increase of one interval. *)
Definition increase_rate (c : CongestionController) : CongestionController :=
  let t := target_bitrate c in
  match cc_state c with
  | SlowStart =>
      let c := c <| target_bitrate := Z.min (wrap 64 (t + t / 10)) (max_bitrate c) |> in
      if ssthresh c <=? target_bitrate c then c <| cc_state := CongestionAvoidance |> else c
  | CongestionAvoidance | Recovery =>
      let increase := Z.max (t / 9600 / 10) 10000 in
      let c := c <| target_bitrate := Z.min (wrap 64 (t + increase)) (max_bitrate c) |> in
      match last_remb c with
      | Some remb => c <| target_bitrate := Z.min (target_bitrate c) remb |>
      | None => c
      end
  end.

Definition cc_update (now : Z) (c : CongestionController) : CongestionController :=
  let ratio := loss_ratio c in
  let c := c <| nacks_in_interval := 0 |> <| packets_in_interval := 0 |> in
  if f64_lt f64_two_percent ratio then c else
  if now - last_increase c <? 100 * MS then c else
  (increase_rate c) <| last_increase := now |>.

Definition cc_reset (initial_bitrate : Z) (c : CongestionController) : CongestionController :=
  c <| cc_state := SlowStart |> <| target_bitrate := initial_bitrate |> <| ssthresh := max_bitrate c / 2 |>
    <| nacks_in_interval := 0 |> <| packets_in_interval := 0 |> <| last_remb := None |>.

(** The time between packets of a size, in nanoseconds. *)
Definition pacing_interval (packet_size_bytes : Z) (c : CongestionController) : option Z :=
  let packet_size_bits := packet_size_bytes * 8 in
  if target_bitrate c =? 0 then Some (20 * MS)
  else from_secs_f64 (f64_div (f64_of_Z packet_size_bits) (f64_of_Z (target_bitrate c))).

(** ** The bridge to the codec *)

Record BitrateBridge : Type := mkBridge { last_applied_bps : option Z; last_applied_at : option Z }.

Definition bridge_new : BitrateBridge := mkBridge None None.

(** The literal 0.05 as [f32]. *)
Definition rel_threshold : float := f32_div (f32_of_Z 5) (f32_of_Z 100).

Definition should_apply (now new_bps : Z) (b : BitrateBridge) : bool :=
  match last_applied_bps b with
  | None => true
  | Some last =>
      if last =? 0 then true else
      let rel_delta := f32_div (f32_of_Z (Z.abs (new_bps - last))) (f32_of_Z last) in
      let elapsed := match last_applied_at b with Some t => Z.max 0 (now - t) | None => 0 end in
      SFleb rel_threshold rel_delta && (200 * MS <=? elapsed)
  end.

(** The codec is asked to take the new rate and may refuse. *)
Definition bridge_poll {codec : Type} (set_target : Z -> codec -> result unit str * codec) (now target_bps : Z)
  (b : BitrateBridge) (c : codec) : result bool str * BitrateBridge * codec :=
  let new_bps := Z.min target_bps u32_max in
  if negb (should_apply now new_bps b) then (Ok false, b, c) else
  match set_target new_bps c with
  | (Err e, c) => (Err e, b, c)
  | (Ok _, c) => (Ok true, mkBridge (Some new_bps) (Some now), c)
  end.

(** ** Sending *)

(** A frame to send: its payload, its length in samples and the marker. *)
Definition frame : Type := (list Z * Z * bool).

Fixpoint send_all (fs : list frame) (s : RtpSession) : list RtpPacket * RtpSession :=
  match fs with
  | [] => ([], s)
  | (payload, samples, marker) :: fs =>
      let '(p, s) := create_packet payload samples marker s in
      let '(ps, s) := send_all fs s in
      (p :: ps, s)
  end.

(** The samples before frame [n]. *)
Definition samples_before (fs : list frame) (n : nat) : Z :=
  foldr Z.add 0 (map (fun f => f.1.2) (take n fs)).

Lemma wrap_add w a b : 0 <= w -> wrap w (wrap w a + b) = wrap w (a + b).
Proof. intros H. unfold wrap. by rewrite Zplus_mod_idemp_l. Qed.

Lemma send_all_numbering fs s n p :
  (send_all fs s).1 !! n = Some p ->
  is_u16 (s_next_seq s) -> is_u32 (current_timestamp s) ->
  sequence_number p = wrap 16 (s_next_seq s + Z.of_nat n) /\
  timestamp p = wrap 32 (current_timestamp s + samples_before fs n) /\ ssrc p = s_ssrc s.
Proof.
  revert s n. induction fs as [|[[pl sm] mk] fs IH]; intros s n H Hs Ht; [done|]. cbn [send_all] in H.
  unfold create_packet, packet_at in H.
  set (s' := s <| s_next_seq := _ |> <| packets_sent := _ |> <| octets_sent := _ |> <| current_timestamp := _ |>) in H.
  destruct (send_all fs s') as [ps s''] eqn:E. simpl in H. destruct n as [|n].
  - injection H as <-. simpl. rewrite !Z.add_0_r. rewrite !wrap_small by done. done.
  - specialize (IH s' n). rewrite E in IH. destruct (IH H) as (I1 & I2 & I3).
    + simpl. apply wrap_range. lia.
    + simpl. apply wrap_range. lia.
    + unfold s' in I1, I2, I3. simpl in I1, I2, I3. rewrite wrap_add in I1, I2 by lia.
      split_and!; [rewrite I1; f_equal; lia| |done].
      rewrite I2. f_equal. unfold samples_before. simpl. lia.
Qed.

Lemma send_all_length fs s : length (send_all fs s).1 = length fs.
Proof.
  revert s. induction fs as [|[[pl sm] mk] fs IH]; intros s; [done|]. cbn [send_all].
  destruct (create_packet pl sm mk s) as [p s']. specialize (IH s'). by destruct (send_all fs s'); simpl in *; f_equal.
Qed.

(** ** Receiving *)

Definition receive_all (s : RtpSession) (ps : list (Z * RtpPacket)) : RtpSession :=
  foldl (fun s a => receive_packet a.1 a.2 s) s ps.

(** The receiver has seen packets from index [first] to [hi], [n] of them, [a] of which were the
    highest when they came. *)
Record seen (first hi n a : Z) (r : ReceiverState) : Prop := {
  se_init : initialized r = true;
  se_max : max_seq r = wrap 16 hi;
  se_base : base_seq r = wrap 16 first;
  se_received : r_packets_received r = n;
  se_expected : expected_packets r = hi - first + 1;
  se_lost : r_packets_lost r = hi - first + 1 - a;
  se_jitter : is_u32 (r_jitter r)
}.

Lemma clamp_u32 z : is_u32 (saturating_u32 z).
Proof. unfold saturating_u32, clamp, in_width. lia. Qed.

Lemma receive_first now p s i :
  initialized (receiver_state s) = false -> receiver_state s = default_recv ->
  sequence_number p = wrap 16 i ->
  seen i i 1 1 (receiver_state (receive_packet now p s)).
Proof.
  intros _ Hd E. unfold receive_packet. rewrite Hd. simpl. split; simpl; try done; try lia.
Qed.

Lemma receive_next first hi n a now p s i :
  seen first hi n a (receiver_state s) -> sequence_number p = wrap 16 i -> -32768 < i - hi < 32768 ->
  seen first (Z.max hi i) (n + 1) (a + (if hi <? i then 1 else 0)) (receiver_state (receive_packet now p s)).
Proof.
  intros [H1 H2 H3 H4 H5 H6 H7] E Hw. unfold receive_packet. rewrite H1. cbn [negb].
  set (r1 := (receiver_state s) <| r_packets_received := _ |>).
  assert (sequence_diff (sequence_number p) (max_seq r1) = i - hi) as Ed.
  { unfold r1. simpl. rewrite E, H2. apply sequence_diff_window. lia. }
  cbn zeta. rewrite Ed.
  set (r2 := if 0 <? i - hi then _ else _).
  assert (initialized r2 = true /\ max_seq r2 = wrap 16 (Z.max hi i) /\ base_seq r2 = wrap 16 first /\
    r_packets_received r2 = n + 1 /\ expected_packets r2 = Z.max hi i - first + 1 /\
    r_packets_lost r2 = Z.max hi i - first + 1 - (a + (if hi <? i then 1 else 0)) /\ is_u32 (r_jitter r2)) as K.
  { unfold r2. destruct (Z.ltb_spec 0 (i - hi)), (Z.ltb_spec hi i); try lia.
    - rewrite Z.max_r by lia. destruct (Z.ltb_spec 1 (i - hi)); unfold r1; simpl; split_and!; try done; lia.
    - rewrite Z.max_l by lia. unfold r1; simpl; split_and!; try done; lia. }
  destruct K as (K1 & K2 & K3 & K4 & K5 & K6 & K7). clearbody r2.
  destruct (r_last_arrival r2); split; simpl; try done. apply clamp_u32.
Qed.

(** The running maximum and the number of new maxima of a list of indices. *)
Definition top (hi : Z) (is_ : list Z) : Z := foldl Z.max hi is_.

Fixpoint records (hi : Z) (is_ : list Z) : Z :=
  match is_ with
  | [] => 0
  | i :: is_ => (if hi <? i then 1 else 0) + records (Z.max hi i) is_
  end.

(** Each packet within half the number space of the highest before it. *)
Fixpoint near (hi : Z) (is_ : list Z) : Prop :=
  match is_ with
  | [] => True
  | i :: is_ => -32768 < i - hi < 32768 /\ near (Z.max hi i) is_
  end.

Lemma receive_all_seen first hi n a s ps is_ :
  seen first hi n a (receiver_state s) ->
  Forall2 (fun q i => sequence_number q.2 = wrap 16 i) ps is_ -> near hi is_ ->
  seen first (top hi is_) (n + zlen ps) (a + records hi is_) (receiver_state (receive_all s ps)).
Proof.
  intros H F. revert hi n a s H. induction F as [|[now p] i ps is_ E F IH]; intros hi n a s H Hn.
  - simpl. unfold zlen. simpl. by rewrite !Z.add_0_r.
  - destruct Hn as [Hw Hn]. cbn [top foldl receive_all records fst snd] in *.
    pose proof (receive_next _ _ _ _ now p s i H E Hw) as H'. specialize (IH _ _ _ _ H' Hn).
    rewrite zlen_cons, !Z.add_assoc. exact IH.
Qed.

Lemma near_shift c hi l : near hi l -> near (c + hi) (map (Z.add c) l).
Proof.
  revert hi. induction l as [|i l IH]; intros hi; simpl; [done|]. intros [H1 H2].
  split; [lia|]. rewrite Z.add_max_distr_l. by apply IH.
Qed.

Lemma top_shift c hi l : top (c + hi) (map (Z.add c) l) = c + top hi l.
Proof.
  unfold top. revert hi. induction l as [|i l IH]; intros hi; simpl; [done|].
  by rewrite Z.add_max_distr_l, IH.
Qed.

Lemma records_shift c hi l : records (c + hi) (map (Z.add c) l) = records hi l.
Proof.
  revert hi. induction l as [|i l IH]; intros hi; simpl; [done|]. rewrite Z.add_max_distr_l, IH.
  destruct (Z.ltb_spec (c + hi) (c + i)), (Z.ltb_spec hi i); lia.
Qed.

(** Indices that only go up. *)
Fixpoint rising (hi : Z) (l : list Z) : Prop :=
  match l with [] => True | i :: l => hi < i /\ rising i l end.

Lemma records_rising hi l : rising hi l -> records hi l = zlen l.
Proof.
  revert hi. induction l as [|i l IH]; intros hi; [done|]. cbn [rising records]. intros [H1 H2].
  rewrite zlen_cons, Z.max_r by lia. destruct (Z.ltb_spec hi i); [|lia]. by rewrite IH.
Qed.

(** The arrivals of packets [ks] of a sent stream, each with its time. *)
Definition arrivals (sent : list RtpPacket) (ks : list (Z * nat)) : list (Z * RtpPacket) :=
  omap (fun a => let* p := sent !! a.2 in Some (a.1, p)) ks.

Lemma arrivals_indices fs s ks :
  is_u16 (s_next_seq s) -> is_u32 (current_timestamp s) ->
  Forall (fun a => a.2 < length fs)%nat ks ->
  Forall2 (fun q i => sequence_number q.2 = wrap 16 i) (arrivals (send_all fs s).1 ks)
    (map (Z.add (s_next_seq s)) (map (fun a => Z.of_nat a.2) ks)) /\
  zlen (arrivals (send_all fs s).1 ks) = zlen ks.
Proof.
  intros Hs Ht. induction 1 as [|[now k] ks Hk Hks IH]; [by split; [constructor|]|].
  cbn [arrivals omap list_omap map fst snd] in *. rewrite <- (send_all_length fs s) in Hk.
  destruct (lookup_lt_is_Some_2 _ _ Hk) as [p Hp]. cbn [fst snd]. rewrite Hp. cbn [mbind option_bind].
  destruct IH as [I1 I2]. split.
  - constructor; [|exact I1]. simpl. by destruct (send_all_numbering fs s k p Hp Hs Ht) as (-> & _ & _).
  - rewrite !zlen_cons. f_equal. exact I2.
Qed.

(** The indices that were the highest when they came. *)
Fixpoint record_list (hi : Z) (l : list Z) : list Z :=
  match l with
  | [] => []
  | i :: l => if hi <? i then i :: record_list i l else record_list hi l
  end.

Lemma record_list_spec hi l :
  zlen (record_list hi l) = records hi l /\ NoDup (record_list hi l) /\
  (forall i, i ∈ record_list hi l -> hi < i <= top hi l /\ i ∈ l) /\ hi <= top hi l.
Proof.
  revert hi. induction l as [|i l IH]; intros hi; cbn [record_list records]; unfold top in *; cbn [foldl].
  { split_and!; [done|by apply NoDup_nil_2|by intros ? ?%not_elem_of_nil|lia]. }
  destruct (Z.ltb_spec hi i).
  - rewrite Z.max_r by lia. destruct (IH i) as (I1 & I2 & I3 & I4). split_and!.
    + rewrite zlen_cons. lia.
    + constructor; [|done]. intros Hi%I3. lia.
    + intros j [->|Hj]%elem_of_cons; [by split; [lia|left]|]. apply I3 in Hj as [? ?]. by split; [lia|right].
    + lia.
  - rewrite Z.max_l by lia. destruct (IH hi) as (I1 & I2 & I3 & I4). split_and!; [lia|done| |done].
    intros j Hj. apply I3 in Hj as [? ?]. by split; [|right].
Qed.

(** The packets from the first that arrived to the highest; those of them that never arrived, and those that
    arrived only after a later one. *)
Definition span (first : Z) (ks : list Z) : list Z := seqZ first (top first ks - first + 1).
Definition missing (first : Z) (ks : list Z) : list Z := filter (fun i => i ∉ first :: ks) (span first ks).
Definition overtaken (first : Z) (ks : list Z) : list Z :=
  filter (fun i => i ∈ first :: ks /\ i ∉ first :: record_list first ks) (span first ks).

Lemma count_filter {A} (P Q R : A -> Prop) `{!forall x, Decision (P x), !forall x, Decision (Q x), !forall x, Decision (R x)} (l : list A) :
  (forall x, P x \/ Q x \/ R x) -> (forall x, P x -> ~ Q x) -> (forall x, P x -> ~ R x) -> (forall x, Q x -> ~ R x) ->
  zlen l = zlen (filter P l) + zlen (filter Q l) + zlen (filter R l).
Proof.
  intros A1 A2 A3 A4. induction l as [|x l IH]; [done|]. rewrite !filter_cons, zlen_cons, IH.
  specialize (A1 x). specialize (A2 x). specialize (A3 x). specialize (A4 x).
  repeat case_decide; rewrite ?zlen_cons; (lia || tauto).
Qed.

Lemma span_split first ks :
  top first ks - first + 1 = (1 + records first ks) + (zlen (missing first ks) + zlen (overtaken first ks)).
Proof.
  destruct (record_list_spec first ks) as (R1 & R2 & R3 & R4).
  assert (zlen (span first ks) = top first ks - first + 1) as El by (unfold span, zlen; rewrite length_seqZ; lia).
  rewrite <- El, (count_filter (fun i => i ∈ first :: record_list first ks) (fun i => i ∉ first :: ks)
    (fun i => i ∈ first :: ks /\ i ∉ first :: record_list first ks) (span first ks)).
  - fold (missing first ks) (overtaken first ks). rewrite <- R1, Z.add_assoc. do 2 f_equal.
    rewrite <- zlen_cons with (x := first).
    unfold zlen. f_equal. apply Permutation_length, NoDup_Permutation.
    + apply NoDup_filter, NoDup_seqZ.
    + constructor; [|done]. intros H%R3. lia.
    + intros i. unfold span. rewrite list_elem_of_filter, elem_of_seqZ, elem_of_cons. split; [tauto|]. intros [->|H]; (split; [tauto|]); [lia|].
      apply R3 in H. lia.
  - intros i. destruct (decide (i ∈ first :: record_list first ks)), (decide (i ∈ first :: ks)); tauto.
  - intros i [->|H]%elem_of_cons Hn; apply Hn; [by left|]. right. by apply R3.
  - tauto.
  - tauto.
Qed.

Lemma rising_overtaken first ks : rising first ks -> overtaken first ks = [].
Proof.
  intros H. assert (record_list first ks = ks) as E.
  { revert first H. induction ks as [|i ks IH]; intros hi; [done|]. intros [H1 H2]. cbn [record_list].
    destruct (Z.ltb_spec hi i); [|lia]. by rewrite IH. }
  unfold overtaken. rewrite E. induction (span first ks) as [|i l IH]; [done|]. rewrite filter_cons, decide_False by tauto. done.
Qed.

(** C23: the numbers of a receiver against the stream that was sent.  A session sends frames; of its packets
    any may be lost, repeated and reordered within half the sequence number space, across any number of
    wrap-arounds.  The receiver counts every packet that arrived and expects the packets from the first to the
    highest that arrived.  What it counts as lost is not what was lost when packets are reordered: it is the
    packets that never arrived together with those that arrived only after a later one.  When the packets
    come in their order the count is exact, the expected less the received ones, as RFC 3550 defines it.  The
    numbering of the sender is contiguous and the timestamps are those of the samples sent before. *)
Theorem media_statistics s0 fs r0 now0 k0 rest :
  is_u16 (s_next_seq s0) -> is_u32 (current_timestamp s0) -> receiver_state r0 = default_recv ->
  Forall (fun a => a.2 < length fs)%nat ((now0, k0) :: rest) ->
  let ks := map (fun a => Z.of_nat a.2) rest in
  near (Z.of_nat k0) ks ->
  let sent := (send_all fs s0).1 in
  let r := receiver_state (receive_all r0 (arrivals sent ((now0, k0) :: rest))) in
  (forall n p, sent !! n = Some p ->
    sequence_number p = wrap 16 (s_next_seq s0 + Z.of_nat n) /\
    timestamp p = wrap 32 (current_timestamp s0 + samples_before fs n)) /\
  r_packets_received r = 1 + zlen rest /\
  expected_packets r = top (Z.of_nat k0) ks - Z.of_nat k0 + 1 /\
  r_packets_lost r = zlen (missing (Z.of_nat k0) ks) + zlen (overtaken (Z.of_nat k0) ks) /\
  (rising (Z.of_nat k0) ks ->
    r_packets_lost r = zlen (missing (Z.of_nat k0) ks) /\ r_packets_lost r = expected_packets r - r_packets_received r).
Proof.
  intros Hs Ht Hr Hk ks Hn sent r. split.
  { intros n p Hp. by destruct (send_all_numbering fs s0 n p Hp Hs Ht) as (? & ? & _). }
  destruct (arrivals_indices fs s0 _ Hs Ht Hk) as [F L]. fold sent in F, L.
  cbn [map fst snd] in F. fold ks in F. unfold r.
  destruct (arrivals sent ((now0, k0) :: rest)) as [|[t p] ps]; [inversion F|].
  inversion F as [|? ? ? ? E F']; subst. cbn [receive_all foldl fst snd] in *.
  pose proof (receive_first t p r0 _ ltac:(by rewrite Hr) Hr E) as S1.
  pose proof (receive_all_seen _ _ _ _ _ ps _ S1 F' (near_shift (s_next_seq s0) _ _ Hn)) as [_ _ _ R1 R2 R3 _].
  unfold receive_all in R1, R2, R3. rewrite top_shift, records_shift in *.
  rewrite !zlen_cons in L. rewrite R1, R2, R3. pose proof (span_split (Z.of_nat k0) ks) as Hsp. split_and!; [lia|lia|lia|].
  intros Hrise. rewrite (records_rising _ _ Hrise) in *. rewrite (rising_overtaken _ _ Hrise) in Hsp.
  change (zlen []) with 0 in Hsp. unfold ks, zlen in *. rewrite length_map in *. split; lia.
Qed.

(** ** The rate of the controller *)

Inductive CcOp : Type :=
| Sent
| NackOp (now lost : Z)
| RembOp (now bitrate : Z)
| RttOp (rtt : Z)
| UpdateOp (now : Z)
| ResetOp (initial : Z).

Definition cc_step (c : CongestionController) (op : CcOp) : CongestionController :=
  match op with
  | Sent => on_packet_sent c
  | NackOp now lost => on_nack now lost c
  | RembOp now b => on_remb now b c
  | RttOp rtt => on_rtt rtt c
  | UpdateOp now => cc_update now c
  | ResetOp initial => cc_reset initial c
  end.

Definition cc_run (c : CongestionController) (ops : list CcOp) : CongestionController := foldl cc_step c ops.

(** Estimates and restarts above the minimum. *)
Definition cc_op_ok (lo hi : Z) (op : CcOp) : Prop :=
  match op with
  | RembOp _ b => lo <= b < 2 ^ 64
  | ResetOp initial => lo <= initial <= hi
  | _ => True
  end.

Record cc_inv (lo hi : Z) (c : CongestionController) : Prop := {
  ci_min : min_bitrate c = lo;
  ci_target : lo <= target_bitrate c <= hi;
  ci_max : lo <= max_bitrate c <= hi;
  ci_remb : forall b, last_remb c = Some b -> lo <= b
}.

Lemma increase_rate_inv lo hi c :
  0 <= lo -> hi < 2 ^ 57 -> cc_inv lo hi c ->
  cc_inv lo hi (increase_rate c) /\ target_bitrate (increase_rate c) <= max_bitrate c.
Proof.
  intros Hlo Hhi [H1 H2 H3 H4]. unfold increase_rate.
  assert (0 <= target_bitrate c / 10 <= target_bitrate c)
    by (split; [apply Z.div_pos; lia|apply Z.div_le_upper_bound; lia]).
  assert (0 <= target_bitrate c / 9600 / 10 <= target_bitrate c).
  { rewrite Z.div_div by lia. split; [apply Z.div_pos; lia|apply Z.div_le_upper_bound; lia]. }
  destruct (cc_state c).
  - rewrite wrap_small by (unfold in_width; lia). simpl. case_match; (split; [split|]); simpl; try done; lia.
  - rewrite wrap_small by (unfold in_width; lia). simpl.
    destruct (last_remb c) as [b|] eqn:E; simpl; (split; [split|]); simpl; rewrite ?E; try done; try lia.
    specialize (H4 b eq_refl). lia.
  - rewrite wrap_small by (unfold in_width; lia). simpl.
    destruct (last_remb c) as [b|] eqn:E; simpl; (split; [split|]); simpl; rewrite ?E; try done; try lia.
    specialize (H4 b eq_refl). lia.
Qed.

Lemma cc_step_inv lo hi c op :
  0 <= lo -> hi < 2 ^ 57 -> cc_op_ok lo hi op -> cc_inv lo hi c -> cc_inv lo hi (cc_step c op).
Proof.
  intros Hlo Hhi Hop I. pose proof I as [H1 H2 H3 H4].
  destruct op as [|now lost|now b|rtt|now|initial]; simpl in *.
  - by split.
  - unfold on_nack. simpl. case_match; split; simpl; try done.
    pose proof (Z.div_pos (target_bitrate c) 2). assert (target_bitrate c / 2 <= target_bitrate c)
      by (apply Z.div_le_upper_bound; lia). lia.
  - unfold on_remb. simpl. rewrite wrap_small by (unfold in_width; lia).
    assert (target_bitrate c * 90 / 100 <= target_bitrate c) by (apply Z.div_le_upper_bound; lia).
    destruct (Z.ltb_spec b (target_bitrate c * 90 / 100)); simpl;
      destruct (Z.ltb_spec b (max_bitrate c)); split; simpl; try done; try lia; by intros ? [= <-]; lia.
  - unfold on_rtt. simpl. case_match; by split.
  - unfold cc_update. set (c' := c <| nacks_in_interval := 0 |> <| packets_in_interval := 0 |>).
    assert (cc_inv lo hi c') as I' by by split.
    destruct (f64_lt _ _); [done|]. case_match; [done|].
    destruct (increase_rate_inv lo hi c' Hlo Hhi I') as [[J1 J2 J3 J4] _]. by split.
  - split; simpl; try done.
Qed.

(** The least of the maximum and the estimates received. *)
Definition ceiling (hi : Z) (ops : list CcOp) : Z :=
  foldl (fun m op => match op with RembOp _ b => Z.min m b | _ => m end) hi ops.

Lemma cc_step_max c op :
  max_bitrate (cc_step c op) = match op with RembOp _ b => Z.min (max_bitrate c) b | _ => max_bitrate c end.
Proof.
  destruct op as [|now lost|now b|rtt|now|initial]; simpl; try done.
  - unfold on_nack. simpl. by case_match.
  - unfold on_remb. simpl. destruct (Z.ltb_spec b (wrap 64 (target_bitrate c * 90) / 100)); simpl;
      destruct (Z.ltb_spec b (max_bitrate c)); simpl; lia.
  - unfold on_rtt. simpl. by case_match.
  - unfold cc_update, increase_rate. destruct (f64_lt _ _); [done|]. case_match; [done|]. simpl.
    destruct (cc_state c); simpl; [by case_match|by destruct (last_remb c)..].
Qed.

Lemma cc_run_max c ops : max_bitrate (cc_run c ops) = ceiling (max_bitrate c) ops.
Proof.
  unfold cc_run, ceiling. revert c. induction ops as [|op ops IH]; intros c; [done|]. cbn [foldl]. by rewrite IH, cc_step_max.
Qed.

(** C24: the congestion controller keeps its rate between the configured bounds: whatever packets,
    losses, round trip times, updates and restarts come in whatever order, as long as no estimate is
    below the minimum the target stays between the minimum and the maximum it was made with; an
    update that raises the rate stops at the least of that maximum and every estimate received so far; and an
    estimate takes the target at once to where nine tenths of it are within the estimate. *)
Theorem congestion_bounds now lo hi initial ops :
  0 <= lo -> hi < 2 ^ 57 -> lo <= initial <= hi -> Forall (cc_op_ok lo hi) ops ->
  let c := cc_run (cc_new now initial lo hi) ops in
  lo <= target_bitrate c <= hi /\ lo <= ceiling hi ops <= hi /\
  (forall t, target_bitrate c < target_bitrate (cc_update t c) -> target_bitrate (cc_update t c) <= ceiling hi ops) /\
  (forall t b, lo <= b < 2 ^ 64 -> target_bitrate (on_remb t b c) * 90 / 100 <= b).
Proof.
  intros Hlo Hhi Hi Ho.
  assert (forall c, cc_inv lo hi c -> cc_inv lo hi (cc_run c ops)) as K.
  { unfold cc_run. induction Ho as [|op ops Hop Ho IH]; intros c I; simpl; [done|]. apply IH. by apply cc_step_inv. }
  specialize (K (cc_new now initial lo hi) ltac:(split; simpl; done || lia)). cbn zeta.
  pose proof (cc_run_max (cc_new now initial lo hi) ops) as Hm. cbn [cc_new max_bitrate] in Hm. rewrite <- Hm.
  set (c := cc_run _ ops) in *. clearbody c. pose proof K as [K1 K2 K3 K4]. split_and!; [lia..| |].
  - intros t. unfold cc_update. set (c' := c <| nacks_in_interval := 0 |> <| packets_in_interval := 0 |>).
    assert (cc_inv lo hi c') as I' by by split.
    destruct (f64_lt _ _); [simpl; lia|]. case_match; [simpl; lia|]. intros _.
    destruct (increase_rate_inv lo hi c' Hlo Hhi I') as [_ J]. exact J.
  - intros t b Hb. unfold on_remb. simpl. rewrite wrap_small by (unfold in_width; lia).
    destruct (Z.ltb_spec b (target_bitrate c * 90 / 100)); simpl; destruct (Z.ltb_spec b (max_bitrate c)); simpl; try lia.
    all: rewrite Z.max_l by lia; apply Z.div_le_upper_bound; lia.
Qed.

(** ** Witnesses and examples *)

Definition sample_session : RtpSession := session_new 0 65534 4294967200 7 0 8000.

Definition sample_frames : list frame := replicate 5 ([1; 2; 3], 160, false).

(** Five packets across the wrap of the numbers, the second one lost. *)
Lemma media_statistics_witness :
  r_packets_lost (receiver_state (receive_all sample_session
    (arrivals (send_all sample_frames sample_session).1 [(0, 0%nat); (20, 2%nat); (40, 3%nat); (60, 4%nat)]))) = 1.
Proof.
  destruct (media_statistics sample_session sample_frames sample_session 0 0 [(20, 2%nat); (40, 3%nat); (60, 4%nat)])
    as (_ & _ & _ & L & _); [done|done|done|repeat constructor; simpl; lia|simpl; lia|].
  rewrite L. vm_compute. reflexivity.
Defined.

(** A packet that comes late is still counted as lost, although all three arrived. *)
Example reordered_counted_lost :
  let r := receiver_state (receive_all sample_session
    (arrivals (send_all sample_frames sample_session).1 [(0, 0%nat); (20, 2%nat); (40, 1%nat)])) in
  (r_packets_received r, expected_packets r, r_packets_lost r) = (3, 3, 1).
Proof. by vm_compute. Qed.

(** A packet sent at a given timestamp leaves the clock there, so the next one repeats it. *)
Example timestamp_repeated :
  let '(p, s) := create_packet_at [1] 1000 true sample_session in
  let '(q, _) := create_packet [2] 160 false s in
  (timestamp p, timestamp q) = (1000, 1000).
Proof. by vm_compute. Qed.

(** The highest sequence number is reported without the cycles: after a wrap it goes back. *)
Example extended_seq_wraps :
  map extended_seq (report_block 0 (receiver_state (receive_all sample_session
    (arrivals (send_all sample_frames sample_session).1 [(0, 0%nat); (20, 1%nat); (40, 2%nat)])))) = [0].
Proof. by vm_compute. Qed.

Lemma congestion_bounds_witness :
  let ops := [NackOp 200000000 1; RembOp 300000000 20000] in
  let c := cc_run (cc_new 0 32000 6000 128000) ops in
  target_bitrate c < target_bitrate (cc_update 400000000 c) /\
  target_bitrate (cc_update 400000000 c) <= ceiling 128000 ops /\ ceiling 128000 ops = 20000.
Proof.
  intros ops c.
  destruct (congestion_bounds 0 6000 128000 32000 ops) as (_ & _ & H & _);
    [lia..|repeat constructor; simpl; lia|].
  specialize (H 400000000). unfold c. assert (target_bitrate (cc_run (cc_new 0 32000 6000 128000) ops) <
    target_bitrate (cc_update 400000000 (cc_run (cc_new 0 32000 6000 128000) ops))) as Hr by (vm_compute; reflexivity).
  split; [exact Hr|]. split; [exact (H Hr)|vm_compute; reflexivity].
Defined.

(** One estimate below the minimum takes the rate to it with the next update, and the maximum stays
    there: no later estimate brings it back. *)
Example remb_below_minimum :
  let c := cc_run (cc_new 0 32000 6000 128000)
             [RembOp 1 0; UpdateOp 100000001; RembOp 200000000 100000; UpdateOp 300000000; UpdateOp 500000000] in
  (target_bitrate c, min_bitrate c, max_bitrate c) = (0, 6000, 0).
Proof. by vm_compute. Qed.
