(* ===== verification/IceCandidate.v ===== *)
(** * ICE candidates ([ice/candidate.rs])

    The candidate, its [a=candidate] text and the priorities of candidates and pairs.
    [std::net::IpAddr] enters through its text form, the interface [IpAddr]; dotted quads
    are an instance of it. *)

From S2P Require Import Prelude RStr.

Local Open Scope Z_scope.

(** ** IP addresses *)

(** [FromStr], [Display] and [is_ipv4] of [std::net::IpAddr]: the text of an address parses
    to the address and is a word. *)
Class IpAddr (ip : Type) : Type := {
  ip_parse : str -> option ip;
  ip_to_string : ip -> str;
  is_ipv4 : ip -> bool;
  ip_roundtrip : forall a, ip_parse (ip_to_string a) = Some a;
  ip_word : forall a, ip_to_string a <> [] /\ Forall (fun c => tokc c = true) (ip_to_string a)
}.

Record SocketAddr (ip : Type) : Type := mkSocketAddr { addr_ip : ip; addr_port : Z }.
Arguments mkSocketAddr {ip}.
Arguments addr_ip {ip}.
Arguments addr_port {ip}.

(** ** Candidates *)

Inductive CandidateType : Type := Host | ServerReflexive | PeerReflexive | Relay.

Definition type_preference (t : CandidateType) : Z :=
  match t with Host => 126 | PeerReflexive => 110 | ServerReflexive => 100 | Relay => 0 end.

Definition ctype_as_str (t : CandidateType) : str :=
  match t with
  | Host => #"host" | ServerReflexive => #"srflx" | PeerReflexive => #"prflx" | Relay => #"relay"
  end.

Definition ctype_parse (s : str) : option CandidateType :=
  if eqb s #"host" then Some Host
  else if eqb s #"srflx" then Some ServerReflexive
  else if eqb s #"prflx" then Some PeerReflexive
  else if eqb s #"relay" then Some Relay
  else None.

Inductive Transport : Type := Udp | Tcp.

Definition transport_as_str (t : Transport) : str := match t with Udp => #"UDP" | Tcp => #"TCP" end.

(** [u32] arithmetic of a release build. *)
Definition calculate_priority (t : CandidateType) (local_preference component : Z) : Z :=
  wrap 32 (wrap 32 (Z.shiftl (type_preference t) 24) + wrap 32 (Z.shiftl local_preference 8) +
           (256 - component)).

(** [u64] arithmetic of a release build. *)
Definition calculate_pair_priority (controlling : bool) (g d : Z) : Z :=
  let '(g, d) := if controlling then (g, d) else (d, g) in
  wrap 64 (wrap 64 (Z.shiftl 1 32 * Z.min g d) + 2 * Z.max g d + (if d <? g then 1 else 0)).

Section Candidate.
Context {ip : Type} `{!IpAddr ip}.

Record Candidate : Type := mkCandidate {
  foundation : str;
  component : Z;
  transport : Transport;
  priority : Z;
  address : SocketAddr ip;
  candidate_type : CandidateType;
  related_address : option (SocketAddr ip)
}.

Definition host (address : SocketAddr ip) (component : Z) : Candidate :=
  mkCandidate (#"host" ++ ip_to_string (addr_ip address) ++ dec component) component Udp
    (calculate_priority Host 65535 component) address Host None.

Definition server_reflexive (address base : SocketAddr ip) (component : Z) : Candidate :=
  mkCandidate (#"srflx" ++ ip_to_string (addr_ip base) ++ dec component) component Udp
    (calculate_priority ServerReflexive 65535 component) address ServerReflexive (Some base).

Definition peer_reflexive (address base : SocketAddr ip) (component priority : Z) : Candidate :=
  mkCandidate (#"prflx" ++ ip_to_string (addr_ip base) ++ dec component) component Udp priority
    address PeerReflexive (Some base).

Definition candidate_to_sdp (c : Candidate) : str :=
  foundation c ++ #" " ++ dec (component c) ++ #" " ++ transport_as_str (transport c) ++ #" " ++
  dec (priority c) ++ #" " ++ ip_to_string (addr_ip (address c)) ++ #" " ++
  dec (addr_port (address c)) ++ #" typ " ++ ctype_as_str (candidate_type c) ++
  match related_address c with
  | Some raddr => #" raddr " ++ ip_to_string (addr_ip raddr) ++ #" rport " ++ dec (addr_port raddr)
  | None => []
  end.

(** The optional parameters, from [parts[8]] on. *)
Fixpoint related_of (acc : option (SocketAddr ip)) (rest : list str) : option (option (SocketAddr ip)) :=
  match rest with
  | key :: ((a :: r) as tl) =>
      if eqb key #"raddr" then
        match r with
        | k :: p :: r' =>
            if eqb k #"rport" then
              let* rip := ip_parse a in
              let* rport := parse_uint u16_max p in
              related_of (Some (mkSocketAddr rip rport)) r'
            else related_of acc tl
        | _ => related_of acc tl
        end
      else related_of acc tl
  | _ => Some acc
  end.

(** No character outside ASCII has an upper case among the letters of UDP and TCP. *)
Definition transport_parse (s : str) : option Transport :=
  let s := to_ascii_uppercase s in
  if eqb s #"UDP" then Some Udp else if eqb s #"TCP" then Some Tcp else None.

Definition candidate_from_sdp (s : str) : option Candidate :=
  match split_whitespace s with
  | p0 :: p1 :: p2 :: p3 :: p4 :: p5 :: p6 :: p7 :: rest =>
      let* component := parse_uint u8_max p1 in
      let* transport := transport_parse p2 in
      let* priority := parse_uint u32_max p3 in
      let* i := ip_parse p4 in
      let* port := parse_uint u16_max p5 in
      if negb (eqb p6 #"typ") then None else
      let* t := ctype_parse p7 in
      let* related := related_of None rest in
      Some (mkCandidate p0 component transport priority (mkSocketAddr i port) t related)
  | _ => None
  end.

(** ** Lemmas *)

Definition word (s : str) : Prop := s <> [] /\ Forall (fun c => tokc c = true) s.

Record candidate_ok (c : Candidate) : Prop := {
  co_foundation : word (foundation c);
  co_component : is_u8 (component c);
  co_priority : is_u32 (priority c);
  co_port : is_u16 (addr_port (address c));
  co_related : forall a, related_address c = Some a -> is_u16 (addr_port a)
}.

(** The words of the text. *)
Definition candidate_words (c : Candidate) : list str :=
  [foundation c; dec (component c); transport_as_str (transport c); dec (priority c);
   ip_to_string (addr_ip (address c)); dec (addr_port (address c)); #"typ";
   ctype_as_str (candidate_type c)] ++
  match related_address c with
  | Some a => [ #"raddr"; ip_to_string (addr_ip a); #"rport"; dec (addr_port a)]
  | None => []
  end.

Lemma candidate_to_sdp_words c : candidate_to_sdp c = join #" " (candidate_words c).
Proof.
  unfold candidate_to_sdp, candidate_words.
  destruct (related_address c); [|rewrite app_nil_r]; simpl; by rewrite <- ?app_assoc.
Qed.

Lemma word_dec n : 0 <= n -> word (dec n).
Proof. split; [apply dec_nonempty|by apply dec_tok]. Qed.

Lemma word_lit s : negb (is_empty s) && forallb tokc s = true -> word s.
Proof.
  intros [H1 H2]%andb_prop. split; [by destruct s|]. apply Forall_forall. intros x Hx.
  rewrite forallb_forall in H2. apply H2. by apply list_elem_of_In.
Qed.

Lemma candidate_words_ok c : candidate_ok c -> Forall word (candidate_words c).
Proof.
  intros [H1 H2 H3 H4 H5]. unfold candidate_words, in_width in *.
  apply Forall_app. split.
  - repeat (apply Forall_cons; split); try done; try (apply word_dec; lia); try (by apply word_lit).
    + by destruct (transport c); apply word_lit.
    + apply ip_word.
    + by destruct (candidate_type c); apply word_lit.
  - destruct (related_address c) as [a|]; [|done]. specialize (H5 a eq_refl).
    repeat (apply Forall_cons; split); try done; try (apply word_dec; lia); try (by apply word_lit).
    apply ip_word.
Qed.

Lemma transport_roundtrip t : transport_parse (transport_as_str t) = Some t.
Proof. by destruct t. Qed.

Lemma ctype_roundtrip t : ctype_parse (ctype_as_str t) = Some t.
Proof. by destruct t. Qed.

Lemma related_roundtrip (o : option (SocketAddr ip)) :
  (forall a, o = Some a -> is_u16 (addr_port a)) ->
  related_of None
    match o with
    | Some a => [ #"raddr"; ip_to_string (addr_ip a); #"rport"; dec (addr_port a)]
    | None => []
    end = Some o.
Proof.
  intros H. destruct o as [[i p]|]; [|done]. specialize (H _ eq_refl). simpl in H.
  cbn [related_of addr_ip addr_port]. change (eqb #"raddr" #"raddr") with true.
  change (eqb #"rport" #"rport") with true. cbn iota.
  rewrite ip_roundtrip. cbn [mbind option_bind].
  rewrite parse_dec by (unfold in_width, u16_max in *; lia). done.
Qed.

(** The [a=candidate] text of a candidate parses to the candidate: what one agent writes
    into its description is what the other agent reads, related address included. *)
Lemma candidate_roundtrip c :
  candidate_ok c -> candidate_from_sdp (candidate_to_sdp c) = Some c.
Proof.
  intros H. unfold candidate_from_sdp. rewrite candidate_to_sdp_words.
  change (#" ") with [" "%char]. rewrite split_whitespace_join by by apply candidate_words_ok.
  unfold candidate_words. cbn [app]. destruct H as [_ H2 H3 H4 H5]. unfold in_width in *.
  rewrite (parse_dec u8_max (component c)) by (unfold u8_max; lia). cbn [mbind option_bind].
  rewrite transport_roundtrip. cbn [mbind option_bind].
  rewrite (parse_dec u32_max (priority c)) by (unfold u32_max; lia). cbn [mbind option_bind].
  rewrite ip_roundtrip. cbn [mbind option_bind].
  rewrite (parse_dec u16_max (addr_port (address c))) by (unfold u16_max; lia). cbn [mbind option_bind].
  change (eqb #"typ" #"typ") with true. cbn [negb].
  rewrite ctype_roundtrip. cbn [mbind option_bind].
  rewrite related_roundtrip by done. cbn [mbind option_bind]. by destruct c as [? ? ? ? [? ?] ? ?].
Qed.

End Candidate.
Arguments Candidate : clear implicits.

(** ** Dotted quads *)

(** [Ipv4Addr]: four bytes, written in decimal without leading zeros. *)
Definition quad : Type := (ascii * ascii * ascii * ascii).

Definition octet (c : ascii) : str := dec (code c).

Definition quad_to_string (a : quad) : str :=
  let '(x, y, z, w) := a in join #"." [octet x; octet y; octet z; octet w].

Definition octet_parse (s : str) : option ascii :=
  let* n := parse_uint u8_max s in if eqb (dec n) s then Some (chr n) else None.

Definition quad_parse (s : str) : option quad :=
  match split "."%char s with
  | [a; b; c; d] =>
      let* a := octet_parse a in
      let* b := octet_parse b in
      let* c := octet_parse c in
      let* d := octet_parse d in
      Some (a, b, c, d)
  | _ => None
  end.

Lemma octet_roundtrip c : octet_parse (octet c) = Some c.
Proof.
  unfold octet_parse, octet. pose proof (code_range c).
  rewrite parse_dec by (unfold u8_max; lia). cbn [mbind option_bind].
  rewrite (proj2 (eqb_true _ _) eq_refl). by rewrite chr_code.
Qed.

Lemma octet_no_dot c : ~ In "."%char (octet c).
Proof.
  intros H. pose proof (code_range c). pose proof (dec_digits (code c) ltac:(lia)) as F.
  rewrite Forall_forall in F. specialize (F "."%char). rewrite list_elem_of_In in F.
  by specialize (F H).
Qed.

Lemma octet_tok c : Forall (fun c => tokc c = true) (octet c).
Proof. pose proof (code_range c). apply dec_tok. lia. Qed.

#[export, refine] Instance quad_addr : IpAddr quad := {|
  ip_parse := quad_parse;
  ip_to_string := quad_to_string;
  is_ipv4 _ := true
|}.
Proof.
  - intros [[[x y] z] w]. unfold quad_parse, quad_to_string. cbn [join].
    change (#".") with ["."%char]. cbn [app].
    rewrite !split_app, split_no by apply octet_no_dot. by rewrite !octet_roundtrip.
  - intros [[[x y] z] w]. unfold quad_to_string. cbn [join]. split.
    + intros E%app_eq_nil. by destruct E as [E%dec_nonempty _].
    + rewrite !Forall_app. split_and!; first [apply octet_tok|by apply Forall_singleton].
Defined.

(** ** Priorities *)

Lemma calculate_priority_exact t l c :
  0 <= l <= 65535 -> 1 <= c <= 256 ->
  calculate_priority t l c = 2 ^ 24 * type_preference t + 2 ^ 8 * l + (256 - c).
Proof.
  intros Hl Hc. unfold calculate_priority, wrap. rewrite !Z.shiftl_mul_pow2 by lia.
  assert (0 <= type_preference t <= 126) as Ht by (destruct t; simpl; lia).
  rewrite (Z.mod_small (type_preference t * 2 ^ 24)), (Z.mod_small (l * 2 ^ 8)) by lia.
  rewrite Z.mod_small by lia. lia.
Qed.

(** The two agents of a session give a pair of candidates the same priority, although each
    calls its own candidate the local one; for priorities below 2^31, as RFC 8445 requires, the
    number is the one of the RFC without overflow, and it orders the pairs by their smaller
    priority, then by their larger one, whatever the roles are. *)
Theorem pair_priority_agrees g d g' d' :
  0 <= g < 2 ^ 31 -> 0 <= d < 2 ^ 31 -> 0 <= g' < 2 ^ 31 -> 0 <= d' < 2 ^ 31 ->
  calculate_pair_priority true g d = calculate_pair_priority false d g /\
  calculate_pair_priority true g d = 2 ^ 32 * Z.min g d + 2 * Z.max g d + (if d <? g then 1 else 0) /\
  (Z.min g d < Z.min g' d' \/ Z.min g d = Z.min g' d' /\ Z.max g d < Z.max g' d' ->
   forall b, calculate_pair_priority b g d < calculate_pair_priority b g' d').
Proof.
  intros Hg Hd Hg' Hd'.
  assert (forall x y, 0 <= x < 2 ^ 31 -> 0 <= y < 2 ^ 31 ->
    calculate_pair_priority true x y = 2 ^ 32 * Z.min x y + 2 * Z.max x y + (if y <? x then 1 else 0)) as K.
  { intros x y Hx Hy. unfold calculate_pair_priority, wrap. change (Z.shiftl 1 32) with (2 ^ 32).
    rewrite (Z.mod_small (2 ^ 32 * _)) by lia. apply Z.mod_small. destruct (y <? x); lia. }
  assert (forall x y, calculate_pair_priority false x y = calculate_pair_priority true y x) as S by done.
  split; [done|]. split; [by apply K|].
  intros H b. destruct b; rewrite ?S, !K by done; repeat case_match; lia.
Qed.

(** A candidate found closer to the network is preferred: for local preferences and
    components of their ranges the priority is the number of RFC 8445, a 31-bit value, ordered by
    candidate type first, then by local preference, then by component. *)
Theorem candidate_priority_order t l c t' l' c' :
  0 <= l <= 65535 -> 0 <= l' <= 65535 -> 1 <= c <= 255 -> 1 <= c' <= 255 ->
  0 <= calculate_priority t l c < 2 ^ 31 /\
  (calculate_priority t l c < calculate_priority t' l' c' <->
   type_preference t < type_preference t' \/
   type_preference t = type_preference t' /\ (l < l' \/ l = l' /\ c' < c)).
Proof.
  intros Hl Hl' Hc Hc'. rewrite !calculate_priority_exact by lia.
  assert (0 <= type_preference t <= 126) by (destruct t; simpl; lia).
  assert (0 <= type_preference t' <= 126) by (destruct t'; simpl; lia).
  split; [lia|]. split; [|lia]. lia.
Qed.

(** A peer may write any 32-bit priority into its description: two of them overflow the sum, and
    the pair sorts below every ordinary one. *)
Example pair_priority_overflow :
  calculate_pair_priority true 4294967295 4294967295 < calculate_pair_priority true 1 1.
Proof. vm_compute. reflexivity. Qed.

(** ** Witnesses *)

Definition sample_addr : SocketAddr quad := mkSocketAddr (chr 192, chr 0, chr 2, chr 1) 5000.

Lemma pair_priority_agrees_witness : calculate_pair_priority true 7 9 = calculate_pair_priority false 9 7.
Proof. apply (pair_priority_agrees 7 9 7 9); lia. Defined.
