(* ===== verification/Sdp.v ===== *)
(** * Session descriptions ([sdp/parser.rs], [sdp/builder.rs])

    The description, its parser, its text ([Display]) and the builders.  [HashMap<String, u32>]
    is a finite map, printed in key order as the code sorts it.  The properties show that a
    description survives being written and read. *)

From stdpp Require Import sorting.
From S2P Require Import Prelude RStr IceCandidate.

Local Open Scope Z_scope.

(** ** Data *)

Record Origin : Type := mkOrigin {
  o_username : str;
  o_session_id : str;
  o_session_version : str;
  o_net_type : str;
  o_addr_type : str;
  o_unicast_address : str
}.

Record Connection : Type := mkConnection { net_type : str; addr_type : str; c_address : str }.

Record Timing : Type := mkTiming { t_start : Z; t_stop : Z }.

Inductive MediaType : Type := Audio | Video | Application | Message | Other.

#[export] Instance media_type_eq : EqDecision MediaType.
Proof. solve_decision. Defined.

Inductive Direction : Type := SendRecv | SendOnly | RecvOnly | Inactive.

Record Attribute : Type := mkAttr { a_name : str; a_value : option str }.

Record MediaDescription : Type := mkMedia {
  media_type : MediaType;
  m_port : Z;
  num_ports : option Z;
  protocol : str;
  formats : list str;
  m_connection : option Connection;
  bandwidth : gmap str Z;
  m_attributes : list Attribute
}.

#[export] Instance media_eta : Settable MediaDescription := fun x =>
  mkMedia (media_type x) (m_port x) (num_ports x) (protocol x) (formats x) (m_connection x)
    (bandwidth x) (m_attributes x).

Record SessionDescription : Type := mkSdp {
  version : Z;
  origin : Origin;
  session_name : str;
  session_info : option str;
  connection : option Connection;
  timing : Timing;
  media : list MediaDescription;
  attributes : list Attribute
}.

#[export] Instance sdp_eta : Settable SessionDescription := fun x =>
  mkSdp (version x) (origin x) (session_name x) (session_info x) (connection x) (timing x)
    (media x) (attributes x).

Inductive SdpParseError : Type :=
| MissingVersion | InvalidVersion | MissingOrigin | InvalidOrigin | InvalidConnection
| MissingTiming | InvalidTiming | InvalidMedia.

(** ** Parsing *)

Definition origin_parse (value : str) : result Origin SdpParseError :=
  match split_whitespace value with
  | a :: b :: c :: d :: e :: f :: _ => Ok (mkOrigin a b c d e f)
  | _ => Err InvalidOrigin
  end.

Definition connection_parse (value : str) : result Connection SdpParseError :=
  match split_whitespace value with
  | a :: b :: c :: _ => Ok (mkConnection a b c)
  | _ => Err InvalidConnection
  end.

Definition timing_parse (value : str) : result Timing SdpParseError :=
  match split_whitespace value with
  | a :: b :: _ => Ok (mkTiming (default 0 (parse_uint u64_max a)) (default 0 (parse_uint u64_max b)))
  | _ => Err InvalidTiming
  end.

(** No character outside ASCII has a lower case among the letters of these words. *)
Definition media_type_from (s : str) : MediaType :=
  let s := to_ascii_lowercase s in
  if eqb s #"audio" then Audio
  else if eqb s #"video" then Video
  else if eqb s #"application" then Application
  else if eqb s #"message" then Message
  else Other.

Definition media_parse (value : str) : result MediaDescription SdpParseError :=
  match split_whitespace value with
  | p0 :: p1 :: p2 :: p3 :: rest =>
      let media_type := media_type_from p0 in
      let? (port, num_ports) :=
        match split_once "/"%char p1 with
        | Some (p, n) =>
            let? p := ok_or (parse_uint u16_max p) InvalidMedia in
            let? n := ok_or (parse_uint u16_max n) InvalidMedia in
            Ok (p, Some n)
        | None =>
            let? p := ok_or (parse_uint u16_max p1) InvalidMedia in Ok (p, None)
        end in
      Ok (mkMedia media_type port num_ports p2 (p3 :: rest) None ∅ [])
  | _ => Err InvalidMedia
  end.

Definition attribute_parse (value : str) : Attribute :=
  match split_once ":"%char value with
  | Some (name, val) => mkAttr name (Some val)
  | None => mkAttr value None
  end.

(** The variables of [SessionDescription::parse]. *)
Record pstate : Type := mkState {
  p_version : option Z;
  p_origin : option Origin;
  p_session_name : option str;
  p_session_info : option str;
  p_connection : option Connection;
  p_timing : option Timing;
  p_attributes : list Attribute;
  p_media : list MediaDescription;
  current_media : option MediaDescription
}.

#[export] Instance pstate_eta : Settable pstate := fun x =>
  mkState (p_version x) (p_origin x) (p_session_name x) (p_session_info x) (p_connection x)
    (p_timing x) (p_attributes x) (p_media x) (current_media x).

Definition is_ascii_alphabetic (c : ascii) : bool :=
  ((65 <=? code c) && (code c <=? 90)) || ((97 <=? code c) && (code c <=? 122)).

Definition chareq (a b : ascii) : bool := bool_decide (a = b).

(** A line inside a media section. *)
Definition media_field (m : MediaDescription) (k : ascii) (value : str)
  : result MediaDescription SdpParseError :=
  if chareq k "c" then let? c := connection_parse value in Ok (m <| m_connection := Some c |>)
  else if chareq k "b" then
    match split_once ":"%char value with
    | Some (btype, bw) =>
        Ok (m <| bandwidth := <[btype := default 0 (parse_uint u32_max bw)]> (bandwidth m) |>)
    | None => Ok m
    end
  else if chareq k "a" then Ok (m <| m_attributes := m_attributes m ++ [attribute_parse value] |>)
  else Ok m.

Definition session_field (st : pstate) (k : ascii) (value : str) : result pstate SdpParseError :=
  if chareq k "v" then
    let? v := ok_or (parse_uint u8_max value) InvalidVersion in Ok (st <| p_version := Some v |>)
  else if chareq k "o" then let? o := origin_parse value in Ok (st <| p_origin := Some o |>)
  else if chareq k "s" then Ok (st <| p_session_name := Some value |>)
  else if chareq k "i" then Ok (st <| p_session_info := Some value |>)
  else if chareq k "c" then let? c := connection_parse value in Ok (st <| p_connection := Some c |>)
  else if chareq k "t" then let? t := timing_parse value in Ok (st <| p_timing := Some t |>)
  else if chareq k "a" then Ok (st <| p_attributes := p_attributes st ++ [attribute_parse value] |>)
  else Ok st.

(** The finished media descriptions, the current one included. *)
Definition all_media (st : pstate) : list MediaDescription :=
  p_media st ++ match current_media st with Some m => [m] | None => [] end.

Definition parse_field (st : pstate) (k : ascii) (value : str) : result pstate SdpParseError :=
  if chareq k "m" then
    let st := st <| p_media := all_media st |> in
    let? m := media_parse value in
    Ok (st <| current_media := Some m |>)
  else
    match current_media st with
    | Some m => let? m := media_field m k value in Ok (st <| current_media := Some m |>)
    | None => session_field st k value
    end.

Definition parse_line (st : pstate) (line : str) : result pstate SdpParseError :=
  match trim line with
  | k :: e :: value =>
      if is_ascii_alphabetic k && chareq e "=" then parse_field st k value else Ok st
  | _ => Ok st
  end.

Fixpoint parse_lines (st : pstate) (ls : list str) : result pstate SdpParseError :=
  match ls with
  | [] => Ok st
  | l :: ls => let? st := parse_line st l in parse_lines st ls
  end.

Definition start_state : pstate := mkState None None None None None None [] [] None.

Definition finish (st : pstate) : result SessionDescription SdpParseError :=
  let? version := ok_or (p_version st) MissingVersion in
  let? origin := ok_or (p_origin st) MissingOrigin in
  let? timing := ok_or (p_timing st) MissingTiming in
  Ok (mkSdp version origin (default #"-" (p_session_name st)) (p_session_info st) (p_connection st)
        timing (all_media st) (p_attributes st)).

Definition sdp_parse (sdp : str) : result SessionDescription SdpParseError :=
  let? st := parse_lines start_state (lines sdp) in finish st.

(** ** Accessors *)

Definition audio_media (d : SessionDescription) : option MediaDescription :=
  list_find (fun m => media_type m = Audio) (media d) ≫= fun x => Some x.2.

Fixpoint direction_of (l : list Attribute) : Direction :=
  match l with
  | [] => SendRecv
  | a :: r =>
      if eqb (a_name a) #"sendrecv" then SendRecv
      else if eqb (a_name a) #"sendonly" then SendOnly
      else if eqb (a_name a) #"recvonly" then RecvOnly
      else if eqb (a_name a) #"inactive" then Inactive
      else direction_of r
  end.

Definition direction (m : MediaDescription) : Direction := direction_of (m_attributes m).

Record RtpMap : Type := mkRtpMap {
  r_payload_type : Z;
  r_encoding : str;
  r_clock_rate : Z;
  r_params : option str
}.

Definition rtpmap_parse (value : str) : option RtpMap :=
  let* (pt_str, rest) := split_once " "%char value in
  let* payload_type := parse_uint u8_max pt_str in
  let parts := split "/"%char rest in
  let* first := head parts in
  let encoding := trim first in
  if is_empty encoding then None else
  Some (mkRtpMap payload_type encoding
          (default 8000 (let* s := parts !! 1%nat in parse_uint u32_max s)) (parts !! 2%nat)).

Definition channels (r : RtpMap) : Z := default 1 (let* p := r_params r in parse_uint u8_max p).

Definition rtpmaps (m : MediaDescription) : list RtpMap :=
  omap (fun a => if eqb (a_name a) #"rtpmap" then let* v := a_value a in rtpmap_parse v else None)
    (m_attributes m).

Record Fmtp : Type := mkFmtp { f_payload_type : Z; f_params : str }.

Definition fmtp_parse (value : str) : option Fmtp :=
  let* (pt_str, params) := split_once " "%char value in
  let* pt := parse_uint u8_max pt_str in
  Some (mkFmtp pt params).

Definition fmtps (m : MediaDescription) : list Fmtp :=
  omap (fun a => if eqb (a_name a) #"fmtp" then let* v := a_value a in fmtp_parse v else None)
    (m_attributes m).

Definition is_rejected (m : MediaDescription) : bool := m_port m =? 0.

(** ** Text *)

(** [writeln!(f, "k=v")] *)
Definition text_line (k : ascii) (v : str) : str := k :: "="%char :: v ++ [LF].

Definition connection_text (c : Connection) : str :=
  net_type c ++ #" " ++ addr_type c ++ #" " ++ c_address c.

Definition attribute_text (a : Attribute) : str :=
  match a_value a with Some v => a_name a ++ #":" ++ v | None => a_name a end.

Definition media_type_text (t : MediaType) : str :=
  match t with
  | Audio => #"audio" | Video => #"video" | Application => #"application" | Message => #"message"
  | Other => #"other"
  end.

(** [a.0.cmp(b.0)]: byte by byte. *)
Fixpoint str_le (a b : str) : bool :=
  match a, b with
  | [], _ => true
  | _ :: _, [] => false
  | x :: a, y :: b => if code x <? code y then true else if code y <? code x then false else str_le a b
  end.

Definition key_le (a b : str * Z) : Prop := str_le a.1 b.1 = true.

#[export] Instance key_le_dec a b : Decision (key_le a b).
Proof. unfold key_le. apply _. Defined.

Definition sorted_bandwidth (m : MediaDescription) : list (str * Z) :=
  merge_sort key_le (map_to_list (bandwidth m)).

(** The fields of the [m=] line. *)
Definition media_text (m : MediaDescription) : str :=
  media_type_text (media_type m) ++ #" " ++ dec (m_port m) ++ #" " ++ protocol m ++
  concat (map (fun fmt => #" " ++ fmt) (formats m)).

Definition write_media (m : MediaDescription) : str :=
  text_line "m" (media_text m) ++
  match m_connection m with Some c => text_line "c" (connection_text c) | None => [] end ++
  concat (map (fun kv => text_line "b" (kv.1 ++ #":" ++ dec kv.2)) (sorted_bandwidth m)) ++
  concat (map (fun a => text_line "a" (attribute_text a)) (m_attributes m)).

Definition origin_text (o : Origin) : str :=
  o_username o ++ #" " ++ o_session_id o ++ #" " ++ o_session_version o ++ #" " ++
  o_net_type o ++ #" " ++ o_addr_type o ++ #" " ++ o_unicast_address o.

Definition sdp_to_string (d : SessionDescription) : str :=
  text_line "v" (dec (version d)) ++
  text_line "o" (origin_text (origin d)) ++
  text_line "s" (session_name d) ++
  match session_info d with Some info => text_line "i" info | None => [] end ++
  match connection d with Some c => text_line "c" (connection_text c) | None => [] end ++
  text_line "t" (dec (t_start (timing d)) ++ #" " ++ dec (t_stop (timing d))) ++
  concat (map (fun a => text_line "a" (attribute_text a)) (attributes d)) ++
  concat (map write_media (media d)).

(** ** Builders *)

Record MediaBuilder : Type := mkMB {
  mb_media_type : MediaType;
  mb_port : Z;
  mb_protocol : str;
  mb_formats : list str;
  mb_direction : Direction;
  mb_rtpmaps : list (Z * str * Z * option Z);
  mb_fmtps : list (Z * str);
  mb_ptime : option Z
}.

#[export] Instance mb_eta : Settable MediaBuilder := fun x =>
  mkMB (mb_media_type x) (mb_port x) (mb_protocol x) (mb_formats x) (mb_direction x) (mb_rtpmaps x)
    (mb_fmtps x) (mb_ptime x).

Definition mb_audio (port : Z) : MediaBuilder := mkMB Audio port #"RTP/AVP" [] SendRecv [] [] None.

Definition mb_codec (pt : Z) (encoding : str) (clock_rate : Z) (ch : option Z) (b : MediaBuilder)
  : MediaBuilder :=
  b <| mb_formats := mb_formats b ++ [dec pt] |>
    <| mb_rtpmaps := mb_rtpmaps b ++ [(pt, encoding, clock_rate, ch)] |>.

Definition mb_pcmu : MediaBuilder -> MediaBuilder := mb_codec 0 #"PCMU" 8000 None.
Definition mb_pcma : MediaBuilder -> MediaBuilder := mb_codec 8 #"PCMA" 8000 None.
Definition mb_g722 : MediaBuilder -> MediaBuilder := mb_codec 9 #"G722" 8000 None.

Definition mb_fmtp (pt : Z) (params : str) (b : MediaBuilder) : MediaBuilder :=
  b <| mb_fmtps := mb_fmtps b ++ [(pt, params)] |>.

Definition mb_telephone_event (pt : Z) (b : MediaBuilder) : MediaBuilder :=
  mb_fmtp pt #"0-16" (mb_codec pt #"telephone-event" 8000 None b).

Definition mb_set_protocol (p : str) (b : MediaBuilder) : MediaBuilder := b <| mb_protocol := p |>.
Definition mb_set_direction (d : Direction) (b : MediaBuilder) : MediaBuilder := b <| mb_direction := d |>.
Definition mb_set_ptime (p : Z) (b : MediaBuilder) : MediaBuilder := b <| mb_ptime := Some p |>.

Definition direction_name (d : Direction) : str :=
  match d with
  | SendRecv => #"sendrecv" | SendOnly => #"sendonly" | RecvOnly => #"recvonly" | Inactive => #"inactive"
  end.

Definition rtpmap_text (pt : Z) (encoding : str) (rate : Z) (ch : option Z) : str :=
  dec pt ++ #" " ++ encoding ++ #"/" ++ dec rate ++
  match ch with Some ch => #"/" ++ dec ch | None => [] end.

Definition mb_build (b : MediaBuilder) : MediaDescription :=
  mkMedia (mb_media_type b) (mb_port b) None (mb_protocol b) (mb_formats b) None ∅
    (map (fun '(pt, encoding, rate, ch) => mkAttr #"rtpmap" (Some (rtpmap_text pt encoding rate ch)))
       (mb_rtpmaps b) ++
     map (fun '(pt, params) => mkAttr #"fmtp" (Some (dec pt ++ #" " ++ params))) (mb_fmtps b) ++
     match mb_ptime b with Some p => [mkAttr #"ptime" (Some (dec p))] | None => [] end ++
     [mkAttr (direction_name (mb_direction b)) None]).

Section SdpBuilder.
Context {ip : Type} `{!IpAddr ip}.

Record SdpBuilder : Type := mkSB {
  sb_username : str;
  sb_session_id : Z;
  sb_session_version : Z;
  sb_local_addr : ip;
  sb_session_name : str;
  sb_media : list MediaBuilder
}.

(** The session id is a random number. *)
Definition sb_new (random : Z) (local_addr : ip) : SdpBuilder := mkSB #"-" random 1 local_addr #"-" [].

Definition sb_set_username (u : str) (b : SdpBuilder) : SdpBuilder :=
  mkSB u (sb_session_id b) (sb_session_version b) (sb_local_addr b) (sb_session_name b) (sb_media b).
Definition sb_set_session_id (i : Z) (b : SdpBuilder) : SdpBuilder :=
  mkSB (sb_username b) i (sb_session_version b) (sb_local_addr b) (sb_session_name b) (sb_media b).
Definition sb_set_session_version (v : Z) (b : SdpBuilder) : SdpBuilder :=
  mkSB (sb_username b) (sb_session_id b) v (sb_local_addr b) (sb_session_name b) (sb_media b).
Definition sb_set_session_name (n : str) (b : SdpBuilder) : SdpBuilder :=
  mkSB (sb_username b) (sb_session_id b) (sb_session_version b) (sb_local_addr b) n (sb_media b).

Definition sb_add_media (m : MediaBuilder) (b : SdpBuilder) : SdpBuilder :=
  mkSB (sb_username b) (sb_session_id b) (sb_session_version b) (sb_local_addr b)
    (sb_session_name b) (sb_media b ++ [m]).

Definition sb_audio (port : Z) (b : SdpBuilder) : SdpBuilder := sb_add_media (mb_audio port) b.

(** Multicast addresses carry a time to live after a slash. *)
Definition connection_ip_addr (c : Connection) : option ip :=
  ip_parse (default [] (head (split "/"%char (c_address c)))).

Definition ip_type (a : ip) : str := if is_ipv4 a then #"IP4" else #"IP6".

Definition sb_build (b : SdpBuilder) : SessionDescription :=
  let addr := ip_to_string (sb_local_addr b) in
  mkSdp 0
    (mkOrigin (sb_username b) (dec (sb_session_id b)) (dec (sb_session_version b)) #"IN"
       (ip_type (sb_local_addr b)) addr)
    (sb_session_name b) None
    (Some (mkConnection #"IN" (ip_type (sb_local_addr b)) addr))
    (mkTiming 0 0) (map mb_build (sb_media b)) [].

Definition sb_build_string (b : SdpBuilder) : str := sdp_to_string (sb_build b).

End SdpBuilder.

(** ** Lines *)

(** What a line can carry: no line break, no whitespace at its end. *)
Definition line_ok (v : str) : Prop := ~ In LF v /\ ws_len_rev (reverse v) = 0%nat.

Lemma alpha_tokc k : is_ascii_alphabetic k = true -> tokc k = true.
Proof.
  unfold is_ascii_alphabetic, tokc, ws1. pose proof (code_range k) as Hr. intros H.
  apply orb_true_iff in H. apply andb_true_iff. split; [apply Z.ltb_lt; destruct H; zbool; lia|].
  apply negb_true_iff, orb_false_iff. split; [apply andb_false_iff; right; apply Z.leb_gt|apply Z.eqb_neq];
    destruct H; zbool; lia.
Qed.

Lemma trimmed_line k v :
  is_ascii_alphabetic k = true -> line_ok v -> trimmed (k :: "="%char :: v).
Proof.
  intros Hk%alpha_tokc [_ Hv]. split; [by apply ws_len_tok|].
  rewrite !reverse_cons. rewrite <- app_assoc. cbn [app].
  destruct (reverse v) as [|a [|b [|c r]]]; cbn [app ws_len_rev] in *; try done.
  - unfold ws2. change (ws1 "="%char) with false. change (code "="%char) with 61. by rewrite andb_false_r.
  - destruct (ws1 a); [done|]. unfold ws2, ws3. change (code "="%char) with 61.
    rewrite ?andb_false_r. by rewrite ?andb_false_l.
Qed.

Lemma alpha_not_LF k : is_ascii_alphabetic k = true -> k <> LF.
Proof. intros H ->. by vm_compute in H. Qed.

Lemma strip_cr_trimmed s : trimmed s -> strip_cr s = s.
Proof.
  intros [_ H]. unfold strip_cr. destruct (reverse s) as [|c r]; [done|].
  case_bool_decide as E; [|done]. subst c. by vm_compute in H.
Qed.

Definition field : Type := (ascii * str).

Definition field_ok (kv : field) : Prop := is_ascii_alphabetic kv.1 = true /\ line_ok kv.2.

Definition fields_text (l : list field) : str := concat (map (fun kv => text_line kv.1 kv.2) l).

Lemma lines_fields l :
  Forall field_ok l -> lines (fields_text l) = map (fun kv => kv.1 :: "="%char :: kv.2) l.
Proof.
  unfold lines, fields_text. induction l as [|[k v] l IH]; intros H; [done|].
  inversion H as [|? ? [Hk Hv] Hl]; subst. cbn [map concat fst snd] in *. unfold text_line at 1.
  replace ((k :: "="%char :: v ++ [LF]) ++ concat (map (fun kv => text_line kv.1 kv.2) l))
    with ((k :: "="%char :: v) ++ LF :: concat (map (fun kv => text_line kv.1 kv.2) l))
    by (simpl; by rewrite <- app_assoc).
  rewrite split_app.
  2:{ pose proof (alpha_not_LF k Hk) as Hne. destruct Hv as [Hv _]. simpl. intros [E|[E|E]]; [done| |done].
      by vm_compute in E. }
  specialize (IH Hl). remember (split LF _) as r eqn:Er. destruct r as [|p r].
  { exfalso. by destruct (concat _); simpl in Er; [|repeat case_match]. }
  change (lines_of (?x :: p :: r)) with (strip_cr x :: lines_of (p :: r)). rewrite IH. f_equal. apply strip_cr_trimmed. by apply trimmed_line.
Qed.

Lemma parse_line_field st k v :
  field_ok (k, v) -> parse_line st (k :: "="%char :: v) = parse_field st k v.
Proof.
  intros [Hk Hv]. simpl in *. unfold parse_line.
  rewrite (trimmed_trim _ (trimmed_line k v Hk Hv)). unfold chareq. by rewrite Hk, bool_decide_true.
Qed.

Fixpoint parse_fields (st : pstate) (l : list field) : result pstate SdpParseError :=
  match l with
  | [] => Ok st
  | (k, v) :: l => let? st := parse_field st k v in parse_fields st l
  end.

Lemma parse_lines_fields st l :
  Forall field_ok l -> parse_lines st (lines (fields_text l)) = parse_fields st l.
Proof.
  intros H. rewrite lines_fields by done. revert st.
  induction H as [|[k v] l Hkv Hl IH]; intros st; [done|]. cbn [map parse_lines parse_fields fst snd].
  rewrite parse_line_field by done. by destruct (parse_field st k v); simpl.
Qed.

Lemma parse_fields_app st l l' st' :
  parse_fields st l = Ok st' -> parse_fields st (l ++ l') = parse_fields st' l'.
Proof.
  revert st. induction l as [|[k v] l IH]; intros st; simpl; [by intros [= ->]|].
  destruct (parse_field st k v); simpl; [apply IH|done].
Qed.

(** ** Well-formed descriptions *)

Definition connection_ok (c : Connection) : Prop :=
  word (net_type c) /\ word (addr_type c) /\ word (c_address c).

Definition attribute_ok (a : Attribute) : Prop :=
  ~ In ":"%char (a_name a) /\ line_ok (attribute_text a).

Record media_ok (m : MediaDescription) : Prop := {
  mo_port : is_u16 (m_port m);
  mo_num : num_ports m = None;
  mo_protocol : word (protocol m);
  mo_formats : formats m <> [] /\ Forall word (formats m);
  mo_connection : forall c, m_connection m = Some c -> connection_ok c;
  mo_bandwidth : map_Forall (fun k v => ~ In ":"%char k /\ ~ In LF k /\ is_u32 v) (bandwidth m);
  mo_attributes : Forall attribute_ok (m_attributes m)
}.

Definition origin_words (o : Origin) : list str :=
  [o_username o; o_session_id o; o_session_version o; o_net_type o; o_addr_type o; o_unicast_address o].

Record sdp_ok (d : SessionDescription) : Prop := {
  so_version : is_u8 (version d);
  so_origin : Forall word (origin_words (origin d));
  so_name : line_ok (session_name d);
  so_info : forall i, session_info d = Some i -> line_ok i;
  so_connection : forall c, connection d = Some c -> connection_ok c;
  so_timing : is_u64 (t_start (timing d)) /\ is_u64 (t_stop (timing d));
  so_media : Forall media_ok (media d);
  so_attributes : Forall attribute_ok (attributes d)
}.

(** ** The fields of a description *)

Definition opt_field {A} (k : ascii) (f : A -> str) (o : option A) : list field :=
  match o with Some x => [(k, f x)] | None => [] end.

Definition attribute_fields (l : list Attribute) : list field :=
  map (fun a => ("a"%char, attribute_text a)) l.

Definition media_fields (m : MediaDescription) : list field :=
  ("m"%char, media_text m) :: opt_field "c" connection_text (m_connection m) ++
  map (fun kv => ("b"%char, kv.1 ++ #":" ++ dec kv.2)) (sorted_bandwidth m) ++
  attribute_fields (m_attributes m).

Definition session_fields (d : SessionDescription) : list field :=
  [("v"%char, dec (version d)); ("o"%char, origin_text (origin d)); ("s"%char, session_name d)] ++
  opt_field "i" (fun i => i) (session_info d) ++ opt_field "c" connection_text (connection d) ++
  [("t"%char, dec (t_start (timing d)) ++ #" " ++ dec (t_stop (timing d)))] ++
  attribute_fields (attributes d).

Lemma fields_text_app l l' : fields_text (l ++ l') = fields_text l ++ fields_text l'.
Proof. unfold fields_text. by rewrite map_app, concat_app. Qed.

Lemma fields_text_cons kv l : fields_text (kv :: l) = text_line kv.1 kv.2 ++ fields_text l.
Proof. done. Qed.

Lemma fields_text_opt {A} k (f : A -> str) o :
  fields_text (opt_field k f o) = match o with Some x => text_line k (f x) | None => [] end.
Proof. destruct o; [|done]. unfold fields_text. simpl. by rewrite app_nil_r. Qed.

Lemma fields_text_map {A} k (f : A -> str) l :
  fields_text (map (fun x => (k, f x)) l) = concat (map (fun x => text_line k (f x)) l).
Proof. unfold fields_text. by rewrite map_map. Qed.

Lemma write_media_fields m : write_media m = fields_text (media_fields m).
Proof.
  unfold write_media, media_fields, attribute_fields.
  by rewrite fields_text_cons, !fields_text_app, fields_text_opt, !fields_text_map.
Qed.

Lemma sdp_to_string_fields d :
  sdp_to_string d = fields_text (session_fields d ++ concat (map media_fields (media d))).
Proof.
  unfold sdp_to_string, session_fields, attribute_fields.
  rewrite !fields_text_app, !fields_text_opt, fields_text_map.
  assert (fields_text (concat (map media_fields (media d))) = concat (map write_media (media d))) as ->.
  { induction (media d) as [|m l IH]; [done|]. cbn [map concat].
    by rewrite fields_text_app, IH, write_media_fields. }
  rewrite !fields_text_cons. unfold fields_text at 1 2. cbn [map concat fst snd].
  by rewrite !app_nil_r, <- !app_assoc.
Qed.

(** A text that ends in an ASCII character other than whitespace. *)
Definition ends_tok (s : str) : Prop := exists c, last s = Some c /\ tokc c = true.

Lemma ends_tok_app a b : ends_tok b -> ends_tok (a ++ b).
Proof. intros (c & H & Hc). exists c. by rewrite last_app, H. Qed.

Lemma ends_tok_word w : word w -> ends_tok w.
Proof.
  intros [Hne H]. destruct (exists_last Hne) as (u & c & ->). exists c. rewrite last_snoc.
  apply Forall_app in H as [_ H]. by inversion H.
Qed.

Lemma line_ok_ends s : ~ In LF s -> ends_tok s -> line_ok s.
Proof.
  intros H (c & [u ->]%last_Some & Hc). split; [done|]. rewrite reverse_app. by apply ws_len_rev_tok.
Qed.

Lemma tok_not_LF s : Forall (fun c => tokc c = true) s -> ~ In LF s.
Proof.
  intros H Hin. rewrite Forall_forall in H. specialize (H LF). rewrite list_elem_of_In in H.
  by specialize (H Hin).
Qed.

Lemma line_ok_word w : word w -> line_ok w.
Proof. intros H. apply line_ok_ends; [apply tok_not_LF, H|by apply ends_tok_word]. Qed.

(** Words joined by spaces fill a line. *)
Lemma line_ok_words w l : Forall word (w :: l) -> line_ok (join #" " (w :: l)).
Proof.
  intros H. apply line_ok_ends; revert w H; induction l as [|x l IH]; intros w H;
    inversion H as [|? ? Hw Hl]; subst.
  - apply tok_not_LF, Hw.
  - change (join #" " (w :: x :: l)) with (w ++ #" " ++ join #" " (x :: l)). rewrite !in_app_iff.
    intros [E|[E|E]]; [by apply (tok_not_LF w) in E; [|apply Hw]| |by apply (IH x Hl)].
    destruct E as [E|[]]. by vm_compute in E.
  - by apply ends_tok_word.
  - change (join #" " (w :: x :: l)) with (w ++ #" " ++ join #" " (x :: l)). by apply ends_tok_app, ends_tok_app, IH.
Qed.

Lemma split_words l : Forall word l -> split_whitespace (join #" " l) = l.
Proof. apply split_whitespace_join. Qed.

(** ** Reading the fields back *)

Lemma attribute_roundtrip a : attribute_ok a -> attribute_parse (attribute_text a) = a.
Proof.
  intros [H _]. destruct a as [n [v|]]; unfold attribute_parse, attribute_text; simpl in *.
  - by rewrite split_once_app.
  - by rewrite split_once_none.
Qed.

Lemma connection_roundtrip c : connection_ok c -> connection_parse (connection_text c) = Ok c.
Proof.
  intros (H1 & H2 & H3). destruct c as [a b d]. unfold connection_parse, connection_text. simpl in *.
  change (a ++ " "%char :: b ++ " "%char :: d) with (join #" " [a; b; d]). by rewrite split_words by auto.
Qed.

Lemma origin_roundtrip o : Forall word (origin_words o) -> origin_parse (origin_text o) = Ok o.
Proof.
  intros H. unfold origin_parse. change (origin_text o) with (join #" " (origin_words o)).
  rewrite split_words by done. by destruct o.
Qed.

Lemma timing_roundtrip t :
  is_u64 (t_start t) -> is_u64 (t_stop t) ->
  timing_parse (dec (t_start t) ++ #" " ++ dec (t_stop t)) = Ok t.
Proof.
  intros H1 H2. unfold in_width in *. unfold timing_parse.
  change (dec (t_start t) ++ #" " ++ dec (t_stop t)) with (join #" " [dec (t_start t); dec (t_stop t)]).
  rewrite split_words by (repeat constructor; apply word_dec; lia).
  rewrite !parse_dec by (unfold u64_max; lia). by destruct t.
Qed.

Lemma join_cons_formats w (l : list str) :
  join #" " (w :: l) = w ++ concat (map (fun fmt => #" " ++ fmt) l).
Proof.
  revert w. induction l as [|x l IH]; intros w; [simpl; by rewrite app_nil_r|].
  change (join #" " (w :: x :: l)) with (w ++ #" " ++ join #" " (x :: l)). rewrite IH. done.
Qed.

Lemma media_text_words m :
  media_text m = join #" " (media_type_text (media_type m) :: dec (m_port m) :: protocol m :: formats m).
Proof. rewrite join_cons_formats. unfold media_text. simpl. by rewrite <- ?app_assoc. Qed.

Lemma media_words_ok m :
  media_ok m ->
  Forall word (media_type_text (media_type m) :: dec (m_port m) :: protocol m :: formats m).
Proof.
  intros [H1 H2 H3 [H4 H5] _ _ _]. unfold in_width in H1. repeat (apply Forall_cons; split); try done.
  - by destruct (media_type m); apply word_lit.
  - apply word_dec. lia.
Qed.

Lemma media_roundtrip m :
  media_ok m ->
  media_parse (media_text m) =
    Ok (mkMedia (media_type m) (m_port m) None (protocol m) (formats m) None ∅ []).
Proof.
  intros H. unfold media_parse. rewrite media_text_words, split_words by by apply media_words_ok.
  destruct H as [H1 _ _ [H4 _] _ _ _]. destruct (formats m) as [|f l]; [done|].
  rewrite split_once_none.
  2:{ intros Hin. unfold in_width in H1. pose proof (dec_digits (m_port m) ltac:(lia)) as F.
      rewrite Forall_forall in F. specialize (F "/"%char). rewrite list_elem_of_In in F. by specialize (F Hin). }
  rewrite parse_dec by (unfold u16_max, in_width in *; lia). simpl. f_equal. by destruct (media_type m).
Qed.

Lemma session_attributes_read l st :
  Forall attribute_ok l -> current_media st = None ->
  parse_fields st (attribute_fields l) = Ok (st <| p_attributes := p_attributes st ++ l |>).
Proof.
  intros H. revert st. induction H as [|a l Ha Hl IH]; intros [? ? ? ? ? ? at_ ? cm] Hc; simpl in *; subst cm.
  - by rewrite app_nil_r.
  - unfold parse_field. simpl. rewrite attribute_roundtrip by done. rewrite IH by done.
    simpl. by rewrite <- app_assoc.
Qed.

Lemma media_attributes_read l st m :
  Forall attribute_ok l -> current_media st = Some m ->
  parse_fields st (attribute_fields l) =
    Ok (st <| current_media := Some (m <| m_attributes := m_attributes m ++ l |>) |>).
Proof.
  intros H. revert st m. induction H as [|a l Ha Hl IH]; intros [? ? ? ? ? ? ? ? cm] m Hc; simpl in *; subst cm.
  - rewrite app_nil_r. by destruct m.
  - unfold parse_field. simpl. rewrite attribute_roundtrip by done.
    rewrite (IH _ (m <| m_attributes := m_attributes m ++ [a] |>)) by done.
    simpl. by rewrite <- app_assoc.
Qed.

(** Inserting the entries one after the other. *)
Definition insert_all (l : list (str * Z)) (b : gmap str Z) : gmap str Z :=
  foldl (fun b kv => <[kv.1 := kv.2]> b) b l.

Lemma media_bandwidth_read l st m :
  Forall (fun kv : str * Z => ~ In ":"%char kv.1 /\ is_u32 kv.2) l -> current_media st = Some m ->
  parse_fields st (map (fun kv => ("b"%char, kv.1 ++ #":" ++ dec kv.2)) l) =
    Ok (st <| current_media := Some (m <| bandwidth := insert_all l (bandwidth m) |>) |>).
Proof.
  intros H. revert st m.
  induction H as [|[k v] l [Hk Hv] Hl IH]; intros [? ? ? ? ? ? ? ? cm] m Hc; simpl in *; subst cm.
  - by destruct m.
  - unfold parse_field. simpl. unfold media_field. simpl. rewrite split_once_app by done.
    rewrite parse_dec by (unfold u32_max, in_width in *; lia).
    cbn [rbind]. by rewrite (IH _ (m <| bandwidth := <[k := v]> (bandwidth m) |>)).
Qed.

Lemma insert_all_lookup l b k :
  NoDup l.*1 -> insert_all l b !! k = match (list_to_map l : gmap str Z) !! k with Some v => Some v | None => b !! k end.
Proof.
  revert b. induction l as [|[k' v] l IH]; intros b H; simpl in *; [by rewrite lookup_empty|].
  inversion H as [|? ? Hk Hl]; subst. unfold insert_all in *. simpl. rewrite IH by done.
  destruct (decide (k = k')) as [->|Hne].
  - rewrite lookup_insert_eq. rewrite not_elem_of_list_to_map_1 by done. by rewrite lookup_insert_eq.
  - rewrite !lookup_insert_ne by done. done.
Qed.

Lemma sorted_bandwidth_map m : insert_all (sorted_bandwidth m) ∅ = bandwidth m.
Proof.
  assert (sorted_bandwidth m ≡ₚ map_to_list (bandwidth m)) as P by apply merge_sort_Permutation.
  assert (NoDup (sorted_bandwidth m).*1) as N by (rewrite P; apply NoDup_fst_map_to_list).
  apply map_eq. intros k. rewrite insert_all_lookup by done.
  rewrite (list_to_map_proper _ _ N P), list_to_map_to_list, lookup_empty. by destruct (bandwidth m !! k).
Qed.

Lemma sorted_bandwidth_ok m :
  media_ok m ->
  Forall (fun kv : str * Z => ~ In ":"%char kv.1 /\ ~ In LF kv.1 /\ is_u32 kv.2) (sorted_bandwidth m).
Proof.
  intros H. unfold sorted_bandwidth. rewrite merge_sort_Permutation.
  apply Forall_forall. intros [k v] Hin%elem_of_map_to_list. by apply (mo_bandwidth _ H k v).
Qed.

Lemma media_fields_ok m : media_ok m -> Forall field_ok (media_fields m).
Proof.
  intros H. unfold media_fields. apply Forall_cons. split.
  { split; [done|]. simpl. rewrite media_text_words. apply line_ok_words. by apply media_words_ok. }
  rewrite !Forall_app. split_and!.
  - destruct (m_connection m) as [c|] eqn:E; [|done]. apply Forall_singleton. split; [done|].
    destruct (mo_connection _ H c E) as (? & ? & ?).
    apply (line_ok_words (net_type c) [addr_type c; c_address c]). by auto.
  - apply Forall_map. eapply Forall_impl; [by apply sorted_bandwidth_ok|].
    intros [k v] (_ & Hk & Hv). unfold in_width in Hv. simpl in *. split; [done|]. simpl. apply line_ok_ends.
    + rewrite in_app_iff. intros [?|[E|E]]; [done|by vm_compute in E|].
      by apply (tok_not_LF (dec v)) in E; [|apply dec_tok; lia].
    + apply (ends_tok_app k), (ends_tok_app #":"), ends_tok_word, word_dec. lia.
  - apply Forall_map. eapply Forall_impl; [apply (mo_attributes _ H)|]. by intros a [_ Ha].
Qed.

Lemma media_fields_read m st :
  media_ok m ->
  parse_fields st (media_fields m) = Ok (st <| p_media := all_media st |> <| current_media := Some m |>).
Proof.
  intros H. unfold media_fields. set (st1 := st <| p_media := all_media st |>).
  set (m0 := mkMedia (media_type m) (m_port m) None (protocol m) (formats m) None ∅ []).
  cbn [parse_fields]. unfold parse_field at 1. change (chareq "m" "m") with true. cbn iota.
  rewrite (media_roundtrip m H). cbn [rbind]. fold st1 m0.
  assert (parse_fields (st1 <| current_media := Some m0 |>) (opt_field "c" connection_text (m_connection m)) =
    Ok (st1 <| current_media := Some (m0 <| m_connection := m_connection m |>) |>)) as E1.
  { destruct (m_connection m) as [c|] eqn:E; [|done]. simpl. unfold parse_field. simpl.
    unfold media_field. simpl. by rewrite (connection_roundtrip c (mo_connection _ H c E)). }
  rewrite (parse_fields_app _ _ _ _ E1).
  set (m1 := m0 <| m_connection := m_connection m |>) in *. set (st2 := st1 <| current_media := Some m1 |>) in *.
  pose proof (media_bandwidth_read (sorted_bandwidth m) st2 m1) as E2.
  rewrite (parse_fields_app _ _ _ _ (E2 ltac:(eapply Forall_impl; [by apply sorted_bandwidth_ok|by intros ? (? & ? & ?)]) eq_refl)).
  set (m2 := m1 <| bandwidth := _ |>).
  rewrite (media_attributes_read _ _ m2); [|apply (mo_attributes _ H)|reflexivity].
  simpl. rewrite sorted_bandwidth_map. destruct H as [_ Hn _ _ _ _ _]. destruct m; simpl in *. by subst.
Qed.

Lemma session_fields_ok d : sdp_ok d -> Forall field_ok (session_fields d).
Proof.
  intros [H1 H2 H3 H4 H5 [H6 H7] _ H8]. unfold session_fields, in_width in *.
  rewrite !Forall_app. split_and!.
  - repeat (apply Forall_cons; split); try done; split; try done; simpl.
    + apply line_ok_word, word_dec. lia.
    + by apply (line_ok_words (o_username (origin d)) (tail (origin_words (origin d)))).
  - destruct (session_info d) as [i|]; [|done]. apply Forall_singleton. split; [done|]. by apply H4.
  - destruct (connection d) as [c|]; [|done]. apply Forall_singleton. split; [done|].
    destruct (H5 c eq_refl) as (? & ? & ?).
    apply (line_ok_words (net_type c) [addr_type c; c_address c]). by auto.
  - apply Forall_singleton. split; [done|].
    apply (line_ok_words (dec (t_start (timing d))) [dec (t_stop (timing d))]).
    repeat (apply Forall_cons; split); try done; apply word_dec; lia.
  - apply Forall_map. eapply Forall_impl; [exact H8|]. by intros a [_ Ha].
Qed.

Lemma session_fields_read d :
  sdp_ok d ->
  parse_fields start_state (session_fields d) =
    Ok (mkState (Some (version d)) (Some (origin d)) (Some (session_name d)) (session_info d)
          (connection d) (Some (timing d)) (attributes d) [] None).
Proof.
  intros [H1 H2 H3 H4 H5 [H6 H7] _ H8]. unfold session_fields.
  assert (parse_fields start_state
    [("v"%char, dec (version d)); ("o"%char, origin_text (origin d)); ("s"%char, session_name d)] =
    Ok (mkState (Some (version d)) (Some (origin d)) (Some (session_name d)) None None None [] [] None)) as E1.
  { cbn [parse_fields]. unfold parse_field, session_field. simpl.
    rewrite parse_dec by (unfold u8_max, in_width in *; lia). simpl. by rewrite origin_roundtrip. }
  rewrite (parse_fields_app _ _ _ _ E1). set (st1 := mkState _ _ _ _ _ _ _ _ _).
  assert (parse_fields st1 (opt_field "i" (fun i => i) (session_info d)) =
    Ok (st1 <| p_session_info := session_info d |>)) as E2 by by destruct (session_info d).
  rewrite (parse_fields_app _ _ _ _ E2). set (st2 := st1 <| p_session_info := _ |>).
  assert (parse_fields st2 (opt_field "c" connection_text (connection d)) =
    Ok (st2 <| p_connection := connection d |>)) as E3.
  { destruct (connection d) as [c|]; [|done]. cbn [opt_field parse_fields]. unfold parse_field. simpl.
    unfold session_field. simpl. by rewrite (connection_roundtrip c (H5 c eq_refl)). }
  rewrite (parse_fields_app _ _ _ _ E3). set (st3 := st2 <| p_connection := _ |>).
  assert (parse_fields st3 [("t"%char, dec (t_start (timing d)) ++ #" " ++ dec (t_stop (timing d)))] =
    Ok (st3 <| p_timing := Some (timing d) |>)) as E4.
  { cbn [parse_fields]. unfold parse_field. cbn [current_media]. unfold session_field.
    change (chareq "t" "m") with false. simpl (current_media st3). cbn iota.
    change (chareq "t" "t") with true. change (chareq "t" "v") with false. change (chareq "t" "o") with false.
    change (chareq "t" "s") with false. change (chareq "t" "i") with false. change (chareq "t" "c") with false.
    cbn iota. by rewrite timing_roundtrip. }
  rewrite (parse_fields_app _ _ _ _ E4).
  by rewrite session_attributes_read.
Qed.

Lemma all_media_read l st :
  Forall media_ok l ->
  exists st', parse_fields st (concat (map media_fields l)) = Ok st' /\
    all_media st' = all_media st ++ l /\
    st' = st <| p_media := p_media st' |> <| current_media := current_media st' |>.
Proof.
  intros H. revert st. induction H as [|m l Hm Hl IH]; intros st.
  - exists st. rewrite app_nil_r. by destruct st.
  - cbn [map concat]. rewrite (parse_fields_app _ _ _ _ (media_fields_read m st Hm)).
    destruct (IH (st <| p_media := all_media st |> <| current_media := Some m |>)) as (st' & E & A & R).
    exists st'. split; [done|]. split; [|by rewrite R; destruct st].
    rewrite A. unfold all_media at 1. simpl. by rewrite <- app_assoc.
Qed.

(** All the fields of a text, and what they are read as. *)
Definition all_fields (d : SessionDescription) : list field := session_fields d ++ concat (map media_fields (media d)).

Lemma all_fields_ok d : sdp_ok d -> Forall field_ok (all_fields d).
Proof.
  intros H. apply Forall_app. split; [by apply session_fields_ok|].
  apply Forall_concat, Forall_map. eapply Forall_impl; [apply (so_media _ H)|apply media_fields_ok].
Qed.

Lemma all_fields_read d : sdp_ok d -> (let? st := parse_fields start_state (all_fields d) in finish st) = Ok d.
Proof.
  intros H. unfold all_fields. rewrite (parse_fields_app _ _ _ _ (session_fields_read d H)).
  destruct (all_media_read (media d) (mkState (Some (version d)) (Some (origin d)) (Some (session_name d))
    (session_info d) (connection d) (Some (timing d)) (attributes d) [] None) (so_media _ H)) as (st & E & A & R).
  rewrite E. cbn [rbind]. unfold finish. rewrite A, R. simpl. by destruct d.
Qed.

(** ** Properties *)

(** C25: a description that can be written is read back as it was: origin, name, connections,
    timing, every media section with its formats, bandwidths and attributes, in order. *)
Theorem sdp_roundtrip d : sdp_ok d -> sdp_parse (sdp_to_string d) = Ok d.
Proof.
  intros H. unfold sdp_parse. rewrite sdp_to_string_fields, parse_lines_fields by by apply all_fields_ok.
  by apply all_fields_read.
Qed.

(** The number of ports of an [m=] line is read but not written. *)
Example num_ports_not_written :
  option_map (fun m => (m_port m, num_ports m)) (rok (media_parse #"audio 49170/2 RTP/AVP 0")) =
    Some (49170, Some 2) /\
  option_map media_text (rok (media_parse #"audio 49170/2 RTP/AVP 0")) = Some #"audio 49170 RTP/AVP 0".
Proof. by vm_compute. Qed.

(** ** Witness *)

Definition sample_offer : SessionDescription :=
  sb_build (sb_add_media (mb_telephone_event 101 (mb_pcma (mb_pcmu (mb_audio 49170))))
              (sb_new 7 (chr 192, chr 0, chr 2, chr 1))).

Lemma sdp_roundtrip_witness :
  sdp_ok sample_offer /\ sdp_parse (sdp_to_string sample_offer) = Ok sample_offer.
Proof.
  assert (forall s, negb (is_empty s) && forallb tokc s = true -> word s) as W by apply word_lit.
  assert (sdp_ok sample_offer) as H.
  { split.
    - by vm_compute.
    - repeat (apply Forall_cons; split); try done; apply W; by vm_compute.
    - apply line_ok_word, W. by vm_compute.
    - done.
    - intros c [= <-]. split_and!; apply W; by vm_compute.
    - by vm_compute.
    - apply Forall_singleton. split; try done.
      + apply W. by vm_compute.
      + split; [done|]. repeat (apply Forall_cons; split); try done; apply W; by vm_compute.
      + repeat (apply Forall_cons; split); try done.
        all: split; [rewrite <- contains_char_in; by vm_compute|].
        all: split; [rewrite <- contains_char_in; by vm_compute|by vm_compute].
    - done. }
  split; [exact H|]. apply (sdp_roundtrip sample_offer H).
Defined.
