(* ===== verification/SdpAnswer.v ===== *)
(** * Offer and answer ([sdp/negotiation.rs], [sdp/ice_attrs.rs])

    The ICE attributes of a media section, the choice of a codec, the answer to an offer and
    what the offerer reads from it; and the deferred answer of [session/manager.rs].  The
    Unicode table behind [str::to_uppercase] is a parameter. *)

From S2P Require Import Prelude RStr IceCandidate Sdp.

Local Open Scope Z_scope.

(** ** [sdp/ice_attrs.rs] *)

Definition attr_value (m : MediaDescription) (name : str) : option str :=
  let* (_, a) := list_find (fun a => eqb (a_name a) name = true) (m_attributes m) in a_value a.

Definition read_ice_credentials (m : MediaDescription) : option (str * str) :=
  let* ufrag := attr_value m #"ice-ufrag" in
  let* pwd := attr_value m #"ice-pwd" in
  Some (ufrag, pwd).

Definition read_rtcp_mux (m : MediaDescription) : bool :=
  existsb (fun a => eqb (a_name a) #"rtcp-mux") (m_attributes m).

Definition write_rtcp_mux (m : MediaDescription) : MediaDescription :=
  if read_rtcp_mux m then m
  else m <| m_attributes := m_attributes m ++ [mkAttr #"rtcp-mux" None] |>.

(** [Vec::retain] of the attributes with other names. *)
Definition drop_attrs (names : list str) (l : list Attribute) : list Attribute :=
  List.filter (fun a => negb (existsb (eqb (a_name a)) names)) l.

Definition write_ice_credentials (ufrag pwd : str) (m : MediaDescription) : MediaDescription :=
  m <| m_attributes := drop_attrs [ #"ice-ufrag"; #"ice-pwd"] (m_attributes m) ++
         [mkAttr #"ice-ufrag" (Some ufrag); mkAttr #"ice-pwd" (Some pwd)] |>.

Section Ice.
Context {ip : Type} `{!IpAddr ip}.

Definition read_candidates (m : MediaDescription) : list (Candidate ip) :=
  omap (fun a => if eqb (a_name a) #"candidate" then let* v := a_value a in candidate_from_sdp v else None)
    (m_attributes m).

Definition write_candidates (cands : list (Candidate ip)) (m : MediaDescription) : MediaDescription :=
  m <| m_attributes := drop_attrs [ #"candidate"] (m_attributes m) ++
         map (fun c => mkAttr #"candidate" (Some (candidate_to_sdp c))) cands |>.

(** The media-level [c=] line and the port of one media section; [None] is the panic on an
    index out of bounds. *)
Definition default_candidate_media (default_ : Candidate ip) (m : MediaDescription) : MediaDescription :=
  let addr := addr_ip (address default_) in
  let m := m <| m_port := addr_port (address default_) |> in
  m <| m_connection :=
    Some match m_connection m with
         | Some conn => mkConnection (net_type conn) (ip_type addr) (ip_to_string addr)
         | None => mkConnection #"IN" (ip_type addr) (ip_to_string addr)
         end |>.

Definition apply_default_candidate (d : SessionDescription) (media_index : nat) (default_ : Candidate ip)
  : option SessionDescription :=
  let* m := media d !! media_index in
  Some (d <| media := <[media_index := default_candidate_media default_ m]> (media d) |>).

End Ice.

(** ** [sdp/negotiation.rs] *)

Record Codec : Type := mkCodec {
  payload_type : Z;
  encoding : str;
  clock_rate : Z;
  c_channels : Z;
  fmtp : option str
}.

Definition codec_new (pt : Z) (encoding : str) (clock_rate : Z) : Codec := mkCodec pt encoding clock_rate 1 None.
Definition codec_with_channels (n : Z) (c : Codec) : Codec :=
  mkCodec (payload_type c) (encoding c) (clock_rate c) n (fmtp c).
Definition codec_with_fmtp (f : str) (c : Codec) : Codec :=
  mkCodec (payload_type c) (encoding c) (clock_rate c) (c_channels c) (Some f).
Definition pcmu : Codec := codec_new 0 #"PCMU" 8000.
Definition pcma : Codec := codec_new 8 #"PCMA" 8000.
Definition g722 : Codec := codec_new 9 #"G722" 8000.

Record NegotiatedMedia : Type := mkNeg {
  codec : Codec;
  remote_port : Z;
  remote_addr : option str;
  n_direction : Direction
}.

#[export] Instance neg_eta : Settable NegotiatedMedia := fun x =>
  mkNeg (codec x) (remote_port x) (remote_addr x) (n_direction x).

Definition swap_direction (d : Direction) : Direction :=
  match d with SendRecv => SendRecv | SendOnly => RecvOnly | RecvOnly => SendOnly | Inactive => Inactive end.

Definition create_media_attributes (c : Codec) (d : Direction) : list Attribute :=
  mkAttr #"rtpmap" (Some (rtpmap_text (payload_type c) (encoding c) (clock_rate c)
    (if 1 <? c_channels c then Some (c_channels c) else None))) ::
  match fmtp c with
  | Some f => [mkAttr #"fmtp" (Some (dec (payload_type c) ++ #" " ++ f))]
  | None => []
  end ++ [mkAttr (direction_name d) None].

Definition static_codec (pt : Z) : option Codec :=
  if pt =? 0 then Some pcmu else if pt =? 8 then Some pcma else if pt =? 9 then Some g722 else None.

(** The address of a media section, or else of the session. *)
Definition media_addr (session_addr : option str) (m : MediaDescription) : option str :=
  or_else (option_map c_address (m_connection m)) session_addr.

Definition rtpmap_codec (r : RtpMap) (f : option str) : Codec :=
  mkCodec (r_payload_type r) (r_encoding r) (r_clock_rate r) (channels r) f.

Section Negotiation.
Context {ip : Type} `{!IpAddr ip}.
Variable to_uppercase : str -> str.

Definition matches (c : Codec) (r : RtpMap) : bool :=
  eqb (to_uppercase (encoding c)) (to_uppercase (r_encoding r)) && (clock_rate c =? r_clock_rate r).

(** The first offered map a local codec matches. *)
Fixpoint find_rtpmap (maps : list RtpMap) (local_codecs : list Codec) : option Codec :=
  match maps with
  | [] => None
  | r :: maps =>
      match List.find (fun c => matches c r) local_codecs with
      | Some local_codec => Some (rtpmap_codec r (fmtp local_codec))
      | None => find_rtpmap maps local_codecs
      end
  end.

(** The first offered static payload type a local codec matches. *)
Fixpoint find_static (fmts : list str) (local_codecs : list Codec) : option Codec :=
  match fmts with
  | [] => None
  | fmt :: fmts =>
      match (let* pt := parse_uint u8_max fmt in static_codec pt) with
      | Some c =>
          if existsb (fun l => matches l (mkRtpMap (payload_type c) (encoding c) (clock_rate c) None)) local_codecs
          then Some c else find_static fmts local_codecs
      | None => find_static fmts local_codecs
      end
  end.

Definition negotiate_media (offer_media : MediaDescription) (local_codecs : list Codec)
  (remote : option str) : option NegotiatedMedia :=
  let* c := or_else (find_rtpmap (rtpmaps offer_media) local_codecs)
              (find_static (formats offer_media) local_codecs) in
  Some (mkNeg c (m_port offer_media) remote (direction offer_media)).

(** The body of the loop of [create_answer]: one media section of the answer. *)
Definition answer_media (session_addr : option str) (local_codecs : list Codec) (local_port : Z)
  (m : MediaDescription) : MediaDescription * option NegotiatedMedia :=
  if negb (bool_decide (media_type m = Audio)) then (m <| m_port := 0 |>, None) else
  let offer_has_ice := negb (Nat.eqb (length (read_candidates (ip := ip) m)) 0) in
  let offer_has_mux := read_rtcp_mux m in
  if offer_has_ice && negb offer_has_mux then (m <| m_port := 0 |> <| m_attributes := [] |>, None) else
  match negotiate_media m local_codecs (media_addr session_addr m) with
  | Some n =>
      let new_direction := swap_direction (direction m) in
      let a := m <| m_port := local_port |> <| formats := [dec (payload_type (codec n))] |>
                 <| m_attributes := create_media_attributes (codec n) new_direction |> in
      (if offer_has_mux then write_rtcp_mux a else a, Some (n <| n_direction := new_direction |>))
  | None => (m <| m_port := 0 |>, None)
  end.

Definition create_answer (offer : SessionDescription) (local_codecs : list Codec) (local_port : Z)
  : option (SessionDescription * list NegotiatedMedia) :=
  let session_addr := option_map c_address (connection offer) in
  let sections := map (answer_media session_addr local_codecs local_port) (media offer) in
  match omap snd sections with
  | [] => None
  | negotiated => Some (offer <| media := map fst sections |>, negotiated)
  end.

End Negotiation.

(** What the offerer takes from one media section of the answer. *)
Definition answered_codec (m : MediaDescription) : option Codec :=
  match rtpmaps m with
  | r :: _ => Some (rtpmap_codec r None)
  | [] =>
      let* fmt := head (formats m) in
      let* pt := parse_uint u8_max fmt in
      static_codec pt
  end.

Definition process_media (session_addr : option str) (m : MediaDescription) : option NegotiatedMedia :=
  if is_rejected m then None
  else if negb (bool_decide (media_type m = Audio)) then None
  else
    let* c := answered_codec m in
    Some (mkNeg c (m_port m) (media_addr session_addr m) (direction m)).

Definition process_answer (answer : SessionDescription) : list NegotiatedMedia :=
  omap (process_media (option_map c_address (connection answer))) (media answer).

(** ** The deferred answer ([CallManager::build_answer_for]) *)

Section Deferred.
Context {ip : Type} `{!IpAddr ip}.

(** [position] of the first audio section. *)
Definition audio_index (l : list MediaDescription) : option nat :=
  option_map fst (list_find (fun m => media_type m = Audio) l).

(** The answer made from the cached offer and negotiation once the candidates are known. *)
Definition deferred_answer (offer : SessionDescription) (negotiated : NegotiatedMedia)
  (default_ : Candidate ip) (ufrag pwd : str) (cands : list (Candidate ip)) : option SessionDescription :=
  let answer_direction := swap_direction (n_direction negotiated) in
  let* i := audio_index (media offer) in
  let* audio := media offer !! i in
  let audio := audio <| m_port := addr_port (address default_) |>
                 <| formats := [dec (payload_type (codec negotiated))] |>
                 <| m_attributes := create_media_attributes (codec negotiated) answer_direction |> in
  let* offer := apply_default_candidate (offer <| media := <[i := audio]> (media offer) |>) i default_ in
  let* audio := media offer !! i in
  let audio := write_rtcp_mux (write_candidates cands (write_ice_credentials ufrag pwd audio)) in
  Some (offer <| media := <[i := audio]> (media offer) |>).

End Deferred.

(** ** Lemmas *)

(** What the printed map of a codec must look like to be read back. *)
Record codec_ok (c : Codec) : Prop := {
  ck_pt : is_u8 (payload_type c);
  ck_name : encoding c <> [] /\ trim (encoding c) = encoding c /\ ~ In "/"%char (encoding c);
  ck_rate : is_u32 (clock_rate c);
  ck_channels : is_u8 (c_channels c)
}.

Lemma no_char_dec c n : 0 <= n -> is_ascii_digit c = false -> ~ In c (dec n).
Proof.
  intros Hn Hc Hin. pose proof (dec_digits n Hn) as F. rewrite Forall_forall in F. specialize (F c).
  rewrite list_elem_of_In in F. by rewrite (F Hin) in Hc.
Qed.

Lemma rtpmap_roundtrip c ch :
  codec_ok c -> (forall n, ch = Some n -> is_u8 n) ->
  rtpmap_parse (rtpmap_text (payload_type c) (encoding c) (clock_rate c) ch) =
    Some (mkRtpMap (payload_type c) (encoding c) (clock_rate c) (option_map dec ch)).
Proof.
  intros [H1 (H2 & H3 & H4) H5 _] Hch. unfold in_width in *. unfold rtpmap_parse, rtpmap_text.
  change (#" " ++ ?x) with (" "%char :: x). change (#"/" ++ ?x) with ("/"%char :: x).
  rewrite split_once_app by (apply no_char_dec; [lia|done]). cbn [mbind option_bind].
  rewrite parse_dec by (unfold u8_max; lia). cbn [mbind option_bind].
  rewrite split_app by done.
  assert (split "/"%char (dec (clock_rate c) ++ match ch with Some ch => #"/" ++ dec ch | None => [] end) =
    dec (clock_rate c) :: option_list (option_map dec ch)) as ->.
  { destruct ch as [n|]; simpl.
    - rewrite split_app by (apply no_char_dec; [lia|done]).
      specialize (Hch n eq_refl). rewrite split_no by (apply no_char_dec; [lia|done]). done.
    - rewrite app_nil_r. by rewrite split_no by (apply no_char_dec; [lia|done]). }
  cbn [head lookup list_lookup mbind option_bind]. rewrite H3.
  destruct (encoding c); [done|]. cbn [is_empty]. rewrite parse_dec by (unfold u32_max; lia). by destruct ch.
Qed.

(** The name, rate and payload type of a map that was read can be written. *)
Lemma rtpmap_parse_ok v r f : rtpmap_parse v = Some r -> codec_ok (rtpmap_codec r f).
Proof.
  unfold rtpmap_parse. destruct (split_once " "%char v) as [[p rest]|]; [|done]. cbn [mbind option_bind].
  destruct (parse_uint u8_max p) as [pt|] eqn:Ep; [|done]. cbn [mbind option_bind].
  pose proof (split_pieces "/"%char rest) as F. destruct (split "/"%char rest) as [|e l]; [done|].
  cbn [head mbind option_bind]. destruct (is_empty (trim e)) eqn:Ee; [done|].
  intros H. apply (inj Some) in H. subst r. apply parse_uint_bound in Ep; [|unfold u8_max; lia].
  split; simpl; unfold in_width.
  - unfold u8_max in Ep. lia.
  - split; [by destruct (trim e)|]. split; [apply trimmed_trim, trim_trimmed|].
    intros Hin%trim_sub. inversion F; subst. tauto.
  - destruct (l !! 0%nat) as [s|]; cbn [mbind option_bind default]; [|lia].
    destruct (parse_uint u32_max s) eqn:E; [|simpl; lia].
    apply parse_uint_bound in E; unfold u32_max in *; simpl; lia.
  - unfold channels. simpl. destruct (l !! 1%nat) as [s|]; cbn [mbind option_bind default]; [|lia].
    destruct (parse_uint u8_max s) eqn:E; [|simpl; lia].
    apply parse_uint_bound in E; unfold u8_max in *; simpl; lia.
Qed.

Lemma static_codec_ok pt c : static_codec pt = Some c -> codec_ok c.
Proof.
  unfold static_codec. repeat case_match; intros [= <-]; (split; [by vm_compute| |by vm_compute|by vm_compute]);
    split_and!; try done; rewrite <- contains_char_in; by vm_compute.
Qed.

(** The codec the offerer reads from the answer: without format parameters, at least one channel. *)
Definition agreed (c : Codec) : Codec :=
  mkCodec (payload_type c) (encoding c) (clock_rate c) (Z.max 1 (c_channels c)) None.

Definition mux_attrs (mux : bool) : list Attribute := if mux then [mkAttr #"rtcp-mux" None] else [].

Lemma attributes_read m mux c d :
  codec_ok c -> m_attributes m = create_media_attributes c d ++ mux_attrs mux ->
  answered_codec m = Some (agreed c) /\ direction m = d.
Proof.
  intros Hc E. unfold answered_codec, rtpmaps, direction. rewrite E. unfold create_media_attributes.
  split.
  - cbn [app omap list_omap a_name a_value]. change (eqb #"rtpmap" #"rtpmap") with true. cbn iota.
    cbn [mbind option_bind]. rewrite rtpmap_roundtrip; [|done|].
    + unfold rtpmap_codec, agreed, channels. simpl. f_equal. f_equal.
      destruct Hc as [_ _ _ H]. unfold in_width in H. destruct (Z.ltb_spec 1 (c_channels c)); simpl; [|lia].
      rewrite parse_dec by (unfold u8_max; lia). simpl. lia.
    + intros n Hn. destruct (1 <? _); [|done]. apply (inj Some) in Hn as <-. apply Hc.
  - cbn [app direction_of a_name]. by destruct (fmtp c), d, mux.
Qed.

Section Agreement.
Context {ip : Type} `{!IpAddr ip}.
Variable to_uppercase : str -> str.

(** A codec the answerer has, under the offered name and rate. *)
Definition supported (local_codecs : list Codec) (c : Codec) : Prop :=
  exists l, In l local_codecs /\ clock_rate l = clock_rate c /\
    to_uppercase (encoding l) = to_uppercase (encoding c).

Lemma matches_spec l r :
  matches to_uppercase l r = true ->
  clock_rate l = r_clock_rate r /\ to_uppercase (encoding l) = to_uppercase (r_encoding r).
Proof. unfold matches. intros [H1%eqb_true H2%Z.eqb_eq]%andb_prop. done. Qed.

Lemma find_rtpmap_ok maps l c :
  Forall (fun r => forall f, codec_ok (rtpmap_codec r f)) maps ->
  find_rtpmap to_uppercase maps l = Some c -> codec_ok c /\ supported l c.
Proof.
  induction 1 as [|r maps Hr Hm IH]; [done|]. simpl.
  destruct (List.find _ l) as [lc|] eqn:E; [|done].
  intros H. apply (inj Some) in H. subst c. split; [done|].
  apply find_some in E as [Hin [H1 H2]%matches_spec]. by exists lc.
Qed.

Lemma find_static_ok fmts l c :
  find_static to_uppercase fmts l = Some c -> codec_ok c /\ supported l c.
Proof.
  induction fmts as [|f fmts IH]; [done|]. simpl.
  destruct (parse_uint u8_max f) as [pt|]; cbn [mbind option_bind]; [|done].
  destruct (static_codec pt) as [s|] eqn:E; [|done]. destruct (existsb _ l) eqn:Ex; [|done].
  intros H. apply (inj Some) in H. subst c. split; [by eapply static_codec_ok|].
  apply existsb_exists in Ex as (lc & Hin & [H1 H2]%matches_spec). by exists lc.
Qed.

Lemma rtpmaps_ok m : Forall (fun r => forall f, codec_ok (rtpmap_codec r f)) (rtpmaps m).
Proof.
  unfold rtpmaps. apply Forall_forall. intros r (a & Ha & E)%list_elem_of_omap.
  destruct (eqb _ _); [|done]. destruct (a_value a); [|done]. intros f. by eapply rtpmap_parse_ok.
Qed.

Lemma negotiate_media_ok m l addr n :
  negotiate_media to_uppercase m l addr = Some n -> codec_ok (codec n) /\ supported l (codec n).
Proof.
  unfold negotiate_media.
  destruct (or_else _ _) as [c|] eqn:E; [|done]. cbn [mbind option_bind]. intros [= <-]. simpl.
  destruct (find_rtpmap to_uppercase (rtpmaps m) l) as [c'|] eqn:E'; simpl in E.
  - apply (inj Some) in E. subst. eapply find_rtpmap_ok; [apply rtpmaps_ok|done].
  - by eapply find_static_ok.
Qed.

(** One section: what the answerer negotiated is what the offerer reads. *)
Lemma answer_media_agrees sa sa' l port m a o :
  answer_media (ip := ip) to_uppercase sa l port m = (a, o) -> 0 < port ->
  media_type a = media_type m /\
  match o with
  | Some n =>
      exists addr, process_media sa' a = Some (mkNeg (agreed (codec n)) port addr (n_direction n)) /\
        n_direction n = swap_direction (direction m) /\ supported l (codec n) /\ media_type m = Audio
  | None => process_media sa' a = None
  end.
Proof.
  unfold answer_media. intros H Hport. case_bool_decide as Ha; cbn [negb] in H; [|by simplify_eq].
  destruct (_ && _); [by simplify_eq|].
  destruct (negotiate_media to_uppercase m l (media_addr sa m)) as [n|] eqn:En; [|by simplify_eq].
  destruct (negotiate_media_ok _ _ _ _ En) as [Hc Hs].
  set (a0 := m <| m_port := port |> <| formats := _ |> <| m_attributes := _ |>) in H.
  assert (exists mux, m_attributes a = create_media_attributes (codec n) (swap_direction (direction m)) ++ mux_attrs mux /\
    m_port a = port /\ media_type a = media_type m) as (mux & Ea & Ep & Et).
  { injection H as <- _. destruct (read_rtcp_mux m); [|by exists false; rewrite app_nil_r].
    unfold write_rtcp_mux. destruct (read_rtcp_mux a0); [exists false|exists true]; rewrite ?app_nil_r; done. }
  injection H as _ <-. split; [done|].
  destruct (attributes_read a mux (codec n) _ Hc Ea) as [R1 R2].
  unfold process_media, is_rejected. rewrite Ep, Et, R1, R2, Ha.
  destruct (Z.eqb_spec port 0); [lia|]. simpl. by eexists.
Qed.

Lemma map_pairs {A A' B C} (f : A -> B) (g : A -> C) (f' : A' -> B) (g' : A' -> C) l l' :
  map (fun x => (f x, g x)) l = map (fun x => (f' x, g' x)) l' -> map f l = map f' l' /\ map g l = map g' l'.
Proof.
  revert l'. induction l as [|x l IH]; intros [|y l']; try done. cbn [map]. intros [= H1 H2 H].
  destruct (IH _ H) as [E1 E2]. by rewrite H1, H2, E1, E2.
Qed.

Lemma process_sections sa sa' l port ms :
  0 < port ->
  let sections := map (answer_media (ip := ip) to_uppercase sa l port) ms in
  map media_type (map fst sections) = map media_type ms /\
  map (fun n => (codec n, n_direction n)) (omap (process_media sa') (map fst sections)) =
    map (fun n => (agreed (codec n), n_direction n)) (omap snd sections) /\
  Forall (fun n => remote_port n = port) (omap (process_media sa') (map fst sections)) /\
  Forall (fun n => supported l (codec n)) (omap snd sections) /\
  (exists accepted, accepted `sublist_of` ms /\
    Forall2 (fun m n => media_type m = Audio /\ n_direction n = swap_direction (direction m)) accepted (omap snd sections)).
Proof.
  intros Hport. induction ms as [|m ms (I1 & I2 & I3 & I4 & ac & I5 & I6)].
  { split_and!; [done..|]. by exists []. }
  cbn [map]. destruct (answer_media to_uppercase sa l port m) as [a o] eqn:E.
  destruct (answer_media_agrees sa sa' l port m a o E Hport) as [T A]. cbn [fst snd omap list_omap map] in *.
  destruct o as [n|].
  - destruct A as (addr & -> & D & S & Hau). cbn [map codec n_direction].
    split_and!; [by f_equal|by f_equal|by constructor|by constructor|].
    exists (m :: ac). by split; constructor.
  - rewrite A. split_and!; [by f_equal|done|done|done|]. exists ac. by split; [constructor|].
Qed.

Lemma mirrored ac os :
  map n_direction os = map (fun m => swap_direction (direction m)) ac ->
  Forall2 (fun m n => n_direction n = swap_direction (direction m) /\
    (n_direction n = direction m <-> direction m = SendRecv \/ direction m = Inactive)) ac os.
Proof.
  revert os. induction ac as [|m ac IH]; intros [|o os]; [by constructor|done|done|]. cbn [map]. intros [= Ho Hos].
  constructor; [|by apply IH]. rewrite Ho. split; [done|]. destruct (direction m); cbn; intuition congruence.
Qed.

(** C26: what offerer and answerer agree on.  The answer has the media sections of the offer in their order;
    reading it, the offerer finds the codecs the answerer negotiated, section by section, at the answerer's port,
    and each is a codec the answerer has.  On the direction they do not agree: for each section that was accepted
    both record the answerer's direction, the mirror of the offered one, so what the offerer records is its own
    direction, as the field is documented, only where the media flows both ways or not at all. *)
Theorem offer_answer_agreement offer local_codecs local_port answer negotiated :
  create_answer (ip := ip) to_uppercase offer local_codecs local_port = Some (answer, negotiated) ->
  0 < local_port ->
  map media_type (media answer) = map media_type (media offer) /\
  map codec (process_answer answer) = map (fun n => agreed (codec n)) negotiated /\
  Forall (fun n => remote_port n = local_port) (process_answer answer) /\
  Forall (fun n => supported local_codecs (codec n)) negotiated /\
  exists accepted, accepted `sublist_of` media offer /\
    Forall2 (fun m n => media_type m = Audio /\ n_direction n = swap_direction (direction m)) accepted negotiated /\
    Forall2 (fun m n => n_direction n = swap_direction (direction m) /\
      (n_direction n = direction m <-> direction m = SendRecv \/ direction m = Inactive)) accepted (process_answer answer).
Proof.
  intros H Hport. unfold create_answer in H.
  set (sa := option_map c_address (connection offer)) in H.
  destruct (process_sections sa sa local_codecs local_port (media offer) Hport) as (I1 & I2 & I3 & I4 & ac & I5 & I6).
  destruct (omap snd (map (answer_media to_uppercase sa local_codecs local_port) (media offer))) as [|n ns] eqn:E;
    [done|].
  apply (inj Some) in H. injection H as <- <-. split_and!; [done| |done|done|exists ac; split; [done|]; split; [done|]].
  - exact (proj1 (map_pairs _ _ _ _ _ _ I2)).
  - apply map_pairs in I2 as [_ I2].
    assert (map n_direction (n :: ns) = map (fun m => swap_direction (direction m)) ac) as Ed.
    { clear -I6. induction I6 as [|m n' ? ? [_ Hd] ? IH]; [done|]. cbn [map]. by rewrite Hd, IH. }
    apply mirrored. rewrite <- Ed. exact I2.
Qed.

End Agreement.

(** ** ICE attributes *)

Section IceRoundtrip.
Context {ip : Type} `{!IpAddr ip}.

Lemma omap_drop {B} (f : Attribute -> option B) names l :
  (forall a, existsb (eqb (a_name a)) names = true -> f a = None) ->
  omap f (drop_attrs names l) = omap f l.
Proof.
  intros H. induction l as [|a l IH]; [done|]. simpl. destruct (existsb (eqb (a_name a)) names) eqn:E; simpl.
  - by rewrite (H a E).
  - destruct (f a); simpl; [f_equal|]; apply IH.
Qed.

Lemma omap_none {A B} (f : A -> option B) l : Forall (fun a => f a = None) l -> omap f l = [].
Proof. induction 1 as [|a l Ha Hl IH]; [done|]. simpl. by rewrite Ha. Qed.

Lemma drop_attrs_none names l : Forall (fun a => existsb (eqb (a_name a)) names = false) (drop_attrs names l).
Proof.
  induction l as [|a l IH]; simpl; [done|]. destruct (existsb (eqb (a_name a)) names) eqn:E; simpl; [done|].
  by constructor.
Qed.

Lemma attr_value_app m l l' name :
  m_attributes m = l ++ l' -> Forall (fun a => eqb (a_name a) name = false) l ->
  attr_value m name = let* (_, a) := list_find (fun a => eqb (a_name a) name = true) l' in a_value a.
Proof.
  intros E H. unfold attr_value. rewrite E, list_find_app_r.
  - by destruct (list_find _ l') as [[i a]|].
  - apply list_find_None. eapply Forall_impl; [exact H|]. simpl. congruence.
Qed.

Definition not_direction (s : str) : bool :=
  negb (eqb s #"sendrecv") && negb (eqb s #"sendonly") && negb (eqb s #"recvonly") && negb (eqb s #"inactive").

Lemma direction_skip a l : not_direction (a_name a) = true -> direction_of (a :: l) = direction_of l.
Proof.
  unfold not_direction. intros [[[H1 H2]%andb_prop H3]%andb_prop H4]%andb_prop.
  apply negb_true_iff in H1, H2, H3, H4. cbn [direction_of]. by rewrite H1, H2, H3, H4.
Qed.

Lemma direction_drop names l :
  forallb not_direction names = true -> direction_of (drop_attrs names l) = direction_of l.
Proof.
  intros Hn. induction l as [|a l IH]; [done|]. cbn [drop_attrs List.filter].
  destruct (existsb (eqb (a_name a)) names) eqn:E; cbn [negb].
  - apply existsb_exists in E as (n & Hin & E%eqb_true). rewrite direction_skip; [done|].
    rewrite forallb_forall in Hn. rewrite E. by apply Hn.
  - unfold drop_attrs in IH. cbn [direction_of]. by rewrite IH.
Qed.

Lemma direction_app l l' :
  Forall (fun a => not_direction (a_name a) = true) l' -> direction_of (l ++ l') = direction_of l.
Proof.
  intros H. induction l as [|a l IH]; [|simpl; by rewrite IH].
  simpl. induction H as [|a l Ha Hl IH]; [done|]. by rewrite direction_skip.
Qed.

(** The attributes [write_ice_credentials], [write_candidates] and [write_rtcp_mux] leave. *)
Definition ice_attributes (ufrag pwd : str) (cands : list (Candidate ip)) (mux : bool) (l : list Attribute)
  : list Attribute :=
  drop_attrs [ #"candidate"] (drop_attrs [ #"ice-ufrag"; #"ice-pwd"] l) ++
  [mkAttr #"ice-ufrag" (Some ufrag); mkAttr #"ice-pwd" (Some pwd)] ++
  map (fun c => mkAttr #"candidate" (Some (candidate_to_sdp c))) cands ++ mux_attrs mux.

Lemma written_attributes m ufrag pwd cands :
  exists mux, let m' := write_rtcp_mux (write_candidates cands (write_ice_credentials ufrag pwd m)) in
    m_attributes m' = ice_attributes ufrag pwd cands mux (m_attributes m) /\ read_rtcp_mux m' = true.
Proof.
  unfold write_rtcp_mux. destruct (read_rtcp_mux (write_candidates _ _)) eqn:E; [exists false|exists true];
    cbn zeta; (split; [|try done]); unfold ice_attributes, mux_attrs; simpl.
  - unfold drop_attrs. rewrite !List.filter_app, app_nil_r. simpl. by rewrite <- app_assoc.
  - unfold drop_attrs. rewrite !List.filter_app. simpl. by rewrite <- !app_assoc.
  - unfold read_rtcp_mux. simpl. rewrite existsb_app. simpl. by rewrite orb_true_r.
Qed.

Lemma written_candidates_read (cands : list (Candidate ip)) :
  Forall candidate_ok cands ->
  omap (fun a => if eqb (a_name a) #"candidate" then let* v := a_value a in candidate_from_sdp v else None)
    (map (fun c => mkAttr #"candidate" (Some (candidate_to_sdp c))) cands) = cands.
Proof.
  induction 1 as [|c cands Hc Hcs IH]; [done|]. cbn [map omap list_omap a_name a_value] in *.
  change (eqb #"candidate" #"candidate") with true in *. cbn [mbind option_bind] in *.
  by rewrite (candidate_roundtrip c Hc), IH.
Qed.

Lemma names_apart names (a : Attribute) (n : str) :
  existsb (eqb (a_name a)) names = true -> negb (existsb (eqb n) names) = true -> eqb (a_name a) n = false.
Proof.
  intros H1 H2%negb_true_iff. destruct (eqb (a_name a) n) eqn:E; [|done].
  apply eqb_true in E. rewrite E in H1. congruence.
Qed.

(** The ICE attributes one side writes into a media section are what the other side reads:
    the credentials, the candidates in order and the multiplexing flag, whatever the section held
    before; and the negotiated direction and codec maps are left alone. *)
Theorem ice_attributes_roundtrip m ufrag pwd (cands : list (Candidate ip)) :
  Forall candidate_ok cands ->
  let m' := write_rtcp_mux (write_candidates cands (write_ice_credentials ufrag pwd m)) in
  read_ice_credentials m' = Some (ufrag, pwd) /\ read_candidates m' = cands /\
  read_rtcp_mux m' = true /\ direction m' = direction m /\ rtpmaps m' = rtpmaps m.
Proof.
  intros Hc. destruct (written_attributes m ufrag pwd cands) as [mux [E M]]. cbn zeta in *.
  set (m' := write_rtcp_mux _) in *. clearbody m'.
  set (l0 := drop_attrs [ #"candidate"] (drop_attrs [ #"ice-ufrag"; #"ice-pwd"] (m_attributes m))).
  unfold ice_attributes in E. fold l0 in E.
  assert (Forall (fun a => existsb (eqb (a_name a)) [ #"ice-ufrag"; #"ice-pwd"] = false) l0) as H0.
  { apply Forall_forall. intros a Ha. unfold l0, drop_attrs at 1 in Ha.
    apply list_elem_of_In, filter_In in Ha as [Ha _]. apply list_elem_of_In in Ha.
    pose proof (drop_attrs_none [ #"ice-ufrag"; #"ice-pwd"] (m_attributes m)) as F.
    rewrite Forall_forall in F. by apply F. }
  split_and!.
  - unfold read_ice_credentials.
    rewrite (attr_value_app m' _ _ #"ice-ufrag" E), (attr_value_app m' _ _ #"ice-pwd" E); [done| |];
      (eapply Forall_impl; [exact H0|]); intros a [H1 [H2 _]%orb_false_iff]%orb_false_iff; done.
  - unfold read_candidates. rewrite E, !omap_app, (omap_none _ l0), written_candidates_read; [|done|].
    + by destruct mux; rewrite ?app_nil_r.
    + eapply Forall_impl; [apply drop_attrs_none|]. intros a [Ha _]%orb_false_iff. by rewrite Ha.
  - done.
  - unfold direction. rewrite E. unfold l0. rewrite direction_app; [by rewrite !direction_drop|].
    rewrite !Forall_app. split_and!; [by repeat constructor| |by destruct mux; repeat constructor].
    apply Forall_map, Forall_forall. by intros.
  - unfold rtpmaps. rewrite E, !omap_app. unfold l0.
    rewrite !omap_drop, (omap_none _ (map _ cands)), (omap_none _ (mux_attrs mux)).
    + by rewrite !app_nil_r.
    + by destruct mux; repeat constructor.
    + apply Forall_map, Forall_forall. by intros.
    + intros a Ha. by rewrite (names_apart _ _ #"rtpmap" Ha).
    + intros a Ha. by rewrite (names_apart _ _ #"rtpmap" Ha).
Qed.

End IceRoundtrip.

(** ** Examples and witness *)

(** An offer on hold, with a video section. *)
Definition held_offer : SessionDescription :=
  let d := sb_build (sb_add_media (mb_pcmu (mb_audio 49170)) (sb_new 7 (chr 192, chr 0, chr 2, chr 1))) in
  d <| media := map (fun m => m <| m_attributes := [mkAttr #"sendonly" None] |>) (media d) ++
         [mkMedia Video 5000 None #"RTP/AVP" [ #"31"] None ∅ []] |>.

Definition answer_summary (d : SessionDescription) : option str * list (MediaType * Z * Direction) :=
  (option_map c_address (connection d), map (fun m => (media_type m, m_port m, direction m)) (media d)).

(** The answer is a copy of the offer: its connection line is the offerer's own address. *)
Example answer_keeps_offer_address :
  option_map (fun r => (answer_summary r.1, map remote_addr (process_answer r.1)))
    (create_answer (ip := quad) to_ascii_uppercase held_offer [pcmu; pcma] 6000) =
  Some ((Some #"192.0.2.1", [(Audio, 6000, RecvOnly); (Video, 0, SendRecv)]), [Some #"192.0.2.1"]).
Proof. by vm_compute. Qed.

(** The deferred answer turns the direction around a second time, so an offer to send only is
    answered with send only, and it leaves the other sections as offered. *)
Example deferred_answer_direction :
  option_map answer_summary
    (let* (_, negotiated) := create_answer (ip := quad) to_ascii_uppercase held_offer [pcmu; pcma] 0 in
     let* n := last negotiated in
     deferred_answer held_offer n (host sample_addr 1) #"u" #"p" [host sample_addr 1]) =
  Some (Some #"192.0.2.1", [(Audio, 5000, SendOnly); (Video, 5000, SendRecv)]).
Proof. by vm_compute. Qed.

Lemma offer_answer_agreement_witness :
  exists answer negotiated accepted,
    create_answer (ip := quad) to_ascii_uppercase held_offer [pcmu; pcma] 6000 = Some (answer, negotiated) /\
    map codec (process_answer answer) = map (fun n => agreed (codec n)) negotiated /\ negotiated <> [] /\
    accepted `sublist_of` media held_offer /\
    Forall2 (fun m n => n_direction n = swap_direction (direction m) /\
      (n_direction n = direction m <-> direction m = SendRecv \/ direction m = Inactive)) accepted (process_answer answer).
Proof.
  destruct (create_answer (ip := quad) to_ascii_uppercase held_offer [pcmu; pcma] 6000) as [[a n]|] eqn:E.
  - destruct (offer_answer_agreement (ip := quad) to_ascii_uppercase held_offer [pcmu; pcma] 6000 a n E)
      as (_ & Hc & _ & _ & ac & Hs & _ & Hd); [lia|].
    exists a, n, ac. split; [reflexivity|]. split; [exact Hc|]. split; [|exact (conj Hs Hd)].
    intros ->. apply (f_equal (fun o => option_map (fun r => length (snd r)) o)) in E. by vm_compute in E.
  - apply (f_equal is_some) in E. by vm_compute in E.
Defined.

(** The offerer that put the call on hold, and sends, records that it receives. *)
Example held_direction :
  option_map (fun r => (map direction (take 1 (media held_offer)), map n_direction (process_answer r.1)))
    (create_answer (ip := quad) to_ascii_uppercase held_offer [pcmu; pcma] 6000) = Some ([SendOnly], [RecvOnly]).
Proof. by vm_compute. Qed.

Lemma ice_attributes_roundtrip_witness :
  let m := mb_build (mb_pcmu (mb_audio 49170)) in
  read_candidates (write_rtcp_mux (write_candidates [server_reflexive sample_addr sample_addr 1]
    (write_ice_credentials #"u" #"p" m))) = [server_reflexive sample_addr sample_addr 1].
Proof.
  intros m. apply (ice_attributes_roundtrip m #"u" #"p" [server_reflexive sample_addr sample_addr 1]).
  apply Forall_singleton.
  split; [|unfold in_width; simpl; lia|by vm_compute|by vm_compute|].
  - split; [done|]. by repeat constructor.
  - intros a [= <-]. by vm_compute.
Defined.
