(* ===== verification/Dtmf.v ===== *)
(** * Telephone events ([rtp/dtmf.rs])

    The digits of RFC 4733, the four bytes of an event, the sender that turns a key press
    into RTP packets and the receiver that turns packets back into digits.  Arithmetic on
    [u32] wraps; the division by the samples of a packet panics ([None]) when the sample
    rate is below twenty. *)

From S2P Require Import Prelude RStr RtpPacket.

Local Open Scope Z_scope.

Inductive DtmfDigit : Type :=
| Zero | One | Two | Three | Four | Five | Six | Seven | Eight | Nine
| Star | Pound | A | B | C | D.

#[export] Instance digit_eq_dec : EqDecision DtmfDigit.
Proof. solve_decision. Defined.

Definition event_code (d : DtmfDigit) : Z :=
  match d with
  | Zero => 0 | One => 1 | Two => 2 | Three => 3 | Four => 4 | Five => 5 | Six => 6
  | Seven => 7 | Eight => 8 | Nine => 9 | Star => 10 | Pound => 11 | A => 12 | B => 13
  | C => 14 | D => 15
  end.

Definition from_event_code (code : Z) : option DtmfDigit :=
  match code with
  | 0 => Some Zero | 1 => Some One | 2 => Some Two | 3 => Some Three | 4 => Some Four
  | 5 => Some Five | 6 => Some Six | 7 => Some Seven | 8 => Some Eight | 9 => Some Nine
  | 10 => Some Star | 11 => Some Pound | 12 => Some A | 13 => Some B | 14 => Some C
  | 15 => Some D
  | _ => None
  end.

Definition from_char (c : ascii) : option DtmfDigit :=
  match c with
  | "0" => Some Zero | "1" => Some One | "2" => Some Two | "3" => Some Three
  | "4" => Some Four | "5" => Some Five | "6" => Some Six | "7" => Some Seven
  | "8" => Some Eight | "9" => Some Nine | "*" => Some Star | "#" => Some Pound
  | "A" | "a" => Some A | "B" | "b" => Some B | "C" | "c" => Some C | "D" | "d" => Some D
  | _ => None
  end%char.

Definition as_char (d : DtmfDigit) : ascii :=
  match d with
  | Zero => "0" | One => "1" | Two => "2" | Three => "3" | Four => "4" | Five => "5"
  | Six => "6" | Seven => "7" | Eight => "8" | Nine => "9" | Star => "*" | Pound => "#"
  | A => "A" | B => "B" | C => "C" | D => "D"
  end%char.

(** ** Events *)

Record DtmfEvent : Type := mkEvent {
  e_digit : DtmfDigit;
  e_end : bool;
  e_volume : Z;
  e_duration : Z
}.

#[export] Instance event_eta : Settable DtmfEvent := fun x =>
  mkEvent (e_digit x) (e_end x) (e_volume x) (e_duration x).

Definition event_new (digit : DtmfDigit) (duration : Z) : DtmfEvent := mkEvent digit false 10 duration.

Definition with_end (e : DtmfEvent) : DtmfEvent := e <| e_end := true |>.

Definition with_volume (volume : Z) (e : DtmfEvent) : DtmfEvent := e <| e_volume := Z.min volume 63 |>.

Definition encode (e : DtmfEvent) : list Z :=
  [event_code (e_digit e);
   Z.lor (if e_end e then 128 else 0) (Z.land (e_volume e) 63);
   Z.shiftr (e_duration e) 8;
   Z.land (e_duration e) 255].

Definition decode (data : list Z) : option DtmfEvent :=
  match data with
  | b0 :: b1 :: b2 :: b3 :: _ =>
      let* digit := from_event_code b0 in
      Some (mkEvent digit (negb (Z.land b1 128 =? 0)) (Z.land b1 63) (256 * b2 + b3))
  | _ => None
  end.

(** ** The sender *)

Record DtmfSender : Type := mkSender {
  s_payload_type : Z;
  s_ssrc : Z;
  s_sequence : Z;
  s_sample_rate : Z
}.

#[export] Instance sender_eta : Settable DtmfSender := fun x =>
  mkSender (s_payload_type x) (s_ssrc x) (s_sequence x) (s_sample_rate x).

(** [random] is the first sequence number, drawn at random. *)
Definition sender_new (random payload_type ssrc : Z) : DtmfSender :=
  mkSender payload_type ssrc random 8000.

Definition set_sample_rate (rate : Z) (s : DtmfSender) : DtmfSender := s <| s_sample_rate := rate |>.

Definition build_rtp_packet (s : DtmfSender) (event : DtmfEvent) (timestamp : Z) (marker : bool)
  : list Z :=
  [128; Z.lor (if marker then 128 else 0) (s_payload_type s)] ++ put_u16 (s_sequence s) ++
  put_u32 timestamp ++ put_u32 (s_ssrc s) ++ encode event.

Definition advance (s : DtmfSender) : DtmfSender := s <| s_sequence := wrap 16 (s_sequence s + 1) |>.

(** One round of the loop: the packet, and for the last round its two repetitions. *)
Definition generate_round (digit : DtmfDigit) (timestamp samples_per_packet packet_count : Z)
    (acc : list (list Z) * DtmfSender) (i : Z) : list (list Z) * DtmfSender :=
  let '(packets, s) := acc in
  let is_last := i =? packet_count - 1 in
  let current_duration := wrap 32 ((i + 1) * samples_per_packet) in
  let event := event_new digit (Z.min current_duration 65535) in
  let event := if is_last then with_end event else event in
  let packets := packets ++ [build_rtp_packet s event timestamp (i =? 0)] in
  let '(packets, s) :=
    if is_last then
      let s := advance s in
      let packets := packets ++ [build_rtp_packet s event timestamp false] in
      let s := advance s in
      (packets ++ [build_rtp_packet s event timestamp false], s)
    else (packets, s) in
  (packets, advance s).

Definition generate_packets (digit : DtmfDigit) (duration_ms timestamp : Z) (s : DtmfSender)
  : option (list (list Z) * DtmfSender) :=
  let samples_per_packet := s_sample_rate s / 20 in
  let total_samples := wrap 32 (duration_ms * s_sample_rate s) / 1000 in
  if samples_per_packet =? 0 then None else
  let packet_count := Z.max (total_samples / samples_per_packet) 1 in
  Some (foldl (generate_round digit timestamp samples_per_packet packet_count) ([], s)
          (seqZ 0 packet_count)).

(** ** The receiver *)

Record DtmfReceiver : Type := mkReceiver {
  r_payload_type : Z;
  current_event : option (DtmfDigit * Z);
  last_event : option DtmfDigit
}.

#[export] Instance receiver_eta : Settable DtmfReceiver := fun x =>
  mkReceiver (r_payload_type x) (current_event x) (last_event x).

Definition receiver_new (payload_type : Z) : DtmfReceiver := mkReceiver payload_type None None.

Definition process_packet (payload_type : Z) (payload : list Z) (r : DtmfReceiver)
  : option DtmfDigit * DtmfReceiver :=
  if negb (payload_type =? r_payload_type r) then (None, r) else
  match decode payload with
  | None => (None, r)
  | Some event =>
      if e_end event then
        let digit := e_digit event in
        let r := r <| current_event := None |> in
        if negb (bool_decide (last_event r = Some digit)) then
          (Some digit, r <| last_event := Some digit |>)
        else (None, r)
      else (None, (r <| current_event := Some (e_digit event, 0) |>) <| last_event := None |>)
  end.

Definition current_digit (r : DtmfReceiver) : option DtmfDigit := fst <$> current_event r.

Definition receiver_reset (r : DtmfReceiver) : DtmfReceiver :=
  (r <| current_event := None |>) <| last_event := None |>.

(** ** The codec of events *)

Lemma event_code_inv d : from_event_code (event_code d) = Some d.
Proof. by destruct d. Qed.

Lemma char_inv d : from_char (as_char d) = Some d.
Proof. by destruct d. Qed.

Definition event_ok (e : DtmfEvent) : Prop := 0 <= e_volume e < 64 /\ is_u16 (e_duration e).

Lemma flags_read (fin : bool) v :
  0 <= v < 64 ->
  let b := Z.lor (if fin then 128 else 0) (Z.land v 63) in
  negb (Z.land b 128 =? 0) = fin /\ Z.land b 63 = v.
Proof.
  intros H. assert (forallb (fun v => let b := Z.lor (if fin then 128 else 0) (Z.land v 63) in
    bool_decide (negb (Z.land b 128 =? 0) = fin) && (Z.land b 63 =? v)) (seqZ 0 64) = true) as K
    by (destruct fin; vm_compute; reflexivity).
  rewrite forallb_forall in K. specialize (K v ltac:(apply list_elem_of_In, elem_of_seqZ; lia)).
  cbv zeta in *. rewrite andb_true_iff, bool_decide_eq_true, Z.eqb_eq in K. tauto.
Qed.

Lemma decode_encode e : event_ok e -> decode (encode e) = Some e.
Proof.
  destruct e as [d f v u]. intros [Hv Hu]; simpl in Hv, Hu. unfold decode, encode; cbn [e_digit e_end e_volume e_duration].
  rewrite event_code_inv. cbn [mbind option_bind]. destruct (flags_read f v Hv) as [-> ->].
  rewrite Z.shiftr_div_pow2 by lia. change 255 with (Z.ones 8). rewrite Z.land_ones by lia.
  change (2 ^ 8) with 256. by rewrite <- Z_div_mod_eq_full.
Qed.

(** ** What a key press is sent as

    The [k]-th packet of a press of [n] rounds: consecutive sequence numbers, one timestamp,
    the marker on the first, a duration that grows to the end and three end packets. *)
Definition sent_packet (s : DtmfSender) (digit : DtmfDigit) (timestamp spp n k : Z) : RtpPacket :=
  let i := Z.min k (n - 1) in
  with_payload (encode (mkEvent digit (n - 1 <=? k) 10 (Z.min ((i + 1) * spp) 65535)))
    (with_marker (k =? 0) (new (s_payload_type s) (wrap 16 (s_sequence s + k)) timestamp (s_ssrc s))).

Definition rounds (rate duration_ms : Z) : Z := Z.max (duration_ms * rate / 1000 / (rate / 20)) 1.

Record sender_ok (s : DtmfSender) : Prop := {
  so_type : 0 <= s_payload_type s < 128;
  so_ssrc : is_u32 (s_ssrc s);
  so_seq : is_u16 (s_sequence s);
  so_rate : 20 <= s_sample_rate s < 2 ^ 32
}.

Lemma wrap_wrap_add w a b : wrap w (wrap w a + b) = wrap w (a + b).
Proof. unfold wrap. by rewrite Zplus_mod_idemp_l. Qed.

Definition skip (k : Z) (s : DtmfSender) : DtmfSender := s <| s_sequence := wrap 16 (s_sequence s + k) |>.

Lemma advance_skip k s : advance (skip k s) = skip (k + 1) s.
Proof. unfold advance, skip, set; simpl. rewrite wrap_wrap_add. do 2 f_equal. lia. Qed.

Lemma build_rtp_is_build s ev ts m :
  0 <= s_payload_type s < 128 ->
  build_rtp_packet s ev ts m =
  build (with_payload (encode ev) (with_marker m (new (s_payload_type s) (s_sequence s) ts (s_ssrc s)))).
Proof.
  intros H. unfold build_rtp_packet, build, second_byte. cbn -[put_u16 put_u32 encode Z.lor Z.land wrap].
  change 127 with (Z.ones 7). rewrite Z.land_ones, Z.mod_small by lia. by destruct m.
Qed.

Lemma rounds_pos rate d : 1 <= rounds rate d.
Proof. unfold rounds. lia. Qed.

(** The durations of the rounds fit in 32 bits. *)
Lemma round_duration rate d i :
  20 <= rate < 2 ^ 32 -> 0 <= d -> d * rate < 2 ^ 32 -> 0 <= i < rounds rate d ->
  wrap 32 ((i + 1) * (rate / 20)) = (i + 1) * (rate / 20).
Proof.
  intros Hr Hd Ho Hi. apply wrap_small. unfold in_width, rounds in *.
  assert (1 <= rate / 20) by (apply Z.div_le_lower_bound; lia).
  assert (rate / 20 <= rate) by (apply Z.div_le_upper_bound; lia).
  assert (0 <= d * rate / 1000 <= d * rate)
    by (split; [apply Z.div_pos; nia|apply Z.div_le_upper_bound; nia]).
  pose proof (Z.mul_div_le (d * rate / 1000) (rate / 20) ltac:(lia)).
  split; [nia|]. destruct (Z.max_spec (d * rate / 1000 / (rate / 20)) 1) as [[? E]|[? E]]; rewrite E in Hi; nia.
Qed.

Lemma seqZ_snoc n : 0 <= n -> seqZ 0 (n + 1) = seqZ 0 n ++ [n].
Proof. intros H. rewrite seqZ_app by lia. by rewrite Z.add_0_l. Qed.

(** The rounds before the last send one packet each. *)
Lemma early_rounds s digit ts spp n (j : nat) :
  0 <= s_payload_type s < 128 -> is_u16 (s_sequence s) ->
  (forall i, 0 <= i < n -> wrap 32 ((i + 1) * spp) = (i + 1) * spp) -> Z.of_nat j < n ->
  foldl (generate_round digit ts spp n) ([], s) (seqZ 0 (Z.of_nat j)) =
  (map (fun k => build (sent_packet s digit ts spp n k)) (seqZ 0 (Z.of_nat j)), skip (Z.of_nat j) s).
Proof.
  intros Ht Hs Hw. induction j as [|j IH]; intros Hj.
  - simpl. f_equal. unfold skip, set; simpl. rewrite Z.add_0_r, wrap_small by done. by destruct s.
  - rewrite Nat2Z.inj_succ, <- Z.add_1_r, seqZ_snoc, foldl_app, map_app, IH by lia. cbn [foldl map].
    unfold generate_round. destruct (Z.eqb_spec (Z.of_nat j) (n - 1)); [lia|].
    rewrite advance_skip, Hw by lia. f_equal. f_equal. f_equal.
    rewrite build_rtp_is_build by done. unfold sent_packet. cbv zeta.
    rewrite (Z.min_l (Z.of_nat j)) by lia. by destruct (Z.leb_spec (n - 1) (Z.of_nat j)); [lia|].
Qed.

(** The whole press: [rounds] packets and two repetitions of the last. *)
Lemma generate_packets_spec s digit d ts :
  sender_ok s -> 0 <= d -> d * s_sample_rate s < 2 ^ 32 ->
  let n := rounds (s_sample_rate s) d in
  generate_packets digit d ts s =
  Some (map (fun k => build (sent_packet s digit ts (s_sample_rate s / 20) n k)) (seqZ 0 (n + 2)),
        skip (n + 2) s).
Proof.
  intros [Ht _ Hs Hr] Hd Ho n. unfold generate_packets.
  assert (1 <= s_sample_rate s / 20) by (apply Z.div_le_lower_bound; lia).
  destruct (Z.eqb_spec (s_sample_rate s / 20) 0); [lia|].
  rewrite (wrap_small 32) by (unfold in_width; nia). fold (rounds (s_sample_rate s) d). fold n.
  pose proof (rounds_pos (s_sample_rate s) d) as Hn. fold n in Hn.
  assert (forall i, 0 <= i < n -> wrap 32 ((i + 1) * (s_sample_rate s / 20)) = (i + 1) * (s_sample_rate s / 20)) as Hw
    by (intros i Hi; by apply (round_duration _ d)).
  replace n with (n - 1 + 1) at 2 by lia. rewrite seqZ_snoc, foldl_app by lia.
  pose proof (early_rounds s digit ts (s_sample_rate s / 20) n (Z.to_nat (n - 1)) Ht Hs Hw ltac:(lia)) as E.
  rewrite Z2Nat.id in E by lia. rewrite E.
  cbn [foldl]. unfold generate_round. rewrite Z.eqb_refl, !advance_skip, Hw by lia.
  replace (n + 2) with (n - 1 + 1 + 1 + 1) by lia. rewrite !seqZ_snoc, !map_app by lia. cbn [map].
  rewrite !build_rtp_is_build by done. do 2 f_equal.
  unfold sent_packet. cbv zeta. rewrite !(Z.min_r _ (n - 1)) by lia.
  rewrite !(proj2 (Z.leb_le (n - 1) _)) by lia.
  destruct (Z.eqb_spec (n - 1 + 1) 0); [lia|]. by destruct (Z.eqb_spec (n - 1 + 1 + 1) 0); [lia|].
Qed.

(** ** Sender and receiver together *)

(** A datagram reaches the receiver through the RTP parser. *)
Definition hear (r : DtmfReceiver) (datagram : list Z) : option DtmfDigit * DtmfReceiver :=
  match parse datagram with
  | Some (Ok p) => process_packet (payload_type p) (payload p) r
  | _ => (None, r)
  end.

Fixpoint hear_all (r : DtmfReceiver) (datagrams : list (list Z)) : list DtmfDigit * DtmfReceiver :=
  match datagrams with
  | [] => ([], r)
  | b :: bs =>
      let '(d, r) := hear r b in
      let '(ds, r) := hear_all r bs in
      (option_list d ++ ds, r)
  end.

Record press : Type := mkPress { p_digit : DtmfDigit; p_duration : Z; p_timestamp : Z }.

Fixpoint send (s : DtmfSender) (ps : list press) : option (list (list (list Z)) * DtmfSender) :=
  match ps with
  | [] => Some ([], s)
  | p :: ps =>
      let* (packets, s) := generate_packets (p_digit p) (p_duration p) (p_timestamp p) s in
      let* (rest, s) := send s ps in
      Some (packets :: rest, s)
  end.

Definition press_ok (s : DtmfSender) (p : press) : Prop :=
  0 <= p_duration p /\ p_duration p * s_sample_rate s < 2 ^ 32 /\ is_u32 (p_timestamp p).

(** A datagram that carries an event with this end flag. *)
Definition carries (fin : bool) (b : list Z) : bool :=
  match parse b with
  | Some (Ok p) =>
      match decode (payload p) with
      | Some e => bool_decide (e_end e = fin)
      | None => false
      end
  | _ => false
  end.

(** What arrives of each press: some of its packets in order, an end packet among them, and
    the beginning of the press too where the digit before it was the same. *)
Fixpoint arrives (prev : option DtmfDigit) (ps : list press) (sent got : list (list (list Z))) : Prop :=
  match ps, sent, got with
  | [], [], [] => True
  | p :: ps, s :: sent, g :: got =>
      sublist g s /\ existsb (carries true) g = true /\
      (prev = Some (p_digit p) -> existsb (carries false) g = true) /\
      arrives (Some (p_digit p)) ps sent got
  | _, _, _ => False
  end.

(** The datagram is read as an event of the digit. *)
Definition event_of (pt : Z) (digit : DtmfDigit) (fin : bool) (b : list Z) : Prop :=
  exists p e, parse b = Some (Ok p) /\ payload_type p = pt /\ decode (payload p) = Some e /\
    e_digit e = digit /\ e_end e = fin.

Lemma event_of_carries pt digit fin b x : event_of pt digit fin b -> carries x b = bool_decide (fin = x).
Proof. intros (p & e & E & _ & Ed & _ & <-). unfold carries. by rewrite E, Ed. Qed.

Lemma sent_packet_event s digit ts spp n k :
  sender_ok s -> is_u32 ts -> 1 <= n -> 0 <= spp -> 0 <= k ->
  event_of (s_payload_type s) digit (n - 1 <=? k) (build (sent_packet s digit ts spp n k)).
Proof.
  intros [Ht Hss Hq _] Hts Hn Hspp Hk. unfold event_of. eexists _, _. split_and!.
  - apply parse_build; [|done]. split; simpl; try done; try lia.
    all: by apply wrap_range || by constructor.
  - done.
  - unfold sent_packet. cbn [payload with_payload set]. apply decode_encode. split; simpl; [lia|].
    unfold in_width. assert (0 <= Z.min k (n - 1) + 1) by lia. nia.
  - done.
  - done.
Qed.

(** While a press goes on nothing is reported; its first end packet reports it. *)
Lemma hear_start r digit b :
  event_of (r_payload_type r) digit false b ->
  exists r', hear r b = (None, r') /\ last_event r' = None /\ r_payload_type r' = r_payload_type r.
Proof.
  intros (p & e & E & Hp & Ed & <- & He). unfold hear, process_packet. rewrite E, Ed, He, Hp, Z.eqb_refl.
  by eexists.
Qed.

Lemma hear_end r digit b :
  event_of (r_payload_type r) digit true b ->
  exists r', hear r b = (if bool_decide (last_event r = Some digit) then None else Some digit, r') /\
    last_event r' = Some digit /\ r_payload_type r' = r_payload_type r.
Proof.
  intros (p & e & E & Hp & Ed & <- & He). unfold hear, process_packet. rewrite E, Ed, He, Hp, Z.eqb_refl.
  cbn [negb last_event set]. destruct (decide (last_event r = Some (e_digit e))) as [L|L].
  - rewrite bool_decide_true by done. by eexists.
  - rewrite bool_decide_false by done. by eexists.
Qed.

Lemma hear_starts r digit g :
  Forall (event_of (r_payload_type r) digit false) g ->
  exists r', hear_all r g = ([], r') /\ r_payload_type r' = r_payload_type r /\
    last_event r' = match g with [] => last_event r | _ => None end.
Proof.
  revert r. induction g as [|b g IH]; intros r H; [by exists r|]. apply Forall_cons in H as [Hb H].
  destruct (hear_start r digit b Hb) as (r1 & E1 & L1 & P1).
  rewrite <- P1 in H. destruct (IH r1 H) as (r' & E & P & L).
  exists r'. cbn [hear_all]. rewrite E1, E. split; [done|]. split; [congruence|].
  rewrite L, L1. by destruct g.
Qed.

Lemma hear_ends r digit g :
  g <> [] -> Forall (event_of (r_payload_type r) digit true) g ->
  exists r', hear_all r g = (if bool_decide (last_event r = Some digit) then [] else [digit], r') /\
    r_payload_type r' = r_payload_type r /\ last_event r' = Some digit.
Proof.
  revert r. induction g as [|b g IH]; intros r Hne H; [done|]. apply Forall_cons in H as [Hb H].
  destruct (hear_end r digit b Hb) as (r1 & E1 & L1 & P1). cbn [hear_all]. rewrite E1.
  destruct g as [|b' g].
  - exists r1. cbn [hear_all]. split; [by destruct (bool_decide _)|done].
  - rewrite <- P1 in H. destruct (IH r1 ltac:(done) H) as (r' & E & P & L).
    rewrite E, L1, (bool_decide_true (Some digit = Some digit)) by done. exists r'.
    split; [by destruct (bool_decide _)|]. split; [congruence|done].
Qed.

Lemma hear_all_app r g g' :
  hear_all r (g ++ g') =
  let '(ds, r) := hear_all r g in let '(ds', r) := hear_all r g' in (ds ++ ds', r).
Proof.
  revert r. induction g as [|b g IH]; intros r; cbn [app hear_all].
  - by destruct (hear_all r g').
  - destruct (hear r b) as [d r1]. rewrite IH. destruct (hear_all r1 g) as [ds r2].
    destruct (hear_all r2 g') as [ds' r3]. by rewrite app_assoc.
Qed.

Lemma existsb_carries pt digit fin x g :
  Forall (event_of pt digit fin) g -> existsb (carries x) g = match g with [] => false | _ => bool_decide (fin = x) end.
Proof.
  induction g as [|b g IH]; intros H; [done|]. apply Forall_cons in H as [Hb H]. cbn [existsb].
  rewrite IH, (event_of_carries _ _ _ _ _ Hb) by done. destruct g; by case_bool_decide.
Qed.

Lemma Forall_sublist {X} (P : X -> Prop) (l k : list X) : sublist l k -> Forall P k -> Forall P l.
Proof. rewrite !Forall_forall. intros H F x Hx. eapply F, elem_of_sublist; done. Qed.

Lemma press_heard s r digit d ts g packets s' :
  sender_ok s -> 0 <= d -> d * s_sample_rate s < 2 ^ 32 -> is_u32 ts ->
  generate_packets digit d ts s = Some (packets, s') -> r_payload_type r = s_payload_type s ->
  sublist g packets -> existsb (carries true) g = true ->
  (last_event r = Some digit -> existsb (carries false) g = true) ->
  exists r', hear_all r g = ([digit], r') /\ r_payload_type r' = s_payload_type s /\ last_event r' = Some digit.
Proof.
  intros Hs Hd Ho Hts E Hr Hg Hend Hstart. rewrite generate_packets_spec in E by done.
  set (n := rounds _ d) in E. apply (inj Some) in E. apply pair_equal_spec in E as [<- _].
  pose proof (rounds_pos (s_sample_rate s) d) as Hn. fold n in Hn.
  assert (0 <= s_sample_rate s / 20) as Hspp by (apply Z.div_pos; [destruct Hs; lia|lia]).
  replace (n + 2) with ((n - 1) + 3) in Hg by lia. rewrite seqZ_app, map_app in Hg by lia.
  apply sublist_app_r in Hg as (g1 & g2 & -> & H1 & H2).
  assert (Forall (event_of (r_payload_type r) digit false) g1) as F1.
  { apply (Forall_sublist _ _ _ H1). apply Forall_map, Forall_forall. intros k Hk%elem_of_seqZ. rewrite Hr.
    pose proof (sent_packet_event s digit ts (s_sample_rate s / 20) n k Hs Hts Hn Hspp ltac:(lia)) as K.
    by rewrite (proj2 (Z.leb_gt _ _)) in K by lia. }
  assert (Forall (event_of (r_payload_type r) digit true) g2) as F2.
  { apply (Forall_sublist _ _ _ H2). apply Forall_map, Forall_forall. intros k Hk%elem_of_seqZ. rewrite Hr.
    pose proof (sent_packet_event s digit ts (s_sample_rate s / 20) n k Hs Hts Hn Hspp ltac:(lia)) as K.
    by rewrite (proj2 (Z.leb_le _ _)) in K by lia. }
  rewrite existsb_app, (existsb_carries _ _ _ _ _ F1), (existsb_carries _ _ _ _ _ F2) in Hend.
  rewrite existsb_app, (existsb_carries _ _ _ _ _ F1), (existsb_carries _ _ _ _ _ F2) in Hstart.
  destruct (hear_starts r digit g1 F1) as (r1 & E1 & P1 & L1).
  assert (g2 <> []) as Hne by (intros ->; by destruct g1).
  rewrite <- P1 in F2. destruct (hear_ends r1 digit g2 Hne F2) as (r' & E2 & P2 & L2).
  exists r'. rewrite hear_all_app, E1, E2. split; [|split; [congruence|done]]. rewrite bool_decide_false; [done|].
  rewrite L1. destruct g1; [|done]. intros L. specialize (Hstart L). by destruct g2.
Qed.

Lemma sender_ok_skip k s : sender_ok s -> sender_ok (skip k s).
Proof. intros [? ? ? ?]. split; try done. by apply wrap_range. Qed.

(** What is dialled is heard.  The packets of any sequence of key presses can be
    generated, whatever the sequence number starts at and whether or not it wraps; and when
    of each press an end packet arrives (and of a repeated digit its beginning too), with
    any other packets lost, the receiver behind the RTP parser reports exactly the digits
    pressed, each once, in order. *)
Theorem dtmf_delivered s ps :
  sender_ok s -> Forall (press_ok s) ps ->
  exists sent s', send s ps = Some (sent, s') /\
    forall got, arrives None ps sent got ->
      (hear_all (receiver_new (s_payload_type s)) (concat got)).1 = map p_digit ps.
Proof.
  intros Hs Hps.
  enough (forall prev, exists sent s', send s ps = Some (sent, s') /\ forall got r,
    arrives prev ps sent got -> r_payload_type r = s_payload_type s -> last_event r = prev ->
    (hear_all r (concat got)).1 = map p_digit ps) as K.
  { destruct (K None) as (sent & s' & E & H). exists sent, s'. split; [done|]. intros got A. by apply H. }
  revert s Hs Hps. induction ps as [|p ps IH]; intros s Hs Hps prev; cbn [send].
  - exists [], s. split; [done|]. by intros [|] r.
  - apply Forall_cons in Hps as [(Hd & Ho & Hts) Hps].
    pose proof (generate_packets_spec s (p_digit p) (p_duration p) (p_timestamp p) Hs Hd Ho) as E. cbv zeta in E.
    set (n := rounds _ _) in E. set (packets := map _ _) in E.
    destruct (IH (skip (n + 2) s) (sender_ok_skip _ _ Hs) Hps (Some (p_digit p))) as (sent & s' & E' & H).
    rewrite E. cbn [mbind option_bind]. rewrite E'. eexists _, _. split; [done|].
    intros [|g got] r; [done|]. intros (Hg & Hend & Hstart & A) Hr Hl.
    rewrite <- Hl in Hstart.
    destruct (press_heard s r _ _ _ g _ _ Hs Hd Ho Hts E Hr Hg Hend Hstart) as (r' & E1 & P1 & L1).
    cbn [concat map]. rewrite hear_all_app, E1. specialize (H got r' A P1 L1).
    destruct (hear_all r' (concat got)) as [ds r2]. simpl in *. by rewrite H.
Qed.

Definition example_sender : DtmfSender := sender_new 65533 101 7.

(** Two presses of the same key, the packets between the first and the last of each lost. *)
Lemma dtmf_delivered_witness :
  exists sent s', send example_sender [mkPress Five 200 100; mkPress Five 150 4000] = Some (sent, s') /\
    (hear_all (receiver_new 101) (concat (map (fun l => option_list (head l) ++ option_list (last l)) sent))).1 =
    [Five; Five].
Proof.
  destruct (dtmf_delivered example_sender [mkPress Five 200 100; mkPress Five 150 4000]) as (sent & s' & E & H).
  - by split.
  - by repeat constructor.
  - exists sent, s'. split; [done|]. apply H. vm_compute in E. injection E as <- <-.
    vm_compute. repeat (split; [try reflexivity; try (intros ?; reflexivity)|]); try done.
    all: repeat constructor.
Defined.

(** A press shorter than two rounds has no packet but the end packets, so of two such presses
    of the same key one is heard. *)
Example short_repeats_lost :
  match send example_sender [mkPress One 80 100; mkPress One 80 4000] with
  | Some (sent, _) => (hear_all (receiver_new 101) (concat sent)).1 = [One]
  | None => False
  end.
Proof. by vm_compute. Qed.
