(* ===== verification/Hold.v ===== *)
(** * Hold and resume ([session/hold.rs])

    The directions of a media stream, the hold state of a call, and the manager that keeps
    both per call while re-INVITEs are exchanged.  A [HashMap] is a [gmap] keyed by the
    call id; a method on [&mut self] returns its result and the new manager.  The names of
    the directions are compared after Unicode lower-casing, which maps no other character to
    their letters than the ASCII capitals. *)

From S2P Require Import Prelude RStr.

(** [SdpError] is declared by the source and never made. *)
Inductive HoldError : Type :=
| CallNotFound (call_id : str)
| InvalidState.

Inductive MediaDirection : Type := SendRecv | SendOnly | RecvOnly | Inactive.

#[export] Instance media_direction_eq_dec : EqDecision MediaDirection.
Proof. solve_decision. Defined.

Definition from_sdp (s : str) : option MediaDirection :=
  let s := to_ascii_lowercase s in
  if eqb s #"sendrecv" then Some SendRecv
  else if eqb s #"sendonly" then Some SendOnly
  else if eqb s #"recvonly" then Some RecvOnly
  else if eqb s #"inactive" then Some Inactive
  else None.

Definition to_sdp (d : MediaDirection) : str :=
  match d with
  | SendRecv => #"sendrecv"
  | SendOnly => #"sendonly"
  | RecvOnly => #"recvonly"
  | Inactive => #"inactive"
  end.

Definition can_send (d : MediaDirection) : bool :=
  match d with SendRecv | SendOnly => true | _ => false end.

Definition can_recv (d : MediaDirection) : bool :=
  match d with SendRecv | RecvOnly => true | _ => false end.

(** [MediaDirection::remote_direction] *)
Definition mirror (d : MediaDirection) : MediaDirection :=
  match d with
  | SendRecv => SendRecv
  | SendOnly => RecvOnly
  | RecvOnly => SendOnly
  | Inactive => Inactive
  end.

Inductive HoldState : Type := Active | LocalHold | RemoteHold | BothHold.

#[export] Instance hold_state_eq_dec : EqDecision HoldState.
Proof. solve_decision. Defined.

Definition is_local_hold (s : HoldState) : bool :=
  match s with LocalHold | BothHold => true | _ => false end.

Definition is_remote_hold (s : HoldState) : bool :=
  match s with RemoteHold | BothHold => true | _ => false end.

Definition is_active (s : HoldState) : bool := bool_decide (s = Active).

Record HoldRequest : Type := mkRequest {
  q_call_id : str;
  q_direction : MediaDirection;
  music_on_hold : bool
}.

Record HoldResponse : Type := mkResponse {
  a_call_id : str;
  a_direction : MediaDirection;
  a_state : HoldState
}.

Record CallHoldInfo : Type := mkInfo {
  h_state : HoldState;
  local_direction : MediaDirection;
  remote_direction : MediaDirection;
  pending_request : option HoldRequest
}.

#[export] Instance hold_info_eta : Settable CallHoldInfo := fun x =>
  mkInfo (h_state x) (local_direction x) (remote_direction x) (pending_request x).

Definition default_info : CallHoldInfo := mkInfo Active SendRecv SendRecv None.

(** [HoldManager]: its one field. *)
Abbreviation HoldManager := (gmap str CallHoldInfo).

Definition add_call (call_id : str) (m : HoldManager) : HoldManager := <[call_id := default_info]> m.

Definition remove_call (call_id : str) (m : HoldManager) : HoldManager := delete call_id m.

Definition hold_state (call_id : str) (m : HoldManager) : option HoldState := h_state <$> m !! call_id.

Definition holding (d : MediaDirection) : bool :=
  match d with SendOnly | Inactive => true | _ => false end.

Definition compute_hold_state (local remote : MediaDirection) : HoldState :=
  match holding local, holding remote with
  | false, false => Active
  | true, false => LocalHold
  | false, true => RemoteHold
  | true, true => BothHold
  end.

(** The lookup with which every operation on a call begins, and the update in place. *)
Definition with_call {X : Type} (call_id : str) (m : HoldManager)
    (f : CallHoldInfo -> result X HoldError * CallHoldInfo) : result X HoldError * HoldManager :=
  match m !! call_id with
  | None => (Err (CallNotFound call_id), m)
  | Some info => let '(r, info) := f info in (r, <[call_id := info]> m)
  end.

Definition create_hold_request (call_id : str) (inactive : bool) (m : HoldManager)
  : result MediaDirection HoldError * HoldManager :=
  with_call call_id m (fun info =>
    if bool_decide (h_state info = LocalHold) || bool_decide (h_state info = BothHold)
    then (Err InvalidState, info)
    else
      let direction := if inactive then Inactive else SendOnly in
      (Ok direction,
       info <| pending_request := Some (mkRequest call_id direction (negb inactive)) |>)).

Definition create_resume_request (call_id : str) (m : HoldManager)
  : result MediaDirection HoldError * HoldManager :=
  with_call call_id m (fun info =>
    if negb (is_local_hold (h_state info)) then (Err InvalidState, info)
    else (Ok SendRecv, info <| pending_request := Some (mkRequest call_id SendRecv false) |>)).

Definition handle_hold_response (call_id : str) (remote : MediaDirection) (m : HoldManager)
  : result HoldResponse HoldError * HoldManager :=
  with_call call_id m (fun info =>
    match pending_request info with
    | None => (Err InvalidState, info)
    | Some request =>
        let info := info <| pending_request := None |> in
        let info := info <| local_direction := q_direction request |> in
        let info := info <| remote_direction := remote |> in
        let info := info <| h_state := compute_hold_state (local_direction info) (remote_direction info) |> in
        (Ok (mkResponse call_id (local_direction info) (h_state info)), info)
    end).

Definition handle_remote_hold (call_id : str) (remote : MediaDirection) (m : HoldManager)
  : result HoldState HoldError * HoldManager :=
  with_call call_id m (fun info =>
    let info := info <| remote_direction := remote |> in
    let info := info <| local_direction := mirror remote |> in
    let info := info <| h_state := compute_hold_state (local_direction info) (remote_direction info) |> in
    (Ok (h_state info), info)).

Definition cancel_pending (call_id : str) (m : HoldManager) : HoldManager :=
  match m !! call_id with
  | Some info => <[call_id := info <| pending_request := None |>]> m
  | None => m
  end.

Definition call_can_send (call_id : str) (m : HoldManager) : bool :=
  match m !! call_id with Some info => can_send (local_direction info) | None => false end.

Definition call_can_recv (call_id : str) (m : HoldManager) : bool :=
  match m !! call_id with Some info => can_recv (local_direction info) | None => false end.

(** ** Two parties

    A re-INVITE carries the direction one manager asks for; the other side answers with the
    direction it then has, or rejects the request and the first side drops it. *)

Definition answer_of (call_id : str) (m : HoldManager) : MediaDirection :=
  match m !! call_id with Some info => local_direction info | None => SendRecv end.

(** The exchange after [mine] made its request. *)
Definition exchange (call_id : str) (accepted : bool)
    (request : result MediaDirection HoldError * HoldManager) (theirs : HoldManager)
  : option (result HoldResponse HoldError) * HoldManager * HoldManager :=
  match request with
  | (Err e, mine) => (Some (Err e), mine, theirs)
  | (Ok direction, mine) =>
      if accepted then
        let '(_, theirs) := handle_remote_hold call_id direction theirs in
        let '(r, mine) := handle_hold_response call_id (answer_of call_id theirs) mine in
        (Some r, mine, theirs)
      else (None, cancel_pending call_id mine, theirs)
  end.

Inductive hold_op : Type :=
| HoldOp (inactive : bool)
| ResumeOp.

Definition request_of (call_id : str) (op : hold_op) (m : HoldManager) :=
  match op with
  | HoldOp inactive => create_hold_request call_id inactive m
  | ResumeOp => create_resume_request call_id m
  end.

(** [by_b]: the second party asks. *)
Definition hold_step (call_id : str) (by_b accepted : bool) (op : hold_op) (a b : HoldManager)
  : option (result HoldResponse HoldError) * HoldManager * HoldManager :=
  if by_b then
    let '(r, b, a) := exchange call_id accepted (request_of call_id op b) a in (r, a, b)
  else exchange call_id accepted (request_of call_id op a) b.

Fixpoint hold_run (call_id : str) (ops : list (bool * bool * hold_op)) (a b : HoldManager)
  : list (option (result HoldResponse HoldError)) * HoldManager * HoldManager :=
  match ops with
  | [] => ([], a, b)
  | (by_b, accepted, op) :: ops =>
      let '(r, a, b) := hold_step call_id by_b accepted op a b in
      let '(rs, a, b) := hold_run call_id ops a b in
      (r :: rs, a, b)
  end.

(** ** The specification: one direction, seen from both ends *)

Definition info_of (d : MediaDirection) : CallHoldInfo :=
  mkInfo (compute_hold_state d (mirror d)) d (mirror d) None.

(** The direction the asking side wants, when it may ask. *)
Definition spec_request (d : MediaDirection) (op : hold_op) : option MediaDirection :=
  match op with
  | HoldOp inactive => if holding d then None else Some (if inactive then Inactive else SendOnly)
  | ResumeOp => if holding d then Some SendRecv else None
  end.

Definition spec_side (call_id : str) (d : MediaDirection) (accepted : bool) (op : hold_op)
  : option (result HoldResponse HoldError) * MediaDirection :=
  match spec_request d op with
  | None => (Some (Err InvalidState), d)
  | Some d' =>
      if accepted then (Some (Ok (mkResponse call_id d' (compute_hold_state d' (mirror d')))), d')
      else (None, d)
  end.

Fixpoint spec_run (call_id : str) (ops : list (bool * bool * hold_op)) (d : MediaDirection)
  : list (option (result HoldResponse HoldError)) * MediaDirection :=
  match ops with
  | [] => ([], d)
  | (by_b, accepted, op) :: ops =>
      let '(r, d) :=
        if by_b then
          let '(r, e) := spec_side call_id (mirror d) accepted op in (r, mirror e)
        else spec_side call_id d accepted op in
      let '(rs, d) := spec_run call_id ops d in
      (r :: rs, d)
  end.

(** ** Lemmas *)

Lemma sdp_direction_inv d : from_sdp (to_sdp d) = Some d.
Proof. by destruct d; vm_compute. Qed.

Lemma mirror_mirror d : mirror (mirror d) = d.
Proof. by destruct d. Qed.

Lemma with_call_insert {X : Type} c info m (f : CallHoldInfo -> result X HoldError * CallHoldInfo) :
  with_call c (<[c := info]> m) f = let '(r, info') := f info in (r, <[c := info']> m).
Proof. unfold with_call. rewrite lookup_insert_eq. destruct (f info). by rewrite insert_insert_eq. Qed.

Lemma local_hold_states s : bool_decide (s = LocalHold) || bool_decide (s = BothHold) = is_local_hold s.
Proof. by destruct s. Qed.

Lemma exchange_spec c accepted op d m1 m2 :
  exchange c accepted (request_of c op (<[c := info_of d]> m1)) (<[c := info_of (mirror d)]> m2) =
  let '(r, d') := spec_side c d accepted op in
  (r, <[c := info_of d']> m1, <[c := info_of (mirror d')]> m2).
Proof.
  unfold request_of, create_hold_request, create_resume_request.
  destruct op as [inactive|]; rewrite with_call_insert, ?local_hold_states.
  all: destruct d; try destruct inactive; cbn; try done.
  all: destruct accepted; unfold handle_remote_hold, handle_hold_response, answer_of, cancel_pending;
    rewrite ?with_call_insert, ?lookup_insert_eq; cbn; rewrite ?lookup_insert_eq, ?insert_insert_eq; cbn;
    rewrite ?with_call_insert; done.
Qed.

(** Hold and resume keep the two ends of a call together.  However the parties hold,
    resume, repeat themselves and reject, both managers stay in step with one shared media
    direction that each sees from its own side: every request is granted, refused or
    reported as that direction says, the hold states mirror each other, one end can send
    exactly when the other can receive, and no other call of either manager is touched. *)
Theorem hold_refines_shared_direction c ops a0 b0 :
  let '(rs, a, b) := hold_run c ops (add_call c a0) (add_call c b0) in
  let '(rs', d) := spec_run c ops SendRecv in
  rs = rs' /\ a = <[c := info_of d]> a0 /\ b = <[c := info_of (mirror d)]> b0 /\
  call_can_send c a = call_can_recv c b /\ call_can_recv c a = call_can_send c b /\
  is_local_hold <$> hold_state c a = is_remote_hold <$> hold_state c b.
Proof.
  assert (forall d, let '(rs, a, b) := hold_run c ops (<[c := info_of d]> a0) (<[c := info_of (mirror d)]> b0) in
    let '(rs', d') := spec_run c ops d in
    rs = rs' /\ a = <[c := info_of d']> a0 /\ b = <[c := info_of (mirror d')]> b0) as K.
  { induction ops as [|[[by_b acc] op] ops IH]; intros d; [done|]. cbn [hold_run spec_run]. unfold hold_step.
    destruct by_b.
    - pose proof (exchange_spec c acc op (mirror d) b0 a0) as E. rewrite mirror_mirror in E. rewrite E.
      destruct (spec_side c (mirror d) acc op) as [r e]. specialize (IH (mirror e)). rewrite mirror_mirror in IH.
      destruct (hold_run _ _ _ _) as [[rs a] b], (spec_run _ _ _) as [rs' d']. naive_solver.
    - rewrite exchange_spec. destruct (spec_side c d acc op) as [r e]. specialize (IH e).
      destruct (hold_run _ _ _ _) as [[rs a] b], (spec_run _ _ _) as [rs' d']. naive_solver. }
  specialize (K SendRecv). unfold add_call. change default_info with (info_of SendRecv) at 1.
  change default_info with (info_of (mirror SendRecv)).
  destruct (hold_run _ _ _ _) as [[rs a] b], (spec_run _ _ _) as [rs' d].
  destruct K as (-> & -> & ->). do 3 (split; [done|]).
  unfold call_can_send, call_can_recv, hold_state. rewrite !lookup_insert_eq. by destruct d.
Qed.

(** The answer to a hold puts aside one's own: after A holds and B holds and resumes, the
    call is active on both sides although A never resumed. *)
Example second_hold_forgets_first :
  let '(_, a, b) := hold_run #"c" [(false, true, HoldOp false); (true, true, HoldOp false); (true, true, ResumeOp)]
                      (add_call #"c" empty) (add_call #"c" empty) in
  hold_state #"c" a = Some Active /\ hold_state #"c" b = Some Active.
Proof. by vm_compute. Qed.
