(* ===== verification/Transfer.v ===== *)
(** * Call transfer ([session/transfer.rs])

    The Refer-To value with the Replaces of an attended transfer in its URI, the progress a
    NOTIFY reports, and the manager that keeps a transfer per call.  A string is the list of
    its bytes in UTF-8; [chars().take(2)] takes two characters of one to four bytes. *)

From S2P Require Import Prelude RStr.

Local Open Scope Z_scope.

Inductive TransferError : Type :=
| CallNotFound (call_id : str)
| InvalidState
| Rejected (code : Z)
| FailedE
| InvalidReferTo.

Inductive TransferType : Type := Blind | Attended.

Inductive TransferState : Type := NoTransfer | Pending | Accepted | InProgress | Completed | Failed.

#[export] Instance transfer_state_eq_dec : EqDecision TransferState.
Proof. solve_decision. Defined.

Inductive TransferRole : Type := Transferor | Transferee | Target.

Record ReplacesHeader : Type := mkReplaces {
  r_call_id : str;
  to_tag : str;
  from_tag : str;
  early_only : bool
}.

Record ReferTo : Type := mkReferTo { refer_uri : str; replaces : option ReplacesHeader }.

(** ** Escapes *)

(** [str::replace] of a character. *)
Definition replace_char (c : ascii) (by_ : str) (s : str) : str :=
  flat_map (fun d => if bool_decide (d = c) then by_ else [d]) s.

Definition url_encode (s : str) : str :=
  replace_char "@" #"%40" (replace_char "&" #"%26" (replace_char "=" #"%3D"
    (replace_char ";" #"%3B" (replace_char "%" #"%25" s)))).

(** The bytes of the character that starts with this byte. *)
Definition char_len (c : ascii) : nat :=
  if code c <? 128 then 1%nat else if code c <? 224 then 2%nat
  else if code c <? 240 then 3%nat else 4%nat.

(** [by_ref().take(n)]: the characters taken and the rest. *)
Fixpoint take_chars (n : nat) (s : str) : str * str :=
  match n, s with
  | S n, c :: _ =>
      let k := char_len c in
      let '(a, r) := take_chars n (drop k s) in
      (take k s ++ a, r)
  | _, _ => ([], s)
  end.

Definition hex_digit (c : ascii) : option Z :=
  if is_ascii_digit c then Some (code c - 48)
  else if (97 <=? code c) && (code c <=? 102) then Some (code c - 87)
  else if (65 <=? code c) && (code c <=? 70) then Some (code c - 55)
  else None.

(** [u8::from_str_radix(s, 16)]: a plus sign may come before the digits. *)
Definition from_hex (s : str) : option Z :=
  match s with
  | [] => None
  | ["+"%char] => None
  | c :: r =>
      let digits := if bool_decide (c = "+"%char) then r else s in
      foldl (fun acc d =>
        let* a := acc in
        let* v := hex_digit d in
        if 16 * a + v <=? u8_max then Some (16 * a + v) else None) (Some 0) digits
  end.

(** [byte as char] pushed to a string. *)
Definition push_byte (b : Z) : str :=
  if b <? 128 then [chr b] else [chr (192 + b / 64); chr (128 + b mod 64)].

Fixpoint url_decode_aux (fuel : nat) (s : str) : str :=
  match fuel, s with
  | S fuel, c :: s =>
      if bool_decide (c = "%"%char) then
        let '(hex, s) := take_chars 2 s in
        match from_hex hex with
        | Some byte => push_byte byte
        | None => "%"%char :: hex
        end ++ url_decode_aux fuel s
      else c :: url_decode_aux fuel s
  | _, _ => []
  end.

(** Each round consumes a byte. *)
Definition url_decode (s : str) : str := url_decode_aux (length s) s.

(** ** Replaces *)

Definition replaces_new (call_id to_tag from_tag : str) : ReplacesHeader :=
  mkReplaces call_id to_tag from_tag false.

Definition replaces_part (acc : option str * option str * bool) (part : str)
  : option str * option str * bool :=
  let '(to_tag, from_tag, early_only) := acc in
  let part := trim part in
  match split_once "=" part with
  | Some (key, value) =>
      let key := to_ascii_lowercase key in
      if eqb key #"to-tag" then (Some value, from_tag, early_only)
      else if eqb key #"from-tag" then (to_tag, Some value, early_only)
      else (to_tag, from_tag, early_only)
  | None =>
      if eq_ignore_ascii_case part #"early-only" then (to_tag, from_tag, true)
      else (to_tag, from_tag, early_only)
  end.

Definition replaces_parse (s : str) : result ReplacesHeader TransferError :=
  let pieces := split ";" s in
  let call_id := trim (default [] (head pieces)) in
  if is_empty call_id then Err InvalidReferTo else
  let '(to_tag, from_tag, early_only) := foldl replaces_part (None, None, false) (tail pieces) in
  let? to_tag := ok_or to_tag InvalidReferTo in
  let? from_tag := ok_or from_tag InvalidReferTo in
  Ok (mkReplaces call_id to_tag from_tag early_only).

Definition replaces_to_header (h : ReplacesHeader) : str :=
  r_call_id h ++ #";to-tag=" ++ to_tag h ++ #";from-tag=" ++ from_tag h ++
  (if early_only h then #";early-only" else []).

Definition to_uri_param (h : ReplacesHeader) : str :=
  let encoded := #"Replaces=" ++ url_encode (r_call_id h) ++ #"%3Bto-tag%3D" ++ url_encode (to_tag h) ++
                 #"%3Bfrom-tag%3D" ++ url_encode (from_tag h) in
  if early_only h then encoded ++ #"%3Bearly-only" else encoded.

Fixpoint find_replaces (params : list str) : result (option ReplacesHeader) TransferError :=
  match params with
  | [] => Ok None
  | param :: params =>
      match strip_prefix #"Replaces=" param with
      | Some value => let? h := replaces_parse (url_decode value) in Ok (Some h)
      | None => find_replaces params
      end
  end.

Definition parse_replaces_param (params : str) : result (option ReplacesHeader) TransferError :=
  find_replaces (split "&" params).

(** ** Refer-To *)

Definition refer_blind (uri : str) : ReferTo := mkReferTo uri None.
Definition refer_attended (uri : str) (h : ReplacesHeader) : ReferTo := mkReferTo uri (Some h).

(** [trim_start_matches] and [trim_end_matches] of a character. *)
Fixpoint trim_start_char (c : ascii) (s : str) : str :=
  match s with
  | d :: r => if bool_decide (d = c) then trim_start_char c r else s
  | [] => []
  end.

Definition trim_end_char (c : ascii) (s : str) : str := reverse (trim_start_char c (reverse s)).

Definition refer_to_parse (s : str) : result ReferTo TransferError :=
  let s := trim s in
  let s := trim_end_char ">" (trim_start_char "<" s) in
  match split_once "?" s with
  | Some (uri, params) =>
      let? replaces := parse_replaces_param params in
      Ok (mkReferTo uri replaces)
  | None => Ok (mkReferTo s None)
  end.

Definition refer_to_header (r : ReferTo) : str :=
  match replaces r with
  | Some h => #"<" ++ refer_uri r ++ #"?" ++ to_uri_param h ++ #">"
  | None => #"<" ++ refer_uri r ++ #">"
  end.

(** ** Progress *)

Record TransferProgress : Type := mkProgress { status_code : Z; reason : str; final_ : bool }.

Definition parse_sipfrag (body : str) : option TransferProgress :=
  let* first_line := head (lines body) in
  let parts := split_whitespace first_line in
  match parts with
  | version :: code :: phrase =>
      if (Z.of_nat (length parts) <? 3) || negb (eqb version #"SIP/2.0") then None else
      let* status_code := parse_uint u16_max code in
      Some (mkProgress status_code (join #" " phrase) (200 <=? status_code))
  | _ => None
  end.

Definition is_success (p : TransferProgress) : bool := (200 <=? status_code p) && (status_code p <? 300).

Definition is_provisional (p : TransferProgress) : bool := (100 <=? status_code p) && (status_code p <? 200).

(** ** The manager *)

Record TransferInfo : Type := mkInfo {
  t_state : TransferState;
  role : TransferRole;
  transfer_type : TransferType;
  target : option str;
  subscription_id : option str;
  last_progress : option TransferProgress
}.

#[export] Instance transfer_info_eta : Settable TransferInfo := fun x =>
  mkInfo (t_state x) (role x) (transfer_type x) (target x) (subscription_id x) (last_progress x).

Definition default_transfer : TransferInfo := mkInfo NoTransfer Transferor Blind None None None.

(** [TransferManager]: its one field. *)
Abbreviation TransferManager := (gmap str TransferInfo).

(** [entry(call_id).or_default()] *)
Definition entry (call_id : str) (m : TransferManager) : TransferInfo :=
  default default_transfer (m !! call_id).

Definition initiate (ty : TransferType) (call_id target_uri : str) (refer : ReferTo) (m : TransferManager)
  : result ReferTo TransferError * TransferManager :=
  let info := entry call_id m in
  if negb (bool_decide (t_state info = NoTransfer)) then (Err InvalidState, <[call_id := info]> m) else
  let info := info <| t_state := Pending |> in
  let info := info <| role := Transferor |> in
  let info := info <| transfer_type := ty |> in
  let info := info <| target := Some target_uri |> in
  (Ok refer, <[call_id := info]> m).

Definition initiate_blind_transfer (call_id target_uri : str) (m : TransferManager)
  : result ReferTo TransferError * TransferManager :=
  initiate Blind call_id target_uri (refer_blind target_uri) m.

Definition initiate_attended_transfer (call_id target_uri : str) (h : ReplacesHeader) (m : TransferManager)
  : result ReferTo TransferError * TransferManager :=
  initiate Attended call_id target_uri (refer_attended target_uri h) m.

Definition handle_refer_response (call_id : str) (status_code : Z) (m : TransferManager)
  : result TransferState TransferError * TransferManager :=
  match m !! call_id with
  | None => (Err (CallNotFound call_id), m)
  | Some info =>
      if in_range 200 300 status_code then (Ok Accepted, <[call_id := info <| t_state := Accepted |>]> m)
      else if 400 <=? status_code then
        (Err (Rejected status_code), <[call_id := info <| t_state := Failed |>]> m)
      else (Ok (t_state info), m)
  end.

Definition handle_incoming_refer (call_id : str) (refer_to : ReferTo) (m : TransferManager)
  : result TransferInfo TransferError * TransferManager :=
  let info := entry call_id m in
  let info := info <| t_state := InProgress |> in
  let info := info <| role := Transferee |> in
  let info := info <| transfer_type := if is_some (replaces refer_to) then Attended else Blind |> in
  let info := info <| target := Some (refer_uri refer_to) |> in
  (Ok info, <[call_id := info]> m).

Definition progress_state (p : TransferProgress) : TransferState :=
  if is_success p then Completed else if final_ p then Failed else InProgress.

Definition handle_notify (call_id sipfrag : str) (m : TransferManager)
  : result TransferProgress TransferError * TransferManager :=
  match parse_sipfrag sipfrag with
  | None => (Err FailedE, m)
  | Some progress =>
      match m !! call_id with
      | None => (Err (CallNotFound call_id), m)
      | Some info =>
          let info := info <| t_state := progress_state progress |> in
          let info := info <| last_progress := Some progress |> in
          (Ok progress, <[call_id := info]> m)
      end
  end.

Definition transfer_state (call_id : str) (m : TransferManager) : TransferState :=
  match m !! call_id with Some i => t_state i | None => NoTransfer end.

Definition clear (call_id : str) (m : TransferManager) : TransferManager := delete call_id m.

(** ** Escapes: decoding inverts encoding *)

Definition enc_char (c : ascii) : str :=
  match c with
  | "%" => #"%25" | ";" => #"%3B" | "=" => #"%3D" | "&" => #"%26" | "@" => #"%40"
  | _ => [c]
  end%char.

Lemma url_encode_app a b : url_encode (a ++ b) = url_encode a ++ url_encode b.
Proof. unfold url_encode, replace_char. by rewrite !flat_map_app. Qed.

Lemma url_encode_one c : url_encode [c] = enc_char c.
Proof. destruct c as [[] [] [] [] [] [] [] []]; vm_compute; reflexivity. Qed.

Lemma url_encode_cons c s : url_encode (c :: s) = enc_char c ++ url_encode s.
Proof. change (c :: s) with ([c] ++ s). by rewrite url_encode_app, url_encode_one. Qed.

Lemma take_chars_length n s : (length (take_chars n s).2 <= length s)%nat.
Proof.
  revert s. induction n as [|n IH]; intros [|c s]; simpl; [lia|lia|lia|].
  specialize (IH (drop (char_len c) (c :: s))). destruct (take_chars n _) as [a r]. simpl in *.
  rewrite length_drop in IH. simpl in IH. lia.
Qed.

Lemma url_decode_fuel s f : (length s <= f)%nat -> url_decode_aux f s = url_decode s.
Proof.
  unfold url_decode. remember (length s) as g eqn:Eg. assert (length s <= g)%nat as Hg by lia. clear Eg.
  revert s g Hg. induction f as [|f IH]; intros s g Hg Hf.
  - assert (s = []) as -> by (destruct s; simpl in *; [done|lia]). by destruct g.
  - destruct s as [|c s]; [by destruct g|]. destruct g as [|g]; simpl in Hg; [lia|].
    cbn [url_decode_aux length] in *. destruct (bool_decide _).
    + pose proof (take_chars_length 2 s). destruct (take_chars 2 s) as [hex r]. cbn [snd] in *.
      f_equal. apply IH; lia.
    + f_equal. apply IH; lia.
Qed.

Lemma url_decode_other c s : c <> "%"%char -> url_decode (c :: s) = c :: url_decode s.
Proof. intros H. unfold url_decode at 1. cbn [length url_decode_aux]. by rewrite bool_decide_false. Qed.

Lemma url_decode_escape s :
  url_decode ("%"%char :: s) =
  let '(hex, s) := take_chars 2 s in
  match from_hex hex with Some byte => push_byte byte | None => "%"%char :: hex end ++ url_decode s.
Proof.
  unfold url_decode at 1. cbn [length url_decode_aux]. rewrite bool_decide_true by done.
  pose proof (take_chars_length 2 s). destruct (take_chars 2 s) as [hex r]. cbn [snd] in *.
  f_equal. by apply url_decode_fuel.
Qed.

Lemma enc_char_other c :
  c <> "%"%char -> c <> ";"%char -> c <> "="%char -> c <> "&"%char -> c <> "@"%char -> enc_char c = [c].
Proof. destruct c as [[] [] [] [] [] [] [] []]; done. Qed.

Lemma url_decode_enc_char c r : url_decode (enc_char c ++ r) = c :: url_decode r.
Proof.
  destruct (decide (c = "%"%char)) as [->|H1]; [by cbn [enc_char app String.list_ascii_of_string]; rewrite url_decode_escape|].
  destruct (decide (c = ";"%char)) as [->|H2]; [by cbn [enc_char app String.list_ascii_of_string]; rewrite url_decode_escape|].
  destruct (decide (c = "="%char)) as [->|H3]; [by cbn [enc_char app String.list_ascii_of_string]; rewrite url_decode_escape|].
  destruct (decide (c = "&"%char)) as [->|H4]; [by cbn [enc_char app String.list_ascii_of_string]; rewrite url_decode_escape|].
  destruct (decide (c = "@"%char)) as [->|H5]; [by cbn [enc_char app String.list_ascii_of_string]; rewrite url_decode_escape|].
  rewrite enc_char_other by done. by apply url_decode_other.
Qed.

Lemma url_decode_encode s : url_decode (url_encode s) = s.
Proof.
  induction s as [|c s IH]; [done|]. by rewrite url_encode_cons, url_decode_enc_char, IH.
Qed.

Lemma encoded_no_amp s : ~ In "&"%char (url_encode s).
Proof.
  induction s as [|c s IH]; [by intros []|]. rewrite url_encode_cons, in_app_iff. intros [H|H]; [|done].
  revert H. destruct c as [[] [] [] [] [] [] [] []]; simpl; intuition discriminate.
Qed.

(** ** Round trips *)

Definition ident (c : ascii) : Prop := tokc c = true /\ c <> ";"%char.
Definition tag_char (c : ascii) : Prop := ident c /\ c <> ">"%char.

(** The identifiers of a dialog as SIP's grammar has them. *)
Record replaces_ok (h : ReplacesHeader) : Prop := {
  ro_call : r_call_id h <> [] /\ Forall ident (r_call_id h);
  ro_to : Forall tag_char (to_tag h);
  ro_from : Forall tag_char (from_tag h)
}.

Lemma to_uri_param_encodes h : to_uri_param h = #"Replaces=" ++ url_encode (replaces_to_header h).
Proof.
  unfold to_uri_param, replaces_to_header. rewrite !url_encode_app.
  change (url_encode #";to-tag=") with #"%3Bto-tag%3D". change (url_encode #";from-tag=") with #"%3Bfrom-tag%3D".
  destruct (early_only h).
  - change (url_encode #";early-only") with #"%3Bearly-only". by rewrite <- !app_assoc.
  - change (url_encode []) with (@nil ascii). by rewrite app_nil_r.
Qed.

Lemma ident_no_semi s : Forall ident s -> ~ In ";"%char s.
Proof. rewrite Forall_forall. intros H Hin. by apply list_elem_of_In, H in Hin as [_ ?]. Qed.

Lemma ident_tok s : Forall ident s -> Forall (fun c => tokc c = true) s.
Proof. intros H. eapply Forall_impl; [exact H|]. by intros c [? _]. Qed.

Lemma tag_ident s : Forall tag_char s -> Forall ident s.
Proof. intros H. eapply Forall_impl; [exact H|]. by intros c [? _]. Qed.

(** A tag parameter is read as it was written. *)
Lemma replaces_part_tag acc key value :
  Forall (fun c => tokc c = true) key -> ~ In "="%char key -> Forall ident value ->
  replaces_part acc (key ++ "="%char :: value) =
  let '(t, f, e) := acc in
  if eqb (to_ascii_lowercase key) #"to-tag" then (Some value, f, e)
  else if eqb (to_ascii_lowercase key) #"from-tag" then (t, Some value, e) else (t, f, e).
Proof.
  intros Hk He Hv. unfold replaces_part. destruct acc as [[t f] e].
  rewrite trim_all_tok, split_once_app; [done|done|].
  apply Forall_app. split; [done|]. constructor; [done|by apply ident_tok].
Qed.

Lemma replaces_roundtrip h : replaces_ok h -> replaces_parse (replaces_to_header h) = Ok h.
Proof.
  intros [[Hne Hc] Ht Hf]. destruct h as [c t f e]. cbn [r_call_id to_tag from_tag] in *.
  apply tag_ident in Ht, Hf.
  assert (split ";" (replaces_to_header (mkReplaces c t f e)) =
    c :: (#"to-tag" ++ "="%char :: t) :: (#"from-tag" ++ "="%char :: f) :: (if e then [ #"early-only"] else [])) as E.
  { unfold replaces_to_header. cbn [r_call_id to_tag from_tag early_only].
    change (#";to-tag=" ++ t ++ ?r) with (";"%char :: (#"to-tag" ++ "="%char :: t) ++ r).
    rewrite split_app by (by apply ident_no_semi). f_equal.
    change (#";from-tag=" ++ f ++ ?r) with (";"%char :: (#"from-tag" ++ "="%char :: f) ++ r).
    assert (forall k v, ~ In ";"%char k -> Forall ident v -> ~ In ";"%char (k ++ "="%char :: v)) as K.
    { intros k v Hk Hv. rewrite in_app_iff. intros [?|[?|?]]; [done|done|by apply (ident_no_semi v)]. }
    rewrite split_app by (apply K; [simpl; intuition discriminate|done]). f_equal.
    destruct e.
    - change #";early-only" with (";"%char :: #"early-only").
      rewrite split_app by (apply K; [simpl; intuition discriminate|done]). done.
    - rewrite app_nil_r, split_no; [done|]. apply K; [simpl; intuition discriminate|done]. }
  unfold replaces_parse. rewrite E. cbn [hd_error from_option id tl].
  rewrite (trim_all_tok c) by (by apply ident_tok). destruct c as [|x c]; [done|]. cbn [is_empty].
  cbn [foldl]. rewrite !replaces_part_tag by (done || (repeat constructor) || (simpl; intuition discriminate)).
  change (eqb (to_ascii_lowercase #"to-tag") #"to-tag") with true.
  change (eqb (to_ascii_lowercase #"from-tag") #"to-tag") with false.
  change (eqb (to_ascii_lowercase #"from-tag") #"from-tag") with true.
  by destruct e.
Qed.

Record refer_ok (r : ReferTo) : Prop := {
  fo_query : ~ In "?"%char (refer_uri r);
  fo_first : forall s, refer_uri r <> "<"%char :: s;
  fo_last : replaces r = None -> forall s, refer_uri r <> s ++ [">"%char];
  fo_nonempty : replaces r = None -> refer_uri r <> [];
  fo_replaces : forall h, replaces r = Some h -> replaces_ok h
}.

Lemma trim_start_char_stop c d s : d <> c -> trim_start_char c (d :: s) = d :: s.
Proof. intros H. simpl. by rewrite bool_decide_false. Qed.

Lemma trim_end_char_once c s d : d <> c -> trim_end_char c ((s ++ [d]) ++ [c]) = s ++ [d].
Proof.
  intros H. unfold trim_end_char. rewrite !reverse_snoc. cbn [trim_start_char].
  rewrite (bool_decide_true (c = c)), (bool_decide_false (d = c)) by done. by rewrite <- reverse_snoc, reverse_involutive.
Qed.

(** The brackets come off and nothing else does. *)
Lemma unbracket s d :
  (forall r, s ++ [d] <> "<"%char :: r) -> d <> ">"%char ->
  trim_end_char ">" (trim_start_char "<" (trim (#"<" ++ (s ++ [d]) ++ #">"))) = s ++ [d].
Proof.
  intros Hf Hd. rewrite trim_tok.
  - change (#"<" ++ ?r) with ("<"%char :: r). cbn [trim_start_char]. rewrite bool_decide_true by done.
    change #">" with [">"%char]. destruct (s ++ [d]) as [|c r] eqn:E; [by destruct s|].
    cbn [app]. rewrite trim_start_char_stop by (intros ->; by apply (Hf r)).
    change (c :: r ++ [">"%char]) with ((c :: r) ++ [">"%char]). rewrite <- E. by apply trim_end_char_once.
  - intros c r E. change (#"<" ++ ?r) with ("<"%char :: r) in E. by injection E as <- _.
  - intros r c E. rewrite app_assoc in E. change #">" with [">"%char] in E. by apply app_inj_2 in E as [_ [= <-]].
Qed.

(** The printed Replaces does not end in a bracket. *)
Lemma replaces_last h :
  replaces_ok h -> exists p d, replaces_to_header h = p ++ [d] /\ d <> ">"%char.
Proof.
  intros [_ _ Hf]. unfold replaces_to_header. destruct (early_only h).
  - exists (r_call_id h ++ #";to-tag=" ++ to_tag h ++ #";from-tag=" ++ from_tag h ++ #";early-onl"), "y"%char.
    split; [|done]. by rewrite <- !app_assoc.
  - rewrite app_nil_r. destruct (from_tag h) as [|d p _] eqn:E using rev_ind.
    + exists (r_call_id h ++ #";to-tag=" ++ to_tag h ++ #";from-tag"), "="%char. split; [|done].
      by rewrite <- !app_assoc, app_nil_r.
    + exists (r_call_id h ++ #";to-tag=" ++ to_tag h ++ #";from-tag=" ++ p), d. split; [by rewrite <- !app_assoc|].
      apply Forall_app in Hf as [_ Hf]. by inversion Hf as [|? ? [_ ?]].
Qed.

Lemma enc_char_last d : d <> ">"%char -> exists p x, enc_char d = p ++ [x] /\ x <> ">"%char.
Proof.
  intros H. exists (reverse (tail (reverse (enc_char d)))), (default "0"%char (last (enc_char d))).
  destruct d as [[] [] [] [] [] [] [] []]; done.
Qed.

(** What a transferor writes the transferee reads.  A Refer-To with the dialog to be
    replaced in the query of its URI (escaped), or without, is parsed back into the target,
    the Call-ID, both tags and the early-only flag; so is the Replaces value on its own. *)
Theorem refer_to_roundtrip r :
  refer_ok r ->
  refer_to_parse (refer_to_header r) = Ok r /\
  forall h, replaces r = Some h -> replaces_parse (replaces_to_header h) = Ok h.
Proof.
  intros [Hq Hf Hl Hn Hr]. destruct r as [uri [h|]]; cbn [refer_uri replaces] in *.
  - pose proof (Hr h eq_refl) as Hh. split; [|intros ? [= <-]; by apply replaces_roundtrip].
    destruct (replaces_last h Hh) as (p & d & E & Hd). destruct (enc_char_last d Hd) as (q & x & Ex & Hx).
    assert (uri ++ #"?" ++ to_uri_param h = (uri ++ #"?Replaces=" ++ url_encode p ++ q) ++ [x]) as Es.
    { rewrite to_uri_param_encodes, E, url_encode_app, url_encode_one, Ex. by rewrite <- !app_assoc. }
    unfold refer_to_parse, refer_to_header. cbn [refer_uri replaces].
    replace (#"<" ++ uri ++ #"?" ++ to_uri_param h ++ #">") with (#"<" ++ (uri ++ #"?" ++ to_uri_param h) ++ #">")
      by (by rewrite <- !app_assoc).
    rewrite Es, unbracket, <- Es; [| |done].
    + change (#"?" ++ to_uri_param h) with ("?"%char :: to_uri_param h). rewrite split_once_app by done.
      unfold parse_replaces_param. rewrite to_uri_param_encodes, split_no.
      * cbn [find_replaces]. by rewrite strip_prefix_app, url_decode_encode, replaces_roundtrip.
      * rewrite in_app_iff. intros [H|H]; [simpl in H; intuition discriminate|by apply encoded_no_amp in H].
    + intros s Hs. rewrite <- Es in Hs. destruct uri as [|c uri]; [done|]. injection Hs as -> _. by apply (Hf uri).
  - split; [|done]. destruct uri as [|d s _] using rev_ind; [by destruct (Hn eq_refl)|].
    unfold refer_to_parse, refer_to_header. cbn [refer_uri replaces].
    rewrite unbracket; [by rewrite split_once_none|done|]. intros ->. by apply (Hl eq_refl s).
Qed.

(** ** A transfer from REFER to its outcome *)

Definition notify_all (call_id : str) (bodies : list str) (m : TransferManager)
  : list (result TransferProgress TransferError) * TransferManager :=
  foldl (fun '(rs, m) body => let '(r, m) := handle_notify call_id body m in (rs ++ [r], m)) ([], m) bodies.

(** The entry of a call after these notifications. *)
Definition followed (info : TransferInfo) (ps : list TransferProgress) : TransferInfo :=
  match last ps with
  | None => info
  | Some p => (info <| t_state := progress_state p |>) <| last_progress := Some p |>
  end.

Lemma followed_snoc info ps p :
  followed info (ps ++ [p]) =
  (info <| t_state := progress_state p |>) <| last_progress := Some p |>.
Proof. unfold followed. by rewrite last_snoc. Qed.

Lemma followed_again info ps p :
  ((followed info ps) <| t_state := progress_state p |>) <| last_progress := Some p |> = followed info (ps ++ [p]).
Proof. rewrite followed_snoc. unfold followed. by destruct (last ps). Qed.

Lemma notify_all_spec c bodies m info :
  notify_all c bodies (<[c := info]> m) =
  (map (fun b => ok_or (parse_sipfrag b) FailedE) bodies,
   <[c := followed info (omap parse_sipfrag bodies)]> m).
Proof.
  unfold notify_all. induction bodies as [|b bodies IH] using rev_ind; [done|].
  rewrite foldl_app, IH, map_app, omap_app. cbn [foldl map]. unfold handle_notify. simpl omap.
  destruct (parse_sipfrag b) as [p|]; cbn [ok_or].
  - by rewrite lookup_insert_eq, insert_insert_eq, followed_again.
  - by rewrite app_nil_r.
Qed.

Lemma progress_not_idle p : progress_state p <> NoTransfer.
Proof. unfold progress_state. destruct (is_success p), (final_ p); done. Qed.

(** A transfer is followed to its end.  For a call without a transfer the REFER goes out;
    once it is accepted, and whatever bodies the NOTIFYs carry, well formed or not, each is
    reported as what it says and the state is that of the last well-formed one: in progress,
    completed by a 2xx, failed by any other final code.  Until it is cleared a second
    transfer of the call is refused without a change; other calls are not touched. *)
Theorem transfer_followed ty c uri refer m status bodies c' :
  t_state (entry c m) = NoTransfer -> 200 <= status < 300 ->
  let '(r, m1) := initiate ty c uri refer m in
  let '(r2, m2) := handle_refer_response c status m1 in
  let '(rs, m3) := notify_all c bodies m2 in
  r = Ok refer /\ transfer_state c m1 = Pending /\ r2 = Ok Accepted /\
  rs = map (fun b => ok_or (parse_sipfrag b) FailedE) bodies /\
  transfer_state c m3 = from_option progress_state Accepted (last (omap parse_sipfrag bodies)) /\
  initiate ty c uri refer m3 = (Err InvalidState, m3) /\
  transfer_state c (clear c m3) = NoTransfer /\
  (c' <> c -> m3 !! c' = m !! c').
Proof.
  intros Hs Hr. unfold initiate at 1. rewrite Hs. cbn [negb bool_decide]. rewrite bool_decide_true by done.
  cbn [negb]. unfold handle_refer_response. rewrite lookup_insert_eq, (proj2 (in_range_true 200 300 status)) by done.
  rewrite insert_insert_eq, notify_all_spec. set (info := _ <| t_state := Accepted |>).
  assert (t_state (followed info (omap parse_sipfrag bodies)) =
          from_option progress_state Accepted (last (omap parse_sipfrag bodies))) as E
    by (unfold followed; by destruct (last _)).
  split_and!; try done.
  - unfold transfer_state. by rewrite lookup_insert_eq.
  - unfold transfer_state. by rewrite lookup_insert_eq.
  - unfold initiate, entry. rewrite lookup_insert_eq. cbn [from_option id]. rewrite bool_decide_false.
    + by rewrite insert_insert_eq.
    + rewrite E. destruct (last _); [apply progress_not_idle|done].
  - unfold transfer_state, clear. by rewrite lookup_delete_eq.
  - intros Hc. by rewrite lookup_insert_ne.
Qed.

(** ** Witnesses *)

Definition example_replaces : ReplacesHeader := mkReplaces #"a84b&4c%76@pc33" #"314159" #"1928301774" true.
Definition example_refer : ReferTo := refer_attended #"sip:carol@example.com" example_replaces.

Lemma refer_to_roundtrip_witness :
  refer_to_parse #"<sip:carol@example.com?Replaces=a84b%264c%2576%40pc33%3Bto-tag%3D314159%3Bfrom-tag%3D1928301774%3Bearly-only>" =
  Ok example_refer.
Proof.
  apply (refer_to_roundtrip example_refer). split; simpl; try done.
  - intuition discriminate.
  - intros h [= <-]. split; [split; [done|]| |]; repeat constructor; simpl; done.
Defined.

Lemma transfer_followed_witness :
  transfer_state #"c" (notify_all #"c" [ #"SIP/2.0 180 Ringing"; #"junk"; #"SIP/2.0 200 OK"]
    (handle_refer_response #"c" 202 (initiate_blind_transfer #"c" #"sip:carol@example.com" empty).2).2).2 = Completed.
Proof.
  pose proof (transfer_followed Blind #"c" #"sip:carol@example.com" (refer_blind #"sip:carol@example.com") empty 202
    [ #"SIP/2.0 180 Ringing"; #"junk"; #"SIP/2.0 200 OK"] #"d" ltac:(done) ltac:(lia)) as K.
  unfold initiate_blind_transfer.
  destruct (initiate _ _ _ _ _) as [r m1] in K |- *. cbn [snd] in *.
  destruct (handle_refer_response _ _ _) as [r2 m2] in K |- *. cbn [snd] in *.
  destruct (notify_all _ _ _) as [rs m3] in K |- *. cbn [snd] in *.
  destruct K as (_ & _ & _ & _ & -> & _). reflexivity.
Defined.

(** A NOTIFY that comes late takes a completed transfer back to progress. *)
Example late_notify_reopens :
  transfer_state #"c" (notify_all #"c" [ #"SIP/2.0 200 OK"; #"SIP/2.0 180 Ringing"]
    (initiate_blind_transfer #"c" #"sip:carol@example.com" empty).2).2 = InProgress.
Proof. by vm_compute. Qed.
