(* ===== verification/DigestAuth.v ===== *)
(** * Digest authentication ([sip/auth.rs])

    Challenges, the digest computation of RFC 2617 and RFC 7616, and the Authorization
    header.  The hash functions come from external crates: [Hashes] is what the code uses of
    them, the hexadecimal digest of a byte string under MD5 and under SHA-256, HMAC-MD5 and
    base64.  The client nonce is drawn at random
    and is an argument.  Keys are compared after Unicode lower-casing, which maps no other
    character to the letters of the keys looked up than the ASCII capitals. *)

From S2P Require Import Prelude RStr SipTyped.

Local Open Scope Z_scope.

Inductive DigestAuthError : Type :=
| MissingField (field : str)
| UnsupportedAlgorithm (name : str)
| ParseError.

Inductive Qop : Type := QopNone | Auth | AuthInt.

#[export] Instance qop_eq_dec : EqDecision Qop.
Proof. solve_decision. Defined.

Definition qop_to_string (q : Qop) : str :=
  match q with
  | QopNone => []
  | Auth => #"auth"
  | AuthInt => #"auth-int"
  end.

Inductive Algorithm : Type := Md5 | Md5Sess | Sha256 | Sha256Sess | AkaV1Md5 | AkaV2Md5.

#[export] Instance algorithm_eq_dec : EqDecision Algorithm.
Proof. solve_decision. Defined.

Definition algorithm_to_string (a : Algorithm) : str :=
  match a with
  | Md5 => #"MD5"
  | Md5Sess => #"MD5-sess"
  | Sha256 => #"SHA-256"
  | Sha256Sess => #"SHA-256-sess"
  | AkaV1Md5 => #"AKAv1-MD5"
  | AkaV2Md5 => #"AKAv2-MD5"
  end.

(** ** Parameters of a header *)

(** [trim_start_matches(|c| c == ',' || c.is_whitespace())] *)
Definition sep_len (s : str) : nat :=
  match s with
  | ","%char :: _ => 1%nat
  | _ => ws_len s
  end.

Definition skip_seps (s : str) : str := strip_ws sep_len 0 s.

(** The value after a key, and what follows it. *)
Definition auth_value (s : str) : result (str * str) DigestAuthError :=
  match s with
  | c :: r =>
      if bool_decide (c = DQ) then ok_or (split_once DQ r) ParseError
      else
        match split_once "," s with
        | Some (v, r) => Ok (trim v, ","%char :: r)
        | None => Ok (trim s, [])
        end
  | [] => Ok ([], [])
  end.

(** The loop; [None] when the fuel runs out, which [parse_auth_params] never does. *)
Fixpoint auth_params_loop (fuel : nat) (params : gmap str str) (remaining : str)
  : option (result (gmap str str) DigestAuthError) :=
  match fuel with
  | O => None
  | S fuel =>
      if is_empty remaining then Some (Ok params) else
      let remaining := skip_seps remaining in
      if is_empty remaining then Some (Ok params) else
      match split_once "=" remaining with
      | None => Some (Err ParseError)
      | Some (key, rest) =>
          let key := to_ascii_lowercase (trim key) in
          match auth_value (trim_start rest) with
          | Err e => Some (Err e)
          | Ok (value, rest) => auth_params_loop fuel (<[key := value]> params) rest
          end
      end
  end.

(** Every round consumes an equals sign. *)
Definition parse_auth_params (params_str : str) : option (result (gmap str str) DigestAuthError) :=
  auth_params_loop (S (length params_str)) empty (trim params_str).

(** ** Challenges *)

Record DigestChallenge : Type := mkChallenge {
  c_realm : str;
  c_nonce : str;
  c_opaque : option str;
  c_stale : bool;
  c_algorithm : Algorithm;
  c_qop : option Qop;
  c_domain : option str
}.

Definition algorithm_of (name : option str) : result Algorithm DigestAuthError :=
  match name with
  | None => Ok Md5
  | Some s =>
      if eqb s #"MD5" then Ok Md5
      else if eqb s #"MD5-sess" then Ok Md5Sess
      else if eqb s #"SHA-256" then Ok Sha256
      else if eqb s #"SHA-256-sess" then Ok Sha256Sess
      else if eqb s #"AKAv1-MD5" then Ok AkaV1Md5
      else if eqb s #"AKAv2-MD5" then Ok AkaV2Md5
      else Err (UnsupportedAlgorithm s)
  end.

Definition qop_of (qop_str : str) : Qop :=
  if contains #"auth-int" qop_str && negb (contains #"auth," qop_str) then AuthInt
  else if contains #"auth" qop_str then Auth
  else QopNone.

Definition challenge_of (params : gmap str str) : result DigestChallenge DigestAuthError :=
  let? realm := ok_or (params !! #"realm") (MissingField #"realm") in
  let? nonce := ok_or (params !! #"nonce") (MissingField #"nonce") in
  let opaque := params !! #"opaque" in
  let domain := params !! #"domain" in
  let stale := match params !! #"stale" with Some v => eq_ignore_ascii_case v #"true" | None => false end in
  let? algorithm := algorithm_of (params !! #"algorithm") in
  let qop := qop_of <$> params !! #"qop" in
  Ok (mkChallenge realm nonce opaque stale algorithm qop domain).

(** The parameters after the scheme. *)
Definition digest_params (header_value : str) : option (result (gmap str str) DigestAuthError) :=
  let header_value := trim header_value in
  if negb (starts_with #"digest " (to_ascii_lowercase header_value)) then Some (Err ParseError)
  else parse_auth_params (drop 7 header_value).

Definition challenge_parse (header_value : str) : option (result DigestChallenge DigestAuthError) :=
  let* params := digest_params header_value in
  Some (let? params := params in challenge_of params).

(** ** Responses *)

Record DigestCredentials : Type := mkCredentials { username : str; password : str }.

Record DigestResponse : Type := mkDigest {
  d_username : str;
  d_realm : str;
  d_nonce : str;
  d_uri : str;
  d_response : str;
  d_algorithm : Algorithm;
  d_opaque : option str;
  d_qop : option Qop;
  d_cnonce : option str;
  d_nc : option Z
}.

Class Hashes := {
  md5_hex : str -> str;
  sha256_hex : str -> str;
  hmac_md5 : str -> str -> str;
  base64 : str -> str
}.

Definition derive_akav2_password `{Hashes} (res ik ck : str) : str :=
  base64 (hmac_md5 (res ++ ik ++ ck) #"http-digest-akav2-password").

(** A digit of [{:08x}] and the eight of them. *)
Definition hex_char (d : Z) : ascii := if d <? 10 then chr (48 + d) else chr (87 + d).

Definition hex8 (n : Z) : str :=
  map (fun i => hex_char (n / 16 ^ (7 - i) mod 16)) (seqZ 0 8).

Section Digest.
Context `{Hashes}.

Definition hash_of (a : Algorithm) : str -> str :=
  match a with
  | Md5 | Md5Sess | AkaV1Md5 | AkaV2Md5 => md5_hex
  | Sha256 | Sha256Sess => sha256_hex
  end.

Definition compute_digest (username password realm method uri nonce : str) (algorithm : Algorithm)
    (qop : option Qop) (cnonce : option str) (nc : option Z) (body : option str) : str :=
  let hash := hash_of algorithm in
  let ha1 :=
    let ha1_base := hash (username ++ #":" ++ realm ++ #":" ++ password) in
    match algorithm with
    | Md5 | Sha256 | AkaV1Md5 | AkaV2Md5 => ha1_base
    | Md5Sess | Sha256Sess => hash (ha1_base ++ #":" ++ nonce ++ #":" ++ default [] cnonce)
    end in
  let ha2 :=
    match qop with
    | Some AuthInt =>
        let body_hash := match body with Some body => hash body | None => hash [] end in
        hash (method ++ #":" ++ uri ++ #":" ++ body_hash)
    | _ => hash (method ++ #":" ++ uri)
    end in
  match qop with
  | Some QopNone | None => hash (ha1 ++ #":" ++ nonce ++ #":" ++ ha2)
  | Some qop =>
      hash (ha1 ++ #":" ++ nonce ++ #":" ++ hex8 (default 1 nc) ++ #":" ++ default [] cnonce ++ #":" ++
            qop_to_string qop ++ #":" ++ ha2)
  end.

(** [random_cnonce] is what [generate_cnonce] draws. *)
Definition from_challenge (random_cnonce : str) (challenge : DigestChallenge)
    (credentials : DigestCredentials) (method uri : str) (body : option str) (nc : option Z)
  : result DigestResponse DigestAuthError :=
  if is_empty (c_realm challenge) then Err (MissingField #"realm") else
  if is_empty (c_nonce challenge) then Err (MissingField #"nonce") else
  let qop := c_qop challenge in
  let '(cnonce, nc) :=
    if is_some qop then (Some random_cnonce, Some (default 1 nc)) else (None, None) in
  let response := compute_digest (username credentials) (password credentials) (c_realm challenge)
    method uri (c_nonce challenge) (c_algorithm challenge) qop cnonce nc body in
  Ok (mkDigest (username credentials) (c_realm challenge) (c_nonce challenge) uri response
        (c_algorithm challenge) (c_opaque challenge) qop cnonce nc).
End Digest.

(** [format!("{}=\"{}\"", key, value)] *)
Definition quoted (key value : str) : str := key ++ #"=" ++ [DQ] ++ value ++ [DQ].

Definition to_header_value (r : DigestResponse) : str :=
  let parts :=
    [ #"Digest " ++ quoted #"username" (d_username r);
      quoted #"realm" (d_realm r);
      quoted #"nonce" (d_nonce r);
      quoted #"uri" (d_uri r);
      quoted #"response" (d_response r);
      #"algorithm=" ++ algorithm_to_string (d_algorithm r)] in
  let parts := parts ++ match d_opaque r with Some opaque => [quoted #"opaque" opaque] | None => [] end in
  let parts := parts ++
    match d_qop r with
    | Some QopNone | None => []
    | Some qop =>
        [ #"qop=" ++ qop_to_string qop] ++
        match d_cnonce r with Some cnonce => [quoted #"cnonce" cnonce] | None => [] end ++
        match d_nc r with Some nc => [ #"nc=" ++ hex8 nc] | None => [] end
    end in
  join #", " parts.

(** ** Reading parameters *)

Lemma strip_ws_length wl k s : (length (strip_ws wl k s) <= length s)%nat.
Proof. destruct (strip_ws_suffix wl k s) as [p E]. rewrite E at 2. rewrite length_app. lia. Qed.

Lemma split_once_length c s a b : split_once c s = Some (a, b) -> (length a + length b < length s)%nat.
Proof. intros [-> _]%split_once_Some. rewrite length_app. simpl. lia. Qed.

Lemma auth_value_length s v r : auth_value s = Ok (v, r) -> (length r <= length s)%nat.
Proof.
  unfold auth_value. destruct s as [|c s]; [intros [= <- <-]; simpl; lia|]. case_bool_decide.
  - destruct (split_once DQ s) as [[a b]|] eqn:E; [|done]. intros [= <- <-].
    apply split_once_length in E. simpl. lia.
  - destruct (split_once "," (c :: s)) as [[a b]|] eqn:E; intros [= <- <-]; [|simpl; lia].
    apply split_once_length in E. simpl in *. lia.
Qed.

(** The fuel is never used up. *)
Lemma auth_params_total fuel m s : (length s < fuel)%nat -> exists r, auth_params_loop fuel m s = Some r.
Proof.
  revert m s. induction fuel as [|fuel IH]; intros m s Hf; [lia|]. cbn [auth_params_loop].
  destruct (is_empty s); [by eexists|]. pose proof (strip_ws_length sep_len 0 s) as Hs. fold (skip_seps s) in Hs.
  destruct (is_empty (skip_seps s)); [by eexists|].
  destruct (split_once "=" (skip_seps s)) as [[k r]|] eqn:E; [|by eexists].
  apply split_once_length in E. destruct (auth_value (trim_start r)) as [[v r']|e] eqn:Ev; [|by eexists].
  apply auth_value_length in Ev. pose proof (strip_ws_length ws_len 0 r) as Hr. fold (trim_start r) in Hr.
  apply IH. lia.
Qed.

Lemma trim_length s : (length (trim s) <= length s)%nat.
Proof.
  unfold trim, trim_end. rewrite length_reverse.
  pose proof (strip_ws_length ws_len_rev 0 (reverse (trim_start s))) as H. rewrite length_reverse in H.
  pose proof (strip_ws_length ws_len 0 s) as H'. fold (trim_start s) in H'. lia.
Qed.

Lemma parse_auth_params_total s : exists r, parse_auth_params s = Some r.
Proof. apply auth_params_total. pose proof (trim_length s). lia. Qed.

Lemma challenge_parse_total s : exists r, challenge_parse s = Some r.
Proof.
  unfold challenge_parse, digest_params. destruct (negb _); [by eexists|].
  destruct (parse_auth_params_total (drop 7 (trim s))) as [r ->]. by eexists.
Qed.

(** ** Printing parameters and reading them *)

Record param : Type := mkParam { p_key : str; p_quoted : bool; p_value : str }.

Definition show_param (p : param) : str :=
  if p_quoted p then quoted (p_key p) (p_value p) else p_key p ++ #"=" ++ p_value p.

Definition key_char (c : ascii) : Prop := tokc c = true /\ c <> "="%char /\ c <> ","%char.
Definition token_char (c : ascii) : Prop := tokc c = true /\ c <> ","%char /\ c <> DQ.

Definition param_ok (p : param) : Prop :=
  p_key p <> [] /\ Forall key_char (p_key p) /\ to_ascii_lowercase (p_key p) = p_key p /\
  if p_quoted p then ~ In DQ (p_value p) else p_value p <> [] /\ Forall token_char (p_value p).

Definition insert_param (m : gmap str str) (p : param) : gmap str str := <[p_key p := p_value p]> m.

(** What follows a parameter. *)
Definition more (ps : list param) : str :=
  match ps with [] => [] | _ => #", " ++ join #", " (map show_param ps) end.

Lemma join_show p ps : join #", " (map show_param (p :: ps)) = show_param p ++ more ps.
Proof. destruct ps; [by rewrite app_nil_r|done]. Qed.

Lemma sep_len_tok c r : tokc c = true -> c <> ","%char -> sep_len (c :: r) = 0%nat.
Proof.
  intros H Hc. unfold sep_len. destruct (decide (c = ","%char)) as [->|]; [done|].
  rewrite <- (ws_len_tok c r H). destruct c as [[] [] [] [] [] [] [] []]; done.
Qed.

Lemma skip_seps_key c r : key_char c -> skip_seps (c :: r) = c :: r.
Proof. intros (H & _ & Hc). apply strip_ws_id. by apply sep_len_tok. Qed.

Lemma skip_seps_more c r : key_char c -> skip_seps (#", " ++ c :: r) = c :: r.
Proof. intros H. rewrite <- (skip_seps_key c r H) at 2. done. Qed.

Lemma more_cases ps : more ps = [] \/ exists r, more ps = ","%char :: r.
Proof. destruct ps; [by left|right; by eexists]. Qed.

Lemma auth_value_show p ps :
  param_ok p ->
  split_once "=" (show_param p ++ more ps) =
    Some (p_key p, (if p_quoted p then [DQ] ++ p_value p ++ [DQ] else p_value p) ++ more ps) /\
  auth_value (trim_start ((if p_quoted p then [DQ] ++ p_value p ++ [DQ] else p_value p) ++ more ps)) =
    Ok (p_value p, more ps).
Proof.
  intros (Hne & Hk & _ & Hv). split.
  - unfold show_param, quoted. destruct (p_quoted p).
    all: rewrite <- !app_assoc; change #"=" with ["="%char]; cbn [app]; rewrite <- ?app_assoc; apply split_once_app.
    all: intros Hin; rewrite Forall_forall in Hk; by apply list_elem_of_In, Hk in Hin as (_ & ? & _).
  - destruct (p_quoted p).
    + cbn [app]. rewrite trim_start_tok by done. unfold auth_value. rewrite bool_decide_true by done.
      rewrite <- app_assoc. cbn [app]. by rewrite split_once_app.
    + destruct Hv as [Hvn Hv]. destruct (p_value p) as [|c v] eqn:E; [done|]. cbn [app].
      rewrite trim_start_tok by (by inversion Hv as [|? ? (? & _)]). unfold auth_value.
      rewrite bool_decide_false by (by inversion Hv as [|? ? (_ & _ & ?)]).
      change (c :: v ++ more ps) with ((c :: v) ++ more ps).
      assert (~ In ","%char (c :: v)) as Hc
        by (intros Hin; rewrite Forall_forall in Hv; by apply list_elem_of_In, Hv in Hin as (_ & ? & _)).
      assert (trim (c :: v) = c :: v) as Ht
        by (apply trim_all_tok; eapply Forall_impl; [exact Hv|by intros ? (? & _)]).
      destruct (more_cases ps) as [->|[r ->]].
      * rewrite app_nil_r, split_once_none by done. by rewrite Ht.
      * rewrite split_once_app by done. by rewrite Ht.
Qed.

Lemma show_param_nonempty p : (0 < length (show_param p))%nat.
Proof. unfold show_param, quoted. destruct (p_quoted p); rewrite !length_app; simpl; lia. Qed.

(** One round of the loop reads one parameter. *)
Lemma auth_params_round fuel m p ps s :
  param_ok p -> skip_seps s = show_param p ++ more ps ->
  auth_params_loop (S fuel) m s = auth_params_loop fuel (insert_param m p) (more ps).
Proof.
  intros Hp Hs. pose proof Hp as (Hkn & Hk & Hl & _). pose proof (show_param_nonempty p) as Hn.
  cbn [auth_params_loop].
  assert (s <> []) as Hne by (intros ->; destruct (show_param p); [simpl in Hn; lia|done]).
  destruct s as [|c0 s0] eqn:Es; [done|]. cbn [is_empty]. rewrite <- Es in *. rewrite Hs.
  destruct (show_param p ++ more ps) as [|x t] eqn:Et; [destruct (show_param p); [simpl in Hn; lia|done]|].
  cbn [is_empty]. rewrite <- Et. destruct (auth_value_show p ps Hp) as [E1 E2]. rewrite E1, E2.
  by rewrite (trim_all_tok (p_key p)), Hl by (eapply Forall_impl; [exact Hk|by intros ? (? & _)]).
Qed.

Lemma skip_more p ps : param_ok p -> skip_seps (more (p :: ps)) = show_param p ++ more ps.
Proof.
  intros (Hn & Hk & _). unfold more at 1. rewrite join_show. unfold show_param, quoted.
  destruct (p_key p) as [|c k]; [done|]. apply Forall_cons in Hk as [Hc _].
  destruct (p_quoted p); cbn [app]; by apply skip_seps_more.
Qed.

Lemma auth_params_more fuel m ps :
  Forall param_ok ps -> (length (more ps) < fuel)%nat ->
  auth_params_loop fuel m (more ps) = Some (Ok (foldl insert_param m ps)).
Proof.
  revert m fuel. induction ps as [|p ps IH]; intros m [|fuel] Hok Hf; try lia; [done|].
  apply Forall_cons in Hok as [Hp Hps]. rewrite (auth_params_round _ _ p ps) by (done || by apply skip_more).
  apply IH; [done|]. pose proof (strip_ws_length sep_len 0 (more (p :: ps))) as L.
  fold (skip_seps (more (p :: ps))) in L. rewrite skip_more, length_app in L by done.
  pose proof (show_param_nonempty p). lia.
Qed.

Definition params_text (ps : list param) : str := join #", " (map show_param ps).

Definition params_map (ps : list param) : gmap str str := foldl insert_param empty ps.

Lemma skip_show p ps : param_ok p -> skip_seps (show_param p ++ more ps) = show_param p ++ more ps.
Proof.
  intros (Hn & Hk & _). unfold show_param, quoted.
  destruct (p_key p) as [|c k]; [done|]. apply Forall_cons in Hk as [Hc _].
  destruct (p_quoted p); cbn [app]; by apply skip_seps_key.
Qed.

(** The first and the last character of the text are neither blank nor part of a blank. *)
Lemma show_first p r c t : param_ok p -> show_param p ++ r = c :: t -> tokc c = true.
Proof.
  intros (Hn & Hk & _). unfold show_param, quoted. destruct (p_key p) as [|x k]; [done|].
  apply Forall_cons in Hk as [(Hx & _) _]. destruct (p_quoted p); cbn [app]; by intros [= <- _].
Qed.

Lemma show_last p : param_ok p -> exists t c, show_param p = t ++ [c] /\ tokc c = true.
Proof.
  intros (_ & _ & _ & Hv). unfold show_param, quoted. destruct (p_quoted p).
  - exists (p_key p ++ #"=" ++ [DQ] ++ p_value p), DQ. split; [by rewrite <- !app_assoc|done].
  - destruct Hv as [Hn Hv]. destruct (p_value p) as [|c v _] using rev_ind; [done|].
    apply Forall_app in Hv as [_ Hv]. inversion Hv as [|? ? (Hc & _)].
    exists (p_key p ++ #"=" ++ v), c. split; [by rewrite <- !app_assoc|done].
Qed.

Lemma params_last ps :
  ps <> [] -> Forall param_ok ps -> exists t c, params_text ps = t ++ [c] /\ tokc c = true.
Proof.
  unfold params_text. induction ps as [|p ps IH]; intros Hne Hok; [done|]. apply Forall_cons in Hok as [Hp Hps].
  rewrite join_show. destruct ps as [|p' ps].
  - rewrite app_nil_r. by apply show_last.
  - destruct (IH ltac:(done) Hps) as (t & c & E & Hc). unfold more. rewrite E.
    exists (show_param p ++ #", " ++ t), c. split; [by rewrite <- !app_assoc|done].
Qed.

Lemma params_roundtrip ps :
  ps <> [] -> Forall param_ok ps -> parse_auth_params (params_text ps) = Some (Ok (params_map ps)).
Proof.
  intros Hne Hok. destruct ps as [|p ps]; [done|]. unfold parse_auth_params. rewrite trim_tok.
  - apply Forall_cons in Hok as [Hp Hps]. unfold params_text. rewrite join_show.
    rewrite (auth_params_round _ _ p ps) by (done || by apply skip_show). apply auth_params_more; [done|].
    rewrite length_app. pose proof (show_param_nonempty p). lia.
  - intros c t. apply Forall_cons in Hok as [Hp _]. unfold params_text. rewrite join_show. by apply show_first.
  - intros t c E. destruct (params_last _ Hne Hok) as (t' & c' & E' & Hc). rewrite E' in E.
    by apply app_inj_2 in E as [_ [= <-]].
Qed.

(** The same behind the scheme. *)
Lemma digest_params_text ps :
  ps <> [] -> Forall param_ok ps -> digest_params (#"Digest " ++ params_text ps) = Some (Ok (params_map ps)).
Proof.
  intros Hne Hok. unfold digest_params. rewrite trim_tok.
  - change (starts_with #"digest " (to_ascii_lowercase (#"Digest " ++ params_text ps))) with true.
    change (drop 7 (#"Digest " ++ params_text ps)) with (params_text ps). by apply params_roundtrip.
  - by intros c r [= <- _].
  - intros t c E. destruct (params_last _ Hne Hok) as (t' & c' & E' & Hc). rewrite E', app_assoc in E.
    by apply app_inj_2 in E as [_ [= <-]].
Qed.

(** ** The exchange with a registrar *)

(** The value a map of printed parameters has for a key: the last one with the key. *)
Fixpoint find_param (k : str) (ps : list param) (acc : option str) : option str :=
  match ps with
  | [] => acc
  | p :: ps => find_param k ps (if eqb (p_key p) k then Some (p_value p) else acc)
  end.

Lemma params_lookup k ps m : foldl insert_param m ps !! k = find_param k ps (m !! k).
Proof.
  revert m. induction ps as [|p ps IH]; intros m; [done|]. cbn [foldl find_param]. rewrite IH. f_equal.
  unfold insert_param, eqb. case_bool_decide as E; [rewrite E; by rewrite lookup_insert_eq|by rewrite lookup_insert_ne].
Qed.

Definition opt_param (key : str) (o : option str) : list param :=
  match o with Some v => [mkParam key true v] | None => [] end.

(** A challenge as a registrar writes it. *)
Definition challenge_params (c : DigestChallenge) : list param :=
  [mkParam #"realm" true (c_realm c); mkParam #"nonce" true (c_nonce c)] ++
  opt_param #"opaque" (c_opaque c) ++
  (if c_stale c then [mkParam #"stale" false #"true"] else []) ++
  [mkParam #"algorithm" false (algorithm_to_string (c_algorithm c))] ++
  opt_param #"qop" (qop_to_string <$> c_qop c) ++
  opt_param #"domain" (c_domain c).

Definition challenge_text (c : DigestChallenge) : str := #"Digest " ++ params_text (challenge_params c).

Definition no_quote (s : str) : Prop := ~ In DQ s.

Record challenge_ok (c : DigestChallenge) : Prop := {
  co_realm : c_realm c <> [] /\ no_quote (c_realm c);
  co_nonce : c_nonce c <> [] /\ no_quote (c_nonce c);
  co_opaque : forall s, c_opaque c = Some s -> no_quote s;
  co_domain : forall s, c_domain c = Some s -> no_quote s;
  co_qop : c_qop c <> Some QopNone
}.

(** The digest as RFC 7616 section 3.4.1 defines it, on the texts of a header. *)
Definition expected_response (hash : str -> str) (sess : bool)
    (user realm pw nonce nc cnonce : str) (qop : option str) (method uri body : str) : str :=
  let a1 := user ++ #":" ++ realm ++ #":" ++ pw in
  let ha1 := if sess then hash (hash a1 ++ #":" ++ nonce ++ #":" ++ cnonce) else hash a1 in
  let a2 := method ++ #":" ++ uri in
  match qop with
  | None => hash (ha1 ++ #":" ++ nonce ++ #":" ++ hash a2)
  | Some q =>
      let ha2 := if eqb q #"auth-int" then hash (a2 ++ #":" ++ hash body) else hash a2 in
      hash (ha1 ++ #":" ++ nonce ++ #":" ++ nc ++ #":" ++ cnonce ++ #":" ++ q ++ #":" ++ ha2)
  end.

Definition is_sess (a : Algorithm) : bool := match a with Md5Sess | Sha256Sess => true | _ => false end.

(** A registrar that issued the challenge and knows the passwords of its users. *)
Definition registrar_accepts `{Hashes} (users : str -> option str) (issued : DigestChallenge)
    (method body header : str) : bool :=
  match digest_params header with
  | Some (Ok ps) =>
      match ps !! #"username", ps !! #"uri", ps !! #"response" with
      | Some user, Some uri, Some response =>
          bool_decide (ps !! #"realm" = Some (c_realm issued)) &&
          bool_decide (ps !! #"nonce" = Some (c_nonce issued)) &&
          bool_decide (ps !! #"opaque" = c_opaque issued) &&
          bool_decide (ps !! #"algorithm" = Some (algorithm_to_string (c_algorithm issued))) &&
          match users user with
          | Some pw =>
              eqb response
                (expected_response (hash_of (c_algorithm issued)) (is_sess (c_algorithm issued)) user
                   (c_realm issued) pw (c_nonce issued) (default [] (ps !! #"nc"))
                   (default [] (ps !! #"cnonce")) (ps !! #"qop") method uri body)
          | None => false
          end
      | _, _, _ => false
      end
  | _ => false
  end.

Lemma challenge_params_ok c : challenge_ok c -> Forall param_ok (challenge_params c).
Proof.
  intros [[_ Hr] [_ Hn] Ho Hd Hq]. unfold challenge_params, param_ok.
  assert (forall k o, k <> [] -> Forall key_char k -> to_ascii_lowercase k = k -> (forall s, o = Some s -> no_quote s) ->
    Forall param_ok (opt_param k o)) as K.
  { intros k [v|] ? ? ? H; [|constructor]. repeat constructor; try done. by apply H. }
  repeat (apply Forall_app; split).
  - repeat (constructor; [split_and!; [done|by repeat constructor|done|done]|]). constructor.
  - apply K; try done. by repeat constructor.
  - destruct (c_stale c); [|constructor]. by repeat constructor.
  - by destruct (c_algorithm c); repeat constructor.
  - apply K; try done; [by repeat constructor|]. intros s E. destruct (c_qop c) as [[]|]; try done.
    all: apply (inj Some) in E; subst s; unfold no_quote; simpl; intuition discriminate.
  - apply K; try done. by repeat constructor.
Qed.

Lemma challenge_roundtrip c : challenge_ok c -> challenge_parse (challenge_text c) = Some (Ok c).
Proof.
  intros H. unfold challenge_parse, challenge_text. rewrite digest_params_text by (done || by apply challenge_params_ok).
  cbn [mbind option_bind rbind]. do 2 f_equal. unfold challenge_of, params_map. rewrite !params_lookup, !lookup_empty.
  destruct H as [_ _ _ _ Hq]. destruct c as [re no [op|] [] al [[]|] [dom|]]; try done.
  all: by destruct al.
Qed.

(** The parameters of an answer. *)
Definition response_params (r : DigestResponse) : list param :=
  [mkParam #"username" true (d_username r); mkParam #"realm" true (d_realm r);
   mkParam #"nonce" true (d_nonce r); mkParam #"uri" true (d_uri r);
   mkParam #"response" true (d_response r);
   mkParam #"algorithm" false (algorithm_to_string (d_algorithm r))] ++
  opt_param #"opaque" (d_opaque r) ++
  match d_qop r with
  | Some QopNone | None => []
  | Some qop =>
      [mkParam #"qop" false (qop_to_string qop)] ++ opt_param #"cnonce" (d_cnonce r) ++
      match d_nc r with Some nc => [mkParam #"nc" false (hex8 nc)] | None => [] end
  end.

Lemma to_header_value_params r : to_header_value r = #"Digest " ++ params_text (response_params r).
Proof. by destruct r as [u re no ur rs al [op|] [[]|] [cn|] [nc|]]. Qed.

Lemma hex8_token n : hex8 n <> [] /\ Forall token_char (hex8 n).
Proof.
  split; [done|]. apply Forall_map, Forall_forall. intros i _.
  pose proof (Z.mod_pos_bound (n / 16 ^ (7 - i)) 16 ltac:(lia)) as Hd.
  set (d := (n / 16 ^ (7 - i)) mod 16) in *. clearbody d. unfold hex_char, token_char.
  assert (d ∈ seqZ 0 16) as Hin by (apply elem_of_seqZ; lia).
  repeat (apply elem_of_cons in Hin as [->|Hin]; [done|]). by apply not_elem_of_nil in Hin.
Qed.

(** What is assumed of the hash functions: a digest is hexadecimal text. *)
Class HashesOk `{Hashes} : Prop := {
  md5_text s : Forall (fun c => is_ascii_digit c = true \/ 97 <= code c <= 102) (md5_hex s);
  sha256_text s : Forall (fun c => is_ascii_digit c = true \/ 97 <= code c <= 102) (sha256_hex s)
}.

Lemma hash_no_quote `{HashesOk} a s : no_quote (hash_of a s).
Proof.
  assert (Forall (fun c => is_ascii_digit c = true \/ 97 <= code c <= 102) (hash_of a s)) as F
    by (destruct a; (apply md5_text || apply sha256_text)).
  rewrite Forall_forall in F. intros Hin. apply list_elem_of_In, F in Hin as [Hin|Hin]; [done|].
  change (code DQ) with 34 in Hin. lia.
Qed.

Lemma digest_no_quote `{HashesOk} u p re m ur no a q cn nc b :
  no_quote (compute_digest u p re m ur no a q cn nc b).
Proof. unfold compute_digest. destruct q as [[]|]; apply hash_no_quote. Qed.

Lemma response_params_ok r :
  no_quote (d_username r) -> no_quote (d_realm r) -> no_quote (d_nonce r) -> no_quote (d_uri r) ->
  no_quote (d_response r) -> (forall s, d_opaque r = Some s -> no_quote s) ->
  (forall s, d_cnonce r = Some s -> no_quote s) -> Forall param_ok (response_params r).
Proof.
  intros Hu Hr Hn Huri Hresp Ho Hc. unfold response_params.
  assert (forall k s, k <> [] -> Forall key_char k -> to_ascii_lowercase k = k -> no_quote s ->
    param_ok (mkParam k true s)) as Q by (intros; by split_and!).
  assert (forall k o, k <> [] -> Forall key_char k -> to_ascii_lowercase k = k -> (forall s, o = Some s -> no_quote s) ->
    Forall param_ok (opt_param k o)) as K.
  { intros k [v|] ? ? ? H; [|constructor]. constructor; [|constructor]. apply Q; auto. }
  apply Forall_app. split; [|apply Forall_app; split].
  - repeat (apply Forall_cons; split; [by apply Q; try done; repeat constructor|]).
    by destruct (d_algorithm r); repeat constructor.
  - apply K; try done. by repeat constructor.
  - assert (forall q, q <> QopNone -> Forall param_ok ([mkParam #"qop" false (qop_to_string q)] ++
      opt_param #"cnonce" (d_cnonce r) ++ match d_nc r with Some nc => [mkParam #"nc" false (hex8 nc)] | None => [] end)) as C.
    { intros q Hq. apply Forall_app. split; [by destruct q; repeat constructor|]. apply Forall_app. split.
      - apply K; try done. by repeat constructor.
      - destruct (d_nc r); [|constructor]. constructor; [|constructor]. split_and!; try done; [by repeat constructor|].
        apply hex8_token. }
    destruct (d_qop r) as [[]|]; [constructor| | |constructor]; by apply C.
Qed.

(** What a registrar finds in the header. *)
Lemma response_lookups r :
  d_qop r <> Some QopNone -> is_some (d_cnonce r) = is_some (d_qop r) -> is_some (d_nc r) = is_some (d_qop r) ->
  let get k := params_map (response_params r) !! k in
  get #"username" = Some (d_username r) /\ get #"uri" = Some (d_uri r) /\
  get #"response" = Some (d_response r) /\ get #"realm" = Some (d_realm r) /\
  get #"nonce" = Some (d_nonce r) /\ get #"opaque" = d_opaque r /\
  get #"algorithm" = Some (algorithm_to_string (d_algorithm r)) /\
  get #"nc" = hex8 <$> d_nc r /\ get #"cnonce" = d_cnonce r /\ get #"qop" = qop_to_string <$> d_qop r.
Proof.
  intros Hq Hc Hn. cbv zeta. unfold params_map. rewrite !params_lookup, !lookup_empty.
  destruct r as [u re no ur rs al [op|] [[]|] [cn|] [nc|]]; try done; split_and!; reflexivity.
Qed.

(** The digest of the code is that of the standard. *)
Lemma compute_digest_expected `{Hashes} u pw re m ur no a q cn nc b :
  q <> Some QopNone ->
  compute_digest u pw re m ur no a q cn nc b =
  expected_response (hash_of a) (is_sess a) u re pw no (hex8 (default 1 nc)) (default [] cn)
    (qop_to_string <$> q) m ur (default [] b).
Proof.
  intros Hq. unfold compute_digest, expected_response. rewrite <- ?app_assoc.
  destruct q as [[]|]; try done; destruct a; try done; destruct b; try done.
  all: cbn [fmap option_fmap option_map]; rewrite <- ?app_assoc; done.
Qed.

(** A client with the right password is let in.  Whatever challenge a registrar issues,
    with any of the algorithms and either quality of protection or none, the client reads
    it as it was meant, answers it, and the header it writes is accepted by a registrar that
    recomputes the digest of RFC 7616 from the header's own text. *)
Theorem digest_accepted `{HashesOk} users ch cred method uri body cnonce nc :
  challenge_ok ch -> no_quote (username cred) -> no_quote uri -> no_quote cnonce ->
  users (username cred) = Some (password cred) ->
  exists r, challenge_parse (challenge_text ch) = Some (Ok ch) /\
    from_challenge cnonce ch cred method uri body nc = Ok r /\
    registrar_accepts users ch method (default [] body) (to_header_value r) = true.
Proof.
  intros Hch Hu Huri Hcn Husers. pose proof Hch as [[Hre Hre'] [Hno Hno'] Hop _ Hq].
  assert (is_empty (c_realm ch) = false) as E1 by (by destruct (c_realm ch)).
  assert (is_empty (c_nonce ch) = false) as E2 by (by destruct (c_nonce ch)).
  unfold from_challenge. rewrite E1, E2.
  set (cn := if is_some (c_qop ch) then Some cnonce else None).
  set (n := if is_some (c_qop ch) then Some (default 1 nc) else None).
  replace (if is_some (c_qop ch) then (Some cnonce, Some (default 1 nc)) else (None, None)) with (cn, n)
    by (subst cn n; by destruct (is_some _)).
  eexists. split; [by apply challenge_roundtrip|]. split; [reflexivity|].
  unfold registrar_accepts. rewrite to_header_value_params, digest_params_text; [|done|].
  2:{ apply response_params_ok; simpl; try done; [apply digest_no_quote|].
      subst cn. destruct (is_some _); [by intros s [= <-]|done]. }
  rewrite compute_digest_expected by done. set (r := mkDigest _ _ _ _ _ _ _ _ _ _).
  destruct (response_lookups r) as (-> & -> & -> & -> & -> & -> & -> & -> & -> & ->).
  { done. }
  { subst r cn. simpl. by destruct (c_qop ch). }
  { subst r n. simpl. by destruct (c_qop ch). }
  subst r. cbn [d_username d_realm d_nonce d_uri d_response d_algorithm d_opaque d_qop d_cnonce d_nc].
  rewrite Husers, !bool_decide_true by done. apply eqb_true. subst n cn. by destruct (c_qop ch).
Qed.

(** ** Witness *)

(** A stand-in for the hash functions: the sum of the bytes in hexadecimal. *)
#[local] Instance sum_hashes : Hashes := {
  md5_hex s := hex8 (foldr (fun c a => code c + a) 0 s);
  sha256_hex s := hex8 (foldr (fun c a => 3 * code c + a) 0 s);
  hmac_md5 k d := hex8 (foldr (fun c a => code c + a) 0 (k ++ d));
  base64 s := s
}.

Lemma hex_text n : Forall (fun c => is_ascii_digit c = true \/ 97 <= code c <= 102) (hex8 n).
Proof.
  apply Forall_map, Forall_forall. intros i _.
  pose proof (Z.mod_pos_bound (n / 16 ^ (7 - i)) 16 ltac:(lia)) as Hd.
  set (d := (n / 16 ^ (7 - i)) mod 16) in *. clearbody d. unfold hex_char.
  destruct (Z.ltb_spec d 10); [left|right].
  - change (chr (48 + d)) with (digit d). apply is_digit_digit. lia.
  - rewrite code_chr; lia.
Qed.

#[local] Instance sum_hashes_ok : HashesOk.
Proof. split; intros s; apply hex_text. Qed.

Definition example_challenge : DigestChallenge :=
  mkChallenge #"example.com" #"dcd98b" (Some #"5ccc") true Sha256Sess (Some AuthInt) None.

Lemma digest_accepted_witness :
  exists r,
    challenge_parse (challenge_text example_challenge) = Some (Ok example_challenge) /\
    from_challenge #"0a4f" example_challenge (mkCredentials #"alice" #"secret") #"REGISTER" #"sip:example.com"
      None (Some 2) = Ok r /\
    registrar_accepts (fun u => if eqb u #"alice" then Some #"secret" else None) example_challenge
      #"REGISTER" [] (to_header_value r) = true.
Proof.
  apply (digest_accepted (fun u => if eqb u #"alice" then Some #"secret" else None) example_challenge
    (mkCredentials #"alice" #"secret") #"REGISTER" #"sip:example.com" None #"0a4f" (Some 2)).
  - split; unfold no_quote; simpl; try done; try (split; [done|]); try (intros s [= <-]); simpl; intuition discriminate.
  - unfold no_quote; simpl; intuition discriminate.
  - unfold no_quote; simpl; intuition discriminate.
  - unfold no_quote; simpl; intuition discriminate.
  - reflexivity.
Defined.

(** Offered both, in this order, the code takes the one it means to avoid. *)
Example auth_int_preferred : qop_of #"auth-int, auth" = AuthInt /\ qop_of #"auth, auth-int" = Auth.
Proof. by vm_compute. Qed.

(** With a quality of protection it does not know, the client nonce goes into a session digest
    and not into the header, so that no registrar can recompute it. *)
Example unknown_qop_rejected :
  match from_challenge #"0a4f" (mkChallenge #"r" #"n" None false Md5Sess (Some (qop_of #"token")) None)
          (mkCredentials #"a" #"b") #"REGISTER" #"u" None None with
  | Ok r => registrar_accepts (fun _ => Some #"b") (mkChallenge #"r" #"n" None false Md5Sess None None)
              #"REGISTER" [] (to_header_value r) = false
  | Err _ => False
  end.
Proof. by vm_compute. Qed.
