(* ===== verification/Registration.v ===== *)
(** * Registration ([session/registration.rs])

    The manager of one binding at a registrar, and the driver that sends a REGISTER and
    follows it to its end over a transport.  Times are nanoseconds of the monotonic clock
    and arguments, as are the random branches, tags and client nonces.  Counters of type
    [u32] wrap.  The outer [option] of an operation is [None] only if reading a challenge
    ran out of fuel, which it never does.

    The driver is asynchronous: what happens at each await, a datagram, a transport failure
    or nothing until the timeout, is an element of a list of [tick]s. *)

From S2P Require Import Prelude RStr SipBase SipHeader SipUri SipTyped SipHeaders SipMessage SipBuild DigestAuth.

Local Open Scope Z_scope.

Inductive RegistrationError : Type :=
| AuthError
| RequestError
| FailedStatus (status : Z) (reason : str)
| Timeout
| Transport
| Malformed
| AuthRejected.

Inductive RegistrationState : Type :=
| Unregistered | Registering | Registered | Refreshing | Unregistering | Failed.

#[export] Instance registration_state_eq_dec : EqDecision RegistrationState.
Proof. solve_decision. Defined.

Record RegistrationConfig : Type := mkConfig {
  registrar : str;
  aor : str;
  contact : str;
  g_username : str;
  g_password : str;
  expires : Z;
  local_addr : str;
  local_port : Z;
  transport : str
}.

Definition default_config : RegistrationConfig :=
  mkConfig [] [] [] [] [] 3600 #"127.0.0.1" 5060 #"UDP".

Record RegistrationManager : Type := mkManager {
  config : RegistrationConfig;
  state : RegistrationState;
  cseq : Z;
  call_id : str;
  from_tag : str;
  expires_at : option Z;
  last_challenge : option DigestChallenge;
  nc : Z
}.

#[export] Instance manager_eta : Settable RegistrationManager := fun x =>
  mkManager (config x) (state x) (cseq x) (call_id x) (from_tag x) (expires_at x) (last_challenge x) (nc x).

(** [uuid] and [tag] are drawn at random. *)
Definition new (uuid tag : str) (cfg : RegistrationConfig) : RegistrationManager :=
  mkManager cfg Unregistered 1 (uuid ++ #"@" ++ local_addr cfg) tag None None 0.

Definition is_registered (m : RegistrationManager) : bool := bool_decide (state m = Registered).

Definition secs (n : Z) : Z := n * 1000000000.

(** [checked_sub] fails before the start of the clock. *)
Definition needs_refresh (now : Z) (m : RegistrationManager) : bool :=
  match expires_at m with
  | Some at_ =>
      let window := secs (expires (config m) / 5) in
      if at_ - window <? 0 then true else at_ - window <=? now
  | None => false
  end.

Definition bump_cseq (m : RegistrationManager) : RegistrationManager := m <| cseq := wrap 32 (cseq m + 1) |>.
Definition bump_nc (m : RegistrationManager) : RegistrationManager := m <| nc := wrap 32 (nc m + 1) |>.

(** The builder every REGISTER starts from. *)
Definition register_builder (m : RegistrationManager) (branch : str) (exp : Z) : ReqBuilder :=
  let c := config m in
  rq_expires exp
    (rq_contact (contact c)
      (rq_cseq (cseq m)
        (rq_call_id (call_id m)
          (rq_to (aor c)
            (rq_from (aor c) (from_tag m)
              (rq_via (local_addr c) (local_port c) (transport c) branch
                (rq_uri (registrar c)
                  (rq_method Register req_builder)))))))).

Definition build_request (b : ReqBuilder) : result Request RegistrationError :=
  map_err (fun _ => RequestError) (req_build b).

Definition create_register (branch : str) (m : RegistrationManager)
  : result Request RegistrationError * RegistrationManager :=
  let m := m <| state := if bool_decide (state m = Registered) then Refreshing else Registering |> in
  let m := bump_cseq m in
  (build_request (register_builder m branch (expires (config m))), m).

Section Auth.
Context `{Hashes}.

(** The answer to a challenge, for the next nonce count. *)
Definition answer (cnonce : str) (challenge : DigestChallenge) (m : RegistrationManager)
  : result DigestResponse RegistrationError :=
  map_err (fun _ => AuthError)
    (from_challenge cnonce challenge (mkCredentials (g_username (config m)) (g_password (config m)))
       #"REGISTER" (registrar (config m)) None (Some (nc m))).

Definition create_register_with_auth (branch cnonce : str) (challenge : DigestChallenge)
    (m : RegistrationManager) : result Request RegistrationError * RegistrationManager :=
  let m := bump_nc (bump_cseq m) in
  match answer cnonce challenge m with
  | Err e => (Err e, m)
  | Ok response =>
      (build_request (rq_authorization (to_header_value response)
                        (register_builder m branch (expires (config m)))), m)
  end.

Definition create_unregister (branch cnonce : str) (m : RegistrationManager)
  : result Request RegistrationError * RegistrationManager :=
  let m := bump_cseq (m <| state := Unregistering |>) in
  match last_challenge m with
  | Some challenge =>
      let m := bump_nc m in
      match answer cnonce challenge m with
      | Err e => (Err e, m)
      | Ok response =>
          (build_request (rq_authorization (to_header_value response) (register_builder m branch 0)), m)
      end
  | None => (build_request (register_builder m branch 0), m)
  end.

(** The request that answers a 407. *)
Definition proxy_request (branch cnonce : str) (challenge : DigestChallenge)
    (m : RegistrationManager) : result Request RegistrationError * RegistrationManager :=
  let m := bump_nc (bump_cseq m) in
  match answer cnonce challenge m with
  | Err e => (Err e, m)
  | Ok response =>
      (build_request (rq_proxy_authorization (to_header_value response)
                        (register_builder m branch (expires (config m)))), m)
  end.

(** The common part of 401 and 407: read the challenge, keep it, make the request. *)
Definition retry (header : option str)
    (make : DigestChallenge -> RegistrationManager -> result Request RegistrationError * RegistrationManager)
    (m : RegistrationManager)
  : option (result (option Request) RegistrationError * RegistrationManager) :=
  match header with
  | None => Some (Err AuthError, m)
  | Some value =>
      let* parsed := challenge_parse value in
      match parsed with
      | Err _ => Some (Err AuthError, m)
      | Ok challenge =>
          let m := m <| last_challenge := Some challenge |> in
          let '(r, m) := make challenge m in
          Some (let? request := r in Ok (Some request), m)
      end
  end.

Definition handle_response (now : Z) (branch cnonce : str) (response : Response) (m : RegistrationManager)
  : option (result (option Request) RegistrationError * RegistrationManager) :=
  let status := resp_status_code response in
  if status =? 200 then
    let m :=
      if bool_decide (state m = Unregistering)
      then (m <| state := Unregistered |>) <| expires_at := None |>
      else (m <| state := Registered |>) <| expires_at := Some (now + secs (expires (config m))) |> in
    Some (Ok None, m)
  else if status =? 401 then
    retry (resp_www_authenticate response) (create_register_with_auth branch cnonce) m
  else if status =? 407 then
    retry (resp_proxy_authenticate response) (proxy_request branch cnonce) m
  else if 400 <=? status then
    Some (Err (FailedStatus status (resp_reason response)), m <| state := Failed |>)
  else Some (Ok None, m).

Definition reset (m : RegistrationManager) : RegistrationManager :=
  (((m <| state := Unregistered |>) <| expires_at := None |>) <| last_challenge := None |>) <| nc := 0 |>.

(** ** The driver *)

Inductive incoming : Type :=
| Datagram (data : str)
| RecvFailed
| Silence.

(** One round of the loop: the clock at its head, what the transport brings, the clock and
    the random values when the response is handled, and whether a retry can be sent. *)
Record tick : Type := mkTick {
  t_now : Z;
  t_in : incoming;
  t_handled : Z;
  t_branch : str;
  t_cnonce : str;
  t_sent : bool
}.

(** [Done] with a result, or still waiting after the rounds given. *)
Inductive progress : Type :=
| Done (r : result unit RegistrationError)
| Waiting.

(** The state of the loop: the requests sent, oldest first, and the manager. *)
Fixpoint run_loop (deadline : Z) (auth_attempts : Z) (ticks : list tick) (m : RegistrationManager)
  : option (progress * list Request * RegistrationManager) :=
  match ticks with
  | [] => Some (Waiting, [], m)
  | t :: ticks =>
      if deadline <? t_now t then Some (Done (Err Timeout), [], m) else
      match t_in t with
      | RecvFailed => Some (Done (Err Transport), [], m)
      | Silence => Some (Done (Err Timeout), [], m)
      | Datagram data =>
          match sip_message_parse data with
          | Err _ => Some (Done (Err Malformed), [], m)
          | Ok (MRequest _) => Some (Done (Err Malformed), [], m)
          | Ok (MResponse response) =>
              let* (r, m) := handle_response (t_handled t) (t_branch t) (t_cnonce t) response m in
              match r with
              | Err e => Some (Done (Err e), [], m)
              | Ok None =>
                  if 200 <=? resp_status_code response then Some (Done (Ok tt), [], m)
                  else run_loop deadline auth_attempts ticks m
              | Ok (Some request) =>
                  let auth_attempts := auth_attempts + 1 in
                  if 1 <? auth_attempts then Some (Done (Err AuthRejected), [], m) else
                  if negb (t_sent t) then Some (Done (Err Transport), [], m) else
                  let* (p, sent, m) := run_loop deadline auth_attempts ticks m in
                  Some (p, request :: sent, m)
              end
          end
      end
  end.

Definition run_request (now total_timeout : Z) (initial : Request) (initial_sent : bool)
    (ticks : list tick) (m : RegistrationManager)
  : option (progress * list Request * RegistrationManager) :=
  let deadline := now + total_timeout in
  if negb initial_sent then Some (Done (Err Transport), [], m) else
  let* (p, sent, m) := run_loop deadline 0 ticks m in
  Some (p, initial :: sent, m).

Definition register (now total_timeout : Z) (branch : str) (initial_sent : bool) (ticks : list tick)
    (m : RegistrationManager) : option (progress * list Request * RegistrationManager) :=
  match create_register branch m with
  | (Err e, m) => Some (Done (Err e), [], m)
  | (Ok request, m) => run_request now total_timeout request initial_sent ticks m
  end.

Definition unregister (now total_timeout : Z) (branch cnonce : str) (initial_sent : bool)
    (ticks : list tick) (m : RegistrationManager)
  : option (progress * list Request * RegistrationManager) :=
  match create_unregister branch cnonce m with
  | (Err e, m) => Some (Done (Err e), [], m)
  | (Ok request, m) => run_request now total_timeout request initial_sent ticks m
  end.
End Auth.

(** ** The requests *)

(** The two addresses that have to be well formed. *)
Definition config_ok (c : RegistrationConfig) : Prop :=
  is_ok (uri_parse (registrar c)) = true /\ is_ok (uri_parse (aor c)) = true.

(** A REGISTER of this dialog with this number, expiry and credentials. *)
Record registers (m : RegistrationManager) (n exp : Z) (auth proxy : option str) (r : Request) : Prop := {
  rg_method : req_method r = Register;
  rg_uri : exists u, uri_parse (registrar (config m)) = Ok u /\ r_uri r = uri_to_string u;
  rg_call : req_call_id r = Ok (call_id m);
  rg_cseq : Headers.get_first_value (r_headers r) #"CSeq" = Some (dec n ++ #" REGISTER");
  rg_from : exists a, uri_parse (aor (config m)) = Ok a /\
    Headers.get_first_value (r_headers r) #"From" = Some (from_value None a (from_tag m));
  rg_expires : Headers.get_first_value (r_headers r) #"Expires" = Some (dec exp);
  rg_auth : Headers.get_first_value (r_headers r) #"Authorization" = auth;
  rg_proxy : Headers.get_first_value (r_headers r) #"Proxy-Authorization" = proxy
}.

Definition set_auth (o : option str) (b : ReqBuilder) : ReqBuilder :=
  match o with Some v => rq_authorization v b | None => b end.
Definition set_proxy (o : option str) (b : ReqBuilder) : ReqBuilder :=
  match o with Some v => rq_proxy_authorization v b | None => b end.

Lemma build_registers m branch exp auth proxy :
  config_ok (config m) ->
  exists r, build_request (set_proxy proxy (set_auth auth (register_builder m branch exp))) = Ok r /\
    registers m (cseq m) exp auth proxy r.
Proof.
  intros [Hr Ha]. destruct (uri_parse (registrar (config m))) as [u|] eqn:Eu; [|done].
  destruct (uri_parse (aor (config m))) as [a|] eqn:Ea; [|done].
  unfold build_request, register_builder, rq_uri, rq_from, rq_to, rq_contact. rewrite Eu, Ea.
  destruct (uri_parse (contact (config m))) as [c|e], auth as [v|], proxy as [w|].
  all: unfold req_build; cbn [set_auth set_proxy]; cbn -[push_all request_headers dec].
  all: rewrite push_all_small by (vm_compute; discriminate); eexists; split; [reflexivity|].
  all: split; try reflexivity; eexists; (split; [done|reflexivity]).
Qed.

Section Driver.
Context `{Hashes}.

(** What the dialog of a registration keeps. *)
Definition same_dialog (m m' : RegistrationManager) : Prop :=
  config m' = config m /\ call_id m' = call_id m /\ from_tag m' = from_tag m.

Lemma same_refl m : same_dialog m m.
Proof. done. Qed.

Lemma registers_same m m' n exp auth proxy r :
  same_dialog m m' -> registers m' n exp auth proxy r -> registers m n exp auth proxy r.
Proof. intros (E1 & E2 & E3) [? ? ? ? ? ? ? ?]. rewrite E1, E2, E3 in *. by split. Qed.

(** A retry is an authenticated REGISTER with the next number. *)
Definition is_retry (m : RegistrationManager) (r : Request) : Prop :=
  exists auth proxy, is_some auth || is_some proxy = true /\
    registers m (wrap 32 (cseq m + 1)) (expires (config m)) auth proxy r.

Lemma auth_request branch cnonce ch m r m' :
  config_ok (config m) -> create_register_with_auth branch cnonce ch m = (Ok r, m') ->
  exists d, answer cnonce ch (bump_nc m) = Ok d /\ same_dialog m m' /\ state m' = state m /\
    cseq m' = wrap 32 (cseq m + 1) /\
    registers m (cseq m') (expires (config m)) (Some (to_header_value d)) None r.
Proof.
  intros Hc. unfold create_register_with_auth. change (answer cnonce ch (bump_nc (bump_cseq m))) with (answer cnonce ch (bump_nc m)).
  destruct (answer cnonce ch (bump_nc m)) as [d|] eqn:E; [|done].
  destruct (build_registers (bump_nc (bump_cseq m)) branch (expires (config m)) (Some (to_header_value d)) None Hc)
    as (r' & Eb & Hr).
  cbn [set_auth set_proxy] in Eb. intros K. apply pair_equal_spec in K as [K <-].
  change (expires (config (bump_nc (bump_cseq m)))) with (expires (config m)) in K. rewrite Eb in K. injection K as <-.
  exists d. split_and!; try done. by apply (registers_same m (bump_nc (bump_cseq m))).
Qed.

Lemma proxy_request_spec branch cnonce ch m r m' :
  config_ok (config m) -> proxy_request branch cnonce ch m = (Ok r, m') ->
  exists d, answer cnonce ch (bump_nc m) = Ok d /\ same_dialog m m' /\ state m' = state m /\
    cseq m' = wrap 32 (cseq m + 1) /\
    registers m (cseq m') (expires (config m)) None (Some (to_header_value d)) r.
Proof.
  intros Hc. unfold proxy_request. change (answer cnonce ch (bump_nc (bump_cseq m))) with (answer cnonce ch (bump_nc m)).
  destruct (answer cnonce ch (bump_nc m)) as [d|] eqn:E; [|done].
  destruct (build_registers (bump_nc (bump_cseq m)) branch (expires (config m)) None (Some (to_header_value d)) Hc)
    as (r' & Eb & Hr).
  cbn [set_auth set_proxy] in Eb. intros K. apply pair_equal_spec in K as [K <-].
  change (expires (config (bump_nc (bump_cseq m)))) with (expires (config m)) in K. rewrite Eb in K. injection K as <-.
  exists d. split_and!; try done. by apply (registers_same m (bump_nc (bump_cseq m))).
Qed.

Lemma bumped_same branch cnonce ch m :
  (exists r, create_register_with_auth branch cnonce ch m = (r, bump_nc (bump_cseq m))) /\
  (exists r, proxy_request branch cnonce ch m = (r, bump_nc (bump_cseq m))).
Proof. unfold create_register_with_auth, proxy_request. destruct (answer _ _ _); split; by eexists. Qed.

(** What the answer to a response says about it. *)
Definition handled (m : RegistrationManager) (status : Z) (r : result (option Request) RegistrationError)
    (m' : RegistrationManager) : Prop :=
  match r with
  | Ok None => status < 400 /\ (status <> 200 -> m' = m) /\
      (status = 200 -> state m' = if bool_decide (state m = Unregistering) then Unregistered else Registered)
  | Ok (Some request) => (status = 401 \/ status = 407) /\ state m' = state m /\
      cseq m' = wrap 32 (cseq m + 1) /\ is_retry m request
  | Err _ => 400 <= status
  end.

Lemma retry_spec header make m status :
  (forall ch m', exists r, make ch m' = (r, bump_nc (bump_cseq m'))) ->
  (forall ch m' r m'', config_ok (config m') -> make ch m' = (Ok r, m'') -> is_retry m' r) ->
  status = 401 \/ status = 407 -> config_ok (config m) ->
  exists r m', retry header make m = Some (r, m') /\ same_dialog m m' /\ handled m status r m'.
Proof.
  intros Hb Hm Hs Hc. unfold retry.
  assert (exists r m', Some (Err AuthError, m) = Some (r, m') /\ same_dialog m m' /\ handled m status r m') as Herr
    by (exists (Err AuthError), m; split; [done|]; split; [apply same_refl|unfold handled; lia]).
  destruct header as [v|]; [|exact Herr].
  destruct (challenge_parse_total v) as [[ch|e] ->]; cbn [mbind option_bind]; [|exact Herr].
  set (m1 := m <| last_challenge := Some ch |>). destruct (Hb ch m1) as [r E]. rewrite E. destruct r as [r|e].
  - exists (Ok (Some r)), (bump_nc (bump_cseq m1)). split; [done|]. split; [done|]. split; [done|]. split; [done|].
    split; [done|]. destruct (Hm ch m1 r _ Hc E) as (a & p & Hap & Hr). exists a, p. split; [done|].
    by apply (registers_same m m1).
  - exists (Err e), (bump_nc (bump_cseq m1)). split; [done|]. split; [done|unfold handled; lia].
Qed.

Lemma handle_response_spec now branch cnonce resp m :
  config_ok (config m) ->
  exists r m', handle_response now branch cnonce resp m = Some (r, m') /\ same_dialog m m' /\
    handled m (resp_status_code resp) r m'.
Proof.
  intros Hc. unfold handle_response. set (st := resp_status_code resp). clearbody st.
  destruct (Z.eqb_spec st 200) as [->|H200].
  { eexists _, _. split; [done|]. split; [by case_bool_decide|]. split; [lia|]. split; [done|].
    intros _. by case_bool_decide. }
  destruct (Z.eqb_spec st 401) as [->|H401].
  { apply (retry_spec _ (create_register_with_auth branch cnonce) m 401);
      [intros ch m'; exact (proj1 (bumped_same branch cnonce ch m'))| |by left|exact Hc].
    intros ch m' r m'' Hc' E. destruct (auth_request _ _ _ _ _ _ Hc' E) as (d & _ & _ & _ & E' & Hr).
    eexists (Some _), None. split; [done|]. rewrite <- E'. exact Hr. }
  destruct (Z.eqb_spec st 407) as [->|H407].
  { apply (retry_spec _ (proxy_request branch cnonce) m 407);
      [intros ch m'; exact (proj2 (bumped_same branch cnonce ch m'))| |by right|exact Hc].
    intros ch m' r m'' Hc' E. destruct (proxy_request_spec _ _ _ _ _ _ Hc' E) as (d & _ & _ & _ & E' & Hr).
    eexists None, (Some _). split; [done|]. rewrite <- E'. exact Hr. }
  destruct (Z.leb_spec 400 st); eexists _, _; (split; [done|]); (split; [done|]); unfold handled; lia || done.
Qed.

(** ** The loop *)

(** The status of the response a round brings. *)
Definition status_of (t : tick) : option Z :=
  match t_in t with
  | Datagram data =>
      match sip_message_parse data with
      | Ok (MResponse response) => Some (resp_status_code response)
      | _ => None
      end
  | _ => None
  end.

Definition provisional (deadline : Z) (t : tick) : Prop :=
  t_now t <= deadline /\ exists s, status_of t = Some s /\ s < 200.

Definition challenged (deadline : Z) (t : tick) : Prop :=
  t_now t <= deadline /\ (status_of t = Some 401 \/ status_of t = Some 407).

(** What the rounds must have been when the driver still waits, with [k] challenges seen. *)
Definition waited (deadline k : Z) (ticks : list tick) : Prop :=
  Forall (provisional deadline) ticks \/
  (k = 0 /\ exists pre t post, ticks = pre ++ t :: post /\ Forall (provisional deadline) pre /\
    challenged deadline t /\ Forall (provisional deadline) post).

Lemma waited_cons deadline k t ticks :
  provisional deadline t -> waited deadline k ticks -> waited deadline k (t :: ticks).
Proof.
  intros Ht [Hw|(-> & pre & c & post & -> & H1 & H2 & H3)]; [left; by constructor|].
  right. split; [done|]. exists (t :: pre), c, post. split_and!; try done. by constructor.
Qed.

Definition loop_ends (deadline k : Z) (ticks : list tick) (m : RegistrationManager)
    (p : progress) (sent : list Request) (m' : RegistrationManager) : Prop :=
  match p with
  | Waiting => waited deadline k ticks
  | Done (Ok _) => exists t s, t ∈ ticks /\ status_of t = Some s /\ 200 <= s < 400 /\
      (s = 200 -> state m' = if bool_decide (state m = Unregistering) then Unregistered else Registered)
  | Done (Err _) => True
  end /\
  (sent = [] \/ k = 0 /\ exists r, sent = [r] /\ is_retry m r).

Lemma run_loop_spec deadline k ticks m :
  config_ok (config m) -> 0 <= k <= 1 ->
  exists p sent m', run_loop deadline k ticks m = Some (p, sent, m') /\ same_dialog m m' /\
    loop_ends deadline k ticks m p sent m'.
Proof.
  revert k m. induction ticks as [|t ticks IH]; intros k m Hc Hk; cbn [run_loop].
  { exists Waiting, [], m. split; [done|]. split; [done|]. split; [by left; constructor|by left]. }
  assert (forall m1 e, same_dialog m m1 -> exists p sent m', Some (Done (Err e), [], m1) = Some (p, sent, m') /\
    same_dialog m m' /\ loop_ends deadline k (t :: ticks) m p sent m') as Herr
    by (intros m1 e Hm1; exists (Done (Err e)), [], m1; split; [done|]; split; [done|]; split; [done|by left]).
  destruct (Z.ltb_spec deadline (t_now t)) as [|Hd]; [by apply Herr|].
  destruct (t_in t) as [data| |] eqn:Et; [|by apply Herr|by apply Herr].
  destruct (sip_message_parse data) as [[?|resp]|] eqn:Ep; [by apply Herr| |by apply Herr].
  assert (status_of t = Some (resp_status_code resp)) as Hst by (unfold status_of; by rewrite Et, Ep).
  destruct (handle_response_spec (t_handled t) (t_branch t) (t_cnonce t) resp m Hc) as (r & m1 & -> & Hs & Hh).
  cbn [mbind option_bind]. destruct r as [[request|]|e]; [| |by apply Herr].
  - destruct Hh as (Hst' & Es & _ & Hr).
    destruct (Z.ltb_spec 1 (k + 1)); [by apply Herr|]. destruct (t_sent t); cbn [negb]; [|by apply Herr].
    assert (k = 0) as -> by lia. assert (config_ok (config m1)) as Hc1 by (destruct Hs as (-> & _); done).
    destruct (IH (0 + 1) m1 Hc1 ltac:(lia)) as (p & sent & m' & -> & Hs' & Hp & Hsent). cbn [mbind option_bind].
    destruct Hsent as [->|[? _]]; [|lia]. exists p, [request], m'. split; [done|].
    split; [unfold same_dialog in *; intuition congruence|]. split; [|by right; eauto].
    destruct p as [[u|e]|]; [|done|].
    + destruct Hp as (t' & s & Hin & Hs1 & Hs2 & Hs3). exists t', s. rewrite <- Es. split_and!; try done; try lia.
      by constructor.
    + destruct Hp as [Hp|[? _]]; [|lia]. right. split; [done|]. exists [], t, ticks. split; [done|].
      split; [by constructor|]. split; [|done]. split; [done|]. rewrite Hst. by destruct Hst' as [->| ->]; [left|right].
  - destruct Hh as (Hlt & Hne & Heq). destruct (Z.leb_spec 200 (resp_status_code resp)) as [H200|H200].
    + exists (Done (Ok tt)), [], m1. split; [done|]. split; [done|]. split; [|by left].
      exists t, (resp_status_code resp). split_and!; try done; [by constructor].
    + rewrite (Hne ltac:(lia)) in *. destruct (IH k m Hc Hk) as (p & sent & m' & -> & Hs' & Hp & Hsent).
      exists p, sent, m'. split; [done|]. split; [done|]. split; [|done]. destruct p as [[u|e]|]; [|done|].
      * destruct Hp as (t' & s & Hin & Hs1 & Hs2 & Hs3). exists t', s. split_and!; try done; try lia. by constructor.
      * apply waited_cons; [|done]. split; [done|]. by exists (resp_status_code resp).
Qed.

(** The driver ends and does not pester the registrar.  For well-formed addresses and any
    events on the transport, it sends the REGISTER and at most one more, which answers a
    challenge, belongs to the same dialog and has the next sequence number.  It is still
    waiting only if all it received in time were provisional responses and at most one
    challenge, so that a final response, a second challenge, a malformed datagram, a
    transport failure, silence and the deadline each end it; and it reports success only
    after a response from 200 to 399, registered if that was a 200. *)
Theorem register_driver now total branch ticks m :
  config_ok (config m) -> 0 <= cseq m -> cseq m + 2 < 2 ^ 32 -> state m <> Unregistering ->
  exists p first retries m',
    register now total branch true ticks m = Some (p, first :: retries, m') /\
    registers m (cseq m + 1) (expires (config m)) None None first /\
    (retries = [] \/ exists r auth proxy, retries = [r] /\ is_some auth || is_some proxy = true /\
       registers m (cseq m + 2) (expires (config m)) auth proxy r) /\
    match p with
    | Waiting => waited (now + total) 0 ticks
    | Done (Ok _) => exists t s, t ∈ ticks /\ status_of t = Some s /\ 200 <= s < 400 /\
        (s = 200 -> state m' = Registered)
    | Done (Err _) => True
    end.
Proof.
  intros Hc Hn Hw Hst. unfold register, create_register.
  set (m1 := m <| state := _ |>). set (m2 := bump_cseq m1).
  assert (cseq m2 = cseq m + 1) as En by (apply wrap_small; unfold in_width; lia).
  destruct (build_registers m2 branch (expires (config m2)) None None Hc) as (first & Eb & Hf).
  cbn [set_auth set_proxy] in Eb. rewrite Eb. rewrite En in Hf. unfold run_request. cbn [negb].
  destruct (run_loop_spec (now + total) 0 ticks m2 Hc ltac:(lia)) as (p & sent & m' & -> & _ & Hp & Hsent).
  cbn [mbind option_bind]. exists p, first, sent, m'. split; [done|].
  split; [by apply (registers_same m m2)|]. split.
  - destruct Hsent as [->|(_ & r & -> & a & q & Haq & Hr)]; [by left|]. right. exists r, a, q. split; [done|].
    split; [done|]. rewrite En in Hr. replace (wrap 32 (cseq m + 1 + 1)) with (cseq m + 2) in Hr
      by (symmetry; replace (cseq m + 1 + 1) with (cseq m + 2) by lia; apply wrap_small; unfold in_width; lia).
    by apply (registers_same m m2).
  - destruct p as [[u|e]|]; [|done|done]. destruct Hp as (t & s & Hin & H1 & H2 & H3). exists t, s.
    split_and!; try done; try lia. intros E. rewrite (H3 E). subst m2 m1. cbn.
    destruct (bool_decide (state m = Registered)); done.
Qed.
End Driver.

(** ** Client and registrar *)

Section Composition.
Context `{HashesOk}.

Lemma run_loop_provisional deadline k pre ticks m :
  config_ok (config m) -> Forall (provisional deadline) pre ->
  run_loop deadline k (pre ++ ticks) m = run_loop deadline k ticks m.
Proof.
  intros Hc. induction 1 as [|t pre [Hd (s & Hs & Hlt)] _ IH]; [done|]. cbn [app run_loop].
  destruct (Z.ltb_spec deadline (t_now t)); [lia|]. unfold status_of in Hs.
  destruct (t_in t) as [data| |]; [|done|done].
  destruct (sip_message_parse data) as [[?|resp]|]; [done| |done]. apply (inj Some) in Hs.
  destruct (handle_response_spec (t_handled t) (t_branch t) (t_cnonce t) resp m Hc) as (r & m1 & -> & _ & Hh).
  rewrite Hs in Hh. cbn [mbind option_bind]. destruct r as [[request|]|e]; cbn in Hh; [lia| |lia].
  destruct Hh as (_ & Hne & _). rewrite (Hne ltac:(lia)), Hs. destruct (Z.leb_spec 200 s); [lia|done].
Qed.

(** The round brings this response in time. *)
Definition brings (deadline : Z) (t : tick) (response : Response) : Prop :=
  t_now t <= deadline /\ exists data, t_in t = Datagram data /\ sip_message_parse data = Ok (MResponse response).

Lemma run_loop_response deadline k t ticks response m :
  brings deadline t response ->
  run_loop deadline k (t :: ticks) m =
  (let* (r, m) := handle_response (t_handled t) (t_branch t) (t_cnonce t) response m in
   match r with
   | Err e => Some (Done (Err e), [], m)
   | Ok None =>
       if 200 <=? resp_status_code response then Some (Done (Ok tt), [], m)
       else run_loop deadline k ticks m
   | Ok (Some request) =>
       if 1 <? k + 1 then Some (Done (Err AuthRejected), [], m) else
       if negb (t_sent t) then Some (Done (Err Transport), [], m) else
       let* (p, sent, m) := run_loop deadline (k + 1) ticks m in
       Some (p, request :: sent, m)
   end).
Proof.
  intros (Hd & data & Et & Ep). cbn [run_loop]. destruct (Z.ltb_spec deadline (t_now t)); [lia|].
  by rewrite Et, Ep.
Qed.

(** The retry after a 401: what it carries is accepted. *)
Lemma challenge_answered users ch now branch cnonce response m :
  config_ok (config m) -> challenge_ok ch -> resp_status_code response = 401 ->
  resp_www_authenticate response = Some (challenge_text ch) ->
  no_quote (g_username (config m)) -> no_quote (registrar (config m)) -> no_quote cnonce ->
  users (g_username (config m)) = Some (g_password (config m)) ->
  exists r m' header, handle_response now branch cnonce response m = Some (Ok (Some r), m') /\
    same_dialog m m' /\ state m' = state m /\
    Headers.get_first_value (r_headers r) #"Authorization" = Some header /\
    registrar_accepts users ch #"REGISTER" [] header = true.
Proof.
  intros Hc Hch Hs Hw Hu Hr Hcn Husers. unfold handle_response. rewrite Hs. cbn [Z.eqb Pos.eqb].
  unfold retry. rewrite Hw. set (m1 := m <| last_challenge := Some ch |>).
  destruct (digest_accepted users ch (mkCredentials (g_username (config m)) (g_password (config m)))
    #"REGISTER" (registrar (config m)) None cnonce (Some (nc (bump_nc m1))) Hch Hu Hr Hcn Husers)
    as (d & Ep & Ed & Ha).
  rewrite Ep. cbn [mbind option_bind].
  destruct (build_registers (bump_nc (bump_cseq m1)) branch (expires (config m)) (Some (to_header_value d)) None Hc)
    as (r & Eb & Hreg).
  assert (create_register_with_auth branch cnonce ch m1 = (Ok r, bump_nc (bump_cseq m1))) as E.
  { unfold create_register_with_auth, answer. change (from_challenge cnonce ch
      (mkCredentials (g_username (config (bump_nc (bump_cseq m1)))) (g_password (config (bump_nc (bump_cseq m1)))))
      #"REGISTER" (registrar (config (bump_nc (bump_cseq m1)))) None (Some (nc (bump_nc (bump_cseq m1)))))
      with (from_challenge cnonce ch (mkCredentials (g_username (config m)) (g_password (config m)))
        #"REGISTER" (registrar (config m)) None (Some (nc (bump_nc m1)))).
    rewrite Ed. cbn [map_err]. cbn [set_auth set_proxy] in Eb.
    change (expires (config (bump_nc (bump_cseq m1)))) with (expires (config m)). by rewrite Eb. }
  fold m1. rewrite E. exists r, (bump_nc (bump_cseq m1)), (to_header_value d).
  split; [done|]. split; [done|]. split; [done|]. split; [apply (rg_auth _ _ _ _ _ _ Hreg)|done].
Qed.

(** C27: with the right password registration succeeds.  The registrar answers the REGISTER
    with a challenge, after any provisional responses; the client sends a second one whose
    Authorization header the registrar accepts; when the 200 comes the driver reports
    success, the manager is registered, and the binding expires when the configuration
    says. *)
Theorem registration_authenticated users ch now total branch m pre t1 resp1 mid t2 resp2 :
  config_ok (config m) -> challenge_ok ch -> no_quote (g_username (config m)) -> no_quote (registrar (config m)) ->
  users (g_username (config m)) = Some (g_password (config m)) ->
  Forall (provisional (now + total)) pre -> Forall (provisional (now + total)) mid ->
  brings (now + total) t1 resp1 -> resp_status_code resp1 = 401 ->
  resp_www_authenticate resp1 = Some (challenge_text ch) -> no_quote (t_cnonce t1) -> t_sent t1 = true ->
  brings (now + total) t2 resp2 -> resp_status_code resp2 = 200 ->
  exists r1 r2 m' header,
    register now total branch true (pre ++ t1 :: mid ++ [t2]) m = Some (Done (Ok tt), [r1; r2], m') /\
    Headers.get_first_value (r_headers r2) #"Authorization" = Some header /\
    registrar_accepts users ch #"REGISTER" [] header = true /\
    state m' = Registered /\ expires_at m' = Some (t_handled t2 + secs (expires (config m))).
Proof.
  intros Hc Hch Hu Hr Husers Hpre Hmid B1 S1 W1 Hcn Hsent B2 S2. unfold register, create_register.
  set (m1 := m <| state := _ |>). set (m2 := bump_cseq m1).
  destruct (build_registers m2 branch (expires (config m2)) None None Hc) as (r1 & Eb & _).
  cbn [set_auth set_proxy] in Eb. rewrite Eb. unfold run_request. cbn [negb].
  rewrite run_loop_provisional, (run_loop_response _ _ _ _ _ _ B1) by done.
  destruct (challenge_answered users ch (t_handled t1) (t_branch t1) (t_cnonce t1) resp1 m2
    Hc Hch S1 W1 Hu Hr Hcn Husers) as (r2 & m3 & header & -> & (Ec & _) & Es & Eh & Ha).
  cbn [mbind option_bind]. destruct (Z.ltb_spec 1 (0 + 1)); [lia|]. rewrite Hsent. cbn [negb].
  rewrite run_loop_provisional; [|by rewrite Ec|done]. rewrite (run_loop_response _ _ _ _ _ _ B2).
  unfold handle_response. rewrite S2. cbn [Z.eqb Pos.eqb mbind option_bind].
  rewrite bool_decide_false.
  2:{ rewrite Es. subst m2 m1. cbn. by destruct (bool_decide _). }
  cbn -[to_header_value]. exists r1, r2. eexists _, header. split; [done|]. split; [done|]. split; [done|].
  split; [done|]. cbn. by rewrite Ec.
Qed.
End Composition.

(** ** Witnesses *)

#[local] Existing Instance sum_hashes.
#[local] Existing Instance sum_hashes_ok.

Definition example_config : RegistrationConfig :=
  mkConfig #"sip:example.com" #"sip:alice@example.com" #"sip:alice@10.0.0.1:5060" #"alice" #"secret" 3600
    #"10.0.0.1" 5060 #"UDP".

Definition example_manager : RegistrationManager := new #"f81d4fae" #"76341" example_config.

(** A response with this status line and header. *)
Definition reply (first header : str) : str := #"SIP/2.0 " ++ first ++ CRLF ++ header ++ CRLF ++ CRLF.

Definition tick_at (now : Z) (data : str) : tick :=
  mkTick now (Datagram data) now #"z9hG4bKr" #"0a4f" true.

Definition trying : tick := tick_at 1 (reply #"100 Trying" #"Call-ID: c").
Definition challenge_tick : tick :=
  tick_at 2 (reply #"401 Unauthorized" (#"WWW-Authenticate: " ++ challenge_text example_challenge)).
Definition ok_tick : tick := tick_at 3 (reply #"200 OK" #"Call-ID: c").

Definition response_of (t : tick) : Response :=
  match t_in t with
  | Datagram data => match sip_message_parse data with Ok (MResponse r) => r | _ => mkResponse [] (StatusCode.new 0) [] [] [] end
  | _ => mkResponse [] (StatusCode.new 0) [] [] []
  end.

Lemma register_driver_witness :
  exists p first retries m',
    register 0 100 #"z9hG4bK1" true [trying; challenge_tick; ok_tick] example_manager =
      Some (p, first :: retries, m') /\
    registers example_manager 2 3600 None None first.
Proof.
  destruct (register_driver 0 100 #"z9hG4bK1" [trying; challenge_tick; ok_tick] example_manager)
    as (p & first & retries & m' & E & H & _).
  { split; vm_compute; reflexivity. }
  { vm_compute; discriminate. }
  { vm_compute; reflexivity. }
  { discriminate. }
  exists p, first, retries, m'. split; [exact E|exact H].
Defined.

Lemma example_brings t r : t_now t <= 100 -> response_of t = r ->
  is_some (status_of t) = true -> brings (0 + 100) t r.
Proof.
  unfold response_of, status_of. intros Hn <- Hs. split; [done|]. destruct (t_in t) as [data| |]; [|done|done].
  exists data. split; [done|]. by destruct (sip_message_parse data) as [[]|].
Qed.

Lemma registration_authenticated_witness :
  exists r1 r2 m' header,
    register 0 100 #"z9hG4bK1" true [trying; challenge_tick; trying; ok_tick] example_manager =
      Some (Done (Ok tt), [r1; r2], m') /\
    Headers.get_first_value (r_headers r2) #"Authorization" = Some header /\
    registrar_accepts (fun u => if eqb u #"alice" then Some #"secret" else None) example_challenge
      #"REGISTER" [] header = true /\
    state m' = Registered /\ expires_at m' = Some (3 + secs 3600).
Proof.
  apply (registration_authenticated (fun u => if eqb u #"alice" then Some #"secret" else None) example_challenge 0 100
    #"z9hG4bK1" example_manager [trying] challenge_tick (response_of challenge_tick) [trying] ok_tick (response_of ok_tick)).
  - split; vm_compute; reflexivity.
  - split; unfold no_quote; simpl; try done; try (split; [done|]); try (intros s [= <-]); simpl; intuition discriminate.
  - unfold no_quote; simpl; intuition discriminate.
  - unfold no_quote; simpl; intuition discriminate.
  - vm_compute; reflexivity.
  - constructor; [|constructor]. split; [vm_compute; discriminate|]. exists 100. split; [vm_compute; reflexivity|lia].
  - constructor; [|constructor]. split; [vm_compute; discriminate|]. exists 100. split; [vm_compute; reflexivity|lia].
  - apply example_brings; [vm_compute; discriminate|reflexivity|vm_compute; reflexivity].
  - vm_compute; reflexivity.
  - vm_compute; reflexivity.
  - unfold no_quote; simpl; intuition discriminate.
  - reflexivity.
  - apply example_brings; [vm_compute; discriminate|reflexivity|vm_compute; reflexivity].
  - vm_compute; reflexivity.
Defined.

Definition expires_of (r : Request) : option str := Headers.get_first_value (r_headers r) #"Expires".

Definition auth_nc (r : Request) : option str :=
  let* h := Headers.get_first_value (r_headers r) #"Authorization" in
  match digest_params h with Some (Ok ps) => ps !! #"nc" | _ => None end.

(** Challenged, the removal of a binding is repeated with the full expiry: the registrar makes
    the binding anew, and the manager counts itself unregistered. *)
Example unregister_retry_registers :
  match unregister 0 100 #"z9hG4bK1" #"0a4f" true [challenge_tick; ok_tick] example_manager with
  | Some (Done (Ok _), sent, m) => map expires_of sent = [Some #"0"; Some #"3600"] /\ state m = Unregistered
  | _ => False
  end.
Proof. by vm_compute. Qed.

(** A 202 or a redirect is reported as success while the manager stays in progress. *)
Example redirect_reported_as_success :
  match register 0 100 #"z9hG4bK1" true [tick_at 1 (reply #"302 Moved" #"Call-ID: c")] example_manager with
  | Some (Done (Ok _), _, m) => state m = Registering
  | _ => False
  end.
Proof. by vm_compute. Qed.

(** A fresh nonce is answered with the count of the old one: the second registration sends
    nc=00000002 for a nonce it uses for the first time. *)
Example nonce_count_not_reset :
  match register 0 100 #"z9hG4bK1" true [challenge_tick; ok_tick] example_manager with
  | Some (_, _, m) =>
      match register 0 100 #"z9hG4bK2" true
              [tick_at 2 (reply #"401 Unauthorized" (#"WWW-Authenticate: " ++
                 challenge_text (mkChallenge #"example.com" #"fresh" None false Md5 (Some Auth) None)))] m with
      | Some (_, [_; r], _) => auth_nc r = Some #"00000002"
      | _ => False
      end
  | None => False
  end.
Proof. by vm_compute. Qed.
