(* ===== verification/AudioCodec.v ===== *)
(** * Audio codecs ([media/codec/g711.rs], [media/codec/g722.rs], [media/codec/opus.rs],
      [session/session_codec.rs])

    The codecs themselves come from external crates: [CodecImpls] is what the wrappers use
    of them.  The wrappers, the dispatch on the negotiated encoding and the frame sizes are
    modelled.  A sample is an [i16], a byte a [u8]; both are [Z]. *)

From S2P Require Import Prelude RStr RtpPacket RFloat Sdp SdpAnswer.

Local Open Scope Z_scope.

(** ropus's [Bitrate]. *)
Inductive Bitrate : Type := Bits (bps : Z) | Auto | Max.

Class CodecImpls := {
  encode_ulaw : Z -> Z;
  encode_alaw : Z -> Z;
  decode_ulaw : Z -> Z;
  decode_alaw : Z -> Z;
  g722_encoder : Type;
  g722_decoder : Type;
  g722_encoder_new : g722_encoder;
  g722_decoder_new : g722_decoder;
  g722_encode : list Z -> g722_encoder -> list Z * g722_encoder;
  g722_decode : list Z -> g722_decoder -> list Z * g722_decoder;
  opus_encoder : Type;
  opus_decoder : Type;
  (** sample rate, channels *)
  opus_encoder_new : Z -> Z -> Bitrate -> result opus_encoder str;
  opus_decoder_new : Z -> Z -> result opus_decoder str;
  (** at most this many bytes *)
  opus_encode : Z -> list Z -> opus_encoder -> result (list Z) str * opus_encoder;
  (** at most this many samples per channel *)
  opus_decode : Z -> list Z -> opus_decoder -> result (list Z) str * opus_decoder;
  opus_set_bitrate : Bitrate -> opus_encoder -> result unit str * opus_encoder;
  inband_fec : Type;
  opus_set_inband_fec : inband_fec -> opus_encoder -> result unit str * opus_encoder;
  opus_set_dtx : bool -> opus_encoder -> result unit str * opus_encoder;
  opus_set_packet_loss_perc : Z -> opus_encoder -> result unit str * opus_encoder;
  opus_bitrate : opus_encoder -> Bitrate;
  opus_inband_fec : opus_encoder -> inband_fec;
  opus_dtx : opus_encoder -> bool;
  opus_packet_loss_perc : opus_encoder -> Z
}.

(** ** G.711 *)

Inductive G711Variant : Type := MuLaw | ALaw.

Definition g711_payload_type (v : G711Variant) : Z := match v with MuLaw => 0 | ALaw => 8 end.

Definition g711_name (v : G711Variant) : str := match v with MuLaw => #"PCMU" | ALaw => #"PCMA" end.

Section Codecs.
Context `{CodecImpls}.

Definition encode_sample (v : G711Variant) (sample : Z) : Z :=
  match v with MuLaw => encode_ulaw sample | ALaw => encode_alaw sample end.

Definition decode_sample (v : G711Variant) (byte : Z) : Z :=
  match v with MuLaw => decode_ulaw byte | ALaw => decode_alaw byte end.

Definition g711_encode (v : G711Variant) (pcm : list Z) : list Z :=
  match v with MuLaw => map encode_ulaw pcm | ALaw => map encode_alaw pcm end.

Definition g711_decode (v : G711Variant) (data : list Z) : list Z :=
  match v with MuLaw => map decode_ulaw data | ALaw => map decode_alaw data end.

Definition silence_byte (v : G711Variant) : Z := match v with MuLaw => 255 | ALaw => 213 end.

Definition silence_frame (v : G711Variant) (samples : nat) : list Z := replicate samples (silence_byte v).

(** ** G.722 *)

Record G722Codec : Type := mkG722 { g_encoder : g722_encoder; g_decoder : g722_decoder }.

Definition g722_new : G722Codec := mkG722 g722_encoder_new g722_decoder_new.

Definition g722_codec_encode (pcm : list Z) (c : G722Codec) : list Z * G722Codec :=
  let '(out, e) := g722_encode pcm (g_encoder c) in (out, mkG722 e (g_decoder c)).

Definition g722_codec_decode (data : list Z) (c : G722Codec) : list Z * G722Codec :=
  let '(out, d) := g722_decode data (g_decoder c) in (out, mkG722 (g_encoder c) d).

(** ** Opus *)

Record OpusConfig : Type := mkOpusConfig {
  oc_sample_rate : Z;
  oc_channels : Z;
  oc_bitrate : Bitrate;
  oc_frame_ms : float
}.

Definition opus_config_default : OpusConfig := mkOpusConfig 48000 1 (Bits 32000) (f32_of_Z 20).
Definition wideband_speech : OpusConfig := mkOpusConfig 16000 1 (Bits 24000) (f32_of_Z 20).
Definition fullband_speech : OpusConfig := mkOpusConfig 48000 1 (Bits 32000) (f32_of_Z 20).
Definition music : OpusConfig := mkOpusConfig 48000 2 (Bits 96000) (f32_of_Z 20).

(** [(sample_rate as f32 * frame_ms / 1000.0) as usize] *)
Definition frame_samples (sample_rate : Z) (frame_ms : float) : Z :=
  f_as_u32 (f32_div (f32_mul (f32_of_Z sample_rate) frame_ms) (f32_of_Z 1000)).

Definition config_samples_per_frame (c : OpusConfig) : Z := frame_samples (oc_sample_rate c) (oc_frame_ms c).

Definition to_channels (c : OpusConfig) : Z := if 2 <=? oc_channels c then 2 else 1.

Definition OPUS_MAX_PACKET_SIZE : Z := 4000.

Record OpusCodec : Type := mkOpus {
  o_encoder : opus_encoder;
  o_decoder : opus_decoder;
  o_sample_rate : Z;
  o_channels : Z;
  o_frame_ms : float
}.

Definition opus_with_config (c : OpusConfig) : result OpusCodec str :=
  let channels := to_channels c in
  let? encoder := opus_encoder_new (oc_sample_rate c) channels (oc_bitrate c) in
  let? decoder := opus_decoder_new (oc_sample_rate c) channels in
  Ok (mkOpus encoder decoder (oc_sample_rate c) (oc_channels c) (oc_frame_ms c)).

Definition opus_samples_per_frame (c : OpusCodec) : Z := frame_samples (o_sample_rate c) (o_frame_ms c).

(** A change of the encoder's settings. *)
Definition with_encoder (f : opus_encoder -> result unit str * opus_encoder) (c : OpusCodec) : result unit str * OpusCodec :=
  let '(r, e) := f (o_encoder c) in (r, mkOpus e (o_decoder c) (o_sample_rate c) (o_channels c) (o_frame_ms c)).

Definition opus_codec_encode (pcm : list Z) (c : OpusCodec) : result (list Z) str * OpusCodec :=
  let '(r, e) := opus_encode OPUS_MAX_PACKET_SIZE pcm (o_encoder c) in
  (r, mkOpus e (o_decoder c) (o_sample_rate c) (o_channels c) (o_frame_ms c)).

Definition opus_codec_decode (data : list Z) (c : OpusCodec) : result (list Z) str * OpusCodec :=
  let frame_size := opus_samples_per_frame c * o_channels c in
  let '(r, d) := opus_decode frame_size data (o_decoder c) in
  (r, mkOpus (o_encoder c) d (o_sample_rate c) (o_channels c) (o_frame_ms c)).

(** An empty packet conceals a lost one. *)
Definition opus_decode_plc (c : OpusCodec) : result (list Z) str * OpusCodec := opus_codec_decode [] c.

Definition opus_codec_set_bitrate (b : Bitrate) (c : OpusCodec) : result unit str * OpusCodec := with_encoder (opus_set_bitrate b) c.
Definition set_fec (mode : inband_fec) (c : OpusCodec) : result unit str * OpusCodec := with_encoder (opus_set_inband_fec mode) c.
Definition set_dtx (on : bool) (c : OpusCodec) : result unit str * OpusCodec := with_encoder (opus_set_dtx on) c.
Definition set_packet_loss (pct : Z) (c : OpusCodec) : result unit str * OpusCodec := with_encoder (opus_set_packet_loss_perc pct) c.

Definition codec_bitrate (c : OpusCodec) : Bitrate := opus_bitrate (o_encoder c).
Definition codec_inband_fec (c : OpusCodec) : inband_fec := opus_inband_fec (o_encoder c).
Definition codec_dtx (c : OpusCodec) : bool := opus_dtx (o_encoder c).
Definition codec_packet_loss_perc (c : OpusCodec) : Z := opus_packet_loss_perc (o_encoder c).

(** [AdaptiveBitrate::set_target_bitrate_bps] *)
Definition opus_set_target (bps : Z) (c : OpusCodec) : result unit str * OpusCodec := opus_codec_set_bitrate (Bits bps) c.

(** ** The codec of a session *)

Inductive SessionCodec : Type :=
| G711 (v : G711Variant)
| G722 (c : G722Codec)
| Opus (c : OpusCodec).

(** The names are ASCII, and no other character is lower-cased to one of their letters. *)
Definition codec_for_negotiated (negotiated : Codec) : result SessionCodec str :=
  let name := to_ascii_lowercase (encoding negotiated) in
  if eqb name #"pcmu" then Ok (G711 MuLaw)
  else if eqb name #"pcma" then Ok (G711 ALaw)
  else if eqb name #"g722" then Ok (G722 g722_new)
  else if eqb name #"opus" then
    map_err (fun e => #"failed to build Opus codec: " ++ e)
      (let? c := opus_with_config fullband_speech in Ok (Opus c))
  else Err (#"unsupported codec encoding: " ++ encoding negotiated).

Definition codec_encode (samples : list Z) (c : SessionCodec) : result (list Z) str * SessionCodec :=
  match c with
  | G711 v => (Ok (g711_encode v samples), G711 v)
  | G722 c => let '(out, c) := g722_codec_encode samples c in (Ok out, G722 c)
  | Opus c => let '(r, c) := opus_codec_encode samples c in (r, Opus c)
  end.

Definition codec_decode (payload : list Z) (c : SessionCodec) : result (list Z) str * SessionCodec :=
  match c with
  | G711 v => (Ok (g711_decode v payload), G711 v)
  | G722 c => let '(out, c) := g722_codec_decode payload c in (Ok out, G722 c)
  | Opus c => let '(r, c) := opus_codec_decode payload c in (r, Opus c)
  end.

Definition codec_samples_per_frame (c : SessionCodec) : Z :=
  match c with
  | G711 _ => 160
  | G722 _ => 320
  | Opus c => opus_samples_per_frame c
  end.

(** [as_adaptive_mut().is_some()] *)
Definition is_adaptive (c : SessionCodec) : bool :=
  match c with Opus _ => true | _ => false end.

Definition set_codec_target (bps : Z) (c : SessionCodec) : result unit str * SessionCodec :=
  match c with
  | Opus c => let '(r, c) := opus_set_target bps c in (r, Opus c)
  | c => (Ok tt, c)
  end.

(** ** Lemmas *)

Lemma g711_encode_map v pcm : g711_encode v pcm = map (encode_sample v) pcm.
Proof. by destruct v. Qed.

Lemma g711_decode_map v data : g711_decode v data = map (decode_sample v) data.
Proof. by destruct v. Qed.

Lemma fullband_frame c : opus_with_config fullband_speech = Ok c -> opus_samples_per_frame c = 960.
Proof.
  unfold opus_with_config. destruct (opus_encoder_new _ _ _); [|done]. cbn [rbind].
  destruct (opus_decoder_new _ _); [|done]. cbn [rbind]. intros [= <-]. by vm_compute.
Qed.

(** A setting of the encoder leaves the decoder and the format of the frames alone: what is decoded next,
    and the size of a frame, are the same. *)
Lemma with_encoder_decodes f c data :
  (opus_codec_decode data (with_encoder f c).2).1 = (opus_codec_decode data c).1 /\
  opus_samples_per_frame (with_encoder f c).2 = opus_samples_per_frame c.
Proof.
  unfold with_encoder, opus_codec_decode, opus_samples_per_frame. destruct (f (o_encoder c)) as [r e]. cbn. by destruct (opus_decode _ _ _).
Qed.

End Codecs.

(** The frames of 20 ms of the four configurations. *)
Example config_frames : map config_samples_per_frame [opus_config_default; wideband_speech; fullband_speech; music] = [960; 320; 960; 960].
Proof. vm_compute. reflexivity. Qed.

(** More than two channels are coded as two, but the buffer of a decoded frame is made for all of them. *)
Example three_channels :
  let c := mkOpusConfig 48000 3 Auto (f32_of_Z 20) in (to_channels c, config_samples_per_frame c * oc_channels c) = (2, 2880).
Proof. vm_compute. reflexivity. Qed.

(** ** A small instance: companding to the high byte, samples as bytes *)
#[export] Instance byte_codecs : CodecImpls := {|
  encode_ulaw s := (s / 256) mod 256;
  encode_alaw s := (s / 256) mod 256;
  decode_ulaw b := b * 256;
  decode_alaw b := b * 256;
  g722_encoder := unit;
  g722_decoder := unit;
  g722_encoder_new := tt;
  g722_decoder_new := tt;
  g722_encode pcm s := (map (fun x => (x / 256) mod 256) pcm, s);
  g722_decode data s := (map (fun b => b * 256) data, s);
  opus_encoder := Z;
  opus_decoder := unit;
  opus_encoder_new _ _ b := Ok (match b with Bits bps => bps | _ => 0 end);
  opus_decoder_new _ _ := Ok tt;
  opus_encode n pcm bps := (Ok (map (fun x => (x / 256) mod 256) (firstn (Z.to_nat n) pcm)), bps);
  opus_decode n data s := (Ok (map (fun b => b * 256) (firstn (Z.to_nat n) data)), s);
  opus_set_bitrate b e := (Ok tt, match b with Bits bps => bps | _ => e end);
  inband_fec := unit;
  opus_set_inband_fec _ e := (Ok tt, e);
  opus_set_dtx _ e := (Ok tt, e);
  opus_set_packet_loss_perc _ e := (Ok tt, e);
  opus_bitrate e := Bits e;
  opus_inband_fec _ := tt;
  opus_dtx _ := false;
  opus_packet_loss_perc _ := 0
|}.
