(* ===== verification/Call.v ===== *)
(** * Calls ([session/call.rs])

    The session layer's view of a dialog, the media session that joins RTP, jitter buffer,
    codec and congestion control, and the call with its events and session timers.  Times
    are nanoseconds and arguments, as are random numbers and identifiers; [None] of an outer
    [option] is a panic.  [Arc] is sharing of immutable data and is left out. *)

From S2P Require Import Prelude RStr SipBase SipHeader SipUri SipTyped SipHeaders SipMessage SipBuild Dialog RtpPacket RFloat Jitter Rtcp RtpSession IceCandidate Sdp SdpAnswer AudioCodec.

Local Open Scope Z_scope.

(** ** [call::Dialog] *)

Record CallDialog : Type := mkCallDialog {
  cd_id : DialogId;
  cd_local_uri : str;
  cd_remote_uri : str;
  cd_local_cseq : Z;
  cd_role : Dialog.Role;
  cd_route_set : DRouteSet;
  cd_remote_target : str;
  cd_local_contact : str
}.

#[export] Instance call_dialog_eta : Settable CallDialog := fun x =>
  mkCallDialog (cd_id x) (cd_local_uri x) (cd_remote_uri x) (cd_local_cseq x) (cd_role x) (cd_route_set x)
    (cd_remote_target x) (cd_local_contact x).

Definition cd_new_uac (call_id from_tag to_tag local_uri remote_uri : str) (cseq : Z) : CallDialog :=
  mkCallDialog (mkDialogId call_id from_tag to_tag) local_uri remote_uri cseq Dialog.Uac route_set_empty [] [].

Definition cd_new_uas (call_id from_tag to_tag local_uri remote_uri : str) (cseq : Z) : CallDialog :=
  mkCallDialog (mkDialogId call_id to_tag from_tag) local_uri remote_uri cseq Dialog.Uas route_set_empty [] [].

Definition next_cseq (d : CallDialog) : Z * CallDialog :=
  let n := wrap 32 (cd_local_cseq d + 1) in (n, d <| cd_local_cseq := n |>).

Definition set_remote_target (target : str) (d : CallDialog) : CallDialog := d <| cd_remote_target := target |>.

Definition set_route_set_from_record_routes (record_routes : list str) (reverse : bool) (d : CallDialog)
  : CallDialog := d <| cd_route_set := from_record_route_values record_routes reverse |>.

Definition set_route_set (rs : DRouteSet) (d : CallDialog) : CallDialog := d <| cd_route_set := rs |>.

Definition set_local_contact (contact : str) (d : CallDialog) : CallDialog := d <| cd_local_contact := contact |>.

(** The route set and the remote target a message carries. *)
Definition adopt_routing (record_routes : list str) (contact : option SipUri) (reverse : bool) (d : CallDialog)
  : CallDialog :=
  let d := match record_routes with
           | [] => d
           | _ => set_route_set_from_record_routes record_routes reverse d
           end in
  match contact with
  | Some uri => set_remote_target (uri_to_string uri) d
  | None => d
  end.

Definition populate_uas_from_invite (invite : Request) (local_contact : str) (d : CallDialog) : CallDialog :=
  if negb (bool_decide (cd_role d = Dialog.Uas)) then d else
  let d := adopt_routing (req_record_routes invite) (req_contact_uri invite) false d in
  d <| cd_local_contact := local_contact |>.

Definition populate_uac_from_response (response : Response) (local_contact : str) (d : CallDialog) : CallDialog :=
  if negb (bool_decide (cd_role d = Dialog.Uac)) then d else
  let d := adopt_routing (resp_record_routes response) (resp_contact_uri response) true d in
  if is_empty local_contact then d else d <| cd_local_contact := local_contact |>.

Definition dialog_info_of (d : CallDialog) : DialogInfo :=
  Dialog.mkInfo (cd_id d) Dialog.Confirmed (cd_local_cseq d) None (cd_local_uri d) (cd_remote_uri d)
    (if is_empty (cd_remote_target d) then cd_remote_uri d else cd_remote_target d)
    (cd_local_contact d) (cd_route_set d) false.

Definition to_invite_dialog (d : CallDialog) : option InviteDialog :=
  from_dialog_info (dialog_info_of d) (cd_role d).

(** ** Call data *)

Inductive CallState : Type :=
| Idle | Inviting | Ringing | EarlyMedia | Established | Terminating | Terminated.

#[export] Instance call_state_eq_dec : EqDecision CallState.
Proof. solve_decision. Defined.

Inductive CallDirection : Type := Outbound | Inbound.

#[export] Instance call_direction_eq_dec : EqDecision CallDirection.
Proof. solve_decision. Defined.

Record CallConfig : Type := mkCallConfig {
  cf_local_uri : str;
  cf_local_name : option str;
  cf_codecs : list Codec;
  cf_rtp_port_start : Z;
  cf_rtp_port_end : Z;
  cf_session_expires : Z;
  cf_min_se : Z
}.

Definition SEC : Z := 1000000000.

Definition default_call_config : CallConfig :=
  mkCallConfig #"sip:user@127.0.0.1" None [pcmu; pcma] 10000 20000 (1800 * SEC) (90 * SEC).

Inductive CallEndReason : Type :=
| NormalClearing | Rejected | Busy | NoAnswer | NetworkError | Canceled | Error.

Inductive CallEvent : Type :=
| StateChanged (s : CallState)
| RingingE
| EarlyMediaE
| Answered
| Ended (reason : CallEndReason)
| AudioReceived (samples : list Z)
| DtmfReceived (c : ascii).

Section Call.
Context {ip : Type} `{!IpAddr ip} `{CodecImpls}.

(** ** The media session *)

Record AdaptiveCongestion : Type := mkAdaptive { cc : CongestionController; bridge : BitrateBridge }.

Record MediaSession : Type := mkMedia {
  ms_rtp : RtpSession.RtpSession;
  ms_jitter : JitterBuffer;
  ms_codec : SessionCodec;
  ms_adaptive : option AdaptiveCongestion;
  ms_remote_addr : option (SocketAddr ip);
  ms_local_port : Z;
  ms_active : bool
}.

#[local] Instance media_eta : Settable MediaSession := fun x =>
  mkMedia (ms_rtp x) (ms_jitter x) (ms_codec x) (ms_adaptive x) (ms_remote_addr x) (ms_local_port x) (ms_active x).

(** What a new session draws: its source, first sequence number and timestamp, and the clock. *)
Record draw : Type := mkDraw { dr_ssrc : Z; dr_seq : Z; dr_ts : Z; dr_now : Z }.

Definition media_for_negotiated (r : draw) (negotiated : Codec) (local_port : Z) : result MediaSession str :=
  let? codec := codec_for_negotiated negotiated in
  let adaptive :=
    if is_adaptive codec
    then
      let initial_bps := match oc_bitrate fullband_speech with Bits b => b | _ => 32000 end in
      Some (mkAdaptive (cc_new (dr_now r) initial_bps 6000 128000) bridge_new)
    else None in
  let samples_per_packet := codec_samples_per_frame codec in
  let clock_rate := SdpAnswer.clock_rate negotiated in
  let jb_config :=
    if (clock_rate =? 8000) && (samples_per_packet =? 160) then Jitter.default_config
    else Jitter.mkConfig (min_delay_ms Jitter.default_config) (max_delay_ms Jitter.default_config)
           (initial_delay_ms Jitter.default_config) clock_rate samples_per_packet in
  Ok (mkMedia (session_new (dr_now r) (dr_seq r) (dr_ts r) (dr_ssrc r) (SdpAnswer.payload_type negotiated) clock_rate)
        (jb_new jb_config) codec adaptive None local_port false).

Definition set_remote (addr : SocketAddr ip) (m : MediaSession) : MediaSession :=
  (m <| ms_remote_addr := Some addr |>) <| ms_active := true |>.

Definition encode_audio (samples : list Z) (marker : bool) (m : MediaSession)
  : result RtpPacket str * MediaSession :=
  let '(r, codec) := codec_encode samples (ms_codec m) in
  let m := m <| ms_codec := codec |> in
  match r with
  | Err e => (Err e, m)
  | Ok encoded =>
      let '(p, s) := create_packet encoded (wrap 32 (zlen samples)) marker (ms_rtp m) in
      (Ok p, m <| ms_rtp := s |>)
  end.

Definition receive_rtp (now : Z) (packet : RtpPacket) (m : MediaSession)
  : option (option (PlayoutDecision * list Z) * MediaSession) :=
  let m := m <| ms_rtp := receive_packet now packet (ms_rtp m) |> in
  let '(r, codec) := codec_decode (payload packet) (ms_codec m) in
  let m := m <| ms_codec := codec |> in
  match r with
  | Err _ => Some (None, m)
  | Ok decoded =>
      let* (_, jb) := Jitter.push now (sequence_number packet) (RtpPacket.timestamp packet) decoded (ms_jitter m) in
      if primed jb then
        let* (decision, samples, jb) := pop jb in
        Some (Some (decision, samples), m <| ms_jitter := jb |>)
      else Some (None, m <| ms_jitter := jb |>)
  end.

(** REMB is the one kind of feedback that is routed. *)
Definition feedback (now : Z) (c : CongestionController) (p : RtcpPacket) : CongestionController :=
  match p with PRemb r => on_remb now (bitrate r) c | _ => c end.

Definition handle_rtcp (now : Z) (bytes : list Z) (m : MediaSession) : option (result unit CompoundError * MediaSession) :=
  let* parsed := compound_parse bytes in
  match parsed with
  | Err e => Some (Err e, m)
  | Ok packets =>
      match ms_adaptive m with
      | None => Some (Ok tt, m)
      | Some a =>
          let a := mkAdaptive (foldl (feedback now) (cc a) packets) (bridge a) in
          Some (Ok tt, m <| ms_adaptive := Some a |>)
      end
  end.

Definition media_tick (now : Z) (m : MediaSession) : MediaSession :=
  match ms_adaptive m with
  | None => m
  | Some a =>
      let c := cc_update now (cc a) in
      if is_adaptive (ms_codec m) then
        let '(_, b, codec) := bridge_poll set_codec_target now (target_bitrate c) (bridge a) (ms_codec m) in
        (m <| ms_adaptive := Some (mkAdaptive c b) |>) <| ms_codec := codec |>
      else m <| ms_adaptive := Some (mkAdaptive c (bridge a)) |>
  end.

Definition get_audio_frame (m : MediaSession) : option (PlayoutDecision * list Z * MediaSession) :=
  let* (decision, samples, jb) := pop (ms_jitter m) in
  Some (decision, samples, m <| ms_jitter := jb |>).

(** ** Calls *)

Record PendingAnswer : Type := mkPending { pa_offer : SessionDescription; pa_negotiated : NegotiatedMedia }.

Record Call : Type := mkCall {
  c_id : str;
  c_state : CallState;
  c_direction : CallDirection;
  c_config : CallConfig;
  c_remote_uri : str;
  c_dialog : option CallDialog;
  negotiated_media : option NegotiatedMedia;
  c_media : option MediaSession;
  pending_answer : option PendingAnswer;
  c_events : list CallEvent;
  session_expires : option Z;
  min_se : Z;
  c_refresher : option Refresher;
  refresh_at : option Z;
  expiry_at : option Z;
  update_unsupported : bool;
  uac_in_flight : bool
}.

#[local] Instance call_eta : Settable Call := fun x =>
  mkCall (c_id x) (c_state x) (c_direction x) (c_config x) (c_remote_uri x) (c_dialog x) (negotiated_media x)
    (c_media x) (pending_answer x) (c_events x) (session_expires x) (min_se x) (c_refresher x) (refresh_at x)
    (expiry_at x) (update_unsupported x) (uac_in_flight x).

(** [uuid] is the new identifier. *)
Definition new_outbound (uuid : str) (config : CallConfig) (remote_uri : str) : Call :=
  mkCall uuid Idle Outbound config remote_uri None None None None [] None (cf_min_se config) None None None false false.

Definition new_inbound (uuid : str) (config : CallConfig) (remote_uri : str) (dialog : CallDialog) : Call :=
  mkCall uuid Ringing Inbound config remote_uri (Some dialog) None None None [StateChanged Ringing] None
    (cf_min_se config) None None None false false.

Definition new_inbound_pending (uuid : str) (config : CallConfig) (remote_uri : str) (dialog : CallDialog)
    (pending : PendingAnswer) : Call :=
  mkCall uuid Ringing Inbound config remote_uri (Some dialog) None None (Some pending) [StateChanged Ringing] None
    (cf_min_se config) None None None false false.

Definition dialog_id (c : Call) : option DialogId := cd_id <$> c_dialog c.

Definition set_dialog (d : CallDialog) (c : Call) : Call := c <| c_dialog := Some d |>.

Definition set_negotiated_media (r : draw) (media : NegotiatedMedia) (local_port : Z) (c : Call)
  : result unit str * Call :=
  match media_for_negotiated r (SdpAnswer.codec media) local_port with
  | Err e => (Err e, c)
  | Ok session =>
      let session :=
        match SdpAnswer.remote_addr media with
        | Some addr =>
            match ip_parse addr with
            | Some a => set_remote (mkSocketAddr a (SdpAnswer.remote_port media)) session
            | None => session
            end
        | None => session
        end in
      (Ok tt, (c <| negotiated_media := Some media |>) <| c_media := Some session |>)
  end.

Definition push_event (e : CallEvent) (c : Call) : Call := c <| c_events := c_events c ++ [e] |>.

Definition set_state (s : CallState) (c : Call) : Call :=
  if negb (bool_decide (c_state c = s)) then push_event (StateChanged s) (c <| c_state := s |>) else c.

Definition call_handle_provisional (has_sdp : bool) (c : Call) : Call :=
  if has_sdp then push_event EarlyMediaE (set_state EarlyMedia c)
  else push_event RingingE (set_state Ringing c).

Definition handle_answer (c : Call) : Call := push_event Answered (set_state Established c).

Definition handle_ended (reason : CallEndReason) (c : Call) : Call :=
  let c := push_event (Ended reason) (set_state Terminated c) in
  match c_media c with
  | Some media => c <| c_media := Some (media <| ms_active := false |>) |>
  | None => c
  end.

Definition drain_events (c : Call) : list CallEvent * Call := (c_events c, c <| c_events := [] |>).

Definition is_active (c : Call) : bool := bool_decide (c_state c = Established).

Definition can_receive_media (c : Call) : bool :=
  match c_state c with EarlyMedia | Established => true | _ => false end.

Definition has_pending_answer (c : Call) : bool := is_some (pending_answer c).

Definition slide_deadlines (now : Z) (c : Call) : Call :=
  match session_expires c with
  | None => c
  | Some se =>
      let c := if is_some (refresh_at c) then c <| refresh_at := Some (now + se / 2) |> else c in
      if is_some (expiry_at c) then c <| expiry_at := Some (now + se) |> else c
  end.

Definition take_pending_answer (c : Call) : option PendingAnswer * Call :=
  (pending_answer c, c <| pending_answer := None |>).

End Call.

#[export] Instance media_settable {ip : Type} `{CodecImpls} : Settable MediaSession := media_eta (ip := ip).
#[export] Instance call_settable {ip : Type} `{CodecImpls} : Settable Call := call_eta (ip := ip).
