(* ===== verification/CallManager.v ===== *)
(** * The call manager ([session/manager.rs])

    The manager owns the calls, indexes them by dialog, negotiates their media, builds the
    in-dialog requests of RFC 3262 and RFC 4028 (PRACK, session refresh, expiry BYE) and
    queues them and its events for the application.  An operation takes what the code reads
    from its surroundings (clock, random numbers, identifiers) and returns its result and the
    new manager; the outer [option] is [None] where the code would panic.  [tick] iterates
    over a hash map: the order of iteration is an argument.  Log output is left out. *)

From S2P Require Import Prelude RStr SipBase SipHeader SipUri SipTyped SipHeaders SipMessage SipBuild Dialog DialogManager RtpSession IceCandidate Sdp SdpAnswer AudioCodec Call.

Local Open Scope Z_scope.

Record InviteOfferHeaders : Type := mkOfferHeaders {
  oh_supported_tags : list str;
  oh_allow_methods : list Method;
  oh_session_expires : option (Z * Refresher);
  oh_min_se : option Z
}.

Inductive InboundSessionTimer : Type :=
| Disabled
| Accept (session_expires : Z) (refresher : Refresher)
| Reject422 (min_se : Z).

Inductive OutboundRequestKind : Type :=
| KPrack | SessionTimerUpdate | SessionTimerReInvite | SessionTimerExpiryBye.

Record OutboundRequest : Type := mkOutbound { ob_call_id : str; ob_request : Request; ob_kind : OutboundRequestKind }.

Inductive ManagerEvent : Type :=
| IncomingCall (id : str)
| CallStateChanged (id : str) (s : CallState)
| CallEventM (id : str) (e : CallEvent).

Record ManagerConfig : Type := mkManagerConfig {
  local_sip_addr : str;
  local_rtp_addr : str;
  rtp_port_lo : Z;
  rtp_port_hi : Z;
  mc_call_config : CallConfig
}.

Definition default_manager_config : ManagerConfig :=
  mkManagerConfig #"127.0.0.1:5060" #"127.0.0.1" 10000 20000 default_call_config.

Section Manager.
Context {ip : Type} `{!IpAddr ip} `{CodecImpls}.
Variable to_uppercase : str -> str.

#[local] Abbreviation CallT := (Call (ip := ip)).

Record CallManager : Type := mkCM {
  m_config : ManagerConfig;
  call_config : CallConfig;
  calls : gmap str CallT;
  dialog_to_call : gmap DialogId str;
  next_rtp_port : Z;
  m_events : list ManagerEvent;
  pending_outbound : list OutboundRequest
}.

#[local] Instance cm_eta : Settable CallManager := fun x =>
  mkCM (m_config x) (call_config x) (calls x) (dialog_to_call x) (next_rtp_port x) (m_events x) (pending_outbound x).

Definition cm_new (config : ManagerConfig) : CallManager :=
  mkCM config (mc_call_config config) empty empty (rtp_port_lo config) [] [].

Definition event (e : ManagerEvent) (m : CallManager) : CallManager := m <| m_events := m_events m ++ [e] |>.

Definition outbound (r : OutboundRequest) (m : CallManager) : CallManager :=
  m <| pending_outbound := pending_outbound m ++ [r] |>.

Definition put_call (id : str) (c : CallT) (m : CallManager) : CallManager := m <| calls := <[id := c]> (calls m) |>.

(** [if let Some(call) = self.calls.get_mut(id) { .. }] *)
Definition on_call (id : str) (f : CallT -> CallT) (m : CallManager) : CallManager :=
  match calls m !! id with
  | Some c => put_call id (f c) m
  | None => m
  end.

Definition map_dialog (d : DialogId) (id : str) (m : CallManager) : CallManager :=
  m <| dialog_to_call := <[d := id]> (dialog_to_call m) |>.

Definition get_call_by_dialog (d : DialogId) (m : CallManager) : option CallT :=
  let* id := dialog_to_call m !! d in calls m !! id.

Definition allocate_rtp_port (m : CallManager) : Z * CallManager :=
  let port := next_rtp_port m in
  let next := wrap 16 (next_rtp_port m + 2) in
  let next := if rtp_port_hi (m_config m) <? next then rtp_port_lo (m_config m) else next in
  (port, m <| next_rtp_port := next |>).

(** [uuid] is the identifier of the new call. *)
Definition create_call (uuid remote_uri : str) (m : CallManager) : str * CallManager :=
  (uuid, put_call uuid (new_outbound uuid (call_config m) remote_uri) m).

(** ** Inbound calls *)

Definition create_inbound_call_internal (uuid : str) (r : draw) (dialog : CallDialog) (media : NegotiatedMedia)
    (local_port : Z) (m : CallManager) : option str * CallManager :=
  let call := new_inbound uuid (call_config m) (cd_remote_uri dialog) dialog in
  match set_negotiated_media r media local_port call with
  | (Err _, _) => (None, m <| calls := delete uuid (calls m) |>)
  | (Ok _, call) =>
      (Some uuid, event (IncomingCall uuid) (map_dialog (cd_id dialog) uuid (put_call uuid call m)))
  end.

Definition handle_incoming_invite (uuid : str) (r : draw) (dialog : CallDialog) (offer : SessionDescription)
    (m : CallManager) : option (option (str * SessionDescription * Z) * CallManager) :=
  let '(local_port, m) := allocate_rtp_port m in
  match create_answer (ip := ip) to_uppercase offer (cf_codecs (call_config m)) local_port with
  | None => Some (None, m)
  | Some (answer, negotiated) =>
      let* media := head negotiated in
      match create_inbound_call_internal uuid r dialog media local_port m with
      | (None, m) => Some (None, m)
      | (Some id, m) => Some (Some (id, answer, local_port), m)
      end
  end.

Definition create_inbound_call_pending (uuid : str) (dialog : CallDialog) (pending : PendingAnswer)
    (m : CallManager) : option str * CallManager :=
  let call := new_inbound_pending uuid (call_config m) (cd_remote_uri dialog) dialog pending in
  (Some uuid, event (IncomingCall uuid) (map_dialog (cd_id dialog) uuid (put_call uuid call m))).

Definition accept_inbound_invite (uuid : str) (dialog : CallDialog) (offer : SessionDescription) (m : CallManager)
  : option str * CallManager :=
  match create_answer (ip := ip) to_uppercase offer (cf_codecs (call_config m)) 0 with
  | None => (None, m)
  | Some (_, negotiated) =>
      match last negotiated with
      | None => (None, m)
      | Some media => create_inbound_call_pending uuid dialog (mkPending offer media) m
      end
  end.

Definition reject_inbound_invite (id : str) (m : CallManager) : option DialogId * CallManager :=
  match calls m !! id with
  | None => (None, m)
  | Some call =>
      if negb (bool_decide (c_state call = Ringing)) || negb (has_pending_answer call) then (None, m) else
      let '(_, call) := take_pending_answer call in
      let call := handle_ended Error call in
      (dialog_id call, event (CallEventM id (Ended Error)) (put_call id call m))
  end.

(** [default_] with the credentials and all the candidates. *)
Definition build_answer_for (id : str) (r : draw) (default_ : Candidate ip) (ufrag pwd : str)
    (cands : list (Candidate ip)) (m : CallManager) : option SessionDescription * CallManager :=
  let local_port := addr_port (address default_) in
  match calls m !! id with
  | None => (None, m)
  | Some call =>
      let '(pending, call) := take_pending_answer call in
      let m := put_call id call m in
      match pending with
      | None => (None, m)
      | Some p =>
          match deferred_answer (pa_offer p) (pa_negotiated p) default_ ufrag pwd cands with
          | None => (None, m)
          | Some answer =>
              match set_negotiated_media r (pa_negotiated p) local_port call with
              | (Err _, _) => (None, m)
              | (Ok _, call) => (Some answer, put_call id call m)
              end
          end
      end
  end.

(** ** Responses to our INVITE *)

Definition set_timer (se : Z) (refresher : Refresher) (we_refresh : bool) (now : Z) (c : CallT) : CallT :=
  let c := (c <| session_expires := Some se |>) <| c_refresher := Some refresher |> in
  if we_refresh then (c <| refresh_at := Some (now + se / 2) |>) <| expiry_at := None |>
  else (c <| expiry_at := Some (now + se) |>) <| refresh_at := None |>.

Definition apply_invite_2xx_session_timer (response : Response) (now : Z) (c : CallT) : CallT :=
  match hs_session_expires (p_headers response) with
  | None => c
  | Some se =>
      let refresher := default SipHeaders.Uac (SessionExpires.refresher se) in
      set_timer (SessionExpires.delta_seconds se * SEC) refresher (bool_decide (refresher = SipHeaders.Uac)) now c
  end.

Definition handle_invite_success (id : str) (r : draw) (dialog : CallDialog) (answer : SessionDescription)
    (response : option Response) (now : Z) (m : CallManager) : bool * CallManager :=
  match head (process_answer answer) with
  | None => (false, m)
  | Some media =>
      let '(local_port, m) := allocate_rtp_port m in
      match calls m !! id with
      | None => (false, m)
      | Some call =>
          let dialog :=
            match response with
            | Some resp => adopt_routing (resp_record_routes resp) (resp_contact_uri resp) true dialog
            | None => dialog
            end in
          let call := set_dialog dialog call in
          match set_negotiated_media r media local_port call with
          | (Err _, call) => (false, put_call id call m)
          | (Ok _, call) =>
              let call := handle_answer call in
              let call :=
                match response with
                | Some resp => apply_invite_2xx_session_timer resp now call
                | None => call
                end in
              (true, event (CallStateChanged id Established) (map_dialog (cd_id dialog) id (put_call id call m)))
          end
      end
  end.

Definition handle_provisional (id : str) (r : draw) (has_sdp : bool) (sdp : option SessionDescription)
    (m : CallManager) : CallManager :=
  let '(local_port, m) := allocate_rtp_port m in
  match calls m !! id with
  | None => m
  | Some call =>
      let call :=
        if has_sdp then
          match sdp with
          | Some answer =>
              match head (process_answer answer) with
              | Some media => (set_negotiated_media r media local_port call).2
              | None => call
              end
          | None => call
          end
        else call in
      let call := call_handle_provisional has_sdp call in
      event (CallStateChanged id (c_state call)) (put_call id call m)
  end.

Definition on_dialog (f : CallDialog -> CallDialog) (c : CallT) : CallT :=
  match c_dialog c with
  | Some d => c <| c_dialog := Some (f d) |>
  | None => c
  end.

Definition handle_provisional_response (id : str) (r : draw) (response : Response) (sdp : option SessionDescription)
    (local_contact : str) (m : CallManager) : CallManager :=
  let m :=
    if is_some (resp_to_tag response)
    then on_call id (on_dialog (populate_uac_from_response response local_contact)) m
    else m in
  handle_provisional id r (is_some sdp) sdp m.

Definition populate_uas_dialog_routing (id : str) (invite : Request) (local_contact : str) (m : CallManager)
  : CallManager := on_call id (on_dialog (populate_uas_from_invite invite local_contact)) m.

Definition failure_reason (status_code : Z) : CallEndReason :=
  if status_code =? 486 then Busy
  else if (status_code =? 480) || (status_code =? 408) then NoAnswer
  else if status_code =? 603 then Rejected
  else Error.

Definition handle_invite_failure (id : str) (status_code : Z) (m : CallManager) : CallManager :=
  match calls m !! id with
  | None => m
  | Some call =>
      let reason := failure_reason status_code in
      event (CallEventM id (Ended reason)) (put_call id (handle_ended reason call) m)
  end.

Definition invite_offer_headers (m : CallManager) : InviteOfferHeaders :=
  let c := call_config m in
  if cf_session_expires c =? 0 then mkOfferHeaders [ #"100rel"] allow_set None None
  else mkOfferHeaders [ #"timer"; #"100rel"] allow_set
         (Some (wrap 32 (cf_session_expires c / SEC), SipHeaders.Uac)) (Some (wrap 32 (cf_min_se c / SEC))).

(** ** Requests within the dialog *)

(** A request built by the dialog layer, with the bump of the sequence number mirrored. *)
Definition handle_provisional_reliable (id uuid : str) (response : Response) (m : CallManager)
  : option (option Request * CallManager) :=
  match resp_rseq response with
  | None => Some (None, m)
  | Some _ =>
      match calls m !! id with
      | None => Some (None, m)
      | Some call =>
          match c_dialog call with
          | None => Some (None, m)
          | Some dialog =>
              let* invite_dialog := to_invite_dialog dialog in
              let* (prack, _) := build_prack response uuid invite_dialog in
              let '(_, dialog) := next_cseq dialog in
              let m := put_call id (call <| c_dialog := Some dialog |>) m in
              Some (Some prack, outbound (mkOutbound id prack KPrack) m)
          end
      end
  end.

(** ** Session timers *)

Definition evaluate_inbound_invite_session_timer (request : Request) (m : CallManager) : InboundSessionTimer :=
  match hs_session_expires (r_headers request) with
  | None => Disabled
  | Some se =>
      let min_se_secs := cf_min_se (call_config m) / SEC in
      if SessionExpires.delta_seconds se <? min_se_secs then Reject422 (wrap 32 min_se_secs) else
      let peer_supports_timer :=
        match find_supported (r_headers request) with
        | Some s => existsb (fun t => eq_ignore_ascii_case t #"timer") (Supported.tags s)
        | None => false
        end in
      Accept (SessionExpires.delta_seconds se * SEC) (if peer_supports_timer then SipHeaders.Uac else SipHeaders.Uas)
  end.

Definition accept_session_timer (id : str) (se : Z) (refresher : Refresher) (now : Z) (m : CallManager)
  : CallManager := on_call id (set_timer se refresher (bool_decide (refresher = SipHeaders.Uas)) now) m.

Definition handle_inbound_update (d : DialogId) (request : Request) (now : Z) (m : CallManager)
  : option (option Response * CallManager) :=
  match dialog_to_call m !! d with
  | None => Some (None, m)
  | Some id =>
      match calls m !! id with
      | None => Some (None, m)
      | Some call =>
          let min_se_secs := cf_min_se (call_config m) / SEC in
          let se := SessionExpires.delta_seconds <$> hs_session_expires (r_headers request) in
          if match se with Some secs => secs <? min_se_secs | None => false end then
            Some (rok (resp_build
              (rs_min_se (wrap 32 min_se_secs)
                (rs_from_request request (rs_status 422 #"Session Interval Too Small" resp_builder)))), m)
          else
            let call := match se with
                        | Some secs => call <| session_expires := Some (secs * SEC) |>
                        | None => call
                        end in
            let call := slide_deadlines now call in
            let m := put_call id call m in
            match c_dialog call with
            | None => Some (None, m)
            | Some dialog =>
                let* invite_dialog := to_invite_dialog dialog in
                let* resp := handle_update request invite_dialog in
                Some (Some resp, m)
            end
      end
  end.

Definition slide_deadlines_for_dialog (d : DialogId) (now : Z) (m : CallManager) : CallManager :=
  match dialog_to_call m !! d with
  | Some id => on_call id (slide_deadlines now) m
  | None => m
  end.

Definition mark_in_dialog_2xx (id : str) (method : Method) (now : Z) (m : CallManager) : CallManager :=
  match method with
  | Update | Invite => on_call id (slide_deadlines now) m
  | _ => m
  end.

Definition set_uac_in_flight (id : str) (in_flight : bool) (m : CallManager) : CallManager :=
  on_call id (fun c => c <| uac_in_flight := in_flight |>) m.

Definition note_update_unsupported (id : str) (m : CallManager) : CallManager :=
  on_call id (fun c => c <| update_unsupported := true |>) m.

Definition drain_outbound_requests (m : CallManager) : list OutboundRequest * CallManager :=
  (pending_outbound m, m <| pending_outbound := [] |>).

(** The random values of one call in a [tick]: a branch for the refresh, one for the BYE, and
    the session id of a rebuilt offer. *)
Record fire_draw : Type := mkFire { f_refresh : str; f_bye : str; f_sdp : Z }.

Definition build_update_request (id uuid : str) (m : CallManager) : option (option Request * CallManager) :=
  match calls m !! id with
  | None => Some (None, m)
  | Some call =>
      match session_expires call, c_dialog call with
      | Some se, Some dialog =>
          let* invite_dialog := to_invite_dialog dialog in
          let* (update, _) := build_update (Some (wrap 32 (se / SEC))) uuid invite_dialog in
          let '(_, dialog) := next_cseq dialog in
          Some (Some update, put_call id (call <| c_dialog := Some dialog |>) m)
      | _, _ => Some (None, m)
      end
  end.

Definition refresh_media_builder (codec : Codec) (local_port : Z) : MediaBuilder :=
  let name := to_uppercase (encoding codec) in
  if eqb name #"PCMU" then mb_pcmu (mb_audio local_port)
  else if eqb name #"PCMA" then mb_pcma (mb_audio local_port)
  else if eqb name #"G722" then mb_g722 (mb_audio local_port)
  else mb_codec (payload_type codec) name (clock_rate codec) (Some (c_channels codec)) (mb_audio local_port).

Definition build_refresh_invite_sdp (id : str) (sid : Z) (m : CallManager) : option str :=
  let* call := calls m !! id in
  let* media := c_media call in
  let* neg := negotiated_media call in
  let* local_addr := ip_parse (local_rtp_addr (m_config m)) in
  Some (sb_build_string
    (sb_add_media (refresh_media_builder (SdpAnswer.codec neg) (ms_local_port media))
      (sb_set_session_name #"rsiprtp refresh" (sb_new sid local_addr)))).

Definition reinvite_builder (rtp_addr : str) (info : DialogInfo) (cseq se : Z) (uuid : str) (body : option str)
  : ReqBuilder :=
  let request_uri := if is_empty (remote_target info) then remote_uri info else remote_target info in
  let b :=
    rq_allow allow_set
      (rq_supported [ #"timer"]
        (rq_session_expires (wrap 32 (se / SEC)) (Some SipHeaders.Uac)
          (rq_route (routes (route_set info))
            (rq_max_forwards 70
              (rq_cseq cseq
                (rq_call_id (d_call_id (Dialog.id info))
                  (rq_to_tag (d_remote_tag (Dialog.id info))
                    (rq_to (remote_uri info)
                      (rq_from (local_uri info) (d_local_tag (Dialog.id info))
                        (rq_via rtp_addr 5060 #"UDP" (branch_of uuid)
                          (rq_uri request_uri (rq_method Invite req_builder)))))))))))) in
  let b := if is_empty (local_contact info) then b else rq_contact (local_contact info) b in
  match body with
  | Some bytes => rq_body bytes #"application/sdp" b
  | None => b
  end.

Definition build_reinvite_refresh_request (id uuid : str) (body : option str) (m : CallManager)
  : option (option Request * CallManager) :=
  match calls m !! id with
  | None => Some (None, m)
  | Some call =>
      match session_expires call, c_dialog call with
      | Some se, Some dialog =>
          let* invite_dialog := to_invite_dialog dialog in
          let info := Dialog.info invite_dialog in
          let '(cseq, dialog) := next_cseq dialog in
          let m := put_call id (call <| c_dialog := Some dialog |>) m in
          Some (rok (req_build (reinvite_builder (local_rtp_addr (m_config m)) info cseq se uuid body)), m)
      | _, _ => Some (None, m)
      end
  end.

(** Whether the refresh of this call is due. *)
Definition refresh_due (now : Z) (c : CallT) : bool :=
  match refresh_at c with
  | Some deadline => (deadline <=? now) && negb (uac_in_flight c) && is_some (c_dialog c)
  | None => false
  end.

Definition maybe_fire_refresh (now : Z) (r : fire_draw) (id : str) (m : CallManager) : option CallManager :=
  match calls m !! id with
  | None => Some m
  | Some call =>
      if negb (refresh_due now call) then Some m else
      let use_update := negb (update_unsupported call) in
      let body := if use_update then None else build_refresh_invite_sdp id (f_sdp r) m in
      let* (request, m) :=
        if use_update then build_update_request id (f_refresh r) m
        else build_reinvite_refresh_request id (f_refresh r) body m in
      match request with
      | None => Some m
      | Some request =>
          let kind := if use_update then SessionTimerUpdate else SessionTimerReInvite in
          let m := on_call id (fun c =>
            match session_expires c with
            | Some se => c <| refresh_at := Some (now + se / 2) |>
            | None => c
            end) m in
          Some (outbound (mkOutbound id request kind) m)
      end
  end.

Definition expiry_reason : str := #"SIP;cause=200;text=" ++ [DQ] ++ #"Session timer expired" ++ [DQ].

Definition build_expiry_bye_request (id uuid : str) (m : CallManager) : option (option Request * CallManager) :=
  match calls m !! id with
  | None => Some (None, m)
  | Some call =>
      match c_dialog call with
      | None => Some (None, m)
      | Some dialog =>
          let* invite_dialog := to_invite_dialog dialog in
          match build_bye_with_reason expiry_reason uuid invite_dialog with
          | (None, _) => Some (None, m)
          | (Some bye, _) =>
              let '(_, dialog) := next_cseq dialog in
              Some (Some bye, put_call id (call <| c_dialog := Some dialog |>) m)
          end
      end
  end.

Definition expiry_due (now : Z) (c : CallT) : bool :=
  match expiry_at c with Some deadline => deadline <=? now | None => false end.

Definition maybe_fire_expiry_bye (now : Z) (r : fire_draw) (id : str) (m : CallManager) : option CallManager :=
  match calls m !! id with
  | None => Some m
  | Some call =>
      if negb (expiry_due now call) then Some m else
      let* (request, m) := build_expiry_bye_request id (f_bye r) m in
      match request with
      | None => Some m
      | Some request =>
          let m := on_call id (fun c => set_state Terminating (c <| expiry_at := None |>)) m in
          let m := outbound (mkOutbound id request SessionTimerExpiryBye) m in
          Some (event (CallStateChanged id Terminating) m)
      end
  end.

Definition established (m : CallManager) (id : str) : bool :=
  match calls m !! id with Some c => bool_decide (c_state c = Established) | None => false end.

Fixpoint fire_all (now : Z) (r : str -> fire_draw) (ids : list str) (m : CallManager) : option CallManager :=
  match ids with
  | [] => Some m
  | id :: ids =>
      let* m := maybe_fire_refresh now (r id) id m in
      let* m := maybe_fire_expiry_bye now (r id) id m in
      fire_all now r ids m
  end.

(** [order] is the order in which the map yields its keys. *)
Definition tick (now : Z) (r : str -> fire_draw) (order : list str) (m : CallManager) : option CallManager :=
  fire_all now r (filter (fun id => established m id = true) order) m.

Definition call_deadline (c : CallT) : option Z :=
  match refresh_at c, expiry_at c with
  | Some r, Some e => Some (Z.min r e)
  | Some r, None => Some r
  | None, Some e => Some e
  | None, None => None
  end.

Definition min_opt (a b : option Z) : option Z :=
  match a, b with
  | Some x, Some y => Some (Z.min x y)
  | Some x, None => Some x
  | None, b => b
  end.

Definition next_deadline (m : CallManager) : option Z :=
  map_fold (fun _ c acc => if bool_decide (c_state c = Established) then min_opt (call_deadline c) acc else acc)
    None (calls m).

(** ** Ending calls *)

Definition handle_bye (d : DialogId) (m : CallManager) : CallManager :=
  match dialog_to_call m !! d with
  | None => m
  | Some id =>
      match calls m !! id with
      | None => m
      | Some call =>
          event (CallEventM id (Ended NormalClearing)) (put_call id (handle_ended NormalClearing call) m)
      end
  end.

Definition terminate_call (id : str) (m : CallManager) : option DialogId * CallManager :=
  match calls m !! id with
  | None => (None, m)
  | Some call =>
      if negb (bool_decide (c_state call = Established)) then (None, m) else
      (dialog_id call, put_call id (set_state Terminating call) m)
  end.

Definition remove_call (id : str) (m : CallManager) : CallManager :=
  match calls m !! id with
  | None => m
  | Some call =>
      let m := m <| calls := delete id (calls m) |> in
      match dialog_id call with
      | Some d => m <| dialog_to_call := delete d (dialog_to_call m) |>
      | None => m
      end
  end.

Definition ringing_inbound (c : CallT) : bool :=
  bool_decide (c_direction c = Inbound) && bool_decide (c_state c = Ringing).

Definition answer_call (id : str) (m : CallManager) : bool * CallManager :=
  match calls m !! id with
  | None => (false, m)
  | Some call =>
      if ringing_inbound call
      then (true, event (CallStateChanged id Established) (put_call id (handle_answer call) m))
      else (false, m)
  end.

Definition reject_call (id : str) (m : CallManager) : option DialogId * CallManager :=
  match calls m !! id with
  | None => (None, m)
  | Some call =>
      if ringing_inbound call
      then (dialog_id call, put_call id (handle_ended Rejected call) m)
      else (None, m)
  end.

Definition cm_drain_events (m : CallManager) : list ManagerEvent * CallManager :=
  (m_events m, m <| m_events := [] |>).

Definition active_calls (order : list str) (m : CallManager) : list str :=
  filter (fun id => established m id = true) order.

End Manager.

#[export] Instance cm_settable {ip : Type} `{CodecImpls} : Settable (CallManager (ip := ip)) := cm_eta.
