(* ===== verification/CallManagerInv.v ===== *)
(** * The invariant of the call manager ([session/manager.rs])

    Every operation of the manager as a step, and what holds of the manager after any
    sequence of them. *)

From S2P Require Import Prelude RStr SipBase SipHeader SipUri SipTyped SipHeaders SipMessage SipBuild Dialog DialogManager RtpSession IceCandidate Sdp SdpAnswer AudioCodec Call CallManager.

Local Open Scope Z_scope.

Section Invariant.
Context {ip : Type} `{!IpAddr ip} `{CodecImpls}.
Variable to_uppercase : str -> str.

#[local] Abbreviation CallT := (Call (ip := ip)).
#[local] Abbreviation Mgr := (CallManager (ip := ip)).

(** ** Steps *)

Inductive Op : Type :=
| OCreate (uuid remote_uri : str)
| OIncoming (uuid : str) (r : draw) (dialog : CallDialog) (offer : SessionDescription)
| OAccept (uuid : str) (dialog : CallDialog) (offer : SessionDescription)
| ORejectInvite (id : str)
| OBuildAnswer (id : str) (r : draw) (default_ : Candidate ip) (ufrag pwd : str) (cands : list (Candidate ip))
| OSuccess (id : str) (r : draw) (dialog : CallDialog) (answer : SessionDescription) (resp : option Response) (now : Z)
| OProvisional (id : str) (r : draw) (has_sdp : bool) (sdp : option SessionDescription)
| OProvisionalResponse (id : str) (r : draw) (resp : Response) (sdp : option SessionDescription) (contact : str)
| OPopulateUas (id : str) (invite : Request) (contact : str)
| OFailure (id : str) (status_code : Z)
| OReliable (id uuid : str) (resp : Response)
| OAcceptTimer (id : str) (se : Z) (refresher : Refresher) (now : Z)
| OUpdate (d : DialogId) (req : Request) (now : Z)
| OSlide (d : DialogId) (now : Z)
| OMark (id : str) (method : Method) (now : Z)
| OInFlight (id : str) (in_flight : bool)
| OUpdateUnsupported (id : str)
| ODrainOutbound
| OTick (now : Z) (r : str -> fire_draw) (order : list str)
| OBye (d : DialogId)
| OTerminate (id : str)
| ORemove (id : str)
| OAnswer (id : str)
| OReject (id : str)
| ODrainEvents.

(** [None] is a panic. *)
Definition step (op : Op) (m : Mgr) : option Mgr :=
  match op with
  | OCreate uuid uri => Some (create_call uuid uri m).2
  | OIncoming uuid r d o => snd <$> handle_incoming_invite to_uppercase uuid r d o m
  | OAccept uuid d o => Some (accept_inbound_invite to_uppercase uuid d o m).2
  | ORejectInvite id => Some (reject_inbound_invite id m).2
  | OBuildAnswer id r c u p cs => Some (build_answer_for id r c u p cs m).2
  | OSuccess id r d a resp now => Some (handle_invite_success id r d a resp now m).2
  | OProvisional id r b s => Some (handle_provisional id r b s m)
  | OProvisionalResponse id r resp s c => Some (handle_provisional_response id r resp s c m)
  | OPopulateUas id inv c => Some (populate_uas_dialog_routing id inv c m)
  | OFailure id n => Some (handle_invite_failure id n m)
  | OReliable id u resp => snd <$> handle_provisional_reliable id u resp m
  | OAcceptTimer id se rf now => Some (accept_session_timer id se rf now m)
  | OUpdate d req now => snd <$> handle_inbound_update d req now m
  | OSlide d now => Some (slide_deadlines_for_dialog d now m)
  | OMark id meth now => Some (mark_in_dialog_2xx id meth now m)
  | OInFlight id b => Some (set_uac_in_flight id b m)
  | OUpdateUnsupported id => Some (note_update_unsupported id m)
  | ODrainOutbound => Some (drain_outbound_requests m).2
  | OTick now r order => tick to_uppercase now r order m
  | OBye d => Some (handle_bye d m)
  | OTerminate id => Some (terminate_call id m).2
  | ORemove id => Some (remove_call id m)
  | OAnswer id => Some (answer_call id m).2
  | OReject id => Some (reject_call id m).2
  | ODrainEvents => Some (cm_drain_events m).2
  end.

Fixpoint run (ops : list Op) (m : Mgr) : option Mgr :=
  match ops with
  | [] => Some m
  | op :: ops => let* m := step op m in run ops m
  end.

(** ** What the application sees to: new identifiers are new, a dialog belongs to one call,
    an INVITE of ours is answered for a call of ours, and another 2xx for an established call is of the dialog it
    has or brings media that can be set up. *)
Definition answer_usable (a : SessionDescription) : bool :=
  match head (process_answer a) with Some media => is_ok (codec_for_negotiated (codec media)) | None => false end.

Definition own_dialog (id : str) (d : CallDialog) (m : Mgr) : Prop :=
  map_Forall (fun j c => j <> id -> dialog_id c <> Some (cd_id d)) (calls m).

Definition allowed (op : Op) (m : Mgr) : Prop :=
  match op with
  | OCreate uuid _ => calls m !! uuid = None
  | OIncoming uuid _ d _ | OAccept uuid d _ => calls m !! uuid = None /\ own_dialog uuid d m
  | OSuccess id _ d a _ _ =>
      own_dialog id d m /\
      match calls m !! id with
      | Some c => c_direction c = Outbound /\
          (c_state c = Established -> answer_usable a = false -> dialog_id c = Some (cd_id d))
      | None => True
      end
  | _ => True
  end.

#[export] Instance allowed_dec op m : Decision (allowed op m).
Proof. destruct op; cbn [allowed]; unfold own_dialog; try apply _. destruct (calls m !! id); apply _. Defined.

Fixpoint allowed_run (ops : list Op) (m : Mgr) : Prop :=
  match ops with
  | [] => True
  | op :: ops => allowed op m /\ match step op m with Some m' => allowed_run ops m' | None => True end
  end.

#[export] Instance allowed_run_dec ops m : Decision (allowed_run ops m).
Proof.
  revert m. induction ops as [|op ops IH]; intros m; cbn [allowed_run]; [apply _|].
  destruct (step op m); apply _.
Defined.

(** ** The invariant *)

(** At most one deadline is armed, and only in a session with an interval. *)
Definition timers_wf (c : CallT) : Prop :=
  is_some (refresh_at c) && is_some (expiry_at c) = false /\
  (is_some (refresh_at c) || is_some (expiry_at c) = true -> is_some (session_expires c) = true).

(** A call has a media session exactly when it negotiated media. *)
Definition media_wf (c : CallT) : Prop := is_some (c_media c) = is_some (negotiated_media c).

(** The calls that the network can reach by their dialog. *)
Definition reachable (c : CallT) : Prop := c_state c = Established \/ c_direction c = Inbound.

Record call_wf (m : Mgr) (id : str) (c : CallT) : Prop := {
  cw_id : c_id c = id;
  cw_timers : timers_wf c;
  cw_media : media_wf c;
  cw_index : reachable c -> exists d, dialog_id c = Some d /\ dialog_to_call m !! d = Some id
}.

Definition ports_ok (c : ManagerConfig) : Prop := 0 <= rtp_port_lo c <= rtp_port_hi c /\ rtp_port_hi c < 65534.

Record manager_wf (m : Mgr) : Prop := {
  mw_calls : forall id c, calls m !! id = Some c -> call_wf m id c;
  mw_dialogs : forall i j a b d, calls m !! i = Some a -> calls m !! j = Some b ->
    dialog_id a = Some d -> dialog_id b = Some d -> i = j;
  mw_port : ports_ok (m_config m) ->
    rtp_port_lo (m_config m) <= next_rtp_port m <= rtp_port_hi (m_config m) /\
    next_rtp_port m mod 2 = rtp_port_lo (m_config m) mod 2
}.


(** ** Operations on calls *)

(** What an operation on a call that does not establish it leaves in place. *)
Record keeps (c c' : CallT) : Prop := {
  k_id : c_id c' = c_id c;
  k_direction : c_direction c' = c_direction c;
  k_dialog : dialog_id c' = dialog_id c;
  k_media : media_wf c -> media_wf c';
  k_established : c_state c' = Established -> c_state c = Established;
  k_timers : timers_wf c -> timers_wf c'
}.

Lemma keeps_refl c : keeps c c.
Proof. by split. Qed.

Lemma keeps_trans a b c : keeps a b -> keeps b c -> keeps a c.
Proof. intros [] []. split; (congruence || auto). Qed.

Lemma keeps_set_state s c : s <> Established -> keeps c (set_state s c).
Proof.
  intros Hs. unfold set_state, push_event. destruct (bool_decide _); [apply keeps_refl|]. destruct c. by split.
Qed.

Lemma keeps_push_event e c : keeps c (push_event e c).
Proof. destruct c. by split. Qed.

Lemma keeps_handle_ended r c : keeps c (handle_ended r c).
Proof.
  unfold handle_ended. eapply keeps_trans; [eapply keeps_trans; [by apply (keeps_set_state Terminated)|apply (keeps_push_event (Ended r))]|].
  destruct (push_event _ _) as [? ? ? ? ? ? ? md]. cbn. destruct md; [by split|apply keeps_refl].
Qed.

Lemma keeps_provisional b c : keeps c (call_handle_provisional b c).
Proof. destruct b; (eapply keeps_trans; [|apply keeps_push_event]); by apply keeps_set_state. Qed.

Lemma keeps_slide now c : keeps c (slide_deadlines now c).
Proof.
  destruct c as [? ? ? ? ? ? ? ? ? ? se ? ? ra ea]. unfold slide_deadlines. cbn.
  destruct se, ra, ea; by split.
Qed.

Lemma keeps_set_timer se rf b now c : keeps c (set_timer se rf b now c).
Proof. destruct c, b; by split. Qed.

Lemma keeps_media r md p c : keeps c (set_negotiated_media r md p c).2.
Proof. unfold set_negotiated_media. destruct (media_for_negotiated _ _ _); [destruct c; by split|apply keeps_refl]. Qed.

Lemma keeps_on_dialog f c : (forall d, cd_id (f d) = cd_id d) -> keeps c (on_dialog f c).
Proof.
  intros Hf. unfold on_dialog. destruct (c_dialog c) as [d|] eqn:Ed; [|apply keeps_refl].
  destruct c. cbn in *. subst. split; try done. unfold dialog_id. cbn. by rewrite Hf.
Qed.

Lemma cd_id_adopt rr uri b d : cd_id (adopt_routing rr uri b d) = cd_id d.
Proof. unfold adopt_routing. by destruct rr, uri. Qed.

Lemma cd_id_uac r c d : cd_id (populate_uac_from_response r c d) = cd_id d.
Proof.
  unfold populate_uac_from_response. destruct (negb _); [done|]. destruct (is_empty c); cbn; apply cd_id_adopt.
Qed.

Lemma cd_id_uas r c d : cd_id (populate_uas_from_invite r c d) = cd_id d.
Proof. unfold populate_uas_from_invite. destruct (negb _); [done|]. apply cd_id_adopt. Qed.

(** The dialog after one of its requests was built. *)
Lemma keeps_next_cseq c d :
  c_dialog c = Some d -> keeps c (c <| c_dialog := Some (next_cseq d).2 |>).
Proof. intros E. destruct c. cbn in *. subst. by split. Qed.

(** ** Changes of the manager *)

Lemma wf_event e m : manager_wf m -> manager_wf (event e m).
Proof. intros [H1 H2 H3]. split; try done. intros id c E. by destruct (H1 id c E). Qed.

Lemma wf_outbound r m : manager_wf m -> manager_wf (outbound r m).
Proof. intros [H1 H2 H3]. split; try done. intros id c E. by destruct (H1 id c E). Qed.

Lemma wf_put m id c c' : manager_wf m -> calls m !! id = Some c -> keeps c c' -> manager_wf (put_call id c' m).
Proof.
  intros [H1 H2 H3] Ec [K1 K2 K3 K4 K5 K6]. split; try done.
  - intros j b Eb. cbn in Eb. apply lookup_insert_Some in Eb as [[<- <-]|[_ Eb]]; [|by destruct (H1 j b Eb)].
    destruct (H1 id c Ec) as [W1 W2 W3 W4]. split; [congruence|auto|auto|]. intros Hr. rewrite K3. apply W4.
    destruct Hr as [Hr|Hr]; [left; auto|right; congruence].
  - intros i j a b d Ea Eb Da Db. cbn in Ea, Eb.
    apply lookup_insert_Some in Ea as [[<- <-]|[Hi Ea]], Eb as [[<- <-]|[Hj Eb]]; try done.
    + rewrite K3 in Da. by apply (H2 id j c b d).
    + rewrite K3 in Db. by apply (H2 i id a c d).
    + by apply (H2 i j a b d).
Qed.

Lemma wf_on_call m id f : manager_wf m -> (forall c, calls m !! id = Some c -> keeps c (f c)) -> manager_wf (on_call id f m).
Proof. intros W K. unfold on_call. destruct (calls m !! id) as [c|] eqn:E; [|done]. eapply wf_put; [done|done|by apply K]. Qed.

(** A call that comes into being, or becomes established, under its own dialog. *)
Lemma wf_index m id c d :
  manager_wf m -> own_dialog id d m -> dialog_id c = Some (cd_id d) -> c_id c = id -> timers_wf c -> media_wf c ->
  manager_wf (map_dialog (cd_id d) id (put_call id c m)).
Proof.
  intros [H1 H2 H3] Ho Ed Hid Ht Hm. split; try done.
  - intros j b Eb. cbn in Eb. apply lookup_insert_Some in Eb as [[<- <-]|[Hj Eb]].
    + split; try done. intros _. exists (cd_id d). split; [done|]. apply lookup_insert_eq.
    + destruct (H1 j b Eb) as [W1 W2 W3 W4]. split; try done. intros Hr. destruct (W4 Hr) as (e & De & Ie).
      exists e. split; [done|]. cbn. rewrite lookup_insert_ne; [done|]. intros <-. by apply (Ho j b).
  - intros i j a b e Ea Eb Da Db. cbn in Ea, Eb.
    apply lookup_insert_Some in Ea as [[<- <-]|[Hi Ea]], Eb as [[<- <-]|[Hj Eb]]; try done.
    + exfalso. apply (Ho j b Eb ltac:(done)). congruence.
    + exfalso. apply (Ho i a Ea ltac:(done)). congruence.
    + by apply (H2 i j a b e).
Qed.

Lemma wf_allocate m : manager_wf m -> manager_wf (allocate_rtp_port m).2.
Proof.
  intros [H1 H2 H3]. unfold allocate_rtp_port. split; [|done|]; cbn.
  - intros id c Ec. by destruct (H1 id c Ec).
  - intros Hp. destruct (H3 Hp) as [Hr Hq]. destruct Hp as [Hp1 Hp2]. rewrite wrap_small by (unfold in_width; lia).
    assert (next_rtp_port m + 2 = next_rtp_port m + 1 * 2) as E2 by lia.
    destruct (Z.ltb_spec (rtp_port_hi (m_config m)) (next_rtp_port m + 2)); split; try lia; try done.
    by rewrite E2, Z_mod_plus_full.
Qed.

(** ** Every operation *)

Lemma allocate_calls (m : Mgr) :
  calls (allocate_rtp_port m).2 = calls m /\ m_config (allocate_rtp_port m).2 = m_config m.
Proof. done. Qed.

Lemma timers_wf_new c : refresh_at c = None -> expiry_at c = None -> timers_wf c.
Proof. intros E1 E2. unfold timers_wf. by rewrite E1, E2. Qed.

Lemma wf_new_call m c : manager_wf m -> calls m !! c_id c = None -> dialog_id c = None -> ~ reachable c ->
  timers_wf c -> media_wf c -> manager_wf (put_call (c_id c) c m).
Proof.
  intros [H1 H2 H3] Hn Hd Hr Ht Hm. split; try done.
  - intros j b Eb. cbn in Eb. apply lookup_insert_Some in Eb as [[<- <-]|[_ Eb]]; [by split|by destruct (H1 j b Eb)].
  - intros i j a b d Ea Eb Da Db. cbn in Ea, Eb.
    apply lookup_insert_Some in Ea as [[<- <-]|[_ Ea]], Eb as [[<- <-]|[_ Eb]]; try congruence.
    by apply (H2 i j a b d).
Qed.

Lemma wf_delete m id : calls m !! id = None -> manager_wf m -> manager_wf (m <| calls := delete id (calls m) |>).
Proof. intros E [H1 H2 H3]. split; cbn; rewrite ?delete_id by done; try done. intros j c Ec. by destruct (H1 j c Ec). Qed.

Lemma wf_incoming m uuid r d o m' :
  manager_wf m -> calls m !! uuid = None -> own_dialog uuid d m ->
  step (OIncoming uuid r d o) m = Some m' -> manager_wf m'.
Proof.
  intros W Hu Hd. cbn [step]. unfold handle_incoming_invite.
  pose proof (wf_allocate m W) as W1. destruct (allocate_rtp_port m) as [port m1] eqn:Ea.
  destruct (allocate_calls m) as [Ec Ep]. rewrite Ea in Ec, Ep. cbn [snd] in W1, Ec, Ep. destruct (create_answer _ _ _ _) as [[answer neg]|]; [|by intros [= <-]].
  destruct (head neg) as [media|]; [|done]. cbn [mbind option_bind]. unfold create_inbound_call_internal.
  set (c0 := new_inbound _ _ _ _). pose proof (keeps_media r media port c0) as K.
  destruct (set_negotiated_media r media port c0) as [[|] c] eqn:En; cbn [snd] in K.
  - intros [= <-]. apply wf_event. destruct K as [K1 K2 K3 K4 K5 K6].
    apply wf_index; [done| |by rewrite K3|by rewrite K1|by apply K6, timers_wf_new|by apply K4].
    intros j b Eb. rewrite Ec in Eb. by apply Hd.
  - intros [= <-]. apply wf_delete; [by rewrite Ec|done].
Qed.

Lemma wf_accept m uuid d o m' :
  manager_wf m -> own_dialog uuid d m -> step (OAccept uuid d o) m = Some m' -> manager_wf m'.
Proof.
  intros W Hd. cbn [step]. unfold accept_inbound_invite.
  destruct (create_answer _ _ _ _) as [[answer neg]|]; [|by intros [= <-]].
  destruct (last neg) as [media|]; [|by intros [= <-]]. intros [= <-].
  apply wf_event, wf_index; done.
Qed.

Lemma answer_same c :
  c_id (handle_answer c) = c_id c /\ dialog_id (handle_answer c) = dialog_id c /\
  (media_wf c -> media_wf (handle_answer c)) /\ (timers_wf c -> timers_wf (handle_answer c)).
Proof. unfold handle_answer, set_state, push_event. destruct (negb _), c; by split_and!. Qed.

Lemma keeps_2xx_timer resp now c : keeps c (apply_invite_2xx_session_timer resp now c).
Proof. unfold apply_invite_2xx_session_timer. destruct (hs_session_expires _); [apply keeps_set_timer|apply keeps_refl]. Qed.

(** A call whose dialog is replaced without being indexed. *)
Lemma wf_redial m id c' d :
  manager_wf m -> own_dialog id d m -> dialog_id c' = Some (cd_id d) -> c_id c' = id -> timers_wf c' -> media_wf c' ->
  (reachable c' -> dialog_to_call m !! cd_id d = Some id) -> manager_wf (put_call id c' m).
Proof.
  intros [H1 H2 H3] Ho Ed Hid Ht Hm Hr. split; try done.
  - intros j b Eb. cbn in Eb. apply lookup_insert_Some in Eb as [[<- <-]|[_ Eb]]; [|by destruct (H1 j b Eb)].
    split; try done. intros Hr'. exists (cd_id d). split; [done|]. by apply Hr.
  - intros i j a b e Ea Eb Da Db. cbn in Ea, Eb.
    apply lookup_insert_Some in Ea as [[<- <-]|[Hi Ea]], Eb as [[<- <-]|[Hj Eb]]; try done.
    + exfalso. apply (Ho j b Eb ltac:(done)). congruence.
    + exfalso. apply (Ho i a Ea ltac:(done)). congruence.
    + by apply (H2 i j a b e).
Qed.

Lemma media_set r media port (c : CallT) :
  is_ok (codec_for_negotiated (codec media)) = is_ok (set_negotiated_media r media port c).1.
Proof. unfold set_negotiated_media, media_for_negotiated. by destruct (codec_for_negotiated (codec media)). Qed.

Lemma wf_success m id r d a resp now m' :
  manager_wf m -> allowed (OSuccess id r d a resp now) m ->
  step (OSuccess id r d a resp now) m = Some m' -> manager_wf m'.
Proof.
  intros W [Hd Hout]. cbn [step]. unfold handle_invite_success.
  unfold answer_usable in Hout. destruct (head (process_answer a)) as [media|]; [|by intros [= <-]].
  pose proof (wf_allocate m W) as W1. destruct (allocate_rtp_port m) as [port m1] eqn:Ea.
  destruct (allocate_calls m) as [Ec _]. rewrite Ea in Ec. cbn [snd] in W1, Ec.
  destruct (calls m1 !! id) as [c|] eqn:Eid; [|by intros [= <-]].
  set (d' := match resp with Some _ => _ | None => d end).
  assert (cd_id d' = cd_id d) as Ed' by (subst d'; destruct resp; [apply cd_id_adopt|done]).
  assert (own_dialog id d m1) as Hd1 by (intros j b Eb; rewrite Ec in Eb; by apply Hd).
  destruct (mw_calls m1 W1 id c Eid) as [C1 C2 C3 C4]. rewrite Ec in Eid. rewrite Eid in Hout. destruct Hout as [Ho He].
  pose proof (keeps_media r media port (set_dialog d' c)) as K.
  assert (c_id (set_dialog d' c) = id /\ timers_wf (set_dialog d' c) /\ media_wf (set_dialog d' c) /\
    dialog_id (set_dialog d' c) = Some (cd_id d)) as (D1 & D2 & D3 & D4)
    by (destruct c; cbn in *; split_and!; try done; unfold dialog_id; cbn; by rewrite Ed').
  pose proof (media_set r media port (set_dialog d' c)) as Hu.
  destruct (set_negotiated_media r media port (set_dialog d' c)) as [[|] c2]; cbn [snd fst is_ok] in K, Hu; destruct K as [K1 K2 K3 K4 K5 K6].
  - destruct (answer_same c2) as (A1 & A2 & A3 & A4).
    set (c3 := match resp with Some _ => _ | None => _ end).
    assert (keeps (handle_answer c2) c3) as [L1 _ L3 L4 _ L6] by (subst c3; destruct resp; [apply keeps_2xx_timer|apply keeps_refl]).
    rewrite Ed'. intros [= <-]. apply wf_event, wf_index; try done; [congruence|congruence|auto|auto].
  - intros [= <-]. apply (wf_redial m1 id c2 d); try done; [congruence|congruence|auto|auto|].
    intros [Hr|Hr].
    + apply K5 in Hr. assert (c_state c = Established) as Es by (by destruct c).
      destruct (C4 (or_introl Es)) as (k & De & Ie). rewrite (He Es Hu) in De. apply (inj Some) in De. by subst k.
    + rewrite K2 in Hr. destruct c. cbn in *. congruence.
Qed.

Lemma wf_provisional m id r b sdp :
  manager_wf m -> manager_wf (handle_provisional id r b sdp m).
Proof.
  intros W. unfold handle_provisional.
  pose proof (wf_allocate m W) as W1. destruct (allocate_rtp_port m) as [port m1]. cbn [snd] in W1.
  destruct (calls m1 !! id) as [c|] eqn:Ec; [|done]. apply wf_event.
  eapply wf_put; [done|exact Ec|]. eapply keeps_trans; [|apply keeps_provisional].
  destruct b, sdp as [a|]; try apply keeps_refl. destruct (head (process_answer a)); [apply keeps_media|apply keeps_refl].
Qed.

Lemma on_call_config id f (m : Mgr) : m_config (on_call id f m) = m_config m.
Proof. unfold on_call. by destruct (calls m !! id). Qed.

Lemma wf_slide m id now : manager_wf m -> manager_wf (on_call id (slide_deadlines now) m).
Proof. intros W. apply wf_on_call; [done|]. intros. apply keeps_slide. Qed.

Lemma wf_ended m id c r : manager_wf m -> calls m !! id = Some c -> manager_wf (put_call id (handle_ended r c) m).
Proof. intros W E. eapply wf_put; [done|exact E|apply keeps_handle_ended]. Qed.

Lemma keeps_take (c : CallT) : keeps c (take_pending_answer c).2.
Proof. destruct c. by split. Qed.

Lemma wf_remove m id : manager_wf m -> manager_wf (remove_call id m).
Proof.
  intros [H1 H2 H3]. unfold remove_call. destruct (calls m !! id) as [c|] eqn:Ec; [|by split].
  assert (forall j b, delete id (calls m) !! j = Some b -> j <> id /\ calls m !! j = Some b) as Hdel
    by (intros j b E; apply lookup_delete_Some in E as [? ?]; by split).
  assert (forall m', calls m' = delete id (calls m) -> m_config m' = m_config m -> next_rtp_port m' = next_rtp_port m ->
    (forall j b d, j <> id -> calls m !! j = Some b -> dialog_id b = Some d -> dialog_to_call m !! d = Some j ->
       dialog_to_call m' !! d = Some j) -> manager_wf m') as Hgen.
  { intros m' Ecs Ecf Epo Hidx. split; rewrite ?Ecf, ?Epo; try done.
    - intros j b Eb. rewrite Ecs in Eb. apply Hdel in Eb as [Hj Eb]. destruct (H1 j b Eb) as [W1 W2 W3 W4]. split; try done.
      intros Hr. destruct (W4 Hr) as (d & Ed & Ei). exists d. split; [done|]. by eapply Hidx.
    - intros i j a b d Ea Eb. rewrite Ecs in Ea, Eb. apply Hdel in Ea as [_ Ea], Eb as [_ Eb]. by apply H2. }
  destruct (dialog_id c) as [dc|] eqn:Edc; apply Hgen; try done.
  intros j b d Hj Eb Ed Ei. cbn. rewrite lookup_delete_ne; [done|]. intros ->. by apply Hj, (H2 j id b c d).
Qed.

Lemma wf_answer m id c :
  manager_wf m -> calls m !! id = Some c -> c_direction c = Inbound -> manager_wf (put_call id (handle_answer c) m).
Proof.
  intros W Ec Hd. destruct (mw_calls m W id c Ec) as [C1 C2 C3 C4]. destruct (answer_same c) as (A1 & A2 & A3 & A4).
  destruct (C4 (or_intror Hd)) as (k & Ek & Ei). unfold dialog_id in Ek. destruct (c_dialog c) as [d|] eqn:Ed; [|done].
  apply (inj Some) in Ek. subst k. assert (dialog_id c = Some (cd_id d)) as Edc by (unfold dialog_id; by rewrite Ed).
  apply (wf_redial m id _ d); try done; [|by rewrite A2|congruence|auto|auto].
  intros j b Eb Hj Edb. by apply Hj, (mw_dialogs m W j id b c (cd_id d)).
Qed.

(** ** Requests and ticks *)

Definition refresh_of (id : str) (m : Mgr) : option (option Z) := refresh_at <$> calls m !! id.

Lemma wf_bump m id c d : manager_wf m -> calls m !! id = Some c -> c_dialog c = Some d ->
  let m' := put_call id (c <| c_dialog := Some (next_cseq d).2 |>) m in
  manager_wf m' /\ refresh_of id m' = refresh_of id m.
Proof.
  intros W E Ed. split; [eapply wf_put; [done|exact E|by apply keeps_next_cseq]|].
  unfold refresh_of. cbn. by rewrite lookup_insert_eq, E.
Qed.

Lemma wf_update_request m id u q m' :
  manager_wf m -> build_update_request id u m = Some (q, m') -> manager_wf m' /\ refresh_of id m' = refresh_of id m.
Proof.
  intros W. unfold build_update_request. destruct (calls m !! id) as [c|] eqn:Ec; [|by intros [= <- <-]].
  destruct (session_expires c); [|by intros [= <- <-]]. destruct (c_dialog c) as [d|] eqn:Ed; [|by intros [= <- <-]].
  destruct (to_invite_dialog d); [|done]. cbn [mbind option_bind]. destruct (build_update _ _ _) as [[? ?]|]; [|done].
  cbn [mbind option_bind]. intros [= <- <-]. by apply wf_bump.
Qed.

Lemma wf_reinvite_request m id u b q m' :
  manager_wf m -> build_reinvite_refresh_request id u b m = Some (q, m') ->
  manager_wf m' /\ refresh_of id m' = refresh_of id m.
Proof.
  intros W. unfold build_reinvite_refresh_request. destruct (calls m !! id) as [c|] eqn:Ec; [|by intros [= <- <-]].
  destruct (session_expires c); [|by intros [= <- <-]]. destruct (c_dialog c) as [d|] eqn:Ed; [|by intros [= <- <-]].
  destruct (to_invite_dialog d); [|done]. cbn [mbind option_bind]. intros [= <- <-]. by apply wf_bump.
Qed.

Lemma wf_bye_request m id u q m' :
  manager_wf m -> build_expiry_bye_request id u m = Some (q, m') -> manager_wf m'.
Proof.
  intros W. unfold build_expiry_bye_request. destruct (calls m !! id) as [c|] eqn:Ec; [|by intros [= <- <-]].
  destruct (c_dialog c) as [d|] eqn:Ed; [|by intros [= <- <-]].
  destruct (to_invite_dialog d); [|done]. cbn [mbind option_bind]. destruct (build_bye_with_reason _ _ _) as [[?|] ?];
    intros [= <- <-]; [by eapply wf_bump|done].
Qed.

Lemma keeps_rearm now c :
  is_some (refresh_at c) = true ->
  keeps c (match session_expires c with Some se => c <| refresh_at := Some (now + se / 2) |> | None => c end).
Proof.
  intros Hr. destruct c as [? ? ? ? ? ? ? ? ? ? se ? ? ra ea]. cbn in *. destruct se; [|apply keeps_refl].
  split; try done. unfold timers_wf. cbn. rewrite Hr. by destruct ea.
Qed.

Lemma keeps_expired c : keeps c (set_state Terminating (c <| expiry_at := None |>)).
Proof.
  eapply keeps_trans; [|by apply keeps_set_state]. destruct c as [? ? ? ? ? ? ? ? ? ? se ? ? ra ea].
  split; try done. unfold timers_wf. cbn. rewrite andb_false_r, orb_false_r. intros [_ H2]. split; [done|].
  intros Hr. apply H2. by rewrite Hr.
Qed.

Lemma wf_fire_refresh now r id m m' :
  manager_wf m -> maybe_fire_refresh to_uppercase now r id m = Some m' -> manager_wf m'.
Proof.
  intros W. unfold maybe_fire_refresh. destruct (calls m !! id) as [c|] eqn:Ec; [|by intros [= <-]].
  destruct (refresh_due now c) eqn:Hdue; cbn [negb]; [|by intros [= <-]].
  set (use_update := negb (update_unsupported c)).
  set (built := if use_update then build_update_request id (f_refresh r) m else _).
  assert (forall q m1, built = Some (q, m1) -> manager_wf m1 /\ refresh_of id m1 = refresh_of id m) as Hb
    by (subst built; intros q m1; destruct use_update; [by apply wf_update_request|by apply wf_reinvite_request]).
  destruct built as [[q m1]|]; [|done]. destruct (Hb q m1 eq_refl) as [W1 Hr]. cbn [mbind option_bind].
  destruct q as [q|]; intros [= <-]; [|done]. apply wf_outbound, wf_on_call; [done|]. intros c1 Ec1.
  assert (is_some (refresh_at c1) = true) as Hs.
  { unfold refresh_of in Hr. rewrite Ec, Ec1 in Hr. cbn in Hr. apply (inj Some) in Hr. rewrite Hr.
    unfold refresh_due in Hdue. by destruct (refresh_at c). }
  by apply keeps_rearm.
Qed.

Lemma wf_fire_expiry now r id m m' :
  manager_wf m -> maybe_fire_expiry_bye now r id m = Some m' -> manager_wf m'.
Proof.
  intros W. unfold maybe_fire_expiry_bye. destruct (calls m !! id) as [c|] eqn:Ec; [|by intros [= <-]].
  destruct (expiry_due now c); cbn [negb]; [|by intros [= <-]].
  destruct (build_expiry_bye_request id (f_bye r) m) as [[q m1]|] eqn:Eb; [|done]. cbn [mbind option_bind].
  apply wf_bye_request in Eb; [|done]. destruct q; intros [= <-]; [|done].
  apply wf_event, wf_outbound, wf_on_call; [done|]. intros. apply keeps_expired.
Qed.

Lemma wf_fire_all now r ids m m' : manager_wf m -> fire_all to_uppercase now r ids m = Some m' -> manager_wf m'.
Proof.
  revert m. induction ids as [|id ids IH]; intros m W; cbn [fire_all]; [by intros [= <-]|].
  destruct (maybe_fire_refresh _ _ _ _ _) as [m1|] eqn:E1; [|done]. cbn [mbind option_bind].
  destruct (maybe_fire_expiry_bye _ _ _ _) as [m2|] eqn:E2; [|done]. cbn [mbind option_bind].
  apply IH. eapply wf_fire_expiry; [|exact E2]. by eapply wf_fire_refresh.
Qed.

Lemma wf_build_answer m id r c u p cs : manager_wf m -> manager_wf (build_answer_for id r c u p cs m).2.
Proof.
  intros W. unfold build_answer_for. destruct (calls m !! id) as [call|] eqn:Ec; [|done].
  destruct (take_pending_answer call) as [pending call1] eqn:Et. pose proof (keeps_take call) as K1.
  rewrite Et in K1. cbn [snd] in K1. pose proof (wf_put m id call call1 W Ec K1) as W1.
  destruct pending as [pa|]; [|exact W1]. destruct (deferred_answer _ _ _ _ _ _) as [answer|]; [|exact W1].
  pose proof (keeps_media r (pa_negotiated pa) (addr_port (address c)) call1) as K2.
  destruct (set_negotiated_media _ _ _ call1) as [[|] call2]; [|exact W1]. cbn [snd] in K2 |- *.
  eapply wf_put; [exact W1|apply lookup_insert_eq|exact K2].
Qed.

Lemma wf_inbound_update m d req now r m' :
  manager_wf m -> handle_inbound_update d req now m = Some (r, m') -> manager_wf m'.
Proof.
  intros W. unfold handle_inbound_update. destruct (dialog_to_call m !! d) as [id|]; [|by intros [= <- <-]].
  destruct (calls m !! id) as [c|] eqn:Ec; [|by intros [= <- <-]].
  destruct (match _ with Some _ => _ | None => false end); [by intros [= <- <-]|].
  set (c1 := match _ with Some _ => c <| session_expires := _ |> | None => c end).
  assert (keeps c c1) as K1.
  { subst c1. destruct (_ <$> _); [|apply keeps_refl]. destruct c. split; try done. unfold timers_wf. by intros [? _]. }
  assert (manager_wf (put_call id (slide_deadlines now c1) m)) as W1
    by (eapply wf_put; [done|exact Ec|]; eapply keeps_trans; [exact K1|apply keeps_slide]).
  destruct (c_dialog _); [|by intros [= <- <-]]. destruct (to_invite_dialog _); [|done]. cbn [mbind option_bind].
  destruct (handle_update _ _); [|done]. cbn [mbind option_bind]. by intros [= <- <-].
Qed.

Lemma wf_reliable m id u resp r m' :
  manager_wf m -> handle_provisional_reliable id u resp m = Some (r, m') -> manager_wf m'.
Proof.
  intros W. unfold handle_provisional_reliable. destruct (resp_rseq resp); [|by intros [= <- <-]].
  destruct (calls m !! id) as [c|] eqn:Ec; [|by intros [= <- <-]].
  destruct (c_dialog c) as [d|] eqn:Ed; [|by intros [= <- <-]]. destruct (to_invite_dialog d); [|done].
  cbn [mbind option_bind]. destruct (build_prack _ _ _) as [[? ?]|]; [|done]. cbn [mbind option_bind].
  intros [= <- <-]. by apply wf_outbound, wf_bump.
Qed.

Lemma wf_reject_invite m id : manager_wf m -> manager_wf (reject_inbound_invite id m).2.
Proof.
  intros W. unfold reject_inbound_invite. destruct (calls m !! id) as [c|] eqn:Ec; [|done].
  destruct (_ || _); [done|]. destruct (take_pending_answer c) as [p c1] eqn:Et. pose proof (keeps_take c) as K.
  rewrite Et in K. apply wf_event. eapply wf_put; [done|exact Ec|]. eapply keeps_trans; [exact K|apply keeps_handle_ended].
Qed.

(** Operations that only end or change one call. *)
Lemma wf_ending m op m' :
  manager_wf m -> step op m = Some m' ->
  match op with OFailure _ _ | OBye _ | OTerminate _ | OReject _ | OAnswer _ => True | _ => False end -> manager_wf m'.
Proof.
  intros W. destruct op; try done; cbn [step]; intros [= <-] _.
  - unfold handle_invite_failure. destruct (calls m !! id) eqn:Ec; [|done]. by apply wf_event, (wf_ended m id c).
  - unfold handle_bye. destruct (dialog_to_call m !! d) as [id|]; [|done]. destruct (calls m !! id) eqn:Ec; [|done].
    by apply wf_event, (wf_ended m id c).
  - unfold terminate_call. destruct (calls m !! id) as [c|] eqn:Ec; [|done]. destruct (negb _); [done|].
    eapply wf_put; [done|exact Ec|]. by apply keeps_set_state.
  - unfold answer_call. destruct (calls m !! id) as [c|] eqn:Ec; [|done]. destruct (ringing_inbound c) eqn:Er; [|done].
    apply wf_event, wf_answer; [done|done|]. unfold ringing_inbound in Er. apply andb_prop in Er as [Er _].
    by apply bool_decide_eq_true in Er.
  - unfold reject_call. destruct (calls m !! id) as [c|] eqn:Ec; [|done]. destruct (ringing_inbound c); [|done].
    by apply (wf_ended m id c).
Qed.

Lemma wf_snd {X : Type} (o : option (X * Mgr)) m' :
  (forall r m1, o = Some (r, m1) -> manager_wf m1) -> snd <$> o = Some m' -> manager_wf m'.
Proof. intros Ho. destruct o as [[r m1]|]; [|done]. intros [= <-]. by apply (Ho r). Qed.

Lemma wf_routing m id f :
  manager_wf m -> (forall d, cd_id (f d) = cd_id d) -> manager_wf (on_call id (on_dialog f) m).
Proof. intros W Hf. apply wf_on_call; [done|]. intros. by apply keeps_on_dialog. Qed.

Lemma step_wf op m m' : manager_wf m -> allowed op m -> step op m = Some m' -> manager_wf m'.
Proof.
  intros W Ha E. destruct op; try (by eapply wf_ending; [exact W|exact E|exact I]).
  - cbn in E. injection E as <-.
    apply (wf_new_call m (new_outbound uuid (call_config m) remote_uri)); try done. by intros [?|?].
  - destruct Ha as [Hu Hd]. eapply wf_incoming; [exact W|exact Hu|exact Hd|exact E].
  - destruct Ha as [Hu Hd]. eapply wf_accept; [exact W|exact Hd|exact E].
  - injection E as <-. by apply wf_reject_invite.
  - injection E as <-. by apply wf_build_answer.
  - eapply wf_success; [exact W|exact Ha|exact E].
  - injection E as <-. by apply wf_provisional.
  - injection E as <-. apply wf_provisional. destruct (is_some _); [|done]. apply wf_routing; [done|]. intros. apply cd_id_uac.
  - injection E as <-. apply wf_routing; [done|]. intros. apply cd_id_uas.
  - revert E. apply wf_snd. intros ? ?. by apply wf_reliable.
  - injection E as <-. apply wf_on_call; [done|]. intros. apply keeps_set_timer.
  - revert E. apply wf_snd. intros ? ?. by apply wf_inbound_update.
  - injection E as <-. unfold slide_deadlines_for_dialog. destruct (_ !! d); [by apply wf_slide|done].
  - injection E as <-. unfold mark_in_dialog_2xx. destruct method; (done || by apply wf_slide).
  - injection E as <-. apply wf_on_call; [done|]. intros c _. destruct c. by split.
  - injection E as <-. apply wf_on_call; [done|]. intros c _. destruct c. by split.
  - injection E as <-. destruct W as [H1 H2 H3]. split; try done. intros j c Ec. by destruct (H1 j c Ec).
  - by eapply wf_fire_all.
  - injection E as <-. by apply wf_remove.
  - injection E as <-. destruct W as [H1 H2 H3]. split; try done. intros j c Ec. by destruct (H1 j c Ec).
Qed.

(** C28: what holds of the call manager after every run that does not panic, on the conditions of [allowed]:
    identifiers of new calls are new, a dialog is given to one call only, an INVITE is answered for a call of
    ours, and a further 2xx for an established call is of the dialog it has or brings media that can be set up
    (otherwise the call cannot be found any more, [call_lost]).  No call has both of its deadlines armed, and
    an armed one has its session interval; a call has a media session exactly when it negotiated media; every
    established call and every inbound call is found under its dialog, and no two calls share a dialog; and when the
    port range is not empty and ends below 65534 ([ports_ok]; otherwise the ports wrap, [port_wraps]), the next RTP
    port is in the range and of the parity of its start. *)
Theorem call_manager_invariant config ops m :
  allowed_run ops (cm_new config) -> run ops (cm_new config) = Some m -> manager_wf m.
Proof.
  assert (manager_wf (cm_new (ip := ip) config)) as W.
  { split; cbn; try done. intros [[? ?] ?]. lia. }
  revert W. generalize (cm_new (ip := ip) config). induction ops as [|op ops IH]; intros m0 W Ha; cbn [run]; [by intros [= <-]|].
  destruct Ha as [Ha Hr]. destruct (step op m0) as [m1|] eqn:E; [|done]. cbn [mbind option_bind].
  apply IH; [by eapply step_wf|done].
Qed.

End Invariant.

(** ** Witness *)

(** Alice calls Bob, the session is refreshed once, she takes a call from Carol and both end. *)
Definition busy_morning (offer : SessionDescription) : list (Op (ip := quad)) :=
  let r := mkDraw 1 2 3 0 in
  let alice := cd_new_uac #"call-1" #"a" #"b" #"sip:alice@192.168.1.1:5060" #"sip:bob@192.168.1.2:5060" 1 in
  let carol := cd_new_uas #"call-2" #"c" #"d" #"sip:alice@192.168.1.1:5060" #"sip:carol@192.168.1.3:5060" 1 in
  [OCreate #"c1" #"sip:bob@192.168.1.2:5060"; OProvisional #"c1" r true (Some offer);
   OSuccess #"c1" r alice offer None 0; OAcceptTimer #"c1" (1800 * SEC) SipHeaders.Uas 0;
   OTick (900 * SEC) (fun _ => mkFire #"x" #"y" 1) [ #"c1"];
   OIncoming #"c2" r carol offer; OAnswer #"c2"; OBye (cd_id carol); ORemove #"c2"].

Lemma call_manager_invariant_witness :
  exists m, run to_ascii_uppercase (busy_morning held_offer) (cm_new default_manager_config) = Some m /\
    manager_wf m /\ next_rtp_port m = 10006 /\ length (pending_outbound m) = 1%nat.
Proof.
  destruct (run to_ascii_uppercase (busy_morning held_offer) (cm_new default_manager_config)) as [m|] eqn:E.
  - exists m. split; [reflexivity|]. split.
    + assert (bool_decide (allowed_run to_ascii_uppercase (busy_morning held_offer) (cm_new default_manager_config)) = true) as Ha
        by (vm_compute; reflexivity).
      exact (call_manager_invariant to_ascii_uppercase default_manager_config (busy_morning held_offer) m
        (proj1 (bool_decide_eq_true _) Ha) E).
    + apply (f_equal (option_map (fun m => (next_rtp_port m, length (pending_outbound m))))) in E.
      vm_compute in E. injection E as E1 E2.
      split; [exact (eq_sym E1)|exact (eq_sym E2)].
  - apply (f_equal is_some) in E. vm_compute in E. discriminate E.
Defined.

(** ** Examples *)

Definition media_port (id : str) (m : CallManager (ip := quad)) : option Z :=
  let* c := calls m !! id in ms_local_port <$> c_media c.

(** The early media session and the final one of a call are bound to different ports. *)
Example two_ports_for_one_call :
  (option_map (media_port #"c1") (run to_ascii_uppercase (firstn 2 (busy_morning held_offer)) (cm_new default_manager_config)),
   option_map (media_port #"c1") (run to_ascii_uppercase (firstn 3 (busy_morning held_offer)) (cm_new default_manager_config))) =
  (Some (Some 10000), Some (Some 10002)).
Proof. vm_compute. reflexivity. Qed.

(** A late 180 takes an established call back. *)
Example late_ringing :
  let m := run to_ascii_uppercase (firstn 3 (busy_morning held_offer) ++ [OProvisional #"c1" (mkDraw 1 2 3 0) false None])
             (cm_new default_manager_config) in
  option_map (fun m => option_map c_state (calls m !! #"c1")) m = Some (Some Ringing).
Proof. vm_compute. reflexivity. Qed.

(** A second 2xx of another dialog whose codec cannot be set up takes the dialog of an established call away: the
    call is not found under the dialog it has. *)
Example call_lost :
  let alice := cd_new_uac #"call-1" #"a" #"b" #"sip:alice@192.168.1.1:5060" #"sip:bob@192.168.1.2:5060" 1 in
  let other := cd_new_uac #"call-1" #"a" #"z" #"sip:alice@192.168.1.1:5060" #"sip:bob@192.168.1.2:5060" 1 in
  let unknown := held_offer <| media := [Sdp.mkMedia Audio 5000 None #"RTP/AVP" [ #"97"] None ∅ [mkAttr #"rtpmap" (Some #"97 X/8000")]] |> in
  option_map (fun m => let c := calls m !! #"c1" in
      (c_state <$> c, bool_decide (default None (dialog_id <$> c) = Some (cd_id other)), dialog_to_call m !! cd_id other))
    (run to_ascii_uppercase [OCreate #"c1" #"sip:bob@192.168.1.2:5060"; OSuccess #"c1" (mkDraw 1 2 3 0) alice held_offer None 0;
       OSuccess #"c1" (mkDraw 1 2 3 0) other unknown None 0] (cm_new (ip := quad) default_manager_config)) =
  Some (Some Established, true, None).
Proof. vm_compute. reflexivity. Qed.

(** The last port of the range of all ports is followed by port 0. *)
Example port_wraps :
  let m := cm_new (ip := quad) (mkManagerConfig #"" #"" 65534 65535 default_call_config) in
  (allocate_rtp_port (allocate_rtp_port m).2).1 = 0.
Proof. vm_compute. reflexivity. Qed.

(** A frame of G.722 moves the RTP clock of 8000 Hz by 40 ms. *)
Example g722_clock :
  match media_for_negotiated (ip := quad) (mkDraw 1 2 0 0) g722 10000 with
  | Ok m => (RtpPacket.timestamp <$> (match (encode_audio (repeat 0 320) false (encode_audio (repeat 0 320) false m).2).1 with
                                      | Ok p => Some p | Err _ => None end), SdpAnswer.clock_rate g722)
  | Err _ => (None, 0)
  end = (Some 320, 8000).
Proof. vm_compute. reflexivity. Qed.
