(* ===== verification/SessionTimer.v ===== *)
(** * Session timers of the call manager ([session/manager.rs], RFC 4028)

    What [tick] does to every call and which requests it queues, that it never panics on
    calls whose dialogs can be addressed, that a second tick at the same instant does
    nothing, and that a session refreshed in time by one manager is never ended by the
    expiry timer of the other. *)

From S2P Require Import Prelude RStr SipBase SipHeader SipUri SipTyped SipHeaders SipMessage SipBuild Dialog DialogManager RtpSession IceCandidate Sdp SdpAnswer AudioCodec Call CallManager.

Local Open Scope Z_scope.

(** ** What can be sent in a dialog *)

Definition uri_ok (s : str) : Prop := is_ok (uri_parse s) = true.

(** A dialog whose requests can be built. *)
Record sendable (d : CallDialog) : Prop := {
  sd_local : uri_ok (cd_local_uri d);
  sd_remote : uri_ok (cd_remote_uri d);
  sd_target : cd_remote_target d = [] \/ uri_ok (cd_remote_target d);
  sd_routes : Z.of_nat (length (routes (cd_route_set d))) <= 200;
  sd_cseq : 0 <= cd_local_cseq d
}.

Lemma uri_ok_inv s : uri_ok s -> exists u, uri_parse s = Ok u.
Proof. unfold uri_ok. destruct (uri_parse s) as [u|]; [by exists u|done]. Qed.

Lemma target_ok d : sendable d -> uri_ok (remote_target (dialog_info_of d)).
Proof. intros [_ Hr Ht _ _]. simpl. destruct (cd_remote_target d) eqn:E; [done|]. by destruct Ht. Qed.

Lemma to_invite_sendable d :
  sendable d -> exists inv, to_invite_dialog d = Some inv /\ info inv = dialog_info_of d.
Proof.
  intros [Hl Hr _ _ _]. destruct (uri_ok_inv _ Hl) as [l El], (uri_ok_inv _ Hr) as [r Er].
  unfold to_invite_dialog, from_dialog_info. cbn [remote_uri local_uri dialog_info_of].
  unfold rq_uri, rq_from, rq_to. rewrite El, Er.
  erewrite req_build_total; [|reflexivity..|vm_compute; discriminate]. cbn [rok mbind option_bind]. by eexists.
Qed.

(** A builder with the common fields of the dialog builds, whatever headers are added. *)
Lemma in_dialog_build d (m : Method) n uuid b :
  sendable d -> core (dialog_info_of d) m n uuid b ->
  q_uri_error b = false -> q_from_uri_error b = false -> q_to_uri_error b = false ->
  is_some (q_uri b) = true -> is_some (q_from_uri b) = true -> is_some (q_to_uri b) = true ->
  (default [] (q_routes b) = routes (cd_route_set d)) -> (length (q_other_headers b) <= 1)%nat ->
  exists r, req_build b = Ok r.
Proof.
  intros Hd [H1 H2 H3 H4 H5 H6 H7 H8 H9 H10 H11 H12] E1 E2 E3 S1 S2 S3 Hro Hoth.
  destruct (q_uri b) as [u|] eqn:Eu; [|done]. destruct (q_from_uri b) as [fu|] eqn:Ef; [|done].
  destruct (q_to_uri b) as [tu|] eqn:Et; [|done]. eexists.
  eapply req_build_total; try done; try eassumption. rewrite Hro. pose proof (sd_routes d Hd). lia.
Qed.

(** The fields [in_dialog_build] asks for. *)
Record buildable (rs : list str) (k : nat) (b : ReqBuilder) : Prop := {
  bu_errors : q_uri_error b = false /\ q_from_uri_error b = false /\ q_to_uri_error b = false;
  bu_uris : is_some (q_uri b) = true /\ is_some (q_from_uri b) = true /\ is_some (q_to_uri b) = true;
  bu_routes : default [] (q_routes b) = rs;
  bu_other : length (q_other_headers b) = k
}.

Lemma in_dialog_buildable d m n u : sendable d -> buildable [] 0 (in_dialog_builder (dialog_info_of d) m n u).
Proof.
  intros Hd. destruct (uri_ok_inv _ (sd_local d Hd)) as [l El], (uri_ok_inv _ (sd_remote d Hd)) as [r Er],
    (uri_ok_inv _ (target_ok d Hd)) as [t Et].
  unfold in_dialog_builder, rq_uri, rq_from, rq_to. rewrite Et. cbn [remote_uri local_uri dialog_info_of].
  rewrite El, Er. by split.
Qed.

Lemma buildable_route rs b : buildable [] 0 b -> buildable rs 0 (rq_route rs b).
Proof. intros [? ? ? ?]. split; try done. by destruct rs. Qed.

Lemma buildable_contact i rs k b : buildable rs k b -> buildable rs k (with_contact i b).
Proof.
  intros [? ? ? ?]. unfold with_contact, rq_contact. destruct (is_empty _); [done|].
  by destruct (uri_parse _); split.
Qed.

Lemma buildable_builds d m n uuid rs k b :
  sendable d -> core (dialog_info_of d) m n uuid b -> buildable rs k b -> rs = routes (cd_route_set d) -> (k <= 1)%nat ->
  exists r, req_build b = Ok r.
Proof.
  intros Hd C [(? & ? & ?) (? & ? & ?) Hr Ho] -> Hk. eapply in_dialog_build; try eassumption. by rewrite Ho.
Qed.

(** The next number of a dialog. *)
Definition next_num (d : CallDialog) : Z := wrap 32 (cd_local_cseq d + 1).

Lemma session_expires_read se rf : 0 <= se <= u32_max -> rf = SipHeaders.Uac ->
  SessionExpires.parse (trim (SessionExpires.to_header_value (SessionExpires.mk se (Some rf)))) =
  Ok (SessionExpires.mk se (Some rf)).
Proof.
  intros Hse ->. unfold SessionExpires.to_header_value. cbn [SessionExpires.refresher SessionExpires.delta_seconds].
  assert (trim (dec se ++ #";refresher=" ++ refresher_to_string SipHeaders.Uac) =
    dec se ++ #";refresher=" ++ refresher_to_string SipHeaders.Uac) as Ht.
  { apply trim_all_tok. apply Forall_app. split; [apply dec_tok; lia|]. by repeat constructor. }
  unfold SessionExpires.parse. rewrite !Ht. change (#";refresher=" ++ ?x) with (";"%char :: #"refresher=" ++ x).
  rewrite split_once_app.
  - rewrite trim_all_tok, parse_dec by (done || (apply dec_tok; lia)). by vm_compute.
  - intros Hin. pose proof (dec_digits se ltac:(lia)) as F. rewrite Forall_forall in F.
    by apply list_elem_of_In, F in Hin.
Qed.

Lemma request_session_expires b m fu tu ft cid vh vb n body se :
  q_session_expires b = Some se ->
  find_other_header (request_headers b m fu tu ft cid vh vb n body) #"Session-Expires" =
  Some (trim (SessionExpires.to_header_value se)).
Proof.
  intros E. unfold find_other_header, first_of, request_headers. rewrite E.
  destruct (q_contact_uri b), (q_authorization b), (q_proxy_authorization b), (q_expires b), (q_require b), (q_supported b);
    reflexivity.
Qed.

(** What every request of the manager carries. *)
Definition in_dialog_request (d : CallDialog) (m : Method) (r : Request) : Prop :=
  req_method r = m /\ req_call_id r = Ok (d_call_id (cd_id d)) /\
  Headers.get_first_value (r_headers r) #"CSeq" = Some (dec (next_num d) ++ #" " ++ method_to_string m) /\
  length (omap as_via (r_headers r)) = 1%nat.

Lemma built_request d m b r :
  q_method b = Some (method_to_parser m) -> q_call_id b = Some (d_call_id (cd_id d)) -> q_cseq b = Some (next_num d) ->
  req_build b = Ok r -> in_dialog_request d m r.
Proof.
  intros Hm Hc Hn Er.
  destruct (req_build_ok _ _ Er) as (m' & u & fu & ft & tu & cid & n & vh & vb & Em & _ & _ & _ & _ & Ecid & En & _ & _ & -> & _).
  rewrite Hm in Em. rewrite Hc in Ecid. rewrite Hn in En.
  apply (inj Some) in Em, Ecid, En. subst m' cid n. unfold in_dialog_request, req_method. cbn [r_method].
  rewrite method_from_to_parser. split; [done|]. split; [done|]. split; [|apply request_headers_via].
  unfold cseq_value. cbn [r_headers]. unfold Headers.get_first_value, request_headers, cseq_value. cbn.
  by rewrite method_from_to_parser.
Qed.

Lemma built_in_dialog d m uuid b r :
  core (dialog_info_of d) m (next_num d) uuid b -> req_build b = Ok r -> in_dialog_request d m r.
Proof.
  intros C. apply built_request; [by eapply core_method|by eapply (core_call_id _ _ _ _ _ C)|by eapply core_cseq].
Qed.

(** The BYE of an expired session. *)
Lemma expiry_bye_built d uuid inv :
  sendable d -> cd_local_cseq d + 1 < 2 ^ 32 -> to_invite_dialog d = Some inv -> info inv = dialog_info_of d ->
  exists r inv', build_bye_with_reason expiry_reason uuid inv = (Some r, inv') /\ in_dialog_request d Bye r.
Proof.
  intros Hd Hn Ei Einfo. pose proof (sd_cseq d Hd).
  assert (next_num d = cd_local_cseq d + 1) as En by (apply wrap_small; unfold in_width; lia).
  unfold build_bye_with_reason, build_in_dialog_request_with. rewrite Einfo.
  rewrite bool_decide_true by done. cbn [negb]. change (local_seq (dialog_info_of d)) with (cd_local_cseq d).
  rewrite Z.min_r by (unfold u32_max; lia). rewrite <- En.
  set (b := add_headers _ _).
  assert (core (dialog_info_of d) Bye (next_num d) uuid b) as C
    by (apply core_headers, core_contact, core_route, in_dialog_core).
  assert (buildable (routes (cd_route_set d)) 1 b) as B.
  { destruct (buildable_contact (dialog_info_of d) _ _ _ (buildable_route (routes (cd_route_set d)) _
      (in_dialog_buildable d Bye (next_num d) uuid Hd))) as [B1 B2 B3 B4]. subst b.
    split; try done. cbn [add_headers fold_left rq_header q_other_headers set]. rewrite length_app.
    change (route_set (dialog_info_of d)) with (cd_route_set d). rewrite B4. done. }
  destruct (buildable_builds d Bye (next_num d) uuid _ _ b Hd C B eq_refl ltac:(lia)) as [r Er].
  rewrite Er. cbn [rok]. eexists _, _. split; [reflexivity|]. by eapply built_in_dialog.
Qed.

(** A builder that carries the interval of the session puts it on the request. *)
Lemma built_session_expires b r secs :
  q_session_expires b = Some (SessionExpires.mk secs (Some SipHeaders.Uac)) -> 0 <= secs <= u32_max ->
  req_build b = Ok r -> hs_session_expires (r_headers r) = Some (SessionExpires.mk secs (Some SipHeaders.Uac)).
Proof.
  intros Eb Hs Er.
  destruct (req_build_ok _ _ Er) as (m & u & fu & ft & tu & cid & n & vh & vb & _ & _ & _ & _ & _ & _ & _ & _ & _ & -> & _).
  unfold hs_session_expires. cbn [r_headers].
  rewrite (request_session_expires b _ _ _ _ _ _ _ _ _ (SessionExpires.mk secs (Some SipHeaders.Uac)) Eb).
  cbn [or_else mbind option_bind]. by rewrite session_expires_read.
Qed.

(** The UPDATE of a session refresh. *)
Lemma update_built d secs uuid :
  sendable d -> 0 <= secs <= u32_max ->
  exists inv r inv', to_invite_dialog d = Some inv /\ build_update (Some secs) uuid inv = Some (r, inv') /\
    in_dialog_request d Update r /\
    hs_session_expires (r_headers r) = Some (SessionExpires.mk secs (Some SipHeaders.Uac)).
Proof.
  intros Hd Hs. destruct (to_invite_sendable d Hd) as (inv & Ei & Einfo).
  exists inv.
  set (i := (dialog_info_of d) <| local_seq := next_num d |>).
  set (b := rq_supported [ #"timer"] (rq_session_expires secs (Some SipHeaders.Uac)
    (with_contact i (rq_route (routes (route_set i)) (rq_allow allow_set (in_dialog_builder i Update (next_num d) uuid)))))).
  assert (build_update (Some secs) uuid inv = let* r := rok (req_build b) in Some (r, inv <| info := i |>)) as E
    by (unfold build_update; by rewrite Einfo).
  assert (core (dialog_info_of d) Update (next_num d) uuid b) as C.
  { apply core_timer, (core_info i (dialog_info_of d)); [done|done|done|].
    apply core_contact, core_route, core_allow, in_dialog_core. }
  assert (buildable (routes (cd_route_set d)) 0 b) as B.
  { destruct (buildable_contact i _ _ _ (buildable_route (routes (cd_route_set d)) _
      (in_dialog_buildable d Update (next_num d) uuid Hd))) as [B1 B2 B3 B4]. subst b.
    unfold with_contact, rq_contact in *. destruct (is_empty _); [by split|]. destruct (uri_parse _); by split. }
  destruct (buildable_builds d Update (next_num d) uuid _ _ b Hd C B eq_refl ltac:(lia)) as [r Er].
  rewrite Er in E. exists r, (inv <| info := i |>). split; [done|]. split; [done|].
  split; [by eapply built_in_dialog|]. eapply built_session_expires; [|exact Hs|exact Er].
  subst b; unfold with_contact, rq_contact; destruct (is_empty _); [done|]; by destruct (uri_parse _).
Qed.

(** The re-INVITE of a session refresh: it goes out from the media address, the rest is that of
    the dialog. *)
Lemma reinvite_built d rtp_addr se uuid body :
  sendable d ->
  exists r, req_build (reinvite_builder rtp_addr (dialog_info_of d) (next_num d) se uuid body) = Ok r /\
    in_dialog_request d Invite r /\
    hs_session_expires (r_headers r) = Some (SessionExpires.mk (wrap 32 (se / SEC)) (Some SipHeaders.Uac)).
Proof.
  intros Hd. destruct (uri_ok_inv _ (sd_local d Hd)) as [l El], (uri_ok_inv _ (sd_remote d Hd)) as [rm Er],
    (uri_ok_inv _ (target_ok d Hd)) as [t Et].
  set (b := reinvite_builder _ _ _ _ _ _).
  assert (q_uri_error b = false /\ q_from_uri_error b = false /\ q_to_uri_error b = false /\
    q_method b = Some (method_to_parser Invite) /\ q_uri b = Some t /\ q_from_uri b = Some l /\
    q_from_tag b = Some (d_local_tag (cd_id d)) /\ q_to_uri b = Some rm /\ q_call_id b = Some (d_call_id (cd_id d)) /\
    q_cseq b = Some (next_num d) /\ q_via_host b = Some rtp_addr /\ q_via_branch b = Some (branch_of uuid) /\
    default [] (q_routes b) = routes (cd_route_set d) /\ q_other_headers b = [] /\
    q_session_expires b = Some (SessionExpires.mk (wrap 32 (se / SEC)) (Some SipHeaders.Uac)))
    as (E1 & E2 & E3 & E4 & E5 & E6 & E7 & E8 & E9 & E10 & E11 & E12 & Ero & Eo & Ese).
  { subst b. unfold reinvite_builder, rq_uri, rq_from, rq_to. cbv zeta.
    replace (if is_empty (remote_target (dialog_info_of d)) then _ else _) with (remote_target (dialog_info_of d))
      by (cbn [remote_target dialog_info_of remote_uri]; by destruct (cd_remote_target d), (cd_remote_uri d)).
    rewrite Et. cbn [remote_uri local_uri dialog_info_of]. rewrite El, Er.
    unfold rq_contact. destruct (is_empty _); [|destruct (uri_parse (local_contact _))]; destruct body;
      repeat apply conj; try reflexivity; change (route_set (dialog_info_of d)) with (cd_route_set d);
      destruct (routes (cd_route_set d)); reflexivity. }
  pose proof (req_build_total b _ _ _ _ _ _ _ _ _ E1 E2 E3 E4 E5 E6 E7 E8 E9 E10 E11 E12) as B.
  rewrite Ero, Eo in B. pose proof (sd_routes d Hd). specialize (B ltac:(cbn [length]; lia)).
  eexists. split; [exact B|]. split; [by eapply built_request|].
  eapply built_session_expires; [exact Ese| |exact B]. pose proof (wrap_range 32 (se / SEC) ltac:(lia)). unfold in_width, u32_max in *. lia.
Qed.

(** ** What a tick does to one call *)

Lemma flat_map_other {X Y : Type} `{EqDecision X} (x : X) (a : list Y) (f : X -> list Y) l :
  x ∉ l -> flat_map f l = flat_map (fun y => if bool_decide (y = x) then a else f y) l.
Proof.
  induction l as [|y l IH]; [done|]. intros Hn. apply not_elem_of_cons in Hn as [Hy Hn]. cbn.
  rewrite bool_decide_false by congruence. by rewrite IH.
Qed.

Section Timers.
Context {ip : Type} `{!IpAddr ip} `{CodecImpls}.
Variable to_uppercase : str -> str.

#[local] Abbreviation CallT := (Call (ip := ip)).
#[local] Abbreviation Mgr := (CallManager (ip := ip)).

(** A call whose timers can fire [n] times: an armed timer has its interval, and the dialog
    can be addressed and has [n] numbers left. *)
Record timer_ok (n : Z) (c : CallT) : Prop := {
  to_dialog : forall d, c_dialog c = Some d -> sendable d /\ cd_local_cseq d + n < 2 ^ 32;
  to_armed : is_some (refresh_at c) || is_some (expiry_at c) = true -> is_some (session_expires c) = true;
  to_one : is_some (refresh_at c) && is_some (expiry_at c) = false;
  to_range : forall se, session_expires c = Some se -> 0 <= se < 2 ^ 32 * SEC
}.

Definition bump (d : CallDialog) : CallDialog := d <| cd_local_cseq := cd_local_cseq d + 1 |>.

(** The call after its refresh went out, and after its session expired. *)
Definition refreshed (now : Z) (d : CallDialog) (se : Z) (c : CallT) : CallT :=
  (c <| c_dialog := Some (bump d) |>) <| refresh_at := Some (now + se / 2) |>.

Definition expired (d : CallDialog) (c : CallT) : CallT :=
  set_state Terminating ((c <| c_dialog := Some (bump d) |>) <| expiry_at := None |>).

Definition refresh_request (d : CallDialog) (m : Method) (se : Z) (r : Request) : Prop :=
  in_dialog_request d m r /\
  hs_session_expires (r_headers r) = Some (SessionExpires.mk (se / SEC) (Some SipHeaders.Uac)).

(** The effect of a tick on an established call, with the requests and events it queues. *)
Inductive fired (now : Z) (id : str) (c : CallT) : CallT -> list OutboundRequest -> list ManagerEvent -> Prop :=
| fired_nothing :
    refresh_due now c = false -> expiry_due now c && is_some (c_dialog c) = false -> fired now id c c [] []
| fired_update d se r :
    refresh_due now c = true -> update_unsupported c = false ->
    c_dialog c = Some d -> session_expires c = Some se -> refresh_request d Update se r ->
    fired now id c (refreshed now d se c) [mkOutbound id r SessionTimerUpdate] []
| fired_reinvite d se r :
    refresh_due now c = true -> update_unsupported c = true ->
    c_dialog c = Some d -> session_expires c = Some se -> refresh_request d Invite se r ->
    fired now id c (refreshed now d se c) [mkOutbound id r SessionTimerReInvite] []
| fired_bye d r :
    expiry_due now c = true -> c_dialog c = Some d -> in_dialog_request d Bye r ->
    fired now id c (expired d c) [mkOutbound id r SessionTimerExpiryBye] [CallStateChanged id Terminating].

(** An order in which a map can yield its keys. *)
Definition iterates {X : Type} (order : list str) (cs : gmap str X) : Prop :=
  NoDup order /\ forall id, id ∈ order <-> is_Some (cs !! id).

(** The manager with the effect recorded. *)
Definition commit (id : str) (c : CallT) (out : list OutboundRequest) (ev : list ManagerEvent) (m : Mgr) : Mgr :=
  mkCM (m_config m) (call_config m) (<[id := c]> (calls m)) (dialog_to_call m) (next_rtp_port m)
    (m_events m ++ ev) (pending_outbound m ++ out).

Lemma commit_nothing id c m : calls m !! id = Some c -> commit id c [] [] m = m.
Proof. intros E. destruct m. unfold commit. cbn in *. by rewrite insert_id, !app_nil_r. Qed.

Lemma wrap_secs se : 0 <= se < 2 ^ 32 * SEC -> wrap 32 (se / SEC) = se / SEC /\ 0 <= se / SEC <= u32_max.
Proof.
  intros Hr. assert (0 <= se / SEC < 2 ^ 32) as Hd.
  { unfold SEC in *. split; [apply Z.div_pos; lia|apply Z.div_lt_upper_bound; lia]. }
  split; [apply wrap_small; unfold in_width; lia|unfold u32_max; lia].
Qed.

Lemma next_cseq_bump d : 0 <= cd_local_cseq d -> cd_local_cseq d + 1 < 2 ^ 32 -> next_cseq d = (next_num d, bump d).
Proof.
  intros H0 H1. unfold next_cseq, next_num, bump. by rewrite wrap_small by (unfold in_width; lia).
Qed.

Lemma due_call now (c : CallT) : refresh_due now c = true -> is_some (refresh_at c) = true /\ is_some (c_dialog c) = true.
Proof. unfold refresh_due. destruct (refresh_at c), (c_dialog c); try done; rewrite ?andb_false_r; done. Qed.

(** The manager after a request of the call was built. *)
Definition bumped (id : str) (d : CallDialog) (c : CallT) (m : Mgr) : Mgr :=
  put_call id (c <| c_dialog := Some (bump d) |>) m.

Lemma update_sent u id c d se (m : Mgr) :
  calls m !! id = Some c -> timer_ok 1 c -> c_dialog c = Some d -> session_expires c = Some se ->
  exists q, build_update_request id u m = Some (Some q, bumped id d c m) /\ refresh_request d Update se q.
Proof.
  intros Ec Ht Ed Ese. destruct (to_dialog 1 c Ht d Ed) as [Hs Hn].
  destruct (wrap_secs se (to_range 1 c Ht se Ese)) as [Ew Hw].
  destruct (update_built d (se / SEC) u Hs Hw) as (inv & q & inv' & Ei & Eq & Hq1 & Hq2).
  exists q. split; [|done]. unfold build_update_request. rewrite Ec, Ese, Ed, Ew, Ei. cbn [mbind option_bind].
  rewrite Eq. cbn [mbind option_bind]. by rewrite (next_cseq_bump d (sd_cseq d Hs) Hn).
Qed.

Lemma reinvite_sent u id c d se body (m : Mgr) :
  calls m !! id = Some c -> timer_ok 1 c -> c_dialog c = Some d -> session_expires c = Some se ->
  exists q, build_reinvite_refresh_request id u body m = Some (Some q, bumped id d c m) /\ refresh_request d Invite se q.
Proof.
  intros Ec Ht Ed Ese. destruct (to_dialog 1 c Ht d Ed) as [Hs Hn].
  destruct (wrap_secs se (to_range 1 c Ht se Ese)) as [Ew Hw].
  destruct (to_invite_sendable d Hs) as (inv & Ei & Einfo).
  destruct (reinvite_built d (local_rtp_addr (m_config m)) se u body Hs) as (q & Eq & Hq1 & Hq2). rewrite Ew in Hq2.
  exists q. split; [|done]. unfold build_reinvite_refresh_request. rewrite Ec, Ese, Ed, Ei. cbn [mbind option_bind].
  rewrite (next_cseq_bump d (sd_cseq d Hs) Hn), Einfo. cbv beta iota.
  change (m_config (put_call _ _ m)) with (m_config m). by rewrite Eq.
Qed.

Lemma bye_sent u id c d (m : Mgr) :
  calls m !! id = Some c -> timer_ok 1 c -> c_dialog c = Some d ->
  exists q, build_expiry_bye_request id u m = Some (Some q, bumped id d c m) /\ in_dialog_request d Bye q.
Proof.
  intros Ec Ht Ed. destruct (to_dialog 1 c Ht d Ed) as [Hs Hn].
  destruct (to_invite_sendable d Hs) as (inv & Ei & Einfo).
  destruct (expiry_bye_built d u inv Hs Hn Ei Einfo) as (q & inv' & Eq & Hq).
  exists q. split; [|done]. unfold build_expiry_bye_request. rewrite Ec, Ed, Ei. cbn [mbind option_bind].
  rewrite Eq. by rewrite (next_cseq_bump d (sd_cseq d Hs) Hn).
Qed.

Lemma on_bumped id f d c (m : Mgr) : on_call id f (bumped id d c m) = put_call id (f (c <| c_dialog := Some (bump d) |>)) m.
Proof.
  unfold on_call, bumped, put_call. destruct m. cbn. by rewrite lookup_insert_eq, insert_insert_eq.
Qed.

Lemma outbound_put q id c (m : Mgr) : outbound q (put_call id c m) = commit id c [q] [] m.
Proof. destruct m. unfold outbound, put_call, commit. cbn. by rewrite app_nil_r. Qed.

Lemma refresh_effect now r id c (m : Mgr) :
  calls m !! id = Some c -> timer_ok 1 c -> refresh_due now c = true ->
  exists d se q k, maybe_fire_refresh to_uppercase now r id m =
      Some (commit id (refreshed now d se c) [mkOutbound id q k] [] m) /\
    fired now id c (refreshed now d se c) [mkOutbound id q k] [].
Proof.
  intros Ec Ht Hdue. destruct (due_call _ _ Hdue) as [Hr Hd].
  destruct (c_dialog c) as [d|] eqn:Ed; [|done].
  assert (is_some (session_expires c) = true) as Hse by (apply (to_armed 1 c Ht); by rewrite Hr).
  destruct (session_expires c) as [se|] eqn:Ese; [|done].
  unfold maybe_fire_refresh. rewrite Ec, Hdue. cbn [negb]. exists d, se.
  destruct (update_unsupported c) eqn:Eu; cbn [negb].
  - destruct (reinvite_sent (f_refresh r) id c d se (build_refresh_invite_sdp to_uppercase id (f_sdp r) m) m Ec Ht Ed Ese)
      as (q & -> & Hq).
    exists q, SessionTimerReInvite. split; [|exact (fired_reinvite now id c d se q Hdue Eu Ed Ese Hq)]. 
    cbn [mbind option_bind]. rewrite on_bumped.
    cbv beta. change (session_expires (set c_dialog _ c)) with (session_expires c). by rewrite Ese, outbound_put.
  - destruct (update_sent (f_refresh r) id c d se m Ec Ht Ed Ese) as (q & -> & Hq).
    exists q, SessionTimerUpdate. split; [|exact (fired_update now id c d se q Hdue Eu Ed Ese Hq)]. 
    cbn [mbind option_bind]. rewrite on_bumped.
    cbv beta. change (session_expires (set c_dialog _ c)) with (session_expires c). by rewrite Ese, outbound_put.
Qed.

Lemma expiry_effect now r id c d (m : Mgr) :
  calls m !! id = Some c -> timer_ok 1 c -> expiry_due now c = true -> c_dialog c = Some d ->
  exists q, maybe_fire_expiry_bye now r id m =
      Some (commit id (expired d c) [mkOutbound id q SessionTimerExpiryBye] [CallStateChanged id Terminating] m) /\
    in_dialog_request d Bye q.
Proof.
  intros Ec Ht Hdue Ed. destruct (bye_sent (f_bye r) id c d m Ec Ht Ed) as (q & E & Hq). exists q. split; [|done].
  unfold maybe_fire_expiry_bye. rewrite Ec, Hdue. cbn [negb]. rewrite E. cbn [mbind option_bind]. by rewrite on_bumped.
Qed.

(** Both checks of one call. *)
Lemma fire_one now r id c (m : Mgr) :
  calls m !! id = Some c -> timer_ok 1 c ->
  exists c' out ev, fired now id c c' out ev /\
    (let* m := maybe_fire_refresh to_uppercase now r id m in maybe_fire_expiry_bye now r id m) =
    Some (commit id c' out ev m).
Proof.
  intros Ec Ht. destruct (refresh_due now c) eqn:Hr.
  - destruct (refresh_effect now r id c m Ec Ht Hr) as (d & se & q & k & -> & Hf). eexists _, _, _. split; [exact Hf|].
    cbn [mbind option_bind]. unfold maybe_fire_expiry_bye. cbn [commit calls]. rewrite lookup_insert_eq.
    assert (expiry_due now (refreshed now d se c) = false) as ->; [|done].
    pose proof (to_one 1 c Ht) as Ho. destruct (due_call _ _ Hr) as [Ha _]. rewrite Ha in Ho.
    change (expiry_due now c = false). unfold expiry_due. by destruct (expiry_at c).
  - assert (maybe_fire_refresh to_uppercase now r id m = Some m) as ->
      by (unfold maybe_fire_refresh; by rewrite Ec, Hr).
    cbn [mbind option_bind]. destruct (expiry_due now c) eqn:He; [destruct (c_dialog c) as [d|] eqn:Ed|].
    + destruct (expiry_effect now r id c d m Ec Ht He Ed) as (q & -> & Hq).
      eexists _, _, _. split; [exact (fired_bye now id c d q He Ed Hq)|done].
    + exists c, [], []. split; [apply fired_nothing; [done|by rewrite Ed, He]|]. rewrite commit_nothing by done.
      unfold maybe_fire_expiry_bye, build_expiry_bye_request. by rewrite Ec, He, Ed.
    + exists c, [], []. split; [apply fired_nothing; [done|by rewrite He]|]. rewrite commit_nothing by done.
      unfold maybe_fire_expiry_bye. by rewrite Ec, He.
Qed.

(** The manager with the effects of several calls recorded, each call once. *)
Lemma fire_all_effect now r ids (m : Mgr) :
  NoDup ids -> (forall id, id ∈ ids -> exists c, calls m !! id = Some c /\ timer_ok 1 c) ->
  exists m' out ev, fire_all to_uppercase now r ids m = Some m' /\
    m_config m' = m_config m /\ call_config m' = call_config m /\ dialog_to_call m' = dialog_to_call m /\ next_rtp_port m' = next_rtp_port m /\
    (forall id, id ∉ ids -> calls m' !! id = calls m !! id) /\
    (forall id c, id ∈ ids -> calls m !! id = Some c ->
       exists c', calls m' !! id = Some c' /\ fired now id c c' (out id) (ev id)) /\
    pending_outbound m' = pending_outbound m ++ flat_map out ids /\ m_events m' = m_events m ++ flat_map ev ids.
Proof.
  revert m. induction ids as [|id ids IH]; intros m Hnd Hok.
  { exists m, (fun _ => []), (fun _ => []). cbn. rewrite !app_nil_r. split_and!; try done. intros id c Hin. by apply elem_of_nil in Hin. }
  apply NoDup_cons in Hnd as [Hni Hnd]. destruct (Hok id) as (c & Ec & Ht); [by left|].
  destruct (fire_one now (r id) id c m Ec Ht) as (c1 & o1 & e1 & Hf & Eone).
  assert (forall j, j ∈ ids -> calls (commit id c1 o1 e1 m) !! j = calls m !! j) as Hother
    by (intros j Hj; cbn; rewrite lookup_insert_ne; [done|set_solver]).
  destruct (IH (commit id c1 o1 e1 m) Hnd) as (m' & out & ev & E & H1 & H1' & H2 & H3 & H4 & H5 & H6 & H7).
  { intros j Hj. rewrite Hother by done. apply Hok. by right. }
  exists m', (fun j => if bool_decide (j = id) then o1 else out j), (fun j => if bool_decide (j = id) then e1 else ev j).
  split; [|split_and!; try done].
  - cbn [fire_all]. destruct (maybe_fire_refresh _ _ _ _ _); [|done]. cbn [mbind option_bind] in *. by rewrite Eone.
  - intros j Hj. rewrite H4 by set_solver. cbn. rewrite lookup_insert_ne; [done|set_solver].
  - intros j cj Hj Ej. destruct (decide (j = id)) as [->|Hne].
    + exists c1. rewrite H4 by done. cbn. rewrite lookup_insert_eq, !bool_decide_true by done. split; [done|].
      rewrite Ec in Ej. apply (inj Some) in Ej. by subst cj.
    + rewrite !bool_decide_false by done. assert (j ∈ ids) as Hj' by set_solver. apply H5; [done|]. by rewrite Hother.
  - rewrite H6. cbn. rewrite <- app_assoc, bool_decide_true by done. do 2 f_equal. by apply flat_map_other.
  - rewrite H7. cbn. rewrite <- app_assoc, bool_decide_true by done. do 2 f_equal. by apply flat_map_other.
Qed.

(** Nothing of a call is due. *)
Definition quiet (now : Z) (c : CallT) : bool :=
  negb (refresh_due now c) && negb (expiry_due now c && is_some (c_dialog c)).

Lemma fire_quiet now r ids (m : Mgr) :
  (forall id c, id ∈ ids -> calls m !! id = Some c -> quiet now c = true) ->
  fire_all to_uppercase now r ids m = Some m.
Proof.
  intros Hq. induction ids as [|id ids IH]; [done|]. cbn [fire_all].
  assert (maybe_fire_refresh to_uppercase now (r id) id m = Some m /\ maybe_fire_expiry_bye now (r id) id m = Some m)
    as [-> E].
  { unfold maybe_fire_refresh, maybe_fire_expiry_bye, build_expiry_bye_request.
    destruct (calls m !! id) as [c|] eqn:Ec; [|done].
    destruct (andb_prop _ _ (Hq id c ltac:(left) Ec)) as [H1 H2]. apply negb_true_iff in H1, H2. rewrite H1.
    destruct (expiry_due now c); [|done]. by destruct (c_dialog c). }
  cbn [mbind option_bind]. rewrite E. cbn [mbind option_bind]. apply IH. intros j c Hj. apply Hq. by right.
Qed.

Lemma fired_quiet now id c c' out ev :
  fired now id c c' out ev -> timer_ok 1 c -> (forall se, session_expires c = Some se -> 2 <= se) ->
  c_state c' = Established -> quiet now c' = true.
Proof.
  intros Hf Ht Hse He.
  assert (forall d se, refresh_due now c = true -> session_expires c = Some se -> quiet now (refreshed now d se c) = true)
    as Hr.
  { intros d se Hdue Ese. destruct (due_call _ _ Hdue) as [Hra _]. pose proof (to_one 1 c Ht) as Ho. rewrite Hra in Ho.
    unfold quiet, refresh_due, expiry_due, refreshed. cbn. destruct (expiry_at c); [done|].
    rewrite (proj2 (Z.leb_gt _ _)); [done|]. pose proof (Z.div_le_lower_bound se 2 1 ltac:(lia)). specialize (Hse _ Ese). lia. }
  destruct Hf as [H1 H2|d se q Hdue _ _ Ese _|d se q Hdue _ _ Ese _|d q Hdue Ed _]; [|by apply Hr..|].
  - unfold quiet. by rewrite H1, H2.
  - unfold expired, set_state in He. cbn in He. destruct (bool_decide _) eqn:Eb in He; cbn in He; [|done].
    apply bool_decide_eq_true in Eb. congruence.
Qed.

Lemma established_inv (m : Mgr) id :
  established m id = true -> exists c, calls m !! id = Some c /\ c_state c = Established.
Proof.
  unfold established. destruct (calls m !! id) as [c|]; [|done]. intros He. apply bool_decide_eq_true in He. by exists c.
Qed.

(** The next deadline is the deadline of an established call. *)
Lemma next_deadline_inv (m : Mgr) t :
  next_deadline m = Some t ->
  exists id c, calls m !! id = Some c /\ c_state c = Established /\ call_deadline c = Some t.
Proof.
  unfold next_deadline. revert t.
  apply (map_fold_weak_ind (fun (o : option Z) (cs : gmap str CallT) =>
    forall t, o = Some t -> exists id c, cs !! id = Some c /\ c_state c = Established /\ call_deadline c = Some t));
    [done|].
  intros id c cs o Hn IH t Ht.
  assert (forall t, o = Some t -> exists id' c', <[id:=c]> cs !! id' = Some c' /\ c_state c' = Established /\
    call_deadline c' = Some t) as IH'.
  { intros t' Ho. destruct (IH t' Ho) as (id' & c' & E & ?). exists id', c'. rewrite lookup_insert_ne; [done|congruence]. }
  destruct (bool_decide (c_state c = Established)) eqn:Eb; [|by apply IH']. apply bool_decide_eq_true in Eb.
  unfold min_opt in Ht. destruct (call_deadline c) as [x|] eqn:Ex; [|by apply IH'].
  assert (t = x \/ o = Some t) as [->|Ho].
  { destruct o as [y|]; apply (inj Some) in Ht; [|by left]. destruct (Z.min_spec x y) as [[_ E]|[_ E]]; [left|right; f_equal]; congruence. }
  - exists id, c. by rewrite lookup_insert_eq.
  - by apply IH'.
Qed.

(** A call that is quiet, has its dialog and no request in flight is due only later. *)
Lemma quiet_deadline now c t :
  quiet now c = true -> is_some (c_dialog c) = true -> uac_in_flight c = false -> call_deadline c = Some t -> now < t.
Proof.
  unfold quiet, refresh_due, expiry_due, call_deadline. intros Hq Hd Hf. rewrite Hd, Hf in Hq. revert Hq.
  destruct (refresh_at c) as [a|], (expiry_at c) as [b|]; cbn; rewrite ?andb_true_r; intros Hq Ht; try done;
    apply (inj Some) in Ht; try apply andb_prop in Hq as [Hq1 Hq2];
    repeat match goal with Hx : negb (_ <=? _) = true |- _ => apply negb_true_iff, Z.leb_gt in Hx end; lia.
Qed.

Lemma tick_effect now r order (m : Mgr) :
  iterates order (calls m) ->
  (forall id c, calls m !! id = Some c -> c_state c = Established -> timer_ok 1 c) ->
  let ids := filter (fun id => established m id = true) order in
  exists m' out ev, tick to_uppercase now r order m = Some m' /\
    m_config m' = m_config m /\ call_config m' = call_config m /\ dialog_to_call m' = dialog_to_call m /\
    next_rtp_port m' = next_rtp_port m /\
    (forall id, established m id = false -> calls m' !! id = calls m !! id) /\
    (forall id c, calls m !! id = Some c -> c_state c = Established ->
       exists c', calls m' !! id = Some c' /\ fired now id c c' (out id) (ev id)) /\
    pending_outbound m' = pending_outbound m ++ flat_map out ids /\ m_events m' = m_events m ++ flat_map ev ids.
Proof.
  intros [Hnd0 Hkeys] Ht ids.
  assert (NoDup ids) as Hnd by (by apply NoDup_filter).
  assert (forall id, id ∈ ids -> exists c, calls m !! id = Some c /\ c_state c = Established) as Hin.
  { intros id Hid. apply list_elem_of_filter in Hid as [He _]. by apply established_inv. }
  destruct (fire_all_effect now r ids m Hnd) as (m' & out & ev & E & H1 & H1' & H2 & H3 & H4 & H5 & H6 & H7).
  { intros id Hid. destruct (Hin id Hid) as (c & Ec & Es). exists c. split; [done|]. by apply (Ht id). }
  exists m', out, ev. split; [exact E|]. split_and!; try done.
  - intros id He. apply H4. intros Hid. destruct (Hin id Hid) as (c & Ec & Es). unfold established in He. rewrite Ec in He.
    by rewrite bool_decide_true in He.
  - intros id c Ec Es. apply H5; [|done]. apply list_elem_of_filter. split; [|apply Hkeys; by eexists].
    unfold established. rewrite Ec. by apply bool_decide_eq_true.
Qed.

(** C29: a tick of the call manager never panics on calls whose dialogs can be addressed.  It
    treats every established call on its own, exactly once, in the order in which the map
    yields them, and leaves everything else alone: a call whose refresh is due gets an UPDATE
    (a re-INVITE when the peer refused UPDATE) that carries the dialog's Call-ID, its next
    CSeq number and the session interval, and the next refresh half an interval later; a call
    whose session expired gets a BYE and starts terminating, which is reported; every other
    call is unchanged.  When no session interval is zero (no half of it: in nanoseconds at least 2), a second tick
    at the same instant changes nothing, and unless a request of an established call is in flight the next
    deadline lies in the future; with an interval of zero, which a 2xx can bring, every tick sends again
    ([zero_interval_floods]). *)
Theorem session_timer_tick now r order (m : Mgr) :
  iterates order (calls m) ->
  (forall id c, calls m !! id = Some c -> c_state c = Established -> timer_ok 1 c) ->
  let ids := filter (fun id => established m id = true) order in
  exists m' out ev, tick to_uppercase now r order m = Some m' /\
    m_config m' = m_config m /\ call_config m' = call_config m /\ dialog_to_call m' = dialog_to_call m /\ next_rtp_port m' = next_rtp_port m /\
    (forall id, established m id = false -> calls m' !! id = calls m !! id) /\
    (forall id c, calls m !! id = Some c -> c_state c = Established ->
       exists c', calls m' !! id = Some c' /\ fired now id c c' (out id) (ev id)) /\
    pending_outbound m' = pending_outbound m ++ flat_map out ids /\ m_events m' = m_events m ++ flat_map ev ids /\
    ((forall id c se, calls m !! id = Some c -> session_expires c = Some se -> 2 <= se) ->
     (forall r' order', tick to_uppercase now r' order' m' = Some m') /\
     ((forall id c, calls m' !! id = Some c -> c_state c = Established ->
         is_some (c_dialog c) = true /\ uac_in_flight c = false) ->
      forall t, next_deadline m' = Some t -> now < t)).
Proof.
  intros Hord Ht ids.
  destruct (tick_effect now r order m Hord Ht) as (m' & out & ev & E & H1 & H2 & H3 & H4 & Hsame & H5 & H6 & H7).
  exists m', out, ev. split; [exact E|]. split_and!; try done. intros Hse.
  assert (forall id c, calls m' !! id = Some c -> c_state c = Established -> quiet now c = true) as Hq.
  { intros id c' Ec' Es'. destruct (established m id) eqn:He.
    - destruct (established_inv m id He) as (c & Ec & Es). destruct (H5 id c Ec Es) as (c2 & Ec2 & Hf).
      rewrite Ec' in Ec2. apply (inj Some) in Ec2. subst c2. eapply fired_quiet; eauto.
    - rewrite (Hsame id He) in Ec'. unfold established in He. rewrite Ec' in He. by rewrite bool_decide_true in He. }
  split.
  - intros r' order'. apply fire_quiet. intros id c Hid Ec. apply list_elem_of_filter in Hid as [He _].
    destruct (established_inv m' id He) as (c2 & Ec2 & Es2). rewrite Ec in Ec2. apply (inj Some) in Ec2. subst c2.
    by apply (Hq id).
  - intros Hfl t Hn. destruct (next_deadline_inv m' t Hn) as (id & c & Ec & Es & Hd). destruct (Hfl id c Ec Es).
    by eapply quiet_deadline; [eapply Hq| | |].
Qed.

End Timers.

(** ** Witness *)

Definition sample_dialog (local remote tag1 tag2 : str) : CallDialog :=
  set_local_contact local (cd_new_uac #"call-1" tag1 tag2 local remote 1).

Definition alice_dialog : CallDialog :=
  sample_dialog #"sip:alice@192.168.1.1:5060" #"sip:bob@192.168.1.2:5060" #"a" #"b".

Definition bob_dialog : CallDialog :=
  sample_dialog #"sip:bob@192.168.1.2:5060" #"sip:alice@192.168.1.1:5060" #"b" #"a".

(** An established call with a session of half an hour, refreshed by us or by the peer. *)
Definition timed_call (id : str) (d : CallDialog) (we_refresh : bool) : Call (ip := quad) :=
  set_timer (1800 * SEC) (if we_refresh then SipHeaders.Uac else SipHeaders.Uas) we_refresh 0
    (handle_answer (set_dialog d (new_outbound id default_call_config (cd_remote_uri d)))).

Definition two_calls : CallManager (ip := quad) :=
  put_call #"c2" (timed_call #"c2" bob_dialog false)
    (put_call #"c1" (timed_call #"c1" alice_dialog true) (cm_new default_manager_config)).

Definition some_draws (id : str) : fire_draw := mkFire (id ++ #"r") (id ++ #"b") 7.

Lemma sendable_sample (d : CallDialog) :
  is_ok (uri_parse (cd_local_uri d)) && is_ok (uri_parse (cd_remote_uri d)) && is_empty (cd_remote_target d) &&
  (Z.of_nat (length (routes (cd_route_set d))) <=? 200) && (0 <=? cd_local_cseq d) = true -> sendable d.
Proof.
  rewrite !andb_true_iff, !Z.leb_le. intros [[[[H1 H2] H3] H4] H5]. split; try done. left. by destruct (cd_remote_target d).
Qed.

Lemma timed_call_ok id d b n :
  sendable d -> cd_local_cseq d + n < 2 ^ 32 -> timer_ok n (timed_call id d b).
Proof.
  intros Hs Hn. split.
  - intros d' E. assert (d = d') as <- by (destruct b; cbn in E; by apply (inj Some) in E). done.
  - intros _. by destruct b.
  - by destruct b.
  - intros se E. assert (se = 1800 * SEC) as -> by (destruct b; cbn in E; by apply (inj Some) in E). unfold SEC. lia.
Qed.

Lemma session_timer_tick_witness :
  exists m' out ev, tick to_ascii_uppercase (1800 * SEC) some_draws [ #"c1"; #"c2"] two_calls = Some m' /\
    pending_outbound m' = out #"c1" ++ out #"c2" /\ m_events m' = ev #"c1" ++ ev #"c2" /\
    (exists c', fired (1800 * SEC) #"c1" (timed_call #"c1" alice_dialog true) c' (out #"c1") (ev #"c1")) /\
    (exists c', fired (1800 * SEC) #"c2" (timed_call #"c2" bob_dialog false) c' (out #"c2") (ev #"c2")) /\
    tick to_ascii_uppercase (1800 * SEC) some_draws [ #"c2"; #"c1"] m' = Some m'.
Proof.
  assert (forall id c, calls two_calls !! id = Some c ->
    (id = #"c1" /\ c = timed_call #"c1" alice_dialog true) \/ (id = #"c2" /\ c = timed_call #"c2" bob_dialog false)) as Hc.
  { intros id c E. unfold two_calls, put_call, cm_new in E. cbn [calls set] in E.
    apply lookup_insert_Some in E as [[<- <-]|[_ E]]; [by right|].
    apply lookup_insert_Some in E as [[<- <-]|[_ E]]; [by left|]. by rewrite lookup_empty in E. }
  destruct (session_timer_tick to_ascii_uppercase (1800 * SEC) some_draws [ #"c1"; #"c2"] two_calls)
    as (m' & out & ev & E & _ & _ & _ & _ & _ & Hf & Hp & He & Hi).
  - split; [apply (bool_decide_unpack _); vm_compute; exact I|]. intros id. split.
    + intros Hid. repeat (apply elem_of_cons in Hid as [->|Hid]; [by eexists|]). by apply elem_of_nil in Hid.
    + intros [c Ec]. destruct (Hc id c Ec) as [[-> _]|[-> _]]; set_solver.
  - intros id c Ec _. destruct (Hc id c Ec) as [[_ ->]|[_ ->]]; apply timed_call_ok;
      [apply sendable_sample; vm_compute; reflexivity|vm_compute; reflexivity| apply sendable_sample; vm_compute; reflexivity|vm_compute; reflexivity].
  - exists m', out, ev. split; [exact E|].
    assert (filter (fun id => established two_calls id = true) [ #"c1"; #"c2"] = [ #"c1"; #"c2"]) as El
      by (vm_compute; reflexivity).
    rewrite El in Hp, He. cbn [flat_map] in Hp, He. rewrite app_nil_r in Hp, He.
    split; [exact Hp|]. split; [exact He|].
    split; [destruct (Hf #"c1" (timed_call #"c1" alice_dialog true)) as (c' & _ & F); try (vm_compute; reflexivity); by exists c'|].
    split; [destruct (Hf #"c2" (timed_call #"c2" bob_dialog false)) as (c' & _ & F); try (vm_compute; reflexivity); by exists c'|].
    apply Hi. intros id c se Ec Ese. destruct (Hc id c Ec) as [[_ ->]|[_ ->]]; cbn in Ese; apply (inj Some) in Ese; subst se; unfold SEC; lia.
Defined.

(** ** Examples *)

Definition one_timed_call (f : Call (ip := quad) -> Call (ip := quad)) : CallManager (ip := quad) :=
  put_call #"c1" (f (timed_call #"c1" alice_dialog true)) (cm_new default_manager_config).

(** While a request is in flight an overdue refresh keeps the next deadline in the past. *)
Example in_flight_deadline_past :
  let m := one_timed_call (fun c => c <| uac_in_flight := true |>) in
  (let* m := tick to_ascii_uppercase (1000 * SEC) some_draws [ #"c1"] m in next_deadline m) = Some (900 * SEC).
Proof. vm_compute. reflexivity. Qed.

(** A session interval of zero makes every tick send a refresh. *)
Example zero_interval_floods :
  let m := one_timed_call (set_timer 0 SipHeaders.Uac true 5) in
  (let* m := tick to_ascii_uppercase 5 some_draws [ #"c1"] m in
   let* m := tick to_ascii_uppercase 5 some_draws [ #"c1"] m in Some (map ob_kind (pending_outbound m))) =
  Some [SessionTimerUpdate; SessionTimerUpdate].
Proof. vm_compute. reflexivity. Qed.

(** The re-INVITE of a call without media goes out without a session description. *)
Example reinvite_without_sdp :
  let m := one_timed_call (fun c => c <| update_unsupported := true |>) in
  (let* m := tick to_ascii_uppercase (1000 * SEC) some_draws [ #"c1"] m in
   Some (map (fun q => (ob_kind q, r_body (ob_request q))) (pending_outbound m))) = Some [(SessionTimerReInvite, [])].
Proof. vm_compute. reflexivity. Qed.
