(* ===== verification/SessionRefresh.v ===== *)
(** * A refreshed session survives ([session/manager.rs])

    Two call managers joined by one session: the refreshing side ticks and sends its UPDATE,
    the other side ticks, answers it, and the answer comes back.  As long as every exchange
    takes its time within a bound, neither side ends the call. *)

From S2P Require Import Prelude RStr SipBase SipHeader SipUri SipTyped SipHeaders SipMessage SipBuild Dialog DialogManager RtpSession IceCandidate Sdp SdpAnswer AudioCodec Call CallManager SessionTimer.

Local Open Scope Z_scope.

Section Refresh.
Context {ip : Type} `{!IpAddr ip} `{CodecImpls}.
Variable to_uppercase : str -> str.

#[local] Abbreviation CallT := (Call (ip := ip)).
#[local] Abbreviation Mgr := (CallManager (ip := ip)).

(** ** The peer's answer *)

Lemma update_answered r inv :
  length (omap as_via (r_headers r)) = 1%nat ->
  exists resp, handle_update r inv = Some resp /\ resp_status_code resp = 200.
Proof.
  intros Hv. unfold handle_update.
  set (b := match hs_session_expires _ with Some _ => _ | None => _ end).
  assert (s_status_code b = Some 200 /\ length (s_via b) = 1%nat) as [Es Ev].
  { subst b. unfold rs_contact.
    destruct (hs_session_expires _), (is_empty _); try (by split); destruct (uri_parse _); by split. }
  destruct (resp_build_total b 200 Es ltac:(lia)) as [resp E]. exists resp. rewrite E. split; [done|].
  destruct (resp_build_ok _ _ E) as (c & Ec & <- & _). rewrite Es in Ec. by apply (inj Some) in Ec.
Qed.

(** The peer's call after the UPDATE. *)
Definition kept (now se : Z) (c : CallT) : CallT :=
  (c <| session_expires := Some se |>) <| expiry_at := Some (now + se) |>.

Lemma slide_kept now se (c : CallT) :
  is_some (expiry_at c) = true -> refresh_at c = None ->
  slide_deadlines now (c <| session_expires := Some se |>) = kept now se c.
Proof.
  intros He Hr. destruct c. cbn in He, Hr. subst. unfold slide_deadlines, kept. cbn.
  match goal with |- context [is_some ?x] => by destruct x end.
Qed.

(** The dialog's UPDATE slides the peer's deadline. *)
Lemma inbound_update_slides db ib (m : Mgr) cb eb d r secs now :
  dialog_to_call m !! db = Some ib -> calls m !! ib = Some cb -> expiry_at cb = Some eb -> refresh_at cb = None ->
  c_dialog cb = Some d -> sendable d -> cf_min_se (call_config m) / SEC <= secs ->
  hs_session_expires (r_headers r) = Some (SessionExpires.mk secs (Some SipHeaders.Uac)) ->
  length (omap as_via (r_headers r)) = 1%nat ->
  exists resp, handle_inbound_update db r now m =
    Some (Some resp, put_call ib (kept now (secs * SEC) cb) m) /\
    resp_status_code resp = 200.
Proof.
  intros Ei Ec Ee Er Ed Hd Hmin Hse Hv.
  destruct (to_invite_sendable d Hd) as (inv & Einv & _). destruct (update_answered r inv Hv) as (resp & Eu & Hr).
  exists resp. split; [|done]. unfold handle_inbound_update. rewrite Ei, Ec, Hse. cbn [fmap option_fmap option_map].
  cbn [SessionExpires.delta_seconds]. rewrite (proj2 (Z.ltb_ge _ _)) by done.
  rewrite slide_kept by (done || by rewrite Ee). change (c_dialog (kept _ _ _)) with (c_dialog cb).
  rewrite Ed, Einv. cbn [mbind option_bind]. by rewrite Eu.
Qed.

(** ** Timers that go on firing *)

Lemma timer_ok_mono n k c : k <= n -> timer_ok n c -> timer_ok (ip := ip) k c.
Proof. intros Hk [H1 H2 H3 H4]. split; try done. intros d Ed. destruct (H1 d Ed). split; [done|lia]. Qed.

Lemma sendable_bump d : sendable d -> sendable (bump d).
Proof. intros [H1 H2 H3 H4 H5]. split; try done. cbn. lia. Qed.

(** A tick uses at most one number of a call's dialog. *)
Lemma fired_timer_ok now id n (c c' : CallT) out ev :
  fired now id c c' out ev -> timer_ok (n + 1) c -> c_state c' = Established -> timer_ok n c'.
Proof.
  intros Hf Ht Hs.
  assert (forall d se, c_dialog c = Some d -> session_expires c = Some se -> refresh_due now c = true ->
    timer_ok n (refreshed now d se c)) as Hr.
  { intros d se Ed Ese Hdue. destruct Ht as [H1 H2 H3 H4]. destruct (H1 d Ed) as [Hd Hn].
    destruct (due_call _ _ Hdue) as [Hra _]. split; try done.
    - intros d' E. apply (inj Some) in E. subst d'. split; [by apply sendable_bump|]. cbn. lia.
    - intros _. change (is_some (session_expires c) = true). by rewrite Ese.
    - rewrite Hra in H3. done. }
  destruct Hf as [H1 H2|d se q Hdue _ Ed Ese _|d se q Hdue _ Ed Ese _|d q Hdue Ed _].
  - by apply (timer_ok_mono (n + 1)); [lia|].
  - by apply Hr.
  - by apply Hr.
  - unfold expired, set_state in Hs. cbn in Hs. destruct (bool_decide _) eqn:Eb in Hs; cbn in Hs; [|done].
    apply bool_decide_eq_true in Eb. congruence.
Qed.

(** The calls of a manager whose timers have [n] ticks left. *)
Definition all_timers (n : Z) (m : Mgr) : Prop :=
  forall id c, calls m !! id = Some c -> c_state c = Established -> timer_ok n c.

Definition for_call (id : str) (out : list OutboundRequest) : list OutboundRequest :=
  filter (fun q => ob_call_id q = id) out.

Lemma fired_out_id now id (c c' : CallT) out ev :
  fired now id c c' out ev -> for_call id out = out /\ forall j, j <> id -> for_call j out = [].
Proof.
  intros Hf. destruct Hf; (split; [|intros j Hj]); try done; unfold for_call; cbn;
    by (rewrite decide_True by done) || (rewrite decide_False by done).
Qed.

Lemma for_call_flat_map id ids (out : str -> list OutboundRequest) :
  NoDup ids -> (forall j, j ∈ ids -> for_call j (out j) = out j /\ forall k, k <> j -> for_call k (out j) = []) ->
  for_call id (flat_map out ids) = if decide (id ∈ ids) then out id else [].
Proof.
  intros Hnd Hout. induction ids as [|j ids IH]; [done|]. apply NoDup_cons in Hnd as [Hj Hnd]. cbn [flat_map].
  unfold for_call. rewrite filter_app. fold (for_call id (out j)). fold (for_call id (flat_map out ids)).
  rewrite IH by (done || intros; apply Hout; by right). destruct (Hout j ltac:(left)) as [Hs Ho].
  destruct (decide (id = j)) as [->|Hne].
  - rewrite Hs, decide_False, decide_True, app_nil_r by (done || by left). done.
  - rewrite Ho by done. cbn [app]. by destruct (decide (id ∈ ids)), (decide (id ∈ j :: ids)); try done; set_solver.
Qed.

(** A tick as one call of the manager sees it. *)
Lemma tick_call now r order n (m : Mgr) :
  iterates order (calls m) -> 0 <= n -> all_timers (n + 1) m ->
  exists m', tick to_uppercase now r order m = Some m' /\
    call_config m' = call_config m /\ dialog_to_call m' = dialog_to_call m /\
    iterates order (calls m') /\ all_timers n m' /\
    forall id c, calls m !! id = Some c -> c_state c = Established ->
      exists c' out ev, calls m' !! id = Some c' /\ fired now id c c' out ev /\
        for_call id (pending_outbound m') = for_call id (pending_outbound m) ++ out.
Proof.
  intros Hord Hn Ht. set (ids := filter (fun id => established m id = true) order).
  destruct (tick_effect to_uppercase now r order m Hord) as (m' & out & ev & E & _ & Hc & Hd & _ & Hsame & Hf & Hp & _).
  { intros id c Ec Es. apply (timer_ok_mono (n + 1)); [lia|]. by apply (Ht id). }
  fold ids in Hp. exists m'. split; [exact E|]. split; [exact Hc|]. split; [exact Hd|].
  assert (forall id, is_Some (calls m' !! id) <-> is_Some (calls m !! id)) as Hdom.
  { intros id. destruct (established m id) eqn:He; [|by rewrite Hsame].
    destruct (established_inv m id He) as (c & Ec & Es). destruct (Hf id c Ec Es) as (c' & -> & _). rewrite Ec. by split. }
  split; [|split].
  - destruct Hord as [Hnd Hk]. split; [done|]. intros id. by rewrite Hdom.
  - intros id c' Ec' Es'. destruct (established m id) eqn:He.
    + destruct (established_inv m id He) as (c & Ec & Es). destruct (Hf id c Ec Es) as (c2 & Ec2 & F).
      rewrite Ec' in Ec2. apply (inj Some) in Ec2. subst c2. by eapply fired_timer_ok; [exact F|apply (Ht id)|].
    + rewrite Hsame in Ec' by done. unfold established in He. rewrite Ec' in He. by rewrite bool_decide_true in He.
  - intros id c Ec Es. destruct (Hf id c Ec Es) as (c' & Ec' & F). exists c', (out id), (ev id).
    split; [done|]. split; [done|]. rewrite Hp. unfold for_call at 1. rewrite filter_app. f_equal.
    change (for_call id (flat_map out ids) = out id). rewrite for_call_flat_map.
    + rewrite decide_True; [done|]. apply list_elem_of_filter. split; [|apply Hord; by eexists].
      unfold established. rewrite Ec. by apply bool_decide_eq_true.
    + apply NoDup_filter, Hord.
    + intros j Hj. apply list_elem_of_filter in Hj as [He _]. destruct (established_inv m j He) as (cj & Ecj & Esj).
      destruct (Hf j cj Ecj Esj) as (cj' & _ & Fj). by eapply fired_out_id.
Qed.

(** ** One exchange *)

(** The instants of an exchange (the tick, the arrival of the UPDATE, the arrival of the
    answer) and what the two ticks read: random values and the orders of the maps. *)
Record round : Type := mkRound {
  rd_send : Z;
  rd_arrive : Z;
  rd_answer : Z;
  rd_draws : str -> fire_draw;
  rd_peer_draws : str -> fire_draw
}.

Section Exchange.
(** The two ends of the session, and the orders in which the two maps yield their keys. *)
Variables (ia ib : str) (db : DialogId) (order peer_order : list str).

(** The refreshing manager ticks and its queue is sent; at the arrival the peer ticks first
    (the worst moment for its deadline) and then answers; [None] if anything fails. *)
Definition play_round (rd : round) (ms : Mgr * Mgr) : option (Mgr * Mgr) :=
  let '(a, b) := ms in
  let* a := tick to_uppercase (rd_send rd) (rd_draws rd) order a in
  let '(out, a) := drain_outbound_requests a in
  let* b := tick to_uppercase (rd_arrive rd) (rd_peer_draws rd) peer_order b in
  match for_call ia out with
  | [q] =>
      let* (resp, b) := handle_inbound_update db (ob_request q) (rd_arrive rd) b in
      let* resp := resp in
      if resp_status_code resp =? 200 then Some (mark_in_dialog_2xx ia Update (rd_answer rd) a, b) else None
  | _ => None
  end.

Fixpoint play (rds : list round) (ms : Mgr * Mgr) : option (Mgr * Mgr) :=
  match rds with
  | [] => Some ms
  | rd :: rds => let* ms := play_round rd ms in play rds ms
  end.

(** The refresh is sent at most [slack] late and the round trip takes at most [rtt];
    [se] is the session interval and [ra] the first refresh. *)
Fixpoint timely (slack rtt se ra : Z) (rds : list round) : Prop :=
  match rds with
  | [] => True
  | rd :: rds =>
      (ra <= rd_send rd <= ra + slack /\ rd_send rd <= rd_arrive rd <= rd_answer rd /\
       rd_answer rd <= rd_send rd + rtt) /\
      timely slack rtt se (rd_answer rd + se / 2) rds
  end.

(** The next refresh after the exchanges. *)
Fixpoint due_after (se ra : Z) (rds : list round) : Z :=
  match rds with
  | [] => ra
  | rd :: rds => due_after se (rd_answer rd + se / 2) rds
  end.

(** The end that refreshes: an established call of the interval [secs], due at [ra], in a
    manager whose timers can fire [n] times. *)
Record refresher_up (secs n ra : Z) (m : Mgr) : Prop := {
  ru_call : exists c, calls m !! ia = Some c /\ c_state c = Established /\
    session_expires c = Some (secs * SEC) /\ refresh_at c = Some ra /\ uac_in_flight c = false /\
    update_unsupported c = false /\ is_some (c_dialog c) = true;
  ru_timers : all_timers n m;
  ru_order : iterates order (calls m);
  ru_queue : for_call ia (pending_outbound m) = []
}.

(** The end that waits: an established call, found under its dialog, that expires after
    [lim]; nothing was sent for it. *)
Record peer_up (secs n lim : Z) (m : Mgr) : Prop := {
  pu_call : exists c eb, calls m !! ib = Some c /\ c_state c = Established /\
    expiry_at c = Some eb /\ is_some (c_dialog c) = true /\ lim < eb;
  pu_index : dialog_to_call m !! db = Some ib;
  pu_min : cf_min_se (call_config m) / SEC <= secs;
  pu_timers : all_timers n m;
  pu_order : iterates peer_order (calls m);
  pu_queue : for_call ib (pending_outbound m) = []
}.

Lemma refresher_fires t id n (c c' : CallT) out ev se ra :
  fired t id c c' out ev -> timer_ok n c -> session_expires c = Some se -> refresh_at c = Some ra -> ra <= t ->
  uac_in_flight c = false -> update_unsupported c = false -> is_some (c_dialog c) = true ->
  exists d r, c_dialog c = Some d /\ c' = refreshed t d se c /\ out = [mkOutbound id r SessionTimerUpdate] /\
    refresh_request d Update se r.
Proof.
  intros Hf Ht Ese Era Hle Hfl Hun Hd.
  assert (refresh_due t c = true) as Hdue.
  { unfold refresh_due. rewrite Era, Hfl, Hd. by rewrite (proj2 (Z.leb_le _ _)). }
  destruct Hf as [H1 _|d se' r _ _ Ed Ese' Hr|d se' r _ Hu _ _ _|d r He _ _]; [congruence| |congruence|].
  - rewrite Ese in Ese'. apply (inj Some) in Ese'. subst se'. by exists d, r.
  - pose proof (to_one n c Ht) as Ho. rewrite Era in Ho. unfold expiry_due in He. by destruct (expiry_at c).
Qed.

Lemma peer_idle t id n (c c' : CallT) out ev eb :
  fired t id c c' out ev -> timer_ok n c -> expiry_at c = Some eb -> t < eb -> c' = c /\ out = [].
Proof.
  intros Hf Ht Eeb Hlt. pose proof (to_one n c Ht) as Ho. rewrite Eeb, andb_true_r in Ho.
  destruct Hf as [|d se r Hdue|d se r Hdue|d r He]; [done|..].
  1,2: destruct (due_call _ _ Hdue) as [Hr _]; congruence.
  unfold expiry_due in He. rewrite Eeb in He. apply Z.leb_le in He. lia.
Qed.

Lemma put_timers n id (c : CallT) m : all_timers n m -> timer_ok n c -> all_timers n (put_call id c m).
Proof.
  intros Hm Hc j cj Ej Hs. cbn in Ej. apply lookup_insert_Some in Ej as [[_ <-]|[_ Ej]]; [done|by apply (Hm j)].
Qed.

Lemma put_iterates o id (c c0 : CallT) (m : Mgr) :
  calls m !! id = Some c0 -> iterates o (calls m) -> iterates o (calls (put_call id c m)).
Proof.
  intros E [Hnd Hk]. split; [done|]. intros j. rewrite Hk. cbn. destruct (decide (j = id)) as [->|Hne].
  - rewrite lookup_insert_eq, E. by split.
  - by rewrite lookup_insert_ne.
Qed.

(** The refresher when the answer to its UPDATE arrives. *)
Lemma answered_refresher t t3 n d se (c : CallT) ra :
  refresh_at c = Some ra -> session_expires c = Some se -> timer_ok n (refreshed t d se c) ->
  let c' := slide_deadlines t3 (refreshed t d se c) in
  c_state c' = c_state c /\ session_expires c' = Some se /\ refresh_at c' = Some (t3 + se / 2) /\
  uac_in_flight c' = uac_in_flight c /\ update_unsupported c' = update_unsupported c /\
  c_dialog c' = Some (bump d) /\ timer_ok n c'.
Proof.
  intros Era Ese [H1 H2 H3 H4]. destruct c. cbn in *. subst. unfold slide_deadlines. cbn.
  destruct expiry_at; [done|]. cbn. split_and!; try done.
Qed.

Lemma kept_timers n now se eb (c : CallT) :
  timer_ok n c -> expiry_at c = Some eb -> 0 <= se < 2 ^ 32 * SEC -> timer_ok n (kept now se c).
Proof.
  intros [H1 H2 H3 H4] Ee Hse. rewrite Ee, andb_true_r in H3. split; try done.
  - cbn. by rewrite H3.
  - intros se' E. apply (inj Some) in E. by subst se'.
Qed.

Lemma refresher_half secs n ra (m : Mgr) r t t3 :
  refresher_up secs (n + 1) ra m -> 0 <= n -> ra <= t ->
  exists m1 q d, tick to_uppercase t r order m = Some m1 /\
    for_call ia (pending_outbound m1) = [q] /\ refresh_request d Update (secs * SEC) (ob_request q) /\
    refresher_up secs n (t3 + secs * SEC / 2) (mark_in_dialog_2xx ia Update t3 (drain_outbound_requests m1).2).
Proof.
  intros [(c & Ec & Es & Ese & Era & Hfl & Hun & Hd) Ht Ho Hq] Hn Hle.
  destruct (tick_call t r order n m Ho Hn Ht) as (m1 & E & _ & _ & Ho1 & Ht1 & Hcall).
  destruct (Hcall ia c Ec Es) as (c1 & out & ev & Ec1 & Hf & Hout).
  destruct (refresher_fires t ia (n + 1) c c1 out ev (secs * SEC) ra Hf (Ht ia c Ec Es) Ese Era Hle Hfl Hun Hd)
    as (d & q & Ed & -> & -> & Hr).
  exists m1, (mkOutbound ia q SessionTimerUpdate), d. split; [exact E|].
  split; [by rewrite Hout, Hq|]. split; [exact Hr|].
  destruct (answered_refresher t t3 n d (secs * SEC) c ra Era Ese (Ht1 ia _ Ec1 Es)) as (A1 & A2 & A3 & A4 & A5 & A6 & A7).
  assert (mark_in_dialog_2xx ia Update t3 (drain_outbound_requests m1).2 =
    put_call ia (slide_deadlines t3 (refreshed t d (secs * SEC) c)) (drain_outbound_requests m1).2) as ->.
  { unfold mark_in_dialog_2xx, on_call. change (calls (drain_outbound_requests m1).2) with (calls m1). by rewrite Ec1. }
  split.
  - eexists. split; [apply lookup_insert_eq|]. split_and!; [congruence|done|done|congruence|congruence|by rewrite A6].
  - apply put_timers; [|done]. exact Ht1.
  - eapply put_iterates; [exact Ec1|exact Ho1].
  - done.
Qed.

Lemma peer_half secs n lim (m : Mgr) r t d q :
  peer_up secs (n + 1) lim m -> 0 <= n -> t <= lim -> 0 <= secs <= u32_max ->
  refresh_request d Update (secs * SEC) q ->
  exists m1 m2 resp, tick to_uppercase t r peer_order m = Some m1 /\
    handle_inbound_update db q t m1 = Some (Some resp, m2) /\ resp_status_code resp = 200 /\
    forall lim', lim' < t + secs * SEC -> peer_up secs n lim' m2.
Proof.
  intros [(c & eb & Ec & Es & Ee & Hd & Hlim) Hi Hmin Ht Ho Hq] Hn Hle Hsecs [(_ & _ & _ & Hvia) Hse].
  destruct (tick_call t r peer_order n m Ho Hn Ht) as (m1 & E & Hcfg & Hidx & Ho1 & Ht1 & Hcall).
  destruct (Hcall ib c Ec Es) as (c1 & out & ev & Ec1 & Hf & Hout).
  destruct (peer_idle t ib (n + 1) c c1 out ev eb Hf (Ht ib c Ec Es) Ee ltac:(lia)) as [-> ->].
  pose proof (Ht1 ib c Ec1 Es) as Hto. destruct (c_dialog c) as [dc|] eqn:Edc; [|done].
  assert (refresh_at c = None) as Hra.
  { pose proof (to_one n c Hto) as H1. rewrite Ee, andb_true_r in H1. by destruct (refresh_at c). }
  assert (secs * SEC / SEC = secs) as Ediv by (apply Z.div_mul; unfold SEC; lia). rewrite Ediv in Hse.
  destruct (inbound_update_slides db ib m1 c eb dc q secs t) as (resp & Eu & Hr); try done.
  { by rewrite Hidx. } { by apply (to_dialog n c Hto). } { by rewrite Hcfg. }
  exists m1, (put_call ib (kept t (secs * SEC) c) m1), resp. split; [exact E|]. split; [exact Eu|]. split; [exact Hr|].
  intros lim' Hlim'. split.
  - eexists _, _. split; [apply lookup_insert_eq|]. split; [exact Es|]. split; [reflexivity|]. split; [|exact Hlim'].
    change (c_dialog (kept _ _ _)) with (c_dialog c). by rewrite Edc.
  - cbn. by rewrite Hidx.
  - cbn. by rewrite Hcfg.
  - apply put_timers; [done|]. eapply kept_timers; [done|done|]. unfold u32_max, SEC in *. lia.
  - by eapply put_iterates.
  - change (for_call ib (pending_outbound m1) = []). by rewrite Hout, Hq.
Qed.

Lemma play_round_ok secs n ra slack rtt rd (a b : Mgr) :
  refresher_up secs (n + 1) ra a -> peer_up secs (n + 1) (ra + slack + rtt) b ->
  0 <= n -> 0 <= secs <= u32_max -> slack + 2 * rtt < secs * SEC / 2 ->
  ra <= rd_send rd <= ra + slack -> rd_send rd <= rd_arrive rd <= rd_answer rd -> rd_answer rd <= rd_send rd + rtt ->
  exists a' b', play_round rd (a, b) = Some (a', b') /\
    refresher_up secs n (rd_answer rd + secs * SEC / 2) a' /\
    peer_up secs n (rd_answer rd + secs * SEC / 2 + slack + rtt) b'.
Proof.
  intros Ha Hb Hn Hsecs Hgap Ht1 Ht2 Ht3.
  destruct (refresher_half secs n ra a (rd_draws rd) (rd_send rd) (rd_answer rd) Ha Hn ltac:(lia)) as (a1 & q & d & E1 & Eq & Hq & Ha').
  destruct (peer_half secs n (ra + slack + rtt) b (rd_peer_draws rd) (rd_arrive rd) d (ob_request q) Hb Hn ltac:(lia) Hsecs Hq)
    as (b1 & b2 & resp & E2 & E3 & Hr & Hb').
  eexists _, b2. split; [|split; [exact Ha'|]].
  - unfold play_round. rewrite E1. cbn [mbind option_bind drain_outbound_requests]. rewrite E2. cbn [mbind option_bind].
    rewrite Eq, E3. cbn [mbind option_bind]. by rewrite Hr.
  - apply Hb'. pose proof (Z.mul_div_le (secs * SEC) 2 ltac:(lia)). lia.
Qed.

(** C30: a session that is refreshed in time is not ended by its timers.  One manager refreshes
    the session of a call, due at [ra]; the manager of the peer ends the call at its deadline,
    which lies more than [slack + rtt] after that.  However often the two exchange the UPDATE
    and its answer, at most [slack] late and within a round trip of [rtt], where
    [slack + 2 rtt] is less than half the interval, every tick queues exactly one UPDATE for
    the call, the peer accepts it with 200 although it checks its own deadline first, both
    calls stay established with a refresh and a later deadline pending, and the peer never
    sends a request of its own for the call; other calls may run timers of their own. *)
Theorem refreshed_session_survives secs slack rtt ra rds (a b : Mgr) :
  refresher_up secs (Z.of_nat (length rds)) ra a ->
  peer_up secs (Z.of_nat (length rds)) (ra + slack + rtt) b ->
  0 <= secs <= u32_max -> slack + 2 * rtt < secs * SEC / 2 ->
  timely slack rtt (secs * SEC) ra rds ->
  exists a' b', play rds (a, b) = Some (a', b') /\
    refresher_up secs 0 (due_after (secs * SEC) ra rds) a' /\
    peer_up secs 0 (due_after (secs * SEC) ra rds + slack + rtt) b'.
Proof.
  intros Ha Hb Hsecs Hgap. revert ra a b Ha Hb. induction rds as [|rd rds IH]; intros ra a b Ha Hb Ht.
  { exists a, b. by split. }
  destruct Ht as [(Ht1 & Ht2 & Ht3) Ht]. cbn [length] in Ha, Hb. rewrite Nat2Z.inj_succ in Ha, Hb.
  destruct (play_round_ok secs (Z.of_nat (length rds)) ra slack rtt rd a b Ha Hb ltac:(lia) Hsecs Hgap Ht1 Ht2 Ht3)
    as (a1 & b1 & E & Ha1 & Hb1).
  destruct (IH _ a1 b1 Ha1 Hb1 Ht) as (a2 & b2 & E2 & Ha2 & Hb2).
  exists a2, b2. split; [|done]. cbn [play]. rewrite E. exact E2.
Qed.

End Exchange.

End Refresh.

(** ** Witness *)

(** Bob's manager with the call that Alice refreshes, found under its dialog. *)
Definition alice_manager : CallManager (ip := quad) :=
  put_call #"c1" (timed_call #"c1" alice_dialog true) (cm_new default_manager_config).

Definition bob_manager : CallManager (ip := quad) :=
  map_dialog (cd_id bob_dialog) #"c2" (put_call #"c2" (timed_call #"c2" bob_dialog false) (cm_new default_manager_config)).

Definition two_rounds : list round :=
  [mkRound (901 * SEC) (902 * SEC) (903 * SEC) some_draws some_draws;
   mkRound (1804 * SEC) (1805 * SEC) (1806 * SEC) some_draws some_draws].

Lemma one_call (id j : str) (c c' : Call (ip := quad)) :
  ({[id := c]} : gmap str (Call (ip := quad))) !! j = Some c' -> c' = c.
Proof. intros E. by apply lookup_singleton_Some in E as [_ ->]. Qed.

Lemma iterates_one (id : str) (c : Call (ip := quad)) : iterates [id] ({[id := c]} : gmap str (Call (ip := quad))).
Proof.
  split; [apply NoDup_singleton|]. intros j. rewrite list_elem_of_singleton. split.
  - intros ->. rewrite lookup_singleton_eq. by eexists.
  - intros [c' E]. by apply lookup_singleton_Some in E as [-> _].
Qed.

Lemma refreshed_session_survives_witness :
  exists a' b', play to_ascii_uppercase #"c1" (cd_id bob_dialog) [ #"c1"] [ #"c2"] two_rounds (alice_manager, bob_manager) =
      Some (a', b') /\
    refresher_up #"c1" [ #"c1"] 1800 0 (2706 * SEC) a' /\
    peer_up #"c2" (cd_id bob_dialog) [ #"c2"] 1800 0 (2706 * SEC + 5 * SEC + 5 * SEC) b'.
Proof.
  assert (sendable alice_dialog) as Sa by (apply sendable_sample; vm_compute; reflexivity).
  assert (sendable bob_dialog) as Sb by (apply sendable_sample; vm_compute; reflexivity).
  apply (refreshed_session_survives to_ascii_uppercase #"c1" #"c2" (cd_id bob_dialog) [ #"c1"] [ #"c2"] 1800 (5 * SEC) (5 * SEC)
    (900 * SEC) two_rounds alice_manager bob_manager).
  - split.
    + exists (timed_call #"c1" alice_dialog true). split; [apply lookup_insert_eq|]. split_and!; reflexivity.
    + intros id c Ec _. apply one_call in Ec as ->. by apply timed_call_ok.
    + apply iterates_one.
    + reflexivity.
  - split.
    + exists (timed_call #"c2" bob_dialog false), (1800 * SEC). split; [apply lookup_insert_eq|]. split_and!; reflexivity.
    + apply lookup_insert_eq.
    + vm_compute. discriminate.
    + intros id c Ec _. apply one_call in Ec as ->. by apply timed_call_ok.
    + apply iterates_one.
    + reflexivity.
  - unfold u32_max. lia.
  - reflexivity.
  - vm_compute. split_and!; (discriminate || exact I).
Defined.
