(* ===== verification/Stun.v ===== *)
(** * STUN messages and the STUN client ([ice/stun.rs])

    The wire format that the STUN client, the TURN client and the ICE agent share (header,
    attributes with their padding, masked addresses), and the client that asks a server for
    its public address.  A byte is a [Z] below 256, as in [RtpPacket].  A loop over the
    attributes of a message is a fold over the list of attributes it visits.  What the network
    does at an attempt of the client is an argument.  The outer [option] is [None] on a panic. *)

From S2P Require Import Prelude RStr RtpPacket Srtp Rtcp IceCandidate.

Local Open Scope Z_scope.

(** ** Addresses *)

(** [std::net::IpAddr] by its octets. *)
Inductive Ip : Type := V4 (octets : list Z) | V6 (octets : list Z).

#[export] Instance ip_eq_dec : EqDecision Ip.
Proof. solve_decision. Defined.

#[export] Instance socket_addr_eq_dec {ip : Type} `{EqDecision ip} : EqDecision (SocketAddr ip).
Proof. solve_decision. Defined.

Abbreviation Addr := (SocketAddr Ip).

Definition ip_ok (a : Ip) : Prop :=
  match a with
  | V4 o => length o = 4%nat /\ Forall is_u8 o
  | V6 o => length o = 16%nat /\ Forall is_u8 o
  end.

Definition addr_ok (a : Addr) : Prop := ip_ok (addr_ip a) /\ is_u16 (addr_port a).

(** ** The wire format *)

Definition MAGIC_COOKIE : Z := 554869826.
Definition BINDING_REQUEST : Z := 1.
Definition BINDING_RESPONSE : Z := 257.
Definition BINDING_ERROR : Z := 273.
Definition ATTR_MAPPED_ADDRESS : Z := 1.
Definition ATTR_XOR_MAPPED_ADDRESS : Z := 32.
Definition ATTR_ERROR_CODE : Z := 9.
Definition ATTR_SOFTWARE : Z := 32802.
Definition AF_IPV4 : Z := 1.
Definition AF_IPV6 : Z := 2.

Definition cookie_bytes : list Z := put_u32 MAGIC_COOKIE.

(** [port ^ (MAGIC_COOKIE >> 16) as u16] *)
Definition xor_port (port : Z) : Z := Z.lxor port (Z.shiftr MAGIC_COOKIE 16).

(** A header: type, length of the attributes as a [u16], cookie, transaction. *)
Definition header (msg_type len : Z) (txn_id : list Z) : list Z :=
  put_u16 msg_type ++ put_u16 (wrap 16 len) ++ put_u32 MAGIC_COOKIE ++ txn_id.

(** [(attr_len + 3) & !3] *)
Definition padded (n : Z) : Z := Z.land (n + 3) (Z.lnot 3).

(** An attribute with its padding. *)
Definition attr (attr_type : Z) (value : list Z) : list Z :=
  put_u16 attr_type ++ put_u16 (wrap 16 (zlen value)) ++ value ++ replicate (Z.to_nat (pad_len (zlen value))) 0.

(** The attributes a loop over [buf] visits: it stops at fewer than four bytes, at a value
    that is cut off, and at padding that is cut off. *)
Fixpoint attributes (fuel : nat) (buf : list Z) : list (Z * list Z) :=
  match fuel with
  | O => []
  | S fuel =>
      match get_u16 buf with
      | Some (attr_type, rest) =>
          match get_u16 rest with
          | Some (attr_len, rest) =>
              if zlen rest <? attr_len then [] else
              (attr_type, take (Z.to_nat attr_len) rest) ::
              (if zlen rest <? padded attr_len then [] else attributes fuel (drop (Z.to_nat (padded attr_len)) rest))
          | None => []
          end
      | None => []
      end
  end.

Definition attributes_of (buf : list Z) : list (Z * list Z) := attributes (length buf) buf.

(** ** Errors *)

Inductive StunError : Type :=
| Io
| Timeout
| InvalidResponse
| ErrorResponse (code : Z) (reason : list Z)
| NoMappedAddress.

(** ** Parsing *)

Definition parse_mapped_address (data : list Z) (xor : bool) : option Addr :=
  match data with
  | _ :: family :: p1 :: p2 :: ip =>
      let port := 256 * p1 + p2 in
      let port := if xor then xor_port port else port in
      if (family =? AF_IPV4) && (8 <=? zlen data) then
        let ip := take 4 ip in
        Some (mkSocketAddr (V4 (if xor then xor_bytes ip cookie_bytes else ip)) port)
      else if (family =? AF_IPV6) && (20 <=? zlen data) then
        let ip := take 16 ip in
        (* the transaction is not at hand: only the first four bytes are unmasked *)
        Some (mkSocketAddr (V6 (if xor then xor_bytes (take 4 ip) cookie_bytes ++ drop 4 ip else ip)) port)
      else None
  | _ => None
  end.

(** The loop of [parse_error_response]: it returns at the first ERROR-CODE. *)
Fixpoint find_error (fuel : nat) (buf : list Z) : StunError :=
  let unknown := ErrorResponse 0 (map code #"Unknown error") in
  match fuel with
  | O => unknown
  | S fuel =>
      match get_u16 buf with
      | Some (attr_type, rest) =>
          match get_u16 rest with
          | Some (attr_len, rest) =>
              match rest with
              | _ :: _ :: class :: number :: reason =>
                  if (attr_type =? ATTR_ERROR_CODE) && (4 <=? attr_len) && (attr_len <=? zlen rest)
                  then ErrorResponse (class * 100 + number) (from_utf8_lossy (take (Z.to_nat (attr_len - 4)) reason))
                  else if zlen rest <? padded attr_len then unknown
                  else find_error fuel (drop (Z.to_nat (padded attr_len)) rest)
              | _ =>
                  if zlen rest <? padded attr_len then unknown
                  else find_error fuel (drop (Z.to_nat (padded attr_len)) rest)
              end
          | None => unknown
          end
      | None => unknown
      end
  end.

Definition parse_error_response (attrs : list Z) : StunError := find_error (length attrs) attrs.

(** The two addresses an answer may carry. *)
Definition mapped_step (acc : option Addr * option Addr) (a : Z * list Z) : option Addr * option Addr :=
  let '(mapped, xor_mapped) := acc in
  if a.1 =? ATTR_MAPPED_ADDRESS then (parse_mapped_address a.2 false, xor_mapped)
  else if a.1 =? ATTR_XOR_MAPPED_ADDRESS then (mapped, parse_mapped_address a.2 true)
  else acc.

(** [data[a..b]]; [None] out of range. *)
Definition slice (a b : Z) (data : list Z) : option (list Z) :=
  if (a <=? b) && (b <=? zlen data) then Some (take (Z.to_nat (b - a)) (drop (Z.to_nat a) data)) else None.

Definition parse_binding_response (data expected_txn_id : list Z) : option (result Addr StunError) :=
  if zlen data <? 20 then Some (Err InvalidResponse) else
  let* (msg_type, buf) := get_u16 data in
  if msg_type =? BINDING_ERROR then
    let* attrs := slice 20 (zlen data) data in Some (Err (parse_error_response attrs))
  else if negb (msg_type =? BINDING_RESPONSE) then Some (Err InvalidResponse) else
  let* (msg_len, buf) := get_u16 buf in
  if zlen data <? 20 + msg_len then Some (Err InvalidResponse) else
  let* (cookie, buf) := get_u32 buf in
  if negb (cookie =? MAGIC_COOKIE) then Some (Err InvalidResponse) else
  let* (txn_id, _) := split_to 12 buf in
  if negb (bool_decide (txn_id = expected_txn_id)) then Some (Err InvalidResponse) else
  let* attrs := slice 20 (20 + msg_len) data in
  let '(mapped, xor_mapped) := foldl mapped_step (None, None) (attributes_of attrs) in
  Some (match xor_mapped with
        | Some a => Ok a
        | None => match mapped with Some a => Ok a | None => Err NoMappedAddress end
        end).

(** ** The client *)

Record StunServer : Type := mkStunServer { server_addr : Addr; server_name : str }.

Definition GOOGLE : StunServer := mkStunServer (mkSocketAddr (V4 [74; 125; 250; 129]) 19302) #"stun.l.google.com".
Definition TWILIO : StunServer := mkStunServer (mkSocketAddr (V4 [34; 203; 254; 141]) 3478) #"global.stun.twilio.com".

Definition build_binding_request (txn_id : list Z) : list Z := header BINDING_REQUEST 0 txn_id.

(** What happens at one attempt: the datagram that arrives may come from anyone. *)
Inductive Attempt : Type :=
| SendFailed
| RecvFailed
| TimedOut
| Received (from : Addr) (datagram : list Z).

(** [n] attempts; [net] gives what happens at each. *)
Fixpoint attempts (n : nat) (net : nat -> Attempt) (server : StunServer) (txn_id : list Z) : option (result Addr StunError) :=
  match n with
  | O => Some (Err Timeout)
  | S n =>
      match net 0%nat with
      | SendFailed | RecvFailed => Some (Err Io)
      | TimedOut => attempts n (fun k => net (S k)) server txn_id
      | Received from datagram =>
          if negb (bool_decide (from = server_addr server)) then attempts n (fun k => net (S k)) server txn_id else
          (* the buffer holds 1024 bytes, the rest of a longer datagram is cut off *)
          let* r := parse_binding_response (take 1024 datagram) txn_id in
          match r with
          | Ok addr => Some (Ok addr)
          | Err _ => attempts n (fun k => net (S k)) server txn_id
          end
      end
  end.

Definition binding_request (retries : Z) (net : nat -> Attempt) (server : StunServer) (txn_id : list Z)
  : option (result Addr StunError) := attempts (Z.to_nat retries) net server txn_id.

(** The settings of a client; the timeout is in milliseconds. *)
Record StunClient : Type := mkStunClient { s_timeout : Z; s_retries : Z }.

Definition stun_client_new : StunClient := mkStunClient 3000 3.
Definition set_timeout (timeout : Z) (c : StunClient) : StunClient := mkStunClient timeout (s_retries c).
Definition set_retries (retries : Z) (c : StunClient) : StunClient := mkStunClient (s_timeout c) retries.
Definition client_binding_request (net : nat -> Attempt) (server : StunServer) (txn_id : list Z) (c : StunClient)
  : option (result Addr StunError) := binding_request (s_retries c) net server txn_id.

(** ** Lemmas on the wire format *)

Lemma padded_pad n : 0 <= n -> padded n = n + pad_len n.
Proof.
  intros Hn. unfold padded, pad_len. change (Z.lnot 3) with (-4).
  assert (Z.land (n + 3) (-4) = (n + 3) / 4 * 4) as ->.
  { change (-4) with (Z.lnot (Z.ones 2)). rewrite <- Z.ldiff_land, Z.ldiff_ones_r by lia.
    rewrite Z.shiftr_div_pow2, Z.shiftl_mul_pow2 by lia. done. }
  pose proof (Z.div_mod n 4 ltac:(lia)). pose proof (Z.mod_pos_bound n 4 ltac:(lia)).
  destruct (decide (n mod 4 = 0)) as [E|E].
  - rewrite E, Z.mod_same by lia. replace (n + 3) with (3 + n / 4 * 4) by lia.
    rewrite Z.div_add by lia. change (3 / 4) with 0. lia.
  - rewrite (Z.mod_small (4 - n mod 4)) by lia. replace (n + 3) with (n mod 4 - 1 + (n / 4 + 1) * 4) by lia.
    rewrite Z.div_add, (Z.div_small (n mod 4 - 1)) by lia. lia.
Qed.

Lemma pad_len_nonneg n : 0 <= pad_len n.
Proof. unfold pad_len. apply Z.mod_pos_bound. lia. Qed.

Lemma zlen_replicate n (x : Z) : 0 <= n -> zlen (replicate (Z.to_nat n) x) = n.
Proof. intros Hn. unfold zlen. rewrite length_replicate. lia. Qed.

Lemma zlen_attr t v : zlen (attr t v) = 4 + padded (zlen v).
Proof.
  unfold attr. rewrite !zlen_app, zlen_replicate by apply pad_len_nonneg.
  rewrite padded_pad by apply zlen_nonneg. unfold zlen, put_u16. cbn [length]. lia.
Qed.

Lemma attributes_step f b0 b1 b2 b3 rest :
  attributes (S f) (b0 :: b1 :: b2 :: b3 :: rest) =
  let n := 256 * b2 + b3 in
  if zlen rest <? n then [] else
  (256 * b0 + b1, take (Z.to_nat n) rest) ::
  (if zlen rest <? padded n then [] else attributes f (drop (Z.to_nat (padded n)) rest)).
Proof. done. Qed.

(** More fuel than bytes changes nothing. *)
Lemma attributes_fuel fuel buf : (length buf <= fuel)%nat -> attributes fuel buf = attributes_of buf.
Proof.
  unfold attributes_of. revert buf. induction fuel as [fuel IH] using lt_wf_ind; intros buf Hf.
  destruct fuel as [|f]; [by destruct buf; cbn in Hf; [|lia]|].
  destruct buf as [|b0 [|b1 [|b2 [|b3 rest]]]]; try done.
  change (length (b0 :: b1 :: b2 :: b3 :: rest)) with (S (S (S (S (length rest))))) in *.
  rewrite !attributes_step. cbv zeta.
  destruct (zlen rest <? 256 * b2 + b3); [done|]. f_equal. destruct (zlen rest <? padded _); [done|].
  set (r := drop _ rest). assert (length r <= length rest)%nat as Hr by (subst r; rewrite length_drop; lia).
  rewrite (IH f) by lia. symmetry. apply IH; lia.
Qed.

Lemma attributes_cons t v rest :
  is_u16 t -> zlen v < 65536 -> attributes_of (attr t v ++ rest) = (t, v) :: attributes_of rest.
Proof.
  intros Ht Hv. pose proof (zlen_nonneg v) as H0. unfold attributes_of at 1.
  assert (length (attr t v ++ rest) = S (pred (length (attr t v ++ rest)))) as El by (unfold attr; cbn; lia).
  rewrite El. cbn [attributes]. unfold attr. rewrite wrap_small by (unfold in_width; lia). rewrite <- !app_assoc.
  rewrite get_put_u16. rewrite get_put_u16. rewrite (proj2 (Z.ltb_ge _ _))
    by (rewrite !zlen_app; pose proof (zlen_nonneg rest); rewrite zlen_replicate by apply pad_len_nonneg; pose proof (pad_len_nonneg (zlen v)); lia).
  rewrite padded_pad by done. f_equal.
  - f_equal. unfold zlen. by rewrite Nat2Z.id, take_app_length.
  - rewrite (proj2 (Z.ltb_ge _ _)) by (rewrite !zlen_app, zlen_replicate by apply pad_len_nonneg; pose proof (zlen_nonneg rest); lia).
    rewrite attributes_fuel.
    + f_equal. rewrite app_assoc. rewrite drop_app_length'; [done|]. rewrite length_app, length_replicate.
      pose proof (pad_len_nonneg (zlen v)). unfold zlen in *. lia.
    + rewrite length_drop. unfold attr. rewrite !length_app. cbn. lia.
Qed.

Lemma attributes_nil : attributes_of [] = [].
Proof. done. Qed.

(** The attributes written are the attributes read. *)
Lemma attributes_encode l :
  Forall (fun a => is_u16 a.1 /\ zlen a.2 < 65536) l -> attributes_of (concat (map (fun a => attr a.1 a.2) l)) = l.
Proof.
  induction 1 as [|[t v] l [Ht Hv] _ IH]; [done|]. cbn [map concat]. by rewrite attributes_cons, IH.
Qed.

(** ** Messages *)

Lemma slice_whole h body :
  zlen h = 20 -> slice 20 (20 + zlen body) (h ++ body) = Some body.
Proof.
  intros Hh. unfold slice. pose proof (zlen_nonneg body). rewrite zlen_app, Hh.
  rewrite (proj2 (Z.leb_le 20 _)), (proj2 (Z.leb_le _ _)) by lia. cbn [andb]. f_equal.
  replace (20 + zlen body - 20) with (zlen body) by lia. unfold zlen in *.
  rewrite drop_app_length' by lia. rewrite Nat2Z.id. by apply take_ge.
Qed.

Lemma slice_total a b data : 0 <= a <= b -> b <= zlen data -> exists s, slice a b data = Some s.
Proof.
  intros Ha Hb. unfold slice. rewrite (proj2 (Z.leb_le a b)), (proj2 (Z.leb_le b _)) by lia. by eexists.
Qed.

Lemma zlen_header t n (txn : list Z) : length txn = 12%nat -> zlen (header t n txn) = 20.
Proof. intros H. unfold header. rewrite !zlen_app. unfold zlen, put_u32, put_u16. cbn [length app]. lia. Qed.

(** Twenty bytes are there to be read. *)
Lemma read_header data :
  20 <= zlen data ->
  exists a b c d e f g h (txn body : list Z), data = [a; b; c; d; e; f; g; h] ++ txn ++ body /\ length txn = 12%nat.
Proof.
  intros Hl. do 8 (destruct data as [|? data]; [unfold zlen in Hl; cbn in Hl; lia|]).
  do 8 eexists. exists (take 12 data), (drop 12 data). cbn [app]. rewrite take_drop. split; [reflexivity|].
  unfold zlen in Hl. cbn [length] in Hl. rewrite length_take. lia.
Qed.

(** The answer of a server: its attributes under the header of a success response. *)
Definition answer (txn : list Z) (attrs : list (Z * list Z)) : list Z :=
  let body := concat (map (fun a => attr a.1 a.2) attrs) in header BINDING_RESPONSE (zlen body) txn ++ body.

Definition attrs_ok (attrs : list (Z * list Z)) : Prop :=
  Forall (fun a => is_u16 a.1 /\ zlen a.2 < 65536) attrs /\
  zlen (concat (map (fun a => attr a.1 a.2) attrs)) < 65536.

(** The mapped addresses of a list of attributes. *)
Definition mapped_of (attrs : list (Z * list Z)) : result Addr StunError :=
  let '(mapped, xor_mapped) := foldl mapped_step (None, None) attrs in
  match xor_mapped with
  | Some a => Ok a
  | None => match mapped with Some a => Ok a | None => Err NoMappedAddress end
  end.

Lemma parse_binding_eq a b c d e f g h (txn body exp : list Z) :
  length txn = 12%nat ->
  let n := 256 * c + d in
  0 <= n ->
  parse_binding_response ([a; b; c; d; e; f; g; h] ++ txn ++ body) exp =
  if 256 * a + b =? BINDING_ERROR then Some (Err (parse_error_response body)) else
  if negb (256 * a + b =? BINDING_RESPONSE) then Some (Err InvalidResponse) else
  if zlen body <? n then Some (Err InvalidResponse) else
  if negb (65536 * (256 * e + f) + (256 * g + h) =? MAGIC_COOKIE) then Some (Err InvalidResponse) else
  if negb (bool_decide (txn = exp)) then Some (Err InvalidResponse) else
  Some (mapped_of (attributes_of (take (Z.to_nat n) body))).
Proof.
  intros Ht n Hn. set (data := [a; b; c; d; e; f; g; h] ++ txn ++ body).
  assert (zlen data = 20 + zlen body) as El by (unfold data; rewrite !zlen_app; unfold zlen; rewrite Ht; cbn; lia).
  pose proof (zlen_nonneg body) as H0. unfold parse_binding_response. rewrite (proj2 (Z.ltb_ge _ _)) by lia.
  assert (get_u16 data = Some (256 * a + b, [c; d; e; f; g; h] ++ txn ++ body)) as -> by done.
  assert (forall k, 0 <= k <= zlen body -> slice 20 (20 + k) data = Some (take (Z.to_nat k) body)) as Hs.
  { intros k Hk. unfold slice. rewrite (proj2 (Z.leb_le 20 _)), (proj2 (Z.leb_le _ _)) by lia. cbn [andb].
    replace (20 + k - 20) with k by lia. f_equal. f_equal. unfold data. rewrite app_assoc.
    apply drop_app_length'. rewrite length_app, Ht. done. }
  clearbody data. cbn [mbind option_bind]. rewrite El, (Hs (zlen body)) by lia. rewrite (take_ge body) by (unfold zlen; lia). cbn [mbind option_bind].
  destruct (256 * a + b =? BINDING_ERROR); [done|]. destruct (negb _); [done|].
  cbn [get_u16 get_u8 get_u32 mbind option_bind app]. fold n.
  destruct (Z.ltb_spec (zlen body) n); [by rewrite (proj2 (Z.ltb_lt _ _)) by lia|].
  rewrite (proj2 (Z.ltb_ge _ _)) by lia. destruct (negb _); [done|].
  assert (split_to 12 (txn ++ body) = Some (txn, body)) as ->
    by (replace 12 with (zlen txn) by (unfold zlen; by rewrite Ht); apply split_to_app).
  cbn [mbind option_bind]. destruct (negb (bool_decide _)); [done|].
  rewrite (Hs n) by lia. cbn [mbind option_bind]. unfold mapped_of. by destruct (foldl _ _ _).
Qed.

(** ** Masked addresses *)

(** The value of an XOR-MAPPED-ADDRESS (RFC 5389 15.2): TURN and ICE write it, the clients
    read it. *)
Definition xor_value (addr : Addr) (txn_id : list Z) : list Z :=
  match addr_ip addr with
  | V4 o => [0; AF_IPV4] ++ put_u16 (xor_port (addr_port addr)) ++ xor_bytes o cookie_bytes
  | V6 o => [0; AF_IPV6] ++ put_u16 (xor_port (addr_port addr)) ++
            xor_bytes (take 4 o) cookie_bytes ++ xor_bytes (drop 4 o) txn_id
  end.

Lemma xor_port_twice p : xor_port (xor_port p) = p.
Proof. unfold xor_port. by rewrite Z.lxor_assoc, Z.lxor_nilpotent, Z.lxor_0_r. Qed.

Lemma join_put_u16 p : 256 * (p / 256) + p mod 256 = p.
Proof. symmetry. apply Z_div_mod_eq_full. Qed.

Lemma parse_xor_v4 o port txn :
  length o = 4%nat ->
  parse_mapped_address (xor_value (mkSocketAddr (V4 o) port) txn) true = Some (mkSocketAddr (V4 o) port).
Proof.
  intros Hl. destruct o as [|x [|y [|z [|w [|]]]]]; try done. unfold xor_value.
  cbn [addr_ip addr_port app put_u16]. unfold parse_mapped_address.
  change (zlen _) with 8. cbn [Z.eqb andb AF_IPV4 Z.leb]. change (1 =? AF_IPV4) with true. change (8 <=? 8) with true.
  cbn [andb]. rewrite join_put_u16, xor_port_twice. do 3 f_equal.
  change (take 4 (xor_bytes [x; y; z; w] cookie_bytes)) with (xor_bytes [x; y; z; w] cookie_bytes).
  by apply xor_bytes_twice.
Qed.

(** What the client makes of an address that was masked: of an IPv6 address only the first four bytes are unmasked,
    the others keep the transaction on them. *)
Definition reported (a : Addr) (txn : list Z) : Addr :=
  match addr_ip a with
  | V4 _ => a
  | V6 o => mkSocketAddr (V6 (take 4 o ++ xor_bytes (drop 4 o) txn)) (addr_port a)
  end.

Definition address_ok (a : Addr) : Prop :=
  match addr_ip a with V4 o => length o = 4%nat | V6 o => length o = 16%nat end.

Lemma parse_xor a txn :
  address_ok a -> length txn = 12%nat -> parse_mapped_address (xor_value a txn) true = Some (reported a txn).
Proof.
  destruct a as [[o|o] port]; unfold address_ok; cbn [addr_ip]; intros Hl Ht; [by rewrite parse_xor_v4|].
  unfold xor_value, reported. cbn [addr_ip addr_port].
  assert (length (xor_bytes (take 4 o) cookie_bytes) = 4%nat) as H1 by (rewrite length_xor_bytes; rewrite length_take; [|change (length cookie_bytes) with 4%nat]; lia).
  assert (length (xor_bytes (drop 4 o) txn) = 12%nat) as H2 by (rewrite length_xor_bytes; rewrite length_drop; lia).
  assert (zlen ([0; AF_IPV6] ++ put_u16 (xor_port port) ++ xor_bytes (take 4 o) cookie_bytes ++ xor_bytes (drop 4 o) txn) = 20) as Hz
    by (rewrite !zlen_app; unfold zlen; rewrite H1, H2; done).
  unfold parse_mapped_address. revert Hz. cbn [app put_u16]. intros ->.
  change (AF_IPV6 =? AF_IPV4) with false. change (AF_IPV6 =? AF_IPV6) with true. change (20 <=? 20) with true. cbn [andb].
  rewrite join_put_u16, xor_port_twice, (take_ge _ 16) by (rewrite length_app, H1, H2; lia).
  rewrite take_app_length', drop_app_length' by done. rewrite xor_bytes_twice by (rewrite length_take; change (length cookie_bytes) with 4%nat; lia). done.
Qed.

(** MAPPED-ADDRESS: the address as it is. *)
Definition mapped_value (a : Addr) : list Z :=
  match addr_ip a with
  | V4 o => [0; AF_IPV4] ++ put_u16 (addr_port a) ++ o
  | V6 o => [0; AF_IPV6] ++ put_u16 (addr_port a) ++ o
  end.

Lemma parse_mapped a : address_ok a -> parse_mapped_address (mapped_value a) false = Some a.
Proof.
  destruct a as [[o|o] port]; unfold address_ok; cbn [addr_ip]; intros Hl.
  - do 4 (destruct o as [|? o]; [done|]). destruct o; [|done]. unfold mapped_value, parse_mapped_address. cbn [addr_ip addr_port app put_u16].
    change (zlen _) with 8. change (1 =? AF_IPV4) with true. change (8 <=? 8) with true. cbn [andb]. by rewrite join_put_u16.
  - do 16 (destruct o as [|? o]; [done|]). destruct o; [|done]. unfold mapped_value, parse_mapped_address. cbn [addr_ip addr_port app put_u16].
    change (zlen _) with 20. change (2 =? AF_IPV4) with false. change (2 =? AF_IPV6) with true. change (20 <=? 20) with true.
    cbn [andb]. by rewrite join_put_u16.
Qed.

(** ** The client *)

Definition no_attr (t : Z) (l : list (Z * list Z)) : Prop := forall b, b ∈ l -> b.1 <> t.

(** The last XOR-MAPPED-ADDRESS counts, and without one the last MAPPED-ADDRESS. *)
Lemma steps_keep l m x :
  (no_attr ATTR_XOR_MAPPED_ADDRESS l -> (foldl mapped_step (m, x) l).2 = x) /\
  (no_attr ATTR_MAPPED_ADDRESS l -> (foldl mapped_step (m, x) l).1 = m).
Proof.
  revert m x. induction l as [|b l IH]; intros m x; [done|]. cbn [foldl].
  destruct (IH (mapped_step (m, x) b).1 (mapped_step (m, x) b).2) as [I1 I2]. rewrite <- surjective_pairing in I1, I2.
  split; intros H.
  - rewrite I1 by (intros b' Hb'; apply H; by right). unfold mapped_step. destruct (b.1 =? ATTR_MAPPED_ADDRESS); [done|].
    destruct (Z.eqb_spec b.1 ATTR_XOR_MAPPED_ADDRESS) as [E|]; [|done]. exfalso. apply (H b); [by left|done].
  - rewrite I2 by (intros b' Hb'; apply H; by right). unfold mapped_step.
    destruct (Z.eqb_spec b.1 ATTR_MAPPED_ADDRESS) as [E|]; [exfalso; apply (H b); [by left|done]|].
    by destruct (b.1 =? ATTR_XOR_MAPPED_ADDRESS).
Qed.

Lemma mapped_only pre v post a :
  no_attr ATTR_XOR_MAPPED_ADDRESS (pre ++ post) -> no_attr ATTR_MAPPED_ADDRESS post -> parse_mapped_address v false = Some a ->
  mapped_of (pre ++ (ATTR_MAPPED_ADDRESS, v) :: post) = Ok a.
Proof.
  intros Hx Hm Ha. unfold mapped_of. rewrite foldl_app. cbn [foldl].
  destruct (steps_keep pre None None) as [P1 _]. specialize (P1 (fun b Hb => Hx b (proj2 (elem_of_app _ _ _) (or_introl Hb)))).
  destruct (foldl mapped_step (None, None) pre) as [m x]. cbn [snd] in P1. subst x.
  assert (mapped_step (m, None) (ATTR_MAPPED_ADDRESS, v) = (Some a, None)) as -> by (cbn; by rewrite Ha).
  destruct (steps_keep post (Some a) None) as [Q1 Q2].
  specialize (Q1 (fun b Hb => Hx b (proj2 (elem_of_app _ _ _) (or_intror Hb)))). specialize (Q2 Hm).
  destruct (foldl mapped_step (Some a, None) post) as [m' x']. cbn [fst snd] in *. by subst.
Qed.

Lemma mapped_fold pre v post a :
  no_attr ATTR_XOR_MAPPED_ADDRESS post -> parse_mapped_address v true = Some a ->
  mapped_of (pre ++ (ATTR_XOR_MAPPED_ADDRESS, v) :: post) = Ok a.
Proof.
  intros Hpost Ha. unfold mapped_of. rewrite foldl_app. cbn [foldl].
  destruct (foldl mapped_step (None, None) pre) as [m x].
  assert (mapped_step (m, x) (ATTR_XOR_MAPPED_ADDRESS, v) = (m, Some a)) as -> by (cbn; by rewrite Ha).
  pose proof (proj1 (steps_keep post m (Some a)) Hpost) as E.
  destruct (foldl mapped_step (m, Some a) post) as [m' x']. cbn [snd] in E. by subst.
Qed.

Lemma parse_answer txn attrs :
  length txn = 12%nat -> attrs_ok attrs -> parse_binding_response (answer txn attrs) txn = Some (mapped_of attrs).
Proof.
  intros Ht [Ha Hl]. unfold answer. set (body := concat _) in *. pose proof (zlen_nonneg body) as H0.
  unfold header. rewrite wrap_small by (unfold in_width; lia).
  change (put_u16 BINDING_RESPONSE) with [1; 1]. change (put_u32 MAGIC_COOKIE) with [33; 18; 164; 66].
  unfold put_u16. rewrite <- !app_assoc.
  change ([1; 1] ++ [zlen body / 256; zlen body mod 256] ++ [33; 18; 164; 66] ++ txn ++ body) with
    ([1; 1; zlen body / 256; zlen body mod 256; 33; 18; 164; 66] ++ txn ++ body).
  rewrite parse_binding_eq by (done || rewrite join_put_u16; done). rewrite join_put_u16.
  change (256 * 1 + 1 =? BINDING_ERROR) with false. change (256 * 1 + 1 =? BINDING_RESPONSE) with true. cbn [negb].
  rewrite Z.ltb_irrefl. change (_ =? MAGIC_COOKIE) with true. cbn [negb]. rewrite bool_decide_true by done. cbn [negb].
  rewrite take_ge by (unfold zlen; lia). unfold body. by rewrite attributes_encode.
Qed.

(** An attempt that does not end the exchange. *)
Definition ignored (server : StunServer) (txn : list Z) (o : Attempt) : Prop :=
  match o with
  | SendFailed | RecvFailed => False
  | TimedOut => True
  | Received from d => from <> server_addr server \/ exists e, parse_binding_response (take 1024 d) txn = Some (Err e)
  end.

Lemma parse_binding_total data exp : Forall is_u8 data -> exists r, parse_binding_response data exp = Some r.
Proof.
  intros F. destruct (decide (20 <= zlen data)) as [Hl|Hl].
  - destruct (read_header data Hl) as (a & b & c & d & e & f & g & h & txn & body & -> & Ht).
    assert (0 <= 256 * c + d) as Hn by (cbn in F; rewrite !Forall_cons in F; unfold in_width in F; lia).
    rewrite parse_binding_eq by done. repeat (case_match; try by eexists).
  - exists (Err InvalidResponse). unfold parse_binding_response. by rewrite (proj2 (Z.ltb_lt _ _)) by lia.
Qed.

Lemma attempts_ignored n k net server txn :
  (forall j, (j < k)%nat -> ignored server txn (net j)) -> (k <= n)%nat ->
  attempts n net server txn = attempts (n - k) (fun j => net (k + j)%nat) server txn.
Proof.
  revert n net. induction k as [|k IH]; intros n net Hi Hk; [by rewrite Nat.sub_0_r|].
  destruct n as [|n]; [lia|]. cbn [attempts]. pose proof (Hi 0%nat ltac:(lia)) as H0.
  assert (attempts n (fun j => net (S j)) server txn = attempts (n - k) (fun j => net (S k + j)%nat) server txn) as E
    by (apply (IH n (fun j => net (S j))); [intros j Hj; apply Hi; lia|lia]).
  cbn [Nat.sub]. rewrite <- E. destruct (net 0%nat) as [| | |from d]; try done.
  destruct H0 as [Hf|[e He]]; [by rewrite bool_decide_false|]. rewrite He. by destruct (negb _).
Qed.

(** An accepted answer is a success response to the request, and the address is that of its
    attributes. *)
Lemma parse_binding_ok data exp a :
  Forall is_u8 data -> parse_binding_response data exp = Some (Ok a) ->
  exists n body, data = header BINDING_RESPONSE n exp ++ body /\ 0 <= n <= zlen body /\
    mapped_of (attributes_of (take (Z.to_nat n) body)) = Ok a.
Proof.
  intros F E. destruct (decide (20 <= zlen data)) as [Hl|Hl].
  2: { unfold parse_binding_response in E. by rewrite (proj2 (Z.ltb_lt _ _)) in E by lia. }
  destruct (read_header data Hl) as (b0 & b1 & b2 & b3 & b4 & b5 & b6 & b7 & txn & body & -> & Ht).
  cbn [app] in F. rewrite !Forall_cons in F. destruct F as (F0 & F1 & F2 & F3 & F4 & F5 & F6 & F7 & _).
  assert (0 <= 256 * b2 + b3 < 65536) as Hn by (unfold in_width in *; lia).
  rewrite parse_binding_eq in E by (done || lia). destruct (_ =? BINDING_ERROR); [done|].
  destruct (Z.eqb_spec (256 * b0 + b1) BINDING_RESPONSE) as [Et|]; [|done]. cbn [negb] in E.
  destruct (Z.ltb_spec (zlen body) (256 * b2 + b3)); [done|].
  destruct (Z.eqb_spec (65536 * (256 * b4 + b5) + (256 * b6 + b7)) MAGIC_COOKIE) as [Ec|]; [|done]. cbn [negb] in E.
  destruct (bool_decide (txn = exp)) eqn:Eb; [|done]. apply bool_decide_eq_true in Eb. subst exp. cbn [negb] in E.
  exists (256 * b2 + b3), body. split; [|split; [lia|congruence]].
  unfold header. rewrite wrap_small by (unfold in_width; lia). rewrite <- Et, <- Ec.
  rewrite !put_get_u16, put_get_u32 by done. by rewrite <- !app_assoc.
Qed.

Lemma attempts_ok n net server txn a :
  attempts n net server txn = Some (Ok a) ->
  exists k d, (k < n)%nat /\ net k = Received (server_addr server) d /\
    parse_binding_response (take 1024 d) txn = Some (Ok a).
Proof.
  revert net. induction n as [|n IH]; intros net; cbn [attempts]; [done|].
  assert (attempts n (fun k => net (S k)) server txn = Some (Ok a) -> exists k d, (k < S n)%nat /\
    net k = Received (server_addr server) d /\ parse_binding_response (take 1024 d) txn = Some (Ok a)) as IH'.
  { intros E. destruct (IH _ E) as (k & d & Hk & H1 & H2). exists (S k), d. split; [lia|done]. }
  destruct (net 0%nat) as [| | |from d] eqn:E0; [done|done|exact IH'|].
  destruct (bool_decide (from = server_addr server)) eqn:Ef; [|exact IH']. apply bool_decide_eq_true in Ef. subst from.
  cbn [negb]. destruct (parse_binding_response (take 1024 d) txn) as [[r|e]|] eqn:Ep; [|exact IH'|done].
  intros [= ->]. exists 0%nat, d. split; [lia|done].
Qed.

Definition bytes_net (net : nat -> Attempt) : Prop :=
  forall k from d, net k = Received from d -> Forall is_u8 d.

Lemma attempts_total n net server txn : bytes_net net -> exists r, attempts n net server txn = Some r.
Proof.
  revert net. induction n as [|n IH]; intros net F; cbn [attempts]; [by eexists|].
  destruct (IH (fun k => net (S k))) as [r Er]; [intros k; apply (F (S k))|].
  destruct (net 0%nat) as [| | |from d] eqn:E0; [by eexists..|]. destruct (negb _); [by eexists|].
  destruct (parse_binding_total (take 1024 d) txn) as [[a|e] Ea]; [by apply Forall_take, (F 0%nat from)|by rewrite Ea; eexists|].
  rewrite Ea. by eexists.
Qed.

(** C31: what the STUN client finds.  Whatever arrives, it does not panic.  An address it returns stands in the
    attributes of a success response that came from the server's address and carries the transaction of the
    request.  An answer of the server is taken by the attempt that receives it, when the attempts before it timed out
    or received datagrams of other senders, of other transactions or without meaning: with an XOR-MAPPED-ADDRESS it
    gives the address the server saw if that is an IPv4 address, and what [reported] says, not that address, if it is
    an IPv6 address; with a MAPPED-ADDRESS alone it gives the address the server saw. *)
Theorem stun_client_finds_address retries net server txn :
  bytes_net net -> length txn = 12%nat ->
  let answered k attrs :=
    Z.of_nat k < retries /\ attrs_ok attrs /\ zlen (answer txn attrs) <= 1024 /\
    net k = Received (server_addr server) (answer txn attrs) /\ (forall j, (j < k)%nat -> ignored server txn (net j)) in
  (exists r, binding_request retries net server txn = Some r) /\
  (forall a, binding_request retries net server txn = Some (Ok a) ->
     exists k d n body, Z.of_nat k < retries /\ net k = Received (server_addr server) d /\
       take 1024 d = header BINDING_RESPONSE n txn ++ body /\ 0 <= n <= zlen body /\
       mapped_of (attributes_of (take (Z.to_nat n) body)) = Ok a) /\
  (forall k a pre post, address_ok a -> no_attr ATTR_XOR_MAPPED_ADDRESS post ->
     answered k (pre ++ (ATTR_XOR_MAPPED_ADDRESS, xor_value a txn) :: post) ->
     binding_request retries net server txn = Some (Ok (reported a txn))) /\
  (forall k a pre post, address_ok a -> no_attr ATTR_XOR_MAPPED_ADDRESS (pre ++ post) -> no_attr ATTR_MAPPED_ADDRESS post ->
     answered k (pre ++ (ATTR_MAPPED_ADDRESS, mapped_value a) :: post) ->
     binding_request retries net server txn = Some (Ok a)).
Proof.
  intros F Ht answered. unfold binding_request. split; [by apply attempts_total|]. split.
  { intros a E. destruct (attempts_ok _ _ _ _ _ E) as (k & d & Hk & Hn & Hp).
    destruct (parse_binding_ok _ _ _ (Forall_take _ 1024 _ (F k _ d Hn)) Hp) as (n & body & H1 & H2 & H3).
    exists k, d, n, body. split; [lia|done]. }
  assert (forall k attrs a, mapped_of attrs = Ok a -> answered k attrs ->
    attempts (Z.to_nat retries) net server txn = Some (Ok a)) as Htaken.
  { intros k attrs a Ha (Hk & Hok & Hl & Hn & Hi). rewrite (attempts_ignored _ k) by (done || lia).
    destruct (Z.to_nat retries - k)%nat as [|m] eqn:Em; [lia|]. cbn [attempts]. rewrite Nat.add_0_r, Hn.
    rewrite bool_decide_true by done. cbn [negb]. rewrite take_ge by (unfold zlen in Hl; lia).
    rewrite parse_answer by done. cbn [mbind option_bind]. by rewrite Ha. }
  split.
  - intros k a pre post Ha Hpost. apply Htaken. by apply mapped_fold, parse_xor.
  - intros k a pre post Ha Hx Hm. apply Htaken. by apply mapped_only, parse_mapped.
Qed.

(** ** Witness and examples *)

Lemma bytes_ok l : forallb (fun b => (0 <=? b) && (b <? 256)) l = true -> Forall is_u8 l.
Proof.
  rewrite forallb_forall. intros Hl. apply Forall_forall. intros b Hb. apply list_elem_of_In, Hl, andb_prop in Hb as [H1 H2].
  apply Z.leb_le in H1. apply Z.ltb_lt in H2. unfold in_width. lia.
Qed.

Definition sample_txn : list Z := [1; 2; 3; 4; 5; 6; 7; 8; 9; 10; 11; 12].
Definition sample_public : Addr := mkSocketAddr (V4 [203; 0; 113; 7]) 54321.

(** The first attempt times out, the second gets the answer of somebody else. *)
Definition sample_net (k : nat) : Attempt :=
  match k with
  | 0%nat => TimedOut
  | 1%nat => Received sample_public [1; 2; 3]
  | _ => Received (server_addr GOOGLE) (answer sample_txn [(ATTR_SOFTWARE, map code #"test"); (ATTR_XOR_MAPPED_ADDRESS, xor_value sample_public sample_txn)])
  end.

Lemma stun_client_finds_address_witness :
  binding_request 3 sample_net GOOGLE sample_txn = Some (Ok sample_public).
Proof.
  destruct (stun_client_finds_address 3 sample_net GOOGLE sample_txn) as (_ & _ & H & _).
  - intros k from d. destruct k as [|[|k]]; cbn [sample_net]; [done| |]; intros [= _ <-];
      apply bytes_ok; vm_compute; reflexivity.
  - reflexivity.
  - apply (H 2%nat sample_public [(ATTR_SOFTWARE, map code #"test")] []).
    + reflexivity.
    + intros b Hb. by apply elem_of_nil in Hb.
    + split; [lia|]. split; [split; [repeat constructor; vm_compute; (discriminate || reflexivity)|vm_compute; reflexivity]|].
      split; [vm_compute; discriminate|]. split; [reflexivity|].
      intros j Hj. destruct j as [|[|j]]; [exact I|left; vm_compute; discriminate|lia].
Defined.

(** An IPv6 address is unmasked with the cookie only: the client reports an address that is
    not its own. *)
Example ipv6_not_unmasked :
  let a := mkSocketAddr (V6 [32; 1; 13; 184; 0; 0; 0; 0; 0; 0; 0; 0; 0; 0; 0; 1]) 5000 in
  parse_binding_response (answer sample_txn [(ATTR_XOR_MAPPED_ADDRESS, xor_value a sample_txn)]) sample_txn =
  Some (Ok (mkSocketAddr (V6 [32; 1; 13; 184; 1; 2; 3; 4; 5; 6; 7; 8; 9; 10; 11; 13]) 5000)).
Proof. vm_compute. reflexivity. Qed.

(** An error response is taken without a look at its transaction. *)
Example foreign_error_taken :
  parse_binding_response (header BINDING_ERROR 8 (replicate 12 0) ++ attr ATTR_ERROR_CODE [0; 0; 4; 1]) sample_txn =
  Some (Err (ErrorResponse 401 [])).
Proof. vm_compute. reflexivity. Qed.
