(* ===== verification/Turn.v ===== *)
(** * The TURN client ([ice/turn.rs])

    Requests with long-term credentials, the answers to them, and the indications that carry
    data through the relay.  HMAC-SHA1 and MD5 come from external crates and are parameters.
    Strings are the lists of their bytes.  The socket is connected to the server; what happens
    at each attempt to send a request and receive an answer is an argument that may depend on
    the request.  The outer [option] is [None] on a panic. *)

From S2P Require Import Prelude RStr RtpPacket Srtp Rtcp IceCandidate Stun.

Local Open Scope Z_scope.

Definition ALLOCATE_REQUEST : Z := 3.
Definition ALLOCATE_RESPONSE : Z := 259.
Definition ALLOCATE_ERROR : Z := 275.
Definition REFRESH_REQUEST : Z := 4.
Definition REFRESH_RESPONSE : Z := 260.
Definition SEND_INDICATION : Z := 22.
Definition DATA_INDICATION : Z := 23.
Definition CREATE_PERMISSION_REQUEST : Z := 8.
Definition CREATE_PERMISSION_RESPONSE : Z := 264.
Definition ATTR_XOR_RELAYED_ADDRESS : Z := 22.
Definition ATTR_XOR_PEER_ADDRESS : Z := 18.
Definition ATTR_LIFETIME : Z := 13.
Definition ATTR_DATA : Z := 19.
Definition ATTR_REQUESTED_TRANSPORT : Z := 25.
Definition ATTR_USERNAME : Z := 6.
Definition ATTR_REALM : Z := 20.
Definition ATTR_NONCE : Z := 21.
Definition ATTR_MESSAGE_INTEGRITY : Z := 8.
Definition TRANSPORT_UDP : Z := 17.

Inductive TurnError : Type :=
| TIo
| TTimeout
| TInvalidResponse
| TErrorResponse (code : Z) (reason : list Z)
| NoRelayAddress
| NotAllocated.

Record TurnServer : Type := mkTurnServer { t_addr : Addr; t_username : list Z; t_password : list Z }.

Record TurnAllocation : Type := mkAllocation {
  relayed_addr : Addr;
  mapped_addr : Addr;
  lifetime : Z;
  a_realm : list Z;
  a_nonce : list Z
}.

#[export] Instance allocation_eta : Settable TurnAllocation := fun x =>
  mkAllocation (relayed_addr x) (mapped_addr x) (lifetime x) (a_realm x) (a_nonce x).

Record AuthContext : Type := mkAuth { username : list Z; realm : list Z; nonce : list Z }.

Inductive AllocateResult : Type :=
| Success (a : TurnAllocation)
| AuthRequired (realm nonce : list Z).

Record TurnClient : Type := mkTurnClient {
  t_server : TurnServer;
  t_retries : Z;
  allocation : option TurnAllocation;
  transaction_id : list Z
}.

#[export] Instance turn_client_eta : Settable TurnClient := fun x =>
  mkTurnClient (t_server x) (t_retries x) (allocation x) (transaction_id x).

(** ** Addresses *)

Definition encode_xor_address (attr_type : Z) (addr : Addr) (txn_id : list Z) : list Z :=
  attr attr_type (xor_value addr txn_id).

Definition parse_xor_address (data txn_id : list Z) : option Addr :=
  match data with
  | _ :: family :: p1 :: p2 :: ip =>
      let port := xor_port (256 * p1 + p2) in
      if (family =? AF_IPV4) && (8 <=? zlen data) then
        Some (mkSocketAddr (V4 (xor_bytes (take 4 ip) cookie_bytes)) port)
      else if (family =? AF_IPV6) && (20 <=? zlen data) then
        Some (mkSocketAddr (V6 (xor_bytes (take 4 ip) cookie_bytes ++ xor_bytes (take 12 (drop 4 ip)) txn_id)) port)
      else None
  | _ => None
  end.

(** A [u32] at the start of a value. *)
Definition read_u32 (data : list Z) : option Z := fst <$> get_u32 data.

(** ** Integrity *)

Section Turn.
Variable hmac : list Z -> list Z -> list Z.
Variable md5 : list Z -> list Z.

Definition compute_long_term_key (username realm password : list Z) : list Z :=
  md5 (username ++ [58] ++ realm ++ [58] ++ password).

(** [msg[2]] and [msg[3]] are set to the length with the attribute to come. *)
Definition patch_length (len : Z) (msg : list Z) : list Z :=
  take 2 msg ++ put_u16 (wrap 16 len) ++ drop 4 msg.

(** The attribute over the message so far; [key] differs between TURN and ICE. *)
Definition sign (key msg : list Z) : list Z :=
  let msg := patch_length (zlen msg - 20 + 24) msg in
  msg ++ put_u16 ATTR_MESSAGE_INTEGRITY ++ put_u16 20 ++ hmac key msg.

Definition add_message_integrity (msg username realm password : list Z) : list Z :=
  sign (compute_long_term_key username realm password) msg.

(** The offset of MESSAGE-INTEGRITY in a message. *)
Fixpoint find_integrity (fuel : nat) (offset : Z) (msg : list Z) : option Z :=
  match fuel with
  | O => None
  | S fuel =>
      match drop (Z.to_nat offset) msg with
      | t1 :: t2 :: l1 :: l2 :: _ =>
          if 256 * t1 + t2 =? ATTR_MESSAGE_INTEGRITY then Some offset
          else find_integrity fuel (offset + (4 + padded (256 * l1 + l2))) msg
      | _ => None
      end
  end.

Definition verify_message_integrity (msg username realm password : list Z) : bool :=
  if zlen msg <? 20 then false else
  match find_integrity (length msg) 20 msg with
  | None => true
  | Some o =>
      if zlen msg <? o + 24 then false else
      let received := take 20 (drop (Z.to_nat (o + 4)) msg) in
      let verify_msg := patch_length (o - 20 + 24) (take (Z.to_nat o) msg) in
      bool_decide (hmac (compute_long_term_key username realm password) verify_msg = received)
  end.

(** ** Requests *)

Definition auth_attrs (auth : AuthContext) : list Z :=
  attr ATTR_USERNAME (username auth) ++ attr ATTR_REALM (realm auth) ++ attr ATTR_NONCE (nonce auth).

Definition message (msg_type : Z) (attrs : list Z) (c : TurnClient) : list Z :=
  header msg_type (zlen attrs) (transaction_id c) ++ attrs.

Definition signed (auth : AuthContext) (c : TurnClient) (msg : list Z) : list Z :=
  add_message_integrity msg (username auth) (realm auth) (t_password (t_server c)).

Definition build_allocate_request (auth : option AuthContext) (c : TurnClient) : list Z :=
  let attrs := attr ATTR_REQUESTED_TRANSPORT [TRANSPORT_UDP; 0; 0; 0] in
  match auth with
  | Some auth => signed auth c (message ALLOCATE_REQUEST (attrs ++ auth_attrs auth) c)
  | None => message ALLOCATE_REQUEST attrs c
  end.

Definition build_refresh_request (lifetime : Z) (auth : AuthContext) (c : TurnClient) : list Z :=
  signed auth c (message REFRESH_REQUEST (attr ATTR_LIFETIME (put_u32 lifetime) ++ auth_attrs auth) c).

Definition build_permission_request (peer : Addr) (auth : AuthContext) (c : TurnClient) : list Z :=
  signed auth c (message CREATE_PERMISSION_REQUEST
    (encode_xor_address ATTR_XOR_PEER_ADDRESS peer (transaction_id c) ++ auth_attrs auth) c).

Definition build_send_indication (peer : Addr) (data : list Z) (c : TurnClient) : list Z :=
  message SEND_INDICATION (encode_xor_address ATTR_XOR_PEER_ADDRESS peer (transaction_id c) ++ attr ATTR_DATA data) c.

(** ** Answers *)

Definition error_step (acc : (Z * list Z) * (option (list Z) * option (list Z))) (a : Z * list Z) :=
  let '((code, reason), (realm, nonce)) := acc in
  let '(t, v) := a in
  if (t =? ATTR_ERROR_CODE) && (4 <=? zlen v) then
    match v with
    | _ :: _ :: class :: number :: text =>
        ((class * 100 + number, if 4 <? zlen v then from_utf8_lossy text else reason), (realm, nonce))
    | _ => acc
    end
  else if t =? ATTR_REALM then ((code, reason), (Some (from_utf8_lossy v), nonce))
  else if t =? ATTR_NONCE then ((code, reason), (realm, Some (from_utf8_lossy v)))
  else acc.

Definition parse_turn_error (attrs : list Z) : result AllocateResult TurnError :=
  let '((code, reason), (realm, nonce)) := foldl error_step ((0, []), (None, None)) (attributes_of attrs) in
  match (if code =? 401 then realm else None), nonce with
  | Some r, Some n => Ok (AuthRequired r n)
  | _, _ => Err (TErrorResponse code reason)
  end.

Definition allocate_step (txn_id : list Z) (acc : option Addr * option Addr * Z) (a : Z * list Z)
  : option Addr * option Addr * Z :=
  let '(relayed, mapped, lifetime) := acc in
  let '(t, v) := a in
  if t =? ATTR_XOR_RELAYED_ADDRESS then (parse_xor_address v txn_id, mapped, lifetime)
  else if t =? ATTR_XOR_MAPPED_ADDRESS then (relayed, parse_xor_address v txn_id, lifetime)
  else if (t =? ATTR_LIFETIME) && (4 <=? zlen v) then (relayed, mapped, default lifetime (read_u32 v))
  else acc.

Definition UNSPECIFIED : Addr := mkSocketAddr (V4 [0; 0; 0; 0]) 0.

Definition parse_allocate_response (data : list Z) (c : TurnClient) : option (result AllocateResult TurnError) :=
  if zlen data <? 20 then Some (Err TInvalidResponse) else
  let* (msg_type, buf) := get_u16 data in
  let* (msg_len, buf) := get_u16 buf in
  let* (_, buf) := get_u32 buf in
  let* (txn_id, _) := split_to 12 buf in
  if negb (bool_decide (txn_id = transaction_id c)) then Some (Err TInvalidResponse) else
  if msg_type =? ALLOCATE_ERROR then
    let* attrs := slice 20 (20 + msg_len) data in Some (parse_turn_error attrs)
  else if negb (msg_type =? ALLOCATE_RESPONSE) then Some (Err TInvalidResponse) else
  let* attrs := slice 20 (20 + msg_len) data in
  let '(relayed, mapped, lifetime) := foldl (allocate_step (transaction_id c)) (None, None, 600) (attributes_of attrs) in
  Some (match relayed with
        | Some relayed => Ok (Success (mkAllocation relayed (default UNSPECIFIED mapped) lifetime [] []))
        | None => Err NoRelayAddress
        end).

Definition lifetime_step (lifetime : Z) (a : Z * list Z) : Z :=
  if (a.1 =? ATTR_LIFETIME) && (4 <=? zlen a.2) then default lifetime (read_u32 a.2) else lifetime.

Definition parse_refresh_response (data : list Z) : option (result Z TurnError) :=
  if zlen data <? 20 then Some (Err TInvalidResponse) else
  let* (msg_type, buf) := get_u16 data in
  let* (msg_len, _) := get_u16 buf in
  if negb (msg_type =? REFRESH_RESPONSE) then Some (Err TInvalidResponse) else
  let* attrs := slice 20 (20 + msg_len) data in
  Some (Ok (foldl lifetime_step 600 (attributes_of attrs))).

Definition parse_permission_response (data : list Z) : option (result unit TurnError) :=
  if zlen data <? 20 then Some (Err TInvalidResponse) else
  let* (msg_type, _) := get_u16 data in
  if negb (msg_type =? CREATE_PERMISSION_RESPONSE) then Some (Err TInvalidResponse) else Some (Ok tt).

Definition data_step (txn_id : list Z) (acc : option Addr * option (list Z)) (a : Z * list Z)
  : option Addr * option (list Z) :=
  let '(peer, payload) := acc in
  let '(t, v) := a in
  if t =? ATTR_XOR_PEER_ADDRESS then (parse_xor_address v txn_id, payload)
  else if t =? ATTR_DATA then (peer, Some v)
  else acc.

Definition parse_data_indication (data : list Z) : option (result (Addr * list Z) TurnError) :=
  if zlen data <? 20 then Some (Err TInvalidResponse) else
  let* (msg_type, buf) := get_u16 data in
  let* (msg_len, buf) := get_u16 buf in
  let* (_, buf) := get_u32 buf in
  let* (txn_id, _) := split_to 12 buf in
  if negb (msg_type =? DATA_INDICATION) then Some (Err TInvalidResponse) else
  let* attrs := slice 20 (20 + msg_len) data in
  Some (match foldl (data_step txn_id) (None, None) (attributes_of attrs) with
        | (Some addr, Some data) => Ok (addr, data)
        | _ => Err TInvalidResponse
        end).

(** ** The client *)

(** What happens at one attempt. *)
Inductive Exchange : Type :=
| XSendFailed
| XRecvFailed
| XTimedOut
| XReceived (datagram : list Z).

Fixpoint raw_attempts (n : nat) (net : nat -> Exchange) : result (list Z) TurnError :=
  match n with
  | O => Err TTimeout
  | S n =>
      match net 0%nat with
      | XSendFailed | XRecvFailed => Err TIo
      | XTimedOut => raw_attempts n (fun k => net (S k))
      | XReceived datagram => Ok (take 4096 datagram)
      end
  end.

Definition send_raw (net : list Z -> nat -> Exchange) (request : list Z) (c : TurnClient) : result (list Z) TurnError :=
  raw_attempts (Z.to_nat (t_retries c)) (net request).

Definition send_request (net : list Z -> nat -> Exchange) (request : list Z) (c : TurnClient)
  : option (result AllocateResult TurnError) :=
  match send_raw net request c with
  | Err e => Some (Err e)
  | Ok response => parse_allocate_response response c
  end.

Definition turn_new (server : TurnServer) (txn_id : list Z) : TurnClient := mkTurnClient server 3 None txn_id.

Definition client_relayed_addr (c : TurnClient) : option Addr := relayed_addr <$> allocation c.

(** [txn1] and [txn2] are the transactions drawn for the two requests. *)
Definition allocate (net : list Z -> nat -> Exchange) (txn1 txn2 : list Z) (c : TurnClient)
  : option (result TurnAllocation TurnError * TurnClient) :=
  let c := c <| transaction_id := txn1 |> in
  let* r := send_request net (build_allocate_request None c) c in
  match r with
  | Err e => Some (Err e, c)
  | Ok (Success alloc) => Some (Ok alloc, c <| allocation := Some alloc |>)
  | Ok (AuthRequired realm nonce) =>
      let c := c <| transaction_id := txn2 |> in
      let auth := mkAuth (t_username (t_server c)) realm nonce in
      let* r := send_request net (build_allocate_request (Some auth) c) c in
      match r with
      | Err e => Some (Err e, c)
      | Ok (Success alloc) =>
          let alloc := (alloc <| a_realm := realm |>) <| a_nonce := nonce |> in
          Some (Ok alloc, c <| allocation := Some alloc |>)
      | Ok (AuthRequired _ _) => Some (Err (TErrorResponse 401 (map code #"Authentication failed")), c)
      end
  end.

Definition auth_of (alloc : TurnAllocation) (c : TurnClient) : AuthContext :=
  mkAuth (t_username (t_server c)) (a_realm alloc) (a_nonce alloc).

Definition refresh (net : list Z -> nat -> Exchange) (txn : list Z) (requested : Z) (c : TurnClient)
  : option (result Z TurnError * TurnClient) :=
  match allocation c with
  | None => Some (Err NotAllocated, c)
  | Some alloc =>
      let c := c <| transaction_id := txn |> in
      match send_raw net (build_refresh_request requested (auth_of alloc c) c) c with
      | Err e => Some (Err e, c)
      | Ok response =>
          let* r := parse_refresh_response response in
          match r with
          | Err e => Some (Err e, c)
          | Ok new_lifetime => Some (Ok new_lifetime, c <| allocation := Some (alloc <| lifetime := new_lifetime |>) |>)
          end
      end
  end.

Definition create_permission (net : list Z -> nat -> Exchange) (txn : list Z) (peer : Addr) (c : TurnClient)
  : option (result unit TurnError * TurnClient) :=
  match allocation c with
  | None => Some (Err NotAllocated, c)
  | Some alloc =>
      let c := c <| transaction_id := txn |> in
      match send_raw net (build_permission_request peer (auth_of alloc c) c) c with
      | Err e => Some (Err e, c)
      | Ok response => let* r := parse_permission_response response in Some (r, c)
      end
  end.

(** The indication that is sent. *)
Definition send_data (peer : Addr) (data : list Z) (c : TurnClient) : result (list Z) TurnError :=
  match allocation c with
  | None => Err NotAllocated
  | Some _ => Ok (build_send_indication peer data c)
  end.

Definition recv_data (received : option (list Z)) : option (result (Addr * list Z) TurnError) :=
  match received with
  | None => Some (Err TIo)
  | Some datagram => parse_data_indication (take (Z.to_nat 65536) datagram)
  end.

Definition recv_data_timeout (received : option (option (list Z))) : option (result (Addr * list Z) TurnError) :=
  match received with
  | None => Some (Err TTimeout)
  | Some r => recv_data r
  end.

End Turn.

(** ** Lemmas *)

Lemma parse_xor_roundtrip addr txn :
  addr_ok addr -> length txn = 12%nat -> parse_xor_address (xor_value addr txn) txn = Some addr.
Proof.
  intros [Hip Hport] Ht. destruct addr as [[o|o] port]; cbn [addr_ip addr_port] in *; destruct Hip as [Hl _]; unfold xor_value;
    cbn [addr_ip addr_port app put_u16]; unfold parse_xor_address.
  - assert (length (xor_bytes o cookie_bytes) = 4%nat) as Hx by (rewrite length_xor_bytes; [done|cbn; lia]).
    change (1 =? AF_IPV4) with true. rewrite (proj2 (Z.leb_le _ _)) by (unfold zlen; cbn [length]; lia). cbn [andb].
    rewrite join_put_u16, xor_port_twice. rewrite take_ge by lia. rewrite xor_bytes_twice by (cbn; lia). done.
  - assert (length (take 4 o) = 4 /\ length (drop 4 o) = 12)%nat as [H4 H12]
      by (rewrite length_take, length_drop; lia).
    assert (length (xor_bytes (take 4 o) cookie_bytes) = 4%nat) as Hx by (rewrite length_xor_bytes; [done|cbn; lia]).
    assert (length (xor_bytes (drop 4 o) txn) = 12%nat) as Hy by (rewrite length_xor_bytes; [done|lia]).
    change (2 =? AF_IPV4) with false. change (2 =? AF_IPV6) with true.
    rewrite (proj2 (Z.leb_le 20 _)) by (unfold zlen; cbn [length]; rewrite length_app; lia). cbn [andb].
    rewrite join_put_u16, xor_port_twice. rewrite take_app_length', drop_app_length' by done.
    rewrite (take_ge (xor_bytes (drop 4 o) txn)) by lia. rewrite !xor_bytes_twice by (cbn; lia). by rewrite take_drop.
Qed.

Lemma zlen_xor_value addr txn : addr_ok addr -> length txn = 12%nat -> zlen (xor_value addr txn) <= 20.
Proof.
  intros [Hip _] Ht. unfold xor_value. destruct (addr_ip addr) as [o|o]; destruct Hip as [Hl _]; unfold zlen;
    rewrite !length_app, ?length_app; cbn [length put_u16]; unfold xor_bytes; rewrite ?length_zip_with;
    rewrite ?length_take, ?length_drop; cbn; lia.
Qed.

(** A message of the server. *)
Definition body_of (attrs : list (Z * list Z)) : list Z := concat (map (fun a => attr a.1 a.2) attrs).

Definition reply (msg_type : Z) (attrs : list (Z * list Z)) (txn : list Z) : list Z :=
  header msg_type (zlen (body_of attrs)) txn ++ body_of attrs.

Lemma read_reply t n txn body :
  length txn = 12%nat ->
  let data := header t n txn ++ body in
  zlen data = 20 + zlen body /\
  get_u16 data = Some (t, put_u16 (wrap 16 n) ++ put_u32 MAGIC_COOKIE ++ txn ++ body) /\
  (forall r, get_u16 (put_u16 (wrap 16 n) ++ r) = Some (wrap 16 n, r)) /\
  (forall r, get_u32 (put_u32 MAGIC_COOKIE ++ r) = Some (MAGIC_COOKIE, r)) /\
  split_to 12 (txn ++ body) = Some (txn, body).
Proof.
  intros Ht data. split; [unfold data; rewrite zlen_app, zlen_header by done; done|].
  split; [unfold data, header; rewrite <- !app_assoc; apply get_put_u16|].
  split; [intros; apply get_put_u16|]. split; [intros; apply get_put_u32|].
  replace 12 with (zlen txn) by (unfold zlen; by rewrite Ht). apply split_to_app.
Qed.

Lemma length_header t n (txn : list Z) : length txn = 12%nat -> length (header t n txn) = 20%nat.
Proof. intros Ht. pose proof (zlen_header t n txn Ht) as Hz. unfold zlen in Hz. lia. Qed.

Lemma reply_slice t attrs txn :
  length txn = 12%nat -> slice 20 (20 + zlen (body_of attrs)) (reply t attrs txn) = Some (body_of attrs).
Proof. intros Ht. apply slice_whole. by apply zlen_header. Qed.

(** What the parsers make of a message of the server. *)
Lemma parse_allocate_reply t attrs c :
  length (transaction_id c) = 12%nat -> attrs_ok attrs ->
  parse_allocate_response (reply t attrs (transaction_id c)) c =
  Some (if t =? ALLOCATE_ERROR then
          let '((code, reason), (realm, nonce)) := foldl error_step ((0, []), (None, None)) attrs in
          match (if code =? 401 then realm else None), nonce with
          | Some r, Some n => Ok (AuthRequired r n)
          | _, _ => Err (TErrorResponse code reason)
          end
        else if negb (t =? ALLOCATE_RESPONSE) then Err TInvalidResponse else
        let '(relayed, mapped, lifetime) := foldl (allocate_step (transaction_id c)) (None, None, 600) attrs in
        match relayed with
        | Some relayed => Ok (Success (mkAllocation relayed (default UNSPECIFIED mapped) lifetime [] []))
        | None => Err NoRelayAddress
        end).
Proof.
  intros Ht [Ha Hl]. fold (body_of attrs) in Hl. pose proof (zlen_nonneg (body_of attrs)) as H0.
  destruct (read_reply t (zlen (body_of attrs)) (transaction_id c) (body_of attrs) Ht) as (E1 & E2 & E3 & E4 & E5).
  fold (reply t attrs (transaction_id c)) in E1, E2. rewrite wrap_small in E2, E3 by (unfold in_width; lia).
  unfold parse_allocate_response. rewrite E1, (proj2 (Z.ltb_ge _ _)), E2 by lia. cbn [mbind option_bind].
  rewrite E3. cbn [mbind option_bind]. rewrite E4. cbn [mbind option_bind]. rewrite E5. cbn [mbind option_bind].
  rewrite bool_decide_true by done. cbn [negb]. rewrite reply_slice by done. cbn [mbind option_bind].
  unfold parse_turn_error. unfold body_of. rewrite attributes_encode by done.
  destruct (t =? ALLOCATE_ERROR); [done|]. destruct (negb _); [done|]. by destruct (foldl _ _ _) as [[? ?] ?].
Qed.

Lemma parse_refresh_reply attrs txn :
  length txn = 12%nat -> attrs_ok attrs ->
  parse_refresh_response (reply REFRESH_RESPONSE attrs txn) = Some (Ok (foldl lifetime_step 600 attrs)).
Proof.
  intros Ht [Ha Hl]. fold (body_of attrs) in Hl. pose proof (zlen_nonneg (body_of attrs)) as H0.
  destruct (read_reply REFRESH_RESPONSE (zlen (body_of attrs)) txn (body_of attrs) Ht) as (E1 & E2 & E3 & _).
  fold (reply REFRESH_RESPONSE attrs txn) in E1, E2. rewrite wrap_small in E2, E3 by (unfold in_width; lia).
  unfold parse_refresh_response. rewrite E1, (proj2 (Z.ltb_ge _ _)), E2 by lia. cbn [mbind option_bind].
  rewrite E3. cbn [mbind option_bind]. change (negb (REFRESH_RESPONSE =? REFRESH_RESPONSE)) with false. cbn iota.
  rewrite reply_slice by done. cbn [mbind option_bind]. unfold body_of. by rewrite attributes_encode.
Qed.

Lemma parse_data_reply attrs txn :
  length txn = 12%nat -> attrs_ok attrs ->
  parse_data_indication (reply DATA_INDICATION attrs txn) =
  Some (match foldl (data_step txn) (None, None) attrs with
        | (Some addr, Some data) => Ok (addr, data)
        | _ => Err TInvalidResponse
        end).
Proof.
  intros Ht [Ha Hl]. fold (body_of attrs) in Hl. pose proof (zlen_nonneg (body_of attrs)) as H0.
  destruct (read_reply DATA_INDICATION (zlen (body_of attrs)) txn (body_of attrs) Ht) as (E1 & E2 & E3 & E4 & E5).
  fold (reply DATA_INDICATION attrs txn) in E1, E2. rewrite wrap_small in E2, E3 by (unfold in_width; lia).
  unfold parse_data_indication. rewrite E1, (proj2 (Z.ltb_ge _ _)), E2 by lia. cbn [mbind option_bind].
  rewrite E3. cbn [mbind option_bind]. rewrite E4. cbn [mbind option_bind]. rewrite E5. cbn [mbind option_bind].
  change (negb (DATA_INDICATION =? DATA_INDICATION)) with false. cbn iota.
  rewrite reply_slice by done. cbn [mbind option_bind]. unfold body_of. by rewrite attributes_encode.
Qed.

(** ** A server that follows RFC 5766 with long-term credentials (RFC 5389 10.2) *)

Record Relay : Type := mkRelay {
  r_username : list Z;
  r_password : list Z;
  r_realm : list Z;
  r_nonce : list Z;
  r_relayed : Addr;
  r_mapped : Addr;
  (** the lifetime it grants to a request with this LIFETIME attribute, or without one *)
  r_grant : option Z -> Z
}.

(** The rule of RFC 5766 sections 6.2 and 7.2: a refresh with lifetime zero ends the allocation;
    otherwise the grant is the requested lifetime, at most the maximum of the server, and at
    least its default. *)
Definition rfc5766_grant (default_lifetime maximum : Z) (requested : option Z) : Z :=
  match requested with
  | None => default_lifetime
  | Some r => if r =? 0 then 0 else Z.max default_lifetime (Z.min r maximum)
  end.

Lemma rfc5766_grant_u32 d m r : is_u32 d -> is_u32 m -> is_u32 (rfc5766_grant d m r).
Proof.
  intros Hd Hm. destruct r as [r|]; [|done]. unfold rfc5766_grant, is_u32 in *. destruct (Z.eqb_spec r 0); lia.
Qed.

Definition find_attr (t : Z) (attrs : list (Z * list Z)) : option (list Z) :=
  snd <$> List.find (fun a => a.1 =? t) attrs.

Section Server.
Variable hmac : list Z -> list Z -> list Z.
Variable md5 : list Z -> list Z.
Hypothesis hmac_length : forall k m, length (hmac k m) = 20%nat.

(** A request ends with a valid MESSAGE-INTEGRITY and names the credentials of the server. *)
Definition authentic (s : Relay) (request : list Z) : bool :=
  let m := take (length request - 24) request in
  let attrs := attributes_of (drop 20 m) in
  bool_decide (drop (length request - 24) request =
    put_u16 ATTR_MESSAGE_INTEGRITY ++ put_u16 20 ++
    hmac (compute_long_term_key md5 (r_username s) (r_realm s) (r_password s)) m) &&
  bool_decide (find_attr ATTR_USERNAME attrs = Some (r_username s)) &&
  bool_decide (find_attr ATTR_REALM attrs = Some (r_realm s)) &&
  bool_decide (find_attr ATTR_NONCE attrs = Some (r_nonce s)).

(** The LIFETIME attribute of a request. *)
Definition lifetime_attr (attrs : list (Z * list Z)) : option Z :=
  let* v := find_attr ATTR_LIFETIME attrs in read_u32 v.

Definition serve (s : Relay) (request : list Z) : list Z :=
  let txn := take 12 (drop 8 request) in
  let t := default 0 (fst <$> get_u16 request) in
  let granted := r_grant s (lifetime_attr (attributes_of (drop 20 request))) in
  if authentic s request then
    if t =? ALLOCATE_REQUEST then
      reply ALLOCATE_RESPONSE
        [(ATTR_XOR_RELAYED_ADDRESS, xor_value (r_relayed s) txn); (ATTR_XOR_MAPPED_ADDRESS, xor_value (r_mapped s) txn);
         (ATTR_LIFETIME, put_u32 granted)] txn
    else if t =? REFRESH_REQUEST then reply REFRESH_RESPONSE [(ATTR_LIFETIME, put_u32 granted)] txn
    else reply CREATE_PERMISSION_RESPONSE [] txn
  else reply (t + 272) [(ATTR_ERROR_CODE, [0; 0; 4; 1]); (ATTR_REALM, r_realm s); (ATTR_NONCE, r_nonce s)] txn.

(** The server answers after [slow] lost datagrams. *)
Definition serving (s : Relay) (slow : nat) (request : list Z) (k : nat) : Exchange :=
  if (k <? slow)%nat then XTimedOut else XReceived (serve s request).

(** What the server holds fits the attributes of RFC 5389 section 15. *)
Record relay_ok (s : Relay) : Prop := {
  ro_username : zlen (r_username s) <= 512;
  ro_realm : zlen (r_realm s) <= 763 /\ from_utf8_lossy (r_realm s) = r_realm s;
  ro_nonce : zlen (r_nonce s) <= 763 /\ from_utf8_lossy (r_nonce s) = r_nonce s;
  ro_relayed : addr_ok (r_relayed s);
  ro_mapped : addr_ok (r_mapped s);
  ro_grant : forall requested, is_u32 (r_grant s requested)
}.

Lemma read_put_u32 v : is_u32 v -> read_u32 (put_u32 v) = Some v.
Proof. intros Hv. unfold read_u32. pose proof (get_put_u32 v []) as E. rewrite app_nil_r in E. by rewrite E. Qed.

Lemma raw_attempts_ext (f g : nat -> Exchange) n : (forall j, f j = g j) -> raw_attempts n f = raw_attempts n g.
Proof.
  revert f g. induction n as [|n IH]; intros f g Hfg; [done|]. cbn [raw_attempts]. rewrite Hfg.
  destruct (g 0%nat); try done. apply IH. intros j. apply Hfg.
Qed.

Lemma raw_attempts_served n s slow request :
  (slow < n)%nat -> raw_attempts n (serving s slow request) = Ok (take 4096 (serve s request)).
Proof.
  assert (forall n k, (k <= slow)%nat -> (slow < n + k)%nat ->
    raw_attempts n (fun j => serving s slow request (k + j)%nat) = Ok (take 4096 (serve s request))) as H.
  { clear n. induction n as [|n IH]; intros k Hk Hn; [lia|]. cbn [raw_attempts]. unfold serving at 1.
    rewrite Nat.add_0_r. destruct (Nat.ltb_spec k slow); [|done].
    rewrite <- (IH (S k)) by lia. apply raw_attempts_ext. intros j. f_equal. lia. }
  intros Hn. apply (H n 0%nat); lia.
Qed.

Lemma patch_header t n m txn body : patch_length m (header t n txn ++ body) = header t m txn ++ body.
Proof. unfold patch_length, header. by rewrite <- !app_assoc. Qed.

Lemma body_zlen attrs :
  zlen (body_of attrs) = foldr (fun a n => 4 + padded (zlen a.2) + n) 0 attrs.
Proof.
  unfold body_of. induction attrs as [|a l IH]; [done|]. cbn [map concat foldr]. rewrite zlen_app, zlen_attr, IH. lia.
Qed.

Lemma padded_bound n : 0 <= n -> n <= padded n <= n + 3.
Proof.
  intros Hn. rewrite padded_pad by done. unfold pad_len. pose proof (Z.mod_pos_bound (4 - n mod 4) 4 ltac:(lia)). lia.
Qed.

(** A signed request is the header with the final length, the attributes and the MAC of both. *)
Definition sealed (s : Relay) (t : Z) (attrs : list (Z * list Z)) (txn : list Z) : list Z :=
  let m := header t (zlen (body_of attrs) + 24) txn ++ body_of attrs in
  m ++ put_u16 ATTR_MESSAGE_INTEGRITY ++ put_u16 20 ++
  hmac (compute_long_term_key md5 (r_username s) (r_realm s) (r_password s)) m.

(** The attributes of credentials. *)
Definition credentials (s : Relay) : list (Z * list Z) :=
  [(ATTR_USERNAME, r_username s); (ATTR_REALM, r_realm s); (ATTR_NONCE, r_nonce s)].

Definition auth_for (s : Relay) : AuthContext := mkAuth (r_username s) (r_realm s) (r_nonce s).

Lemma signed_sealed s c t attrs :
  length (transaction_id c) = 12%nat -> t_password (t_server c) = r_password s ->
  signed hmac md5 (auth_for s) c (message t (body_of attrs ++ auth_attrs (auth_for s)) c) =
  sealed s t (attrs ++ credentials s) (transaction_id c).
Proof.
  intros Ht Hp. assert (body_of attrs ++ auth_attrs (auth_for s) = body_of (attrs ++ credentials s)) as ->.
  { unfold body_of. rewrite map_app, concat_app. f_equal. unfold auth_attrs, credentials. cbn. by rewrite app_nil_r. }
  unfold signed, add_message_integrity, sign, message, sealed. rewrite Hp. cbn [username realm auth_for].
  rewrite patch_header, zlen_app, zlen_header by done.
  replace (20 + zlen (body_of (attrs ++ credentials s)) - 20 + 24) with (zlen (body_of (attrs ++ credentials s)) + 24) by lia.
  done.
Qed.

Lemma sealed_split s t attrs txn :
  let m := header t (zlen (body_of attrs) + 24) txn ++ body_of attrs in
  take (length (sealed s t attrs txn) - 24) (sealed s t attrs txn) = m /\
  drop (length (sealed s t attrs txn) - 24) (sealed s t attrs txn) =
    put_u16 ATTR_MESSAGE_INTEGRITY ++ put_u16 20 ++ hmac (compute_long_term_key md5 (r_username s) (r_realm s) (r_password s)) m.
Proof.
  intros m. unfold sealed. fold m. set (mi := put_u16 ATTR_MESSAGE_INTEGRITY ++ _).
  assert (length mi = 24%nat) as Hl by (subst mi; rewrite !length_app, hmac_length; done).
  rewrite length_app, Hl, Nat.add_sub. by rewrite take_app_length, drop_app_length.
Qed.

Lemma sealed_authentic s t attrs txn :
  length txn = 12%nat -> Forall (fun a => is_u16 a.1 /\ zlen a.2 < 65536) (attrs ++ credentials s) ->
  Forall (fun a => a.1 ∉ [ATTR_USERNAME; ATTR_REALM; ATTR_NONCE]) attrs ->
  authentic s (sealed s t (attrs ++ credentials s) txn) = true.
Proof.
  intros Ht Ha Hn. unfold authentic. destruct (sealed_split s t (attrs ++ credentials s) txn) as [-> ->].
  rewrite bool_decide_true by done.
  assert (drop 20 (header t (zlen (body_of (attrs ++ credentials s)) + 24) txn ++ body_of (attrs ++ credentials s)) =
    body_of (attrs ++ credentials s)) as ->.
  { apply drop_app_length'. by rewrite length_header. }
  unfold body_of. rewrite attributes_encode by done.
  assert (forall t v, t ∈ [ATTR_USERNAME; ATTR_REALM; ATTR_NONCE] -> find_attr t (credentials s) = Some v ->
    find_attr t (attrs ++ credentials s) = Some v) as Hf.
  { intros t' v Ht' E. unfold find_attr in *. induction Hn as [|[ta va] l Ha' _ IH]; [done|]. cbn [app List.find fst].
    destruct (Z.eqb_spec ta t') as [->|_]; [done|]. apply IH. by inversion Ha. }
  rewrite (Hf ATTR_USERNAME (r_username s)), (Hf ATTR_REALM (r_realm s)), (Hf ATTR_NONCE (r_nonce s)) by (done || set_solver).
  by rewrite !bool_decide_true.
Qed.

Lemma request_fields t n txn rest :
  length txn = 12%nat ->
  take 12 (drop 8 (header t n txn ++ rest)) = txn /\ fst <$> get_u16 (header t n txn ++ rest) = Some t.
Proof.
  intros Ht. unfold header. rewrite <- !app_assoc. split.
  - change (drop 8 _) with (txn ++ rest). by apply take_app_length'.
  - by rewrite get_put_u16.
Qed.

Lemma sizes_nonneg (l : list (Z * list Z)) : 0 <= foldr (fun a n => zlen a.2 + 7 + n) 0 l.
Proof. induction l as [|b l IH]; cbn [foldr]; [lia|pose proof (zlen_nonneg b.2); lia]. Qed.

(** Attributes within the limits make a message that the client's buffer holds. *)
Lemma small_attrs attrs :
  Forall (fun a => is_u16 a.1) attrs -> foldr (fun a n => zlen a.2 + 7 + n) 0 attrs <= 4000 ->
  attrs_ok attrs /\ forall t txn, length txn = 12%nat -> take 4096 (reply t attrs txn) = reply t attrs txn.
Proof.
  intros Ht Hs.
  assert (zlen (body_of attrs) <= foldr (fun a n => zlen a.2 + 7 + n) 0 attrs) as Hb.
  { rewrite body_zlen. clear. induction attrs as [|a l IH]; cbn [foldr]; [lia|].
    pose proof (padded_bound (zlen a.2) (zlen_nonneg _)). lia. }
  assert (Forall (fun a : Z * list Z => zlen a.2 < 65536) attrs) as Hf.
  { clear Ht Hb. induction attrs as [|a l IH]; [constructor|]. cbn [foldr] in Hs. pose proof (sizes_nonneg l).
    pose proof (zlen_nonneg a.2). constructor; [lia|]. apply IH. lia. }
  split.
  - split; [|unfold body_of in Hb; lia]. rewrite Forall_forall in Ht, Hf. apply Forall_forall. intros a Ha. split; [by apply Ht|by apply Hf].
  - intros t txn Hx. apply take_ge. assert (zlen (reply t attrs txn) <= 4020) as Hl
      by (unfold reply; rewrite zlen_app, zlen_header by done; lia). unfold zlen in Hl. lia.
Qed.

Section Session.
Variables (s : Relay) (slow : nat) (c0 : TurnClient).
Hypothesis Hs : relay_ok s.
Hypothesis Huser : t_username (t_server c0) = r_username s.
Hypothesis Hpwd : t_password (t_server c0) = r_password s.
Hypothesis Hslow : Z.of_nat slow < t_retries c0.

(** The client of the session in some state. *)
Definition same_client (c : TurnClient) : Prop :=
  t_server c = t_server c0 /\ t_retries c = t_retries c0 /\ length (transaction_id c) = 12%nat.

Lemma served c request : same_client c -> send_raw (serving s slow) request c = Ok (take 4096 (serve s request)).
Proof. intros (_ & Hr & _). unfold send_raw. apply raw_attempts_served. rewrite Hr. lia. Qed.

(** The answer to a sealed request. *)
Lemma serve_sealed t attrs txn :
  length txn = 12%nat -> Forall (fun a => is_u16 a.1 /\ zlen a.2 < 65536) attrs ->
  Forall (fun a => a.1 ∉ [ATTR_USERNAME; ATTR_REALM; ATTR_NONCE]) attrs ->
  serve s (sealed s t (attrs ++ credentials s) txn) =
  if t =? ALLOCATE_REQUEST then
    reply ALLOCATE_RESPONSE
      [(ATTR_XOR_RELAYED_ADDRESS, xor_value (r_relayed s) txn); (ATTR_XOR_MAPPED_ADDRESS, xor_value (r_mapped s) txn);
       (ATTR_LIFETIME, put_u32 (r_grant s (lifetime_attr attrs)))] txn
  else if t =? REFRESH_REQUEST then
    reply REFRESH_RESPONSE [(ATTR_LIFETIME, put_u32 (r_grant s (lifetime_attr attrs)))] txn
  else reply CREATE_PERMISSION_RESPONSE [] txn.
Proof.
  intros Ht Ha Hn. destruct Hs as [Hu [Hr _] [Hno _] _ _ _].
  assert (Forall (fun a => is_u16 a.1 /\ zlen a.2 < 65536) (attrs ++ credentials s)) as Hall.
  { apply Forall_app. split; [done|]. unfold credentials. repeat (apply Forall_cons; split); [..|constructor];
      (split; [split; vm_compute; (discriminate || reflexivity)|cbn; lia]). }
  unfold serve. rewrite sealed_authentic by done.
  set (mac := hmac (compute_long_term_key md5 (r_username s) (r_realm s) (r_password s))
    (header t (zlen (body_of (attrs ++ credentials s)) + 24) txn ++ body_of (attrs ++ credentials s))).
  assert (sealed s t (attrs ++ credentials s) txn =
    header t (zlen (body_of (attrs ++ credentials s)) + 24) txn ++ body_of ((attrs ++ credentials s) ++ [(ATTR_MESSAGE_INTEGRITY, mac)])) as E.
  { unfold sealed. rewrite <- app_assoc. f_equal. unfold body_of. rewrite (map_app _ (attrs ++ credentials s)), concat_app. f_equal.
    cbn [map concat]. unfold attr. cbn [fst snd]. unfold zlen. unfold mac. rewrite hmac_length. cbn. by rewrite !app_nil_r. }
  rewrite E. destruct (request_fields t (zlen (body_of (attrs ++ credentials s)) + 24) txn
    (body_of ((attrs ++ credentials s) ++ [(ATTR_MESSAGE_INTEGRITY, mac)])) Ht) as [-> ->]. change (default 0 (Some t)) with t.
  rewrite drop_app_length' by (by rewrite length_header).
  unfold body_of. rewrite attributes_encode.
  - assert (lifetime_attr ((attrs ++ credentials s) ++ [(ATTR_MESSAGE_INTEGRITY, mac)]) = lifetime_attr attrs) as ->; [|done].
    unfold lifetime_attr, find_attr. rewrite <- app_assoc. clearbody mac. clear. induction attrs as [|[ta va] l IH]; [done|].
    cbn [app List.find fst]. by destruct (ta =? ATTR_LIFETIME).
  - apply Forall_app. split; [done|]. constructor; [|constructor]. cbn [fst snd].
    split; [split; vm_compute; (discriminate || reflexivity)|]. unfold mac, zlen. rewrite hmac_length. lia.
Qed.

(** The first request carries no credentials, so the server asks for them. *)
Lemma unsigned_challenged c :
  same_client c ->
  send_request (serving s slow) (build_allocate_request hmac md5 None c) c = Some (Ok (AuthRequired (r_realm s) (r_nonce s))).
Proof.
  intros Hc. unfold send_request. rewrite served by done. destruct Hc as (_ & _ & Ht). destruct Hs as [_ [Hr Er] [Hno En] _ _ _].
  cbn [build_allocate_request]. unfold message. set (b := attr ATTR_REQUESTED_TRANSPORT _).
  assert (authentic s (header ALLOCATE_REQUEST (zlen b) (transaction_id c) ++ b) = false) as Ha.
  { unfold authentic. rewrite !length_app, length_header by done. change (20 + length b - 24)%nat with 4%nat.
    rewrite bool_decide_false; [done|]. intros E. unfold header in E. cbn in E. discriminate. }
  unfold serve. rewrite Ha. destruct (request_fields ALLOCATE_REQUEST (zlen b) (transaction_id c) b Ht) as [-> ->].
  change (default 0 (Some ALLOCATE_REQUEST) + 272) with ALLOCATE_ERROR.
  match goal with |- context [reply _ ?l _] => destruct (small_attrs l) as [Hok Htake] end.
  - repeat (apply Forall_cons; split); [..|constructor]; split; vm_compute; (discriminate || reflexivity).
  - cbn [foldr fst snd]. change (zlen [0; 0; 4; 1]) with 4. lia.
  - rewrite Htake, parse_allocate_reply by done. cbn -[from_utf8_lossy]. change (zlen [0; 0; 4; 1]) with 4. cbn -[from_utf8_lossy]. by rewrite Er, En.
Qed.

Lemma one_small (t : Z) (v : list Z) :
  is_u16 t -> zlen v <= 20 -> t ∉ [ATTR_USERNAME; ATTR_REALM; ATTR_NONCE] ->
  Forall (fun a => is_u16 a.1 /\ zlen a.2 < 65536) [(t, v)] /\
  Forall (fun a : Z * list Z => a.1 ∉ [ATTR_USERNAME; ATTR_REALM; ATTR_NONCE]) [(t, v)].
Proof. intros Ht Hv Hn. split; (constructor; [|constructor]); cbn [fst snd]; [split; [done|lia]|done]. Qed.

(** What a signed request of the client with attribute [(t, v)] is answered. *)
Lemma signed_served c op t v :
  same_client c -> is_u16 t -> zlen v <= 20 -> t ∉ [ATTR_USERNAME; ATTR_REALM; ATTR_NONCE] ->
  send_raw (serving s slow) (signed hmac md5 (auth_for s) c (message op (attr t v ++ auth_attrs (auth_for s)) c)) c =
  Ok (take 4096
    (if op =? ALLOCATE_REQUEST then
       reply ALLOCATE_RESPONSE
         [(ATTR_XOR_RELAYED_ADDRESS, xor_value (r_relayed s) (transaction_id c));
          (ATTR_XOR_MAPPED_ADDRESS, xor_value (r_mapped s) (transaction_id c));
          (ATTR_LIFETIME, put_u32 (r_grant s (lifetime_attr [(t, v)])))] (transaction_id c)
     else if op =? REFRESH_REQUEST then
       reply REFRESH_RESPONSE [(ATTR_LIFETIME, put_u32 (r_grant s (lifetime_attr [(t, v)])))] (transaction_id c)
     else reply CREATE_PERMISSION_RESPONSE [] (transaction_id c))).
Proof.
  intros Hc Ht Hv Hn. rewrite served by done. destruct Hc as (Hsv & _ & Hx).
  replace (attr t v) with (body_of [(t, v)]) by (unfold body_of; cbn [map concat fst snd]; apply app_nil_r).
  rewrite signed_sealed by (done || by rewrite Hsv). destruct (one_small t v Ht Hv Hn) as [H1 H2]. by rewrite serve_sealed.
Qed.

(** Signed, the server grants the allocation. *)
Lemma signed_granted c :
  same_client c ->
  send_request (serving s slow) (build_allocate_request hmac md5 (Some (auth_for s)) c) c =
  Some (Ok (Success (mkAllocation (r_relayed s) (r_mapped s) (r_grant s None) [] []))).
Proof.
  intros Hc. unfold send_request, build_allocate_request. rewrite signed_served.
  2-5: done || (split; vm_compute; (discriminate || reflexivity)) || (vm_compute; discriminate) || idtac.
  - destruct Hc as (_ & _ & Ht). destruct Hs as [_ _ _ Hrel Hmap Hlife]. change (ALLOCATE_REQUEST =? ALLOCATE_REQUEST) with true. cbn iota.
    pose proof (zlen_xor_value _ _ Hrel Ht). pose proof (zlen_xor_value _ _ Hmap Ht).
    match goal with |- context [reply _ ?l _] => destruct (small_attrs l) as [Hok Htake] end.
    + repeat (apply Forall_cons; split); [..|constructor]; split; vm_compute; (discriminate || reflexivity).
    + cbn [foldr fst snd]. change (zlen (put_u32 _)) with 4. lia.
    + rewrite Htake by done. rewrite parse_allocate_reply by done.
      change (ALLOCATE_RESPONSE =? ALLOCATE_ERROR) with false. change (ALLOCATE_RESPONSE =? ALLOCATE_RESPONSE) with true.
      cbn [negb foldl allocate_step]. unfold allocate_step.
      rewrite !parse_xor_roundtrip by done. by rewrite read_put_u32.
  - apply not_elem_of_cons; split; [discriminate|]. set_solver by discriminate.
Qed.

Lemma same_auth (c : TurnClient) alloc :
  t_server c = t_server c0 -> a_realm alloc = r_realm s -> a_nonce alloc = r_nonce s -> auth_of alloc c = auth_for s.
Proof. intros Hc Hr Hn. unfold auth_of, auth_for. by rewrite Hc, Huser, Hr, Hn. Qed.

Lemma allocate_granted c txn1 txn2 :
  t_server c = t_server c0 -> t_retries c = t_retries c0 -> length txn1 = 12%nat -> length txn2 = 12%nat ->
  let alloc := mkAllocation (r_relayed s) (r_mapped s) (r_grant s None) (r_realm s) (r_nonce s) in
  allocate hmac md5 (serving s slow) txn1 txn2 c =
  Some (Ok alloc, mkTurnClient (t_server c) (t_retries c) (Some alloc) txn2).
Proof.
  intros Hsv Hr H1 H2 alloc. unfold allocate. rewrite unsigned_challenged by done. cbn [mbind option_bind].
  set (c2 := (c <| transaction_id := txn1 |>) <| transaction_id := txn2 |>).
  change (t_server c2) with (t_server c). replace (mkAuth (t_username (t_server c)) _ _) with (auth_for s)
    by (unfold auth_for; by rewrite Hsv, Huser).
  rewrite signed_granted by done. done.
Qed.

Lemma permission_granted c alloc txn peer :
  t_server c = t_server c0 -> t_retries c = t_retries c0 -> length txn = 12%nat ->
  allocation c = Some alloc -> a_realm alloc = r_realm s -> a_nonce alloc = r_nonce s -> addr_ok peer ->
  create_permission hmac md5 (serving s slow) txn peer c = Some (Ok tt, c <| transaction_id := txn |>).
Proof.
  intros Hsv Hr Ht Ha Hre Hno Hp. unfold create_permission. rewrite Ha.
  set (c2 := c <| transaction_id := txn |>). assert (same_client c2) as Hc2 by done.
  rewrite same_auth by done. unfold build_permission_request, encode_xor_address. rewrite signed_served.
  2: done. 2: (split; vm_compute; (discriminate || reflexivity)). 2: by apply zlen_xor_value.
  2: set_solver by discriminate.
  change (CREATE_PERMISSION_REQUEST =? ALLOCATE_REQUEST) with false. change (CREATE_PERMISSION_REQUEST =? REFRESH_REQUEST) with false.
  cbn iota. destruct (small_attrs []) as [_ Htake]; [constructor|cbn; lia|]. rewrite Htake by apply Hc2.
  unfold parse_permission_response, reply.
  destruct (read_reply CREATE_PERMISSION_RESPONSE (zlen (body_of [])) (transaction_id c2) (body_of []) Ht) as (E1 & E2 & _).
  by rewrite E1, E2.
Qed.

Lemma refresh_granted c alloc txn requested :
  t_server c = t_server c0 -> t_retries c = t_retries c0 -> length txn = 12%nat ->
  allocation c = Some alloc -> a_realm alloc = r_realm s -> a_nonce alloc = r_nonce s -> is_u32 requested ->
  let granted := r_grant s (Some requested) in
  refresh hmac md5 (serving s slow) txn requested c =
  Some (Ok granted, (c <| transaction_id := txn |>) <| allocation := Some (alloc <| lifetime := granted |>) |>).
Proof.
  intros Hsv Hr Ht Ha Hre Hno Hreq granted. unfold refresh. rewrite Ha.
  set (c2 := c <| transaction_id := txn |>). assert (same_client c2) as Hc2 by done.
  rewrite same_auth by done. unfold build_refresh_request. rewrite signed_served.
  2: done. 2: (split; vm_compute; (discriminate || reflexivity)). 2: (vm_compute; discriminate).
  2: set_solver by discriminate.
  change (REFRESH_REQUEST =? ALLOCATE_REQUEST) with false. change (REFRESH_REQUEST =? REFRESH_REQUEST) with true. cbn iota.
  change (lifetime_attr [(ATTR_LIFETIME, put_u32 requested)]) with (read_u32 (put_u32 requested)).
  rewrite (read_put_u32 requested) by done. fold granted.
  destruct (small_attrs [(ATTR_LIFETIME, put_u32 granted)]) as [Hok Htake].
  - constructor; [split; vm_compute; (discriminate || reflexivity)|constructor].
  - vm_compute. discriminate.
  - rewrite Htake by apply Hc2. rewrite parse_refresh_reply by (done || apply Hc2). cbn [mbind option_bind foldl].
    unfold lifetime_step. cbn [fst snd]. change (ATTR_LIFETIME =? ATTR_LIFETIME) with true. cbn iota.
    rewrite read_put_u32; [done|]. apply Hs.
Qed.

End Session.

(** A server that answers too late. *)
Lemma raw_attempts_late n s slow request : (n <= slow)%nat -> raw_attempts n (serving s slow request) = Err TTimeout.
Proof.
  assert (forall n k, (n + k <= slow)%nat -> raw_attempts n (fun j => serving s slow request (k + j)%nat) = Err TTimeout) as H.
  { clear n. induction n as [|n IH]; intros k Hk; [done|]. cbn [raw_attempts]. unfold serving at 1.
    rewrite Nat.add_0_r, (proj2 (Nat.ltb_lt _ _)) by lia. rewrite <- (IH (S k)) by lia.
    apply raw_attempts_ext. intros j. f_equal. lia. }
  intros Hn. apply (H n 0%nat). lia.
Qed.

End Server.


Definition sample_hmac (key msg : list Z) : list Z := take 20 (key ++ msg ++ replicate 20 7).

Definition sample_relay : Relay :=
  mkRelay [117] [112; 119] [114; 101; 97; 108; 109] [110; 49] (mkSocketAddr (V4 [198; 51; 100; 9]) 49170)
    (mkSocketAddr (V4 [203; 0; 113; 7]) 54321) (rfc5766_grant 600 3600).

Definition sample_client : TurnClient :=
  turn_new (mkTurnServer (mkSocketAddr (V4 [198; 51; 100; 1]) 3478) [117] [112; 119]) sample_txn.

Lemma v4_ok o p :
  length o = 4%nat -> forallb (fun b => (0 <=? b) && (b <? 256)) o = true -> is_u16 p -> addr_ok (mkSocketAddr (V4 o) p).
Proof. intros Hl Ho Hp. split; [|done]. split; [done|by apply bytes_ok]. Qed.

Lemma sample_relay_ok : relay_ok sample_relay.
Proof.
  constructor.
  - vm_compute. discriminate.
  - split; [vm_compute; discriminate|vm_compute; reflexivity].
  - split; [vm_compute; discriminate|vm_compute; reflexivity].
  - apply v4_ok; [reflexivity..|split; vm_compute; (discriminate || reflexivity)].
  - apply v4_ok; [reflexivity..|split; vm_compute; (discriminate || reflexivity)].
  - intros requested. apply rfc5766_grant_u32; split; vm_compute; (discriminate || reflexivity).
Qed.


(** ** Data through the relays *)

(** The server reads a Send indication of its client (RFC 5766 section 10.2): the peer and the
    payload of the datagram it sends from the relayed address. *)
Definition relay_out (indication : list Z) : option (Addr * list Z) :=
  let attrs := attributes_of (drop 20 indication) in
  let* t := fst <$> get_u16 indication in
  if negb (t =? SEND_INDICATION) then None else
  let* v := find_attr ATTR_XOR_PEER_ADDRESS attrs in
  let* peer := parse_xor_address v (take 12 (drop 8 indication)) in
  let* data := find_attr ATTR_DATA attrs in
  Some (peer, data).

(** The server wraps a datagram from a peer into a Data indication (section 10.3). *)
Definition relay_in (txn : list Z) (from : Addr) (data : list Z) : list Z :=
  reply DATA_INDICATION [(ATTR_XOR_PEER_ADDRESS, xor_value from txn); (ATTR_DATA, data)] txn.

Lemma peer_data_ok peer data txn :
  addr_ok peer -> length txn = 12%nat -> zlen data <= 65480 ->
  let attrs := [(ATTR_XOR_PEER_ADDRESS, xor_value peer txn); (ATTR_DATA, data)] in
  attrs_ok attrs /\ zlen (body_of attrs) <= 65511.
Proof.
  intros Hp Ht Hd attrs. pose proof (zlen_xor_value peer txn Hp Ht) as Hx.
  assert (zlen (body_of attrs) <= 65511) as Hb.
  { rewrite body_zlen. cbn [attrs foldr snd]. pose proof (padded_bound _ (zlen_nonneg data)).
    assert (padded (zlen (xor_value peer txn)) <= 20); [|lia].
    pose proof (padded_bound _ (zlen_nonneg (xor_value peer txn))).
    destruct (addr_ip peer) eqn:E; unfold xor_value in *; rewrite E in *; destruct Hp as [Hip _]; rewrite E in Hip;
      destruct Hip as [Hl _]; unfold zlen; rewrite !length_app; unfold xor_bytes; rewrite ?length_app, ?length_zip_with, ?length_take, ?length_drop;
      rewrite Hl; rewrite ?Ht; vm_compute; discriminate. }
  split; [|done]. split; [|unfold body_of in Hb; lia].
  repeat (apply Forall_cons; split); [..|constructor]; cbn [fst snd]; (split; [split; vm_compute; (discriminate || reflexivity)|lia]).
Qed.

(** Data through two relays.  What [send_data] emits for a peer, the client's server reads
    as that peer and the very payload; and when the peer's server wraps a datagram from a relayed
    address for its own client, [recv_data] returns that address and the payload, for IPv4 and
    IPv6 peers and every payload that fits a datagram.  Without an allocation nothing is sent. *)
Theorem turn_relay_roundtrip c peer from data txn :
  addr_ok peer -> addr_ok from -> length (transaction_id c) = 12%nat -> length txn = 12%nat -> zlen data <= 65480 ->
  match allocation c with
  | None => send_data peer data c = Err NotAllocated
  | Some _ =>
      exists indication,
        send_data peer data c = Ok indication /\
        relay_out indication = Some (peer, data) /\
        recv_data (Some (relay_in txn from data)) = Some (Ok (from, data))
  end.
Proof.
  intros Hp Hf Hc Ht Hd. unfold send_data. destruct (allocation c) as [alloc|]; [|done].
  eexists. split; [reflexivity|]. destruct (peer_data_ok peer data (transaction_id c) Hp Hc Hd) as [[Ha _] _].
  destruct (peer_data_ok from data txn Hf Ht Hd) as [Hok Hb]. split.
  - unfold build_send_indication, message, encode_xor_address, relay_out.
    set (attrs := [(ATTR_XOR_PEER_ADDRESS, xor_value peer (transaction_id c)); (ATTR_DATA, data)]) in *.
    replace (attr ATTR_XOR_PEER_ADDRESS _ ++ attr ATTR_DATA data) with (body_of attrs)
      by (unfold body_of; cbn [attrs map concat fst snd]; by rewrite app_nil_r).
    rewrite drop_app_length' by (by rewrite length_header).
    destruct (request_fields SEND_INDICATION (zlen (body_of attrs)) (transaction_id c) (body_of attrs) Hc) as [-> ->].
    unfold body_of. rewrite attributes_encode by done. cbn [mbind option_bind].
    change (find_attr ATTR_XOR_PEER_ADDRESS attrs) with (Some (xor_value peer (transaction_id c))).
    change (find_attr ATTR_DATA attrs) with (Some data). change (negb (SEND_INDICATION =? SEND_INDICATION)) with false.
    cbn [mbind option_bind]. by rewrite parse_xor_roundtrip.
  - unfold recv_data, relay_in. rewrite take_ge.
    + rewrite parse_data_reply by done. cbn [foldl]. unfold data_step. cbn. by rewrite parse_xor_roundtrip.
    + assert (zlen (reply DATA_INDICATION [(ATTR_XOR_PEER_ADDRESS, xor_value from txn); (ATTR_DATA, data)] txn) <= 65536) as Hz
        by (unfold reply; rewrite zlen_app, zlen_header by done; lia). unfold zlen in Hz at 1. lia.
Qed.

Definition sample_v6 : Addr := mkSocketAddr (V6 [32; 1; 13; 184; 0; 0; 0; 0; 0; 0; 0; 0; 0; 0; 0; 7]) 5004.

Lemma turn_relay_roundtrip_witness :
  let c := sample_client <| allocation := Some (mkAllocation sample_public sample_public 600 [] []) |> in
  exists indication,
    send_data sample_v6 [1; 2; 3] c = Ok indication /\
    relay_out indication = Some (sample_v6, [1; 2; 3]) /\
    recv_data (Some (relay_in sample_txn sample_public [1; 2; 3])) = Some (Ok (sample_public, [1; 2; 3])).
Proof.
  intros c. refine (turn_relay_roundtrip c sample_v6 sample_public [1; 2; 3] sample_txn _ _ eq_refl eq_refl _).
  - split; [split; [done|apply bytes_ok; reflexivity]|split; vm_compute; (discriminate || reflexivity)].
  - apply v4_ok; [reflexivity..|split; vm_compute; (discriminate || reflexivity)].
  - vm_compute. discriminate.
Defined.

(** A reply whose length field says more than the datagram holds panics. *)
Example short_reply_panics :
  parse_allocate_response (header ALLOCATE_RESPONSE 4 sample_txn) sample_client = None /\
  parse_refresh_response (header REFRESH_RESPONSE 4 sample_txn) = None /\
  parse_data_indication (header DATA_INDICATION 4 sample_txn) = None.
Proof. vm_compute. auto. Qed.

(** The answers to a refresh and to a permission are taken from any transaction. *)
Example foreign_refresh_taken :
  parse_refresh_response (reply REFRESH_RESPONSE [(ATTR_LIFETIME, [0; 0; 0; 9])] (replicate 12 0)) = Some (Ok 9) /\
  parse_permission_response (reply CREATE_PERMISSION_RESPONSE [] (replicate 12 0)) = Some (Ok tt).
Proof. vm_compute. auto. Qed.

(** A message without MESSAGE-INTEGRITY passes the verification. *)
Example unsigned_verifies :
  verify_message_integrity sample_hmac id (header ALLOCATE_RESPONSE 0 sample_txn) [117] [114] [112] = true.
Proof. reflexivity. Qed.
