(* ===== verification/IceAgent.v ===== *)
(** * The ICE agent and its sessions ([ice/agent.rs], [session/ice_session.rs])

    Gathering of candidates, the pairs and the order in which they are checked, the checks
    themselves, the dispatcher that answers the checks of the peer, and the session that hands
    the validated socket to the media.  HMAC-SHA1 is a parameter, and so is the text of an
    [IpAddr], which enters the foundations.  A socket is named by the address it is bound to.
    What the system calls return, the random bytes and the datagrams that arrive while the agent
    waits are arguments of the operations.  The outer [option] is [None] on a panic. *)

From S2P Require Import Prelude RStr RtpPacket Srtp Rtcp IceCandidate Stun Turn.
From stdpp Require Import countable.

Local Open Scope Z_scope.

#[export] Instance Ip_countable : Countable Ip.
Proof.
  refine (inj_countable' (fun a => match a with V4 o => inl o | V6 o => inr o end)
    (fun s => match s with inl o => V4 o | inr o => V6 o end) _). by intros [].
Defined.

#[export] Instance Addr_countable : Countable Addr.
Proof.
  refine (inj_countable' (fun a : Addr => (addr_ip a, addr_port a)) (fun p => mkSocketAddr p.1 p.2) _). by intros [].
Defined.

#[export] Instance transport_eq_dec : EqDecision Transport.
Proof. solve_decision. Defined.

#[export] Instance candidate_type_eq_dec : EqDecision CandidateType.
Proof. solve_decision. Defined.

Abbreviation Cand := (@Candidate Ip).

(** ** Data *)

Inductive IceError : Type :=
| AgentIo
| NoCandidates
| CheckFailed.

Inductive IceRole : Type := Controlling | Controlled.

Module IceState.
Inductive t : Type := New | Gathering | Checking | Connected | Completed | Failed | Closed.
End IceState.

Module PairState.
Inductive t : Type := Waiting | InProgress | Succeeded | Failed | Frozen.
End PairState.

#[export] Instance role_eq_dec : EqDecision IceRole.
Proof. solve_decision. Defined.

#[export] Instance pair_state_eq_dec : EqDecision PairState.t.
Proof. solve_decision. Defined.

Record CandidatePair : Type := mkPair {
  local : Cand;
  remote : Cand;
  pair_priority : Z;
  pair_state : PairState.t;
  nominated : bool
}.

#[export] Instance pair_eta : Settable CandidatePair := fun x =>
  mkPair (local x) (remote x) (pair_priority x) (pair_state x) (nominated x).

Record IceConfig : Type := mkIceConfig {
  stun_servers : list StunServer;
  local_ufrag : list Z;
  local_pwd : list Z;
  gather_timeout_ms : Z;
  check_timeout_ms : Z
}.

(** The [PendingResponses] are the transactions that wait. *)
Record IceAgent : Type := mkAgent {
  config : IceConfig;
  role : IceRole;
  state : IceState.t;
  local_candidates : list Cand;
  remote_candidates : list Cand;
  candidate_pairs : list CandidatePair;
  selected_pair : option CandidatePair;
  sockets : gset Addr;
  responder_tasks : gset Addr;
  pending_responses : gset (list Z);
  remote_ufrag : option (list Z);
  remote_pwd : option (list Z)
}.

#[export] Instance agent_eta : Settable IceAgent := fun x =>
  mkAgent (config x) (role x) (state x) (local_candidates x) (remote_candidates x) (candidate_pairs x)
    (selected_pair x) (sockets x) (responder_tasks x) (pending_responses x) (remote_ufrag x) (remote_pwd x).

(** ** Configuration *)

(** A character for an index that the generator draws from [0..36]. *)
Definition ice_char (idx : Z) : Z := if idx <? 10 then 48 + idx else 97 + idx - 10.

Definition generate_ice_ufrag (rng : nat -> Z) : list Z := map (fun k => ice_char (rng k)) (seq 0 8).
Definition generate_ice_pwd (rng : nat -> Z) : list Z := map (fun k => ice_char (rng k)) (seq 0 24).

Definition ice_config_default (rng1 rng2 : nat -> Z) : IceConfig :=
  mkIceConfig [GOOGLE] (generate_ice_ufrag rng1) (generate_ice_pwd rng2) 1500 3000.

Definition agent_new (config : IceConfig) (role : IceRole) : IceAgent :=
  mkAgent config role IceState.New [] [] [] None ∅ ∅ ∅ None None.

Definition set_remote_credentials (ufrag pwd : list Z) (a : IceAgent) : IceAgent :=
  (a <| remote_ufrag := Some ufrag |>) <| remote_pwd := Some pwd |>.

Definition remote_credentials (a : IceAgent) : option (list Z * list Z) :=
  let* u := remote_ufrag a in let* p := remote_pwd a in Some (u, p).

Definition local_credentials (a : IceAgent) : list Z * list Z := (local_ufrag (config a), local_pwd (config a)).

Definition socket_for (addr : Addr) (a : IceAgent) : option Addr :=
  if bool_decide (addr ∈ sockets a) then Some addr else None.

(** ** The dispatcher *)

(** [std::str::from_utf8] succeeds. *)
Fixpoint utf8_from (skip : nat) (l : list Z) : bool :=
  match l with
  | [] => true
  | b :: r =>
      match skip with
      | S k => utf8_from k r
      | O => let '(ok, n) := utf8_chunk b r in ok && utf8_from (n - 1) r
      end
  end.

Definition from_utf8 (l : list Z) : option (list Z) := if utf8_from 0 l then Some l else None.

(** The part before the first colon. *)
Fixpoint before_colon (l : list Z) : list Z :=
  match l with
  | [] => []
  | b :: r => if b =? 58 then [] else b :: before_colon r
  end.

(** The loop over the attributes: [rest] is what is left of them at offset [off].  The result is
    the USERNAME before MESSAGE-INTEGRITY, and the offset and value of the latter; [None] when
    the request is rejected. *)
Fixpoint find_credentials (fuel : nat) (off : Z) (rest : list Z) (username : option (list Z))
  : option (option (list Z) * option (Z * list Z)) :=
  match fuel, rest with
  | S fuel, t1 :: t2 :: l1 :: l2 :: value =>
      let attr_type := 256 * t1 + t2 in
      let attr_len := 256 * l1 + l2 in
      if zlen value <? attr_len then None else
      let v := take (Z.to_nat attr_len) value in
      if attr_type =? ATTR_MESSAGE_INTEGRITY then
        if negb (attr_len =? 20) then None else Some (username, Some (off, v))
      else
        find_credentials fuel (off + 4 + padded attr_len) (drop (Z.to_nat (padded attr_len)) value)
          (if attr_type =? ATTR_USERNAME then Some v else username)
  | _, _ => Some (username, None)
  end.

Section Agent.
Variable hmac : list Z -> list Z -> list Z.

Definition build_binding_response (request txn_id : list Z) (from : Addr) (local_ufrag local_pwd : list Z)
  : option (list Z) :=
  if zlen request <? 20 then None else
  let* (total_attrs_len, _) := get_u16 (drop 2 request) in
  if zlen request <? 20 + total_attrs_len then None else
  let* found := find_credentials (length request) 20 (take (Z.to_nat total_attrs_len) (drop 20 request)) None in
  let* username := found.1 in
  let* (mi_offset, mi_value) := found.2 in
  let signed := patch_length (mi_offset - 20 + 24) (take (Z.to_nat mi_offset) request) in
  if negb (bool_decide (hmac local_pwd signed = mi_value)) then None else
  let* username_str := from_utf8 username in
  if negb (bool_decide (before_colon username_str = local_ufrag)) then None else
  let attrs := attr ATTR_XOR_MAPPED_ADDRESS (xor_value from txn_id) in
  Some (sign hmac local_pwd (header BINDING_RESPONSE (zlen attrs) txn_id ++ attrs)).

(** What the dispatcher makes of a datagram. *)
Inductive Dispatched : Type :=
| Dropped
| Forwarded (txn_id data : list Z)
| Answered (to : Addr) (response : list Z).

(** One turn of [stun_dispatcher_loop], with the buffer of 1500 bytes. *)
Definition dispatch (from : Addr) (datagram : list Z) (a : IceAgent) : IceAgent * Dispatched :=
  let data := take 1500 datagram in
  if zlen data =? 1500 then (a, Dropped) else
  if zlen data <? 20 then (a, Dropped) else
  let msg_type := default 0 (fst <$> get_u16 data) in
  let cookie := default 0 (fst <$> get_u32 (drop 4 data)) in
  let txn_id := take 12 (drop 8 data) in
  if bool_decide (txn_id ∈ pending_responses a) then
    (a <| pending_responses := pending_responses a ∖ {[txn_id]} |>, Forwarded txn_id data)
  else if (cookie =? MAGIC_COOKIE) && (msg_type =? BINDING_REQUEST) then
    match build_binding_response data txn_id from (local_ufrag (config a)) (local_pwd (config a)) with
    | Some resp => (a, Answered from resp)
    | None => (a, Dropped)
    end
  else (a, Dropped).

(** [ensure_dispatcher] is idempotent. *)
Definition ensure_dispatcher (local_addr : Addr) (a : IceAgent) : IceAgent :=
  a <| responder_tasks := {[local_addr]} ∪ responder_tasks a |>.

(** What happens after a request is ready: the socket has no address, the send fails, or these
    datagrams arrive in this order before the timeout. *)
Inductive Wait : Type :=
| NoLocalAddr
| SendError
| Arrivals (inbox : list (Addr * list Z)).

Inductive WaitError : Type := WaitIo | WaitTimedOut.

(** The dispatcher works through what arrives until the oneshot of [txn_id] fires; the answers
    it sends in the meantime are collected. *)
Fixpoint await_response (txn_id : list Z) (inbox : list (Addr * list Z)) (a : IceAgent)
  : option (list Z) * IceAgent * list (Addr * list Z) :=
  match inbox with
  | [] => (None, a, [])
  | (from, datagram) :: rest =>
      match dispatch from datagram a with
      | (a, Forwarded t data) =>
          if bool_decide (t = txn_id) then (Some data, a, []) else await_response txn_id rest a
      | (a, Answered to resp) =>
          let '(r, a, sent) := await_response txn_id rest a in (r, a, (to, resp) :: sent)
      | (a, Dropped) => await_response txn_id rest a
      end
  end.

Definition send_and_await_response (txn_id : list Z) (w : Wait) (a : IceAgent)
  : result (list Z) WaitError * IceAgent * list (Addr * list Z) :=
  let a := a <| pending_responses := {[txn_id]} ∪ pending_responses a |> in
  let forget (a : IceAgent) := a <| pending_responses := pending_responses a ∖ {[txn_id]} |> in
  match w with
  | Arrivals inbox =>
      let '(r, a, sent) := await_response txn_id inbox a in
      (match r with Some bytes => Ok bytes | None => Err WaitTimedOut end, forget a, sent)
  | _ => (Err WaitIo, forget a, [])
  end.

(** ** Gathering *)

Definition LOCALHOST : Ip := V4 [127; 0; 0; 1].

(** [route] is the local address of a socket connected to a public address, if there is one. *)
Definition get_local_addresses_with (route : option Addr) : list Ip :=
  match route with
  | Some local => if bool_decide (addr_ip local = LOCALHOST) then [LOCALHOST] else [addr_ip local; LOCALHOST]
  | None => [LOCALHOST]
  end.

(** What binding a socket to an address gives. *)
Inductive Bind : Type :=
| BindFailed
| BoundNowhere
| BoundTo (local_addr : Addr).

Context `{!IpAddr Ip}.

Fixpoint gather_host_candidates_with (bind : Ip -> Bind) (addrs : list Ip) (a : IceAgent)
  : result (list Cand) IceError * IceAgent :=
  match addrs with
  | [] => (Ok [], a)
  | addr :: addrs =>
      match bind addr with
      | BindFailed => gather_host_candidates_with bind addrs a
      | BoundNowhere => (Err AgentIo, a)
      | BoundTo local_addr =>
          let a := ensure_dispatcher local_addr (a <| sockets := {[local_addr]} ∪ sockets a |>) in
          match gather_host_candidates_with bind addrs a with
          | (Ok cs, a) => (Ok (host local_addr 1 :: cs), a)
          | (Err e, a) => (Err e, a)
          end
      end
  end.

(** The loop over the attributes of a server's response. *)
Fixpoint find_xor_mapped (fuel : nat) (attrs : list Z) : option (result Addr StunError) :=
  match fuel with
  | O => Some (Err NoMappedAddress)
  | S fuel =>
      if zlen attrs <? 4 then Some (Err NoMappedAddress) else
      let* (attr_type, attrs) := get_u16 attrs in
      let* (attr_len, attrs) := get_u16 attrs in
      let next (attrs : list Z) :=
        if padded attr_len <=? zlen attrs then find_xor_mapped fuel (drop (Z.to_nat (padded attr_len)) attrs)
        else Some (Err NoMappedAddress) in
      if (attr_type =? ATTR_XOR_MAPPED_ADDRESS) && (8 <=? attr_len) then
        let* (_, attrs) := get_u8 attrs in
        let* (family, attrs) := get_u8 attrs in
        let* (port, attrs) := get_u16 attrs in
        if family =? 1 then
          let* (ip, _) := split_to 4 attrs in
          Some (Ok (mkSocketAddr (V4 (xor_bytes ip cookie_bytes)) (xor_port port)))
        else next attrs
      else next attrs
  end.

Definition parse_server_response (data : list Z) : option (result Addr StunError) :=
  if zlen data <? 20 then Some (Err InvalidResponse) else
  let* (msg_type, buf) := get_u16 data in
  if negb (msg_type =? BINDING_RESPONSE) then Some (Err InvalidResponse) else
  let* (msg_len, buf) := get_u16 buf in
  let* (cookie, _) := get_u32 buf in
  if negb (cookie =? MAGIC_COOKIE) then Some (Err InvalidResponse) else
  let* attrs := slice 20 (20 + Z.min msg_len (zlen data - 20)) data in
  find_xor_mapped (length attrs) attrs.

Definition stun_binding_request (local_addr : Addr) (txn_id : list Z) (net : list Z -> Wait) (a : IceAgent)
  : option (result Addr StunError * IceAgent * list (Addr * list Z)) :=
  match net (Stun.build_binding_request txn_id) with
  | NoLocalAddr => Some (Err Io, a, [])
  | w =>
      match send_and_await_response txn_id w (ensure_dispatcher local_addr a) with
      | (Ok bytes, a, sent) => let* r := parse_server_response bytes in Some (r, a, sent)
      | (Err WaitTimedOut, a, sent) => Some (Err Timeout, a, sent)
      | (Err WaitIo, a, sent) => Some (Err Io, a, sent)
      end
  end.

(** A request to a server: its transaction and what happens to it. *)
Record Query : Type := mkQuery { q_txn : list Z; q_net : list Z -> Wait }.

(** [todo] are the sockets with the servers, [k] counts the requests made.  When the budget of the
    gathering runs out during request [cut], that request stays pending. *)
Fixpoint gather_srflx_candidates (queries : nat -> Query) (cut : option nat) (k : nat) (todo : list (Addr * StunServer))
  (a : IceAgent) : option (option (list Cand) * IceAgent * list (Addr * list Z)) :=
  match todo with
  | [] => Some (Some [], a, [])
  | (base_addr, server) :: todo =>
      let q := queries k in
      if bool_decide (cut = Some k) then
        let a := ensure_dispatcher base_addr a in
        Some (None, a <| pending_responses := {[q_txn q]} ∪ pending_responses a |>, [])
      else
        let* (r, sent) := stun_binding_request base_addr (q_txn q) (q_net q) a in
        let '(r, a) := r in
        let* (rest, sent') := gather_srflx_candidates queries cut (S k) todo a in
        let '(cs, a) := rest in
        let new := match r with
                   | Ok mapped_addr =>
                       if bool_decide (mapped_addr = base_addr) then [] else [server_reflexive mapped_addr base_addr 1]
                   | Err _ => []
                   end in
        Some (option_map (app new) cs, a, sent ++ sent')
  end.

(** When [gather_timeout_ms] elapses: never, after some of the binds, or during a request. *)
Inductive Budget : Type :=
| Enough
| DuringHosts (binds : nat)
| DuringStun (request : nat).

(** [order] is the order in which the map of sockets is iterated. *)
Definition gather_candidates (route : option Addr) (bind : Ip -> Bind) (order : gset Addr -> list Addr)
  (queries : nat -> Query) (budget : Budget) (a : IceAgent)
  : option (result (list Cand) IceError * IceAgent * list (Addr * list Z)) :=
  let a := a <| state := IceState.Gathering |> in
  let addrs := get_local_addresses_with route in
  match budget with
  | DuringHosts n =>
      match gather_host_candidates_with bind (take n addrs) a with
      | (Ok _, a) => Some (Ok (local_candidates a), a, [])
      | (Err e, a) => Some (Err e, a, [])
      end
  | _ =>
      match gather_host_candidates_with bind addrs a with
      | (Err e, a) => Some (Err e, a, [])
      | (Ok hosts, a) =>
          let a := a <| local_candidates := hosts |> in
          let todo := concat (map (fun base => map (pair base) (stun_servers (config a))) (order (sockets a))) in
          let cut := match budget with DuringStun n => Some n | _ => None end in
          let* (r, sent) := gather_srflx_candidates queries cut 0 todo a in
          match r with
          | (Some srflx, a) => Some (Ok (hosts ++ srflx), a <| local_candidates := hosts ++ srflx |>, sent)
          | (None, a) => Some (Ok (local_candidates a), a, sent)
          end
      end
  end.

(** ** Pairs *)

Definition same_addresses (l r : Cand) (p : CandidatePair) : bool :=
  bool_decide (address (local p) = address l) && bool_decide (address (remote p) = address r).

Definition add_pair (role : IceRole) (l r : Cand) (pairs : list CandidatePair) : list CandidatePair :=
  if negb (component l =? component r) then pairs else
  if negb (bool_decide (transport l = transport r)) then pairs else
  if existsb (same_addresses l r) pairs then pairs else
  pairs ++ [mkPair l r (calculate_pair_priority (bool_decide (role = Controlling)) (priority l) (priority r)) PairState.Frozen false].

Definition all_pairs (role : IceRole) (ls rs : list Cand) (pairs : list CandidatePair) : list CandidatePair :=
  foldl (fun ps l => foldl (fun ps r => add_pair role l r ps) ps rs) pairs ls.

(** The stable sort by descending priority. *)
Fixpoint insert_pair (p : CandidatePair) (l : list CandidatePair) : list CandidatePair :=
  match l with
  | [] => [p]
  | q :: r => if pair_priority q <=? pair_priority p then p :: l else q :: insert_pair p r
  end.

Definition sort_pairs (l : list CandidatePair) : list CandidatePair := foldr insert_pair [] l.

Definition foundations (p : CandidatePair) : str * str := (foundation (local p), foundation (remote p)).

(** The first pair of each two foundations. *)
Fixpoint unfreeze (seen : list (str * str)) (pairs : list CandidatePair) : list CandidatePair :=
  match pairs with
  | [] => []
  | p :: ps =>
      if bool_decide (foundations p ∈ seen) then p :: unfreeze seen ps
      else (p <| pair_state := PairState.Waiting |>) :: unfreeze (foundations p :: seen) ps
  end.

Definition form_candidate_pairs (a : IceAgent) : IceAgent :=
  a <| candidate_pairs :=
    unfreeze [] (sort_pairs (all_pairs (role a) (local_candidates a) (remote_candidates a) (candidate_pairs a))) |>.

Definition add_remote_candidates (candidates : list Cand) (a : IceAgent) : IceAgent :=
  form_candidate_pairs (a <| remote_candidates := remote_candidates a ++ candidates |>).

(** ** Checks *)

Definition ATTR_PRIORITY : Z := 36.
Definition ATTR_ICE_CONTROLLING : Z := 32810.
Definition ATTR_ICE_CONTROLLED : Z := 32809.

Definition check_request (remote_ufrag remote_pwd txn_id tie_breaker : list Z) (checked : CandidatePair) (a : IceAgent)
  : list Z :=
  let username := remote_ufrag ++ [58] ++ local_ufrag (config a) in
  let attrs :=
    attr ATTR_USERNAME username ++ attr ATTR_PRIORITY (put_u32 (priority (local checked))) ++
    attr (match role a with Controlling => ATTR_ICE_CONTROLLING | Controlled => ATTR_ICE_CONTROLLED end) tie_breaker in
  sign hmac remote_pwd (header BINDING_REQUEST (zlen attrs) txn_id ++ attrs).

(** The response is looked at only this far. *)
Definition check_accepts (response : list Z) : bool :=
  negb (zlen response <? 20) &&
  (default 0 (fst <$> get_u16 response) =? BINDING_RESPONSE) &&
  (default 0 (fst <$> get_u32 (drop 4 response)) =? MAGIC_COOKIE).

(** A check: its random bytes and what happens to its request. *)
Record Check : Type := mkCheck { c_txn : list Z; c_tie : list Z; c_net : list Z -> Wait }.

Definition perform_connectivity_check (check : Check) (socket : Addr) (checked : CandidatePair)
  (remote_ufrag remote_pwd : list Z) (a : IceAgent) : bool * IceAgent * list (Addr * list Z) :=
  match c_net check (check_request remote_ufrag remote_pwd (c_txn check) (c_tie check) checked a) with
  | NoLocalAddr => (false, a, [])
  | w =>
      match send_and_await_response (c_txn check) w (ensure_dispatcher socket a) with
      | (Ok response, a, sent) => (check_accepts response, a, sent)
      | (Err _, a, sent) => (false, a, sent)
      end
  end.

(** [related_address.unwrap_or(address)]. *)
Definition base_of (c : Cand) : Addr := default (address c) (related_address c).

Definition set_pair (idx : nat) (p : CandidatePair) (a : IceAgent) : IceAgent :=
  a <| candidate_pairs := <[idx := p]> (candidate_pairs a) |>.

Definition unfreeze_related_pairs (succeeded_idx : nat) (succeeded : CandidatePair) (a : IceAgent) : IceAgent :=
  a <| candidate_pairs := imap (fun i (p : CandidatePair) =>
    if negb (i =? succeeded_idx)%nat && bool_decide (pair_state p = PairState.Frozen) &&
       bool_decide (foundation (local p) = foundation (local succeeded))
    then p <| pair_state := PairState.Waiting |> else p) (candidate_pairs a) |>.

Definition is_host_pair (p : CandidatePair) : bool :=
  bool_decide (candidate_type (local p) = Host) && bool_decide (candidate_type (remote p) = Host).

Definition fallback_selection (a : IceAgent) : result unit IceError * IceAgent :=
  let select (p : CandidatePair) := (Ok tt, (a <| selected_pair := Some p |>) <| state := IceState.Connected |>) in
  match List.find is_host_pair (candidate_pairs a) with
  | Some p => select p
  | None =>
      match candidate_pairs a with
      | p :: _ => select p
      | [] => (Err NoCandidates, a <| state := IceState.Failed |>)
      end
  end.

(** The pairs to check with their indices, one after the other; the check of pair [idx] is
    [checks idx]. *)
Fixpoint check_pairs (checks : nat -> Check) (todo : list (nat * CandidatePair)) (ufrag pwd : list Z) (a : IceAgent)
  : option (result unit IceError * IceAgent * list (Addr * list Z)) :=
  match todo with
  | [] => let '(r, a) := fallback_selection a in Some (r, a, [])
  | (idx, checked) :: todo =>
      let* p := candidate_pairs a !! idx in
      let a := set_pair idx (p <| pair_state := PairState.InProgress |>) a in
      let '(check_result, a, sent) :=
        match socket_for (base_of (local checked)) a with
        | Some sock => perform_connectivity_check (checks idx) sock checked ufrag pwd a
        | None => (false, a, [])
        end in
      let* p := candidate_pairs a !! idx in
      if check_result : bool then
        let p := p <| pair_state := PairState.Succeeded |> in
        let p := if bool_decide (role a = Controlling) then p <| nominated := true |> else p in
        let a := ((set_pair idx p a) <| selected_pair := Some p |>) <| state := IceState.Connected |> in
        Some (Ok tt, unfreeze_related_pairs idx checked a, sent)
      else
        let a := set_pair idx (p <| pair_state := PairState.Failed |>) a in
        let* (r, sent') := check_pairs checks todo ufrag pwd a in
        Some (r, sent ++ sent')
  end.

Definition waiting (pairs : list CandidatePair) : list (nat * CandidatePair) :=
  filter (fun ip => bool_decide (pair_state ip.2 = PairState.Waiting)) (imap pair pairs).

Definition start_checks (checks : nat -> Check) (a : IceAgent)
  : option (result unit IceError * IceAgent * list (Addr * list Z)) :=
  let a := a <| state := IceState.Checking |> in
  match remote_credentials a with
  | None => let '(r, a) := fallback_selection a in Some (r, a, [])
  | Some (ufrag, pwd) => check_pairs checks (waiting (candidate_pairs a)) ufrag pwd a
  end.

Definition stop_responders (a : IceAgent) : IceAgent := a <| responder_tasks := ∅ |>.

Definition agent_close (a : IceAgent) : IceAgent :=
  (((a <| state := IceState.Closed |>) <| sockets := ∅ |>) <| responder_tasks := ∅ |>) <| pending_responses := ∅ |>.

(** ** Sessions *)

Record IceLocalParams : Type := mkLocalParams { l_ufrag : list Z; l_pwd : list Z; l_candidates : list Cand }.
Record IceRemoteParams : Type := mkRemoteParams { r_ufrag : list Z; r_pwd : list Z; r_candidates : list Cand }.

Record IceSession : Type := mkIceSession {
  agent : IceAgent;
  s_local : IceLocalParams;
  socket : option Addr;
  peer : option Addr
}.

Definition is_loopback (a : Ip) : bool :=
  match a with
  | V4 o => match o with b :: _ => b =? 127 | [] => false end
  | V6 o => bool_decide (o = replicate 15 0 ++ [1])
  end.

(** [rng1] and [rng2] are drawn for the credentials; the durations are in milliseconds and below
    [2^64]. *)
Definition session_gather (role : IceRole) (stun_servers : list StunServer) (gather_timeout check_timeout : Z)
  (rng1 rng2 : nat -> Z) (route : option Addr) (bind : Ip -> Bind) (order : gset Addr -> list Addr)
  (queries : nat -> Query) (budget : Budget) : option (result IceSession IceError) :=
  let config := mkIceConfig stun_servers (generate_ice_ufrag rng1) (generate_ice_pwd rng2)
    (wrap 64 gather_timeout) (wrap 64 check_timeout) in
  let* (r, _) := gather_candidates route bind order queries budget (agent_new config role) in
  match r with
  | (Err e, _) => Some (Err e)
  | (Ok candidates, a) =>
      Some (Ok (mkIceSession a (mkLocalParams (local_ufrag config) (local_pwd config) candidates) None None))
  end.

Definition is_host (c : Cand) : bool := bool_decide (candidate_type c = Host).

Definition default_candidate (s : IceSession) : option Cand :=
  let hosts := List.filter is_host (l_candidates (s_local s)) in
  match List.find (fun c => negb (is_loopback (addr_ip (address c)))) hosts with
  | Some c => Some c
  | None => match head hosts with Some c => Some c | None => head (l_candidates (s_local s)) end
  end.

Definition run_checks (params : IceRemoteParams) (checks : nat -> Check) (s : IceSession)
  : option (result Addr IceError * IceSession * list (Addr * list Z)) :=
  let a := set_remote_credentials (r_ufrag params) (r_pwd params) (agent s) in
  let a := add_remote_candidates (r_candidates params) a in
  let* (r, sent) := start_checks checks a in
  let '(r, a) := r in
  let s' := mkIceSession a (s_local s) (socket s) (peer s) in
  match r with
  | Err e => Some (Err e, s', sent)
  | Ok _ =>
      match selected_pair a with
      | None => Some (Err CheckFailed, s', sent)
      | Some selected =>
          if negb (bool_decide (pair_state selected = PairState.Succeeded)) then Some (Err CheckFailed, s', sent) else
          match socket_for (base_of (local selected)) a with
          | None => Some (Err CheckFailed, s', sent)
          | Some sock =>
              let peer := address (remote selected) in
              Some (Ok peer, mkIceSession (stop_responders a) (s_local s) (Some sock) (Some peer), sent)
          end
      end
  end.

Definition rtp_socket (s : IceSession) : option Addr := socket s.
Definition peer_addr (s : IceSession) : option Addr := peer s.
Definition session_close (s : IceSession) : IceAgent := agent_close (agent s).

End Agent.
