(* ===== verification/IceChecks.v ===== *)
(** * Connectivity checks between two agents ([ice/agent.rs])

    The dispatcher of one agent answers the check of the other: what a request built by
    [check_request] is to [build_binding_response], and what the answer is to the agent that
    waits for it. *)

From S2P Require Import Prelude RStr RtpPacket Srtp Rtcp IceCandidate Stun Turn IceAgent.

Local Open Scope Z_scope.

(** ** Requests as the dispatcher reads them *)

(** The last USERNAME among attributes. *)
Definition username_of (u : option (list Z)) (attrs : list (Z * list Z)) : option (list Z) :=
  foldl (fun u a => if a.1 =? ATTR_USERNAME then Some a.2 else u) u attrs.

Lemma find_credentials_step fuel off t v rest u :
  is_u16 t -> zlen v < 65536 ->
  find_credentials (S fuel) off (attr t v ++ rest) u =
  if t =? ATTR_MESSAGE_INTEGRITY then if negb (zlen v =? 20) then None else Some (u, Some (off, v))
  else find_credentials fuel (off + 4 + padded (zlen v)) rest (if t =? ATTR_USERNAME then Some v else u).
Proof.
  intros Ht Hv. pose proof (zlen_nonneg v) as H0. pose proof (pad_len_nonneg (zlen v)) as Hp.
  unfold attr. rewrite wrap_small by (unfold in_width; lia). rewrite <- !app_assoc.
  set (value := v ++ replicate (Z.to_nat (pad_len (zlen v))) 0 ++ rest).
  cbn [put_u16 app find_credentials]. rewrite !join_put_u16. rewrite (proj2 (Z.ltb_ge _ _))
    by (unfold value; rewrite !zlen_app; pose proof (zlen_nonneg rest); rewrite zlen_replicate by done; lia).
  assert (take (Z.to_nat (zlen v)) value = v) as -> by (unfold value, zlen; by rewrite Nat2Z.id, take_app_length).
  destruct (t =? ATTR_MESSAGE_INTEGRITY); [done|]. f_equal. unfold value. rewrite app_assoc. apply drop_app_length'.
  rewrite padded_pad, length_app, length_replicate by done. unfold zlen in *. lia.
Qed.

Lemma find_credentials_walk fuel off attrs mac u :
  Forall (fun a => is_u16 a.1 /\ zlen a.2 < 65536 /\ a.1 <> ATTR_MESSAGE_INTEGRITY) attrs -> length mac = 20%nat ->
  (length attrs < fuel)%nat ->
  find_credentials fuel off (body_of attrs ++ attr ATTR_MESSAGE_INTEGRITY mac) u =
  Some (username_of u attrs, Some (off + zlen (body_of attrs), mac)).
Proof.
  intros Ha Hm. revert fuel off u. induction Ha as [|[t v] attrs (Ht & Hv & Hn) _ IH]; intros [|fuel] off u Hf; cbn [length] in Hf; try lia.
  - cbn [body_of map concat app username_of foldl]. rewrite <- (app_nil_r (attr _ _)).
    assert (zlen mac = 20) as Hz by (unfold zlen; by rewrite Hm). rewrite find_credentials_step by (lia || (split; vm_compute; (discriminate || reflexivity))).
    rewrite Hz. change (zlen (body_of [])) with 0. by rewrite Z.add_0_r.
  - cbn [fst snd] in Ht, Hv, Hn. unfold body_of. cbn [map concat fst snd]. rewrite <- app_assoc, find_credentials_step by done.
    rewrite (proj2 (Z.eqb_neq _ _) Hn). fold (body_of attrs). rewrite IH by lia.
    rewrite zlen_app, zlen_attr. by rewrite !Z.add_assoc.
Qed.

Lemma length_body attrs : (length attrs <= length (body_of attrs))%nat.
Proof.
  unfold body_of. induction attrs as [|[t v] l IH]; [done|]. cbn [map concat length fst snd].
  rewrite length_app. assert (1 <= length (attr t v))%nat by (unfold attr, put_u16; cbn; lia). lia.
Qed.

Section Checks.
Variable hmac : list Z -> list Z -> list Z.
Hypothesis hmac_length : forall k m, length (hmac k m) = 20%nat.

(** What the MAC of a message with these attributes covers. *)
Definition covered (t : Z) (attrs : list (Z * list Z)) (txn : list Z) : list Z :=
  header t (zlen (body_of attrs) + 24) txn ++ body_of attrs.

Lemma sign_message key t n attrs txn :
  length txn = 12%nat ->
  sign hmac key (header t n txn ++ body_of attrs) =
  header t (zlen (body_of attrs) + 24) txn ++
  body_of attrs ++ attr ATTR_MESSAGE_INTEGRITY (hmac key (covered t attrs txn)).
Proof.
  intros Ht. unfold sign. rewrite patch_header, zlen_app, zlen_header by done.
  replace (20 + zlen (body_of attrs) - 20 + 24) with (zlen (body_of attrs) + 24) by lia.
  rewrite (app_assoc (header _ _ _) (body_of attrs)). fold (covered t attrs txn). f_equal. unfold attr, zlen. rewrite hmac_length.
  change (replicate _ _) with (@nil Z). by rewrite app_nil_r.
Qed.

Lemma get_length t n txn rest : get_u16 (drop 2 (header t n txn ++ rest)) = Some (wrap 16 n, put_u32 MAGIC_COOKIE ++ txn ++ rest).
Proof. unfold header. rewrite <- !app_assoc. apply get_put_u16. Qed.

Lemma get_cookie t n txn rest : get_u32 (drop 4 (header t n txn ++ rest)) = Some (MAGIC_COOKIE, txn ++ rest).
Proof. unfold header. rewrite <- !app_assoc. apply get_put_u32. Qed.

Definition plain (attrs : list (Z * list Z)) : Prop :=
  Forall (fun a => is_u16 a.1 /\ zlen a.2 < 65536 /\ a.1 <> ATTR_MESSAGE_INTEGRITY) attrs /\ zlen (body_of attrs) < 65000.

(** The dispatcher's verdict on a signed request. *)
Lemma binding_response_eq key attrs txn from ufrag pwd :
  length txn = 12%nat -> plain attrs ->
  build_binding_response hmac (sign hmac key (header BINDING_REQUEST (zlen (body_of attrs)) txn ++ body_of attrs)) txn from ufrag pwd =
  let* username := username_of None attrs in
  if negb (bool_decide (hmac pwd (covered BINDING_REQUEST attrs txn) = hmac key (covered BINDING_REQUEST attrs txn))) then None else
  let* username := from_utf8 username in
  if negb (bool_decide (before_colon username = ufrag)) then None else
  let answer := [(ATTR_XOR_MAPPED_ADDRESS, xor_value from txn)] in
  Some (sign hmac pwd (header BINDING_RESPONSE (zlen (body_of answer)) txn ++ body_of answer)).
Proof.
  intros Ht [Ha Hl]. pose proof (zlen_nonneg (body_of attrs)) as H0. rewrite sign_message by done.
  set (mac := hmac key _). set (h := header BINDING_REQUEST (zlen (body_of attrs) + 24) txn).
  set (request := h ++ _). assert (length mac = 20%nat) as Hm by apply hmac_length.
  assert (zlen (attr ATTR_MESSAGE_INTEGRITY mac) = 24) as Hz by (rewrite zlen_attr; unfold zlen; by rewrite Hm).
  assert (zlen request = 44 + zlen (body_of attrs)) as Hr
    by (unfold request, h; rewrite !zlen_app, zlen_header, Hz by done; lia).
  unfold build_binding_response. rewrite Hr, (proj2 (Z.ltb_ge _ 20)) by lia.
  assert (get_u16 (drop 2 request) =
    Some (zlen (body_of attrs) + 24, put_u32 MAGIC_COOKIE ++ txn ++ body_of attrs ++ attr ATTR_MESSAGE_INTEGRITY mac)) as ->
    by (unfold request, h; rewrite get_length, wrap_small by (unfold in_width; lia); done).
  cbn [mbind option_bind]. rewrite (proj2 (Z.ltb_ge _ _)) by lia.
  assert (drop 20 request = body_of attrs ++ attr ATTR_MESSAGE_INTEGRITY mac) as ->
    by (apply drop_app_length'; unfold h; by rewrite length_header).
  rewrite take_ge by (assert (zlen (body_of attrs ++ attr ATTR_MESSAGE_INTEGRITY mac) = zlen (body_of attrs) + 24) as Hx
    by (by rewrite zlen_app, Hz); revert Hx; unfold zlen; lia).
  rewrite find_credentials_walk by (done || pose proof (length_body attrs); unfold zlen in Hr; lia).
  cbn [mbind option_bind fst snd]. destruct (username_of None attrs) as [username|]; [|done]. cbn [mbind option_bind].
  assert (take (Z.to_nat (20 + zlen (body_of attrs))) request = h ++ body_of attrs) as ->.
  { unfold request. rewrite app_assoc. apply take_app_length'. unfold h. rewrite length_app, length_header by done.
    unfold zlen. lia. }
  unfold h. rewrite patch_header. replace (20 + zlen (body_of attrs) - 20 + 24) with (zlen (body_of attrs) + 24) by lia.
  fold (covered BINDING_REQUEST attrs txn). destruct (negb _); [done|]. destruct (from_utf8 username); [|done].
  cbn [mbind option_bind body_of map concat fst snd]. by rewrite app_nil_r.
Qed.

End Checks.

Section Waiting.
Variable hmac : list Z -> list Z -> list Z.

(** ** The dispatcher and the wait *)

Definition txn_of (datagram : list Z) : list Z := take 12 (drop 8 datagram).

Lemma txn_of_take n d : (20 <= n)%nat -> txn_of (take n d) = txn_of d.
Proof.
  intros Hn. unfold txn_of. rewrite skipn_firstn_comm, take_take. f_equal. lia.
Qed.

Lemma dispatch_message from t n txn rest a :
  length txn = 12%nat -> zlen rest < 1480 ->
  let d := header t n txn ++ rest in
  dispatch hmac from d a =
  if bool_decide (txn ∈ pending_responses a) then
    (a <| pending_responses := pending_responses a ∖ {[txn]} |>, Forwarded txn d)
  else if t =? BINDING_REQUEST then
    match build_binding_response hmac d txn from (local_ufrag (config a)) (local_pwd (config a)) with
    | Some resp => (a, Answered from resp)
    | None => (a, Dropped)
    end
  else (a, Dropped).
Proof.
  intros Ht Hr d. pose proof (zlen_nonneg rest). assert (zlen d = 20 + zlen rest) as Hd
    by (unfold d; rewrite zlen_app, zlen_header by done; done).
  unfold dispatch. rewrite (take_ge d) by (unfold zlen in Hd, Hr; lia). cbv zeta.
  rewrite Hd, (proj2 (Z.eqb_neq _ _)), (proj2 (Z.ltb_ge _ _)) by lia.
  destruct (request_fields t n txn rest Ht) as [E1 E2]. fold d in E1, E2. rewrite E1, E2.
  unfold d at 2. rewrite get_cookie. change (default 0 (fst <$> Some (MAGIC_COOKIE, txn ++ rest)) =? MAGIC_COOKIE) with true.
  change (default 0 (Some t)) with t. cbn [andb]. done.
Qed.

(** A datagram of another transaction leaves the wait as it was. *)
Lemma await_other txn from d rest a :
  txn_of d <> txn -> txn ∈ pending_responses a ->
  exists a', txn ∈ pending_responses a' /\
    (await_response hmac txn ((from, d) :: rest) a).1.1 = (await_response hmac txn rest a').1.1.
Proof.
  intros Hd Hp. cbn [await_response]. unfold dispatch.
  set (data := take 1500 d). assert (take 12 (drop 8 data) = txn_of d) as -> by (apply (txn_of_take 1500); lia).
  destruct (zlen data =? 1500); [by exists a|]. destruct (zlen data <? 20); [by exists a|].
  destruct (bool_decide (txn_of d ∈ pending_responses a)).
  - rewrite bool_decide_false by done. eexists. split; [|reflexivity]. cbn. set_solver.
  - destruct (_ && _); [|by exists a]. destruct (build_binding_response _ _ _ _ _ _); [|by exists a].
    exists a. split; [done|]. by destruct (await_response hmac txn rest a) as [[? ?] ?].
Qed.

Lemma await_noise txn noise last a :
  Forall (fun d : Addr * list Z => txn_of d.2 <> txn) noise -> txn ∈ pending_responses a ->
  exists a', txn ∈ pending_responses a' /\
    (await_response hmac txn (noise ++ last) a).1.1 = (await_response hmac txn last a').1.1.
Proof.
  intros Hn. revert a. induction Hn as [|[from d] noise Hd _ IH]; intros a Hp; [by exists a|].
  destruct (await_other txn from d (noise ++ last) a Hd Hp) as (a1 & Hp1 & E1).
  destruct (IH a1 Hp1) as (a2 & Hp2 & E2). exists a2. split; [done|]. cbn [app]. congruence.
Qed.

Lemma await_found txn noise to t n rest a :
  Forall (fun d : Addr * list Z => txn_of d.2 <> txn) noise -> txn ∈ pending_responses a ->
  length txn = 12%nat -> zlen rest < 1480 ->
  (await_response hmac txn (noise ++ [(to, header t n txn ++ rest)]) a).1.1 = Some (header t n txn ++ rest).
Proof.
  intros Hn Hp Ht Hr. destruct (await_noise txn noise [(to, header t n txn ++ rest)] a Hn Hp) as (a' & Hp' & ->).
  cbn [await_response]. rewrite dispatch_message by done. rewrite bool_decide_true by done. by rewrite bool_decide_true.
Qed.

Lemma await_nothing txn noise a :
  Forall (fun d : Addr * list Z => txn_of d.2 <> txn) noise -> txn ∈ pending_responses a ->
  (await_response hmac txn noise a).1.1 = None.
Proof.
  intros Hn Hp. rewrite <- (app_nil_r noise). by destruct (await_noise txn noise [] a Hn Hp) as (a' & _ & ->).
Qed.

End Waiting.

Section Links.
Variable hmac : list Z -> list Z -> list Z.
Hypothesis hmac_length : forall k m, length (hmac k m) = 20%nat.

(** ** A check over a link *)

(** The characters of a user name fragment (RFC 8839 [ice-char]) are ASCII and no colon. *)
Definition ufrag_ok (u : list Z) : Prop := Forall (fun b => b < 128 /\ b <> 58) u /\ zlen u <= 256.

Lemma utf8_ascii l : Forall (fun b => b < 128) l -> utf8_from 0 l = true.
Proof.
  induction 1 as [|b l Hb _ IH]; [done|]. cbn [utf8_from]. unfold utf8_chunk. by rewrite (proj2 (Z.ltb_lt _ _) Hb).
Qed.

Lemma username_read u w :
  ufrag_ok u -> ufrag_ok w ->
  from_utf8 (u ++ [58] ++ w) = Some (u ++ [58] ++ w) /\ before_colon (u ++ [58] ++ w) = u.
Proof.
  intros [Hu _] [Hw _]. split.
  - unfold from_utf8. rewrite utf8_ascii; [done|]. rewrite !Forall_app. repeat split.
    + eapply Forall_impl; [exact Hu|]. by intros b [].
    + by repeat constructor.
    + eapply Forall_impl; [exact Hw|]. by intros b [].
  - induction Hu as [|b u [_ Hb] _ IH]; [done|]. change (before_colon ((b :: u) ++ [58] ++ w)) with (if b =? 58 then [] else b :: before_colon (u ++ [58] ++ w)).
    by rewrite (proj2 (Z.eqb_neq _ _) Hb), IH.
Qed.

(** The attributes of a check. *)
Definition check_attrs (u tie : list Z) (checked : CandidatePair) (a : IceAgent) : list (Z * list Z) :=
  [(ATTR_USERNAME, u ++ [58] ++ local_ufrag (config a)); (ATTR_PRIORITY, put_u32 (priority (local checked)));
   (match role a with Controlling => ATTR_ICE_CONTROLLING | Controlled => ATTR_ICE_CONTROLLED end, tie)].

Lemma check_request_eq u p txn tie checked a :
  check_request hmac u p txn tie checked a =
  let attrs := check_attrs u tie checked a in
  sign hmac p (header BINDING_REQUEST (zlen (body_of attrs)) txn ++ body_of attrs).
Proof.
  unfold check_request, check_attrs. cbv zeta. unfold body_of. cbn [map concat fst snd]. by rewrite app_nil_r.
Qed.

Lemma check_plain u tie checked a :
  ufrag_ok u -> ufrag_ok (local_ufrag (config a)) -> length tie = 8%nat ->
  let attrs := check_attrs u tie checked a in plain attrs /\ zlen (body_of attrs) < 700.
Proof.
  intros [_ Hu] [_ Hw] Ht attrs. pose proof (zlen_nonneg u). pose proof (zlen_nonneg (local_ufrag (config a))).
  assert (zlen tie = 8) as Hz by (unfold zlen; by rewrite Ht).
  assert (zlen (u ++ [58] ++ local_ufrag (config a)) = zlen u + 1 + zlen (local_ufrag (config a))) as Hx
    by (rewrite !zlen_app; change (zlen [58]) with 1; lia).
  assert (zlen (body_of attrs) < 700) as Hb.
  { rewrite body_zlen. unfold attrs, check_attrs. cbn [foldr fst snd]. rewrite Hz, Hx.
    pose proof (padded_bound (zlen u + 1 + zlen (local_ufrag (config a))) ltac:(lia)).
    change (padded (zlen (put_u32 (priority (local checked))))) with 4. change (padded 8) with 8. lia. }
  split; [|done]. split; [|lia]. unfold attrs, check_attrs.
  repeat (apply Forall_cons; split); [..|constructor]; cbn [fst snd].
  - split; [split; vm_compute; (discriminate || reflexivity)|]. split; [lia|discriminate].
  - split; [split; vm_compute; (discriminate || reflexivity)|]. split; [by vm_compute|discriminate].
  - destruct (role a); (split; [split; vm_compute; (discriminate || reflexivity)|]); (split; [lia|discriminate]).
Qed.

(** What the network does with a request: other traffic [noise] arrives first; then the peer's
    dispatcher sees the request from [from], and its answer, if any, comes back from [to]. *)
Definition link (peer : IceAgent) (from to : Addr) (noise : list (Addr * list Z)) (request : list Z) : Wait :=
  Arrivals (noise ++ match (dispatch hmac from request peer).2 with Answered _ resp => [(to, resp)] | _ => [] end).

(** The answer of a peer to a check. *)
Definition check_answer (peer : IceAgent) (from : Addr) (txn : list Z) : list Z :=
  let attrs := [(ATTR_XOR_MAPPED_ADDRESS, xor_value from txn)] in
  sign hmac (local_pwd (config peer)) (header BINDING_RESPONSE (zlen (body_of attrs)) txn ++ body_of attrs).

(** The credentials of a check are those of the peer, as far as the MAC can tell. *)
Definition knows (peer : IceAgent) (u p m : list Z) : Prop :=
  u = local_ufrag (config peer) /\ hmac (local_pwd (config peer)) m = hmac p m.

#[local] Instance knows_dec peer u p m : Decision (knows peer u p m).
Proof. unfold knows. apply _. Defined.

Lemma peer_verdict u p txn tie checked a peer from :
  ufrag_ok u -> ufrag_ok (local_ufrag (config a)) -> length tie = 8%nat -> length txn = 12%nat ->
  txn ∉ pending_responses peer ->
  dispatch hmac from (check_request hmac u p txn tie checked a) peer =
  (peer, if bool_decide (knows peer u p (covered BINDING_REQUEST (check_attrs u tie checked a) txn))
         then Answered from (check_answer peer from txn) else Dropped).
Proof.
  intros Hu Hw Ht Hx Hp. destruct (check_plain u tie checked a Hu Hw Ht) as [Hpl Hl]. set (attrs := check_attrs u tie checked a) in *.
  destruct (username_read u (local_ufrag (config a)) Hu Hw) as [E1 E2].
  assert (zlen (body_of attrs ++ attr ATTR_MESSAGE_INTEGRITY (hmac p (covered BINDING_REQUEST attrs txn))) < 1480) as Hz
    by (rewrite zlen_app, zlen_attr; unfold zlen at 2; rewrite hmac_length; change (padded (Z.of_nat 20)) with 20; lia).
  pose proof (sign_message hmac hmac_length p BINDING_REQUEST (zlen (body_of attrs)) attrs txn Hx) as Es.
  rewrite check_request_eq. fold attrs. cbv zeta. rewrite Es, dispatch_message by done. rewrite bool_decide_false by done.
  change (BINDING_REQUEST =? BINDING_REQUEST) with true. cbn iota. rewrite <- Es, binding_response_eq by done.
  assert (username_of None attrs = Some (u ++ [58] ++ local_ufrag (config a))) as ->
    by (unfold attrs, check_attrs, username_of; by destruct (role a)). cbn [mbind option_bind].
  rewrite E1. cbn [mbind option_bind]. rewrite E2. unfold knows.
  destruct (decide (hmac (local_pwd (config peer)) (covered BINDING_REQUEST attrs txn) = hmac p (covered BINDING_REQUEST attrs txn))) as [E|E];
    destruct (decide (u = local_ufrag (config peer))) as [E'|E'];
    rewrite ?(bool_decide_true _ E), ?(bool_decide_false _ E), ?(bool_decide_true _ E'), ?(bool_decide_false _ E'); cbn [negb].
  - by rewrite bool_decide_true.
  - rewrite bool_decide_false; [done|]. by intros [].
  - rewrite bool_decide_false; [done|]. by intros [].
  - rewrite bool_decide_false; [done|]. by intros [].
Qed.

Lemma check_answer_eq peer from txn :
  length txn = 12%nat -> addr_ok from ->
  exists rest, check_answer peer from txn = header BINDING_RESPONSE (zlen (body_of [(ATTR_XOR_MAPPED_ADDRESS, xor_value from txn)]) + 24) txn ++ rest /\
    zlen rest < 1480 /\
    attributes_of rest = [(ATTR_XOR_MAPPED_ADDRESS, xor_value from txn);
      (ATTR_MESSAGE_INTEGRITY, hmac (local_pwd (config peer)) (covered BINDING_RESPONSE [(ATTR_XOR_MAPPED_ADDRESS, xor_value from txn)] txn))].
Proof.
  intros Ht Hf. unfold check_answer. rewrite sign_message by done. pose proof (zlen_xor_value from txn Hf Ht) as Hx.
  set (attrs := [(ATTR_XOR_MAPPED_ADDRESS, xor_value from txn)]). set (mac := hmac _ _).
  assert (length mac = 20%nat) as Hm by apply hmac_length. assert (zlen mac = 20) as Hz by (unfold zlen; by rewrite Hm).
  eexists. split; [reflexivity|]. pose proof (padded_bound _ (zlen_nonneg (xor_value from txn))). split.
  - rewrite zlen_app, zlen_attr, Hz, body_zlen. unfold attrs. cbn [foldr fst snd]. change (padded 20) with 20. lia.
  - replace (body_of attrs ++ attr ATTR_MESSAGE_INTEGRITY mac) with (concat (map (fun a => attr a.1 a.2) (attrs ++ [(ATTR_MESSAGE_INTEGRITY, mac)])))
      by (rewrite map_app, concat_app; cbn [map concat fst snd]; by rewrite app_nil_r).
    apply attributes_encode. repeat (apply Forall_cons; split); [..|constructor]; cbn [fst snd];
      (split; [split; vm_compute; (discriminate || reflexivity)|lia]).
Qed.

Lemma check_outcome u p txn tie checked a sock inbox :
  (perform_connectivity_check hmac (mkCheck txn tie (fun _ => Arrivals inbox)) sock checked u p a).1.1 =
  match (await_response hmac txn inbox ((ensure_dispatcher sock a) <| pending_responses := {[txn]} ∪ pending_responses a |>)).1.1 with
  | Some response => check_accepts response
  | None => false
  end.
Proof.
  unfold perform_connectivity_check, send_and_await_response. cbn [c_net c_txn].
  change (pending_responses (ensure_dispatcher sock a)) with (pending_responses a).
  by destruct (await_response _ _ _ _) as [[[response|] ?] ?].
Qed.

End Links.

(** C33: a connectivity check between two agents.  The check of [a] goes over a link to [peer],
    whose dispatcher sees it come from [from] and whose answer comes back after any datagrams of
    other transactions.  The check succeeds exactly when the user name fragment it was sent to is the peer's
    and its MAC is the one the peer's password gives; the peer then answers to [from] with that
    address as XOR-MAPPED-ADDRESS, signed under its own password, and otherwise drops the
    request; its state does not change either way. *)
Theorem connectivity_check_exact hmac u p txn tie checked a peer from to noise sock :
  (forall k m, length (hmac k m) = 20%nat) ->
  ufrag_ok u -> ufrag_ok (local_ufrag (config a)) -> length tie = 8%nat -> length txn = 12%nat -> addr_ok from ->
  txn ∉ pending_responses peer -> Forall (fun d : Addr * list Z => txn_of d.2 <> txn) noise ->
  let m := covered BINDING_REQUEST (check_attrs u tie checked a) txn in
  let request := check_request hmac u p txn tie checked a in
  ((perform_connectivity_check hmac (mkCheck txn tie (link hmac peer from to noise)) sock checked u p a).1.1 = true
   <-> knows hmac peer u p m) /\
  (knows hmac peer u p m ->
   exists response,
     dispatch hmac from request peer = (peer, Answered from response) /\
     let attrs := attributes_of (drop 20 response) in
     (let* v := find_attr ATTR_XOR_MAPPED_ADDRESS attrs in parse_xor_address v txn) = Some from /\
     find_attr ATTR_MESSAGE_INTEGRITY attrs =
       Some (hmac (local_pwd (config peer)) (covered BINDING_RESPONSE [(ATTR_XOR_MAPPED_ADDRESS, xor_value from txn)] txn))) /\
  (~ knows hmac peer u p m -> dispatch hmac from request peer = (peer, Dropped)).
Proof.
  intros Hh Hu Hw Ht Hx Hf Hp Hn m request.
  pose proof (peer_verdict hmac Hh u p txn tie checked a peer from Hu Hw Ht Hx Hp) as E. fold request in E.
  destruct (check_answer_eq hmac Hh peer from txn Hx Hf) as (rest & Er & Hr & Ea).
  set (a' := (ensure_dispatcher sock a) <| pending_responses := {[txn]} ∪ pending_responses a |>).
  assert (txn ∈ pending_responses a') as Hin by (apply elem_of_union; left; by apply elem_of_singleton).
  assert (forall inbox, link hmac peer from to noise request = Arrivals inbox ->
    (perform_connectivity_check hmac (mkCheck txn tie (link hmac peer from to noise)) sock checked u p a).1.1 =
    match (await_response hmac txn inbox a').1.1 with Some response => check_accepts response | None => false end) as Hc.
  { intros inbox El. etransitivity; [|exact (check_outcome hmac u p txn tie checked a sock inbox)]. unfold perform_connectivity_check.
    cbn [c_net c_txn c_tie]. fold request. by rewrite El. }
  unfold link in Hc at 1. rewrite E in Hc. cbn [snd] in Hc. fold m in E, Hc.
  destruct (decide (knows hmac peer u p m)) as [K|K]; rewrite ?(bool_decide_true _ K), ?(bool_decide_false _ K) in E, Hc.
  - split; [|split].
    + split; [done|]. intros _. rewrite (Hc _ eq_refl), Er, await_found by done. unfold check_accepts.
      rewrite zlen_app, zlen_header by done. pose proof (zlen_nonneg rest). rewrite (proj2 (Z.ltb_ge _ _)) by lia.
      destruct (request_fields BINDING_RESPONSE (zlen (body_of [(ATTR_XOR_MAPPED_ADDRESS, xor_value from txn)]) + 24) txn rest Hx) as [_ ->].
      by rewrite get_cookie.
    + intros _. eexists. split; [exact E|]. cbv zeta. rewrite Er, drop_app_length' by (by rewrite length_header). rewrite Ea.
      split; [|done]. change (find_attr ATTR_XOR_MAPPED_ADDRESS _) with (Some (xor_value from txn)). cbn [mbind option_bind].
      by apply parse_xor_roundtrip.
    + done.
  - split; [|split]; [|done|done]. split; [|done]. rewrite (Hc _ eq_refl), app_nil_r, await_nothing by done. done.
Qed.

(** ** Samples *)

Definition sample_cand (ip : list Z) (port : Z) : Cand :=
  mkCandidate #"h1" 1 Udp 2130706431 (mkSocketAddr (V4 ip) port) Host None.

Definition sample_agent (ufrag pwd : list Z) (role : IceRole) : IceAgent :=
  agent_new (mkIceConfig [] ufrag pwd 1500 3000) role.

Definition alice : IceAgent := sample_agent [97; 108] [112; 97] Controlling.
Definition bob : IceAgent := sample_agent [98; 111; 98] [112; 98] Controlled.

Definition sample_pair : CandidatePair :=
  mkPair (sample_cand [192; 0; 2; 1] 5000) (sample_cand [192; 0; 2; 2] 6000) 0 PairState.Waiting false.

Lemma sample_hmac_length k m : length (sample_hmac k m) = 20%nat.
Proof. unfold sample_hmac. rewrite length_take, !length_app, length_replicate. lia. Qed.

Lemma ufrag_dec u :
  forallb (fun b => (b <? 128) && negb (b =? 58)) u = true -> (zlen u <=? 256) = true -> ufrag_ok u.
Proof.
  intros H Hl. split; [|lia]. rewrite forallb_forall in H. apply Forall_forall. intros b Hb.
  apply list_elem_of_In, H in Hb. lia.
Qed.

Lemma connectivity_check_exact_witness :
  (perform_connectivity_check sample_hmac
     (mkCheck sample_txn (replicate 8 5) (link sample_hmac bob sample_public (address (remote sample_pair)) [(sample_v6, [1; 2; 3])]))
     (address (local sample_pair)) sample_pair [98; 111; 98] [112; 98] alice).1.1 = true /\
  knows sample_hmac bob [98; 111; 98] [112; 98] (covered BINDING_REQUEST (check_attrs [98; 111; 98] (replicate 8 5) sample_pair alice) sample_txn).
Proof.
  destruct (connectivity_check_exact sample_hmac [98; 111; 98] [112; 98] sample_txn (replicate 8 5) sample_pair alice bob sample_public
    (address (remote sample_pair)) [(sample_v6, [1; 2; 3])] (address (local sample_pair)) sample_hmac_length
    (ufrag_dec [98; 111; 98] eq_refl eq_refl) (ufrag_dec [97; 108] eq_refl eq_refl) eq_refl eq_refl) as [H _].
  - apply v4_ok; [reflexivity..|split; vm_compute; (discriminate || reflexivity)].
  - apply not_elem_of_empty.
  - constructor; [vm_compute; discriminate|constructor].
  - split; [apply H|]; (split; reflexivity).
Defined.

(** The fragments that the agent generates are such. *)
Lemma generated_ufrag_ok rng : (forall k, 0 <= rng k < 36) -> ufrag_ok (generate_ice_ufrag rng).
Proof.
  intros H. split; [|vm_compute; discriminate]. unfold generate_ice_ufrag. apply Forall_map, Forall_forall. intros k _.
  specialize (H k). unfold ice_char. destruct (Z.ltb_spec (rng k) 10); lia.
Qed.

(** A bare success response passes the check: neither its MAC nor its source is looked at. *)
Example unsigned_response_accepted : check_accepts (header BINDING_RESPONSE 0 sample_txn) = true.
Proof. reflexivity. Qed.

(** A server response whose XOR-MAPPED-ADDRESS is cut off panics. *)
Example cut_response_panics :
  parse_server_response (header BINDING_RESPONSE 4 sample_txn ++ put_u16 ATTR_XOR_MAPPED_ADDRESS ++ put_u16 8) = None.
Proof. reflexivity. Qed.

(** After an IPv6 address the walk loses its place: the IPv4 address that follows is missed. *)
Example walk_misaligned :
  parse_server_response
    (reply BINDING_RESPONSE [(ATTR_XOR_MAPPED_ADDRESS, xor_value sample_v6 sample_txn);
       (ATTR_XOR_MAPPED_ADDRESS, xor_value sample_public sample_txn)] sample_txn) = Some (Err NoMappedAddress).
Proof. vm_compute. reflexivity. Qed.
