(* ===== verification/IceSessions.v ===== *)
(** * Pairs, checks and sessions ([ice/agent.rs], [session/ice_session.rs])

    The invariant of the pair list over every operation of the agent, and what [run_checks] of
    a session returns, whatever arrives while the checks run. *)

From Stdlib Require Import Sorted.
From S2P Require Import Prelude RStr RtpPacket Srtp Rtcp IceCandidate Stun Turn IceAgent IceChecks.

Local Open Scope Z_scope.

(** ** What waiting changes *)

(** The agent but for the dispatcher's bookkeeping. *)
Definition core (a : IceAgent) : IceAgent := (a <| pending_responses := ∅ |>) <| responder_tasks := ∅ |>.

Section Sessions.
Variable hmac : list Z -> list Z -> list Z.

Lemma dispatch_core from d a : core (dispatch hmac from d a).1 = core a.
Proof.
  unfold dispatch. destruct (_ =? 1500); [done|]. destruct (_ <? 20); [done|]. destruct (bool_decide _); [done|].
  destruct (_ && _); [|done]. by destruct (build_binding_response _ _ _ _ _ _).
Qed.

Lemma await_core txn inbox a : core (await_response hmac txn inbox a).1.2 = core a.
Proof.
  revert a. induction inbox as [|[from d] inbox IH]; intros a; [done|]. cbn [await_response].
  pose proof (dispatch_core from d a) as E. destruct (dispatch hmac from d a) as [a1 [|t data|to resp]]; cbn [fst] in E.
  - by rewrite IH.
  - destruct (bool_decide _); [done|]. by rewrite IH.
  - specialize (IH a1). destruct (await_response hmac txn inbox a1) as [[r a2] sent]. cbn in IH |- *. congruence.
Qed.

Lemma send_core txn w a : core (send_and_await_response hmac txn w a).1.2 = core a.
Proof.
  unfold send_and_await_response. destruct w as [| |inbox]; [done..|].
  pose proof (await_core txn inbox (a <| pending_responses := {[txn]} ∪ pending_responses a |>)) as E.
  destruct (await_response _ _ _ _) as [[r a2] sent]. cbn [fst snd] in *. change (core a2 = core a). by rewrite E.
Qed.

Lemma perform_core check sock checked u p a : core (perform_connectivity_check hmac check sock checked u p a).1.2 = core a.
Proof.
  unfold perform_connectivity_check. destruct (c_net _ _) as [| |inbox] eqn:Ew; [done|..];
    (pose proof (send_core (c_txn check) (c_net check (check_request hmac u p (c_txn check) (c_tie check) checked a)) (ensure_dispatcher sock a)) as E;
     rewrite Ew in E; destruct (send_and_await_response _ _ _ _) as [[[response|e] a2] sent]; cbn [fst snd] in *;
     change (core a2 = core a); by rewrite E).
Qed.

(** ** The outcome of a check *)

(** A datagram that the dispatcher can forward to transaction [txn]. *)
Definition delivers (txn : list Z) (d : Addr * list Z) : bool :=
  (20 <=? zlen d.2) && (zlen d.2 <? 1500) && bool_decide (txn_of d.2 = txn).

Definition outcome (u p : list Z) (check : Check) (checked : CandidatePair) (a : IceAgent) : bool :=
  match c_net check (check_request hmac u p (c_txn check) (c_tie check) checked a) with
  | Arrivals inbox =>
      match List.find (delivers (c_txn check)) inbox with
      | Some d => check_accepts d.2
      | None => false
      end
  | _ => false
  end.

Lemma await_delivered txn inbox a :
  txn ∈ pending_responses a ->
  (await_response hmac txn inbox a).1.1 = snd <$> List.find (delivers txn) inbox.
Proof.
  revert a. induction inbox as [|[from d] inbox IH]; intros a Hp; [done|].
  destruct (decide (txn_of d = txn)) as [E|E].
  - cbn [await_response List.find]. unfold delivers at 1. cbn [snd]. rewrite (bool_decide_true _ E), andb_true_r.
    unfold dispatch. assert (zlen (take 1500 d) = Z.min 1500 (zlen d)) as Hz by (unfold zlen; rewrite length_take; lia).
    rewrite Hz. assert (take 12 (drop 8 (take 1500 d)) = txn) as -> by (rewrite <- E; apply (txn_of_take 1500); lia).
    destruct (Z.ltb_spec (zlen d) 1500) as [H1|H1].
    + rewrite (proj2 (Z.eqb_neq _ _)) by lia. rewrite Z.min_r by lia. destruct (Z.ltb_spec (zlen d) 20) as [H2|H2].
      * rewrite (proj2 (Z.leb_gt _ _)) by lia. by apply IH.
      * rewrite (proj2 (Z.leb_le _ _)) by lia. rewrite !bool_decide_true by done. cbn. f_equal. apply take_ge. unfold zlen in H1. lia.
    + rewrite Z.min_l, Z.eqb_refl by lia. rewrite andb_false_r. by apply IH.
  - destruct (await_other hmac txn from d inbox a E Hp) as (a' & Hp' & ->). cbn [List.find]. unfold delivers at 1. cbn [snd].
    rewrite (bool_decide_false _ E), andb_false_r. by apply IH.
Qed.

Lemma perform_outcome check sock checked u p a :
  (perform_connectivity_check hmac check sock checked u p a).1.1 = outcome u p check checked a.
Proof.
  unfold outcome. destruct check as [txn tie net]. cbn [c_net c_txn c_tie].
  unfold perform_connectivity_check. cbn [c_net c_txn c_tie]. destruct (net _) as [| |inbox] eqn:E; [done..|].
  pose proof (check_outcome hmac u p txn tie checked a sock inbox) as H. unfold perform_connectivity_check in H.
  cbn [c_net c_txn c_tie] in H. rewrite H, await_delivered by (apply elem_of_union; left; by apply elem_of_singleton).
  by destruct (List.find _ _).
Qed.

(** ** One check of [start_checks] *)

Definition succeeds (u p : list Z) (checks : nat -> Check) (a : IceAgent) (ip : nat * CandidatePair) : bool :=
  bool_decide (base_of (local ip.2) ∈ sockets a) && outcome u p (checks ip.1) ip.2 a.

(** The pair after a successful check. *)
Definition won (role : IceRole) (p : CandidatePair) : CandidatePair :=
  mkPair (local p) (remote p) (pair_priority p) PairState.Succeeded (if bool_decide (role = Controlling) then true else nominated p).

Lemma outcome_same u p check checked a a' :
  config a = config a' -> role a = role a' -> outcome u p check checked a = outcome u p check checked a'.
Proof. intros Ec Er. unfold outcome, check_request. by rewrite Ec, Er. Qed.

Lemma set_pair_twice idx p q (a b : IceAgent) :
  core a = core (set_pair idx q b) -> exists b', core b' = core b /\ set_pair idx p a = set_pair idx p b'.
Proof.
  intros E. exists ((b <| pending_responses := pending_responses a |>) <| responder_tasks := responder_tasks a |>).
  split; [done|]. destruct a, b. unfold core, set_pair in *. cbn in *. injection E as -> -> -> -> -> -> -> -> -> ->.
  by rewrite list_insert_insert_eq.
Qed.

Lemma check_pairs_step checks idx checked todo u p a p0 :
  candidate_pairs a !! idx = Some p0 ->
  exists a1 sent, core a1 = core a /\
    check_pairs hmac checks ((idx, checked) :: todo) u p a =
    if succeeds u p checks a (idx, checked) then
      Some (Ok tt, unfreeze_related_pairs idx checked
        (((set_pair idx (won (role a) p0) a1) <| selected_pair := Some (won (role a) p0) |>) <| state := IceState.Connected |>), sent)
    else
      let* (r, sent') := check_pairs hmac checks todo u p (set_pair idx (p0 <| pair_state := PairState.Failed |>) a1) in
      Some (r, sent ++ sent').
Proof.
  intros Hl. cbn [check_pairs]. rewrite Hl. cbn [mbind option_bind]. set (ai := set_pair idx _ a).
  assert (exists ok a2 sent, core a2 = core ai /\ ok = succeeds u p checks a (idx, checked) /\
    match socket_for (base_of (local checked)) ai with
    | Some sock => perform_connectivity_check hmac (checks idx) sock checked u p ai
    | None => (false, ai, [])
    end = (ok, a2, sent)) as (ok & a2 & sent & Hc & -> & ->).
  { unfold socket_for, succeeds. change (sockets ai) with (sockets a). cbn [fst snd].
    destruct (bool_decide (base_of (local checked) ∈ sockets a)); [|exists false, ai, []; split; [reflexivity|split; reflexivity]].
    pose proof (perform_core (checks idx) (base_of (local checked)) checked u p ai) as E1.
    pose proof (perform_outcome (checks idx) (base_of (local checked)) checked u p ai) as E2.
    destruct (perform_connectivity_check _ _ _ _ _ _ _) as [[ok a2] sent]. cbn [fst snd] in *.
    eexists _, _, _. split; [exact E1|]. split; [|done]. cbn [andb]. rewrite E2. by apply outcome_same. }
  assert (idx < length (candidate_pairs a))%nat as Hidx by (by apply lookup_lt_Some in Hl).
  assert (candidate_pairs a2 !! idx = Some (p0 <| pair_state := PairState.InProgress |>)) as ->.
  { assert (candidate_pairs a2 = candidate_pairs ai) as -> by exact (f_equal candidate_pairs Hc). by apply list_lookup_insert_eq. }
  assert (role a2 = role a) as Er by exact (f_equal role Hc). cbn [mbind option_bind].
  destruct (succeeds u p checks a (idx, checked)).
  - destruct (set_pair_twice idx (won (role a) p0) _ a2 a Hc) as (a1 & H1 & H2). exists a1, sent. split; [done|].
    rewrite <- H2. rewrite Er. unfold won. by destruct (bool_decide (role a = Controlling)).
  - destruct (set_pair_twice idx (p0 <| pair_state := PairState.Failed |>) _ a2 a Hc) as (a1 & H1 & H2). exists a1, sent.
    split; [done|]. by rewrite <- H2.
Qed.

End Sessions.

(** ** The pair list *)

Definition keys (p : CandidatePair) : Addr * Addr := (address (local p), address (remote p)).

Record pair_ok (r : IceRole) (p : CandidatePair) : Prop := {
  po_component : component (local p) = component (remote p);
  po_transport : transport (local p) = transport (remote p);
  po_priority : pair_priority p = calculate_pair_priority (bool_decide (r = Controlling)) (priority (local p)) (priority (remote p))
}.

Definition nominated_ok (r : IceRole) (p : CandidatePair) : Prop := nominated p = true -> r = Controlling.

Definition before (p q : CandidatePair) : Prop := pair_priority q <= pair_priority p.

(** What checks do not change. *)
Definition shape (p : CandidatePair) : Cand * Cand * Z := (local p, remote p, pair_priority p).

Lemma shape_ok r p q : shape p = shape q -> pair_ok r p -> pair_ok r q.
Proof. destruct p, q. unfold shape. cbn. intros [= -> -> ->] [H1 H2 H3]. by constructor. Qed.

Lemma insert_pair_perm p l : insert_pair p l ≡ₚ p :: l.
Proof.
  induction l as [|q l IH]; [done|]. cbn [insert_pair]. destruct (_ <=? _); [done|]. rewrite IH. apply perm_swap.
Qed.

Lemma sort_pairs_perm l : sort_pairs l ≡ₚ l.
Proof. induction l as [|p l IH]; [done|]. cbn [sort_pairs foldr]. fold (sort_pairs l). by rewrite insert_pair_perm, IH. Qed.

Lemma insert_pair_sorted p l : StronglySorted before l -> StronglySorted before (insert_pair p l).
Proof.
  induction 1 as [|q l Hl IH Hq]; cbn [insert_pair]; [by repeat constructor|].
  destruct (Z.leb_spec (pair_priority q) (pair_priority p)) as [H|H].
  - constructor; [by constructor|]. constructor; [done|]. eapply List.Forall_impl; [|exact Hq]. unfold before. intros. lia.
  - constructor; [done|]. apply List.Forall_forall. intros x Hx. apply list_elem_of_In in Hx. rewrite insert_pair_perm in Hx.
    apply elem_of_cons in Hx as [->|Hx]; [unfold before; lia|]. rewrite List.Forall_forall in Hq. apply Hq. by apply list_elem_of_In.
Qed.

Lemma sort_pairs_sorted l : StronglySorted before (sort_pairs l).
Proof. induction l as [|p l IH]; [constructor|]. by apply insert_pair_sorted. Qed.

Record pairs_ok (r : IceRole) (l : list CandidatePair) : Prop := {
  pi_sorted : StronglySorted before l;
  pi_distinct : NoDup (map keys l);
  pi_each : Forall (pair_ok r) l;
  pi_nominated : Forall (nominated_ok r) l
}.

Lemma sorted_shape l l' : map shape l = map shape l' -> StronglySorted before l -> StronglySorted before l'.
Proof.
  revert l'. induction l as [|p l IH]; intros [|p' l'] E Hs; try done. cbn [map] in E.
  apply (inj2 cons) in E as [E1 E2]. inversion Hs as [|? ? Hl Hp]; subst. constructor; [by apply IH|].
  assert (pair_priority p = pair_priority p') as Ep by exact (f_equal snd E1).
  clear -E2 Hp Ep. revert l' E2. induction Hp as [|q l Hq _ IH]; intros [|q' l'] E2; try done.
  cbn [map] in E2. apply (inj2 cons) in E2 as [Eq El].
  assert (pair_priority q = pair_priority q') as Eq' by exact (f_equal snd Eq).
  constructor; [unfold before in *; lia|by apply IH].
Qed.

Lemma pairs_ok_shape r l l' :
  map shape l = map shape l' -> Forall (nominated_ok r) l' -> pairs_ok r l -> pairs_ok r l'.
Proof.
  intros E Hn [H1 H2 H3 _]. constructor; [| | |done].
  - by eapply sorted_shape.
  - assert (map keys l = map keys l') as <-; [|done].
    replace (map keys l) with (map (fun x : Cand * Cand * Z => (address x.1.1, address x.1.2)) (map shape l)) by (by rewrite map_map).
    rewrite E. by rewrite map_map.
  - clear H1 H2 Hn. revert l' E. induction H3 as [|p l Hp _ IH]; intros [|p' l'] E; try done.
    cbn [map] in E. apply (inj2 cons) in E as [E1 E2]. constructor; [by eapply shape_ok|by apply IH].
Qed.

Lemma unfreeze_shape seen l :
  map shape (unfreeze seen l) = map shape l /\ map nominated (unfreeze seen l) = map nominated l.
Proof.
  revert seen. induction l as [|p l IH]; intros seen; [done|]. cbn [unfreeze].
  destruct (bool_decide _); cbn [map]; [destruct (IH seen) as [-> ->]|destruct (IH (foundations p :: seen)) as [-> ->]]; done.
Qed.

Lemma nominated_ok_map r l l' : map nominated l = map nominated l' -> Forall (nominated_ok r) l -> Forall (nominated_ok r) l'.
Proof.
  intros E H. revert l' E. induction H as [|p l Hp _ IH]; intros [|p' l'] E; try done. cbn [map] in E.
  apply (inj2 cons) in E as [E1 E2]. constructor; [unfold nominated_ok in *; by rewrite <- E1|by apply IH].
Qed.

(** The list before it is sorted. *)
Definition pairs_in (r : IceRole) (l : list CandidatePair) : Prop :=
  NoDup (map keys l) /\ Forall (pair_ok r) l /\ Forall (nominated_ok r) l.

Lemma add_pair_ok r c d l : pairs_in r l -> pairs_in r (add_pair r c d l) /\ l ⊆ add_pair r c d l.
Proof.
  intros (Hn & Ha & Hm). unfold add_pair. destruct (Z.eqb_spec (component c) (component d)) as [Ec|]; [|done]. cbn [negb].
  destruct (decide (transport c = transport d)) as [Et|Et]; [rewrite (bool_decide_true _ Et)|by rewrite (bool_decide_false _ Et)]. cbn [negb].
  destruct (existsb (same_addresses c d) l) eqn:Ee; [done|]. split; [split; [|split]|].
  - rewrite map_app. apply NoDup_app. split; [done|]. split; [|by apply NoDup_singleton]. intros k Hk. cbn [map]. rewrite list_elem_of_singleton. intros ->.
    apply list_elem_of_fmap in Hk as (p & Ep & Hp). apply list_elem_of_In in Hp. unfold keys in Ep. cbn in Ep. injection Ep as E1 E2.
    assert (existsb (same_addresses c d) l = true); [|congruence]. apply existsb_exists. exists p. split; [done|].
    unfold same_addresses. by rewrite !bool_decide_true by done.
  - apply Forall_app. split; [done|]. constructor; [|constructor]. by constructor.
  - apply Forall_app. split; [done|]. constructor; [|constructor]. by intros [=].
  - set_solver.
Qed.

Lemma all_pairs_ok r ls rs l : pairs_in r l -> pairs_in r (all_pairs r ls rs l) /\ l ⊆ all_pairs r ls rs l.
Proof.
  assert (forall c l, pairs_in r l ->
    pairs_in r (foldl (fun ps d => add_pair r c d ps) l rs) /\ l ⊆ foldl (fun ps d => add_pair r c d ps) l rs) as Hrow.
  { intros c. clear l. induction rs as [|d rs IH]; intros l H; [done|]. cbn [foldl].
    destruct (add_pair_ok r c d l H) as [H1 H2]. destruct (IH _ H1) as [H3 H4]. set_solver. }
  unfold all_pairs. revert l. induction ls as [|c ls IH]; intros l H; [done|]. cbn [foldl].
  destruct (Hrow c l H) as [H1 H2]. destruct (IH _ H1) as [H3 H4]. set_solver.
Qed.

(** ** The invariant of the agent *)

Record agent_inv (a : IceAgent) : Prop := {
  ai_pairs : pairs_ok (role a) (candidate_pairs a);
  ai_selected : forall p, selected_pair a = Some p ->
    pair_ok (role a) p /\ nominated_ok (role a) p /\ keys p ∈ map keys (candidate_pairs a);
  ai_connected : state a = IceState.Connected -> is_Some (selected_pair a)
}.

Lemma new_inv c r : agent_inv (agent_new c r).
Proof. constructor; try done. by repeat constructor. Qed.

Lemma formed_inv a : agent_inv a -> agent_inv (form_candidate_pairs a).
Proof.
  intros [[H1 H2 H3 H4] Hs Hc]. destruct (all_pairs_ok (role a) (local_candidates a) (remote_candidates a) (candidate_pairs a)) as [(N1 & N2 & N3) Hsub]; [done|].
  set (l := all_pairs _ _ _ _) in *. destruct (unfreeze_shape [] (sort_pairs l)) as [Es En].
  assert (pairs_ok (role a) (sort_pairs l)) as Hok.
  { constructor; [apply sort_pairs_sorted|..]; by rewrite sort_pairs_perm. }
  assert (pairs_ok (role a) (unfreeze [] (sort_pairs l))) as Hok'.
  { eapply pairs_ok_shape; [by symmetry| |exact Hok]. eapply nominated_ok_map; [by symmetry|apply Hok]. }
  constructor; [done| |done]. intros p Hp. destruct (Hs p Hp) as (P1 & P2 & P3). split; [done|]. split; [done|].
  change (candidate_pairs (form_candidate_pairs a)) with (unfreeze [] (sort_pairs l)).
  assert (map keys (unfreeze [] (sort_pairs l)) = map keys (sort_pairs l)) as ->.
  { assert (forall l, map keys l = map (fun x : Cand * Cand * Z => (address x.1.1, address x.1.2)) (map shape l)) as Hm by (intros; by rewrite map_map).
    by rewrite Hm, Es, <- Hm. }
  rewrite sort_pairs_perm. apply list_elem_of_fmap in P3 as (q & -> & Hq). apply list_elem_of_fmap. exists q. split; [done|by apply Hsub].
Qed.

(** What gathering does not touch. *)
Definition frame (a : IceAgent) : IceRole * list CandidatePair * option CandidatePair * IceState.t :=
  (role a, candidate_pairs a, selected_pair a, state a).

Lemma frame_inv a a' : frame a = frame a' -> agent_inv a -> agent_inv a'.
Proof. unfold frame. intros [= E1 E2 E3 E4] [H1 H2 H3]. constructor; by rewrite <- ?E1, <- ?E2, <- ?E3, <- ?E4. Qed.

Lemma core_frame a a' : core a = core a' -> frame a = frame a'.
Proof. intros E. exact (f_equal frame E). Qed.

Lemma keys_shape l l' : map shape l = map shape l' -> map keys l = map keys l'.
Proof.
  assert (forall l, map keys l = map (fun x : Cand * Cand * Z => (address x.1.1, address x.1.2)) (map shape l)) as Hm by (intros; by rewrite map_map).
  intros E. by rewrite !Hm, E.
Qed.

Lemma pairs_changed_inv a l :
  agent_inv a -> map shape l = map shape (candidate_pairs a) -> Forall (nominated_ok (role a)) l ->
  agent_inv (a <| candidate_pairs := l |>).
Proof.
  intros [H1 H2 H3] E Hn. constructor; [|cbn|done].
  - by apply (pairs_ok_shape _ (candidate_pairs a)).
  - intros p Hp. by rewrite (keys_shape _ _ E); apply H2.
Qed.

Lemma set_pair_inv idx p0 q a :
  agent_inv a -> candidate_pairs a !! idx = Some p0 -> shape q = shape p0 -> nominated_ok (role a) q ->
  agent_inv (set_pair idx q a).
Proof.
  intros Ha Hl Hs Hn. apply pairs_changed_inv; [done| |].
  - apply list_eq. intros i. change (map shape) with (fmap (M := list) shape). rewrite list_fmap_insert.
    destruct (decide (i = idx)) as [->|Hi]; [|by rewrite list_lookup_insert_ne].
    rewrite list_lookup_insert_eq, list_lookup_fmap, Hl by (rewrite length_fmap; by apply lookup_lt_Some in Hl). cbn. by rewrite Hs.
  - apply Forall_insert; [|done]. apply Ha.
Qed.

Lemma unfreeze_related_inv idx p a : agent_inv a -> agent_inv (unfreeze_related_pairs idx p a).
Proof.
  intros Ha. unfold unfreeze_related_pairs. set (f := fun (i : nat) (q : CandidatePair) => _).
  assert (forall i q, shape (f i q) = shape q /\ nominated (f i q) = nominated q) as Hf.
  { intros i q. unfold f. by destruct (_ && _ && _). }
  apply pairs_changed_inv; [done| |].
  - change (map shape) with (fmap (M := list) shape). apply list_eq. intros i. rewrite !list_lookup_fmap, list_lookup_imap.
    destruct (candidate_pairs a !! i); [|done]. cbn. by destruct (Hf i c) as [-> _].
  - apply Forall_lookup. intros i q. rewrite list_lookup_imap. destruct (candidate_pairs a !! i) as [q0|] eqn:E; [|done].
    cbn. intros [= <-]. unfold nominated_ok. destruct (Hf i q0) as [_ ->]. pose proof (pi_nominated _ _ (ai_pairs _ Ha)) as Hn.
    rewrite Forall_lookup in Hn. exact (Hn i q0 E).
Qed.

Lemma selected_inv a p :
  agent_inv a -> p ∈ candidate_pairs a -> agent_inv ((a <| selected_pair := Some p |>) <| state := IceState.Connected |>).
Proof.
  intros [[H1 H2 H3 H4] Hs Hc] Hp. rewrite Forall_forall in H3, H4. constructor; cbn.
  - constructor; try done; by apply Forall_forall.
  - intros q [= <-]. split; [by apply H3|]. split; [by apply H4|]. apply list_elem_of_fmap. by exists p.
  - by eexists.
Qed.

Lemma fallback_inv a : agent_inv a -> agent_inv (fallback_selection a).2.
Proof.
  intros Ha. unfold fallback_selection. destruct (List.find _ _) as [p|] eqn:E.
  - apply List.find_some in E as [Hp _]. apply selected_inv; [done|]. by apply list_elem_of_In.
  - destruct (candidate_pairs a) as [|p l] eqn:El.
    + destruct Ha as [H1 H2 H3]. by constructor.
    + apply selected_inv; [done|]. rewrite El. by left.
Qed.

Section Reach.
Variable hmac : list Z -> list Z -> list Z.
Context `{!IpAddr Ip}.

Lemma check_pairs_inv checks todo u p a r a' sent :
  agent_inv a -> check_pairs hmac checks todo u p a = Some (r, a', sent) -> agent_inv a'.
Proof.
  revert a r a' sent. induction todo as [|[idx checked] todo IH]; intros a r a' sent Ha.
  - cbn [check_pairs]. pose proof (fallback_inv a Ha) as Hf. destruct (fallback_selection a) as [r0 a0]. cbn in Hf.
    by intros [= <- <- <-].
  - destruct (candidate_pairs a !! idx) as [p0|] eqn:El; [|cbn [check_pairs]; by rewrite El].
    destruct (check_pairs_step hmac checks idx checked todo u p a p0 El) as (a1 & sent1 & Hc & ->).
    assert (agent_inv a1) as H1 by (eapply frame_inv; [|exact Ha]; by apply core_frame).
    assert (candidate_pairs a1 = candidate_pairs a) as Ep by exact (f_equal candidate_pairs Hc).
    assert (role a1 = role a) as Er by exact (f_equal role Hc).
    pose proof (pi_nominated _ _ (ai_pairs _ Ha)) as Hn. rewrite Forall_lookup in Hn. specialize (Hn idx p0 El).
    destruct (succeeds _ _ _ _ _ _).
    + intros [= <- <- <-]. apply unfreeze_related_inv, (selected_inv (set_pair idx (won (role a) p0) a1)).
      * eapply set_pair_inv; [done|by rewrite Ep|done|]. unfold nominated_ok, won. cbn. rewrite Er.
        destruct (bool_decide (role a = Controlling)) eqn:E; [|exact Hn]. intros _. by apply bool_decide_eq_true in E.
      * apply list_elem_of_lookup. exists idx. cbn. apply list_lookup_insert_eq. rewrite Ep. by apply lookup_lt_Some in El.
    + destruct (check_pairs _ _ _ _ _ _) as [[[r2 a2] sent2]|] eqn:E2; [|done]. cbn [mbind option_bind]. intros [= <- <- <-].
      eapply IH; [|exact E2]. eapply set_pair_inv; [done|by rewrite Ep|done|]. by rewrite Er.
Qed.
Lemma hosts_frame bind addrs a : frame (gather_host_candidates_with bind addrs a).2 = frame a.
Proof.
  revert a. induction addrs as [|addr addrs IH]; intros a; [done|]. cbn [gather_host_candidates_with].
  destruct (bind addr) as [| |la]; [apply IH|done|]. set (a1 := ensure_dispatcher la _). specialize (IH a1).
  destruct (gather_host_candidates_with bind addrs a1) as [[cs|e] a2]; exact IH.
Qed.

Lemma stun_frame la txn net a r a' sent :
  stun_binding_request hmac la txn net a = Some (r, a', sent) -> frame a' = frame a.
Proof.
  unfold stun_binding_request. destruct (net _) as [| |inbox] eqn:Ew; [by intros [= <- <- <-]|..];
    (pose proof (core_frame _ _ (send_core hmac txn (net (Stun.build_binding_request txn)) (ensure_dispatcher la a))) as E; rewrite Ew in E;
     destruct (send_and_await_response _ _ _ _) as [[[bytes|[]] a2] sent2]; cbn [fst snd] in E;
     [destruct (parse_server_response bytes); [|done]; cbn [mbind option_bind]|..]; by intros [= <- <- <-]).
Qed.

Lemma srflx_frame queries cut k todo a r a' sent :
  gather_srflx_candidates hmac queries cut k todo a = Some (r, a', sent) -> frame a' = frame a.
Proof.
  revert k a r a' sent. induction todo as [|[base server] todo IH]; intros k a r a' sent; [by intros [= <- <- <-]|].
  cbn [gather_srflx_candidates]. destruct (bool_decide _); [by intros [= <- <- <-]|].
  destruct (stun_binding_request _ _ _ _ _) as [[[r1 a1] sent1]|] eqn:E1; [|done]. cbn [mbind option_bind].
  destruct (gather_srflx_candidates _ _ _ _ _ _) as [[[r2 a2] sent2]|] eqn:E2; [|done]. cbn [mbind option_bind].
  intros [= <- <- <-]. rewrite (IH _ _ _ _ _ E2). by eapply stun_frame.
Qed.

Lemma gathered_frame route bind order queries budget a r a' sent :
  gather_candidates hmac route bind order queries budget a = Some (r, a', sent) ->
  frame a' = frame (a <| state := IceState.Gathering |>).
Proof.
  unfold gather_candidates. set (ag := a <| state := IceState.Gathering |>). intros E.
  assert (forall addrs, frame (gather_host_candidates_with bind addrs ag).2 = frame ag) as Hh by (intros; apply hosts_frame).
  destruct budget as [|n|n];
    [specialize (Hh (get_local_addresses_with route))|specialize (Hh (take n (get_local_addresses_with route)))
    |specialize (Hh (get_local_addresses_with route))];
    destruct (gather_host_candidates_with _ _ _) as [[hosts|e] a1]; cbn [snd] in Hh; try (by injection E as <- <- <-);
    (destruct (gather_srflx_candidates _ _ _ _ _ _) as [[[[srflx|] a2] sent2]|] eqn:E2; [..|done];
     cbn [mbind option_bind] in E; injection E as <- <- <-; apply srflx_frame in E2; rewrite <- Hh; exact E2).
Qed.

(** The operations of the agent, with whatever the environment makes of them. *)
Inductive agent_step : IceAgent -> IceAgent -> Prop :=
| step_credentials ufrag pwd a : agent_step a (set_remote_credentials ufrag pwd a)
| step_gather route bind order queries budget a r a' sent :
    gather_candidates hmac route bind order queries budget a = Some (r, a', sent) -> agent_step a a'
| step_remote candidates a : agent_step a (add_remote_candidates candidates a)
| step_checks checks a r a' sent : start_checks hmac checks a = Some (r, a', sent) -> agent_step a a'
| step_dispatch from datagram a : agent_step a (dispatch hmac from datagram a).1
| step_stop a : agent_step a (stop_responders a)
| step_close a : agent_step a (agent_close a).

Lemma state_inv st a : st <> IceState.Connected -> agent_inv a -> agent_inv (a <| state := st |>).
Proof. intros Hst [H1 H2 H3]. by constructor. Qed.

Lemma agent_step_inv a a' : agent_step a a' -> agent_inv a -> agent_inv a'.
Proof.
  intros Hs Ha. destruct Hs as [| ? ? ? ? ? ? ? ? ? E| |? ? ? ? ? E| | |].
  - by apply (frame_inv a).
  - eapply frame_inv; [symmetry; exact (gathered_frame _ _ _ _ _ _ _ _ _ E)|]. by apply state_inv.
  - apply formed_inv. by apply (frame_inv a).
  - unfold start_checks in E. assert (agent_inv (a <| state := IceState.Checking |>)) as Hc by (by apply state_inv).
    destruct (remote_credentials _) as [[u p]|]; [by eapply check_pairs_inv|].
    pose proof (fallback_inv _ Hc) as Hf. destruct (fallback_selection _) as [r0 a0]. cbn in Hf. by injection E as <- <- <-.
  - eapply frame_inv; [|exact Ha]. symmetry. apply core_frame, dispatch_core.
  - by apply (frame_inv a).
  - apply (frame_inv (a <| state := IceState.Closed |>)); [done|by apply state_inv].
Qed.

End Reach.

(** C34: the pairs of an agent.  After any sequence of operations (gathering with whatever the
    system and the servers answer, remote candidates, checks with whatever arrives, inbound
    datagrams, stopping, closing) the pairs are sorted by descending priority, no two have the
    same addresses, each joins candidates of one component and one transport and carries the
    priority of RFC 8445 for the agent's role, only a controlling agent has nominated pairs; the
    selected pair is one of them by its addresses, and a connected agent has one. *)
Theorem agent_pairs_invariant hmac `{!IpAddr Ip} c r a :
  rtc (agent_step hmac) (agent_new c r) a ->
  let pairs := candidate_pairs a in
  StronglySorted (fun p q => pair_priority q <= pair_priority p) pairs /\
  NoDup (map (fun p => (address (local p), address (remote p))) pairs) /\
  Forall (fun p => component (local p) = component (remote p) /\ transport (local p) = transport (remote p) /\
    pair_priority p = calculate_pair_priority (bool_decide (role a = Controlling)) (priority (local p)) (priority (remote p)) /\
    (nominated p = true -> role a = Controlling)) pairs /\
  (forall p, selected_pair a = Some p ->
    (address (local p), address (remote p)) ∈ map (fun p => (address (local p), address (remote p))) pairs /\
    (nominated p = true -> role a = Controlling)) /\
  (state a = IceState.Connected -> is_Some (selected_pair a)).
Proof.
  intros Hr pairs. assert (agent_inv a) as [[H1 H2 H3 H4] Hs Hc].
  { assert (forall x y, rtc (agent_step hmac) x y -> agent_inv x -> agent_inv y) as Hi
      by (induction 1; eauto using agent_step_inv). eapply Hi; [exact Hr|apply new_inv]. }
  split; [exact H1|]. split; [exact H2|]. split; [|split; [|done]].
  - rewrite Forall_forall in H3, H4. apply Forall_forall. intros p Hp. destruct (H3 p Hp). specialize (H4 p Hp). auto.
  - intros p Hp. destruct (Hs p Hp) as (_ & P2 & P3). auto.
Qed.

(** ** An address text for the samples *)

(** Dotted quads as they are written; what is no IPv4 address has a made-up text. *)
Definition quad_of (o : list Z) : option quad :=
  match o with
  | [a; b; c; d] =>
      if forallb (fun b => (0 <=? b) && (b <? 256)) o then Some (chr a, chr b, chr c, chr d) else None
  | _ => None
  end.

Definition of_quad (q : quad) : Ip := let '(a, b, c, d) := q in V4 [code a; code b; code c; code d].

Definition sample_to_string (a : Ip) : str :=
  match (match a with V4 o => quad_of o | V6 _ => None end) with
  | Some q => quad_to_string q
  | None => "."%char :: replicate (Pos.to_nat (encode a)) "a"%char
  end.

Definition sample_parse (s : str) : option Ip :=
  match s with
  | "."%char :: r => decode (Pos.of_nat (length r))
  | _ => of_quad <$> quad_parse s
  end.

Lemma quad_of_ok o q : quad_of o = Some q -> of_quad q = V4 o.
Proof.
  unfold quad_of. destruct o as [|a [|b [|c [|d [|]]]]]; try done. destruct (forallb _ _) eqn:E; [|done]. intros [= <-].
  cbn in E. unfold of_quad. rewrite !code_chr by lia. done.
Qed.

Lemma quad_head q : exists c r, quad_to_string q = c :: r /\ c <> "."%char.
Proof.
  destruct q as [[[a b] c] d]. unfold quad_to_string. cbn [join]. pose proof (octet_no_dot a) as Hn.
  destruct (octet a) as [|x r] eqn:E; [by apply dec_nonempty in E|]. eexists _, _. split; [reflexivity|].
  intros ->. apply Hn. by left.
Qed.

#[refine] Instance sample_text : IpAddr Ip := {|
  ip_parse := sample_parse;
  ip_to_string := sample_to_string;
  is_ipv4 a := match a with V4 _ => true | V6 _ => false end
|}.
Proof.
  - intros a. unfold sample_to_string. destruct (match a with V4 o => quad_of o | V6 _ => None end) as [q|] eqn:E.
    + pose proof (ip_roundtrip q : quad_parse (quad_to_string q) = Some q) as Hq.
      assert (sample_parse (quad_to_string q) = of_quad <$> quad_parse (quad_to_string q)) as ->.
      { destruct (quad_head q) as (c & r & -> & Hc). unfold sample_parse.
        destruct c as [[] [] [] [] [] [] [] []]; try done. }
      rewrite Hq. destruct a as [o|o]; [|done]. cbn. f_equal. by apply quad_of_ok.
    + unfold sample_parse. rewrite length_replicate, Pos2Nat.id. apply decode_encode.
  - intros a. unfold sample_to_string. destruct (match a with V4 o => quad_of o | V6 _ => None end) as [q|]; [exact (ip_word q)|].
    split; [done|]. constructor; [done|]. by apply Forall_replicate.
Defined.

(** ** The checks of a session *)

Section Run.
Variable hmac : list Z -> list Z -> list Z.

Definition none_succeeded (l : list CandidatePair) : Prop := Forall (fun p => pair_state p <> PairState.Succeeded) l.

Lemma fallback_unvalidated a :
  none_succeeded (candidate_pairs a) ->
  match candidate_pairs a with
  | [] => fallback_selection a = (Err NoCandidates, a <| state := IceState.Failed |>)
  | _ => exists p, fallback_selection a = (Ok tt, (a <| selected_pair := Some p |>) <| state := IceState.Connected |>) /\
           pair_state p <> PairState.Succeeded
  end.
Proof.
  intros Hn. unfold none_succeeded in Hn. rewrite Forall_forall in Hn. unfold fallback_selection. destruct (candidate_pairs a) as [|p l] eqn:El.
  - done.
  - destruct (List.find is_host_pair (p :: l)) as [q|] eqn:E.
    + apply List.find_some in E as [Hq _]. exists q. split; [done|]. apply Hn. by apply list_elem_of_In.
    + exists p. split; [done|]. apply Hn. by left.
Qed.

(** The checks go on to the first pair that succeeds. *)
Lemma check_pairs_first checks u p todo a :
  NoDup (map fst todo) -> Forall (fun ip : nat * CandidatePair => candidate_pairs a !! ip.1 = Some ip.2) todo ->
  none_succeeded (candidate_pairs a) ->
  exists r a' sent, check_pairs hmac checks todo u p a = Some (r, a', sent) /\ sockets a' = sockets a /\
    match List.find (succeeds hmac u p checks a) todo with
    | Some ip => r = Ok tt /\ selected_pair a' = Some (won (role a) ip.2) /\ state a' = IceState.Connected
    | None =>
        match candidate_pairs a with
        | [] => r = Err NoCandidates
        | _ => r = Ok tt /\ exists q, selected_pair a' = Some q /\ pair_state q <> PairState.Succeeded
        end
    end.
Proof.
  revert a. induction todo as [|[idx checked] todo IH]; intros a Hd Hl Hn.
  - cbn [check_pairs List.find]. pose proof (fallback_unvalidated a Hn) as Hf. destruct (candidate_pairs a) as [|q l].
    + rewrite Hf. by eexists _, _, _.
    + destruct Hf as (q' & -> & Hq). eexists _, _, _. split; [reflexivity|]. split; [done|]. split; [done|]. by exists q'.
  - apply NoDup_cons in Hd as [Hi Hd]. apply Forall_cons in Hl as [Hc Hl]. cbn [fst snd] in *.
    destruct (check_pairs_step hmac checks idx checked todo u p a checked Hc) as (a1 & sent1 & Ha1 & ->).
    cbn [List.find]. destruct (succeeds hmac u p checks a (idx, checked)).
    + eexists _, _, _. split; [reflexivity|]. split; [exact (f_equal sockets Ha1)|]. done.
    + set (a2 := set_pair idx (checked <| pair_state := PairState.Failed |>) a1).
      assert (candidate_pairs a2 = <[idx := checked <| pair_state := PairState.Failed |>]> (candidate_pairs a)) as E2
        by (unfold a2, set_pair; cbn; by rewrite (f_equal candidate_pairs Ha1 : candidate_pairs a1 = candidate_pairs a)).
      destruct (IH a2 Hd) as (r & a' & sent & E & Es & Hr).
      * rewrite Forall_forall in Hl. apply Forall_forall. intros [j q] Hj. cbn [fst snd]. rewrite E2, list_lookup_insert_ne; [by apply (Hl (j, q))|].
        intros <-. apply Hi. apply list_elem_of_fmap. by exists (idx, q).
      * rewrite E2. by apply Forall_insert.
      * rewrite E. cbn [mbind option_bind]. eexists _, _, _. split; [reflexivity|].
        assert (sockets a2 = sockets a) as Es2 by exact (f_equal sockets Ha1). split; [by rewrite Es|].
        assert (forall ip, succeeds hmac u p checks a2 ip = succeeds hmac u p checks a ip) as Hsame.
        { intros ip. unfold succeeds. rewrite Es2. f_equal. apply outcome_same; [exact (f_equal config Ha1)|exact (f_equal role Ha1)]. }
        assert (List.find (succeeds hmac u p checks a2) todo = List.find (succeeds hmac u p checks a) todo) as Ef.
        { clear -Hsame. induction todo as [|ip todo IH]; [done|]. cbn [List.find]. by rewrite Hsame, IH. }
        rewrite Ef in Hr. destruct (List.find _ todo); [by rewrite (f_equal role Ha1 : role a2 = role a) in Hr|].
        rewrite E2 in Hr. destruct (candidate_pairs a) as [|q0 l0]; [done|]. by destruct idx.
Qed.

(** Pairs that have not been checked. *)
Lemma all_pairs_new (P : CandidatePair -> Prop) r ls rs l :
  (forall c d n, P (mkPair c d n PairState.Frozen false)) -> Forall P l -> Forall P (all_pairs r ls rs l).
Proof.
  intros Hnew. assert (forall c d l, Forall P l -> Forall P (add_pair r c d l)) as Hadd.
  { intros c d l0 H. unfold add_pair. do 3 (case_match; [done|]). apply Forall_app. split; [done|].
    by constructor; [|constructor]. }
  unfold all_pairs. revert l. induction ls as [|c ls IH]; intros l H; [done|]. cbn [foldl]. apply IH.
  clear IH. revert l H. induction rs as [|d rs IH]; intros l H; [done|]. cbn [foldl]. by apply IH, Hadd.
Qed.

Lemma unfreeze_fresh seen l : none_succeeded l -> none_succeeded (unfreeze seen l).
Proof.
  intros H. revert seen. induction H as [|p l Hp _ IH]; intros seen; [constructor|]. cbn [unfreeze].
  destruct (bool_decide _); constructor; try done; apply IH.
Qed.

Lemma formed_fresh a : candidate_pairs a = [] -> none_succeeded (candidate_pairs (form_candidate_pairs a)).
Proof.
  intros E. apply unfreeze_fresh. unfold none_succeeded. rewrite sort_pairs_perm, E. by apply all_pairs_new; [|constructor].
Qed.

(** The first pair of its two foundations in a list of pairs. *)
Definition leads (l : list CandidatePair) (i : nat) (p : CandidatePair) : Prop :=
  l !! i = Some p /\ forall j q, (j < i)%nat -> l !! j = Some q -> foundations q <> foundations p.

Lemma unfreeze_leads seen l i p :
  Forall (fun p => pair_state p = PairState.Frozen) l ->
  unfreeze seen l !! i = Some p /\ pair_state p = PairState.Waiting <->
  leads (unfreeze seen l) i p /\ foundations p ∉ seen.
Proof.
  intros F. unfold leads. revert seen i. induction F as [|q l Hq F IH]; intros seen i; cbn [unfreeze].
  { rewrite lookup_nil. naive_solver. }
  destruct (decide (foundations q ∈ seen)) as [Hs|Hs];
    [rewrite bool_decide_true by done|rewrite bool_decide_false by done]; destruct i as [|i]; cbn [lookup list_lookup].
  - split; [intros [[= <-] E]; congruence|]. intros [[[= <-] _] ?]. done.
  - rewrite (IH seen i). split; intros [[H1 H2] H3]; (split; [split|]; try done).
    + intros [|j] q' Hj; cbn [lookup list_lookup]; [by intros [= <-] E; rewrite E in Hs|apply H2; lia].
    + intros j q' Hj. apply (H2 (S j)). lia.
  - split; [intros [[= <-] _]; split; [split; [done|lia]|done]|]. by intros [[[= <-] _] _].
  - rewrite (IH (foundations q :: seen) i), not_elem_of_cons. split.
    + intros [[H1 H2] [H3 H4]]. split; [split|]; [done| |done].
      intros [|j] q' Hj; cbn [lookup list_lookup]; [intros [= <-]; by apply not_eq_sym|apply H2; lia].
    + intros [[H1 H2] H3]. split; [split; [done|]|split; [|done]].
      * intros j q' Hj. apply (H2 (S j)). lia.
      * intros E. apply (H2 0%nat _ ltac:(lia) eq_refl). by rewrite E.
Qed.

Lemma waiting_in l i p : (i, p) ∈ waiting l <-> l !! i = Some p /\ pair_state p = PairState.Waiting.
Proof.
  unfold waiting. rewrite list_elem_of_filter, bool_decide_spec, elem_of_lookup_imap. cbn [snd]. split.
  - intros [H1 (j & q & [= -> ->] & H2)]. done.
  - intros [H1 H2]. split; [done|]. by exists i, p.
Qed.

(** The pairs to check in a list that is formed for the first time. *)
Lemma waiting_leads cs a i p :
  candidate_pairs a = [] ->
  let l := candidate_pairs (add_remote_candidates cs a) in (i, p) ∈ waiting l <-> leads l i p.
Proof.
  intros E l. rewrite waiting_in. unfold l.
  change (candidate_pairs (add_remote_candidates cs a)) with
    (unfreeze [] (sort_pairs (all_pairs (role a) (local_candidates a) (remote_candidates a ++ cs) (candidate_pairs a)))).
  rewrite unfreeze_leads; [set_solver|]. rewrite sort_pairs_perm, E. by apply all_pairs_new; [|constructor].
Qed.

Lemma formed_sorted a : StronglySorted before (candidate_pairs (form_candidate_pairs a)).
Proof. eapply sorted_shape; [symmetry; apply unfreeze_shape|]. apply sort_pairs_sorted. Qed.

Lemma snd_imap (l : list CandidatePair) : map snd (imap pair l) = l.
Proof.
  change (map snd) with (fmap (M := list) (@snd nat CandidatePair)). apply list_eq. intros i.
  rewrite list_lookup_fmap, list_lookup_imap. by destruct (l !! i).
Qed.

Lemma waiting_lookup l ip : ip ∈ waiting l -> l !! ip.1 = Some ip.2.
Proof.
  unfold waiting. intros [_ H]%list_elem_of_filter. apply elem_of_lookup_imap in H as (i & p & -> & H). exact H.
Qed.

Lemma waiting_distinct l : NoDup (map fst (waiting l)).
Proof.
  unfold waiting. assert (NoDup (imap pair l)) as Hn.
  { apply NoDup_alt. intros i j x Hi Hj. rewrite list_lookup_imap in Hi, Hj. destruct (l !! i), (l !! j); try done. cbn in *. congruence. }
  apply NoDup_fmap_2_strong; [|by apply NoDup_filter]. intros x y Hx Hy E.
  apply waiting_lookup in Hx, Hy. destruct x, y. cbn in *. congruence.
Qed.

Lemma first_is_best l f ip :
  StronglySorted before l -> List.find f (waiting l) = Some ip ->
  forall jq, jq ∈ waiting l -> f jq = true -> pair_priority jq.2 <= pair_priority ip.2.
Proof.
  unfold waiting. rewrite <- (snd_imap l) at 1. generalize (imap pair l). clear l. intros l Hs.
  induction l as [|[i p] l IH]; [done|]. cbn [map snd] in Hs. inversion Hs as [|? ? Hl Hp]; subst.
  rewrite filter_cons. destruct (decide _) as [Hw|Hw]; [|by apply IH]. cbn [List.find]. destruct (f (i, p)) eqn:Ef.
  - intros [= <-] jq Hj _. apply elem_of_cons in Hj as [->|Hj]; [done|]. apply list_elem_of_filter in Hj as [_ Hj].
    rewrite List.Forall_forall in Hp. apply (Hp jq.2). apply List.in_map. by apply list_elem_of_In.
  - intros Hf jq Hj Hfj. apply elem_of_cons in Hj as [->|Hj]; [congruence|]. by apply IH.
Qed.

End Run.

(** C35: the checks of a session that has no pairs yet.  With the peer's parameters,
    [run_checks] forms the pairs, sorts them by priority and checks those that are the first of
    their two foundations ([leads]), until one succeeds: there is a socket for the base of its
    local candidate and the first datagram with the transaction of its check that arrives in time
    is a success response.  It then returns the remote address of that pair, which has the highest
    priority of the leading pairs that would succeed, with the socket of its base, marks the pair
    as succeeded and as nominated when the agent controls, and stops the dispatchers.  When no
    leading pair would succeed it is an error and the session has no new socket or peer: the
    unvalidated pair that the agent falls back to is refused.  A pair behind another of the same
    foundations is never checked, whether or not it would succeed ([frozen_never_checked]).
    Whatever arrives, it never panics. *)
Theorem run_checks_selects_best hmac params checks s :
  candidate_pairs (agent s) = [] ->
  let a := add_remote_candidates (r_candidates params) (set_remote_credentials (r_ufrag params) (r_pwd params) (agent s)) in
  let ok i p := succeeds hmac (r_ufrag params) (r_pwd params) checks a (i, p) in
  let first := leads (candidate_pairs a) in
  exists r s' sent,
    run_checks hmac params checks s = Some (r, s', sent) /\
    ((exists i p,
        first i p /\ ok i p = true /\
        (forall j q, first j q -> ok j q = true -> pair_priority q <= pair_priority p) /\
        r = Ok (address (remote p)) /\ peer_addr s' = Some (address (remote p)) /\ rtp_socket s' = Some (base_of (local p)) /\
        selected_pair (agent s') = Some (won (role (agent s)) p) /\ responder_tasks (agent s') = ∅) \/
     ((forall j q, first j q -> ok j q = false) /\
        r = Err (match candidate_pairs a with [] => NoCandidates | _ => CheckFailed end) /\
        rtp_socket s' = rtp_socket s /\ peer_addr s' = peer_addr s)).
Proof.
  intros Hs a ok first. assert (forall j q, (j, q) ∈ waiting (candidate_pairs a) <-> first j q) as Hfirst.
  { intros j q. by apply waiting_leads. }
  unfold run_checks. fold a. unfold start_checks.
  change (remote_credentials (a <| state := IceState.Checking |>)) with (Some (r_ufrag params, r_pwd params)).
  set (ac := a <| state := IceState.Checking |>). change (candidate_pairs ac) with (candidate_pairs a).
  destruct (check_pairs_first hmac checks (r_ufrag params) (r_pwd params) (waiting (candidate_pairs a)) ac)
    as (r & a' & sent & E & Es & Hr).
  - apply waiting_distinct.
  - apply Forall_forall. intros ip. apply waiting_lookup.
  - by apply formed_fresh.
  - rewrite E. cbn [mbind option_bind].
    change (succeeds hmac (r_ufrag params) (r_pwd params) checks ac) with (succeeds hmac (r_ufrag params) (r_pwd params) checks a) in Hr.
    destruct (List.find _ (waiting (candidate_pairs a))) as [[i p]|] eqn:Ef.
    + destruct Hr as (-> & Hsel & _). rewrite Hsel. change (role ac) with (role (agent s)) in *. cbn [snd].
      rewrite bool_decide_true by done. cbn [negb]. change (local (won (role (agent s)) p)) with (local p).
      pose proof (List.find_some _ _ Ef) as [Hin Hok]. pose proof Hok as Hok'.
      unfold succeeds in Hok'. apply andb_prop in Hok' as [Hsock _].
      cbn [snd] in Hsock. unfold socket_for. rewrite Es. change (sockets ac) with (sockets a). rewrite Hsock.
      eexists _, _, _. split; [reflexivity|]. left. exists i, p.
      split; [by apply Hfirst, list_elem_of_In|]. split; [exact Hok|].
      split; [|repeat (split; [done|]); done]. intros j q Hj Hq.
      apply (first_is_best (candidate_pairs a) _ (i, p) (formed_sorted _) Ef (j, q)); [by apply Hfirst|exact Hq].
    + assert (forall j q, first j q -> ok j q = false) as Hno.
      { intros j q Hj. apply (List.find_none _ _ Ef). apply list_elem_of_In. by apply Hfirst. }
      change (candidate_pairs ac) with (candidate_pairs a) in Hr. destruct (candidate_pairs a) as [|q l].
      * subst r. eexists _, _, _. split; [reflexivity|]. by right.
      * destruct Hr as (-> & q' & -> & Hq). rewrite bool_decide_false by done. eexists _, _, _. split; [reflexivity|]. by right.
Qed.

(** ** Samples *)

Definition sample_session (r : IceRole) (addr : Addr) (rng : nat -> Z) : option IceSession :=
  match session_gather sample_hmac r [] 1500 3000 rng rng (Some addr)
    (fun ip => if bool_decide (ip = addr_ip addr) then BoundTo addr else BindFailed) elements
    (fun _ => mkQuery [] (fun _ => NoLocalAddr)) Enough with
  | Some (Ok s) => Some s
  | _ => None
  end.

Definition caller_addr : Addr := mkSocketAddr (V4 [192; 0; 2; 1]) 5000.
Definition callee_addr : Addr := mkSocketAddr (V4 [192; 0; 2; 2]) 6000.

Definition no_session : IceSession := mkIceSession alice (mkLocalParams [] [] []) None None.
Definition caller : IceSession := default no_session (sample_session Controlling caller_addr (fun k => Z.of_nat k)).
Definition callee : IceSession := default no_session (sample_session Controlled callee_addr (fun k => Z.of_nat k + 10)).

Definition callee_params : IceRemoteParams :=
  mkRemoteParams (l_ufrag (s_local callee)) (l_pwd (s_local callee)) (l_candidates (s_local callee)).

(** The caller's check reaches the callee, whose answer comes back. *)
Definition sample_checks (idx : nat) : Check :=
  mkCheck sample_txn (replicate 8 5) (link sample_hmac (agent callee) caller_addr callee_addr []).

Lemma run_checks_selects_best_witness :
  candidate_pairs (agent caller) = [] /\
  exists s' sent,
    run_checks sample_hmac callee_params sample_checks caller = Some (Ok callee_addr, s', sent) /\
    rtp_socket s' = Some caller_addr /\ peer_addr s' = Some callee_addr.
Proof.
  assert (candidate_pairs (agent caller) = []) as H0 by (vm_compute; reflexivity). split; [exact H0|].
  destruct (run_checks_selects_best sample_hmac callee_params sample_checks caller H0) as (r & s' & sent & E & H).
  set (a := add_remote_candidates _ _) in H.
  assert (match candidate_pairs a with
          | [p] => bool_decide (address (remote p) = callee_addr) && bool_decide (base_of (local p) = caller_addr) &&
              succeeds sample_hmac (r_ufrag callee_params) (r_pwd callee_params) sample_checks a (0%nat, p)
          | _ => false
          end = true) as Ha by (vm_compute; reflexivity).
  clearbody a. destruct (candidate_pairs a) as [|p [|]] eqn:Ea; [done| |done].
  apply andb_prop in Ha as [[Er El]%andb_prop Ho]. apply bool_decide_eq_true in Er, El.
  destruct H as [(i & q & [Hq _] & _ & _ & -> & H1 & H2 & _)|[Hno _]].
  - destruct i as [|i]; [|done]. injection Hq as <-. exists s', sent. rewrite Er in E, H1. rewrite El in H2.
    split; [exact E|split; [exact H2|exact H1]].
  - rewrite (Hno 0%nat p) in Ho; [done|]. split; [done|lia].
Defined.

Lemma agent_pairs_invariant_witness :
  let a := add_remote_candidates (l_candidates (s_local callee)) (agent caller) in
  length (candidate_pairs a) = 1%nat /\
  NoDup (map (fun p => (address (local p), address (remote p))) (candidate_pairs a)).
Proof.
  intros a. split; [vm_compute; reflexivity|].
  refine (proj1 (proj2 (agent_pairs_invariant sample_hmac (config (agent caller)) Controlling a _))).
  eapply rtc_l; [|apply rtc_once; apply step_remote].
  eapply (step_gather sample_hmac (Some caller_addr) (fun ip => if bool_decide (ip = addr_ip caller_addr) then BoundTo caller_addr else BindFailed)
    elements (fun _ => mkQuery [] (fun _ => NoLocalAddr)) Enough _ (Ok (l_candidates (s_local caller))) (agent caller) []).
  vm_compute. reflexivity.
Defined.

(** A frozen pair is never checked when the pair before it with the same foundations fails,
    though its check would succeed. *)
Example frozen_never_checked :
  let far := mkSocketAddr (V4 [192; 0; 2; 2]) 7000 in
  let params := mkRemoteParams (r_ufrag callee_params) (r_pwd callee_params) [host far 1; host callee_addr 1] in
  let checks (idx : nat) := if (idx =? 0)%nat then mkCheck sample_txn (replicate 8 5) (fun _ => Arrivals []) else sample_checks idx in
  (match run_checks sample_hmac params checks caller with Some (r, _, _) => Some r | None => None end) = Some (Err CheckFailed) /\
  succeeds sample_hmac (r_ufrag params) (r_pwd params) checks
    (add_remote_candidates (r_candidates params) (agent caller))
    (1%nat, mkPair (host caller_addr 1) (host callee_addr 1) 0 PairState.Frozen false) = true.
Proof. vm_compute. auto. Qed.
