(* ===== verification/Wav.v ===== *)
(** * WAV files ([media/wav.rs])

    The header, the writer with its final rewrite of the header, the reader with its position,
    and the generators of tones.  A file is the list of its bytes; where a write can fail, the
    point of failure is an argument.  The sine of the standard library is a parameter. *)

From S2P Require Import Prelude RStr RtpPacket RFloat.
From Stdlib Require Import SpecFloat.

Local Open Scope Z_scope.

(** ** Little-endian integers *)

Definition le16 (z : Z) : list Z := [z mod 256; z / 256 mod 256].
Definition le32 (z : Z) : list Z := le16 (z mod 65536) ++ le16 (z / 65536).

Definition from_le16 (b0 b1 : Z) : Z := b0 + 256 * b1.
Definition from_le32 (b0 b1 b2 b3 : Z) : Z := from_le16 b0 b1 + 65536 * from_le16 b2 b3.

(** [i16::to_le_bytes] and back, in two's complement. *)
Definition sample_bytes (s : Z) : list Z := le16 (wrap 16 s).
Definition sample_of (b0 b1 : Z) : Z := let u := from_le16 b0 b1 in if u <? 32768 then u else u - 65536.

Definition is_i16 (s : Z) : Prop := -32768 <= s <= 32767.

(** ** The header *)

Definition ascii_bytes (s : str) : list Z := map code s.

Definition build_wav_header (sample_rate channels bits_per_sample data_size : Z) : list Z :=
  let byte_rate := wrap 32 (wrap 32 (sample_rate * channels) * (bits_per_sample / 8)) in
  let block_align := wrap 16 (channels * (bits_per_sample / 8)) in
  let file_size := wrap 32 (36 + data_size) in
  ascii_bytes #"RIFF" ++ le32 file_size ++ ascii_bytes #"WAVE" ++
  ascii_bytes #"fmt " ++ le32 16 ++ le16 1 ++ le16 channels ++ le32 sample_rate ++ le32 byte_rate ++
  le16 block_align ++ le16 bits_per_sample ++
  ascii_bytes #"data" ++ le32 data_size.

Definition u16_at (i : nat) (buf : list Z) : Z :=
  match drop i buf with b0 :: b1 :: _ => from_le16 b0 b1 | _ => 0 end.

Definition u32_at (i : nat) (buf : list Z) : Z :=
  match drop i buf with b0 :: b1 :: b2 :: b3 :: _ => from_le32 b0 b1 b2 b3 | _ => 0 end.

Definition four_at (i : nat) (buf : list Z) : list Z := take 4 (drop i buf).

Inductive WavError : Type :=
| UnexpectedEof
| NotRiff
| NotWave
| MissingFmt
| NotPcm
| MissingData
| WriteFailed.

(** The first 44 bytes of a file; the rate, the channels, the bits and the size of the data. *)
Definition parse_wav_header (file : list Z) : result (Z * Z * Z * Z) WavError :=
  let buf := take 44 file in
  if zlen buf <? 44 then Err UnexpectedEof else
  if negb (bool_decide (four_at 0 buf = ascii_bytes #"RIFF")) then Err NotRiff else
  if negb (bool_decide (four_at 8 buf = ascii_bytes #"WAVE")) then Err NotWave else
  if negb (bool_decide (four_at 12 buf = ascii_bytes #"fmt ")) then Err MissingFmt else
  if negb (u16_at 20 buf =? 1) then Err NotPcm else
  if negb (bool_decide (four_at 36 buf = ascii_bytes #"data")) then Err MissingData else
  Ok (u32_at 24 buf, u16_at 22 buf, u16_at 34 buf, u32_at 40 buf).

(** ** The writer *)

Record WavWriter : Type := mkWriter {
  written : list Z;
  w_sample_rate : Z;
  w_channels : Z;
  w_bits_per_sample : Z;
  data_size : Z
}.

#[export] Instance writer_eta : Settable WavWriter := fun x =>
  mkWriter (written x) (w_sample_rate x) (w_channels x) (w_bits_per_sample x) (data_size x).

Definition create_with_writer (sample_rate channels bits_per_sample : Z) : WavWriter :=
  mkWriter (build_wav_header sample_rate channels bits_per_sample 0) sample_rate channels bits_per_sample 0.

Definition create_mono (sample_rate : Z) : WavWriter := create_with_writer sample_rate 1 16.

(** [failed] is the sample at which a write fails, if one does. *)
Definition write_samples (failed : option nat) (samples : list Z) (w : WavWriter) : result unit WavError * WavWriter :=
  let done_to := default (length samples) failed in
  let w := w <| written := written w ++ concat (map sample_bytes (take done_to samples)) |> in
  if (done_to <? length samples)%nat then (Err WriteFailed, w)
  else (Ok tt, w <| data_size := wrap 32 (data_size w + wrap 32 (zlen samples * 2)) |>).

Definition write_bytes (data : list Z) (w : WavWriter) : WavWriter :=
  (w <| written := written w ++ data |>) <| data_size := wrap 32 (data_size w + wrap 32 (zlen data)) |>.

Definition w_duration_secs (w : WavWriter) : float :=
  let bytes_per_second := wrap 32 (wrap 32 (w_sample_rate w * w_channels w) * (w_bits_per_sample w / 8)) in
  f64_div (f64_of_Z (data_size w)) (f64_of_Z bytes_per_second).

(** The file after the header has been written over. *)
Definition wav_finish (w : WavWriter) : list Z :=
  build_wav_header (w_sample_rate w) (w_channels w) (w_bits_per_sample w) (data_size w) ++ drop 44 (written w).

(** ** The reader *)

Record WavReader : Type := mkReader {
  file : list Z;
  offset : Z;
  sample_rate : Z;
  channels : Z;
  bits_per_sample : Z;
  num_samples : Z;
  position : Z
}.

#[export] Instance reader_eta : Settable WavReader := fun x =>
  mkReader (file x) (offset x) (sample_rate x) (channels x) (bits_per_sample x) (num_samples x) (position x).

(** [None] is the panic of the division. *)
Definition open_with_reader (file : list Z) : option (result WavReader WavError) :=
  match parse_wav_header file with
  | Err e => Some (Err e)
  | Ok (sample_rate, channels, bits_per_sample, data_size) =>
      let frame := wrap 32 (channels * (bits_per_sample / 8)) in
      if frame =? 0 then None else
      Some (Ok (mkReader file 44 sample_rate channels bits_per_sample (data_size / frame) 0))
  end.

Definition is_eof (r : WavReader) : bool := wrap 32 (num_samples r * channels r) <=? position r.

(** A failed [read_exact] leaves the reader at the end of the file. *)
Fixpoint read_samples (count : nat) (r : WavReader) : list Z * WavReader :=
  match count with
  | O => ([], r)
  | S count =>
      if is_eof r then ([], r) else
      match drop (Z.to_nat (offset r)) (file r) with
      | b0 :: b1 :: _ =>
          let r := (r <| offset := offset r + 2 |>) <| position := wrap 32 (position r + 1) |> in
          let '(samples, r) := read_samples count r in (sample_of b0 b1 :: samples, r)
      | _ => ([], r <| offset := Z.max (offset r) (zlen (file r)) |>)
      end
  end.

Definition read_frame (duration_ms : Z) (r : WavReader) : list Z * WavReader :=
  let samples_per_frame := wrap 32 (sample_rate r * duration_ms) / 1000 in
  read_samples (Z.to_nat (samples_per_frame * channels r)) r.

Definition r_duration_secs (r : WavReader) : float := f64_div (f64_of_Z (num_samples r)) (f64_of_Z (sample_rate r)).

Definition position_secs (r : WavReader) : float :=
  f64_div (f64_of_Z (position r / channels r)) (f64_of_Z (sample_rate r)).

(** To a sample frame, with the data taken to start at byte 44. *)
Definition seek_to (sample_pos : Z) (r : WavReader) : WavReader :=
  (r <| offset := 44 + sample_pos * channels r * (bits_per_sample r / 8) |>)
    <| position := wrap 32 (sample_pos * channels r) |>.

Definition seek_secs (secs : float) (r : WavReader) : WavReader :=
  seek_to (Z.min (f_as_u32 (f64_mul secs (f64_of_Z (sample_rate r)))) (num_samples r)) r.

Definition rewind (r : WavReader) : WavReader := (r <| offset := 44 |>) <| position := 0 |>.

(** ** Generators *)

Section Tones.
Variable sin : float -> float.

(** [2.0 * PI * frequency * t]; [PI] is the nearest [f64]. *)
Definition f64_pi : float := S754_finite false 7074237752028440 (-51).

Definition phase (frequency : float) (i sample_rate : Z) : float :=
  f64_mul (f64_mul (f64_mul (f64_of_Z 2) f64_pi) frequency) (f64_div (f64_of_Z i) (f64_of_Z sample_rate)).

Definition tone_length (duration_ms sample_rate : Z) : nat := Z.to_nat (wrap 32 (sample_rate * duration_ms) / 1000).

Definition generate_tone (frequency : float) (duration_ms sample_rate : Z) (amplitude : float) : list Z :=
  let amplitude := f_as_i16 (f64_mul amplitude (f64_of_Z 32767)) in
  map (fun i => f_as_i16 (f64_mul (sin (phase frequency (Z.of_nat i) sample_rate)) (f64_of_Z amplitude)))
    (seq 0 (tone_length duration_ms sample_rate)).

Definition dtmf_frequencies (digit : ascii) : option (Z * Z) :=
  match digit with
  | "1" => Some (697, 1209) | "2" => Some (697, 1336) | "3" => Some (697, 1477) | "A" => Some (697, 1633)
  | "4" => Some (770, 1209) | "5" => Some (770, 1336) | "6" => Some (770, 1477) | "B" => Some (770, 1633)
  | "7" => Some (852, 1209) | "8" => Some (852, 1336) | "9" => Some (852, 1477) | "C" => Some (852, 1633)
  | "*" => Some (941, 1209) | "0" => Some (941, 1336) | "#" => Some (941, 1477) | "D" => Some (941, 1633)
  | _ => None
  end%char.

Definition generate_dtmf_tone (digit : ascii) (duration_ms sample_rate : Z) : list Z :=
  match dtmf_frequencies digit with
  | None => []
  | Some (low, high) =>
      let amplitude := f64_mul (f64_div (f64_of_Z 4) (f64_of_Z 10)) (f64_of_Z 32767) in
      map (fun i =>
        let low_val := sin (phase (f64_of_Z low) (Z.of_nat i) sample_rate) in
        let high_val := sin (phase (f64_of_Z high) (Z.of_nat i) sample_rate) in
        f_as_i16 (f64_div (f64_mul (f64_add low_val high_val) amplitude) (f64_of_Z 2)))
        (seq 0 (tone_length duration_ms sample_rate))
  end.

End Tones.

Definition generate_silence (duration_ms sample_rate : Z) : list Z := replicate (tone_length duration_ms sample_rate) 0.

(** ** Lemmas *)

Lemma le16_read z : 0 <= z < 65536 -> from_le16 (z mod 256) (z / 256 mod 256) = z.
Proof. intros H. unfold from_le16. rewrite (Z.mod_small (z / 256)) by (split; [apply Z.div_pos; lia|apply Z.div_lt_upper_bound; lia]). pose proof (Z_div_mod_eq_full z 256). lia. Qed.

Lemma le32_read z :
  0 <= z < 4294967296 ->
  from_le32 (z mod 65536 mod 256) (z mod 65536 / 256 mod 256) (z / 65536 mod 256) (z / 65536 / 256 mod 256) = z.
Proof.
  intros H. assert (0 <= z mod 65536 < 65536) as Hm by (apply Z.mod_pos_bound; lia).
  assert (0 <= z / 65536 < 65536) as Hd by (split; [apply Z.div_pos; lia|apply Z.div_lt_upper_bound; lia]).
  unfold from_le32. rewrite !le16_read by done.
  pose proof (Z_div_mod_eq_full z 65536). lia.
Qed.

Lemma sample_roundtrip s : is_i16 s -> exists b0 b1, sample_bytes s = [b0; b1] /\ sample_of b0 b1 = s.
Proof.
  intros [H1 H2]. unfold sample_bytes, le16. eexists _, _. split; [reflexivity|]. unfold sample_of.
  assert (0 <= wrap 16 s < 65536) as Hw by (unfold wrap; apply Z.mod_pos_bound; lia). rewrite le16_read by done. cbv zeta.
  unfold wrap in *. change (2 ^ 16) with 65536 in *. destruct (Z_lt_le_dec s 0) as [Hs|Hs].
  - replace (s mod 65536) with (s + 65536) by (rewrite <- (Z_mod_plus_full s 1 65536); rewrite Z.mod_small; lia).
    destruct (Z.ltb_spec (s + 65536) 32768); lia.
  - rewrite Z.mod_small by lia. destruct (Z.ltb_spec s 32768); lia.
Qed.

Lemma parse_built_header rate ch bits size rest :
  is_u32 rate -> is_u16 ch -> is_u16 bits -> 0 <= size < 4294967296 ->
  parse_wav_header (build_wav_header rate ch bits size ++ rest) = Ok (rate, ch, bits, size).
Proof.
  intros Hr Hc Hb Hs. unfold parse_wav_header. rewrite take_app_length' by reflexivity. set (h := build_wav_header _ _ _ _).
  assert (four_at 0 h = ascii_bytes #"RIFF" /\ four_at 8 h = ascii_bytes #"WAVE" /\ four_at 12 h = ascii_bytes #"fmt " /\
    four_at 36 h = ascii_bytes #"data" /\ u16_at 20 h = 1 /\ zlen h = 44) as (E1 & E2 & E3 & E4 & E5 & E6) by (repeat split).
  assert (u32_at 24 h = rate) as E7 by (apply le32_read; exact Hr). assert (u16_at 22 h = ch) as E8 by (apply le16_read; exact Hc).
  assert (u16_at 34 h = bits) as E9 by (apply le16_read; exact Hb). assert (u32_at 40 h = size) as E10 by (by apply le32_read).
  clearbody h. rewrite E6, E1, E2, E3, E4, E5, E7, E8, E9, E10, !bool_decide_true by done. done.
Qed.

(** The bytes of samples. *)
Definition pcm (samples : list Z) : list Z := concat (map sample_bytes samples).

Lemma length_pcm samples : length (pcm samples) = (2 * length samples)%nat.
Proof. unfold pcm. induction samples as [|s l IH]; [done|]. cbn [map concat]. rewrite length_app, IH. cbn. lia. Qed.

Lemma drop_pcm n samples : drop (2 * n) (pcm samples) = pcm (drop n samples).
Proof.
  revert samples. induction n as [|n IH]; intros [|s l]; [done..| |].
  - unfold pcm. cbn [map concat]. by rewrite drop_nil.
  - replace (2 * S n)%nat with (S (S (2 * n))) by lia. cbn [drop]. rewrite <- IH. done.
Qed.

(** A reader at sample [j] of a file whose body is [samples]. *)
Definition at_sample (samples : list Z) (limit j : nat) (r : WavReader) : Prop :=
  (exists h, length h = 44%nat /\ file r = h ++ pcm samples) /\
  offset r = 44 + 2 * Z.of_nat j /\ position r = Z.of_nat j /\
  num_samples r * channels r = Z.of_nat limit /\ Z.of_nat limit < 2147483648 /\ (limit <= length samples)%nat.

Lemma read_at n samples limit j r :
  Forall is_i16 samples -> at_sample samples limit j r ->
  exists r', read_samples n r = (take n (drop j (take limit samples)), r') /\ at_sample samples limit (Nat.max j (Nat.min limit (j + n))) r' /\
    sample_rate r' = sample_rate r /\ channels r' = channels r /\ num_samples r' = num_samples r /\ bits_per_sample r' = bits_per_sample r.
Proof.
  intros Hs. revert j r. induction n as [|n IH]; intros j r Hr.
  { exists r. cbn [read_samples]. rewrite take_0, Nat.add_0_r. replace (Nat.max j (Nat.min limit j)) with j by lia. done. }
  destruct Hr as ((h & Hh & Hf) & Ho & Hp & Hl & Hb & Hle). cbn [read_samples]. unfold is_eof. rewrite Hl, Hp.
  rewrite wrap_small by (unfold in_width; lia). destruct (Z.leb_spec (Z.of_nat limit) (Z.of_nat j)) as [Hj|Hj].
  { exists r. rewrite (drop_ge (take limit samples)) by (rewrite length_take; lia). rewrite take_nil.
    replace (Nat.max j (Nat.min limit (j + S n))) with j by lia. unfold at_sample. split_and!; try done. by exists h. }
  assert (j < length samples)%nat as Hj' by lia. destruct (lookup_lt_is_Some_2 samples j Hj') as [s Es].
  pose proof (drop_S _ _ _ Es) as Ed. pose proof (proj1 (Forall_lookup _ _) Hs j s Es) as Hi.
  destruct (sample_roundtrip s Hi) as (b0 & b1 & Eb & Er).
  assert (drop (Z.to_nat (offset r)) (file r) = b0 :: b1 :: pcm (drop (S j) samples)) as ->.
  { rewrite Hf, Ho. replace (Z.to_nat (44 + 2 * Z.of_nat j)) with (length h + 2 * j)%nat by lia.
    rewrite <- drop_drop, drop_app_length, drop_pcm, Ed. unfold pcm at 1. cbn [map concat]. by rewrite Eb. }
  set (r1 := (r <| offset := offset r + 2 |>) <| position := wrap 32 (Z.of_nat j + 1) |>).
  destruct (IH (S j) r1) as (r' & E' & Ha & H1 & H2 & H3 & H4).
  { unfold at_sample. split; [by exists h|]. change (offset r1) with (offset r + 2). change (position r1) with (wrap 32 (Z.of_nat j + 1)).
    rewrite wrap_small by (unfold in_width; lia). split_and!; try done; lia. }
  rewrite E'. exists r'. split; [|split_and!; try done].
  - f_equal. rewrite Er. assert (take limit samples !! j = Some s) as Et by (rewrite lookup_take_lt by lia; done).
    rewrite (drop_S _ _ _ Et). done.
  - replace (Nat.max j (Nat.min limit (j + S n))) with (Nat.max (S j) (Nat.min limit (S j + n))) by lia. done.
Qed.

(** A sequence of reads. *)
Fixpoint read_all (counts : list nat) (r : WavReader) : list Z * WavReader :=
  match counts with
  | [] => ([], r)
  | n :: counts => let '(s, r) := read_samples n r in let '(s', r) := read_all counts r in (s ++ s', r)
  end.

Lemma read_all_at counts samples limit j r :
  Forall is_i16 samples -> at_sample samples limit j r ->
  let '(read, r') := read_all counts r in
  read = take (sum_list counts) (drop j (take limit samples)) /\
  (exists j', at_sample samples limit j' r') /\
  channels r' = channels r /\ num_samples r' = num_samples r /\ bits_per_sample r' = bits_per_sample r.
Proof.
  intros Hs. revert j r. induction counts as [|n counts IH]; intros j r Hr; [split_and!; try done; by exists j|].
  cbn [read_all]. change (sum_list (n :: counts)) with (n + sum_list counts)%nat.
  destruct (read_at n samples limit j r Hs Hr) as (r1 & E & Hr1 & _ & C1 & C2 & C3).
  rewrite E. specialize (IH _ _ Hr1). destruct (read_all counts r1) as [s' r2]. destruct IH as (-> & Hj & D1 & D2 & D3).
  split_and!; [|done|congruence..].
  set (l := take limit samples). assert (length l = limit) as Hl by (unfold l; rewrite length_take; destruct Hr as (_ & _ & _ & _ & _ & ?); lia).
  rewrite <- (take_drop n (take (n + sum_list counts) (drop j l))), take_take, skipn_firstn_comm, drop_drop.
  replace (Nat.min n (n + sum_list counts)) with n by lia. replace (n + sum_list counts - n)%nat with (sum_list counts) by lia. f_equal.
  destruct (decide (j + n <= limit)%nat) as [H|H]; [by replace (Nat.max j (Nat.min limit (j + n))) with (j + n)%nat by lia|].
  rewrite !(drop_ge l) by lia. done.
Qed.

(** A seek goes to the frame, wherever the reader is. *)
Lemma seek_at samples limit j r frame :
  at_sample samples limit j r -> bits_per_sample r = 16 -> 1 <= channels r -> 0 <= frame <= num_samples r ->
  at_sample samples limit (Z.to_nat (frame * channels r)) (seek_to frame r).
Proof.
  intros (Hf & _ & _ & Hl & Hb & Hle) Hbits Hc Hfr. assert (0 <= frame * channels r <= num_samples r * channels r) as Hx by nia.
  unfold at_sample, seek_to. cbn [file offset position num_samples channels bits_per_sample set]. rewrite Hbits. change (16 / 8) with 2.
  rewrite wrap_small by (unfold in_width; lia). split; [exact Hf|]. split_and!; try lia.
Qed.

Lemma write_all_spec chunks w :
  let w' := foldl (fun w c => (write_samples None c w).2) w chunks in
  written w' = written w ++ pcm (concat chunks) /\ w_sample_rate w' = w_sample_rate w /\ w_channels w' = w_channels w /\
  w_bits_per_sample w' = w_bits_per_sample w /\
  (0 <= data_size w -> data_size w + 2 * zlen (concat chunks) < 4294967296 -> data_size w' = data_size w + 2 * zlen (concat chunks)).
Proof.
  revert w. induction chunks as [|c chunks IH]; intros w; cbn [foldl concat].
  { unfold pcm. cbn. rewrite app_nil_r. split_and!; try done. intros. unfold zlen. cbn. lia. }
  assert ((write_samples None c w).2 = (w <| written := written w ++ pcm c |>) <| data_size := wrap 32 (data_size w + wrap 32 (zlen c * 2)) |>) as Ew.
  { unfold write_samples. cbn [default from_option]. rewrite Nat.ltb_irrefl, take_ge by lia. done. }
  rewrite Ew. set (w1 := _ <| data_size := _ |>). destruct (IH w1) as (H1 & H2 & H3 & H4 & H5). split_and!; try done.
  - rewrite H1. change (written w1) with (written w ++ pcm c). rewrite <- app_assoc. f_equal. unfold pcm. by rewrite map_app, concat_app.
  - intros H0 Hb. rewrite zlen_app in Hb. pose proof (zlen_nonneg c). pose proof (zlen_nonneg (concat chunks)).
    assert (data_size w1 = data_size w + 2 * zlen c) as Hd.
    { change (data_size w1) with (wrap 32 (data_size w + wrap 32 (zlen c * 2))). rewrite (wrap_small 32 (zlen c * 2)), wrap_small by (unfold in_width; lia). lia. }
    rewrite H5; rewrite Hd, ?zlen_app; lia.
Qed.

(** A recording is played back.  A file written in any number of calls and finished opens with
    the rate and the channels it was created with, and the number of its sample frames; reads of
    any sizes from the start, and after whatever was read from any frame that a seek goes to,
    return the recorded samples from there on, in order, up to the last complete frame, and then
    nothing; a rewind is a seek to the first frame. *)
Theorem wav_roundtrip rate ch chunks :
  is_u32 rate -> 1 <= ch <= 32767 -> Forall is_i16 (concat chunks) -> 2 * zlen (concat chunks) < 4294967296 ->
  let samples := concat chunks in
  let w := foldl (fun w c => (write_samples None c w).2) (create_with_writer rate ch 16) chunks in
  exists r,
    open_with_reader (wav_finish w) = Some (Ok r) /\
    sample_rate r = rate /\ channels r = ch /\ bits_per_sample r = 16 /\ num_samples r = zlen samples / ch /\
    let recorded := take (Z.to_nat (num_samples r * ch)) samples in
    (forall counts, (read_all counts r).1 = take (sum_list counts) recorded) /\
    (forall counts frame counts', 0 <= frame <= num_samples r ->
       (read_all counts' (seek_to frame (read_all counts r).2)).1 = take (sum_list counts') (drop (Z.to_nat (frame * ch)) recorded)) /\
    (forall counts, rewind (read_all counts r).2 = seek_to 0 (read_all counts r).2).
Proof.
  intros Hr Hc Hi Hl samples w. pose proof (zlen_nonneg samples) as H0.
  destruct (write_all_spec chunks (create_with_writer rate ch 16)) as (H1 & H2 & H3 & H4 & H5). fold w in H1, H2, H3, H4, H5.
  specialize (H5 ltac:(cbn; lia) ltac:(change (data_size (create_with_writer rate ch 16)) with 0; lia)).
  change (data_size (create_with_writer rate ch 16)) with 0 in H5. fold samples in H1, H5, Hl, Hi. rewrite Z.add_0_l in H5.
  unfold wav_finish. rewrite H1, H2, H3, H4, H5. change (written (create_with_writer rate ch 16)) with (build_wav_header rate ch 16 0).
  change (w_sample_rate _) with rate. change (w_channels _) with ch. change (w_bits_per_sample _) with 16.
  rewrite drop_app_length' by reflexivity. unfold open_with_reader.
  rewrite parse_built_header; [|done|unfold is_u16, in_width; lia|split; vm_compute; (discriminate || reflexivity)|lia].
  change (16 / 8) with 2. rewrite wrap_small by (unfold in_width; lia). rewrite (proj2 (Z.eqb_neq _ _)) by lia.
  set (n := 2 * zlen samples / (ch * 2)). assert (n = zlen samples / ch) as Hn
    by (unfold n; rewrite (Z.mul_comm 2); apply Z.div_mul_cancel_r; lia).
  assert (n * ch <= zlen samples) as Hle by (rewrite Hn, Z.mul_comm; apply Z.mul_div_le; lia).
  assert (0 <= n) as Hn0 by (rewrite Hn; apply Z.div_pos; lia).
  set (r := mkReader _ _ _ _ _ _ _). exists r. assert (at_sample samples (Z.to_nat (n * ch)) 0 r) as Hat.
  { unfold at_sample. cbn [r file offset position num_samples channels]. split; [exists (build_wav_header rate ch 16 (2 * zlen samples)); split; reflexivity|]. split_and!; try lia.
    apply Nat2Z.inj_le. rewrite Z2Nat.id by nia. exact Hle. }
  split_and!; try done.
  - intros counts. pose proof (read_all_at counts samples _ _ r Hi Hat) as H. destruct (read_all counts r). by destruct H as [-> _].
  - intros counts frame counts' Hf. pose proof (read_all_at counts samples _ _ r Hi Hat) as H.
    destruct (read_all counts r) as [read r']. destruct H as (_ & [j Hj] & C1 & C2 & C3). cbn [snd].
    change (channels r) with ch in C1. change (bits_per_sample r) with 16 in C3.
    pose proof (seek_at samples _ j r' frame Hj C3 ltac:(lia) ltac:(rewrite C2; exact Hf)) as Hs. rewrite C1 in Hs.
    pose proof (read_all_at counts' samples _ _ _ Hi Hs) as H. destruct (read_all counts' _). by destruct H as [-> _].
Qed.

Lemma wav_roundtrip_witness :
  let w := foldl (fun w c => (write_samples None c w).2) (create_mono 8000) [[1; -2]; [300; -32768]] in
  exists r, open_with_reader (wav_finish w) = Some (Ok r) /\ (read_all [1; 2]%nat (seek_to 1 (read_all [2]%nat r).2)).1 = [-2; 300; -32768].
Proof.
  destruct (wav_roundtrip 8000 1 [[1; -2]; [300; -32768]]) as (r & E & _ & _ & _ & En & H).
  - split; vm_compute; (discriminate || reflexivity).
  - lia.
  - repeat (constructor; [split; vm_compute; (discriminate || reflexivity)|]). constructor.
  - vm_compute. reflexivity.
  - exists r. split; [exact E|]. destruct H as (_ & H & _). rewrite (H [2]%nat 1 [1; 2]%nat), En by (rewrite En; split; vm_compute; discriminate).
    vm_compute. reflexivity.
Defined.

(** A file with no channels, or with fewer than eight bits, panics when it is opened. *)
Example no_channels_panics : open_with_reader (build_wav_header 8000 0 16 0) = None /\ open_with_reader (build_wav_header 8000 1 4 0) = None.
Proof. vm_compute. auto. Qed.

(** A reader of 8-bit audio takes two bytes for a sample. *)
Example eight_bits_misread :
  match open_with_reader (build_wav_header 8000 1 8 4 ++ [1; 2; 3; 4]) with
  | Some (Ok r) => Some (num_samples r, (read_samples 4 r).1)
  | _ => None
  end = Some (4, [513; 1027]).
Proof. vm_compute. reflexivity. Qed.
