(* ===== verification/Mixer.v ===== *)
(** * Mixing ([media/mixer.rs])

    The mixer with its contributing sources, the conference on top of it, the detector of the
    active speaker, silence and gain control.  The order in which a map is iterated is an
    argument; the outer [option] is [None] on a panic. *)

From S2P Require Import Prelude RStr RtpPacket RFloat Wav.
From Stdlib Require Import SpecFloat.

Local Open Scope Z_scope.

(** ** The mixer *)

Record SourceState : Type := mkSource { samples : list Z; active : bool; silent_frames : Z }.

Record AudioMixer : Type := mkMixer {
  sources : gmap Z SourceState;
  max_sources : Z;
  output_buffer : list Z
}.

#[export] Instance mixer_eta : Settable AudioMixer := fun x =>
  mkMixer (sources x) (max_sources x) (output_buffer x).

Definition mixer_new : AudioMixer := mkMixer ∅ 15 [].

Definition set_max_sources (max : Z) (m : AudioMixer) : AudioMixer := m <| max_sources := Z.min max 15 |>.

(** [max_by_key] returns the last of the greatest. *)
Definition oldest_inactive (m : AudioMixer) (order : list Z) : option Z :=
  fst <$> foldl (fun (best : option (Z * Z)) ssrc =>
    match sources m !! ssrc with
    | Some s =>
        if active s then best else
        match best with
        | Some (_, k) => if k <=? silent_frames s then Some (ssrc, silent_frames s) else best
        | None => Some (ssrc, silent_frames s)
        end
    | None => best
    end) None order.

Definition put_source (ssrc : Z) (frame : list Z) (m : AudioMixer) : AudioMixer :=
  m <| sources := <[ssrc := mkSource frame true 0]> (sources m) |>.

Definition add_source (order : list Z) (ssrc : Z) (frame : list Z) (m : AudioMixer) : AudioMixer :=
  if (max_sources m <=? Z.of_nat (size (sources m))) && negb (bool_decide (is_Some (sources m !! ssrc))) then
    match oldest_inactive m order with
    | Some old_ssrc => put_source ssrc frame (m <| sources := delete old_ssrc (sources m) |>)
    | None => m
    end
  else put_source ssrc frame m.

Definition mark_silent (ssrc : Z) (m : AudioMixer) : AudioMixer :=
  match sources m !! ssrc with
  | Some s => m <| sources := <[ssrc := mkSource (samples s) false (wrap 32 (silent_frames s + 1))]> (sources m) |>
  | None => m
  end.

Definition remove_source (ssrc : Z) (m : AudioMixer) : AudioMixer := m <| sources := delete ssrc (sources m) |>.

Definition sat_add (a b : Z) : Z := clamp (-32768) 32767 (a + b).

(** The loop over the samples of one source. *)
Fixpoint mix_into (out frame : list Z) : list Z :=
  match out, frame with
  | o :: out, s :: frame => sat_add o s :: mix_into out frame
  | _, _ => out
  end.

(** The source is not skipped. *)
Definition contributes (m : AudioMixer) (exclude : option Z) (ssrc : Z) : option (list Z) :=
  if bool_decide (exclude = Some ssrc) then None else
  match sources m !! ssrc with
  | Some s => if negb (active s) || (length (samples s) =? 0)%nat then None else Some (samples s)
  | None => None
  end.

Definition mix_source (m : AudioMixer) (exclude : option Z) (acc : list Z * list Z) (ssrc : Z) : list Z * list Z :=
  let '(out, csrc) := acc in
  match contributes m exclude ssrc with
  | Some frame => (mix_into out frame, if (length csrc <? 15)%nat then csrc ++ [ssrc] else csrc)
  | None => acc
  end.

Definition mix_except (order : list Z) (num_samples : nat) (exclude : option Z) (m : AudioMixer)
  : list Z * list Z * AudioMixer :=
  let '(out, csrc) := foldl (mix_source m exclude) (replicate num_samples 0, []) order in
  (out, csrc, m <| output_buffer := out |>).

Definition mix (order : list Z) (num_samples : nat) (m : AudioMixer) : list Z * list Z * AudioMixer :=
  mix_except order num_samples None m.

Definition active_source_count (m : AudioMixer) : nat := length (filter (fun p : Z * SourceState => active p.2 = true) (map_to_list (sources m))).

Definition source_ssrcs (m : AudioMixer) : list Z := map fst (map_to_list (sources m)).

Definition mixer_clear (m : AudioMixer) : AudioMixer := m <| sources := ∅ |>.

(** ** Conferences *)

Record ConferenceMixer : Type := mkConference { mixer : AudioMixer; frame_size : Z }.

#[export] Instance conference_eta : Settable ConferenceMixer := fun x => mkConference (mixer x) (frame_size x).

Definition conference_new (sample_rate frame_duration_ms : Z) : ConferenceMixer :=
  mkConference mixer_new (wrap 32 (sample_rate * frame_duration_ms) / 1000).

Definition submit_audio (order : list Z) (ssrc : Z) (frame : list Z) (c : ConferenceMixer) : ConferenceMixer :=
  c <| mixer := add_source order ssrc frame (mixer c) |>.

Definition participant_silent (ssrc : Z) (c : ConferenceMixer) : ConferenceMixer := c <| mixer := mark_silent ssrc (mixer c) |>.

Definition remove_participant (ssrc : Z) (c : ConferenceMixer) : ConferenceMixer := c <| mixer := remove_source ssrc (mixer c) |>.

Definition get_mix_for (order : list Z) (ssrc : Z) (c : ConferenceMixer) : list Z * list Z * ConferenceMixer :=
  let '(out, csrc, m) := mix_except order (Z.to_nat (frame_size c)) (Some ssrc) (mixer c) in
  (out, csrc, c <| mixer := m |>).

Definition participant_count (c : ConferenceMixer) : nat := active_source_count (mixer c).

(** ** Levels *)

Definition f32_add := SFadd 24 128.
Definition f32_zero : float := S754_zero false.
Definition f64_sqrt := SFsqrt 53 1024.

(** [x as f32] of an [f64], [x as f64] of an [f32]. *)
Definition renormalize (prec emax : Z) (x : float) : float :=
  match x with S754_finite s m e => binary_normalize prec emax (if s then Zneg m else Zpos m) e s | _ => x end.
Definition f32_of_f64 := renormalize 24 128.
Definition f64_of_f32 := renormalize 53 1024.

Definition sum_squares (frame : list Z) : Z := foldl (fun n s => n + s * s) 0 frame.

(** [(sum_squares as f64 / len as f64).sqrt()] over the greatest sample. *)
Definition rms_level (frame : list Z) : float :=
  f64_div (f64_sqrt (f64_div (f64_of_Z (sum_squares frame)) (f64_of_Z (zlen frame)))) (f64_of_Z 32767).

Definition calculate_rms_energy (frame : list Z) : float :=
  match frame with [] => f32_zero | _ => f32_of_f64 (rms_level frame) end.

Definition is_silence (frame : list Z) (threshold : float) : bool :=
  match frame with [] => true | _ => f64_lt (rms_level frame) (f64_of_f32 threshold) end.

(** [i16::abs] of a release build wraps at the least value. *)
Definition i16_abs (s : Z) : Z := if s =? -32768 then -32768 else Z.abs s.

Definition is_nan (x : float) : bool := match x with S754_nan => true | _ => false end.

Definition f32_min (a b : float) : float := if is_nan a then b else if SFltb b a then b else a.

Definition auto_gain_control (target_level max_gain : float) (frame : list Z) : list Z :=
  match map i16_abs frame with
  | [] => frame
  | a :: abs =>
      let peak := foldl Z.max a abs in
      if peak =? 0 then frame else
      let target_peak := f_as_i32 (f32_mul target_level (f32_of_Z 32767)) in
      let gain := f32_min (f32_div (f32_of_Z target_peak) (f32_of_Z peak)) max_gain in
      if SFltb (SFabs (f32_sub gain (f32_of_Z 1))) (f32_div (f32_of_Z 1) (f32_of_Z 100)) then frame else
      map (fun s => clamp (-32768) 32767 (f_as_i32 (f32_mul (f32_of_Z s) gain))) frame
  end.

(** ** The active speaker *)

Record ActiveSpeakerDetector : Type := mkDetector {
  energy_history : gmap Z (list float);
  history_len : nat;
  speech_threshold : float
}.

#[export] Instance detector_eta : Settable ActiveSpeakerDetector := fun x =>
  mkDetector (energy_history x) (history_len x) (speech_threshold x).

Definition detector_new : ActiveSpeakerDetector := mkDetector ∅ 10 (f32_div (f32_of_Z 2) (f32_of_Z 100)).

Definition set_threshold (threshold : float) (d : ActiveSpeakerDetector) : ActiveSpeakerDetector :=
  d <| speech_threshold := threshold |>.

Definition detector_update (ssrc : Z) (frame : list Z) (d : ActiveSpeakerDetector) : float * ActiveSpeakerDetector :=
  let energy := calculate_rms_energy frame in
  let history := default [] (energy_history d !! ssrc) ++ [energy] in
  (energy, d <| energy_history := <[ssrc := drop (length history - history_len d) history]> (energy_history d) |>).

Definition average (history : list float) : float :=
  f32_div (foldl f32_add f32_zero history) (f32_of_Z (zlen history)).

Definition get_smoothed_energy (ssrc : Z) (d : ActiveSpeakerDetector) : float :=
  match energy_history d !! ssrc with
  | Some ((_ :: _) as history) => average history
  | _ => f32_zero
  end.

Definition is_speaking (ssrc : Z) (d : ActiveSpeakerDetector) : bool :=
  SFltb (speech_threshold d) (get_smoothed_energy ssrc d).

(** The sources above the threshold with their averages. *)
Definition speakers (order : list Z) (d : ActiveSpeakerDetector) : list (Z * float) :=
  filter (fun p => SFltb (speech_threshold d) p.2 = true)
    (omap (fun ssrc => match energy_history d !! ssrc with
                       | Some ((_ :: _) as history) => Some (ssrc, average history)
                       | _ => None
                       end) order).

(** [max_by] with [partial_cmp().unwrap()]: the last of the greatest. *)
Definition get_active_speaker (order : list Z) (d : ActiveSpeakerDetector) : option (option Z) :=
  match speakers order d with
  | [] => Some None
  | p :: ps =>
      let* best := foldl (fun (best : option (Z * float)) q =>
        let* b := best in
        let* c := SFcompare b.2 q.2 in
        Some (match c with Gt => b | _ => q end)) (Some p) ps in
      Some (Some best.1)
  end.

Definition detector_remove (ssrc : Z) (d : ActiveSpeakerDetector) : ActiveSpeakerDetector :=
  d <| energy_history := delete ssrc (energy_history d) |>.

Definition detector_clear (d : ActiveSpeakerDetector) : ActiveSpeakerDetector := d <| energy_history := ∅ |>.

(** The stable sort by descending energy; the comparison of a NaN would panic. *)
Fixpoint insert_speaker (p : Z * float) (l : list (Z * float)) : option (list (Z * float)) :=
  match l with
  | [] => Some [p]
  | q :: r =>
      let* c := SFcompare p.2 q.2 in
      match c with
      | Lt => let* r := insert_speaker p r in Some (q :: r)
      | _ => Some (p :: l)
      end
  end.

Definition get_active_speakers (order : list Z) (d : ActiveSpeakerDetector) : option (list (Z * float)) :=
  foldr (fun p acc => let* l := acc in insert_speaker p l) (Some []) (speakers order d).

(** ** Lemmas *)

Lemma sat_add_range a b : is_i16 (sat_add a b).
Proof. unfold is_i16, sat_add, clamp. lia. Qed.

Lemma mix_into_length out frame : length (mix_into out frame) = length out.
Proof. revert frame. induction out as [|o out IH]; intros [|s frame]; cbn; [done..|]. by rewrite IH. Qed.

Lemma mix_into_i16 out frame : Forall is_i16 out -> Forall is_i16 (mix_into out frame).
Proof.
  intros H. revert frame. induction H as [|o out Ho Hout IH]; intros [|s frame]; cbn; try done; constructor; try done.
  apply sat_add_range.
Qed.

Lemma mix_into_lookup out frame i :
  Forall is_i16 out -> mix_into out frame !! i = (fun o => sat_add o (default 0 (frame !! i))) <$> out !! i.
Proof.
  assert (forall o, is_i16 o -> sat_add o 0 = o) as H0 by (intros o [? ?]; unfold sat_add, clamp; lia).
  intros H. revert frame i. induction H as [|o out Ho Hout IH]; intros [|s frame] i; [done|by destruct i| |].
  - cbn [mix_into]. rewrite lookup_nil. cbn. destruct ((o :: out) !! i) as [x|] eqn:E; [|done]. cbn. rewrite H0; [done|].
    eapply (Forall_lookup_1 _ (o :: out)); [by constructor|exact E].
  - cbn [mix_into]. destruct i as [|i]; [done|]. apply IH.
Qed.

(** What is above the threshold is a number, so no comparison of speakers panics. *)
Lemma compare_numbers a b : is_nan a = false -> is_nan b = false -> is_Some (SFcompare a b).
Proof. destruct a as [| | |[] ? ?], b as [| | |[] ? ?]; try done; intros _ _; cbn; by eexists. Qed.

Lemma speakers_numbers order d : Forall (fun p => is_nan p.2 = false) (speakers order d).
Proof.
  apply Forall_forall. intros [k x] [H _]%list_elem_of_filter. cbn in *. destruct x; try done.
  by destruct (speech_threshold d).
Qed.

Lemma active_speaker_total order d : exists r, get_active_speaker order d = Some r.
Proof.
  unfold get_active_speaker. pose proof (speakers_numbers order d) as H. destruct (speakers order d) as [|p ps]; [by eexists|].
  apply Forall_cons in H as [Hp H]. revert p Hp. induction H as [|q ps Hq _ IH]; intros p Hp; [by eexists|]. cbn [foldl].
  destruct (compare_numbers p.2 q.2 Hp Hq) as [c Hc]. cbn [mbind option_bind]. rewrite Hc. cbn [mbind option_bind].
  destruct c; by apply IH.
Qed.

(** ** The state of a mixer *)

Record source_ok (s : SourceState) : Prop := {
  so_samples : Forall is_i16 (samples s);
  so_silent : 0 <= silent_frames s < 4294967296
}.

Record mixer_ok (m : AudioMixer) : Prop := {
  mo_max : 0 <= max_sources m <= 15;
  mo_size : (size (sources m) <= 15)%nat;
  mo_sources : forall ssrc s, sources m !! ssrc = Some s -> source_ok s;
  mo_output : Forall is_i16 (output_buffer m)
}.

Lemma put_source_ok ssrc frame m :
  mixer_ok m -> Forall is_i16 frame -> is_Some (sources m !! ssrc) \/ (size (sources m) < 15)%nat -> mixer_ok (put_source ssrc frame m).
Proof.
  intros [H1 H2 H3 H4] Hf Hs. constructor; [done| | |done].
  - cbn. destruct Hs as [[s Hs]|Hs]; [rewrite map_size_insert_Some; [done|by eexists]|].
    rewrite map_size_insert. destruct (sources m !! ssrc); cbn; lia.
  - cbn. intros k s. rewrite lookup_insert_Some. intros [[<- <-]|[_ E]]; [|by eapply H3]. constructor; [done|cbn; lia].
Qed.

Lemma delete_source_ok ssrc m : mixer_ok m -> mixer_ok (m <| sources := delete ssrc (sources m) |>).
Proof.
  intros [H1 H2 H3 H4]. constructor; [done| | |done].
  - cbn. rewrite map_size_delete. destruct (sources m !! ssrc); cbn; lia.
  - cbn. intros k s E. apply lookup_delete_Some in E as [_ E]. by eapply H3.
Qed.

Lemma oldest_present m order k : oldest_inactive m order = Some k -> exists s, sources m !! k = Some s /\ active s = false.
Proof.
  unfold oldest_inactive. rewrite fmap_Some. intros ([k' n'] & E & ->). cbn.
  set (P k := exists s, sources m !! k = Some s /\ active s = false).
  assert (forall best, (forall k n, best = Some (k, n) -> P k) -> forall r,
    foldl (fun (best : option (Z * Z)) ssrc =>
      match sources m !! ssrc with
      | Some s => if active s then best else
          match best with Some (_, k) => if k <=? silent_frames s then Some (ssrc, silent_frames s) else best | None => Some (ssrc, silent_frames s) end
      | None => best
      end) best order = r -> forall k n, r = Some (k, n) -> P k) as H; [|eapply (H None); [done|exact E|done]].
  clear E. induction order as [|ssrc order IH]; intros best Hb r Er k n ->; [by eapply Hb|]. cbn [foldl] in Er.
  eapply IH; [|exact Er|done]. intros k0 n0. destruct (sources m !! ssrc) as [s|] eqn:Es; [|by apply Hb].
  destruct (active s) eqn:Ea; [by apply Hb|]. destruct best as [[kb nb]|]; [destruct (nb <=? silent_frames s); [|by apply Hb]|];
    intros [= <- _]; by exists s.
Qed.

Lemma add_source_ok order ssrc frame m : mixer_ok m -> Forall is_i16 frame -> mixer_ok (add_source order ssrc frame m).
Proof.
  intros Hm Hf. unfold add_source. destruct (bool_decide (is_Some (sources m !! ssrc))) eqn:Eb.
  - rewrite andb_false_r. apply put_source_ok; [done|done|]. left. by apply bool_decide_eq_true in Eb.
  - rewrite andb_true_r. destruct (Z.leb_spec (max_sources m) (Z.of_nat (size (sources m)))) as [Hx|Hx].
    + destruct (oldest_inactive m order) as [old|] eqn:Eo; [|done]. apply oldest_present in Eo as (s & Es & _).
      apply put_source_ok; [by apply delete_source_ok|done|]. right. cbn. rewrite map_size_delete_Some by (by eexists).
      destruct Hm as [_ H2 _ _]. assert (size (sources m) <> 0%nat); [|lia]. intros E. apply map_size_empty_inv in E. rewrite E in Es. by rewrite lookup_empty in Es.
    + apply put_source_ok; [done|done|]. right. destruct Hm. lia.
Qed.

Lemma mark_silent_ok ssrc m : mixer_ok m -> mixer_ok (mark_silent ssrc m).
Proof.
  intros Hm. unfold mark_silent. destruct (sources m !! ssrc) as [s|] eqn:Es; [|done]. destruct Hm as [H1 H2 H3 H4]. constructor; [done| | |done].
  - cbn. by rewrite map_size_insert_Some by (by eexists).
  - cbn. intros k s'. rewrite lookup_insert_Some. intros [[<- <-]|[_ E]]; [|by eapply H3]. destruct (H3 _ _ Es). constructor; [done|].
    cbn. unfold wrap. apply Z.mod_pos_bound. lia.
Qed.

(** What source [ssrc] adds to sample [i]. *)
Definition contribution (m : AudioMixer) (exclude : option Z) (i : nat) (ssrc : Z) : Z :=
  match contributes m exclude ssrc with Some frame => default 0 (frame !! i) | None => 0 end.

Definition sum (l : list Z) : Z := foldr Z.add 0 l.

Lemma sat_sum_exact o l : Z.abs o + sum (map Z.abs l) <= 32767 -> foldl sat_add o l = o + sum l.
Proof.
  revert o. induction l as [|x l IH]; intros o H; cbn [map sum foldr foldl] in *; [lia|].
  fold (sum (map Z.abs l)) in H. fold (sum l). assert (0 <= sum (map Z.abs l)) as H0
    by (clear; induction l; cbn [map sum foldr]; [lia|fold (sum (map Z.abs l)); lia]).
  assert (sat_add o x = o + x) as -> by (unfold sat_add, clamp; lia). rewrite IH; lia.
Qed.

Lemma sum_perm l l' : l ≡ₚ l' -> sum l = sum l'.
Proof. unfold sum. induction 1; cbn [foldr]; lia. Qed.

Lemma mix_fold m exclude order out csrc :
  Forall is_i16 out ->
  let '(out', csrc') := foldl (mix_source m exclude) (out, csrc) order in
  length out' = length out /\ Forall is_i16 out' /\
  (forall i, out' !! i = (fun o => foldl sat_add o (map (contribution m exclude i) order)) <$> out !! i) /\
  csrc' = csrc ++ take (15 - length csrc) (filter (fun ssrc => is_Some (contributes m exclude ssrc)) order).
Proof.
  revert out csrc. induction order as [|ssrc order IH]; intros out csrc Ho; cbn [foldl].
  { split_and!; try done; [|by rewrite filter_nil, take_nil, app_nil_r]. intros i. by destruct (out !! i). }
  cbn [mix_source]. rewrite filter_cons. destruct (contributes m exclude ssrc) as [frame|] eqn:Ec.
  - set (c2 := if (length csrc <? 15)%nat then _ else _). specialize (IH (mix_into out frame) c2 (mix_into_i16 _ frame Ho)).
    destruct (foldl _ _ _) as [out' csrc']. destruct IH as (H1 & H2 & H3 & H4). split_and!; [by rewrite H1, mix_into_length|done| |].
    + intros i. rewrite H3, mix_into_lookup by done. cbn [map].
      assert (contribution m exclude i ssrc = default 0 (frame !! i)) as -> by (unfold contribution; by rewrite Ec). by destruct (out !! i).
    + rewrite decide_True by (by eexists). rewrite H4. unfold c2. destruct (Nat.ltb_spec (length csrc) 15) as [H|H].
      * rewrite length_app, <- app_assoc. cbn [length app]. replace (15 - length csrc)%nat with (S (15 - (length csrc + 1))) by lia. done.
      * replace (15 - length csrc)%nat with 0%nat by lia. done.
  - specialize (IH out csrc Ho). destruct (foldl _ _ _) as [out' csrc']. destruct IH as (H1 & H2 & H3 & H4).
    split_and!; [done|done| |].
    + intros i. rewrite H3. cbn [map].
      assert (contribution m exclude i ssrc = 0) as -> by (unfold contribution; by rewrite Ec). destruct (out !! i) as [o|] eqn:E; [|done]. cbn.
      assert (is_i16 o) as [? ?] by (eapply (Forall_lookup_1 _ out); done).
      replace (sat_add o 0) with o by (unfold sat_add, clamp; lia). done.
    + rewrite decide_False by (by intros [? [=]]). done.
Qed.

(** ** Runs *)

Inductive MixerOp : Type :=
| OpMax (max : Z)
| OpAdd (order : list Z) (ssrc : Z) (frame : list Z)
| OpSilent (ssrc : Z)
| OpRemove (ssrc : Z)
| OpMix (order : list Z) (num_samples : nat) (exclude : option Z)
| OpClear.

(** The arguments have the types of the code. *)
Definition op_typed (o : MixerOp) : Prop :=
  match o with OpMax max => 0 <= max | OpAdd _ _ frame => Forall is_i16 frame | _ => True end.

Definition apply_mixer_op (m : AudioMixer) (o : MixerOp) : AudioMixer :=
  match o with
  | OpMax max => set_max_sources max m
  | OpAdd order ssrc frame => add_source order ssrc frame m
  | OpSilent ssrc => mark_silent ssrc m
  | OpRemove ssrc => remove_source ssrc m
  | OpMix order n exclude => (mix_except order n exclude m).2
  | OpClear => mixer_clear m
  end.

Lemma zeros_i16 n : Forall is_i16 (replicate n 0).
Proof. apply Forall_replicate. unfold is_i16. lia. Qed.

Lemma apply_mixer_op_ok m o : mixer_ok m -> op_typed o -> mixer_ok (apply_mixer_op m o).
Proof.
  intros Hm Ho. destruct o as [max|order ssrc frame|ssrc|ssrc|order n exclude|]; cbn [apply_mixer_op op_typed] in *.
  - destruct Hm. constructor; try done. cbn. lia.
  - by apply add_source_ok.
  - by apply mark_silent_ok.
  - by apply delete_source_ok.
  - unfold mix_except. pose proof (mix_fold m exclude order (replicate n 0) [] (zeros_i16 n)) as H.
    destruct (foldl _ _ _) as [out csrc]. destruct H as (_ & H & _). destruct Hm. by constructor.
  - destruct Hm. constructor; try done. cbn. rewrite map_size_empty. lia.
Qed.

Lemma mixer_run_ok ops m : mixer_ok m -> Forall op_typed ops -> mixer_ok (foldl apply_mixer_op m ops).
Proof.
  intros Hm Ho. revert m Hm. induction Ho as [|o ops Ho _ IH]; intros m Hm; [done|]. cbn [foldl]. by apply IH, apply_mixer_op_ok.
Qed.

Lemma mixer_new_ok : mixer_ok mixer_new.
Proof. constructor; try done. cbn. rewrite map_size_empty. lia. Qed.

(** Leaving a source out takes its contribution out of the sum. *)
Lemma sum_except m i p order :
  NoDup order -> p ∈ order ->
  sum (map (contribution m None i) order) = sum (map (contribution m (Some p) i) order) + contribution m None i p.
Proof.
  assert (contribution m (Some p) i p = 0) as Hp by (unfold contribution, contributes; by rewrite bool_decide_true).
  assert (forall q, q <> p -> contribution m (Some p) i q = contribution m None i q) as Hq.
  { intros q Hq. unfold contribution, contributes. rewrite (bool_decide_false (Some p = Some q)), (bool_decide_false (None = Some q)) by congruence. done. }
  induction 1 as [|q order Hn Hd IH]; [by intros ?%elem_of_nil|]. intros Hin. cbn [map sum foldr]. fold (sum (map (contribution m None i) order)).
  fold (sum (map (contribution m (Some p) i) order)). apply elem_of_cons in Hin as [->|Hin].
  - assert (map (contribution m (Some q) i) order = map (contribution m None i) order) as ->; [|lia].
    apply map_ext_in. intros r Hr. apply Hq. intros ->. apply Hn. by apply list_elem_of_In.
  - rewrite Hq by (intros ->; done). specialize (IH Hin). lia.
Qed.

Lemma sum_abs_except m i p order :
  sum (map Z.abs (map (contribution m (Some p) i) order)) <= sum (map Z.abs (map (contribution m None i) order)).
Proof.
  induction order as [|q order IH]; [done|]. cbn [map sum foldr].
  fold (sum (map Z.abs (map (contribution m None i) order))). fold (sum (map Z.abs (map (contribution m (Some p) i) order))).
  assert (Z.abs (contribution m (Some p) i q) <= Z.abs (contribution m None i q)); [|lia].
  unfold contribution, contributes. rewrite (bool_decide_false (None = Some q)) by done. destruct (bool_decide (Some p = Some q)); lia.
Qed.

(** ** What the sources say

    Read off the operations alone: the frame a source submitted last, unless it was marked
    silent, removed or the mixer was cleared since. *)
Definition say (ssrc : Z) (said : option (list Z)) (o : MixerOp) : option (list Z) :=
  match o with
  | OpAdd _ k frame => if k =? ssrc then Some frame else said
  | OpSilent k | OpRemove k => if k =? ssrc then None else said
  | OpClear => None
  | OpMax _ | OpMix _ _ _ => said
  end.

Definition spoken (ops : list MixerOp) (ssrc : Z) : option (list Z) := foldl (say ssrc) None ops.

(** Sample [i] of a source that is not left out. *)
Definition voice (ops : list MixerOp) (exclude : option Z) (i : nat) (ssrc : Z) : Z :=
  if bool_decide (exclude = Some ssrc) then 0 else default 0 (default [] (spoken ops ssrc) !! i).

(** A stored source is active exactly when it speaks, and holds what it says. *)
Definition tells (m : AudioMixer) (said : Z -> option (list Z)) : Prop :=
  forall ssrc s, sources m !! ssrc = Some s -> said ssrc = if active s then Some (samples s) else None.

Lemma tells_put m said k frame :
  tells m said -> tells (put_source k frame m) (fun ssrc => if k =? ssrc then Some frame else said ssrc).
Proof.
  intros H ssrc s. unfold put_source. cbn. rewrite lookup_insert_Some. intros [[-> <-]|[Hk E]].
  - by rewrite Z.eqb_refl.
  - rewrite (proj2 (Z.eqb_neq k ssrc)) by done. by apply H.
Qed.

Lemma tells_fewer m m' said : sources m' ⊆ sources m -> tells m said -> tells m' said.
Proof. intros Hs H ssrc s E. apply H. by eapply lookup_weaken. Qed.

Lemma tells_step m said o : tells m said -> tells (apply_mixer_op m o) (fun ssrc => say ssrc (said ssrc) o).
Proof.
  intros H. destruct o as [max|order k frame|k|k|order n exclude|]; cbn [apply_mixer_op say]; [done| | | | |].
  - unfold add_source. destruct (_ && _) eqn:E; [|by apply tells_put].
    destruct (oldest_inactive m order) as [old|].
    + apply tells_put. eapply tells_fewer; [|exact H]. apply delete_subseteq.
    + apply andb_prop in E as [_ E]. apply negb_true_iff, bool_decide_eq_false in E. intros ssrc s Es.
      rewrite (proj2 (Z.eqb_neq k ssrc)); [by apply H|]. intros ->. apply E. by eexists.
  - unfold mark_silent. destruct (sources m !! k) as [sk|] eqn:Ek; intros ssrc s.
    + cbn. rewrite lookup_insert_Some. intros [[-> <-]|[Hk E]]; [by rewrite Z.eqb_refl|].
      rewrite (proj2 (Z.eqb_neq k ssrc)) by done. by apply H.
    + intros Es. rewrite (proj2 (Z.eqb_neq k ssrc)) by congruence. by apply H.
  - intros ssrc s Es. unfold remove_source in Es. cbn in Es. apply lookup_delete_Some in Es as [Hk Es].
    rewrite (proj2 (Z.eqb_neq k ssrc)) by done. by apply H.
  - unfold mix_except. destruct (foldl _ _ _) as [out csrc]. exact H.
  - intros ssrc s Es. cbn in Es. by rewrite lookup_empty in Es.
Qed.

Lemma tells_run ops : tells (foldl apply_mixer_op mixer_new ops) (spoken ops).
Proof.
  induction ops as [|o ops IH] using rev_ind; [intros ssrc s E; cbn in E; by rewrite lookup_empty in E|].
  rewrite foldl_snoc. intros ssrc s E. unfold spoken. rewrite foldl_snoc. exact (tells_step _ _ o IH ssrc s E).
Qed.

(** The number of sources that the operations allow. *)
Definition limit (ops : list MixerOp) : Z := foldl (fun n o => match o with OpMax max => Z.min max 15 | _ => n end) 15 ops.

Lemma limit_max ops : max_sources (foldl apply_mixer_op mixer_new ops) = limit ops.
Proof.
  enough (forall m, max_sources (foldl apply_mixer_op m ops) =
    foldl (fun n o => match o with OpMax max => Z.min max 15 | _ => n end) (max_sources m) ops) as H by exact (H mixer_new).
  induction ops as [|o ops IH]; intros m; [done|].
  cbn [foldl]. rewrite IH. f_equal. destruct o as [max|order k frame|k|k|order n exclude|]; cbn [apply_mixer_op]; try done.
  - unfold add_source. destruct (_ && _); [|done]. by destruct (oldest_inactive m order).
  - unfold mark_silent. by destruct (sources m !! k).
  - unfold mix_except. by destruct (foldl _ _ _).
Qed.

(** A frame of the source came when as many others as allowed were stored. *)
Definition crowded_out (ops : list MixerOp) (ssrc : Z) : Prop :=
  exists before order frame after, ops = before ++ OpAdd order ssrc frame :: after /\
    limit before <= Z.of_nat (size (sources (foldl apply_mixer_op mixer_new before))).

Lemma crowded_more ops o ssrc : crowded_out ops ssrc -> crowded_out (ops ++ [o]) ssrc.
Proof. intros (b & order & f & a & -> & H). exists b, order, f, (a ++ [o]). split; [by rewrite <- app_assoc|done]. Qed.

(** An operation takes away a source that speaks only when it silences, removes or clears it. *)
Lemma speaker_stays m said o ssrc s :
  tells m said -> sources m !! ssrc = Some s -> active s = true -> is_Some (say ssrc (said ssrc) o) ->
  is_Some (sources (apply_mixer_op m o) !! ssrc).
Proof.
  intros Ht Es Ea Hs. destruct o as [max|order k frame|k|k|order n exclude|]; cbn [apply_mixer_op say] in *.
  - by eexists.
  - assert (forall m', is_Some (sources m' !! ssrc) -> is_Some (sources (put_source k frame m') !! ssrc)) as Hput.
    { intros m' H. unfold put_source. cbn. rewrite lookup_insert_is_Some. destruct (decide (k = ssrc)); [by left|by right]. }
    unfold add_source. destruct (_ && _); [|apply Hput; by eexists]. destruct (oldest_inactive m order) as [old|] eqn:Eo; [|by eexists].
    apply Hput. cbn. apply oldest_present in Eo as (so & E1 & E2). rewrite lookup_delete_ne by congruence. by eexists.
  - unfold mark_silent. destruct (sources m !! k) eqn:Ek; [|by eexists]. cbn. rewrite lookup_insert_is_Some.
    destruct (decide (k = ssrc)); [by left|right; split; [done|by eexists]].
  - destruct (Z.eqb_spec k ssrc) as [->|Hk]; [by destruct Hs|]. cbn. rewrite lookup_delete_ne by done. by eexists.
  - unfold mix_except. destruct (foldl _ _ _). by eexists.
  - by destruct Hs.
Qed.

(** Who speaks is stored. *)
Lemma speakers_stored ops ssrc :
  is_Some (spoken ops ssrc) -> is_Some (sources (foldl apply_mixer_op mixer_new ops) !! ssrc) \/ crowded_out ops ssrc.
Proof.
  induction ops as [|o ops IH] using rev_ind; [by intros []|]. unfold spoken. rewrite !foldl_snoc. fold (spoken ops ssrc).
  intros Hs. set (m := foldl apply_mixer_op mixer_new ops) in *. destruct (spoken ops ssrc) as [f|] eqn:Ef.
  - destruct (IH ltac:(by eexists)) as [[s Es]|Hc]; [left|right; by apply crowded_more].
    pose proof (tells_run ops ssrc s Es) as Ht. rewrite Ef in Ht. destruct (active s) eqn:Ea; [|done].
    apply (speaker_stays m (spoken ops) o ssrc s (tells_run ops) Es Ea). by rewrite Ef.
  - destruct o as [max|order k frame|k|k|order n exclude|]; cbn [say] in Hs; try (by destruct Hs);
      destruct (Z.eqb_spec k ssrc) as [->|Hk]; try (by destruct Hs). cbn [apply_mixer_op]. unfold add_source.
    destruct (Z.leb_spec (max_sources m) (Z.of_nat (size (sources m)))) as [Hm|Hm].
    + right. exists ops, order, frame, []. split; [done|]. by rewrite <- limit_max.
    + left. cbn [andb]. unfold put_source. cbn. rewrite lookup_insert_eq. by eexists.
Qed.

(** What a stored source contributes is what it says. *)
Lemma contributes_spoken ops exclude ssrc s :
  let m := foldl apply_mixer_op mixer_new ops in
  sources m !! ssrc = Some s ->
  (is_Some (contributes m exclude ssrc) <-> exclude <> Some ssrc /\ exists frame, spoken ops ssrc = Some frame /\ frame <> []) /\
  forall i, contribution m exclude i ssrc = voice ops exclude i ssrc.
Proof.
  intros m E. pose proof (tells_run ops ssrc s E) as Ht. fold m in Ht. unfold contribution, voice, contributes. rewrite Ht.
  destruct (decide (exclude = Some ssrc)) as [He|He]; [rewrite bool_decide_true by done|rewrite bool_decide_false by done].
  { split; [|done]. split; [by intros []|tauto]. }
  rewrite E. destruct (active s), (samples s) as [|x l]; cbn; split; try done; split; try (by intros []); intros [_ (f & [= <-] & ?)] || (intros _; eauto); done.
Qed.

Lemma voices_stored ops exclude i order :
  let m := foldl apply_mixer_op mixer_new ops in
  order ≡ₚ map fst (map_to_list (sources m)) ->
  map (contribution m exclude i) order = map (voice ops exclude i) order.
Proof.
  intros m Ho. apply map_ext_in. intros ssrc Hin. apply list_elem_of_In in Hin. rewrite Ho in Hin.
  apply list_elem_of_fmap in Hin as ([k s] & -> & Hs%elem_of_map_to_list). by apply (contributes_spoken ops exclude k s).
Qed.

(** C36: the mixer is well-typed, and a conference hears everyone else.  After any sequence of
    operations on 16-bit audio there are at most fifteen sources and every stored sample is a
    16-bit integer.  A mix then has the length asked for and 16-bit samples; its contributing
    sources, each once, are exactly the stored ones that are not left out and speak: that have
    submitted a frame, not an empty one, and have not been marked silent, removed or cleared
    since ([spoken], read off the operations).  A source that speaks is stored, unless as many as
    are allowed were stored when it came ([crowded_out]).  Each sample is the saturated sum of what these say
    in the order in which the map is visited; where the magnitudes add up to no more than the
    greatest sample it is the exact sum, whatever the order (otherwise the order matters:
    [mix_depends_on_order]), and there the mix for a participant is the whole mix without what it
    said. *)
Theorem mixer_typed ops order n :
  Forall op_typed ops ->
  let m := foldl apply_mixer_op mixer_new ops in
  order ≡ₚ map fst (map_to_list (sources m)) ->
  (size (sources m) <= 15)%nat /\ Forall is_i16 (output_buffer m) /\
  (forall ssrc s, sources m !! ssrc = Some s -> Forall is_i16 (samples s)) /\
  (forall ssrc, is_Some (spoken ops ssrc) -> is_Some (sources m !! ssrc) \/ crowded_out ops ssrc) /\
  (forall exclude,
     let '(out, csrc, m') := mix_except order n exclude m in
     length out = n /\ Forall is_i16 out /\ NoDup csrc /\
     (forall ssrc, ssrc ∈ csrc <->
        is_Some (sources m !! ssrc) /\ exclude <> Some ssrc /\ exists frame, spoken ops ssrc = Some frame /\ frame <> []) /\
     forall i, (i < n)%nat ->
       out !! i = Some (foldl sat_add 0 (map (voice ops exclude i) order)) /\
       (sum (map Z.abs (map (voice ops exclude i) order)) <= 32767 ->
        out !! i = Some (sum (map (voice ops exclude i) (map fst (map_to_list (sources m))))))) /\
  (forall p i x y, (i < n)%nat -> sum (map Z.abs (map (voice ops None i) order)) <= 32767 -> is_Some (sources m !! p) ->
     (mix order n m).1.1 !! i = Some x -> (mix_except order n (Some p) m).1.1 !! i = Some y ->
     x = y + voice ops None i p).
Proof.
  intros Hops m Hord. pose proof (mixer_run_ok ops mixer_new mixer_new_ok Hops) as Hm. fold m in Hm. destruct Hm as [_ H2 H3 H4].
  assert (NoDup order) as Hd by (rewrite Hord; apply NoDup_fst_map_to_list).
  assert (length order <= 15)%nat as Hlen by (by rewrite (Permutation_length Hord), length_map, length_map_to_list).
  assert (forall exclude, let '(out, csrc) := foldl (mix_source m exclude) (replicate n 0, []) order in
    length out = n /\ Forall is_i16 out /\ csrc = filter (fun ssrc => is_Some (contributes m exclude ssrc)) order /\
    forall i, (i < n)%nat -> out !! i = Some (foldl sat_add 0 (map (voice ops exclude i) order))) as Hmix.
  { intros exclude. pose proof (mix_fold m exclude order (replicate n 0) [] (zeros_i16 n)) as H.
    destruct (foldl (mix_source m exclude) (replicate n 0, []) order) as [out csrc].
    destruct H as (E1 & E2 & E3 & E4). split_and!; [by rewrite E1, length_replicate|done| |].
    - rewrite E4. cbn [app length]. apply take_ge. etransitivity; [apply length_filter|lia].
    - intros i Hi. rewrite E3, lookup_replicate_2 by done. cbn. by rewrite <- (voices_stored ops exclude i order Hord). }
  split_and!; [done|done|intros ssrc s E; by apply (H3 ssrc)|apply speakers_stored| |].
  - intros exclude. specialize (Hmix exclude). unfold mix_except.
    destruct (foldl (mix_source m exclude) (replicate n 0, []) order) as [out csrc]. destruct Hmix as (E1 & E2 & -> & E3).
    split_and!; [done|done|by apply NoDup_filter| |].
    + intros ssrc. rewrite list_elem_of_filter, Hord, list_elem_of_fmap. split.
      * intros [Hc ([k s] & -> & Hs%elem_of_map_to_list)]. split; [by eexists|]. by apply (contributes_spoken ops exclude k s Hs).
      * intros [[s Hs] Hc]. split; [by apply (contributes_spoken ops exclude ssrc s Hs)|].
        exists (ssrc, s). split; [done|]. by apply elem_of_map_to_list.
    + intros i Hi. rewrite E3 by done. split; [done|]. intros Hs. rewrite (sat_sum_exact 0) by done. f_equal. apply sum_perm.
      by apply Permutation_map.
  - intros p i x y Hi Hs [s Hp]. pose proof (Hmix None) as Ha. pose proof (Hmix (Some p)) as Hb. unfold mix, mix_except.
    destruct (foldl (mix_source m None) _ _) as [out1 csrc1]. destruct (foldl (mix_source m (Some p)) _ _) as [out2 csrc2]. cbn [fst].
    destruct Ha as (_ & _ & _ & Ha). destruct Hb as (_ & _ & _ & Hb). rewrite Ha, Hb by done. clear Ha Hb.
    rewrite <- (voices_stored ops None i order Hord) in *. rewrite <- (voices_stored ops (Some p) i order Hord).
    fold m in Hs |- *. pose proof (sum_abs_except m i p order). rewrite !(sat_sum_exact 0) by lia.
    rewrite <- (proj2 (contributes_spoken ops None p s Hp)). fold m.
    intros [= <-] [= <-]. apply sum_except; [done|]. rewrite Hord. apply list_elem_of_fmap. exists (p, s). split; [done|]. by apply elem_of_map_to_list.
Qed.

Definition sample_ops : list MixerOp :=
  [OpAdd [] 7 [100; -200]; OpAdd [7] 9 [5; 6; 7]; OpAdd [7; 9] 11 [1; 1]; OpSilent 11].

Lemma mixer_typed_witness :
  let m := foldl apply_mixer_op mixer_new sample_ops in
  (mix_except (map fst (map_to_list (sources m))) 2 (Some 7) m).1.1 = [5; 6] /\
  105 = 5 + voice sample_ops None 0 7.
Proof.
  intros m. assert (Forall op_typed sample_ops) as Ho.
  { repeat (constructor; [cbn; try done; repeat (constructor; [unfold is_i16; lia|]); constructor|]). constructor. }
  destruct (mixer_typed sample_ops (map fst (map_to_list (sources m))) 2 Ho (reflexivity _)) as (_ & _ & _ & _ & _ & H).
  split; [vm_compute; reflexivity|].
  apply (H 7 0%nat 105 5); [lia|vm_compute; discriminate|by eexists; vm_compute|vm_compute; reflexivity|vm_compute; reflexivity].
Defined.

(** Where the sum saturates on the way, the order of the map decides the mix. *)
Example mix_depends_on_order :
  let m := foldl apply_mixer_op mixer_new [OpAdd [] 1 [30000]; OpAdd [] 2 [30000]; OpAdd [] 3 [-30000]] in
  (mix [1; 2; 3] 1 m).1.1 = [2767] /\ (mix [1; 3; 2] 1 m).1.1 = [30000].
Proof. vm_compute. auto. Qed.

(** The level of the loudest frame is above 1. *)
Example energy_above_one : SFltb (f32_of_Z 1) (calculate_rms_energy [-32768]) = true.
Proof. vm_compute. reflexivity. Qed.

(** A frame of least samples is turned upside down by the gain control. *)
Example gain_inverts :
  auto_gain_control (f32_div (f32_of_Z 1) (f32_of_Z 2)) (f32_of_Z 4) [-32768; -32768] = [16383; 16383].
Proof. vm_compute. reflexivity. Qed.
