(* ===== verification/StreamFraming.v ===== *)
(** * Messages over byte streams ([transport/keepalive.rs], [transport/tcp.rs], [transport/tls.rs])

    How the read loop of a connection cuts the stream of the peer into messages, answers
    keep-alives and pings.  What a read of the socket brings, in chunks of any size, and whether
    the socket can be written, are arguments. *)

From S2P Require Import Prelude RStr.

Local Open Scope Z_scope.

(** ** Keep-alives *)

Definition KEEPALIVE_PING : str := CRLF ++ CRLF.
Definition KEEPALIVE_PONG : str := CRLF.

(** The interval is in milliseconds. *)
Record KeepAliveConfig : Type := mkKeepAlive { send_pings : bool; ping_interval : Z }.

Definition DEFAULT_PING_INTERVAL : Z := 95000.
Definition keepalive_default : KeepAliveConfig := mkKeepAlive false DEFAULT_PING_INTERVAL.
Definition keepalive_enabled : KeepAliveConfig := mkKeepAlive true DEFAULT_PING_INTERVAL.
Definition enabled_with_interval (interval : Z) : KeepAliveConfig := mkKeepAlive true interval.

(** The leading CRLFs and what follows them. *)
Fixpoint strip_crlfs (buf : str) : nat * str :=
  match buf with
  | a :: ((b :: r) as tl) =>
      if bool_decide (a = CR) && bool_decide (b = LF) then let '(n, rest) := strip_crlfs r in (S n, rest) else (0%nat, buf)
  | _ => (0%nat, buf)
  end.

Definition strip_leading_keepalives (buf : str) : nat * str :=
  let '(crlf_count, rest) := strip_crlfs buf in (crlf_count / 2, rest)%nat.

(** ** Framing *)

Definition MAX_TCP_SIZE : nat := Z.to_nat 65536.
Definition MAX_TLS_SIZE : nat := Z.to_nat 65536.

Fixpoint find_header_end (data : str) : option nat :=
  if starts_with (CRLF ++ CRLF) data then Some 4%nat else
  match data with
  | [] => None
  | _ :: r => S <$> find_header_end r
  end.

Fixpoint content_length_in (ls : list str) : Z :=
  match ls with
  | [] => 0
  | line :: ls =>
      let line_lower := to_ascii_lowercase line in
      if starts_with #"content-length:" line_lower || starts_with #"l:" line_lower then
        let value := match split_once ":"%char line with Some (_, v) => v | None => [] end in
        match parse_uint u64_max (trim value) with
        | Some len => len
        | None => content_length_in ls
        end
      else content_length_in ls
  end.

(** No character outside ASCII has a lower case among the letters of the two names. *)
Definition parse_content_length (headers : str) : Z :=
  if utf8_valid headers then content_length_in (lines headers) else 0.

(** The message and what is left; the sum is a [usize] of a release build. *)
Definition try_parse_message_from_buf (buf : str) : option (str * str) :=
  let* header_end := find_header_end buf in
  let content_length := parse_content_length (take header_end buf) in
  let total_length := wrap 64 (Z.of_nat header_end + content_length) in
  if Z.of_nat (length buf) <? total_length then None
  else Some (take (Z.to_nat total_length) buf, drop (Z.to_nat total_length) buf).

(** ** Reading *)

(** What a read brings, or the deadline of the next ping. *)
Inductive ReadEvent : Type :=
| Arrived (bytes : str)
| PeerClosed
| ReadFailed
| PingDue.

Inductive Outcome : Type :=
| Message (data : str)
| EndOfStream
| ReadError
| Blocked.

(** [ReadHalfState::read_message]: the outcome, the buffer, what was sent, the events left. *)
Fixpoint read_message (keepalive : KeepAliveConfig) (writable : bool) (events : list ReadEvent) (buf : str)
  : Outcome * str * list str * list ReadEvent :=
  let '(pings, buf) := strip_leading_keepalives buf in
  if (0 <? pings)%nat && negb writable then (ReadError, buf, [], events) else
  let sent := replicate pings KEEPALIVE_PONG in
  match try_parse_message_from_buf buf with
  | Some (msg, buf) => (Message msg, buf, sent, events)
  | None =>
      match events with
      | [] => (Blocked, buf, sent, [])
      | Arrived bytes :: events =>
          let buf := buf ++ bytes in
          if (MAX_TCP_SIZE <? length buf)%nat then (ReadError, buf, sent, events) else
          let '(o, buf, sent', events) := read_message keepalive writable events buf in (o, buf, sent ++ sent', events)
      | PeerClosed :: events => (EndOfStream, buf, sent, events)
      | ReadFailed :: events => (ReadError, buf, sent, events)
      | PingDue :: events =>
          if negb (send_pings keepalive) then
            let '(o, buf, sent', events) := read_message keepalive writable events buf in (o, buf, sent ++ sent', events)
          else if negb writable then (ReadError, buf, sent, events) else
          let '(o, buf, sent', events) := read_message keepalive writable events buf in
          (o, buf, sent ++ KEEPALIVE_PING :: sent', events)
      end
  end.

(** [TlsConnectionState::read_message] knows no keep-alives. *)
Fixpoint tls_read_message (events : list ReadEvent) (buf : str) : Outcome * str * list ReadEvent :=
  match try_parse_message_from_buf buf with
  | Some (msg, buf) => (Message msg, buf, events)
  | None =>
      match events with
      | [] => (Blocked, buf, [])
      | Arrived bytes :: events =>
          let buf := buf ++ bytes in
          if (MAX_TLS_SIZE <? length buf)%nat then (ReadError, buf, events) else tls_read_message events buf
      | PeerClosed :: events => (EndOfStream, buf, events)
      | ReadFailed :: events => (ReadError, buf, events)
      | PingDue :: events => tls_read_message events buf
      end
  end.

(** [TcpTransport::read_loop]: the receiver takes [room] messages before it is dropped.  The
    messages that are delivered, how the loop ended, what was sent. *)
Fixpoint read_loop (keepalive : KeepAliveConfig) (writable : bool) (room : nat) (events : list ReadEvent) (buf : str)
  : list str * Outcome * list str :=
  match read_message keepalive writable events buf with
  | (Message data, buf, sent, events) =>
      match room with
      | O => ([], Message data, sent)
      | S room =>
          let '(ms, o, sent') := read_loop keepalive writable room events buf in (data :: ms, o, sent ++ sent')
      end
  | (o, _, sent, _) => ([], o, sent)
  end.

(** ** Lemmas *)

Lemma starts_with_app p s x : (length p <= length s)%nat -> starts_with p (s ++ x) = starts_with p s.
Proof.
  unfold starts_with. revert s. induction p as [|a p IH]; intros [|b s] H; cbn in *; try done; [lia|].
  destruct (bool_decide _); [apply IH; lia|done].
Qed.

Lemma header_end_bounds s h : find_header_end s = Some h -> (4 <= h <= length s)%nat.
Proof.
  revert h. induction s as [|a s IH]; intros h; [done|]. cbn [find_header_end].
  destruct (starts_with (CRLF ++ CRLF) (a :: s)) eqn:E.
  - intros [= <-]. unfold starts_with in E. destruct s as [|b [|c [|d s]]]; cbn in E; repeat (destruct (bool_decide _); [|done]); try done. cbn. lia.
  - intros (h' & Eh & ->)%fmap_Some. apply IH in Eh. cbn. lia.
Qed.

(** The end of the headers does not depend on what comes after it. *)
Lemma find_header_end_app s x h : find_header_end s = Some h -> find_header_end (s ++ x) = Some h.
Proof.
  revert h. induction s as [|a s IH]; intros h; [done|]. intros E. pose proof (header_end_bounds _ _ E) as Hb. revert E.
  cbn [find_header_end app]. change (a :: s ++ x) with ((a :: s) ++ x). rewrite starts_with_app by (change (length (CRLF ++ CRLF)) with 4%nat; lia).
  destruct (starts_with _ _); [done|]. intros (h' & Eh & ->)%fmap_Some. by rewrite (IH h' Eh).
Qed.

(** A message that can be framed: it ends where its headers and its Content-Length say. *)
Record framed (m : str) : Prop := {
  fr_length : exists h, find_header_end m = Some h /\
    parse_content_length (take h m) = Z.of_nat (length m) - Z.of_nat h;
  fr_start : head m <> Some CR;
  fr_size : (length m <= Z.to_nat 61441)%nat
}.

Lemma framed_total m h :
  framed m -> find_header_end m = Some h -> wrap 64 (Z.of_nat h + parse_content_length (take h m)) = Z.of_nat (length m).
Proof.
  intros [(h' & Eh & El) _ Hs] E. assert (h' = h) as -> by congruence. rewrite El.
  replace (Z.of_nat h + (Z.of_nat (length m) - Z.of_nat h)) with (Z.of_nat (length m)) by lia. apply wrap_small. unfold in_width. lia.
Qed.

Lemma try_parse_whole m x : framed m -> try_parse_message_from_buf (m ++ x) = Some (m, x).
Proof.
  intros Hm. destruct (fr_length m Hm) as (h & Eh & _). unfold try_parse_message_from_buf. rewrite (find_header_end_app m x h Eh).
  cbn [mbind option_bind]. apply header_end_bounds in Eh as Hb. rewrite take_app_le by lia. rewrite (framed_total m h Hm Eh).
  rewrite (proj2 (Z.ltb_ge _ _)) by (rewrite length_app; lia). by rewrite Nat2Z.id, take_app_length, drop_app_length.
Qed.

Lemma try_parse_part m b x : framed m -> m = b ++ x -> x <> [] -> try_parse_message_from_buf b = None.
Proof.
  intros Hm E Hx. unfold try_parse_message_from_buf. destruct (find_header_end b) as [h|] eqn:Eh; [|done]. cbn [mbind option_bind].
  apply header_end_bounds in Eh as Hb. assert (find_header_end m = Some h) as Em by (rewrite E; by apply find_header_end_app).
  assert (take h b = take h m) as -> by (rewrite E, take_app_le; [done|lia]). rewrite (framed_total m h Hm Em).
  assert (length b < length m)%nat by (rewrite E, length_app; destruct x; [done|cbn; lia]).
  by rewrite (proj2 (Z.ltb_lt _ _)) by lia.
Qed.

Lemma try_parse_short b : (length b < 4)%nat -> try_parse_message_from_buf b = None.
Proof.
  intros Hb. unfold try_parse_message_from_buf. destruct (find_header_end b) as [h|] eqn:E; [|done].
  apply header_end_bounds in E. lia.
Qed.

(** ** Streams *)

(** [k] CRLFs. *)
Definition crlfs (k : nat) : str := concat (replicate k CRLF).

(** Messages, each after some CRLFs, and CRLFs at the end. *)
Fixpoint stream (items : list (nat * str)) (last : nat) : str :=
  match items with
  | [] => crlfs last
  | (k, m) :: items => crlfs k ++ m ++ stream items last
  end.

(** Stripping takes leading CRLFs of the stream out of the buffer, and leaves at most a carriage
    return when more are to come. *)
Lemma strip_crlfs_spec k body buf rest :
  head body <> Some CR -> buf ++ rest = crlfs k ++ body ->
  exists n k' buf', strip_crlfs buf = (n, buf') /\ buf' ++ rest = crlfs k' ++ body /\ (k' = 0%nat \/ (length buf' <= 1)%nat).
Proof.
  intros Hb. revert buf. induction k as [|k IH]; intros buf E.
  - exists 0%nat, 0%nat, buf. split; [|auto]. cbn in E. destruct buf as [|a [|b r]]; try done. cbn [strip_crlfs].
    rewrite (bool_decide_false (a = CR)); [done|]. intros ->. apply Hb. by rewrite <- E.
  - destruct buf as [|a [|b r]].
    + exists 0%nat, (S k), []. cbn. auto.
    + exists 0%nat, (S k), [a]. cbn. auto.
    + cbn in E. injection E as -> -> E. destruct (IH r E) as (n & k' & buf' & En & Eb & Hk).
      exists (S n), k', buf'. cbn [strip_crlfs]. rewrite !bool_decide_true by done. cbn [andb]. by rewrite En.
Qed.

(** The reads of a well-behaved socket: chunks of at most the read buffer, and ping deadlines. *)
Definition event_ok (e : ReadEvent) : Prop :=
  match e with Arrived bytes => (length bytes <= Z.to_nat 4096)%nat | PingDue => True | _ => False end.

Definition arrived (events : list ReadEvent) : str :=
  concat (map (fun e => match e with Arrived bytes => bytes | _ => [] end) events).

Lemma read_message_parsed cfg events buf n b m r :
  strip_crlfs buf = (n, b) -> try_parse_message_from_buf b = Some (m, r) ->
  exists sent, read_message cfg true events buf = (Message m, r, sent, events).
Proof.
  intros E1 E2. exists (replicate (n / 2) KEEPALIVE_PONG).
  destruct events; cbn [read_message]; unfold strip_leading_keepalives; rewrite E1, andb_false_r, E2; done.
Qed.

Lemma read_message_waits cfg e events buf n b :
  strip_crlfs buf = (n, b) -> try_parse_message_from_buf b = None ->
  match e with
  | Arrived bytes =>
      (length (b ++ bytes) <= MAX_TCP_SIZE)%nat -> forall o b' s ev,
      read_message cfg true events (b ++ bytes) = (o, b', s, ev) -> exists s', read_message cfg true (e :: events) buf = (o, b', s', ev)
  | PingDue =>
      forall o b' s ev, read_message cfg true events b = (o, b', s, ev) -> exists s', read_message cfg true (e :: events) buf = (o, b', s', ev)
  | PeerClosed => exists s', read_message cfg true (e :: events) buf = (EndOfStream, b, s', events)
  | ReadFailed => exists s', read_message cfg true (e :: events) buf = (ReadError, b, s', events)
  end.
Proof.
  intros E1 E2. destruct e as [bytes| | |]; cbn [read_message]; unfold strip_leading_keepalives; rewrite E1, andb_false_r, E2.
  - intros Hl o b' s ev E. rewrite (proj2 (Nat.ltb_ge _ _)) by done. rewrite E. by eexists.
  - by eexists.
  - by eexists.
  - intros o b' s ev E. rewrite E. destruct (negb (send_pings cfg)); cbn [negb]; by eexists.
Qed.

(** The next message of the stream is the next message read. *)
Lemma read_next cfg evs buf k m tail :
  framed m -> Forall event_ok evs -> buf ++ arrived evs = crlfs k ++ m ++ tail ->
  exists buf' evs' sent,
    read_message cfg true (evs ++ [PeerClosed]) buf = (Message m, buf', sent, evs' ++ [PeerClosed]) /\
    buf' ++ arrived evs' = tail /\ Forall event_ok evs'.
Proof.
  intros Hm He. destruct (fr_length m Hm) as (h & Eh & _). apply header_end_bounds in Eh as Hh.
  assert (head (m ++ tail) <> Some CR) as Hhead by (pose proof (fr_start m Hm); destruct m; [cbn in Hh; lia|done]).
  revert buf k. induction He as [|e evs He Hevs IH]; intros buf k E.
  - destruct (strip_crlfs_spec k (m ++ tail) buf _ Hhead E) as (n & k' & b & E1 & E2 & Hk). unfold arrived in E2. cbn in E2. rewrite app_nil_r in E2.
    assert (k' = 0%nat) as ->.
    { destruct Hk as [Hk|Hk]; [done|]. apply (f_equal length) in E2. rewrite !length_app in E2. lia. }
    cbn [crlfs replicate concat app] in E2. subst b.
    destruct (read_message_parsed cfg [PeerClosed] buf n _ m tail E1 (try_parse_whole m tail Hm)) as [sent Es].
    exists tail, [], sent. split; [exact Es|]. split; [apply app_nil_r|constructor].
  - destruct (strip_crlfs_spec k (m ++ tail) buf _ Hhead E) as (n & k' & b & E1 & E2 & Hk).
    assert ((exists x, b = m ++ x) \/ (try_parse_message_from_buf b = None /\ (length b <= Z.to_nat 61440)%nat)) as [[x ->]|[Hn Hl]].
    { destruct Hk as [->|Hk]; [|right; split; [apply try_parse_short; lia|lia]]. cbn [crlfs replicate concat app] in E2.
      apply app_eq_inv in E2 as [(x & -> & _)|(x & Ex & _)].
      - left. by exists x.
      - destruct x as [|c x]; [left; exists []; rewrite app_nil_r in Ex; by rewrite app_nil_r|]. right. split; [by eapply try_parse_part|].
        pose proof (fr_size m Hm). apply (f_equal length) in Ex. rewrite length_app in Ex. cbn [length] in Ex. lia. }
    + destruct (read_message_parsed cfg ((e :: evs) ++ [PeerClosed]) buf n _ m x E1 (try_parse_whole m x Hm)) as [sent Es].
      exists x, (e :: evs), sent. split; [exact Es|]. split; [|by constructor].
      assert (k' = 0%nat) as -> by (destruct Hk as [Hk|Hk]; [done|rewrite length_app in Hk; lia]). cbn [crlfs replicate concat app] in E2.
      rewrite <- app_assoc in E2. by apply app_inv_head in E2.
    + pose proof (read_message_waits cfg e (evs ++ [PeerClosed]) buf n b E1 Hn) as Hw. destruct e as [bytes| | |]; try done.
      * destruct (IH (b ++ bytes) k') as (buf' & evs' & sent & Er & Et & Ho); [rewrite <- app_assoc; exact E2|].
        cbn in He. destruct (Hw ltac:(unfold MAX_TCP_SIZE; rewrite length_app; lia) _ _ _ _ Er) as [s' Es]. exists buf', evs', s'. auto.
      * destruct (IH b k') as (buf' & evs' & sent & Er & Et & Ho); [exact E2|]. destruct (Hw _ _ _ _ Er) as [s' Es]. exists buf', evs', s'. auto.
Qed.

(** After the last message the loop ends with the stream. *)
Lemma read_end cfg evs buf k :
  Forall event_ok evs -> buf ++ arrived evs = crlfs k ->
  exists buf' sent, read_message cfg true (evs ++ [PeerClosed]) buf = (EndOfStream, buf', sent, []).
Proof.
  intros He. revert buf k. induction He as [|e evs He Hevs IH]; intros buf k E; rewrite <- (app_nil_r (crlfs k)) in E;
    destruct (strip_crlfs_spec k [] buf _ ltac:(done) E) as (n & k' & b & E1 & E2 & Hk);
    (assert (length b <= 1)%nat as Hb by (destruct Hk as [->|Hk]; [apply (f_equal length) in E2; rewrite length_app in E2; cbn in E2; lia|done]));
    assert (try_parse_message_from_buf b = None) as Hn by (apply try_parse_short; lia).
  - destruct (read_message_waits cfg PeerClosed [] buf n b E1 Hn) as [s' Es]. by exists b, s'.
  - pose proof (read_message_waits cfg e (evs ++ [PeerClosed]) buf n b E1 Hn) as Hw. rewrite app_nil_r in E2. destruct e as [bytes| | |]; try done.
    + destruct (IH (b ++ bytes) k') as (buf' & sent & Er); [rewrite <- app_assoc; exact E2|].
      cbn in He. destruct (Hw ltac:(unfold MAX_TCP_SIZE; rewrite length_app; lia) _ _ _ _ Er) as [s' Es]. by exists buf', s'.
    + destruct (IH b k') as (buf' & sent & Er); [exact E2|]. destruct (Hw _ _ _ _ Er) as [s' Es]. by exists buf', s'.
Qed.

(** The loop over what is left of the stream. *)
Lemma read_items cfg items last evs room buf :
  Forall (fun item => framed item.2) items -> Forall event_ok evs -> buf ++ arrived evs = stream items last ->
  exists sent,
    read_loop cfg true room (evs ++ [PeerClosed]) buf =
    (take room (map snd items), match items !! room with Some (_, m) => Message m | None => EndOfStream end, sent).
Proof.
  intros Hi He Eb. revert room evs buf Eb He. induction Hi as [|[k m] items Hm _ IH]; intros room evs buf Eb He.
  - destruct (read_end cfg evs buf last He Eb) as (buf' & sent & Er). exists sent. destruct room; cbn [read_loop]; by rewrite Er.
  - cbn [stream] in Eb. destruct (read_next cfg evs buf k m _ Hm He Eb) as (buf' & evs' & sent & Er & Et & He').
    destruct room as [|room]; cbn [read_loop]; rewrite Er; [by exists sent|].
    destruct (IH room evs' buf' Et He') as [sent' Es]. rewrite Es. exists (sent ++ sent'). done.
Qed.

(** The framing of a stream.  Messages that end where their headers and their Content-Length
    say, with any number of CRLFs before, between and after them, are delivered one by one, each
    as it was sent and in order, however the stream is cut into reads and whatever ping deadlines
    pass in between; the loop then ends with the stream, or sooner when the receiver is gone. *)
Theorem stream_framing cfg items last evs room :
  Forall (fun item => framed item.2) items -> Forall event_ok evs -> arrived evs = stream items last ->
  exists sent,
    read_loop cfg true room (evs ++ [PeerClosed]) [] =
    (take room (map snd items), match items !! room with Some (_, m) => Message m | None => EndOfStream end, sent).
Proof. intros Hi He E. exact (read_items cfg items last evs room [] Hi He E). Qed.

(** ** Samples *)

Definition sample_message (body : str) : str :=
  #"OPTIONS sip:b SIP/2.0" ++ CRLF ++ #"Content-Length: " ++ dec (Z.of_nat (length body)) ++ CRLF ++ CRLF ++ body.

(** [framed] for a concrete message. *)
Lemma framed_dec m h :
  find_header_end m = Some h -> (parse_content_length (take h m) =? Z.of_nat (length m) - Z.of_nat h) = true ->
  match m with c :: _ => negb (bool_decide (c = CR)) | [] => true end = true -> (Z.of_nat (length m) <=? 61441) = true -> framed m.
Proof.
  intros H1 H2 H3 H4. constructor; [exists h; split; [done|lia]| |lia]. destruct m as [|c m]; [done|]. intros [= ->].
  by rewrite bool_decide_true in H3.
Qed.

Lemma sample_framed : framed (sample_message #"hello") /\ framed (sample_message []).
Proof. split; (apply (framed_dec _ 44); vm_compute; reflexivity). Qed.

Definition sample_stream : str := stream [(2%nat, sample_message #"hello"); (1%nat, sample_message [])] 1.

(** The stream in three reads with a ping deadline. *)
Definition sample_reads : list ReadEvent :=
  [Arrived (take 3 sample_stream); PingDue; Arrived (take 30 (drop 3 sample_stream)); Arrived (drop 33 sample_stream)].

Lemma stream_framing_witness :
  exists sent,
    read_loop keepalive_enabled true 9 (sample_reads ++ [PeerClosed]) [] =
    ([sample_message #"hello"; sample_message []], EndOfStream, sent).
Proof.
  refine (stream_framing keepalive_enabled [(2%nat, sample_message #"hello"); (1%nat, sample_message [])] 1 sample_reads 9 _ _ _).
  - constructor; [apply sample_framed|constructor; [apply sample_framed|constructor]].
  - assert (forall bytes, (Z.of_nat (length bytes) <=? 4096) = true -> event_ok (Arrived bytes)) as H by (intros; cbn; lia).
    constructor; [apply H; vm_compute; reflexivity|]. constructor; [exact I|].
    constructor; [apply H; vm_compute; reflexivity|]. constructor; [apply H; vm_compute; reflexivity|constructor].
  - vm_compute. reflexivity.
Defined.

(** A Content-Length that wraps the total to nothing: an empty message is delivered and the buffer
    stays, so the loop delivers empty messages for ever. *)
Example content_length_wraps :
  let m := #"A" ++ CRLF ++ #"l:18446744073709551587" ++ CRLF ++ CRLF in
  try_parse_message_from_buf (m ++ #"x") = Some ([], m ++ #"x") /\
  (read_loop keepalive_default true 3 [Arrived (m ++ #"x")] []).1.1 = [[]; []; []].
Proof. vm_compute. auto. Qed.

(** A space before the colon hides the length, and the body is read as the next message. *)
Example spaced_length_ignored :
  try_parse_message_from_buf (#"A" ++ CRLF ++ #"Content-Length : 2" ++ CRLF ++ CRLF ++ #"xy") =
  Some (#"A" ++ CRLF ++ #"Content-Length : 2" ++ CRLF ++ CRLF, #"xy").
Proof. vm_compute. reflexivity. Qed.

(** A ping that comes in two reads is not answered. *)
Example split_ping_unanswered :
  (read_loop keepalive_default true 1 [Arrived CRLF; Arrived CRLF; PeerClosed] []).2 = [] /\
  (read_loop keepalive_default true 1 [Arrived KEEPALIVE_PING; PeerClosed] []).2 = [KEEPALIVE_PONG].
Proof. vm_compute. auto. Qed.

(** Over TLS a ping is delivered as a message of four bytes. *)
Example tls_ping_is_a_message : tls_read_message [Arrived KEEPALIVE_PING] [] = (Message KEEPALIVE_PING, [], []).
Proof. vm_compute. reflexivity. Qed.
