(* ===== verification/Resolver.v ===== *)
(** * Locating SIP servers ([transport/resolver.rs], [transport/traits.rs])

    The procedure of RFC 3263 over NAPTR, SRV and address records.  The DNS and the parser of
    IP addresses belong to external code and are parameters: each lookup is a function that may
    fail. *)

From Stdlib Require Import Sorted.
From S2P Require Import Prelude RStr.

Local Open Scope Z_scope.

(** ** Transports *)

Inductive TransportProtocol : Type := Udp | Tcp | Tls.

#[export] Instance transport_protocol_eq_dec : EqDecision TransportProtocol.
Proof. solve_decision. Defined.

Definition is_reliable (t : TransportProtocol) : bool := match t with Udp => false | _ => true end.
Definition is_secure (t : TransportProtocol) : bool := match t with Tls => true | _ => false end.
Definition default_port (t : TransportProtocol) : Z := match t with Tls => 5061 | _ => 5060 end.

(** ** Records and targets *)

Section Resolver.
Context {ip : Type}.

Record ResolvedTarget : Type := mkTarget {
  host : str;
  port : Z;
  transport : TransportProtocol;
  priority : Z;
  weight : Z;
  addresses : list ip
}.

Inductive ResolverError : Type :=
| LookupFailed
| NoRecords.

Definition socket_addrs (t : ResolvedTarget) : list (ip * Z) := map (fun i => (i, port t)) (addresses t).

Definition parse_naptr_transport (service : str) : option TransportProtocol :=
  if eqb service #"SIP+D2U" || eqb service #"sip+d2u" then Some Udp
  else if eqb service #"SIP+D2T" || eqb service #"sip+d2t" then Some Tcp
  else if eqb service #"SIPS+D2T" || eqb service #"sips+d2t" then Some Tls
  else None.

(** A stable sort. *)
Fixpoint insert_by {A : Type} (le : A -> A -> bool) (x : A) (l : list A) : list A :=
  match l with
  | [] => [x]
  | y :: r => if le x y then x :: l else y :: insert_by le x r
  end.

Definition sort_by {A : Type} (le : A -> A -> bool) (l : list A) : list A := foldr (insert_by le) [] l.

Record NaptrEntry : Type := mkNaptr { n_order : Z; n_preference : Z; n_replacement : str; n_service : str }.

Definition naptr_le (a b : Z * Z * str * TransportProtocol) : bool :=
  let '(o, p, _, _) := a in
  let '(o', p', _, _) := b in
  (o <? o') || ((o =? o') && (p <=? p')).

Definition collect_naptr_services (entries : list NaptrEntry) : list (str * TransportProtocol) :=
  let services := omap (fun e =>
    let* t := parse_naptr_transport (n_service e) in Some (n_order e, n_preference e, n_replacement e, t)) entries in
  map (fun s => let '(_, _, r, t) := s in (r, t)) (sort_by naptr_le services).

Record SrvRecord : Type := mkSrv { s_target : str; s_port : Z; s_priority : Z; s_weight : Z }.

(** [trim_end_matches('.')]. *)
Fixpoint drop_dots (s : str) : str :=
  match s with
  | c :: r => if bool_decide (c = "."%char) then drop_dots r else s
  | [] => []
  end.

Definition trim_dots (s : str) : str := reverse (drop_dots (reverse s)).

(** Lower priority first, then higher weight. *)
Definition target_le (a b : ResolvedTarget) : bool :=
  (priority a <? priority b) || ((priority a =? priority b) && (weight b <=? weight a)).

(** The DNS and [IpAddr]'s parser. *)
Variable ip_parse : str -> option ip.
Variable dns_naptr : str -> option (list NaptrEntry).
Variable dns_srv : str -> option (list SrvRecord).
Variable dns_ip : str -> option (list ip).

Definition resolve_addresses (h : str) : option (list ip) :=
  match ip_parse h with Some i => Some [i] | None => dns_ip h end.

Definition lookup_srv (srv_name : str) (t : TransportProtocol) : option (list ResolvedTarget) :=
  let* records := dns_srv srv_name in
  Some (sort_by target_le (map (fun r =>
    let h := trim_dots (s_target r) in
    mkTarget h (s_port r) t (s_priority r) (s_weight r) (default [] (resolve_addresses h))) records)).

Definition build_address_targets (domain : str) (t : TransportProtocol) (addresses : list ip)
  : result (list ResolvedTarget) ResolverError :=
  match addresses with
  | [] => Err NoRecords
  | _ => Ok [mkTarget domain (default_port t) t 0 0 addresses]
  end.

Definition lookup_address (domain : str) (t : TransportProtocol) : result (list ResolvedTarget) ResolverError :=
  match resolve_addresses domain with
  | None => Err LookupFailed
  | Some addresses => build_address_targets domain t addresses
  end.

Definition matches_preferred (preferred : option TransportProtocol) (t : TransportProtocol) : bool :=
  match preferred with Some p => bool_decide (t = p) | None => true end.

Definition resolve_from_naptr_inner (services : list (str * TransportProtocol)) (preferred : option TransportProtocol)
  : result (list ResolvedTarget) ResolverError :=
  match concat (map (fun s => if matches_preferred preferred s.2 then default [] (lookup_srv s.1 s.2) else []) services) with
  | [] => Err NoRecords
  | targets => Ok targets
  end.

Definition srv_name (t : TransportProtocol) (domain : str) : str :=
  match t with Udp => #"_sip._udp." | Tcp => #"_sip._tcp." | Tls => #"_sips._tcp." end ++ domain.

(** The first transport with SRV records. *)
Fixpoint first_srv (transports : list TransportProtocol) (domain : str) : option (list ResolvedTarget) :=
  match transports with
  | [] => None
  | t :: ts =>
      match lookup_srv (srv_name t domain) t with
      | Some ((_ :: _) as targets) => Some targets
      | _ => first_srv ts domain
      end
  end.

Definition resolve (domain : str) (preferred : option TransportProtocol) : result (list ResolvedTarget) ResolverError :=
  match collect_naptr_services <$> dns_naptr domain with
  | Some ((_ :: _) as services) => resolve_from_naptr_inner services preferred
  | _ =>
      match first_srv (match preferred with Some t => [t] | None => [Tls; Tcp; Udp] end) domain with
      | Some targets => Ok targets
      | None => lookup_address domain (default Udp preferred)
      end
  end.

(** ** URIs *)

(** [trim_start_matches]: every copy of [p] at the start; [fuel] bounds their number. *)
Fixpoint trim_matches (fuel : nat) (p s : str) : str :=
  match fuel with
  | O => s
  | S fuel => match strip_prefix p s with Some r => trim_matches fuel p r | None => s end
  end.

Definition trim_start_matches (p s : str) : str := trim_matches (length s) p s.

Definition parse_transport (v : str) : option TransportProtocol :=
  let v := to_ascii_lowercase v in
  if eqb v #"udp" then Some Udp else if eqb v #"tcp" then Some Tcp else if eqb v #"tls" then Some Tls else None.

(** The first parameter that gives a transport; one without a value is passed over. *)
Fixpoint transport_param (params : list str) : option TransportProtocol :=
  match params with
  | [] => None
  | param :: params =>
      match (let* (k, v) := split_once "="%char param in
             if eq_ignore_ascii_case k #"transport" then parse_transport v else None) with
      | Some t => Some t
      | None => transport_param params
      end
  end.

(** [split_once(']')] keeps the bracket with the host. *)
Definition split_host_port (host_port : str) : str * option Z :=
  match host_port with
  | "["%char :: _ =>
      match split_once "]"%char host_port with
      | Some (h, ":"%char :: p) => (h ++ [ "]"%char ], parse_uint u16_max p)
      | _ => (host_port, None)
      end
  | _ =>
      match split_once ":"%char host_port with
      | Some (h, p) => (h, parse_uint u16_max p)
      | None => (host_port, None)
      end
  end.

Definition parse_sip_uri_internal (uri : str) : str * option Z * option TransportProtocol :=
  let uri := trim_start_matches #"SIPS:" (trim_start_matches #"SIP:" (trim_start_matches #"sips:" (trim_start_matches #"sip:" uri))) in
  let domain_part := List.last (split "@"%char uri) uri in
  let '(host_port, params) :=
    match split_once ";"%char domain_part with Some (h, p) => (h, Some p) | None => (domain_part, None) end in
  let '(h, explicit_port) := split_host_port host_port in
  (h, explicit_port, let* p := params in transport_param (split ";"%char p)).

(** The brackets of an IPv6 address. *)
Definition strip_brackets (h : str) : str :=
  match h with
  | "["%char :: r =>
      match reverse r with
      | "]"%char :: q => reverse q
      | _ => h
      end
  | _ => h
  end.

Definition resolve_uri (uri : str) : result (list ResolvedTarget) ResolverError :=
  let '(h, p, t) := parse_sip_uri_internal uri in
  match p with
  | Some p => Ok [mkTarget h p (default Udp t) 0 0 (default [] (resolve_addresses (strip_brackets h)))]
  | None => resolve h t
  end.

(** ** What the resolver promises *)

Lemma insert_by_perm {A} (le : A -> A -> bool) x l : insert_by le x l ≡ₚ x :: l.
Proof. induction l as [|y l IH]; [done|]. cbn [insert_by]. destruct (le x y); [done|]. rewrite IH. apply perm_swap. Qed.

Lemma sort_by_perm {A} (le : A -> A -> bool) l : sort_by le l ≡ₚ l.
Proof. induction l as [|x l IH]; [done|]. cbn [sort_by foldr]. fold (sort_by le l). by rewrite insert_by_perm, IH. Qed.

Lemma sort_by_sorted {A} (le : A -> A -> bool) l :
  (forall x y, le x y = true \/ le y x = true) -> (forall x y z, le x y = true -> le y z = true -> le x z = true) ->
  StronglySorted (fun x y => le x y = true) (sort_by le l).
Proof.
  intros Ht Htr. induction l as [|x l IH]; [constructor|]. cbn [sort_by foldr]. fold (sort_by le l). revert IH. generalize (sort_by le l).
  clear l. intros l. induction 1 as [|y l Hl IH Hy]; cbn [insert_by]; [by repeat constructor|]. destruct (le x y) eqn:E.
  - constructor; [by constructor|]. constructor; [done|]. eapply List.Forall_impl; [|exact Hy]. intros z Hz. by eapply Htr.
  - constructor; [done|]. apply List.Forall_forall. intros z Hz. apply list_elem_of_In in Hz. rewrite insert_by_perm in Hz.
    apply elem_of_cons in Hz as [->|Hz]; [by destruct (Ht x y); [congruence|]|]. rewrite List.Forall_forall in Hy. apply Hy. by apply list_elem_of_In.
Qed.

Lemma target_le_total x y : target_le x y = true \/ target_le y x = true.
Proof. unfold target_le. lia. Qed.

Lemma target_le_trans x y z : target_le x y = true -> target_le y z = true -> target_le x z = true.
Proof. unfold target_le. lia. Qed.

Lemma lookup_srv_spec name t targets :
  lookup_srv name t = Some targets ->
  StronglySorted (fun x y => target_le x y = true) targets /\ Forall (fun x => transport x = t) targets /\
  exists records, dns_srv name = Some records /\
    map (fun x => (host x, port x, priority x, weight x)) targets ≡ₚ
    map (fun r => (trim_dots (s_target r), s_port r, s_priority r, s_weight r)) records.
Proof.
  unfold lookup_srv. destruct (dns_srv name) as [records|]; [|done]. cbn [mbind option_bind]. intros [= <-]. split_and!.
  - apply sort_by_sorted; [apply target_le_total|apply target_le_trans].
  - rewrite sort_by_perm. apply Forall_map, Forall_forall. by intros r _.
  - exists records. split; [done|]. rewrite sort_by_perm, map_map. done.
Qed.

Lemma first_srv_spec ts domain targets :
  first_srv ts domain = Some targets -> exists t, t ∈ ts /\ targets <> [] /\ lookup_srv (srv_name t domain) t = Some targets.
Proof.
  induction ts as [|t ts IH]; [done|]. cbn [first_srv]. destruct (lookup_srv (srv_name t domain) t) as [[|x l]|] eqn:E; intros H.
  - destruct (IH H) as (t' & H1 & H2). exists t'. split; [by right|done].
  - injection H as <-. exists t. split; [by left|done].
  - destruct (IH H) as (t' & H1 & H2). exists t'. split; [by right|done].
Qed.

(** Whatever the DNS says, a result has targets, and all of them use the transport that was asked for. *)
Lemma resolved_transports domain preferred targets :
  resolve domain preferred = Ok targets ->
  targets <> [] /\ Forall (fun x => matches_preferred preferred (transport x) = true) targets.
Proof.
  assert (forall t, matches_preferred preferred t = true -> forall l : list ResolvedTarget, Forall (fun x => transport x = t) l ->
    Forall (fun x => matches_preferred preferred (transport x) = true) l) as Hp.
  { intros t Ht l Hl. eapply Forall_impl; [exact Hl|]. by intros x ->. }
  unfold resolve. assert (forall r, (match first_srv (match preferred with Some t => [t] | None => [Tls; Tcp; Udp] end) domain with
      | Some targets => Ok targets | None => lookup_address domain (default Udp preferred) end) = Ok r ->
      r <> [] /\ Forall (fun x => matches_preferred preferred (transport x) = true) r) as Hf.
  { intros r. destruct (first_srv _ _) as [l|] eqn:E.
    - intros [= <-]. apply first_srv_spec in E as (t & Ht & Hn & El). split; [done|]. apply lookup_srv_spec in El as (_ & El & _).
      apply (Hp t); [|done]. destruct preferred as [p|]; [|done]. apply list_elem_of_singleton in Ht as ->. cbn. by rewrite bool_decide_true.
    - unfold lookup_address. destruct (resolve_addresses domain) as [[|i l]|]; try done. intros [= <-]. split; [done|].
      constructor; [|constructor]. destruct preferred; cbn; [by rewrite bool_decide_true|done]. }
  destruct (collect_naptr_services <$> dns_naptr domain) as [[|s services]|]; [apply Hf| |apply Hf].
  unfold resolve_from_naptr_inner. destruct (concat _) as [|x l] eqn:E; [done|]. intros [= <-]. split; [done|]. rewrite <- E. clear E.
  apply Forall_concat, Forall_map, Forall_forall. intros [n t] _. cbn [fst snd]. destruct (matches_preferred preferred t) eqn:Et; [|constructor].
  destruct (lookup_srv n t) as [l'|] eqn:El; [|constructor]. apply lookup_srv_spec in El as (_ & El & _). by apply (Hp t).
Qed.

End Resolver.

(** A URI with everything in it. *)
Example parsed_uri :
  parse_sip_uri_internal #"sip:bob@example.com:5070;user=phone;Transport=TCP" = (#"example.com", Some 5070, Some Tcp) /\
  parse_sip_uri_internal #"sips:[2001:db8::1]:5061" = (#"[2001:db8::1]", Some 5061, None).
Proof. vm_compute. auto. Qed.

(** The scheme is dropped, so a [sips] URI with a port is sent over UDP. *)
Example sips_over_udp :
  resolve_uri (fun _ => Some tt) (fun _ => None) (fun _ => None) (fun _ => None) #"sips:example.com:5061" =
  Ok [mkTarget #"example.com" 5061 Udp 0 0 [tt]].
Proof. vm_compute. reflexivity. Qed.

(** NAPTR records without the transport asked for end the resolution, though SRV records are there. *)
Example naptr_without_preferred :
  resolve (ip := unit) (fun _ => Some tt) (fun _ => Some [mkNaptr 1 1 #"_sip._udp.a" #"SIP+D2U"])
    (fun _ => Some [mkSrv #"h." 5060 1 1]) (fun _ => None) #"a" (Some Tcp) = Err NoRecords.
Proof. vm_compute. reflexivity. Qed.
