(* ===== verification/TcpConnections.v ===== *)
(** * The connections of the TCP transport ([transport/tcp.rs])

    The transport with its connection table, its listener, the read loops and the senders, all
    as tasks over one shared state.  A task stops where the code awaits: the state of a task is
    what it is about to await, and a move lets one task go on to its next await.  Which task
    moves, what a connect or an accept returns, what a read brings and how much a write takes
    are chosen by the run; a section of the code without an await inside is one move.  The read
    loop uses the framing of [StreamFraming]. *)

From S2P Require Import Prelude RStr StreamFraming.

Section Tcp.
Context {Addr : Type} `{Countable Addr}.

(** [SocketAddr::port] *)
Variable port : Addr -> Z.

(** ** Data *)

(** A connected socket of the operating system: its two ends, what was written to it so far,
    whether the [Mutex] around its write half is held, whether a write failed. *)
Record Socket : Type := mkSocket {
  peer : Addr;
  local : Addr;
  wire : str;
  write_locked : bool;
  broken : bool
}.

(** The halves of a socket name it by its index. *)
Record ConnectionHandle : Type := mkHandle { write_half : nat; local_addr : Addr }.

(** The deadline of the next ping is an event of the run. *)
Record ReadHalfState : Type := mkRead { read_half : nat; remote_addr : Addr; read_buf : str }.

(** Its transport is TCP. *)
Record IncomingMessage : Type := mkIncoming { data : str; source : Addr }.

Inductive TransportError : Type := ConnectionClosed | Io | MessageTooLarge.

(** What a task writes and goes on with: a message of [TcpSender::send] or of
    [TcpTransport::send], an answer to a ping with more to come, a ping. *)
Inductive Purpose : Type :=
| ForSend (sender : bool) (dest : Addr) (msg : str)
| ForPong (more : nat) (r : ReadHalfState)
| ForPing (r : ReadHalfState).

Inductive Task : Type :=
| Connecting (addr : Addr) (after : option str)
| Inserting (addr : Addr) (sock : nat) (after : option str)
| Stashing (addr : Addr) (sock : nat) (after : option str)
| LookingUp (dest : Addr) (msg : str)
| Locking (h : ConnectionHandle) (p : Purpose)
| Writing (h : ConnectionHandle) (p : Purpose) (rest : str)
| Awaiting (h : ConnectionHandle) (r : ReadHalfState)
| Delivering (h : ConnectionHandle) (r : ReadHalfState) (msg : str)
| Removing (addr : Addr)
| ListingPending
| Claiming (todo : gset Addr)
| Resolving (todo : gset Addr) (addr : Addr) (sock : nat)
| Accepting
| Storing (remote : Addr) (sock : nat)
| Sent (sender : bool) (dest : Addr) (msg : str) (sock : nat)
| Finished (r : result unit TransportError).

(** The part of [TcpTransport] that the tasks share, and the channel of incoming messages. *)
Record Tcp : Type := mkTcp {
  keepalive : KeepAliveConfig;
  explicit_connect_bind : option Addr;
  listener : bool;
  started : bool;
  connections : gmap Addr ConnectionHandle;
  pending_reads : gmap Addr nat;
  sockets : list Socket;
  tasks : list Task;
  incoming : list IncomingMessage;
  receiver : bool
}.

#[local] Instance socket_eta : Settable Socket := fun x =>
  mkSocket (peer x) (local x) (wire x) (write_locked x) (broken x).

#[local] Instance tcp_eta : Settable Tcp := fun x =>
  mkTcp (keepalive x) (explicit_connect_bind x) (listener x) (started x) (connections x) (pending_reads x) (sockets x)
    (tasks x) (incoming x) (receiver x).

Definition bind : Tcp := mkTcp keepalive_default None true false ∅ ∅ [] [] [] true.

Definition new_client (local_addr : Addr) : Tcp :=
  mkTcp keepalive_default (if bool_decide (port local_addr <> 0%Z) then Some local_addr else None) false false ∅ ∅ [] [] [] true.

Definition with_keepalive (k : KeepAliveConfig) (st : Tcp) : Tcp := st <| keepalive := k |>.

Definition connection_local_addr (remote : Addr) (st : Tcp) : option Addr := local_addr <$> connections st !! remote.

(** ** Operations, up to their first await *)

Definition connect (addr : Addr) (st : Tcp) : Task :=
  if decide (is_Some (connections st !! addr)) then Finished (Ok tt) else Connecting addr None.

Definition transport_send (dest : Addr) (msg : str) (st : Tcp) : Task :=
  if decide (is_Some (connections st !! dest)) then LookingUp dest msg else Connecting dest (Some msg).

(** The lookup both senders share. *)
Definition look_up (sender : bool) (dest : Addr) (msg : str) (st : Tcp) : Task :=
  match connections st !! dest with
  | Some conn => Locking conn (ForSend sender dest msg)
  | None => Finished (Err ConnectionClosed)
  end.

Definition sender_send (dest : Addr) (msg : str) (st : Tcp) : Task := look_up true dest msg st.

(** [connect] returns to its caller, or to the send that called it. *)
Definition connected (addr : Addr) (after : option str) : Task :=
  match after with Some msg => LookingUp addr msg | None => Finished (Ok tt) end.

(** A task of a method on [&self]: [start], which takes [self], cannot be called while one runs. *)
Definition borrows (t : Task) : bool :=
  match t with
  | Connecting _ _ | Inserting _ _ _ | Stashing _ _ _ | LookingUp _ _ => true
  | Locking _ (ForSend sender _ _) | Writing _ (ForSend sender _ _) _ => negb sender
  | _ => false
  end.

Definition start (st : Tcp) : option Tcp :=
  if started st || existsb borrows (tasks st) then None else
  Some (st <| started := true |> <| listener := false |>
           <| tasks := tasks st ++ (if listener st then [Accepting] else []) ++ [ListingPending] |>).

(** ** The read loop between two awaits *)

(** After the answers: a message, or more data. *)
Definition parsing (h : ConnectionHandle) (r : ReadHalfState) : Task :=
  match try_parse_message_from_buf (read_buf r) with
  | Some (msg, buf) => Delivering h (mkRead (read_half r) (remote_addr r) buf) msg
  | None => Awaiting h r
  end.

(** The top of the loop of [ReadHalfState::read_message]. *)
Definition reading (h : ConnectionHandle) (r : ReadHalfState) : Task :=
  let '(pings, buf) := strip_leading_keepalives (read_buf r) in
  let r := mkRead (read_half r) (remote_addr r) buf in
  match pings with
  | O => parsing h r
  | S more => Locking h (ForPong more r)
  end.

(** [ReadHalfState::new] *)
Definition read_state_new (sock : nat) (remote : Addr) : ReadHalfState := mkRead sock remote [].

(** The branches after a read, [None] when the event cannot happen. *)
Definition after_read (k : KeepAliveConfig) (h : ConnectionHandle) (r : ReadHalfState) (e : ReadEvent) : option Task :=
  match e with
  | Arrived bytes =>
      if (0 <? length bytes)%nat && (length bytes <=? Z.to_nat 4096)%nat then
        let buf := read_buf r ++ bytes in
        Some (if (MAX_TCP_SIZE <? length buf)%nat then Removing (remote_addr r)
              else reading h (mkRead (read_half r) (remote_addr r) buf))
      else None
  | PeerClosed | ReadFailed => Some (Removing (remote_addr r))
  | PingDue => if send_pings k then Some (Locking h (ForPing r)) else None
  end.

(** ** Writing *)

Definition frame (p : Purpose) : str :=
  match p with ForSend _ _ msg => msg | ForPong _ _ => KEEPALIVE_PONG | ForPing _ => KEEPALIVE_PING end.

(** After [write_all], the guard dropped. *)
Definition written (h : ConnectionHandle) (p : Purpose) : Task :=
  match p with
  | ForSend sender dest msg => Sent sender dest msg (write_half h)
  | ForPong O r => parsing h r
  | ForPong (S more) r => Locking h (ForPong more r)
  | ForPing r => reading h r
  end.

Definition write_failed (p : Purpose) : Task :=
  match p with
  | ForSend _ _ _ => Finished (Err Io)
  | ForPong _ r | ForPing r => Removing (remote_addr r)
  end.

(** ** Moves *)

Inductive Ready : Type :=
| Go
| Opened (os_local : Addr)
| Refused
| Took (n : nat)
| WriteFailed
| Got (e : ReadEvent)
| Pick (addr : Addr)
| Incoming (remote local : Addr).

Definition set_task (i : nat) (t : Task) (st : Tcp) : Tcp := st <| tasks := <[i := t]> (tasks st) |>.
Definition set_socket (s : nat) (sk : Socket) (st : Tcp) : Tcp := st <| sockets := <[s := sk]> (sockets st) |>.
Definition spawn (t : Task) (st : Tcp) : Tcp := st <| tasks := tasks st ++ [t] |>.
Definition open_socket (remote local : Addr) (st : Tcp) : Tcp :=
  st <| sockets := sockets st ++ [mkSocket remote local [] false false] |>.

(** One task goes on to its next await; [None]: it has to wait, or the outcome is not one of
    what it awaits. *)
Definition proceed (i : nat) (t : Task) (o : Ready) (st : Tcp) : option Tcp :=
  match t, o with
  | Connecting addr after, Opened os_local =>
      let local := default os_local (explicit_connect_bind st) in
      Some (set_task i (Inserting addr (length (sockets st)) after) (open_socket addr local st))
  | Connecting _ _, Refused => Some (set_task i (Finished (Err Io)) st)
  | Inserting addr sock after, Go =>
      let* sk := sockets st !! sock in
      Some (set_task i (Stashing addr sock after) (st <| connections := <[addr := mkHandle sock (local sk)]> (connections st) |>))
  | Stashing addr sock after, Go =>
      Some (set_task i (connected addr after) (st <| pending_reads := <[addr := sock]> (pending_reads st) |>))
  | LookingUp dest msg, Go => Some (set_task i (look_up false dest msg st) st)
  | Locking h p, Go =>
      let* sk := sockets st !! write_half h in
      if write_locked sk then None
      else Some (set_task i (Writing h p (frame p)) (set_socket (write_half h) (sk <| write_locked := true |>) st))
  | Writing h p [], Go =>
      let* sk := sockets st !! write_half h in
      Some (set_task i (written h p) (set_socket (write_half h) (sk <| write_locked := false |>) st))
  | Writing h p rest, Took n =>
      let* sk := sockets st !! write_half h in
      if broken sk || negb ((0 <? n)%nat && (n <=? length rest)%nat) then None
      else Some (set_task i (Writing h p (drop n rest)) (set_socket (write_half h) (sk <| wire := wire sk ++ take n rest |>) st))
  | Writing h p (_ :: _), WriteFailed =>
      let* sk := sockets st !! write_half h in
      Some (set_task i (write_failed p) (set_socket (write_half h) (sk <| write_locked := false |> <| broken := true |>) st))
  | Awaiting h r, Got e => let* t := after_read (keepalive st) h r e in Some (set_task i t st)
  | Delivering h r msg, Go =>
      if negb (receiver st) then Some (set_task i (Removing (remote_addr r)) st)
      else if (256 <=? length (incoming st))%nat then None
      else Some (set_task i (reading h r) (st <| incoming := incoming st ++ [mkIncoming msg (remote_addr r)] |>))
  | Removing addr, Go => Some (set_task i (Finished (Ok tt)) (st <| connections := delete addr (connections st) |>))
  | ListingPending, Go => Some (set_task i (Claiming (dom (pending_reads st))) st)
  | Claiming todo, Pick addr =>
      if decide (addr ∈ todo) then
        match pending_reads st !! addr with
        | Some sock =>
            Some (set_task i (Resolving (todo ∖ {[addr]}) addr sock) (st <| pending_reads := delete addr (pending_reads st) |>))
        | None => Some (set_task i (Claiming (todo ∖ {[addr]})) st)
        end
      else None
  | Claiming todo, Go => if decide (todo = ∅) then Some (set_task i (Finished (Ok tt)) st) else None
  | Resolving todo addr sock, Go =>
      match connections st !! addr with
      | Some h => Some (spawn (reading h (read_state_new sock addr)) (set_task i (Claiming todo) st))
      | None => Some (set_task i (Claiming todo) st)
      end
  | Accepting, Incoming remote local =>
      Some (set_task i (Storing remote (length (sockets st))) (open_socket remote local st))
  | Accepting, Refused => Some st
  | Storing remote sock, Go =>
      let* sk := sockets st !! sock in
      let handle := mkHandle sock (local sk) in
      Some (spawn (reading handle (read_state_new sock remote))
        (set_task i Accepting (st <| connections := <[remote := handle]> (connections st) |>)))
  | _, _ => None
  end.

Inductive Move : Type :=
| Connect (addr : Addr)
| Send (dest : Addr) (msg : str)
| SenderSend (dest : Addr) (msg : str)
| Start
| Run (i : nat) (o : Ready)
| Receive
| DropReceiver.

Definition step (st : Tcp) (m : Move) : option Tcp :=
  match m with
  | Connect addr => if started st then None else Some (spawn (connect addr st) st)
  | Send dest msg => if started st then None else Some (spawn (transport_send dest msg st) st)
  | SenderSend dest msg => Some (spawn (sender_send dest msg st) st)
  | Start => start st
  | Run i o => let* t := tasks st !! i in proceed i t o st
  | Receive => if receiver st then Some (st <| incoming := tail (incoming st) |>) else None
  | DropReceiver => Some (st <| receiver := false |>)
  end.

Fixpoint run (st : Tcp) (ms : list Move) : option Tcp :=
  match ms with
  | [] => Some st
  | m :: ms => let* st := step st m in run st ms
  end.

(** ** What was written, by the run

    The frames in the order their [write_all] ended, with the socket and the task. *)

Definition completion (st : Tcp) (m : Move) : list (nat * (nat * Purpose)) :=
  match m with
  | Run i Go => match tasks st !! i with Some (Writing h p []) => [(write_half h, (i, p))] | _ => [] end
  | _ => []
  end.

Fixpoint trace (st : Tcp) (ms : list Move) : list (nat * (nat * Purpose)) :=
  match ms with
  | [] => []
  | m :: ms => match step st m with Some st' => completion st m ++ trace st' ms | None => [] end
  end.

(** The frames of one socket. *)
Definition on (s : nat) (tr : list (nat * (nat * Purpose))) : list (nat * Purpose) := snd <$> filter (fun e => e.1 = s) tr.

Definition frames (log : list (nat * Purpose)) : str := concat (map (fun e => frame e.2) log).

(** The tasks whose message is among them. *)
Definition senders (log : list (nat * Purpose)) : list nat :=
  omap (fun e => match e.2 with ForSend _ _ _ => Some e.1 | _ => None end) log.

(** ** The invariant *)

(** What a task means for the writing on a socket. *)
Inductive View : Type :=
| Busy (p : Purpose) (rest : str)
| Over (p : Purpose).

Definition view (s : nat) (t : Task) : option View :=
  match t with
  | Writing h p rest => if decide (write_half h = s) then Some (Busy p rest) else None
  | Sent sender dest msg s' => if decide (s' = s) then Some (Over (ForSend sender dest msg)) else None
  | _ => None
  end.

Definition views (ts : list Task) (s i : nat) : option View := ts !! i ≫= view s.

(** A task that neither holds a write half nor has written. *)
Definition quiet (t : Task) : Prop := match t with Writing _ _ _ | Sent _ _ _ _ => False | _ => True end.

Definition keeps_alive (p : Purpose) : Prop := match p with ForSend _ _ _ => False | _ => True end.

(** A socket, what the tasks do with it and the frames written on it. *)
Record sock_ok (sk : Socket) (v : nat -> option View) (log : list (nat * Purpose)) : Prop := {
  so_free : write_locked sk = false -> forall i p rest, v i <> Some (Busy p rest);
  so_held : write_locked sk = true -> exists i p rest, v i = Some (Busy p rest);
  so_one : forall i j p q r1 r2, v i = Some (Busy p r1) -> v j = Some (Busy q r2) -> i = j;
  so_wire : broken sk = false -> write_locked sk = false -> wire sk = frames log;
  so_busy : broken sk = false -> forall i p rest, v i = Some (Busy p rest) ->
    exists part, frame p = part ++ rest /\ wire sk = frames log ++ part;
  so_over : forall i p, v i = Some (Over p) <-> (i, p) ∈ log /\ ~ keeps_alive p;
  so_nodup : NoDup (senders log)
}.

Lemma sock_ok_ext sk v v' log : (forall i, v' i = v i) -> sock_ok sk v log -> sock_ok sk v' log.
Proof.
  intros E [H1 H2 H3 H4 H5 H6 H7]. constructor; try done.
  - intros Hl i. rewrite E. by apply H1.
  - intros Hl. destruct (H2 Hl) as (i & p & rest & Hi). exists i, p, rest. by rewrite E.
  - intros i j. rewrite !E. apply H3.
  - intros Hb i. rewrite E. by apply H5.
  - intros i p. rewrite E. apply H6.
Qed.

(** *** A frame is written *)

Section Update.
Variables (w w' : nat -> option View) (i : nat) (x : option View).
Hypothesis Hx : w' i = x.
Hypothesis Hv : forall j, j <> i -> w' j = w j.

Lemma sock_ok_lock sk log p :
  sock_ok sk w log -> write_locked sk = false -> w i = None -> x = Some (Busy p (frame p)) ->
  sock_ok (sk <| write_locked := true |>) w' log.
Proof.
  intros [H1 H2 H3 H4 H5 H6 H7] Hl Hi ->. pose proof (H1 Hl) as Hn.
  assert (forall j q r, w' j = Some (Busy q r) -> j = i /\ q = p /\ r = frame p) as Hb.
  { intros j q r Hj. destruct (decide (j = i)) as [->|Hji]; [rewrite Hx in Hj; by injection Hj as <- <-|].
    rewrite (Hv j Hji) in Hj. by destruct (Hn _ _ _ Hj). }
  constructor; cbn; try done.
  - intros _. by exists i, p, (frame p).
  - intros a b q1 q2 r1 r2 Ha Hb'. by destruct (Hb _ _ _ Ha) as [-> _], (Hb _ _ _ Hb') as [-> _].
  - intros Hk j q r Hj. destruct (Hb _ _ _ Hj) as (-> & -> & ->). exists []. split; [done|]. rewrite app_nil_r. by apply H4.
  - intros j q. rewrite <- H6. destruct (decide (j = i)) as [->|Hji]; [by rewrite Hx, Hi|by rewrite (Hv j Hji)].
Qed.

Lemma sock_ok_took sk log p rest n :
  sock_ok sk w log -> w i = Some (Busy p rest) -> x = Some (Busy p (drop n rest)) ->
  sock_ok (sk <| wire := wire sk ++ take n rest |>) w' log.
Proof.
  intros [H1 H2 H3 H4 H5 H6 H7] Hi ->.
  assert (write_locked sk = true) as Hl by (destruct (write_locked sk) eqn:E; [done|by destruct (H1 eq_refl _ _ _ Hi)]).
  assert (forall j q r, w' j = Some (Busy q r) -> j = i /\ q = p /\ r = drop n rest) as Hb.
  { intros j q r Hj. destruct (decide (j = i)) as [->|Hji]; [rewrite Hx in Hj; by injection Hj as <- <-|].
    rewrite (Hv j Hji) in Hj. by destruct (Hji (H3 _ _ _ _ _ _ Hj Hi)). }
  constructor; cbn; try congruence.
  - intros _. by exists i, p, (drop n rest).
  - intros a b q1 q2 r1 r2 Ha Hb'. by destruct (Hb _ _ _ Ha) as [-> _], (Hb _ _ _ Hb') as [-> _].
  - intros Hk j q r Hj. destruct (Hb _ _ _ Hj) as (-> & -> & ->). destruct (H5 Hk i p rest Hi) as (part & E1 & E2).
    exists (part ++ take n rest). rewrite <- app_assoc, take_drop, E2, app_assoc. done.
  - intros j q. rewrite <- H6. destruct (decide (j = i)) as [->|Hji]; [by rewrite Hx, Hi|by rewrite (Hv j Hji)].
Qed.

Lemma sock_ok_failed sk log p rest :
  sock_ok sk w log -> w i = Some (Busy p rest) -> x = None ->
  sock_ok (sk <| write_locked := false |> <| broken := true |>) w' log.
Proof.
  intros [H1 H2 H3 H4 H5 H6 H7] Hi ->.
  assert (forall j q r, w' j <> Some (Busy q r)) as Hb.
  { intros j q r Hj. destruct (decide (j = i)) as [->|Hji]; [congruence|]. rewrite (Hv j Hji) in Hj. by destruct (Hji (H3 _ _ _ _ _ _ Hj Hi)). }
  constructor; cbn; try done.
  - intros a b q1 q2 r1 r2 Ha. by destruct (Hb _ _ _ Ha).
  - intros j q. rewrite <- H6. destruct (decide (j = i)) as [->|Hji]; [by rewrite Hx, Hi|by rewrite (Hv j Hji)].
Qed.

Lemma sock_ok_done sk log p :
  sock_ok sk w log -> w i = Some (Busy p []) ->
  x = match p with ForSend _ _ _ => Some (Over p) | _ => None end ->
  sock_ok (sk <| write_locked := false |>) w' (log ++ [(i, p)]).
Proof.
  intros [H1 H2 H3 H4 H5 H6 H7] Hi ->.
  assert (forall j q r, w' j <> Some (Busy q r)) as Hb.
  { intros j q r Hj. destruct (decide (j = i)) as [->|Hji]; [rewrite Hx in Hj; by destruct p|].
    rewrite (Hv j Hji) in Hj. by destruct (Hji (H3 _ _ _ _ _ _ Hj Hi)). }
  assert (~ exists q, (i, q) ∈ log /\ ~ keeps_alive q) as Hn by (intros (q & Hq); apply H6 in Hq; congruence).
  constructor; cbn; try done.
  - intros a b q1 q2 r1 r2 Ha. by destruct (Hb _ _ _ Ha).
  - intros Hk _. destruct (H5 Hk i p [] Hi) as (part & E1 & E2). rewrite app_nil_r in E1. subst part. unfold frames in *.
    rewrite map_app, concat_app, E2. cbn. by rewrite app_nil_r.
  - intros Hk j q r Hj. by destruct (Hb _ _ _ Hj).
  - intros j q. rewrite elem_of_app, list_elem_of_singleton. destruct (decide (j = i)) as [->|Hji].
    + rewrite Hx. split.
      * destruct p; intros [= <-]. split; [by right|]. by intros [].
      * intros [[Hq|[= ->]] Hk]; [by destruct Hn; exists q|]. by destruct p; [|destruct Hk..].
    + rewrite (Hv j Hji), H6. naive_solver.
  - unfold senders in *. rewrite omap_app. cbn. destruct p; cbn; rewrite ?app_nil_r; try done.
    apply NoDup_app. split; [done|]. split; [|by apply NoDup_singleton].
    intros j Hj%list_elem_of_omap. intros ->%list_elem_of_singleton. destruct Hj as ((j & q) & Hq & E). cbn in E.
    apply Hn. exists q. destruct q; try done. injection E as ->. split; [done|]. by intros [].
Qed.
End Update.

(** *** Tasks, tables and sockets name each other rightly *)

Definition ends (sks : list Socket) : list (Addr * Addr) := (fun sk => (peer sk, local sk)) <$> sks.

Definition leads_to (es : list (Addr * Addr)) (a : Addr) (s : nat) : Prop := exists l, es !! s = Some (a, l).

Definition handle_ok (es : list (Addr * Addr)) (a : Addr) (h : ConnectionHandle) : Prop := es !! write_half h = Some (a, local_addr h).

Definition reader_ok (es : list (Addr * Addr)) (h : ConnectionHandle) (r : ReadHalfState) : Prop :=
  handle_ok es (remote_addr r) h /\ leads_to es (remote_addr r) (read_half r).

Definition purpose_ok (es : list (Addr * Addr)) (h : ConnectionHandle) (p : Purpose) : Prop :=
  match p with
  | ForSend _ dest _ => handle_ok es dest h
  | ForPong _ r | ForPing r => reader_ok es h r
  end.

Definition task_ok (es : list (Addr * Addr)) (t : Task) : Prop :=
  match t with
  | Inserting a s _ | Stashing a s _ | Resolving _ a s | Storing a s => leads_to es a s
  | Locking h p | Writing h p _ => purpose_ok es h p
  | Awaiting h r | Delivering h r _ => reader_ok es h r
  | Sent _ dest _ s => leads_to es dest s
  | _ => True
  end.

Record tcp_inv (st : Tcp) (tr : list (nat * (nat * Purpose))) : Prop := {
  ti_conns : map_Forall (handle_ok (ends (sockets st))) (connections st);
  ti_pending : map_Forall (leads_to (ends (sockets st))) (pending_reads st);
  ti_tasks : Forall (task_ok (ends (sockets st))) (tasks st);
  ti_socks : forall s sk, sockets st !! s = Some sk -> sock_ok sk (views (tasks st) s) (on s tr);
  ti_fresh : Forall (fun e => (e.1 < length (sockets st))%nat) tr
}.

Lemma ends_grow sks new : ends sks `prefix_of` ends (sks ++ new).
Proof. unfold ends. rewrite fmap_app. by eexists. Qed.

Lemma ends_lookup sks s sk : sks !! s = Some sk -> ends sks !! s = Some (peer sk, local sk).
Proof. intros E. unfold ends. by rewrite list_lookup_fmap, E. Qed.

Lemma ends_keep sks s sk sk' : sks !! s = Some sk -> peer sk' = peer sk -> local sk' = local sk -> ends (<[s := sk']> sks) = ends sks.
Proof.
  intros E Ep El. unfold ends. rewrite list_fmap_insert. apply list_insert_id. by rewrite list_lookup_fmap, E, Ep, El.
Qed.

Lemma handle_mono es es' a h : es `prefix_of` es' -> handle_ok es a h -> handle_ok es' a h.
Proof. unfold handle_ok. intros. by eapply prefix_lookup_Some. Qed.

Lemma leads_mono es es' a s : es `prefix_of` es' -> leads_to es a s -> leads_to es' a s.
Proof. intros Hp (l & E). exists l. by eapply prefix_lookup_Some. Qed.

Hint Resolve handle_mono leads_mono : core.

Lemma reader_mono es es' h r : es `prefix_of` es' -> reader_ok es h r -> reader_ok es' h r.
Proof. intros Hp [Hh Hl]. split; eauto. Qed.

Lemma task_mono es es' t : es `prefix_of` es' -> task_ok es t -> task_ok es' t.
Proof. intros Hp. destruct t as [| | | |? []|? [] ?| | | | | | | | | |]; cbn; eauto using reader_mono. Qed.

(** *** What the code does between two awaits *)

Lemma parsing_ok es h r : reader_ok es h r -> quiet (parsing h r) /\ task_ok es (parsing h r).
Proof. intros Hr. unfold parsing. by destruct (try_parse_message_from_buf _) as [[msg buf]|]. Qed.

Lemma reading_ok es h r : reader_ok es h r -> quiet (reading h r) /\ task_ok es (reading h r).
Proof. intros Hr. unfold reading. destruct (strip_leading_keepalives _) as [[|more] buf]; [by apply parsing_ok|done]. Qed.

Lemma after_read_ok es k h r e t : reader_ok es h r -> after_read k h r e = Some t -> quiet t /\ task_ok es t.
Proof.
  intros Hr E. destruct e as [bytes| | |]; cbn [after_read] in E.
  - destruct (_ && _); [|discriminate E]. apply Some_inj in E as <-. destruct (Nat.ltb _ _); [done|]. by apply reading_ok.
  - by apply Some_inj in E as <-.
  - by apply Some_inj in E as <-.
  - destruct (send_pings k); [|discriminate E]. by apply Some_inj in E as <-.
Qed.

Lemma look_up_ok st sender dest msg :
  map_Forall (handle_ok (ends (sockets st))) (connections st) ->
  quiet (look_up sender dest msg st) /\ task_ok (ends (sockets st)) (look_up sender dest msg st).
Proof. intros Hc. unfold look_up. destruct (connections st !! dest) as [h|] eqn:E; [|done]. split; [done|]. exact (Hc _ _ E). Qed.

Lemma failed_ok es p : quiet (write_failed p) /\ task_ok es (write_failed p).
Proof. by destruct p. Qed.

Lemma written_ok es h p : purpose_ok es h p -> task_ok es (written h p) /\ (keeps_alive p -> quiet (written h p)).
Proof.
  destruct p as [b d m|[|more] r|r]; cbn; intros Hp.
  - split; [|done]. by eexists.
  - destruct (parsing_ok es h r Hp). tauto.
  - done.
  - destruct (reading_ok es h r Hp). tauto.
Qed.

(** *** Steps *)

Lemma view_quiet t s : quiet t -> view s t = None.
Proof. by destruct t. Qed.

Lemma views_insert ts i t s j : (i < length ts)%nat -> views (<[i := t]> ts) s j = if decide (j = i) then view s t else views ts s j.
Proof.
  intros Hi. unfold views. destruct (decide (j = i)) as [->|Hj]; [by rewrite list_lookup_insert_eq|by rewrite list_lookup_insert_ne].
Qed.

Lemma views_app ts new s j : Forall quiet new -> views (ts ++ new) s j = views ts s j.
Proof.
  intros Hq. unfold views. destruct (decide (j < length ts)%nat) as [Hj|Hj]; [by rewrite lookup_app_l|].
  rewrite lookup_app_r, (lookup_ge_None_2 ts) by lia. cbn. destruct (new !! _) as [t|] eqn:E; [|done]. cbn.
  apply view_quiet. by eapply Forall_lookup_1.
Qed.

Lemma views_fresh es ts s j : Forall (task_ok es) ts -> (length es <= s)%nat -> views ts s j = None.
Proof.
  intros Ht Hs. unfold views. destruct (ts !! j) as [t|] eqn:E; [|done]. pose proof (Forall_lookup_1 _ _ _ _ Ht E) as Hk. cbn.
  apply lookup_ge_None_2 in Hs. destruct t as [| | | | |h p rest| | | | | | | | |sender dest msg s'|]; try done; cbn; destruct (decide _) as [Es|]; try done; exfalso.
  - destruct p as [? ? ?|? ?|?]; cbn in Hk; unfold reader_ok, handle_ok in Hk; rewrite Es in Hk; destruct_and?; congruence.
  - destruct Hk as [l Hk]. rewrite Es in Hk. congruence.
Qed.

Definition new_socket (sk : Socket) : Prop := wire sk = [] /\ write_locked sk = false /\ broken sk = false.

Lemma new_socket_ok sk w : new_socket sk -> (forall i, w i = None) -> sock_ok sk w [].
Proof.
  intros (H1 & H2 & H3) Hw. constructor.
  - intros _ i p rest. by rewrite Hw.
  - by rewrite H2.
  - intros i j p q r1 r2. by rewrite Hw.
  - by rewrite H1.
  - intros _ i p rest. by rewrite Hw.
  - intros i p. rewrite Hw. split; [done|]. by intros [E%elem_of_nil _].
  - constructor.
Qed.

Lemma on_fresh n s tr : Forall (fun e : nat * (nat * Purpose) => (e.1 < n)%nat) tr -> (n <= s)%nat -> on s tr = [].
Proof.
  intros Hf Hs. unfold on. induction Hf as [|e tr He _ IH]; [done|]. cbn in He. rewrite filter_cons_False by (cbn; lia). exact IH.
Qed.

(** The parts of a step in which no task starts, goes on or ends writing. *)

Lemma inv_conns st tr c : tcp_inv st tr -> map_Forall (handle_ok (ends (sockets st))) c -> tcp_inv (st <| connections := c |>) tr.
Proof. by intros [_ Hp Ht Hs Hf] Hc. Qed.

Lemma inv_pending st tr c : tcp_inv st tr -> map_Forall (leads_to (ends (sockets st))) c -> tcp_inv (st <| pending_reads := c |>) tr.
Proof. by intros [Hc _ Ht Hs Hf] Hp. Qed.

Lemma inv_incoming st tr l : tcp_inv st tr -> tcp_inv (st <| incoming := l |>) tr.
Proof. by intros [Hc Hp Ht Hs Hf]. Qed.

Lemma inv_set_task st tr i t t' :
  tcp_inv st tr -> tasks st !! i = Some t -> quiet t -> quiet t' -> task_ok (ends (sockets st)) t' -> tcp_inv (set_task i t' st) tr.
Proof.
  intros [Hc Hp Ht Hs Hf] Ei Hq Hq' Hk. constructor; cbn -[ends map_Forall views]; try done; [by apply Forall_insert|].
  intros s sk E. eapply sock_ok_ext; [|exact (Hs _ _ E)]. intros j. rewrite views_insert by (by eapply lookup_lt_Some).
  destruct (decide (j = i)) as [->|]; [|done]. unfold views. rewrite Ei. cbn. by rewrite !view_quiet.
Qed.

Lemma inv_spawns st tr ts :
  tcp_inv st tr -> Forall quiet ts -> Forall (task_ok (ends (sockets st))) ts -> tcp_inv (st <| tasks := tasks st ++ ts |>) tr.
Proof.
  intros [Hc Hp Ht Hs Hf] Hq Hk. constructor; cbn -[ends map_Forall views]; try done; [by apply Forall_app_2|].
  intros s sk E. eapply sock_ok_ext; [|exact (Hs _ _ E)]. intros j. by apply views_app.
Qed.

Lemma inv_spawn st tr t : tcp_inv st tr -> quiet t -> task_ok (ends (sockets st)) t -> tcp_inv (spawn t st) tr.
Proof. intros Hi Hq Hk. by apply inv_spawns; [|apply Forall_singleton..]. Qed.

Lemma inv_open st tr remote local : tcp_inv st tr -> tcp_inv (open_socket remote local st) tr.
Proof.
  intros [Hc Hp Ht Hs Hf]. set (new := [mkSocket remote local [] false false]). pose proof (ends_grow (sockets st) new) as Hg.
  constructor; cbn -[ends map_Forall views]; fold new.
  - intros a h E. eauto.
  - intros a s E. eauto.
  - eapply Forall_impl; [exact Ht|]. intros t. by apply task_mono.
  - intros s sk E. apply lookup_app_Some in E as [E|[Hl E]]; [by apply Hs|].
    rewrite (on_fresh _ _ _ Hf Hl). apply new_socket_ok; [by apply list_lookup_singleton_Some in E as [_ <-]|].
    intros j. apply (views_fresh _ _ _ _ Ht). unfold ends. by rewrite length_fmap.
  - eapply Forall_impl; [exact Hf|]. intros e He. cbn in He |- *. rewrite length_app. lia.
Qed.

Lemma opened_leads st remote local : leads_to (ends (sockets (open_socket remote local st))) remote (length (sockets st)).
Proof.
  exists local. unfold ends. cbn. rewrite list_lookup_fmap, lookup_app_r by done. by rewrite Nat.sub_diag.
Qed.

Lemma opened_keeps st remote local : ends (sockets st) `prefix_of` ends (sockets (open_socket remote local st)).
Proof. apply ends_grow. Qed.

Lemma on_app s tr tr' : on s (tr ++ tr') = on s tr ++ on s tr'.
Proof. unfold on. by rewrite filter_app, fmap_app. Qed.

Lemma on_same s log : on s (pair s <$> log) = log.
Proof. unfold on. induction log as [|e log IH]; [done|]. cbn [fmap list_fmap]. by rewrite filter_cons_True, fmap_cons, IH. Qed.

Lemma on_other s s' log : s' <> s -> on s' (pair s <$> log) = [].
Proof. intros Hs. unfold on. induction log as [|e log IH]; [done|]. cbn [fmap list_fmap]. by rewrite filter_cons_False by (cbn; congruence). Qed.

(** A step of a task that holds, takes or gives back the write half of socket [s]. *)
Lemma inv_active st tr i t t' s sk sk' log :
  tcp_inv st tr -> tasks st !! i = Some t -> (forall s', s' <> s -> view s' t = None /\ view s' t' = None) ->
  sockets st !! s = Some sk -> peer sk' = peer sk -> local sk' = local sk -> task_ok (ends (sockets st)) t' ->
  sock_ok sk' (fun j => if decide (j = i) then view s t' else views (tasks st) s j) (on s tr ++ log) ->
  tcp_inv (set_task i t' (set_socket s sk' st)) (tr ++ (pair s <$> log)).
Proof.
  intros [Hc Hp Ht Hs Hf] Ei Hv Esk Ep El Hk Ho. apply lookup_lt_Some in Ei as Hi. pose proof (ends_keep _ _ _ _ Esk Ep El) as Ee.
  constructor; cbn -[ends map_Forall on views]; rewrite ?Ee; try done.
  - by apply Forall_insert.
  - intros s' sk1 E. rewrite on_app. destruct (decide (s' = s)) as [->|Hss].
    + rewrite on_same. rewrite list_lookup_insert_eq in E by (by eapply lookup_lt_Some). injection E as <-.
      eapply sock_ok_ext; [|exact Ho]. intros j. by apply views_insert.
    + rewrite (on_other _ _ _ Hss), app_nil_r. rewrite list_lookup_insert_ne in E by done.
      eapply sock_ok_ext; [|exact (Hs _ _ E)]. intros j. rewrite (views_insert _ _ _ _ _ Hi). destruct (decide (j = i)) as [->|]; [|done].
      destruct (Hv s' Hss) as [Hv1 ->]. unfold views. by rewrite Ei.
  - apply Forall_app. rewrite length_insert. split; [done|]. apply Forall_fmap, Forall_true. intros e. cbn. by eapply lookup_lt_Some.
Qed.

Lemma view_other h p rest s' : s' <> write_half h -> view s' (Writing h p rest) = None.
Proof. intros Hs. cbn. by rewrite decide_False. Qed.

Lemma view_here h p rest : view (write_half h) (Writing h p rest) = Some (Busy p rest).
Proof. cbn. by rewrite decide_True. Qed.

Lemma view_written h p s : view s (written h p) =
  match p with ForSend _ _ _ => if decide (write_half h = s) then Some (Over p) else None | _ => None end.
Proof.
  destruct p as [b d m|[|more] r|r]; cbn; try done.
  - unfold parsing. by destruct (try_parse_message_from_buf _) as [[msg buf]|].
  - unfold reading. destruct (strip_leading_keepalives _) as [[|more] buf]; [|done]. unfold parsing. by destruct (try_parse_message_from_buf _) as [[msg buf']|].
Qed.

Lemma inv_lock st tr i h p sk :
  tcp_inv st tr -> tasks st !! i = Some (Locking h p) -> sockets st !! write_half h = Some sk -> write_locked sk = false ->
  tcp_inv (set_task i (Writing h p (frame p)) (set_socket (write_half h) (sk <| write_locked := true |>) st)) tr.
Proof.
  intros Hi Ei Es Hl. pose proof (Forall_lookup_1 _ _ _ _ (ti_tasks _ _ Hi) Ei) as Hk.
  assert (tr = tr ++ (pair (write_half h) <$> [])) as -> by (by rewrite app_nil_r).
  apply (inv_active st tr i (Locking h p) _ _ sk); try done; [intros s' Hs; by rewrite view_other|]. rewrite app_nil_r.
  apply (sock_ok_lock (views (tasks st) (write_half h)) _ i (Some (Busy p (frame p)))) with p; try done.
  - by rewrite decide_True, view_here by done.
  - intros j Hj. by rewrite decide_False.
  - by apply (ti_socks _ _ Hi).
  - unfold views. by rewrite Ei.
Qed.

Lemma inv_took st tr i h p rest n sk :
  tcp_inv st tr -> tasks st !! i = Some (Writing h p rest) -> sockets st !! write_half h = Some sk ->
  tcp_inv (set_task i (Writing h p (drop n rest)) (set_socket (write_half h) (sk <| wire := wire sk ++ take n rest |>) st)) tr.
Proof.
  intros Hi Ei Es. pose proof (Forall_lookup_1 _ _ _ _ (ti_tasks _ _ Hi) Ei) as Hk.
  assert (tr = tr ++ (pair (write_half h) <$> [])) as -> by (by rewrite app_nil_r).
  apply (inv_active st tr i (Writing h p rest) _ _ sk); try done; [intros s' Hs; by rewrite !view_other|]. rewrite app_nil_r.
  apply (sock_ok_took (views (tasks st) (write_half h)) _ i (Some (Busy p (drop n rest)))) with p; try done.
  - by rewrite decide_True, view_here by done.
  - intros j Hj. by rewrite decide_False.
  - by apply (ti_socks _ _ Hi).
  - unfold views. rewrite Ei. apply view_here.
Qed.

Lemma inv_failed st tr i h p rest sk :
  tcp_inv st tr -> tasks st !! i = Some (Writing h p rest) -> sockets st !! write_half h = Some sk ->
  tcp_inv (set_task i (write_failed p) (set_socket (write_half h) (sk <| write_locked := false |> <| broken := true |>) st)) tr.
Proof.
  intros Hi Ei Es. destruct (failed_ok (ends (sockets st)) p) as [Hq Hk].
  assert (tr = tr ++ (pair (write_half h) <$> [])) as -> by (by rewrite app_nil_r).
  apply (inv_active st tr i (Writing h p rest) _ _ sk); try done.
  { intros s' Hs. split; [by rewrite view_other|by apply view_quiet]. }
  rewrite app_nil_r. apply (sock_ok_failed (views (tasks st) (write_half h)) _ i None) with p rest; try done.
  - rewrite decide_True by done. by apply view_quiet.
  - intros j Hj. by rewrite decide_False.
  - by apply (ti_socks _ _ Hi).
  - unfold views. rewrite Ei. apply view_here.
Qed.

Lemma inv_done st tr i h p sk :
  tcp_inv st tr -> tasks st !! i = Some (Writing h p []) -> sockets st !! write_half h = Some sk ->
  tcp_inv (set_task i (written h p) (set_socket (write_half h) (sk <| write_locked := false |>) st)) (tr ++ [(write_half h, (i, p))]).
Proof.
  intros Hi Ei Es. destruct (written_ok _ h p (Forall_lookup_1 _ _ _ _ (ti_tasks _ _ Hi) Ei : purpose_ok _ h p)) as [Hk _].
  apply (inv_active st tr i (Writing h p []) _ _ sk _ [(i, p)]); try done.
  { intros s' Hs. split; [by rewrite view_other|]. rewrite view_written. destruct p; [by rewrite decide_False|done..]. }
  apply (sock_ok_done (views (tasks st) (write_half h)) _ i (view (write_half h) (written h p))); try done.
  - by rewrite decide_True by done.
  - intros j Hj. by rewrite decide_False.
  - by apply (ti_socks _ _ Hi).
  - unfold views. rewrite Ei. apply view_here.
  - rewrite view_written. destruct p; [by rewrite decide_True|done..].
Qed.

(** A task that does not write goes on. *)
Lemma proceed_quiet st tr i t o st' :
  tcp_inv st tr -> tasks st !! i = Some t -> quiet t -> (forall h p, t <> Locking h p) -> proceed i t o st = Some st' -> tcp_inv st' tr.
Proof.
  intros Hi Ei Hq Hl E. pose proof (Forall_lookup_1 _ _ _ _ (ti_tasks _ _ Hi) Ei) as Hk. pose proof Hi as [Hc Hp _ _ _].
  destruct t as [addr after|addr sock after|addr sock after|dest msg|h p|h p rest|h r|h r msg|addr| |todo|todo addr sock| |remote sock| |];
    try done; try (by destruct (Hl h p)); destruct o as [|os_local| |n| |e|a|remote' local']; try discriminate E; cbn [proceed] in E.
  - apply Some_inj in E as <-. eapply inv_set_task; [by apply inv_open|exact Ei|done..|]. apply opened_leads.
  - apply Some_inj in E as <-. by eapply inv_set_task.
  - destruct Hk as [l Hk]. destruct (sockets st !! sock) as [sk|] eqn:Esk; [|discriminate E]. apply Some_inj in E as <-.
    eapply inv_set_task; [|exact Ei|done..|by exists l]. apply inv_conns; [done|]. apply map_Forall_insert_2; [|done].
    apply ends_lookup in Esk. unfold handle_ok. cbn. congruence.
  - apply Some_inj in E as <-. eapply inv_set_task; [|exact Ei|done|by destruct after|by destruct after].
    apply inv_pending; [done|]. by apply map_Forall_insert_2.
  - apply Some_inj in E as <-. destruct (look_up_ok st false dest msg Hc). by eapply inv_set_task.
  - destruct (after_read (keepalive st) h r e) as [t|] eqn:Ea; [|discriminate E]. apply Some_inj in E as <-.
    destruct (after_read_ok _ _ _ _ _ _ Hk Ea). by eapply inv_set_task.
  - destruct (negb (receiver st)); [apply Some_inj in E as <-; by eapply inv_set_task|].
    destruct (Nat.leb _ _); [discriminate E|]. apply Some_inj in E as <-. destruct (reading_ok _ _ _ Hk) as [Hq' Hk'].
    eapply inv_set_task; [|exact Ei|done..]. by apply inv_incoming.
  - apply Some_inj in E as <-. eapply inv_set_task; [|exact Ei|done..]. apply inv_conns; [done|]. by apply map_Forall_delete.
  - apply Some_inj in E as <-. by eapply inv_set_task.
  - destruct (decide _); [|discriminate E]. apply Some_inj in E as <-. by eapply inv_set_task.
  - destruct (decide _); [|discriminate E]. destruct (pending_reads st !! a) as [sock|] eqn:Ep; apply Some_inj in E as <-; [|by eapply inv_set_task].
    eapply inv_set_task; [|exact Ei|done|done|exact (Hp _ _ Ep)]. apply inv_pending; [done|]. by apply map_Forall_delete.
  - destruct (connections st !! addr) as [h|] eqn:Ec; apply Some_inj in E as <-; [|by eapply inv_set_task].
    assert (reader_ok (ends (sockets st)) h (read_state_new sock addr)) as Hr by (split; [exact (Hc _ _ Ec)|exact Hk]).
    destruct (reading_ok _ _ _ Hr). apply inv_spawn; [by eapply inv_set_task|done..].
  - by apply Some_inj in E as <-.
  - apply Some_inj in E as <-. eapply inv_set_task; [by apply inv_open|exact Ei|done..|]. apply opened_leads.
  - destruct (sockets st !! sock) as [sk|] eqn:Esk; [|discriminate E]. apply Some_inj in E as <-. apply ends_lookup in Esk.
    assert (handle_ok (ends (sockets st)) remote (mkHandle sock (local sk))) as Hh by (destruct Hk as [l Hk]; unfold handle_ok; cbn; congruence).
    destruct (reading_ok (ends (sockets st)) (mkHandle sock (local sk)) (read_state_new sock remote)) as [Hq' Hk']; [by split|].
    apply inv_spawn; [|done..]. eapply inv_set_task; [|exact Ei|done..]. apply inv_conns; [done|]. by apply map_Forall_insert_2.
Qed.

Lemma proceed_inv st tr i t o st' :
  tcp_inv st tr -> tasks st !! i = Some t -> proceed i t o st = Some st' -> tcp_inv st' (tr ++ completion st (Run i o)).
Proof.
  intros Hi Ei E.
  assert ((exists h p, t = Locking h p) \/ (exists h p rest, t = Writing h p rest) \/ (quiet t /\ forall h p, t <> Locking h p)) as Ht.
  { destruct t; eauto 7; right; right; by split. }
  destruct Ht as [(h & p & ->)|[(h & p & rest & ->)|[Hq Hl]]].
  - assert (completion st (Run i o) = []) as -> by (cbn; rewrite Ei; by destruct o). rewrite app_nil_r.
    destruct o; try discriminate E. cbn [proceed] in E. destruct (sockets st !! write_half h) as [sk|] eqn:Es; [|discriminate E]. cbn in E.
    destruct (write_locked sk) eqn:El; [discriminate E|]. apply Some_inj in E as <-. by apply inv_lock.
  - destruct rest as [|c rest]; destruct o as [| | |n| | | |]; try discriminate E; cbn [proceed] in E;
      (destruct (sockets st !! write_half h) as [sk|] eqn:Es; [|discriminate E]); cbn [mbind option_bind] in E; cbn [completion]; rewrite ?Ei, ?app_nil_r.
    + apply Some_inj in E as <-. by apply inv_done.
    + destruct (_ || _); [discriminate E|]. apply Some_inj in E as <-. by apply inv_took.
    + destruct (_ || _); [discriminate E|]. apply Some_inj in E as <-. by apply inv_took.
    + apply Some_inj in E as <-. by apply inv_failed with (c :: rest).
  - assert (completion st (Run i o) = []) as -> by (destruct o; try done; cbn; rewrite Ei; by destruct t). rewrite app_nil_r.
    by eapply proceed_quiet.
Qed.

Lemma tcp_step_inv st tr m st' : tcp_inv st tr -> step st m = Some st' -> tcp_inv st' (tr ++ completion st m).
Proof.
  intros Hi E. pose proof Hi as [Hc _ _ _ _]. destruct m as [addr|dest msg|dest msg| |i o| |]; cbn [step] in E; try (cbn [completion]; rewrite app_nil_r).
  - destruct (started st); [discriminate E|]. apply Some_inj in E as <-. apply inv_spawn; [done|..]; unfold connect; by destruct (decide _).
  - destruct (started st); [discriminate E|]. apply Some_inj in E as <-. apply inv_spawn; [done|..]; unfold transport_send; by destruct (decide _).
  - apply Some_inj in E as <-. destruct (look_up_ok st true dest msg Hc). by apply inv_spawn.
  - unfold start in E. destruct (_ || _); [discriminate E|]. apply Some_inj in E as <-.
    assert (tcp_inv (st <| started := true |> <| listener := false |>) tr) as Hi' by (by destruct Hi).
    apply (inv_spawns _ _ ((if listener st then [Accepting] else []) ++ [ListingPending]) Hi'); destruct (listener st); by repeat constructor.
  - destruct (tasks st !! i) as [t|] eqn:Ei; [|discriminate E]. by eapply proceed_inv.
  - destruct (receiver st); [|discriminate E]. apply Some_inj in E as <-. by apply inv_incoming.
  - apply Some_inj in E as <-. by destruct Hi.
Qed.

Lemma run_inv st tr ms st' : tcp_inv st tr -> run st ms = Some st' -> tcp_inv st' (tr ++ trace st ms).
Proof.
  revert st tr. induction ms as [|m ms IH]; intros st tr Hi E; cbn [run trace] in *.
  - apply Some_inj in E as <-. by rewrite app_nil_r.
  - destruct (step st m) as [st1|] eqn:Es; [|discriminate E]. rewrite app_assoc. apply IH; [|done]. by apply tcp_step_inv.
Qed.

(** A transport nobody has used. *)
Definition unused (st : Tcp) : Prop :=
  started st = false /\ connections st = ∅ /\ pending_reads st = ∅ /\ sockets st = [] /\ tasks st = [] /\ incoming st = [].

Lemma unused_inv st : unused st -> tcp_inv st [].
Proof.
  intros (_ & E1 & E2 & E3 & E4 & _). constructor; rewrite ?E1, ?E2, ?E3, ?E4; try done; apply map_Forall_empty.
Qed.

Lemma run_invariant st ms st' : unused st -> run st ms = Some st' -> tcp_inv st' (trace st ms).
Proof. intros Hu. apply (run_inv st []), unused_inv, Hu. Qed.

(** ** Theorems *)

(** The messages among the frames, in their order. *)
Definition messages (log : list (nat * Purpose)) : list str :=
  omap (fun e => match e.2 with ForSend _ _ msg => Some msg | _ => None end) log.

(** What the peer sees: messages after [k] and more CRLFs, and CRLFs at the end. *)
Fixpoint items (k : nat) (log : list (nat * Purpose)) : list (nat * str) * nat :=
  match log with
  | [] => ([], k)
  | (_, ForSend _ _ msg) :: log => let '(its, last) := items 0 log in ((k, msg) :: its, last)
  | (_, ForPong _ _) :: log => items (S k) log
  | (_, ForPing _) :: log => items (S (S k)) log
  end.

Lemma crlfs_S k x : crlfs (S k) ++ x = crlfs k ++ CRLF ++ x.
Proof. unfold crlfs. rewrite <- Nat.add_1_r, replicate_add, concat_app, <- app_assoc. done. Qed.

Lemma frames_items log k : crlfs k ++ frames log = stream (items k log).1 (items k log).2 /\ map snd (items k log).1 = messages log.
Proof.
  revert k. induction log as [|[i [b d m|more r|r]] log IH]; intros k; unfold frames; cbn [map concat items].
  - split; [apply app_nil_r|done].
  - destruct (IH 0%nat) as [E1 E2]. destruct (items 0 log) as [its last]. cbn in *. by rewrite <- E1, E2.
  - destruct (IH (S k)) as [E1 E2]. rewrite <- E1, E2. split; [|done]. by rewrite crlfs_S.
  - destruct (IH (S (S k))) as [E1 E2]. rewrite <- E1, E2. split; [|done]. by rewrite !crlfs_S.
Qed.

(** What was written on a connection in a run. *)
Definition written_on (st : Tcp) (ms : list Move) (s : nat) : list (nat * Purpose) := on s (trace st ms).

Section Run.
Variables (st0 : Tcp) (ms : list Move) (st : Tcp).
Hypotheses (Hu : unused st0) (Hrun : run st0 ms = Some st).

Lemma over_iff s sk i sender dest msg :
  sockets st !! s = Some sk ->
  (i, ForSend sender dest msg) ∈ written_on st0 ms s <-> tasks st !! i = Some (Sent sender dest msg s).
Proof.
  intros Es. pose proof (ti_socks _ _ (run_invariant _ _ _ Hu Hrun) s sk Es) as Ho.
  transitivity (views (tasks st) s i = Some (Over (ForSend sender dest msg))).
  - rewrite (so_over _ _ _ Ho). split; [by intros ?; split; [|intros []]|by intros [? _]].
  - unfold views. split.
    + intros (t & -> & E)%bind_Some. destruct t as [| | | | |h p rest| | | | | | | | |b' d' m' s'|]; try done; cbn in E; destruct (decide _); try done.
      injection E as -> -> ->. congruence.
    + intros ->. cbn. by rewrite decide_True.
Qed.

Lemma sent_to_peer s sk i sender dest msg : sockets st !! s = Some sk -> tasks st !! i = Some (Sent sender dest msg s) -> dest = peer sk.
Proof.
  intros Es Ei. destruct (Forall_lookup_1 _ _ _ _ (ti_tasks _ _ (run_invariant _ _ _ Hu Hrun)) Ei) as [l E].
  rewrite (ends_lookup _ _ _ Es) in E. congruence.
Qed.

(** C13: frames on a connection.  While no write on it failed, the bytes written on a connection are
    whole frames one after the other, in the order their tasks ended, and at most a part of one
    more, whose task is still writing: concurrent senders, answers to pings and pings never mix.
    The messages among the frames are exactly those of the sends that returned after writing on
    this connection, each once, and their destination is the peer of the connection. *)
Theorem tcp_writes_whole s sk :
  sockets st !! s = Some sk -> broken sk = false ->
  (exists part, wire sk = frames (written_on st0 ms s) ++ part /\
    (part = [] \/ exists i h p rest, tasks st !! i = Some (Writing h p rest) /\ write_half h = s /\ frame p = part ++ rest)) /\
  (forall i sender dest msg, (i, ForSend sender dest msg) ∈ written_on st0 ms s <-> tasks st !! i = Some (Sent sender dest msg s)) /\
  (forall i sender dest msg, tasks st !! i = Some (Sent sender dest msg s) -> dest = peer sk) /\
  NoDup (senders (written_on st0 ms s)).
Proof.
  intros Es Hb. pose proof (ti_socks _ _ (run_invariant _ _ _ Hu Hrun) s sk Es) as Ho. split_and!.
  - destruct (write_locked sk) eqn:El.
    + destruct (so_held _ _ _ Ho El) as (i & p & rest & Hv). destruct (so_busy _ _ _ Ho Hb i p rest Hv) as (part & E1 & E2).
      exists part. split; [done|]. right. apply bind_Some in Hv as (t & Ei & Ev).
      destruct t as [| | | | |h p' rest'| | | | | | | | |b' d' m' s'|]; try done; cbn in Ev; destruct (decide _); try done.
      injection Ev as -> ->. by exists i, h, p, rest.
    + exists []. rewrite app_nil_r. split; [by apply (so_wire _ _ _ Ho)|by left].
  - intros. by eapply over_iff.
  - intros i sender dest msg. by eapply sent_to_peer.
  - apply (so_nodup _ _ _ Ho).
Qed.

(** C14: a connection is a channel.  When nobody is writing on a connection and no write on it failed,
    and the messages sent on it can be framed, a peer that reads it with the read loop gets exactly
    the messages sent on it, in the order the sends returned, however the stream is cut into reads
    and whatever pings and answers are in between. *)
Theorem tcp_channel s sk cfg evs room :
  sockets st !! s = Some sk -> broken sk = false -> write_locked sk = false ->
  (forall i sender dest msg, tasks st !! i = Some (Sent sender dest msg s) -> framed msg) ->
  Forall event_ok evs -> arrived evs = wire sk -> (length (messages (written_on st0 ms s)) <= room)%nat ->
  exists sent, read_loop cfg true room (evs ++ [PeerClosed]) [] = (messages (written_on st0 ms s), EndOfStream, sent).
Proof.
  intros Es Hb Hl Hf He Ea Hr. pose proof (ti_socks _ _ (run_invariant _ _ _ Hu Hrun) s sk Es) as Ho.
  destruct (frames_items (written_on st0 ms s) 0) as [E1 E2]. set (its := (items 0 (written_on st0 ms s)).1) in *.
  destruct (read_items cfg its (items 0 (written_on st0 ms s)).2 evs room []) as [sent E].
  - apply Forall_forall. intros [k m] Hm. assert (m ∈ messages (written_on st0 ms s)) as Hin by (rewrite <- E2; apply (list_elem_of_fmap_2 snd _ _ Hm)).
    unfold messages in Hin. apply list_elem_of_omap in Hin as ([i [b d m'| |]] & Hin & Em); try done. cbn in Em. injection Em as ->.
    cbn. eapply Hf. by eapply over_iff.
  - done.
  - rewrite <- E1. cbn [app]. rewrite Ea. by apply (so_wire _ _ _ Ho).
  - exists sent. rewrite E, E2, take_ge by done. rewrite lookup_ge_None_2; [done|]. rewrite <- (length_map snd), E2. done.
Qed.

(** *** Progress *)

(** The rest of a frame is taken in one go. *)
Definition finishing (i : nat) (rest : str) : list Move :=
  (match rest with [] => [] | _ => [Run i (Took (length rest))] end) ++ [Run i Go].

Definition writing_move (own : list nat) (m : Move) : Prop :=
  match m with Run i Go | Run i (Took _) => i ∈ own | _ => False end.

Lemma finishing_moves i rest own : i ∈ own -> Forall (writing_move own) (finishing i rest) /\ (length (finishing i rest) <= 2)%nat.
Proof. intros Hi. unfold finishing. destruct rest; split; cbn; try lia; by repeat constructor. Qed.

Lemma finish_step x i h p sk :
  tasks x !! i = Some (Writing h p []) -> sockets x !! write_half h = Some sk ->
  step x (Run i Go) = Some (set_task i (written h p) (set_socket (write_half h) (sk <| write_locked := false |>) x)).
Proof. intros E1 E2. cbn [step]. rewrite E1. cbn [mbind option_bind proceed]. by rewrite E2. Qed.

Lemma take_step x i h p c rest sk :
  tasks x !! i = Some (Writing h p (c :: rest)) -> sockets x !! write_half h = Some sk -> broken sk = false ->
  step x (Run i (Took (length (c :: rest)))) =
  Some (set_task i (Writing h p []) (set_socket (write_half h) (sk <| wire := wire sk ++ c :: rest |>) x)).
Proof.
  intros E1 E2 E3. cbn [step]. rewrite E1. cbn [mbind option_bind proceed]. rewrite E2. cbn [mbind option_bind]. rewrite E3.
  rewrite Nat.leb_refl, drop_all, firstn_all. done.
Qed.

Lemma lock_step x i h p sk :
  tasks x !! i = Some (Locking h p) -> sockets x !! write_half h = Some sk -> write_locked sk = false ->
  step x (Run i Go) = Some (set_task i (Writing h p (frame p)) (set_socket (write_half h) (sk <| write_locked := true |>) x)).
Proof. intros E1 E2 E3. cbn [step]. rewrite E1. cbn [mbind option_bind proceed]. rewrite E2. cbn. by rewrite E3. Qed.

Lemma run_finishing x i h p rest sk :
  tasks x !! i = Some (Writing h p rest) -> sockets x !! write_half h = Some sk -> broken sk = false ->
  exists x' sk', run x (finishing i rest) = Some x' /\ tasks x' = <[i := written h p]> (tasks x) /\
    sockets x' !! write_half h = Some sk' /\ broken sk' = false /\ write_locked sk' = false.
Proof.
  intros E1 E2 E3. apply lookup_lt_Some in E1 as Hi. apply lookup_lt_Some in E2 as Hs. unfold finishing. destruct rest as [|c rest].
  - cbn [app run]. rewrite (finish_step _ _ _ _ _ E1 E2). do 2 eexists. split; [done|]. split; [done|]. cbn. by rewrite list_lookup_insert_eq.
  - cbn [app run]. rewrite (take_step _ _ _ _ _ _ _ E1 E2 E3). cbn [mbind option_bind].
    erewrite finish_step; [|by apply list_lookup_insert_eq|by apply list_lookup_insert_eq].
    do 2 eexists. split; [done|]. cbn. rewrite !list_insert_insert_eq, list_lookup_insert_eq by done. done.
Qed.

Lemma run_app x a b y : run x a = Some y -> run x (a ++ b) = run y b.
Proof.
  revert x. induction a as [|m a IH]; intros x E; cbn [app run] in *; [by apply Some_inj in E as ->|].
  destruct (step x m) as [x'|]; [|done]. by apply IH.
Qed.

Lemma run_locking x i h p sk :
  tasks x !! i = Some (Locking h p) -> sockets x !! write_half h = Some sk -> broken sk = false -> write_locked sk = false ->
  exists ms' x', run x ms' = Some x' /\ Forall (writing_move [i]) ms' /\ (length ms' <= 3)%nat /\ tasks x' !! i = Some (written h p).
Proof.
  intros E1 E2 E3 E4. apply lookup_lt_Some in E1 as Hi. apply lookup_lt_Some in E2 as Hs. pose proof (lock_step _ _ _ _ _ E1 E2 E4) as El.
  set (x1 := set_task i (Writing h p (frame p)) _) in El.
  destruct (run_finishing x1 i h p (frame p) (sk <| write_locked := true |>)) as (x' & sk' & Er & Et & _); try done;
    [by apply list_lookup_insert_eq|by apply list_lookup_insert_eq|].
  destruct (finishing_moves i (frame p) [i]) as [Hm Hl]; [by left|].
  exists (Run i Go :: finishing i (frame p)), x'. cbn [run length]. rewrite El. split_and!; [done|constructor; [by left|done]|lia|].
  rewrite Et. apply list_lookup_insert_eq. cbn. by rewrite length_insert.
Qed.

(** A write waits for no input.  From every reachable state a task that writes on a connection,
    or waits for its write half, a sender or the read loop with its answers and pings, gets it
    done in at most five moves of itself and of the one other task that may be in the middle of a
    frame, as soon as the socket takes bytes: nothing has to arrive from the peer, whatever the
    read loop of the connection is waiting for. *)
Theorem tcp_write_needs_no_input i h p sk :
  (tasks st !! i = Some (Locking h p) \/ exists rest, tasks st !! i = Some (Writing h p rest)) ->
  sockets st !! write_half h = Some sk -> broken sk = false ->
  exists k ms' st', run st ms' = Some st' /\ Forall (writing_move [i; k]) ms' /\ (length ms' <= 5)%nat /\
    tasks st' !! i = Some (written h p).
Proof.
  intros Hi Es Hb. pose proof (ti_socks _ _ (run_invariant _ _ _ Hu Hrun) _ sk Es) as Ho.
  assert (forall k ms', Forall (writing_move [i]) ms' -> Forall (writing_move [i; k]) ms') as Hw.
  { intros k ms' Hf. eapply Forall_impl; [exact Hf|]. intros [| | | |j []| |]; cbn; try done; set_solver. }
  destruct Hi as [Ei|[rest Ei]].
  - destruct (write_locked sk) eqn:El.
    + destruct (so_held _ _ _ Ho El) as (k & q & rest & Hv). apply bind_Some in Hv as (t & Ek & Ev).
      destruct t as [| | | | |h' q' rest'| | | | | | | | |b' d' m' s'|]; try done; cbn in Ev; destruct (decide _) as [Eh|]; try done. rewrite <- Eh in *.
      destruct (run_finishing _ _ _ _ _ _ Ek Es Hb) as (x & sk' & Er & Et & Es' & Hb' & Hl').
      assert (k <> i) as Hki by congruence. assert (tasks x !! i = Some (Locking h p)) as Ei' by (by rewrite Et, list_lookup_insert_ne).
      rewrite Eh in Es'. destruct (run_locking _ _ _ _ _ Ei' Es' Hb' Hl') as (ms' & st' & Er' & Hm & Hn & Ef).
      destruct (finishing_moves k rest' [i; k]) as [Hm' Hn']; [set_solver|].
      exists k, (finishing k rest' ++ ms'), st'. rewrite (run_app _ _ _ _ Er), length_app. split_and!; [done| |lia|done].
      apply Forall_app. auto.
    + destruct (run_locking _ _ _ _ _ Ei Es Hb El) as (ms' & st' & Er & Hm & Hn & Ef). exists i, ms', st'. split_and!; [done|by apply Hw|lia|done].
  - destruct (run_finishing _ _ _ _ _ _ Ei Es Hb) as (x & sk' & Er & Et & _). destruct (finishing_moves i rest [i]) as [Hm Hn]; [by left|].
    exists i, (finishing i rest), x. split_and!; [done|by apply Hw|lia|]. rewrite Et. apply list_lookup_insert_eq. by eapply lookup_lt_Some.
Qed.
End Run.
End Tcp.

#[export] Instance socket_settable {Addr : Type} : Settable (Socket (Addr := Addr)) := socket_eta.
#[export] Instance tcp_settable {Addr : Type} `{Countable Addr} : Settable (Tcp (Addr := Addr)) := tcp_eta.

(** ** Samples

    Addresses are numbers; a server [1] with the peers [7] and [8]. *)

Definition sample_tcp : Tcp (Addr := nat) := bind.

(** A connection is accepted from [7]; its read loop is task 2. *)
Definition sample_accepted : list (Move (Addr := nat)) := [Start; Run 0 (Incoming 7 1); Run 0 Go].

(** Two senders and the answer to a ping on one connection; every write takes part of a frame. *)
Definition sample_interleaved : list (Move (Addr := nat)) :=
  sample_accepted ++
  [SenderSend 7 (sample_message #"hello"); Run 2 (Got (Arrived KEEPALIVE_PING)); SenderSend 7 (sample_message []);
   Run 3 Go; Run 3 (Took 5); Run 3 (Took 44); Run 3 Go; Run 2 Go; Run 2 (Took 1); Run 2 (Took 1); Run 2 Go; Run 4 Go; Run 4 (Took 44)].

Lemma unused_sample : unused sample_tcp.
Proof. done. Qed.

Lemma tcp_writes_whole_witness :
  exists st sk part, run sample_tcp sample_interleaved = Some st /\ sockets st !! 0%nat = Some sk /\
    wire sk = frames (written_on sample_tcp sample_interleaved 0) ++ part /\ part = sample_message [].
Proof.
  compute_some (run sample_tcp sample_interleaved) as st Er.
  compute_some (run sample_tcp sample_interleaved ≫= fun st => sockets st !! 0%nat) as sk Es.
  assert (sockets st !! 0%nat = Some sk) as Es' by (rewrite Er in Es; exact Es).
  assert (broken sk = false) as Hb by (vm_compute in Es; injection Es as <-; reflexivity).
  destruct (tcp_writes_whole sample_tcp sample_interleaved st unused_sample Er 0 sk Es' Hb) as ((part & Ew & _) & _).
  exists st, sk, part. split; [reflexivity|]. split; [exact Es'|]. split; [exact Ew|].
  vm_compute in Es. injection Es as <-. vm_compute in Ew. cbn in Ew. injection Ew as <-. vm_compute. reflexivity.
Defined.

Definition sample_finished : list (Move (Addr := nat)) := sample_interleaved ++ [Run 4 Go].

Definition sample_wire : str := sample_message #"hello" ++ CRLF ++ sample_message [].

Lemma tcp_channel_witness :
  exists sent, read_loop keepalive_enabled true 2 ([Arrived (take 20 sample_wire); PingDue; Arrived (drop 20 sample_wire)] ++ [PeerClosed]) [] =
    ([sample_message #"hello"; sample_message []], EndOfStream, sent).
Proof.
  compute_some (run sample_tcp sample_finished) as st Er. pose proof Er as Ec. vm_compute in Ec. apply Some_inj in Ec.
  assert (sockets st !! 0%nat = Some (mkSocket 7%nat 1%nat sample_wire false false)) as Es by (rewrite <- Ec; vm_compute; reflexivity).
  refine (tcp_channel sample_tcp sample_finished st unused_sample Er 0 _ keepalive_enabled _ 2 Es eq_refl eq_refl _ _ _ _).
  - intros i sender dest msg Ei. rewrite <- Ec in Ei. destruct sample_framed as [H1 H2].
    destruct i as [|[|[|[|[|i]]]]]; try discriminate Ei; injection Ei as <- <- <-; [exact H1|exact H2].
  - assert (forall bytes, (Z.of_nat (length bytes) <=? 4096)%Z = true -> event_ok (Arrived bytes)) as H by (intros; cbn; lia).
    constructor; [apply H; vm_compute; reflexivity|]. constructor; [exact I|]. constructor; [apply H; vm_compute; reflexivity|constructor].
  - vm_compute. reflexivity.
  - vm_compute. auto.
Defined.

(** The read loop waits for the peer, and the message is written. *)
Lemma tcp_write_needs_no_input_witness :
  exists st h p, run sample_tcp (sample_accepted ++ [SenderSend 7 #"hi"]) = Some st /\ tasks st !! 3%nat = Some (Locking h p) /\ frame p = #"hi" /\
  exists k ms' st', run st ms' = Some st' /\ Forall (writing_move [3%nat; k]) ms' /\ (length ms' <= 5)%nat /\
    tasks st' !! 3%nat = Some (written h p).
Proof.
  compute_some (run sample_tcp (sample_accepted ++ [SenderSend 7 #"hi"])) as st Er. pose proof Er as Ec. vm_compute in Ec. apply Some_inj in Ec.
  exists st, (mkHandle 0 1%nat), (ForSend true 7%nat #"hi").
  assert (tasks st !! 3%nat = Some (Locking (mkHandle 0 1%nat) (ForSend true 7%nat #"hi"))) as Ei by (rewrite <- Ec; reflexivity).
  split; [reflexivity|]. split; [exact Ei|]. split; [reflexivity|].
  refine (tcp_write_needs_no_input sample_tcp _ st unused_sample Er 3 _ _ (mkSocket 7%nat 1%nat [] false false) (or_introl Ei) _ eq_refl).
  rewrite <- Ec. reflexivity.
Defined.

(** Two sends that connect to the same peer at the same time leave a table whose read half and
    write half are of different sockets: what arrives on the socket that is written is not read. *)
Example racing_connects :
  exists st, run (new_client (fun _ => 0%Z) 1%nat)
    [Send 7%nat #"a"; Send 7%nat #"b"; Run 0 (Opened 1%nat); Run 1 (Opened 2%nat); Run 0 Go; Run 1 Go; Run 1 Go; Run 0 Go] = Some st /\
  write_half <$> (connections st !! 7%nat) = Some 1%nat /\ pending_reads st !! 7%nat = Some 0%nat.
Proof. compute_some (run (new_client (fun _ => 0%Z) 1%nat)
    [Send 7%nat #"a"; Send 7%nat #"b"; Run 0 (Opened 1%nat); Run 1 (Opened 2%nat); Run 0 Go; Run 1 Go; Run 1 Go; Run 0 Go]) as st Er.
  exists st. split; [reflexivity|]. vm_compute in Er. apply Some_inj in Er as <-. split; reflexivity.
Qed.

(** A peer that connects again from its port before the read loop of its old connection has gone
    through the table: the old loop removes the entry of the new connection, which is alive and
    read, and a message to the peer is refused. *)
Example reaccepted_entry_removed :
  let ms := sample_accepted ++ [Run 2 (Got PeerClosed); Run 0 (Incoming 7%nat 1%nat); Run 0 Go; Run 2 Go; SenderSend 7%nat #"hi"] in
  exists st, run sample_tcp ms = Some st /\ tasks st !! 3%nat = Some (Awaiting (mkHandle 1 1%nat) (mkRead 1 7%nat [])) /\
    tasks st !! 4%nat = Some (Finished (Err ConnectionClosed)).
Proof.
  intros ms. compute_some (run sample_tcp ms) as st Er. exists st. split; [reflexivity|]. vm_compute in Er. apply Some_inj in Er as <-. split; reflexivity.
Qed.
