(* ===== verification/TcpReader.v ===== *)
(** * The read loop as a task ([transport/tcp.rs])

    [TcpConnections] runs the read loop of a connection move by move, with its lock and its
    channel; [StreamFraming.read_loop] is the same loop over a list of reads.  Here the task is
    shown to implement the function. *)

From S2P Require Import Prelude RStr StreamFraming TcpConnections.

Section Reader.
Context {Addr : Type} `{Countable Addr}.
Implicit Types (st : Tcp (Addr := Addr)) (t : Task (Addr := Addr)).

(** ** The function, without what it sends *)

Definition quietly (k : KeepAliveConfig) (evs : list ReadEvent) (buf : str) : StreamFraming.Outcome * str * list ReadEvent :=
  let '(o, buf, _, evs) := read_message k true evs buf in (o, buf, evs).

Definition loop (k : KeepAliveConfig) (room : nat) (evs : list ReadEvent) (buf : str) : list str * StreamFraming.Outcome :=
  (read_loop k true room evs buf).1.

(** A buffer without a leading CRLF. *)
Definition stripped (buf : str) : Prop := strip_leading_keepalives buf = (0%nat, buf).

Lemma strip_crlfs_again buf n b : strip_crlfs buf = (n, b) -> strip_crlfs b = (0%nat, b).
Proof.
  revert n b. induction buf as [buf IH] using (induction_ltof1 _ (@length ascii)); unfold ltof in IH. intros n b.
  destruct buf as [|x [|y r]]; cbn [strip_crlfs]; [by intros [= <- <-]|by intros [= <- <-]|].
  destruct (bool_decide (x = CR) && bool_decide (y = LF)) eqn:E.
  - destruct (strip_crlfs r) as [n' b'] eqn:Er. intros [= <- <-]. eapply IH; [|exact Er]. cbn. lia.
  - intros [= <- <-]. cbn [strip_crlfs]. by rewrite E.
Qed.

Lemma strip_again buf n b : strip_leading_keepalives buf = (n, b) -> stripped b.
Proof.
  unfold stripped, strip_leading_keepalives. destruct (strip_crlfs buf) as [c b'] eqn:E. intros [= <- <-].
  by rewrite (strip_crlfs_again _ _ _ E).
Qed.

Lemma quietly_strip k evs buf n b : strip_leading_keepalives buf = (n, b) -> quietly k evs buf = quietly k evs b.
Proof.
  intros E. pose proof (strip_again _ _ _ E) as Eb. unfold quietly.
  destruct evs as [|e evs]; cbn [read_message]; rewrite E, Eb, !andb_false_r;
    (destruct (try_parse_message_from_buf b) as [[m b']|]; [done|]); [done|].
  destruct e as [bytes| | |]; try done; cbn [negb].
  - destruct (MAX_TCP_SIZE <? _)%nat; [done|]. by destruct (read_message _ _ _ _) as [[[? ?] ?] ?].
  - destruct (read_message _ _ _ _) as [[[? ?] ?] ?]. by destruct (send_pings k).
Qed.

Lemma quietly_parsed k evs b m b' : stripped b -> try_parse_message_from_buf b = Some (m, b') -> quietly k evs b = (Message m, b', evs).
Proof. intros Eb E. unfold quietly. destruct evs; cbn [read_message]; by rewrite Eb, andb_false_r, E. Qed.

Lemma quietly_waits k e evs b : stripped b -> try_parse_message_from_buf b = None ->
  quietly k (e :: evs) b =
  match e with
  | Arrived bytes => if (MAX_TCP_SIZE <? length (b ++ bytes))%nat then (ReadError, b ++ bytes, evs) else quietly k evs (b ++ bytes)
  | PeerClosed => (EndOfStream, b, evs)
  | ReadFailed => (ReadError, b, evs)
  | PingDue => quietly k evs b
  end.
Proof.
  intros Eb E. unfold quietly. cbn [read_message]. rewrite Eb, andb_false_r, E. destruct e as [bytes| | |]; try done; cbn [negb].
  - destruct (MAX_TCP_SIZE <? _)%nat; [done|]. by destruct (read_message _ _ _ _) as [[[? ?] ?] ?].
  - destruct (read_message _ _ _ _) as [[[? ?] ?] ?]. by destruct (send_pings k).
Qed.

Lemma quietly_blocked k b : stripped b -> try_parse_message_from_buf b = None -> quietly k [] b = (Blocked, b, []).
Proof. intros Eb E. unfold quietly. cbn [read_message]. by rewrite Eb, andb_false_r, E. Qed.

Lemma loop_quietly k room evs buf :
  loop k room evs buf =
  match quietly k evs buf with
  | (Message m, buf, evs) =>
      match room with O => ([], Message m) | S room => (m :: (loop k room evs buf).1, (loop k room evs buf).2) end
  | (o, _, _) => ([], o)
  end.
Proof.
  unfold loop, quietly. destruct room; cbn [read_loop]; destruct (read_message k true evs buf) as [[[[] ?] ?] ?]; try done.
  by destruct (read_loop _ _ _ _ _) as [[? ?] ?].
Qed.

(** ** What a task of the read loop has still to do *)

Definition ends_with (f : nat -> list ReadEvent -> list str * StreamFraming.Outcome) : Prop :=
  exists o, (o = EndOfStream \/ o = ReadError) /\ forall room evs, f room evs = ([], o).

Definition residual (k : KeepAliveConfig) (t : Task (Addr := Addr)) (f : nat -> list ReadEvent -> list str * StreamFraming.Outcome) : Prop :=
  match t with
  | Awaiting _ r =>
      stripped (read_buf r) /\ try_parse_message_from_buf (read_buf r) = None /\ forall room evs, f room evs = loop k room evs (read_buf r)
  | Delivering _ r msg =>
      forall room evs, f room evs =
      match room with O => ([], Message msg) | S room => (msg :: (loop k room evs (read_buf r)).1, (loop k room evs (read_buf r)).2) end
  | Locking _ (ForPong _ r) | Writing _ (ForPong _ r) _ => stripped (read_buf r) /\ forall room evs, f room evs = loop k room evs (read_buf r)
  | Locking _ (ForPing r) | Writing _ (ForPing r) _ => forall room evs, f room evs = loop k room evs (read_buf r)
  | Removing _ | Finished _ => ends_with f
  | _ => False
  end.

Lemma residual_parsing k h r f :
  stripped (read_buf r) -> (forall room evs, f room evs = loop k room evs (read_buf r)) -> residual k (parsing h r) f.
Proof.
  intros Hs Hf. unfold parsing. destruct (try_parse_message_from_buf (read_buf r)) as [[m b]|] eqn:E; [|done].
  cbn. intros room evs. by rewrite Hf, loop_quietly, (quietly_parsed _ _ _ _ _ Hs E).
Qed.

Lemma residual_reading k h r f : (forall room evs, f room evs = loop k room evs (read_buf r)) -> residual k (reading h r) f.
Proof.
  intros Hf. unfold reading. destruct (strip_leading_keepalives (read_buf r)) as [n b] eqn:E.
  assert (forall room evs, f room evs = loop k room evs b) as Hb.
  { intros room evs. rewrite Hf, !loop_quietly. by rewrite (quietly_strip _ _ _ _ _ E). }
  pose proof (strip_again _ _ _ E). destruct n; [by apply residual_parsing|done].
Qed.

(** ** One move of the task *)

(** What a move of task [i] reads and delivers. *)
Definition got (i : nat) (m : Move (Addr := Addr)) : list ReadEvent :=
  match m with Run j (Got e) => if decide (j = i) then [e] else [] | _ => [] end.

Definition delivered (i : nat) (st : Tcp (Addr := Addr)) (m : Move (Addr := Addr)) : list str :=
  match m with
  | Run j Go => if decide (j = i) then match tasks st !! i with Some (Delivering _ _ msg) => [msg] | _ => [] end else []
  | _ => []
  end.

(** [f'] is what is left of [f] after the reads [g] and the deliveries [d]. *)
Definition rest_of (f f' : nat -> list ReadEvent -> list str * StreamFraming.Outcome) (g : list ReadEvent) (d : list str) : Prop :=
  forall room evs, f (length d + room)%nat (g ++ evs) = (d ++ (f' room evs).1, (f' room evs).2).

Lemma rest_of_nothing f : rest_of f f [] [].
Proof. intros room evs. cbn. by destruct (f room evs). Qed.

Lemma rest_of_trans f f' f'' g d g' d' : rest_of f f' g d -> rest_of f' f'' g' d' -> rest_of f f'' (g ++ g') (d ++ d').
Proof.
  intros H1 H2 room evs. rewrite length_app, <- Nat.add_assoc, <- app_assoc, H1, H2. cbn. by rewrite app_assoc.
Qed.

(** A read of the socket is a read of the function. *)
Lemma after_read_rest k h r f e t :
  residual k (Awaiting h r) f -> after_read k h r e = Some t -> exists f', residual k t f' /\ rest_of f f' [e] [].
Proof.
  intros (Hs & Hn & Hf) E.
  assert (forall room evs, f room (e :: evs) = match quietly k (e :: evs) (read_buf r) with
    | (Message m, b, evs) => match room with O => ([], Message m) | S room => (m :: (loop k room evs b).1, (loop k room evs b).2) end
    | (o, _, _) => ([], o) end) as Hl by (intros; by rewrite Hf, loop_quietly).
  destruct e as [bytes| | |]; cbn [after_read] in E.
  - destruct (_ && _); [|discriminate E]. apply Some_inj in E as <-. destruct (MAX_TCP_SIZE <? _)%nat eqn:El.
    + exists (fun _ _ => ([], ReadError)). split; [exists ReadError; auto|]. intros room evs. cbn [length app Nat.add].
      by rewrite Hl, (quietly_waits _ _ _ _ Hs Hn), El.
    + exists (fun room evs => loop k room evs (read_buf r ++ bytes)). split; [by apply residual_reading|]. intros room evs. cbn [length app Nat.add fst snd].
      rewrite Hl, (quietly_waits _ _ _ _ Hs Hn), El, <- loop_quietly. by destruct (loop _ _ _ _).
  - apply Some_inj in E as <-. exists (fun _ _ => ([], EndOfStream)). split; [exists EndOfStream; auto|].
    intros room evs. cbn [length app Nat.add]. by rewrite Hl, (quietly_waits _ _ _ _ Hs Hn).
  - apply Some_inj in E as <-. exists (fun _ _ => ([], ReadError)). split; [exists ReadError; auto|].
    intros room evs. cbn [length app Nat.add]. by rewrite Hl, (quietly_waits _ _ _ _ Hs Hn).
  - destruct (send_pings k); [|discriminate E]. apply Some_inj in E as <-. exists (fun room evs => loop k room evs (read_buf r)).
    split; [done|]. intros room evs. cbn [length app Nat.add]. rewrite Hl, (quietly_waits _ _ _ _ Hs Hn), <- loop_quietly. by destruct (loop _ _ _ _).
Qed.

Lemma proceed_rest st i t o st' f :
  tasks st !! i = Some t -> residual (keepalive st) t f -> proceed i t o st = Some st' -> receiver st = true -> o <> WriteFailed ->
  exists t' f', tasks st' !! i = Some t' /\ residual (keepalive st) t' f' /\ rest_of f f' (got i (Run i o)) (delivered i st (Run i o)).
Proof.
  intros Ei Hr E Hv Ho. apply lookup_lt_Some in Ei as Hi. unfold got, delivered. rewrite !decide_True, Ei by done.
  assert (forall f', rest_of f f' [] [] -> forall t' st1, residual (keepalive st) t' f' -> length (tasks st1) = length (tasks st) ->
    Some (set_task i t' st1) = Some st' ->
    exists t' f', tasks st' !! i = Some t' /\ residual (keepalive st) t' f' /\ rest_of f f' [] []) as Hset.
  { intros f' Hf t' st1 Hk El Es. apply Some_inj in Es as <-. exists t', f'. split; [|done]. apply list_lookup_insert_eq. lia. }
  pose proof (rest_of_nothing f) as Hf.
  destruct t as [addr after|addr sock after|addr sock after|dest msg|h p|h p rest|h r|h r msg|addr| |todo|todo addr sock| |remote sock| |];
    try done; try destruct rest as [|c rest]; destruct o as [|os_local| |n| |e|a|remote' local']; try done; cbn [proceed] in E.
  - destruct (sockets st !! _) as [sk|]; [|discriminate E]. cbn [mbind option_bind] in E. destruct (write_locked sk); [discriminate E|].
    by eapply (Hset f); [|destruct p| |exact E].
  - destruct (sockets st !! _) as [sk|]; [|discriminate E].
    eapply (Hset f); [done| | |exact E]; [|done]. destruct p as [|[|more] r|r]; [done|by apply residual_parsing; destruct Hr|exact Hr|by apply residual_reading].
  - destruct (sockets st !! _) as [sk|]; [|discriminate E]. cbn [mbind option_bind] in E. destruct (_ || _); [discriminate E|].
    by eapply (Hset f); [|destruct p| |exact E].
  - destruct (sockets st !! _) as [sk|]; [|discriminate E]. cbn [mbind option_bind] in E. destruct (_ || _); [discriminate E|].
    by eapply (Hset f); [|destruct p| |exact E].
  - destruct (after_read (keepalive st) h r e) as [t|] eqn:Ea; [|discriminate E]. apply Some_inj in E as <-.
    destruct (after_read_rest _ _ _ _ _ _ Hr Ea) as (f' & Hk & Hf'). exists t, f'. split; [by apply list_lookup_insert_eq|]. by rewrite decide_True by done.
  - rewrite Hv in E. cbn [negb] in E. destruct (Nat.leb _ _); [discriminate E|]. apply Some_inj in E as <-.
    exists (reading h r), (fun room evs => loop (keepalive st) room evs (read_buf r)). split; [by apply list_lookup_insert_eq|].
    split; [by apply residual_reading|]. intros room evs. by rewrite (Hr _ _).
  - eapply (Hset f Hf (Finished (Ok tt))); [exact Hr| |exact E]. done.
Qed.

(** ** Runs *)

(** The reads and the deliveries of task [i] in a run. *)
Fixpoint history (i : nat) st (ms : list (Move (Addr := Addr))) : list ReadEvent * list str :=
  match ms with
  | [] => ([], [])
  | m :: ms =>
      match step st m with
      | Some st' => (got i m ++ (history i st' ms).1, delivered i st m ++ (history i st' ms).2)
      | None => ([], [])
      end
  end.

(** *** The other tasks *)

Lemma proceed_frame j t o st st' : proceed j t o st = Some st' ->
  keepalive st' = keepalive st /\ receiver st' = receiver st /\
  forall i x, i <> j -> tasks st !! i = Some x -> tasks st' !! i = Some x.
Proof.
  intros E.
  destruct t as [| | | | |? ? rest| | | | | | | | | |]; try destruct rest; destruct o; try discriminate E; cbn [proceed] in E;
    repeat match type of E with
      | mbind _ ?o = _ => destruct o; [cbn [mbind option_bind] in E|discriminate E]
      | (if ?b then _ else _) = _ => destruct b; try discriminate E
      | match ?o with Some _ => _ | None => _ end = _ => destruct o; try discriminate E
      end;
    apply Some_inj in E as <-; (split; [reflexivity|]); (split; [reflexivity|]); intros i x Hi Ei;
    cbn [spawn set_task set_socket open_socket tasks set]; try exact Ei;
    try (rewrite lookup_app_l by (rewrite ?length_insert; by eapply lookup_lt_Some)); by rewrite list_lookup_insert_ne.
Qed.

Lemma step_frame st m st' : step st m = Some st' ->
  keepalive st' = keepalive st /\ (receiver st' = true -> receiver st = true) /\
  forall i x, (forall o, m <> Run i o) -> tasks st !! i = Some x -> tasks st' !! i = Some x.
Proof.
  intros E. destruct m as [addr|dest msg|dest msg| |j o| |]; cbn [step] in E.
  - destruct (started st); [discriminate E|]. apply Some_inj in E as <-. split_and!; try done. intros. by apply lookup_app_l_Some.
  - destruct (started st); [discriminate E|]. apply Some_inj in E as <-. split_and!; try done. intros. by apply lookup_app_l_Some.
  - apply Some_inj in E as <-. split_and!; try done. intros. by apply lookup_app_l_Some.
  - unfold start in E. destruct (_ || _); [discriminate E|]. apply Some_inj in E as <-. split_and!; try done. intros. by apply lookup_app_l_Some.
  - destruct (tasks st !! j) as [t|] eqn:Ej; [|discriminate E]. destruct (proceed_frame _ _ _ _ _ E) as (H1 & H2 & H3).
    split_and!; [done|by rewrite H2|]. intros i x Hn. apply H3. intros ->. by destruct (Hn o).
  - destruct (receiver st); [|discriminate E]. by apply Some_inj in E as <-.
  - apply Some_inj in E as <-. split_and!; done.
Qed.

Lemma run_receiver st ms st' : run st ms = Some st' -> receiver st' = true -> receiver st = true.
Proof.
  revert st. induction ms as [|m ms IH]; intros st E; cbn [run] in E; [by apply Some_inj in E as ->|].
  destruct (step st m) as [st1|] eqn:Es; [|discriminate E]. intros Hv. by eapply step_frame, IH.
Qed.

Lemma not_own i (m : Move (Addr := Addr)) st : (forall o, m <> Run i o) -> got i m = [] /\ delivered i st m = [].
Proof.
  intros Hn. destruct m as [| | | |j o| |]; try done. assert (j <> i) by (intros ->; by destruct (Hn o)).
  by destruct o; cbn; rewrite ?decide_False by done.
Qed.

Lemma own_move i (m : Move (Addr := Addr)) : (exists o, m = Run i o) \/ forall o, m <> Run i o.
Proof. destruct m as [| | | |j o| |]; try (by right). destruct (decide (j = i)) as [->|]; [left; eauto|right; congruence]. Qed.

(** A run of the task and the others around it is a run of the function. *)
Lemma run_rest i ms st t f st' :
  tasks st !! i = Some t -> residual (keepalive st) t f -> run st ms = Some st' -> receiver st' = true ->
  Forall (fun m => m <> Run i WriteFailed) ms ->
  exists t' f', tasks st' !! i = Some t' /\ residual (keepalive st) t' f' /\ rest_of f f' (history i st ms).1 (history i st ms).2.
Proof.
  revert st t f. induction ms as [|m ms IH]; intros st t f Ei Hr E Hv Hf; cbn [run history] in *.
  { apply Some_inj in E as <-. exists t, f. split_and!; [done..|apply rest_of_nothing]. }
  apply Forall_cons in Hf as [Hm Hf]. destruct (step st m) as [st1|] eqn:Es; [|discriminate E]. cbn [mbind option_bind fst snd] in *.
  pose proof (run_receiver _ _ _ E Hv) as Hv1. destruct (step_frame _ _ _ Es) as (Hk & Hv0 & Ht).
  destruct (own_move i m) as [[o ->]|Hn].
  - pose proof Es as Ep. cbn [step] in Ep. rewrite Ei in Ep. cbn [mbind option_bind] in Ep.
    destruct (proceed_rest _ _ _ _ _ _ Ei Hr Ep (Hv0 Hv1)) as (t1 & f1 & Ei1 & Hr1 & Hf1); [congruence|].
    rewrite <- Hk in Hr1. destruct (IH _ _ _ Ei1 Hr1 E Hv Hf) as (t' & f' & Ei' & Hr' & Hf'). rewrite Hk in Hr'.
    exists t', f'. split_and!; [done..|by eapply rest_of_trans].
  - destruct (not_own i m st Hn) as [-> ->]. rewrite <- Hk in Hr. destruct (IH _ _ _ (Ht i t Hn Ei) Hr E Hv Hf) as (t' & f' & Ei' & Hr' & Hf').
    rewrite Hk in Hr'. by exists t', f'.
Qed.

Definition ended t : bool := match t with Removing _ | Finished _ => true | _ => false end.

(** C15: the read loop among the others.  Whatever the accept loop, the senders, the other read loops
    and the receiver of the channel do in between, the task that reads a connection delivers what
    [read_loop] delivers from the same reads: what it has delivered so far is the beginning of it,
    all of it when the task waits for the socket, and when the task has ended the function has
    ended too, with the end of the stream or an error.  (No write of the task fails, and the channel
    is open.) *)
Theorem tcp_reader_refines st ms st' i h s a :
  tasks st !! i = Some (reading h (read_state_new s a)) -> run st ms = Some st' -> receiver st' = true ->
  Forall (fun m => m <> Run i WriteFailed) ms ->
  let '(g, d) := history i st ms in
  exists t, tasks st' !! i = Some t /\ forall room, (length d <= room)%nat ->
    d `prefix_of` (read_loop (keepalive st) true room g []).1.1 /\
    (forall h r, t = Awaiting h r -> (read_loop (keepalive st) true room g []).1 = (d, Blocked)) /\
    (ended t = true -> exists o, (o = EndOfStream \/ o = ReadError) /\
      forall more, (read_loop (keepalive st) true room (g ++ more) []).1 = (d, o)).
Proof.
  intros Ei E Hv Hf.
  destruct (run_rest i ms st _ (fun room evs => loop (keepalive st) room evs []) st' Ei) as (t & f' & Et & Hr & Hf'); [by apply residual_reading|done..|].
  destruct (history i st ms) as [g d]. cbn [fst snd] in Hf'. exists t. split; [done|]. intros room Hl.
  assert (forall more, (read_loop (keepalive st) true room (g ++ more) []).1 = (d ++ (f' (room - length d)%nat more).1, (f' (room - length d)%nat more).2)) as Hm.
  { intros more. rewrite <- Hf'. replace (length d + (room - length d))%nat with room by lia. done. }
  pose proof (Hm []) as H0. rewrite app_nil_r in H0. rewrite H0. split_and!.
  - by eexists.
  - intros h' r ->. destruct Hr as (Hs & Hn & Hl'). by rewrite Hl', loop_quietly, (quietly_blocked _ _ Hs Hn), app_nil_r.
  - intros Hx. assert (ends_with f') as (o & Ho & Hl') by (by destruct t). exists o. split; [done|].
    intros more. by rewrite Hm, Hl', app_nil_r.
Qed.
End Reader.

(** ** Sample *)

(** A ping, a message in two reads, with a sender in between, then the peer closes. *)
Definition sample_reading : list (Move (Addr := nat)) :=
  [Run 2 (Got (Arrived (KEEPALIVE_PING ++ take 20 (sample_message #"hello")))); SenderSend 7 #"hi"; Run 3 Go; Run 3 (Took 2); Run 3 Go;
   Run 2 Go; Run 2 (Took 2); Run 2 Go; Run 2 (Got (Arrived (drop 20 (sample_message #"hello")))); Run 2 Go; Receive;
   Run 2 (Got PeerClosed); Run 2 Go].

(** What the sample needs of the two states, evaluated. *)
Definition sample_reading_checks (st st' : Tcp (Addr := nat)) : bool :=
  match tasks st !! 2%nat, tasks st' !! 2%nat with
  | Some (Awaiting (mkHandle 0 1) (mkRead 0 7 [])), Some t => ended t && receiver st' && bool_decide ((history 2 st sample_reading).2 = [sample_message #"hello"])
  | _, _ => false
  end.

Lemma sample_states :
  exists st st' t, run sample_tcp sample_accepted = Some st /\ run st sample_reading = Some st' /\
    tasks st !! 2%nat = Some (Awaiting (mkHandle 0 1%nat) (mkRead 0 7%nat [])) /\ tasks st' !! 2%nat = Some t /\ ended t = true /\
    receiver st' = true /\ (history 2 st sample_reading).2 = [sample_message #"hello"].
Proof.
  assert (match run sample_tcp sample_accepted with
    | Some st => match run st sample_reading with Some st' => sample_reading_checks st st' | None => false end
    | None => false
    end = true) as Hok by (vm_compute; reflexivity).
  destruct (run sample_tcp sample_accepted) as [st|]; [|discriminate Hok].
  destruct (run st sample_reading) as [st'|] eqn:Er; [|discriminate Hok]. exists st, st'.
  unfold sample_reading_checks in Hok. destruct (tasks st !! 2%nat) as [[| | | | | |[[|] [|[|]]] [[|] [|[|[|[|[|[|[|[|]]]]]]]] [|]]| | | | | | | | |]|];
    try discriminate Hok.
  destruct (tasks st' !! 2%nat) as [t|]; [|discriminate Hok]. apply andb_prop in Hok as [[Ht Hv]%andb_prop Hd]. apply bool_decide_eq_true_1 in Hd.
  exists t. split_and!; [reflexivity|exact Er|reflexivity|reflexivity|exact Ht|exact Hv|exact Hd].
Qed.

Lemma sample_reader : reading (mkHandle 0 1%nat) (read_state_new 0 7%nat) = Awaiting (mkHandle 0 1%nat) (mkRead 0 7%nat []).
Proof. reflexivity. Qed.

Lemma tcp_reader_refines_witness :
  exists st st', run sample_tcp sample_accepted = Some st /\ run st sample_reading = Some st' /\
  exists o, (o = EndOfStream \/ o = ReadError) /\
    forall more, (read_loop (keepalive st) true 4 ((history 2 st sample_reading).1 ++ more) []).1 = ([sample_message #"hello"], o).
Proof.
  destruct sample_states as (st & st' & t & Es & Er & Ei & Et & Ht & Hv & Hd). rewrite <- sample_reader in Ei. exists st, st'. split; [exact Es|]. split; [exact Er|].
  assert (Forall (fun m => m <> Run 2 WriteFailed) sample_reading) as Hf by (repeat (constructor; [discriminate|]); constructor).
  pose proof (tcp_reader_refines st sample_reading st' 2 (mkHandle 0 1%nat) 0 7%nat Ei Er Hv Hf) as Hr.
  destruct (history 2 st sample_reading) as [g d]. cbn [snd] in Hd. rewrite Hd in Hr. destruct Hr as (t' & Et' & Hr). rewrite Et in Et'.
  injection Et' as <-. destruct (Hr 4%nat) as (_ & _ & He); [cbn; lia|]. exact (He Ht).
Defined.
