(* ===== verification/TlsConnections.v ===== *)
(** * The connections of the TLS transport ([transport/tls.rs])

    As in [TcpConnections] the transport is a set of tasks over one shared state, and a move takes
    one task to its next await.  Here one [Mutex] guards the whole connection, its stream and its
    read buffer, for reading as for writing.  The TLS library is external: a handshake succeeds or
    fails, and which names it accepts is a parameter. *)

From S2P Require Import Prelude RStr StreamFraming.

Section Tls.
Context {Addr : Type} `{Countable Addr}.

(** [ServerName::try_from] accepts the name. *)
Variable valid_name : str -> bool.

(** ** Data *)

(** [TlsConnectionState] behind its [Mutex], with the plain text written to it so far. *)
Record TlsConnectionState : Type := mkTlsConn {
  remote_addr : Addr;
  read_buf : str;
  tls_wire : str;
  locked : bool
}.

(** [IncomingMessage], whose transport is TLS. *)
Record TlsIncoming : Type := mkTlsIncoming { data : str; source : Addr }.

Inductive TlsError : Type := ConnectionClosed | TlsFailed | Io.

Inductive TlsTask : Type :=
| Connecting (addr : Addr) (server_name : str)
| Handshaking (addr : Addr)
| Inserting (addr : Addr) (c : nat)
| LockSend (sender : bool) (c : nat) (msg : str)
| Writing (sender : bool) (c : nat) (msg rest : str)
| Flushing (sender : bool) (c : nat) (msg : str)
| LockRead (c : nat) (remote : Addr)
| Reading (c : nat) (remote : Addr)
| Delivering (c : nat) (remote : Addr) (msg : str)
| Removing (addr : Addr)
| StartingReaders
| Accepting
| Securing (remote : Addr)
| Storing (remote : Addr) (c : nat)
| Sent (c : nat) (msg : str)
| Finished (r : result unit TlsError).

Record Tls : Type := mkTls {
  listener : bool;
  connector : bool;
  started : bool;
  connections : gmap Addr nat;
  conns : list TlsConnectionState;
  tasks : list TlsTask;
  incoming : list TlsIncoming;
  receiver : bool
}.

#[local] Instance conn_eta : Settable TlsConnectionState := fun x => mkTlsConn (remote_addr x) (read_buf x) (tls_wire x) (locked x).

#[local] Instance tls_eta : Settable Tls := fun x =>
  mkTls (listener x) (connector x) (started x) (connections x) (conns x) (tasks x) (incoming x) (receiver x).

(** The certificates loaded. *)
Definition bind_server : Tls := mkTls true false false ∅ [] [] [] true.
Definition new_client : Tls := mkTls false true false ∅ [] [] [] true.

(** [TlsConnectionState::new] *)
Definition tls_conn_new (addr : Addr) : TlsConnectionState := mkTlsConn addr [] [] false.

(** ** Operations, up to their first await *)

Definition connect (addr : Addr) (server_name : str) (st : Tls) : TlsTask :=
  if decide (is_Some (connections st !! addr)) then Finished (Ok tt)
  else if negb (connector st) then Finished (Err TlsFailed)
  else Connecting addr server_name.

(** [TlsTransport::send] and [TlsSender::send] *)
Definition send (sender : bool) (dest : Addr) (msg : str) (st : Tls) : TlsTask :=
  match connections st !! dest with
  | Some c => LockSend sender c msg
  | None => Finished (Err ConnectionClosed)
  end.

(** A task of a method on [&self], which [start] waits for. *)
Definition borrows (t : TlsTask) : bool :=
  match t with
  | Connecting _ _ | Handshaking _ | Inserting _ _ => true
  | LockSend sender _ _ | Writing sender _ _ _ | Flushing sender _ _ => negb sender
  | _ => false
  end.

(** A server transport has its acceptor. *)
Definition start (st : Tls) : option Tls :=
  if started st || existsb borrows (tasks st) then None else
  Some (st <| started := true |> <| listener := false |>
           <| tasks := tasks st ++ (if listener st then [Accepting] else []) ++ [StartingReaders] |>).

(** ** Reading *)

(** The loop of [TlsConnectionState::read_message] up to its next read, under the lock: a
    message gives the lock back, a read keeps it. *)
Definition reading (c : nat) (remote : Addr) (conn : TlsConnectionState) : TlsTask * TlsConnectionState :=
  match try_parse_message_from_buf (read_buf conn) with
  | Some (msg, buf) => (Delivering c remote msg, conn <| read_buf := buf |> <| locked := false |>)
  | None => (Reading c remote, conn <| locked := true |>)
  end.

(** After the read; an error or the end ends the loop and gives the lock back. *)
Definition after_read (c : nat) (remote : Addr) (conn : TlsConnectionState) (e : ReadEvent) : option (TlsTask * TlsConnectionState) :=
  match e with
  | Arrived bytes =>
      if (0 <? length bytes)%nat && (length bytes <=? Z.to_nat 4096)%nat then
        let conn := conn <| read_buf := read_buf conn ++ bytes |> in
        Some (if (MAX_TLS_SIZE <? length (read_buf conn))%nat then (Removing remote, conn <| locked := false |>)
              else reading c remote conn)
      else None
  | PeerClosed | ReadFailed => Some (Removing remote, conn <| locked := false |>)
  | PingDue => None
  end.

(** ** Moves *)

Inductive Ready : Type :=
| Go
| Secured
| Refused
| Took (n : nat)
| WriteFailed
| Got (e : ReadEvent)
| Incoming (remote : Addr).

Definition set_task (i : nat) (t : TlsTask) (st : Tls) : Tls := st <| tasks := <[i := t]> (tasks st) |>.
Definition set_conn (c : nat) (x : TlsConnectionState) (st : Tls) : Tls := st <| conns := <[c := x]> (conns st) |>.
Definition spawn (t : TlsTask) (st : Tls) : Tls := st <| tasks := tasks st ++ [t] |>.
Definition open_conn (addr : Addr) (st : Tls) : Tls := st <| conns := conns st ++ [tls_conn_new addr] |>.

Definition proceed (i : nat) (t : TlsTask) (o : Ready) (st : Tls) : option Tls :=
  match t, o with
  | Connecting addr server_name, Go =>
      Some (set_task i (if valid_name server_name then Handshaking addr else Finished (Err TlsFailed)) st)
  | Connecting _ _, Refused => Some (set_task i (Finished (Err Io)) st)
  | Handshaking addr, Secured => Some (set_task i (Inserting addr (length (conns st))) (open_conn addr st))
  | Handshaking _, Refused => Some (set_task i (Finished (Err TlsFailed)) st)
  | Inserting addr c, Go => Some (set_task i (Finished (Ok tt)) (st <| connections := <[addr := c]> (connections st) |>))
  | LockSend sender c msg, Go =>
      let* conn := conns st !! c in
      if locked conn then None else Some (set_task i (Writing sender c msg msg) (set_conn c (conn <| locked := true |>) st))
  | Writing sender c msg [], Go => Some (set_task i (Flushing sender c msg) st)
  | Writing sender c msg rest, Took n =>
      let* conn := conns st !! c in
      if negb ((0 <? n)%nat && (n <=? length rest)%nat) then None
      else Some (set_task i (Writing sender c msg (drop n rest)) (set_conn c (conn <| tls_wire := tls_wire conn ++ take n rest |>) st))
  | Flushing _ c msg, Go =>
      let* conn := conns st !! c in
      Some (set_task i (Sent c msg) (set_conn c (conn <| locked := false |>) st))
  | Writing _ c _ (_ :: _), WriteFailed | Flushing _ c _, WriteFailed =>
      let* conn := conns st !! c in
      Some (set_task i (Finished (Err Io)) (set_conn c (conn <| locked := false |>) st))
  | LockRead c remote, Go =>
      let* conn := conns st !! c in
      if locked conn then None
      else let '(t, conn) := reading c remote conn in Some (set_task i t (set_conn c conn st))
  | Reading c remote, Got e =>
      let* conn := conns st !! c in
      let* r := after_read c remote conn e in
      Some (set_task i r.1 (set_conn c r.2 st))
  | Delivering c remote msg, Go =>
      if negb (receiver st) then Some (set_task i (Removing remote) st)
      else if (256 <=? length (incoming st))%nat then None
      else Some (set_task i (LockRead c remote) (st <| incoming := incoming st ++ [mkTlsIncoming msg remote] |>))
  | Removing addr, Go => Some (set_task i (Finished (Ok tt)) (st <| connections := delete addr (connections st) |>))
  | StartingReaders, Go =>
      Some (st <| tasks := <[i := Finished (Ok tt)]> (tasks st) ++ map (fun e => LockRead e.2 e.1) (map_to_list (connections st)) |>)
  | Accepting, Incoming remote => Some (spawn (Securing remote) st)
  | Accepting, Refused => Some st
  | Securing remote, Secured => Some (set_task i (Storing remote (length (conns st))) (open_conn remote st))
  | Securing _, Refused => Some (set_task i (Finished (Err TlsFailed)) st)
  | Storing remote c, Go => Some (set_task i (LockRead c remote) (st <| connections := <[remote := c]> (connections st) |>))
  | _, _ => None
  end.

Inductive Move : Type :=
| Connect (addr : Addr) (server_name : str)
| Send (dest : Addr) (msg : str)
| SenderSend (dest : Addr) (msg : str)
| Start
| Run (i : nat) (o : Ready)
| Receive
| DropReceiver.

Definition step (st : Tls) (m : Move) : option Tls :=
  match m with
  | Connect addr server_name => if started st then None else Some (spawn (connect addr server_name st) st)
  | Send dest msg => if started st then None else Some (spawn (send false dest msg st) st)
  | SenderSend dest msg => Some (spawn (send true dest msg st) st)
  | Start => start st
  | Run i o => let* t := tasks st !! i in proceed i t o st
  | Receive => if receiver st then Some (st <| incoming := tail (incoming st) |>) else None
  | DropReceiver => Some (st <| receiver := false |>)
  end.

Fixpoint run (st : Tls) (ms : list Move) : option Tls :=
  match ms with
  | [] => Some st
  | m :: ms => let* st := step st m in run st ms
  end.

(** ** The lock *)

(** The task holds the lock of connection [c]. *)
Definition holds (c : nat) (t : TlsTask) : bool :=
  match t with Writing _ c' _ _ | Flushing _ c' _ | Reading c' _ => bool_decide (c' = c) | _ => false end.

Definition holders (c : nat) (ts : list TlsTask) : nat := length (filter (fun t => holds c t = true) ts).

Definition lock_of (c : nat) (cs : list TlsConnectionState) : bool := match cs !! c with Some conn => locked conn | None => false end.

(** A lock is held by one task, or is free. *)
Definition tls_inv (st : Tls) : Prop := forall c, holders c (tasks st) = Nat.b2n (lock_of c (conns st)).

Lemma holders_app c ts ts' : holders c (ts ++ ts') = (holders c ts + holders c ts')%nat.
Proof. unfold holders. by rewrite filter_app, length_app. Qed.

Lemma holders_cons c t ts : holders c (t :: ts) = (Nat.b2n (holds c t) + holders c ts)%nat.
Proof. unfold holders. rewrite filter_cons. by destruct (holds c t). Qed.

Lemma holders_insert c ts i t t' :
  ts !! i = Some t -> (holders c (<[i := t']> ts) + Nat.b2n (holds c t) = holders c ts + Nat.b2n (holds c t'))%nat.
Proof.
  revert i. induction ts as [|x ts IH]; intros [|i] E; try done.
  - injection E as ->. change (<[0%nat := t']> (t :: ts)) with (t' :: ts). rewrite !holders_cons. lia.
  - change (<[S i := t']> (x :: ts)) with (x :: <[i := t']> ts). rewrite !holders_cons. specialize (IH i E). lia.
Qed.

Lemma holder_counted c ts i t : ts !! i = Some t -> holds c t = true -> (1 <= holders c ts)%nat.
Proof.
  intros E Hh. pose proof (holders_insert c _ _ _ (Finished (Ok tt)) E) as Hn. rewrite Hh in Hn. cbn [holds Nat.b2n] in Hn. lia.
Qed.

Lemma holder_locks st c i t : tls_inv st -> tasks st !! i = Some t -> holds c t = true -> lock_of c (conns st) = true.
Proof. intros Hi E Hh. pose proof (holder_counted _ _ _ _ E Hh) as Hc. rewrite Hi in Hc. destruct (lock_of c (conns st)); [done|cbn in Hc; lia]. Qed.

Lemma holder_unique st c i j t u :
  tls_inv st -> tasks st !! i = Some t -> tasks st !! j = Some u -> holds c t = true -> holds c u = true -> i = j.
Proof.
  intros Hi Et Eu Ht Hu. destruct (decide (i = j)) as [|Hij]; [done|]. exfalso.
  pose proof (holders_insert c _ _ _ (Finished (Ok tt)) Et) as Hn. rewrite Ht, Hi in Hn. cbn [holds Nat.b2n] in Hn.
  assert (<[i := Finished (Ok tt)]> (tasks st) !! j = Some u) as Ej by (by rewrite list_lookup_insert_ne).
  pose proof (holder_counted _ _ _ _ Ej Hu). destruct (lock_of c (conns st)); cbn in *; lia.
Qed.

(** *** Steps *)

Lemma inv_task st i t t' : tls_inv st -> tasks st !! i = Some t -> (forall c, holds c t' = holds c t) -> tls_inv (set_task i t' st).
Proof.
  intros Hi E Hh c. pose proof (holders_insert c _ _ _ t' E) as Hn. rewrite Hh, Hi in Hn.
  change (holders c (<[i := t']> (tasks st)) = Nat.b2n (lock_of c (conns st))). lia.
Qed.

Lemma tls_inv_spawns st ts : tls_inv st -> (forall c, holders c ts = 0%nat) -> tls_inv (st <| tasks := tasks st ++ ts |>).
Proof. intros Hi Hh c. change (holders c (tasks st ++ ts) = Nat.b2n (lock_of c (conns st))). rewrite holders_app, Hh, Hi. lia. Qed.

Lemma tls_inv_open st addr : tls_inv st -> tls_inv (open_conn addr st).
Proof.
  intros Hi c. change (holders c (tasks st) = Nat.b2n (lock_of c (conns st ++ [tls_conn_new addr]))). rewrite Hi. f_equal. unfold lock_of. destruct (decide (c < length (conns st))%nat) as [Hc|Hc]; [by rewrite lookup_app_l|].
  rewrite lookup_app_r, (lookup_ge_None_2 (conns st)) by lia. by destruct (c - _)%nat as [|[|]].
Qed.

(** A task that takes, keeps or gives back the lock of [c]. *)
Lemma inv_conn st i t t' c conn conn' :
  tls_inv st -> tasks st !! i = Some t -> conns st !! c = Some conn -> (forall c', c' <> c -> holds c' t' = holds c' t) ->
  (Nat.b2n (holds c t') + Nat.b2n (locked conn) = Nat.b2n (locked conn') + Nat.b2n (holds c t))%nat ->
  tls_inv (set_task i t' (set_conn c conn' st)).
Proof.
  intros Hi E Ec Ho Hl c'. change (holders c' (<[i := t']> (tasks st)) = Nat.b2n (lock_of c' (<[c := conn']> (conns st)))). pose proof (holders_insert c' _ _ _ t' E) as Hn. rewrite Hi in Hn. unfold lock_of in *.
  destruct (decide (c' = c)) as [->|Hc].
  - rewrite list_lookup_insert_eq by (by eapply lookup_lt_Some). rewrite Ec in Hn. lia.
  - rewrite list_lookup_insert_ne by done. rewrite (Ho _ Hc) in Hn. lia.
Qed.

Lemma reading_holds c remote conn t conn' c' : reading c remote conn = (t, conn') ->
  holds c' t = locked conn' && bool_decide (c = c').
Proof. unfold reading. destruct (try_parse_message_from_buf _) as [[msg buf]|]; intros [= <- <-]; done. Qed.

Lemma after_read_holds c remote conn e t conn' c' : after_read c remote conn e = Some (t, conn') ->
  holds c' t = locked conn' && bool_decide (c = c').
Proof.
  intros E. destruct e; cbn [after_read] in E.
  - destruct (_ && _); [|discriminate E]. apply Some_inj in E. destruct (MAX_TLS_SIZE <? _)%nat; [by injection E as <- <-|]. by eapply reading_holds.
  - apply Some_inj in E. by injection E as <- <-.
  - apply Some_inj in E. by injection E as <- <-.
  - discriminate E.
Qed.

Lemma holders_readers c (l : list (Addr * nat)) : holders c (map (fun e => LockRead e.2 e.1) l) = 0%nat.
Proof. induction l as [|e l IH]; [done|]. cbn [map]. by rewrite holders_cons, IH. Qed.

Lemma tls_proceed_inv st i t o st' : tls_inv st -> tasks st !! i = Some t -> proceed i t o st = Some st' -> tls_inv st'.
Proof.
  intros Hi Ei E.
  assert (forall t' st1, Some (set_task i t' st1) = Some st' -> tls_inv st1 -> tasks st1 = tasks st -> (forall c, holds c t' = holds c t) ->
    tls_inv st') as Hquiet.
  { intros t' st1 Es Hi1 Et Hh. apply Some_inj in Es as <-. eapply inv_task; [done| |done]. by rewrite Et. }
  assert (forall c conn t' conn', conns st !! c = Some conn -> (forall c', holds c' t = locked conn && bool_decide (c = c')) ->
    (forall c', holds c' t' = locked conn' && bool_decide (c = c')) -> Some (set_task i t' (set_conn c conn' st)) = Some st' -> tls_inv st') as Hconn.
  { intros c conn t' conn' Ec Ht Ht' Es. apply Some_inj in Es as <-. eapply inv_conn; [done..| |].
    - intros c' Hc. rewrite Ht, Ht', (bool_decide_false (c = c')) by congruence. by rewrite !andb_false_r.
    - rewrite Ht, Ht', bool_decide_true by done. rewrite !andb_true_r. lia. }
  assert (forall c conn, conns st !! c = Some conn -> holds c t = true -> locked conn = true) as Hlock.
  { intros c conn Ec Hh. pose proof (holder_locks st c i t Hi Ei Hh) as Hl. unfold lock_of in Hl. by rewrite Ec in Hl. }
  destruct t as [addr name|addr|addr c|sender c msg|sender c msg rest|sender c msg|c remote|c remote|c remote msg|addr| | |remote|remote c| |];
    try destruct rest as [|x rest]; destruct o as [| | |n| |e|a]; try discriminate E; cbn [proceed] in E;
    try (destruct (conns st !! c) as [conn|] eqn:Ec; [cbn [mbind option_bind] in E|discriminate E]).
  - by eapply (Hquiet _ _ E); [..|destruct (valid_name name)].
  - by eapply (Hquiet _ _ E).
  - by eapply (Hquiet _ _ E); [by apply tls_inv_open|..].
  - by eapply (Hquiet _ _ E).
  - by eapply (Hquiet _ _ E).
  - destruct (locked conn) eqn:El; [discriminate E|]. by eapply (Hconn c conn); [done| | |exact E]; [rewrite El|].
  - by eapply (Hquiet _ _ E).
  - destruct (negb _); [discriminate E|]. pose proof (Hlock _ _ Ec (bool_decide_true _ eq_refl)) as El.
    by eapply (Hconn c conn); [done| | |exact E]; intros c'; unfold set; cbn [holds locked]; rewrite El.
  - destruct (negb _); [discriminate E|]. pose proof (Hlock _ _ Ec (bool_decide_true _ eq_refl)) as El.
    by eapply (Hconn c conn); [done| | |exact E]; intros c'; unfold set; cbn [holds locked]; rewrite El.
  - pose proof (Hlock _ _ Ec (bool_decide_true _ eq_refl)) as El. by eapply (Hconn c conn); [done| | |exact E]; [rewrite El|].
  - pose proof (Hlock _ _ Ec (bool_decide_true _ eq_refl)) as El. by eapply (Hconn c conn); [done| | |exact E]; [rewrite El|].
  - pose proof (Hlock _ _ Ec (bool_decide_true _ eq_refl)) as El. by eapply (Hconn c conn); [done| | |exact E]; [rewrite El|].
  - destruct (locked conn) eqn:El; [discriminate E|]. destruct (reading c remote conn) as [t conn'] eqn:Er.
    eapply (Hconn c conn); [done| | |exact E]; [by rewrite El|]. intros c'. by eapply reading_holds.
  - destruct (after_read c remote conn e) as [[t conn']|] eqn:Er; [|discriminate E]. pose proof (Hlock _ _ Ec (bool_decide_true _ eq_refl)) as El.
    eapply (Hconn c conn); [done| | |exact E]; [by rewrite El|]. intros c'. by eapply after_read_holds.
  - destruct (negb _); [by eapply (Hquiet _ _ E)|]. destruct (Nat.leb _ _); [discriminate E|]. by eapply (Hquiet _ _ E).
  - by eapply (Hquiet _ _ E).
  - apply Some_inj in E as <-. apply (tls_inv_spawns (set_task i (Finished (Ok tt)) st)); [by eapply inv_task|]. intros c.
    apply holders_readers.
  - by apply Some_inj in E as <-.
  - apply Some_inj in E as <-. by apply tls_inv_spawns.
  - by eapply (Hquiet _ _ E); [by apply tls_inv_open|..].
  - by eapply (Hquiet _ _ E).
  - by eapply (Hquiet _ _ E).
Qed.

Lemma tls_step_inv st m st' : tls_inv st -> step st m = Some st' -> tls_inv st'.
Proof.
  intros Hi E. destruct m as [addr name|dest msg|dest msg| |i o| |]; cbn [step] in E.
  - destruct (started st); [discriminate E|]. apply Some_inj in E as <-. apply tls_inv_spawns; [done|]. intros c. unfold connect.
    destruct (decide _); [done|]. by destruct (negb _).
  - destruct (started st); [discriminate E|]. apply Some_inj in E as <-. apply tls_inv_spawns; [done|]. intros c. unfold send.
    by destruct (connections st !! dest).
  - apply Some_inj in E as <-. apply tls_inv_spawns; [done|]. intros c. unfold send. by destruct (connections st !! dest).
  - unfold start in E. destruct (_ || _); [discriminate E|]. apply Some_inj in E as <-.
    apply (tls_inv_spawns (st <| started := true |> <| listener := false |>) _ Hi). intros c. by destruct (listener st).
  - destruct (tasks st !! i) as [t|] eqn:Ei; [|discriminate E]. by eapply tls_proceed_inv.
  - destruct (receiver st); [|discriminate E]. by apply Some_inj in E as <-.
  - by apply Some_inj in E as <-.
Qed.

Lemma tls_run_inv st ms st' : tls_inv st -> run st ms = Some st' -> tls_inv st'.
Proof.
  revert st. induction ms as [|m ms IH]; intros st Hi E; cbn [run] in E; [by apply Some_inj in E as <-|].
  destruct (step st m) as [st1|] eqn:Es; [|discriminate E]. eapply IH; [|exact E]. by eapply tls_step_inv.
Qed.

Definition unused (st : Tls) : Prop := conns st = [] /\ tasks st = [].

Lemma tls_unused_inv st : unused st -> tls_inv st.
Proof. intros [E1 E2] c. by rewrite E1, E2. Qed.

(** *** A step of another task *)

(** What a connection has sent. *)
Definition wire_of (c : nat) (st : Tls) : option str := tls_wire <$> conns st !! c.

Lemma wire_insert c c' conn conn' cs :
  cs !! c' = Some conn -> tls_wire conn' = tls_wire conn -> (tls_wire <$> (<[c' := conn']> cs : list TlsConnectionState) !! c) = (tls_wire <$> cs !! c).
Proof.
  intros E Ew. destruct (decide (c = c')) as [->|]; [|by rewrite list_lookup_insert_ne].
  rewrite list_lookup_insert_eq by (by eapply lookup_lt_Some). by rewrite E; cbn; rewrite Ew.
Qed.

Lemma wire_open c addr st : is_Some (wire_of c st) -> wire_of c (open_conn addr st) = wire_of c st.
Proof.
  unfold wire_of. intros [w Hw]. apply fmap_Some in Hw as (conn & E & _). cbn. by rewrite lookup_app_l by (by eapply lookup_lt_Some).
Qed.

Lemma reading_wire c remote conn : tls_wire (reading c remote conn).2 = tls_wire conn.
Proof. unfold reading. by destruct (try_parse_message_from_buf _) as [[msg buf]|]. Qed.

Lemma after_read_wire c remote conn e r : after_read c remote conn e = Some r -> tls_wire r.2 = tls_wire conn.
Proof.
  destruct e; cbn [after_read]; intros E; try discriminate E.
  - destruct (_ && _); [|discriminate E]. apply Some_inj in E as <-. destruct (MAX_TLS_SIZE <? _)%nat; [done|by rewrite reading_wire].
  - by apply Some_inj in E as <-.
  - by apply Some_inj in E as <-.
Qed.

Lemma proceed_wire st i t o st' c :
  proceed i t o st = Some st' -> holds c t = false -> is_Some (wire_of c st) -> wire_of c st' = wire_of c st.
Proof.
  intros E Hh Hw.
  destruct t as [addr name|addr|addr c'|sender c' msg|sender c' msg rest|sender c' msg|c' remote|c' remote|c' remote msg|addr| | |remote|remote c'| |];
    try destruct rest as [|x rest]; destruct o as [| | |n| |e|a]; try discriminate E; cbn [proceed] in E;
    try (destruct (conns st !! c') as [conn|] eqn:Ec; [cbn [mbind option_bind] in E|discriminate E]);
    try (destruct (after_read c' remote conn e) as [r|] eqn:Er; [cbn [mbind option_bind] in E|discriminate E]);
    repeat match type of E with (if ?b then _ else _) = _ => destruct b; try discriminate E end;
    try (apply Some_inj in E as <-; (done || by apply wire_open || by eapply (wire_insert _ _ _ _ _ Ec))).
  - apply bool_decide_eq_false_1 in Hh. apply Some_inj in E as <-. unfold wire_of. cbn. by rewrite list_lookup_insert_ne.
  - apply bool_decide_eq_false_1 in Hh. apply Some_inj in E as <-. unfold wire_of. cbn. by rewrite list_lookup_insert_ne.
  - pose proof (reading_wire c' remote conn) as Hr. destruct (reading c' remote conn) as [t conn']. apply Some_inj in E as <-.
    by eapply (wire_insert _ _ _ _ _ Ec).
  - apply Some_inj in E as <-. eapply (wire_insert _ _ _ _ _ Ec). by eapply after_read_wire.
Qed.

Lemma proceed_others st i t o st' j u : proceed i t o st = Some st' -> j <> i -> tasks st !! j = Some u -> tasks st' !! j = Some u.
Proof.
  intros E Hj Ej.
  destruct t as [addr name|addr|addr c|sender c msg|sender c msg rest|sender c msg|c remote|c remote|c remote msg|addr| | |remote|remote c| |];
    try destruct rest as [|x rest]; destruct o as [| | |n| |e|a]; try discriminate E; cbn [proceed] in E;
    repeat match type of E with
      | mbind _ ?o = _ => destruct o; [cbn [mbind option_bind] in E|discriminate E]
      | (if ?b then _ else _) = _ => destruct b; try discriminate E
      | (let '(_, _) := ?p in _) = _ => destruct p
      end;
    apply Some_inj in E as <-; cbn [spawn set_task set_conn open_conn tasks set]; try exact Ej;
    try (rewrite lookup_app_l by (rewrite ?length_insert; by eapply lookup_lt_Some)); (exact Ej || by rewrite list_lookup_insert_ne).
Qed.

(** While a read loop waits for its peer, a step other than its read keeps it waiting, a task that
    waits for the lock waiting, and what was sent. *)
Lemma step_waits st m st' r i c remote sender msg :
  tls_inv st -> tasks st !! r = Some (Reading c remote) -> tasks st !! i = Some (LockSend sender c msg) -> is_Some (wire_of c st) ->
  (forall e, m <> Run r (Got e)) -> step st m = Some st' ->
  tasks st' !! r = Some (Reading c remote) /\ tasks st' !! i = Some (LockSend sender c msg) /\ wire_of c st' = wire_of c st.
Proof.
  intros Hi Er Ei Hw Hm E. destruct m as [addr name|dest x|dest x| |j o| |]; cbn [step] in E.
  - destruct (started st); [discriminate E|]. apply Some_inj in E as <-. split_and!; try done; by apply lookup_app_l_Some.
  - destruct (started st); [discriminate E|]. apply Some_inj in E as <-. split_and!; try done; by apply lookup_app_l_Some.
  - apply Some_inj in E as <-. split_and!; try done; by apply lookup_app_l_Some.
  - unfold start in E. destruct (_ || _); [discriminate E|]. apply Some_inj in E as <-. split_and!; try done; by apply lookup_app_l_Some.
  - assert (holds c (Reading c remote) = true) as Hr by (by apply bool_decide_true).
    destruct (decide (j = r)) as [->|Hjr]; [rewrite Er in E; destruct o; try discriminate E; by destruct (Hm e)|].
    destruct (decide (j = i)) as [->|Hji].
    + exfalso. rewrite Ei in E. destruct o; try discriminate E. cbn [mbind option_bind proceed] in E.
      pose proof (holder_locks st c r _ Hi Er Hr) as Hl. unfold lock_of in Hl. destruct (conns st !! c) as [conn|]; [|discriminate E].
      cbn [mbind option_bind] in E. rewrite Hl in E. discriminate E.
    + destruct (tasks st !! j) as [t|] eqn:Ej; [|discriminate E]. cbn [mbind option_bind] in E. split_and!.
      * by eapply proceed_others.
      * by eapply proceed_others.
      * eapply proceed_wire; [exact E| |done]. destruct (holds c t) eqn:Hh; [|done]. destruct Hjr. by eapply holder_unique.
  - destruct (receiver st); [|discriminate E]. by apply Some_inj in E as <-.
  - by apply Some_inj in E as <-.
Qed.

(** C16: a TLS send waits for input.  In every reachable state in which the read loop of a connection
    waits for data, a message to be sent on the connection is not sent, whatever the other tasks,
    the network and the user do, until something arrives from the peer: the read loop holds the
    lock of the whole connection across its read.  (A peer that waits for the message before it
    sends, as in any exchange of request and response, is waited for for ever; the comment of
    [transport/tcp.rs] describes this deadlock and that it was removed there.) *)
Theorem tls_send_waits_for_input st0 ms st ms' st' r i c remote sender msg :
  unused st0 -> run st0 ms = Some st -> run st ms' = Some st' ->
  tasks st !! r = Some (Reading c remote) -> tasks st !! i = Some (LockSend sender c msg) -> is_Some (wire_of c st) ->
  Forall (fun m => forall e, m <> Run r (Got e)) ms' ->
  tasks st' !! i = Some (LockSend sender c msg) /\ tasks st' !! r = Some (Reading c remote) /\ wire_of c st' = wire_of c st.
Proof.
  intros Hu E0 E Er Ei Hw Hm. pose proof (tls_run_inv _ _ _ (tls_unused_inv _ Hu) E0) as Hi. clear E0 Hu ms.
  revert st Er Ei Hw Hi E. induction Hm as [|m ms' Hm _ IH]; intros st Er Ei Hw Hi E; cbn [run] in E; [by apply Some_inj in E as <-|].
  destruct (step st m) as [st1|] eqn:Es; [|discriminate E].
  destruct (step_waits _ _ _ _ _ _ _ _ _ Hi Er Ei Hw Hm Es) as (Er1 & Ei1 & Ew1). rewrite <- Ew1 in Hw |- *.
  by apply IH; [..|by eapply tls_step_inv|].
Qed.
End Tls.

#[export] Instance tls_conn_settable {Addr : Type} : Settable (TlsConnectionState (Addr := Addr)) := conn_eta.
#[export] Instance tls_settable {Addr : Type} `{Countable Addr} : Settable (Tls (Addr := Addr)) := tls_eta.

(** ** Samples *)

Definition sample_tls : Tls (Addr := nat) := bind_server.

(** A connection is accepted from [7] and a request arrives; the read loop, task 2, delivers it and
    waits for more while the response is to be sent. *)
Definition sample_exchange : list (Move (Addr := nat)) :=
  [Start; Run 1 Go; Run 0 (Incoming 7%nat); Run 2 Secured; Run 2 Go; Run 2 Go; Run 2 (Got (Arrived (sample_message #"hello")));
   Run 2 Go; Receive; Run 2 Go; SenderSend 7%nat #"hi"].

Lemma tls_send_waits_for_input_witness :
  exists st st', run (fun _ => true) sample_tls sample_exchange = Some st /\
    run (fun _ => true) st [SenderSend 7%nat #"again"; DropReceiver] = Some st' /\
    tasks st' !! 3%nat = Some (LockSend true 0 #"hi") /\ tasks st' !! 2%nat = Some (Reading 0 7%nat) /\ wire_of 0 st' = Some [].
Proof.
  compute_some (run (fun _ => true) sample_tls sample_exchange) as st Es. pose proof Es as Ec. vm_compute in Ec. apply Some_inj in Ec.
  compute_some (run (fun _ => true) sample_tls sample_exchange ≫= fun st => run (fun _ => true) st [SenderSend 7%nat #"again"; DropReceiver]) as st' Er.
  assert (run (fun _ => true) st [SenderSend 7%nat #"again"; DropReceiver] = Some st') as Er' by (rewrite Es in Er; exact Er).
  exists st, st'. split; [reflexivity|]. split; [exact Er'|].
  destruct (tls_send_waits_for_input (fun _ => true) sample_tls sample_exchange st [SenderSend 7%nat #"again"; DropReceiver] st' 2 3 0 7%nat true #"hi")
    as (H1 & H2 & H3); [split; reflexivity|exact Es|exact Er'|rewrite <- Ec; reflexivity|rewrite <- Ec; reflexivity|rewrite <- Ec; by eexists|
      by repeat constructor|].
  split; [exact H1|]. split; [exact H2|]. rewrite H3, <- Ec. reflexivity.
Defined.

(** A connection accepted before the task that starts the readers of existing connections has run
    gets two read loops, and two messages of the peer reach the user in the wrong order. *)
Example two_readers_reorder :
  let one := sample_message #"one" in let two := sample_message #"two" in
  let ms := [Start; Run 0 (Incoming 7%nat); Run 2 Secured; Run 2 Go; Run 1 Go; Run 2 Go; Run 2 (Got (Arrived (one ++ two))); Run 3 Go; Run 3 Go; Run 2 Go] in
  exists st, run (fun _ => true) sample_tls ms = Some st /\ (data <$> incoming st) = [two; one].
Proof.
  intros one two ms. compute_some (run (fun _ => true) sample_tls ms) as st Es. exists st. split; [reflexivity|].
  vm_compute in Es. apply Some_inj in Es as <-. reflexivity.
Qed.
