(* ===== verification/GabbyAudio.v ===== *)
(** * The audio of gabby ([src/crates/gabby/src/call.rs], [audio.rs], [pipeline/vad.rs])

    The companion application talks mu-law by itself: its codec with the table as written, the
    energy of a frame, the boundaries of sentences and the detector of speech. *)

From S2P Require Import Prelude RStr RtpPacket RFloat Mixer.
From Stdlib Require Import SpecFloat Sorted.

Local Open Scope Z_scope.

(** ** mu-law *)

Definition ULAW_TABLE : list Z := [
  -32124; -31100; -30076; -29052; -28028; -27004; -25980; -24956; -23932; -22908; -21884; -20860; -19836;
  -18812; -17788; -16764; -15996; -15484; -14972; -14460; -13948; -13436; -12924; -12412; -11900; -11388;
  -10876; -10364; -9852; -9340; -8828; -8316; -7932; -7676; -7420; -7164; -6908; -6652; -6396; -6140; -5884;
  -5628; -5372; -5116; -4860; -4604; -4348; -4092; -3900; -3772; -3644; -3516; -3388; -3260; -3132; -3004;
  -2876; -2748; -2620; -2492; -2364; -2236; -2108; -1980; -1884; -1820; -1756; -1692; -1628; -1564; -1500;
  -1436; -1372; -1308; -1244; -1180; -1116; -1052; -988; -924; -876; -844; -812; -780; -748; -716; -684; -652;
  -620; -588; -556; -524; -492; -460; -428; -396; -372; -356; -340; -324; -308; -292; -276; -260; -244; -228;
  -212; -196; -180; -164; -148; -132; -120; -112; -104; -96; -88; -80; -72; -64; -56; -48; -40; -32; -24; -16;
  -8; 0; 32124; 31100; 30076; 29052; 28028; 27004; 25980; 24956; 23932; 22908; 21884; 20860; 19836; 18812;
  17788; 16764; 15996; 15484; 14972; 14460; 13948; 13436; 12924; 12412; 11900; 11388; 10876; 10364; 9852;
  9340; 8828; 8316; 7932; 7676; 7420; 7164; 6908; 6652; 6396; 6140; 5884; 5628; 5372; 5116; 4860; 4604; 4348;
  4092; 3900; 3772; 3644; 3516; 3388; 3260; 3132; 3004; 2876; 2748; 2620; 2492; 2364; 2236; 2108; 1980; 1884;
  1820; 1756; 1692; 1628; 1564; 1500; 1436; 1372; 1308; 1244; 1180; 1116; 1052; 988; 924; 876; 844; 812; 780;
  748; 716; 684; 652; 620; 588; 556; 524; 492; 460; 428; 396; 372; 356; 340; 324; 308; 292; 276; 260; 244;
  228; 212; 196; 180; 164; 148; 132; 120; 112; 104; 96; 88; 80; 72; 64; 56; 48; 40; 32; 24; 16; 8; 0].

Definition decode_ulaw (compressed : Z) : Z := nth (Z.to_nat compressed) ULAW_TABLE 0.

Definition BIAS : Z := 132.
Definition CLIP : Z := 32635.

(** The sign bit and the biased magnitude, with the saturation of [i16]. *)
Definition ulaw_sign (sample : Z) : Z := if sample <? 0 then 128 else 0.

Definition ulaw_magnitude (sample : Z) : Z :=
  let sample := if sample <? 0 then Z.min 32767 (- sample) else sample in
  Z.min 32767 (Z.min CLIP sample + BIAS).

Definition ulaw_exponent (sample : Z) : Z :=
  if sample <=? 255 then 0 else if sample <=? 511 then 1 else if sample <=? 1023 then 2 else if sample <=? 2047 then 3
  else if sample <=? 4095 then 4 else if sample <=? 8191 then 5 else if sample <=? 16383 then 6 else 7.

Definition encode_ulaw (sample : Z) : Z :=
  let x := ulaw_magnitude sample in
  let exponent := ulaw_exponent x in
  let mantissa := Z.land (Z.shiftr x (exponent + 3)) 15 in
  255 - Z.lor (Z.lor (ulaw_sign sample) (Z.shiftl exponent 4)) mantissa.

(** *** The codec in arithmetic *)

(** The code of a magnitude: its segment and its place in it. *)
Definition segment (x : Z) : Z := 16 * ulaw_exponent x + (x / 2 ^ (ulaw_exponent x + 3) - 16).

(** The magnitude a code stands for, the middle of its interval. *)
Definition level (c : Z) : Z := (c mod 16 * 8 + BIAS) * 2 ^ (c / 16) - BIAS.

Lemma ulaw_table_ok :
  forallb (fun c => (decode_ulaw (255 - c) =? level c) && (decode_ulaw (127 - c) =? - level c)) (seqZ 0 128) = true.
Proof. vm_compute. reflexivity. Qed.

Lemma decode_level c : 0 <= c < 128 -> decode_ulaw (255 - c) = level c /\ decode_ulaw (127 - c) = - level c.
Proof.
  intros Hc. pose proof ulaw_table_ok as H. rewrite forallb_forall in H.
  specialize (H c ltac:(apply list_elem_of_In, elem_of_seqZ; lia)). zbool. lia.
Qed.

(** Case analysis on the segment of a magnitude. *)
Ltac segments x :=
  unfold ulaw_exponent;
  destruct (Z.leb_spec x 255); [|destruct (Z.leb_spec x 511); [|destruct (Z.leb_spec x 1023); [|destruct (Z.leb_spec x 2047);
    [|destruct (Z.leb_spec x 4095); [|destruct (Z.leb_spec x 8191); [|destruct (Z.leb_spec x 16383)]]]]]].

Lemma exponent_range x : 132 <= x <= 32767 ->
  0 <= ulaw_exponent x <= 7 /\ 2 ^ (ulaw_exponent x + 7) <= x < 2 ^ (ulaw_exponent x + 8).
Proof. intros Hx. segments x; lia. Qed.

Lemma place_range x : 132 <= x <= 32767 -> 16 <= x / 2 ^ (ulaw_exponent x + 3) < 32.
Proof. intros Hx. segments x; match goal with |- context [2 ^ ?k] => let v := eval vm_compute in (2 ^ k) in change (2 ^ k) with v end; Z.div_mod_to_equations; lia. Qed.

Lemma segment_range x : 132 <= x <= 32767 -> 0 <= segment x < 128.
Proof. intros Hx. pose proof (exponent_range x Hx). pose proof (place_range x Hx). unfold segment. lia. Qed.

Lemma segment_split x : 132 <= x <= 32767 ->
  segment x / 16 = ulaw_exponent x /\ segment x mod 16 = x / 2 ^ (ulaw_exponent x + 3) - 16.
Proof.
  intros Hx. pose proof (place_range x Hx). unfold segment. set (p := x / _) in *. clearbody p. Z.div_mod_to_equations. lia.
Qed.

Lemma magnitude_range s : -32768 <= s <= 32767 -> 132 <= ulaw_magnitude s <= 32767.
Proof. unfold ulaw_magnitude, CLIP, BIAS. destruct (s <? 0) eqn:E; zbool; lia. Qed.

Lemma lor_fields b e m : 0 <= e < 8 -> 0 <= m < 16 ->
  Z.lor (Z.lor (if b : bool then 128 else 0) (Z.shiftl e 4)) m = (if b then 128 else 0) + 16 * e + m.
Proof.
  intros He Hm.
  assert (forallb (fun e => forallb (fun m => (Z.lor (Z.lor 128 (Z.shiftl e 4)) m =? 128 + 16 * e + m) &&
    (Z.lor (Z.lor 0 (Z.shiftl e 4)) m =? 0 + 16 * e + m)) (seqZ 0 16)) (seqZ 0 8) = true) as H by (vm_compute; reflexivity).
  rewrite forallb_forall in H. specialize (H e ltac:(apply list_elem_of_In, elem_of_seqZ; lia)). rewrite forallb_forall in H.
  specialize (H m ltac:(apply list_elem_of_In, elem_of_seqZ; lia)). zbool. by destruct b.
Qed.

Lemma encode_segment s : -32768 <= s <= 32767 -> encode_ulaw s = 255 - (ulaw_sign s + segment (ulaw_magnitude s)).
Proof.
  intros Hs. apply magnitude_range in Hs as Hx. unfold encode_ulaw. set (x := ulaw_magnitude s) in *. clearbody x.
  pose proof (exponent_range x Hx) as [He _]. pose proof (place_range x Hx) as Hp. unfold segment, ulaw_sign.
  rewrite Z.shiftr_div_pow2 by lia. set (p := x / _) in *. clearbody p.
  assert (Z.land p 15 = p - 16) as ->.
  { change 15 with (Z.ones 4). rewrite Z.land_ones by lia. change (2 ^ 4) with 16. Z.div_mod_to_equations. lia. }
  rewrite lor_fields by lia. lia.
Qed.

(** A magnitude is in the middle of its interval up to half of the interval. *)
Lemma level_near x : 132 <= x <= 32767 -> 32 * Z.abs (level (segment x) + BIAS - x) <= x.
Proof.
  intros Hx. unfold level. destruct (segment_split x Hx) as [-> ->]. unfold BIAS. pose proof (place_range x Hx) as Hp. revert Hp.
  segments x; repeat match goal with |- context [2 ^ ?k] => let v := eval vm_compute in (2 ^ k) in change (2 ^ k) with v end;
    intros Hp; Z.div_mod_to_equations; lia.
Qed.

Lemma segment_mono x y : 132 <= x <= y -> y <= 32767 -> segment x <= segment y.
Proof.
  intros Hx Hy. destruct (decide (ulaw_exponent x = ulaw_exponent y)) as [E|E].
  - unfold segment. rewrite E. assert (x / 2 ^ (ulaw_exponent y + 3) <= y / 2 ^ (ulaw_exponent y + 3)); [|lia].
    apply Z.div_le_mono; [|lia]. destruct (exponent_range y ltac:(lia)). apply Z.pow_pos_nonneg; lia.
  - assert (ulaw_exponent x < ulaw_exponent y) by (revert E; segments x; segments y; lia).
    pose proof (place_range x ltac:(lia)). pose proof (place_range y ltac:(lia)). unfold segment. lia.
Qed.

Lemma level_mono c d : 0 <= c <= d -> d < 128 -> 0 <= level c <= level d.
Proof.
  intros Hc Hd.
  assert (forallb (fun c => (0 <=? level c) && (level c <=? level (c + 1))) (seqZ 0 128) = true) as H by (vm_compute; reflexivity).
  rewrite forallb_forall in H.
  assert (forall k, 0 <= k < 128 -> 0 <= level k /\ level k <= level (k + 1)) as Hk.
  { intros k Hk. specialize (H k ltac:(apply list_elem_of_In, elem_of_seqZ; lia)). zbool. lia. }
  split; [by apply Hk; lia|]. replace d with (c + (d - c)) by lia. assert (0 <= d - c <= 127 - c) as Hn by lia. revert Hn.
  generalize (d - c). intros n Hn. destruct Hn as [H0 Hn]. revert n H0 Hn. apply (natlike_ind (fun n => n <= 127 - c -> level c <= level (c + n))).
  - intros _. by rewrite Z.add_0_r.
  - intros n Hn IH Hle. transitivity (level (c + n)); [apply IH; lia|]. replace (c + Z.succ n) with (c + n + 1) by lia. apply Hk. lia.
Qed.

(** The sample read back. *)
Lemma ulaw_decode_encode s : -32768 <= s <= 32767 ->
  decode_ulaw (encode_ulaw s) = if s <? 0 then - level (segment (ulaw_magnitude s)) else level (segment (ulaw_magnitude s)).
Proof.
  intros Hs. rewrite encode_segment by done. pose proof (segment_range _ (magnitude_range s Hs)) as Hc.
  destruct (decode_level _ Hc) as [H1 H2]. unfold ulaw_sign. destruct (s <? 0); [|by rewrite Z.add_0_l].
  rewrite <- H2. f_equal. lia.
Qed.

(** The mu-law codec.  Every byte but the negative zero is read back from the sample it stands for; a
    sample read back differs from it by less than a thirty-second of its magnitude above the bias,
    keeps its sign, and the order of samples is kept. *)
Theorem ulaw_codec :
  (forall b, is_u8 b -> b <> 127 -> encode_ulaw (decode_ulaw b) = b) /\
  (forall s, -32768 <= s <= 32767 -> is_u8 (encode_ulaw s) /\
    32 * Z.abs (decode_ulaw (encode_ulaw s) - s) <= Z.abs s + BIAS /\ 0 <= s * decode_ulaw (encode_ulaw s)) /\
  (forall s t, -32768 <= s <= t -> t <= 32767 -> decode_ulaw (encode_ulaw s) <= decode_ulaw (encode_ulaw t)).
Proof.
  split_and!.
  - intros b Hb Hn. pose proof (byte_forall (fun b => (b =? 127) || (encode_ulaw (decode_ulaw b) =? b)) ltac:(vm_compute; reflexivity) b Hb) as H.
    cbn beta in H. apply orb_true_iff in H as [H|H]; zbool; lia.
  - intros s Hs. pose proof (magnitude_range s Hs) as Hx. pose proof (segment_range _ Hx) as Hc. split_and!.
    + rewrite encode_segment by done. unfold in_width, ulaw_sign. destruct (s <? 0); lia.
    + rewrite ulaw_decode_encode by done. pose proof (level_near _ Hx) as Hl.
      assert (ulaw_magnitude s = 32767 -> level (segment (ulaw_magnitude s)) = 32124) as Ht by (intros ->; reflexivity).
      revert Hl Ht. generalize (level (segment (ulaw_magnitude s))). intros l.
      unfold ulaw_magnitude, CLIP, BIAS. destruct (s <? 0) eqn:E; zbool; lia.
    + rewrite ulaw_decode_encode by done. destruct (level_mono _ _ (conj (proj1 Hc) (Z.le_refl _)) (proj2 Hc)) as [Hl _].
      destruct (s <? 0) eqn:E; zbool; nia.
  - intros s t Hs Ht. rewrite !ulaw_decode_encode by lia. pose proof (magnitude_range s ltac:(lia)) as Hx. pose proof (magnitude_range t ltac:(lia)) as Hy.
    pose proof (segment_range _ Hx) as Hc. pose proof (segment_range _ Hy) as Hd.
    destruct (level_mono _ _ (conj (proj1 Hc) (Z.le_refl _)) (proj2 Hc)) as [Hl _].
    destruct (level_mono _ _ (conj (proj1 Hd) (Z.le_refl _)) (proj2 Hd)) as [Hl' _].
    assert (ulaw_magnitude s <= ulaw_magnitude t -> level (segment (ulaw_magnitude s)) <= level (segment (ulaw_magnitude t))) as H1.
    { intros Hm. apply level_mono; [|lia]. split; [lia|]. apply segment_mono; lia. }
    assert (ulaw_magnitude t <= ulaw_magnitude s -> level (segment (ulaw_magnitude t)) <= level (segment (ulaw_magnitude s))) as H2.
    { intros Hm. apply level_mono; [|lia]. split; [lia|]. apply segment_mono; lia. }
    destruct (s <? 0) eqn:Es, (t <? 0) eqn:Et; zbool; try lia.
    + assert (ulaw_magnitude t <= ulaw_magnitude s); [|specialize (H2 ltac:(done)); lia]. unfold ulaw_magnitude.
      rewrite (proj2 (Z.ltb_lt s 0)), (proj2 (Z.ltb_lt t 0)) by lia. lia.
    + apply H1. unfold ulaw_magnitude. rewrite (proj2 (Z.ltb_ge s 0)), (proj2 (Z.ltb_ge t 0)) by lia. lia.
Qed.

Lemma ulaw_codec_witness : encode_ulaw (decode_ulaw 5) = 5 /\ 32 * Z.abs (decode_ulaw (encode_ulaw (-1000)) - -1000) <= 1132.
Proof.
  destruct ulaw_codec as (H1 & H2 & _). split; [apply H1; [split; [discriminate|reflexivity]|discriminate]|].
  destruct (H2 (-1000)) as (_ & H3 & _); [split; discriminate|exact H3].
Defined.

(** ** Energy and silence ([audio.rs]) *)

(** [calculate_rms]: the terms are not negative, so the sign of the zero the sum starts from is lost. *)
Definition calculate_rms (samples : list Z) : float :=
  match samples with
  | [] => f32_zero
  | _ =>
      let square s := let normalized := f64_div (f64_of_Z s) (f64_of_Z 32767) in f64_mul normalized normalized in
      f32_of_f64 (f64_sqrt (f64_div (foldl f64_add f64_zero (map square samples)) (f64_of_Z (zlen samples))))
  end.

Definition rms_silence (samples : list Z) (threshold : float) : bool := SFltb (calculate_rms samples) threshold.

Definition generate_silence (num_samples : nat) : list Z := replicate num_samples 0.

Definition sentence_end (c : ascii) : bool :=
  bool_decide (c = "."%char) || bool_decide (c = "!"%char) || bool_decide (c = "?"%char).

(** The index after the first punctuation before white space or the end. *)
Fixpoint find_sentence_boundary (text : str) : option nat :=
  match text with
  | [] => None
  | c :: r =>
      if sentence_end c && (match r with [] => true | _ => negb (ws_len r =? 0)%nat end) then Some 1%nat
      else S <$> find_sentence_boundary r
  end.

(** A boundary is after a punctuation that white space or the end follows, and the text before it has no such place. *)
Lemma sentence_boundary_spec text n :
  find_sentence_boundary text = Some n ->
  exists before c rest, text = before ++ c :: rest /\ n = S (length before) /\ sentence_end c = true /\
    (rest = [] \/ ws_len rest <> 0%nat) /\
    forall m, (m < n)%nat -> find_sentence_boundary (drop m text) = Some (n - m)%nat.
Proof.
  revert n. induction text as [|c r IH]; intros n; [done|]. cbn [find_sentence_boundary].
  destruct (sentence_end c && _) eqn:E.
  - intros [= <-]. apply andb_prop in E as [Hc Hr]. exists [], c, r. split_and!; try done.
    + destruct r; [by left|]. right. apply negb_true_iff, Nat.eqb_neq in Hr. done.
    + intros [|m] Hm; [|lia]. cbn [drop find_sentence_boundary]. by rewrite Hc, Hr.
  - intros (k & Ek & ->)%fmap_Some. destruct (IH k Ek) as (before & d & rest & -> & -> & Hd & Hr & Hm). exists (c :: before), d, rest.
    split_and!; try done. intros [|m] Hlt; [|apply Hm; lia]. cbn [drop find_sentence_boundary app]. rewrite E. cbn [app] in Ek. by rewrite Ek.
Qed.

(** ** Speech ([pipeline/vad.rs])

    Times are milliseconds of the monotonic clock. *)

Record VadConfig : Type := mkVadConfig { silence_threshold : float; silence_duration_ms : Z; min_utterance_ms : Z }.

Record VadState : Type := mkVad {
  vad_config : VadConfig;
  last_speech_time : Z;
  speech_start : option Z;
  in_utterance : bool;
  last_partial : option str;
  stable_count : Z
}.

Inductive VadDecision : Type := Silence | SpeechStart | SpeechContinue | SpeechEnd.

#[export] Instance vad_decision_eq_dec : EqDecision VadDecision.
Proof. solve_decision. Defined.

#[export] Instance vad_eta : Settable VadState := fun x =>
  mkVad (vad_config x) (last_speech_time x) (speech_start x) (in_utterance x) (last_partial x) (stable_count x).

Definition vad_new (config : VadConfig) (now : Z) : VadState := mkVad config now None false None 0.

Definition vad_reset (now : Z) (v : VadState) : VadState :=
  v <| in_utterance := false |> <| speech_start := None |> <| last_partial := None |> <| stable_count := 0 |> <| last_speech_time := now |>.

(** The tracking of the partial text: whether it changed. *)
Definition track_partial (partial_text : option str) (v : VadState) : bool * VadState :=
  match partial_text with
  | Some text =>
      if decide (last_partial v <> Some text) then (true, v <| last_partial := Some text |> <| stable_count := 0 |>)
      else (false, v <| stable_count := wrap 32 (stable_count v + 1) |>)
  | None => (false, v)
  end.

(** [Instant::duration_since] and [saturating_sub] end at zero. *)
Definition since (now earlier : Z) : Z := Z.max 0 (now - earlier).

Definition vad_process (now : Z) (samples : list Z) (partial_text : option str) (v : VadState) : VadDecision * VadState :=
  let is_speech := SFltb (silence_threshold (vad_config v)) (calculate_rms samples) in
  let '(text_changed, v) := track_partial partial_text v in
  match in_utterance v, is_speech, text_changed with
  | false, true, _ =>
      (SpeechStart, v <| in_utterance := true |> <| speech_start := Some now |> <| last_speech_time := now |>
                      <| last_partial := None |> <| stable_count := 0 |>)
  | true, true, _ | true, _, true => (SpeechContinue, v <| last_speech_time := now |>)
  | true, false, false =>
      let silence_elapsed := since now (last_speech_time v) in
      let utterance_duration := match speech_start v with Some s => since now s | None => 0 end in
      let stability_bonus := if 3 <? stable_count v then 200 else 0 in
      let effective_silence_threshold := since (silence_duration_ms (vad_config v)) stability_bonus in
      if (effective_silence_threshold <=? silence_elapsed) && (min_utterance_ms (vad_config v) <=? utterance_duration) then
        (SpeechEnd, v <| in_utterance := false |> <| speech_start := None |> <| last_partial := None |> <| stable_count := 0 |>)
      else (SpeechContinue, v)
  | false, false, _ => (Silence, v)
  end.

(** *** Utterances

    The frames of a run, and the decisions on them. *)

Record Frame : Type := mkFrame { at_ms : Z; audio : list Z; partial : option str }.

Fixpoint vad_run (fs : list Frame) (v : VadState) : list VadDecision :=
  match fs with
  | [] => []
  | f :: fs => let '(d, v) := vad_process (at_ms f) (audio f) (partial f) v in d :: vad_run fs v
  end.

Section Utterances.
Variable config : VadConfig.

Definition loud (f : Frame) : bool := SFltb (silence_threshold config) (calculate_rms (audio f)).

(** The frames of an utterance so far, the latest first: when it began, its latest text after the
    first frame, and when it was last active, loud or with a new text. *)
Fixpoint began (past : list Frame) : Z :=
  match past with [] => 0 | [f] => at_ms f | _ :: past => began past end.

Fixpoint latest_text (past : list Frame) : option str :=
  match past with
  | [] | [_] => None
  | f :: past => match partial f with Some t => Some t | None => latest_text past end
  end.

Definition changed (past : list Frame) (f : Frame) : bool :=
  match partial f with Some t => bool_decide (latest_text past <> Some t) | None => false end.

Fixpoint last_active (past : list Frame) : Z :=
  match past with
  | [] => 0
  | [f] => at_ms f
  | f :: past => if loud f || changed past f then at_ms f else last_active past
  end.

(** What the detector should say: [None] between utterances, the frames of the utterance inside
    one.  An utterance begins with a loud frame.  It ends with a frame that is neither loud nor has a
    new text, when it has lasted long enough and has been inactive for the silence of the
    configuration, or 200 ms less; it goes on while it is active, short, or not yet inactive for so
    long. *)
Inductive heard : option (list Frame) -> list Frame -> list VadDecision -> Prop :=
| heard_nothing o : heard o [] []
| heard_silence f fs ds : loud f = false -> heard None fs ds -> heard None (f :: fs) (Silence :: ds)
| heard_start f fs ds : loud f = true -> heard (Some [f]) fs ds -> heard None (f :: fs) (SpeechStart :: ds)
| heard_more past f fs ds :
    loud f = true \/ changed past f = true \/ at_ms f - began past < min_utterance_ms config \/
      at_ms f - last_active past < silence_duration_ms config ->
    heard (Some (f :: past)) fs ds -> heard (Some past) (f :: fs) (SpeechContinue :: ds)
| heard_end past f fs ds :
    loud f = false -> changed past f = false -> min_utterance_ms config <= at_ms f - began past ->
    silence_duration_ms config - 200 <= at_ms f - last_active past ->
    heard None fs ds -> heard (Some past) (f :: fs) (SpeechEnd :: ds).

(** The state of the detector and the frames of the utterance. *)
Definition inside (o : option (list Frame)) (v : VadState) : Prop :=
  vad_config v = config /\
  match o with
  | None => in_utterance v = false
  | Some past => past <> [] /\ in_utterance v = true /\ speech_start v = Some (began past) /\
      last_speech_time v = last_active past /\ last_partial v = latest_text past
  end.

Lemma past_times past t : past <> [] -> Forall (fun g => at_ms g <= t) past -> began past <= t /\ last_active past <= t.
Proof.
  induction past as [|f past IH]; [done|]. intros _ [Hf Hp]%Forall_cons. destruct past as [|g past]; [done|].
  destruct IH as [H1 H2]; [done..|]. split; [done|]. change (last_active (f :: g :: past)) with
    (if loud f || changed (g :: past) f then at_ms f else last_active (g :: past)). by destruct (_ || _).
Qed.

Lemma track_spec past f v : latest_text past = last_partial v ->
  (track_partial (partial f) v).1 = changed past f /\
  last_partial (track_partial (partial f) v).2 = match partial f with Some t => Some t | None => latest_text past end /\
  vad_config (track_partial (partial f) v).2 = vad_config v /\ in_utterance (track_partial (partial f) v).2 = in_utterance v /\
  speech_start (track_partial (partial f) v).2 = speech_start v /\ last_speech_time (track_partial (partial f) v).2 = last_speech_time v.
Proof.
  intros E. unfold track_partial, changed. destruct (partial f) as [t|]; [|by rewrite E]. rewrite E. destruct (decide (last_partial v <> Some t)) as [Hn|Hn].
  - by rewrite bool_decide_true.
  - rewrite bool_decide_false by done. cbn. split_and!; try done. destruct (decide (last_partial v = Some t)); [done|by destruct Hn].
Qed.

Definition before (o : option (list Frame)) (t : Z) : Prop :=
  match o with Some past => Forall (fun g => at_ms g <= t) past | None => True end.

(** One frame: the decision is the one that the frames ask for. *)
Lemma process_frame o v f :
  0 <= min_utterance_ms config -> 0 <= silence_duration_ms config -> inside o v -> before o (at_ms f) ->
  exists d o', (vad_process (at_ms f) (audio f) (partial f) v).1 = d /\
    inside o' (vad_process (at_ms f) (audio f) (partial f) v).2 /\ (o' = None \/ exists past, o' = Some (f :: past) /\ before o (at_ms f) /\ (o = Some past \/ past = [])) /\
    forall fs ds, heard o' fs ds -> heard o (f :: fs) (d :: ds).
Proof.
  intros Hm Hs [Ec Hi] Hb. unfold vad_process. rewrite Ec. fold (loud f). destruct o as [past|].
  - destruct Hi as (Hne & Hu & Hst & Hl & Hp). destruct (track_spec past f v (eq_sym Hp)) as (E1 & E2 & E3 & E4 & E5 & E6).
    destruct (track_partial (partial f) v) as [c v']. cbn [fst snd] in *. rewrite E4, Hu, E3, E5, E6, Hst, Hl, Ec. subst c.
    destruct (past_times past (at_ms f) Hne Hb) as [Hg Ha].
    assert (forall v2, vad_config v2 = config -> in_utterance v2 = true -> speech_start v2 = speech_start v' -> last_partial v2 = last_partial v' ->
      last_speech_time v2 = (if loud f || changed past f then at_ms f else last_active past) -> inside (Some (f :: past)) v2) as Hin.
    { intros v2 H1 H2 H3 H4 H5. split; [done|]. destruct past as [|g past]; [done|]. split_and!; [done|done|by rewrite H3, E5, Hst|by rewrite H5|by rewrite H4, E2]. }
    assert (forall v2, inside (Some (f :: past)) v2 -> (loud f = true \/ changed past f = true \/ at_ms f - began past < min_utterance_ms config \/
      at_ms f - last_active past < silence_duration_ms config) ->
      exists d o', (SpeechContinue, v2).1 = d /\ inside o' (SpeechContinue, v2).2 /\
        (o' = None \/ exists past', o' = Some (f :: past') /\ before (Some past) (at_ms f) /\ (Some past = Some past' \/ past' = [])) /\
        forall fs ds, heard o' fs ds -> heard (Some past) (f :: fs) (d :: ds)) as Hmore.
    { intros v2 H1 H2. exists SpeechContinue, (Some (f :: past)). split_and!; [done|done|right; exists past; auto|]. intros fs ds. by apply heard_more. }
    destruct (loud f) eqn:El; [|destruct (changed past f) eqn:Ech].
    + apply Hmore; [|auto]. apply Hin; cbn; congruence.
    + apply Hmore; [|auto]. apply Hin; cbn; congruence.
    + unfold since at 1 3. destruct (_ && _) eqn:Ee.
      * exists SpeechEnd, None. split_and!; [done|split; [by rewrite <- Ec, <- E3|done]|by left|]. intros fs ds. zbool. unfold since in *.
        apply heard_end; try done; destruct (3 <? stable_count v'); lia.
      * apply Hmore; [apply Hin; [by rewrite E3|by rewrite E4|done|done|by rewrite E6, Hl]|]. zbool. unfold since in *. right; right. destruct (3 <? stable_count v'); lia.
  - assert (in_utterance (track_partial (partial f) v).2 = false /\ vad_config (track_partial (partial f) v).2 = config) as [E1 E2].
    { unfold track_partial. destruct (partial f) as [t|]; [|done]. destruct (decide _); done. }
    destruct (track_partial (partial f) v) as [c v']. cbn [snd] in *. rewrite E1. destruct (loud f) eqn:El.
    + exists SpeechStart, (Some [f]). split_and!; [done|split; [done|by split_and!]|right; exists []; auto|]. intros fs ds. by apply heard_start.
    + exists Silence, None. split_and!; [done|done|by left|]. intros fs ds. by apply heard_silence.
Qed.

Lemma vad_run_heard o v fs :
  0 <= min_utterance_ms config -> 0 <= silence_duration_ms config -> inside o v ->
  Forall (fun f => before o (at_ms f)) fs -> StronglySorted (fun f g => at_ms f <= at_ms g) fs -> heard o fs (vad_run fs v).
Proof.
  intros Hm Hs. revert o v. induction fs as [|f fs IH]; intros o v Hi Hb Ht; [constructor|]. cbn [vad_run].
  apply StronglySorted_inv in Ht as [Ht Hf]. apply Forall_cons in Hb as [Hbf Hb].
  destruct (process_frame o v f Hm Hs Hi Hbf) as (d & o' & Ed & Hi' & Ho & Hh).
  destruct (vad_process (at_ms f) (audio f) (partial f) v) as [d' v']. cbn [fst snd] in *. subst d'. apply Hh, IH; [done| |done].
  destruct Ho as [->|[past (-> & _ & Hp)]]; [by apply Forall_true|].
  apply Forall_forall. intros g Hg. cbn. rewrite Forall_forall in Hf. rewrite Forall_forall in Hb. specialize (Hf g Hg). specialize (Hb g Hg).
  constructor; [done|]. by destruct Hp as [-> | ->].
Qed.
End Utterances.

(** The detector of speech.  Over frames with times that do not decrease, from a new state, the decisions
    are those of the utterances that the frames hold: an utterance begins with a loud frame, goes on while it
    is active, too short, or not yet silent for the time of the configuration, and ends when it has lasted
    long enough and was silent for that time less at most 200 ms. *)
Theorem vad_utterances config t0 fs :
  0 <= min_utterance_ms config -> 0 <= silence_duration_ms config -> StronglySorted (fun f g => at_ms f <= at_ms g) fs ->
  heard config None fs (vad_run fs (vad_new config t0)).
Proof. intros Hm Hs Ht. apply vad_run_heard; [done..| |done]. by apply Forall_true. Qed.

Definition sample_vad : VadConfig := mkVadConfig (f32_div (f32_of_Z 2) (f32_of_Z 100)) 700 500.

(** Silence, a word of 300 ms, silence. *)
Definition sample_frames : list Frame :=
  [mkFrame 0 [0; 0] None; mkFrame 200 [9000; -9000] None; mkFrame 400 [9000; -9000] (Some #"hi"); mkFrame 600 [0; 0] (Some #"hi");
   mkFrame 1000 [0; 0] None; mkFrame 1200 [0; 0] None].

Lemma vad_utterances_witness :
  heard sample_vad None sample_frames (vad_run sample_frames (vad_new sample_vad 0)) /\
  vad_run sample_frames (vad_new sample_vad 0) = [Silence; SpeechStart; SpeechContinue; SpeechContinue; SpeechContinue; SpeechEnd].
Proof.
  split; [|vm_compute; reflexivity]. apply vad_utterances; [discriminate..|].
  repeat (constructor; [|repeat (constructor; [discriminate|]); constructor]). constructor.
Defined.
