(* ===== verification/GabbyCall.v ===== *)
(** * A call of gabby ([src/crates/gabby/src/call.rs], [pipeline/llm.rs], [pipeline/tts.rs],
      [pipeline/stt.rs], [audio.rs])

    The handler of one call takes audio from RTP packets to the recognizer, what was said to the
    language model, its answer to the synthesizer, and the speech into RTP packets.  The recognizer
    (Vosk), the transform of the resampler (rubato), and what the processes and servers outside answer
    are parameters; a log keeps the outcomes of the requests, the runs of the synthesizer's process and the
    datagrams sent. *)

From S2P Require Import Prelude RStr RtpPacket RFloat Mixer GabbyAudio.
From Stdlib Require Import SpecFloat.

Local Open Scope Z_scope.

(** ** The language model ([pipeline/llm.rs]) *)

Record Message : Type := mkMessage { role : str; content : str }.

#[export] Instance message_eq_dec : EqDecision Message.
Proof. solve_decision. Defined.

Record LlmConfig : Type := mkLlmConfig {
  llm_endpoint : str; llm_model : str; llm_system_prompt : str; llm_temperature : float; llm_max_tokens : Z;
  llm_timeout_secs : Z; max_history_messages : nat
}.

Record ChatRequest : Type := mkChatRequest {
  url : str; chat_model : str; messages : list Message; stream : bool; opt_temperature : float; num_predict : Z
}.

(** What comes of a request: no answer, a status that is not a success, a body that is not the
    expected JSON, the content of the answer. *)
Inductive ChatReply : Type := NotSent | BadStatus | BadBody | Answer (content : str).

Record OllamaClient : Type := mkClient {
  endpoint : str; model : str; system_prompt : str; temperature : float; max_tokens : Z;
  history : list Message; max_history : nat
}.

#[export] Instance client_eta : Settable OllamaClient := fun x =>
  mkClient (endpoint x) (model x) (system_prompt x) (temperature x) (max_tokens x) (history x) (max_history x).

Definition llm_new (config : LlmConfig) : OllamaClient :=
  mkClient (llm_endpoint config) (llm_model config) (llm_system_prompt config) (llm_temperature config)
    (llm_max_tokens config) [] (max_history_messages config).

Definition user (s : str) : Message := mkMessage #"user" s.
Definition assistant (s : str) : Message := mkMessage #"assistant" s.

(** How many messages are removed from a history of [len] with room for [room]. *)
Definition to_remove (len room : nat) : nat := Nat.min ((len - room + 1) / 2 * 2) len.

Definition trim_history (c : OllamaClient) : OllamaClient :=
  if decide (max_history c < length (history c))%nat
  then c <| history := drop (to_remove (length (history c)) (max_history c)) (history c) |> else c.

Definition remember (m : Message) (c : OllamaClient) : OllamaClient := c <| history := history c ++ [m] |>.

(** [chat_complete] up to the request, and from its outcome on. *)
Definition chat_request (user_input : str) (c : OllamaClient) : ChatRequest * OllamaClient :=
  let c := trim_history (remember (user user_input) c) in
  (mkChatRequest (endpoint c ++ #"/api/chat") (model c) (mkMessage #"system" (system_prompt c) :: history c) false
     (temperature c) (max_tokens c), c).

Definition chat_answer (reply : ChatReply) (c : OllamaClient) : str * OllamaClient :=
  match reply with
  | BadStatus => (#"I'm having trouble thinking right now.", c)
  | _ =>
      let response := match reply with
        | Answer content => content
        | BadBody => #"I'm having trouble understanding the response."
        | _ => #"I'm having trouble connecting right now."
        end in
      (response, if is_empty response then c else trim_history (remember (assistant response) c))
  end.

Definition add_assistant_response (response : str) (c : OllamaClient) : OllamaClient :=
  trim_history (remember (assistant response) c).

Definition clear_history (c : OllamaClient) : OllamaClient := c <| history := [] |>.

Definition llm_health_url (c : OllamaClient) : str := endpoint c ++ #"/api/tags".

(** ** The synthesizer ([pipeline/tts.rs]) *)

Record TtsConfig : Type := mkTtsConfig {
  cfg_piper_binary : str; cfg_model_path : str; cfg_config_path : str; cfg_tts_sample_rate : Z; cfg_tts_timeout_secs : Z
}.

Record TtsProcessor : Type := mkTts {
  piper_binary : str; model_path : str; config_path : str; tts_sample_rate : Z; tts_timeout_secs : Z
}.

Inductive TtsError : Type :=
| BinaryNotFound (path : str)
| ModelNotFound (path : str)
| SpawnFailed
| IoError
| TtsTimeout
| SynthesisFailed (code : Z) (stderr : list Z).

(** [exists_] is [Path::exists]. *)
Definition tts_new (exists_ : str -> bool) (config : TtsConfig) : result TtsProcessor TtsError :=
  if negb (exists_ (cfg_piper_binary config)) then Err (BinaryNotFound (cfg_piper_binary config))
  else if negb (exists_ (cfg_model_path config)) then Err (ModelNotFound (cfg_model_path config))
  else Ok (mkTts (cfg_piper_binary config) (cfg_model_path config) (cfg_config_path config) (cfg_tts_sample_rate config)
         (cfg_tts_timeout_secs config)).

Definition try_create_tts (exists_ : str -> bool) (config : TtsConfig) : option TtsProcessor := rok (tts_new exists_ config).

(** A run of the process: it does not start, does not take the text, does not end in time, cannot
    be waited for, or exits (with no code when a signal killed it). *)
Inductive PiperRun : Type :=
| NotSpawned
| NotWritten
| NotInTime
| NotWaited
| Exited (success : bool) (code : option Z) (stderr stdout : list Z).

(** The arguments of the process. *)
Definition piper_args (exists_ : str -> bool) (t : TtsProcessor) : list str :=
  [ #"--model"; model_path t; #"--output-raw"] ++ (if exists_ (config_path t) then [ #"--config"; config_path t] else []).

(** [chunks_exact(2)] with [i16::from_le_bytes]. *)
Fixpoint le_samples (bytes : list Z) : list Z :=
  match bytes with
  | lo :: hi :: r => as_i16 (256 * hi + lo) :: le_samples r
  | _ => []
  end.

(** [&text[..n]] does not panic. *)
Definition is_char_boundary (text : str) (n : nat) : bool :=
  match nth_error text n with Some c => negb (cont c) | None => (n <=? length text)%nat end.

(** [synthesize] from the outcome of the process on; the debug message, when it is wanted, slices the text. *)
Definition synthesized (debug : bool) (text : str) (run : PiperRun) : option (result (list Z) TtsError) :=
  match run with
  | NotSpawned => Some (Err SpawnFailed)
  | NotWritten | NotWaited => Some (Err IoError)
  | NotInTime => Some (Err TtsTimeout)
  | Exited false code stderr _ => Some (Err (SynthesisFailed (default (-1) code) stderr))
  | Exited true _ _ stdout =>
      if debug && negb (is_char_boundary text (Nat.min (length text) 50)) then None else Some (Ok (le_samples stdout))
  end.

(** ** The recognizer ([pipeline/stt.rs]) *)

Inductive DecodingState : Type := Running | Finalized | Failed.

Inductive CompleteResult : Type := Single (text : str) | Multiple (alternatives : list str).

(** Vosk: a result that is not there stands for an [Err] of [accept_waveform]. *)
Class Vosk (V : Type) : Type := {
  recognizer_new : float -> option V;
  vosk_accept_waveform : list Z -> V -> option DecodingState * V;
  vosk_partial_result : V -> str * V;
  vosk_final_result : V -> CompleteResult * V;
  vosk_reset : V -> V
}.

Section Stt.
Context {V : Type} `{!Vosk V}.

Definition stt_from_config (sample_rate : Z) : option V := recognizer_new (f32_of_Z sample_rate).

Definition partial_text_to_option (text : str) : option str := if is_empty text then None else Some text.

Definition complete_result_text (r : CompleteResult) : str :=
  match r with Single text => text | Multiple alternatives => default [] (head alternatives) end.

Definition stt_accept_waveform (samples : list Z) (v : V) : option str * V :=
  let '(state, v) := vosk_accept_waveform samples v in
  match state with
  | Some Running => let '(partial, v) := vosk_partial_result v in (partial_text_to_option partial, v)
  | _ => (None, v)
  end.

Definition stt_final_result (v : V) : str * V :=
  let '(r, v) := vosk_final_result v in (complete_result_text r, v).
End Stt.

(** ** The resampler ([audio.rs]) *)

(** rubato's [FftFixedIn<f32>]: a result that is not there stands for an [Err]. *)
Class Fft (R : Type) : Type := {
  fft_new : Z -> Z -> nat -> option R;
  fft_process : list float -> R -> option (list float) * R;
  fft_reset : R -> R
}.

Record Resampler (R : Type) : Type := mkResampler {
  fft : R; input_rate : Z; output_rate : Z; chunk_size : nat; buffer : list float
}.
Arguments mkResampler {R}.
Arguments fft {R}.
Arguments input_rate {R}.
Arguments output_rate {R}.
Arguments chunk_size {R}.
Arguments buffer {R}.

Section Resampling.
Context {R : Type} `{!Fft R}.

Definition resampler_new (from_rate to_rate : Z) (chunk : nat) : option (Resampler R) :=
  (fun r => mkResampler r from_rate to_rate chunk []) <$> fft_new from_rate to_rate chunk.

Definition rtp_to_vosk : option (Resampler R) := resampler_new 8000 16000 160.
Definition piper_to_rtp : option (Resampler R) := resampler_new 22050 8000 441.
Definition vosk_to_rtp : option (Resampler R) := resampler_new 16000 8000 320.

Definition f32_one : float := f32_of_Z 1.

(** [f32::clamp] with the bounds -1 and 1: a NaN stays. *)
Definition f32_clamp1 (s : float) : float :=
  if SFltb s (f32_of_Z (-1)) then f32_of_Z (-1) else if SFltb f32_one s then f32_one else s.

Definition normalized (s : Z) : float := f32_div (f32_of_Z s) (f32_of_Z 32767).
Definition to_i16 (s : float) : Z := f_as_i16 (f32_mul (f32_clamp1 s) (f32_of_Z 32767)).

(** The complete chunks of the buffer: every round consumes one. *)
Fixpoint resample_chunks (fuel chunk : nat) (buf : list float) (r : R) : list Z * list float * R :=
  match fuel with
  | O => ([], buf, r)
  | S fuel =>
      if decide (chunk <= length buf)%nat then
        let '(o, r) := fft_process (take chunk buf) r in
        let output := match o with Some l => map to_i16 l | None => [] end in
        let '(more, buf, r) := resample_chunks fuel chunk (drop chunk buf) r in
        (output ++ more, buf, r)
      else ([], buf, r)
  end.

Definition resample (samples : list Z) (x : Resampler R) : list Z * Resampler R :=
  let buf := buffer x ++ map normalized samples in
  let '(output, buf, r) := resample_chunks (length buf) (chunk_size x) buf (fft x) in
  (output, mkResampler r (input_rate x) (output_rate x) (chunk_size x) buf).

Definition resampler_flush (x : Resampler R) : list Z * Resampler R :=
  match buffer x with
  | [] => ([], x)
  | buf => resample [] (mkResampler (fft x) (input_rate x) (output_rate x) (chunk_size x)
             (buf ++ replicate (chunk_size x - length buf) f32_zero))
  end.

Definition resampler_reset (x : Resampler R) : Resampler R :=
  mkResampler (fft_reset (fft x)) (input_rate x) (output_rate x) (chunk_size x) [].

(** The fuel suffices: no complete chunk is left. *)
Lemma resample_chunks_done fuel chunk buf r :
  (0 < chunk)%nat -> (length buf <= fuel)%nat -> (length (resample_chunks fuel chunk buf r).1.2 < chunk)%nat.
Proof.
  intros Hc. revert buf r. induction fuel as [|fuel IH]; intros buf r Hf; cbn; [lia|]. destruct (decide _) as [Hl|]; [|cbn; lia].
  destruct (fft_process (take chunk buf) r) as [o r1]. assert (length (drop chunk buf) <= fuel)%nat as Hd by (rewrite length_drop; lia).
  specialize (IH (drop chunk buf) r1 Hd). by destruct (resample_chunks fuel chunk (drop chunk buf) r1) as [[more b] r2].
Qed.

Lemma resample_spec samples x : chunk_size (resample samples x).2 = chunk_size x /\
  ((0 < chunk_size x)%nat -> (length (buffer (resample samples x).2) < chunk_size x)%nat).
Proof.
  unfold resample. pose proof (resample_chunks_done (length (buffer x ++ map normalized samples)) (chunk_size x)
    (buffer x ++ map normalized samples) (fft x)) as H.
  destruct (resample_chunks _ _ _ _) as [[out b] r]. cbn. split; [done|]. intros Hc. by apply H.
Qed.
End Resampling.

(** ** The handler ([call.rs]) *)

Definition GABBY_RTP_HEADER_SIZE : nat := 12.
Definition SAMPLES_PER_FRAME : nat := 160.
Definition PCMU_PAYLOAD_TYPE : Z := 0.
Definition MAX_OUTPUT_BUFFER_SAMPLES : Z := 8000 * 30.
Definition MAX_STT_BUFFER_SAMPLES : Z := 16000 * 10.
Definition MAX_VAD_BUFFER_SAMPLES : Z := 8000 * 10.
Definition DEFAULT_CALL_TIMEOUT_SECS : Z := 300.

(** What is outside the process: the file system, the language model's server, the synthesizer's process
    and the monotonic clock in milliseconds. *)
Class Outside (W : Type) : Type := {
  path_exists : W -> str -> bool;
  post_chat : ChatRequest -> W -> ChatReply * W;
  run_piper : TtsProcessor -> str -> W -> PiperRun * W;
  clock : W -> Z * W
}.

Record CallHandler (V R : Type) : Type := mkHandler {
  call_id : str;
  rtp_sequence : Z;
  rtp_timestamp : Z;
  rtp_ssrc : Z;
  stt : V;
  vad : VadState;
  llm : OllamaClient;
  tts : option TtsProcessor;
  input_resampler : Resampler R;
  output_resampler : option (Resampler R);
  output_buffer : list Z;
  stt_buffer : list Z;
  vad_buffer : list Z;
  greeted : bool;
  last_activity : Z;
  call_timeout : Z
}.
Arguments mkHandler {V R}.
Arguments call_id {V R}.
Arguments rtp_sequence {V R}.
Arguments rtp_timestamp {V R}.
Arguments rtp_ssrc {V R}.
Arguments stt {V R}.
Arguments vad {V R}.
Arguments llm {V R}.
Arguments tts {V R}.
Arguments input_resampler {V R}.
Arguments output_resampler {V R}.
Arguments output_buffer {V R}.
Arguments stt_buffer {V R}.
Arguments vad_buffer {V R}.
Arguments greeted {V R}.
Arguments last_activity {V R}.
Arguments call_timeout {V R}.

#[export] Instance handler_eta V R : Settable (CallHandler V R) := fun x =>
  mkHandler (call_id x) (rtp_sequence x) (rtp_timestamp x) (rtp_ssrc x) (stt x) (vad x) (llm x) (tts x) (input_resampler x)
    (output_resampler x) (output_buffer x) (stt_buffer x) (vad_buffer x) (greeted x) (last_activity x) (call_timeout x).

Inductive CallError : Type := Io | Stt | ResamplerInit.

(** What the handler did outside: requests to the language model, runs of the synthesizer's process with their text,
    and datagrams given to the socket. *)
Inductive Action : Type := Asked (reply : ChatReply) | Ran (text : str) (run : PiperRun) | Sent (packet : list Z).

Record World (V R W : Type) : Type := mkWorld { handler : CallHandler V R; outside : W; log : list Action }.
Arguments mkWorld {V R W}.
Arguments handler {V R W}.
Arguments outside {V R W}.
Arguments log {V R W}.

#[export] Instance world_eta V R W : Settable (World V R W) := fun x => mkWorld (handler x) (outside x) (log x).

(** A handler's code: a function of the state that panics or returns. *)
Definition Code (S A : Type) : Type := S -> option (A * S).

#[export] Instance code_ret S : MRet (Code S) := fun A a s => Some (a, s).
#[export] Instance code_bind S : MBind (Code S) := fun A B k m s => match m s with Some (a, s) => k a s | None => None end.

Inductive CallEvent : Type := Received (datagram : list Z) | ReceiveError | Tick | ShutdownSignal.

Definition greeting : str := #"Hello! I'm Gabby, your voice AI assistant. How can I help you today?".

(** The bytes of a packet. *)
Definition rtp_bytes (sequence timestamp ssrc : Z) (frame : list Z) : list Z :=
  [128; PCMU_PAYLOAD_TYPE] ++ put_u16 sequence ++ put_u32 timestamp ++ put_u32 ssrc ++ map encode_ulaw frame.

(** The latest [max] samples of a buffer. *)
Definition keep_latest (max : Z) (buf : list Z) : list Z :=
  if max <? zlen buf then drop (Z.to_nat (zlen buf - max)) buf else buf.

Section Handler.
Context {V R W : Type} `{!Vosk V} `{!Fft R} `{!Outside W}.

(** Whether [debug] messages are logged. *)
Variable debug : bool.

#[local] Abbreviation C := (Code (World V R W)).

Definition get : C (CallHandler V R) := fun s => Some (handler s, s).
Definition modify (f : CallHandler V R -> CallHandler V R) : C unit := fun s => Some (tt, s <| handler := f (handler s) |>).
Definition ask {A} (f : W -> A * W) : C A := fun s => let '(a, w) := f (outside s) in Some (a, s <| outside := w |>).
Definition emit (a : Action) : C unit := fun s => Some (tt, s <| log := log s ++ [a] |>).
Definition lift {A} (o : option A) : C A := fun s => (fun a => (a, s)) <$> o.

(** [CallHandler::new], once the socket is bound or not. *)
Definition call_new (id : str) (bound : bool) (stt_rate : Z) (vad_config : VadConfig) (llm_config : LlmConfig) (tts_config : TtsConfig)
    (timeout : option Z) (ssrc now : Z) (w : W) : result (CallHandler V R) CallError :=
  if negb bound then Err Io else
  let? recognizer := ok_or (stt_from_config stt_rate) Stt in
  let tts := try_create_tts (path_exists w) tts_config in
  let? input := ok_or rtp_to_vosk ResamplerInit in
  let? output := match tts with Some _ => let? r := ok_or piper_to_rtp ResamplerInit in Ok (Some r) | None => Ok None end in
  Ok (mkHandler id 0 0 ssrc recognizer (vad_new vad_config now) (llm_new llm_config) tts input output [] [] [] false now
        (default DEFAULT_CALL_TIMEOUT_SECS timeout * 1000)).

Definition synthesize (t : TtsProcessor) (text : str) : C (result (list Z) TtsError) :=
  if is_empty (trim text) then mret (Ok []) else run ← ask (run_piper t text); emit (Ran text run);; lift (synthesized debug text run).

(** The speech goes through the resampler into the output buffer. *)
Definition queue (samples : list Z) : C unit :=
  h ← get;
  match output_resampler h with
  | Some r =>
      let '(resampled, r) := resample samples r in
      modify (fun h => h <| output_resampler := Some r |>
                         <| output_buffer := keep_latest MAX_OUTPUT_BUFFER_SAMPLES (output_buffer h ++ resampled) |>)
  | None => mret tt
  end.

Definition synthesize_and_queue (text : str) : C unit :=
  h ← get;
  match tts h with
  | Some t => r ← synthesize t text; match r with Ok samples => queue samples | Err _ => mret tt end
  | None => mret tt
  end.

Definition chat_complete (user_input : str) : C str :=
  h ← get;
  let '(request, c) := chat_request user_input (llm h) in
  modify (fun h => h <| llm := c |>);;
  reply ← ask (post_chat request);
  emit (Asked reply);;
  let '(response, c) := chat_answer reply c in
  modify (fun h => h <| llm := c |>);;
  mret response.

Definition process_user_turn (transcript : str) : C unit :=
  if is_empty (trim transcript) then mret tt
  else response ← chat_complete transcript; synthesize_and_queue response.

Definition send_greeting : C unit :=
  synthesize_and_queue greeting;; modify (fun h => h <| llm := add_assistant_response greeting (llm h) |>).

Definition handle_vad_decision (decision : VadDecision) : C unit :=
  match decision with
  | SpeechEnd =>
      h ← get;
      let '(transcript, v) := stt_final_result (stt h) in
      modify (fun h => h <| stt := v |>);;
      process_user_turn transcript;;
      modify (fun h => h <| stt := vosk_reset (stt h) |>);;
      now ← ask clock;
      modify (fun h => h <| vad := vad_reset now (vad h) |>)
  | _ => mret tt
  end.

(** 200 ms of audio at 16 kHz for the recognizer and at 8 kHz for the detector. *)
Definition stt_chunk : C unit :=
  h ← get;
  let '(partial, v) := stt_accept_waveform (take 3200 (stt_buffer h)) (stt h) in
  now ← ask clock;
  let '(decision, d) := vad_process now (take 1600 (vad_buffer h)) partial (vad h) in
  modify (fun h => h <| stt_buffer := drop 3200 (stt_buffer h) |> <| vad_buffer := drop 1600 (vad_buffer h) |> <| stt := v |> <| vad := d |>);;
  handle_vad_decision decision.

Definition chunk_ready (h : CallHandler V R) : bool := (3200 <=? zlen (stt_buffer h)) && (1600 <=? zlen (vad_buffer h)).

(** Every round consumes from both buffers. *)
Fixpoint stt_chunks (fuel : nat) : C unit :=
  match fuel with
  | O => mret tt
  | S fuel => h ← get; if chunk_ready h then stt_chunk;; stt_chunks fuel else mret tt
  end.

Definition handle_rtp_packet (data : list Z) : C unit :=
  let samples := map decode_ulaw (drop GABBY_RTP_HEADER_SIZE data) in
  h ← get;
  let '(resampled, r) := resample samples (input_resampler h) in
  let to_stt := keep_latest MAX_STT_BUFFER_SAMPLES (stt_buffer h ++ resampled) in
  modify (fun h => h <| input_resampler := r |> <| stt_buffer := to_stt |>
                     <| vad_buffer := keep_latest MAX_VAD_BUFFER_SAMPLES (vad_buffer h ++ samples) |>);;
  stt_chunks (length to_stt).

Definition handle_rtp_receive (data : list Z) : C unit :=
  now ← ask clock;
  modify (fun h => h <| last_activity := now |>);;
  h ← get;
  (if greeted h then mret tt else modify (fun h => h <| greeted := true |>);; send_greeting);;
  if decide (GABBY_RTP_HEADER_SIZE < length data)%nat then handle_rtp_packet data else mret tt.

Definition send_rtp_frame : C unit :=
  h ← get;
  let '(samples, rest) :=
    if decide (SAMPLES_PER_FRAME <= length (output_buffer h))%nat
    then (take SAMPLES_PER_FRAME (output_buffer h), drop SAMPLES_PER_FRAME (output_buffer h))
    else (generate_silence SAMPLES_PER_FRAME, output_buffer h) in
  modify (fun h => h <| output_buffer := rest |> <| rtp_sequence := wrap 16 (rtp_sequence h + 1) |>
                     <| rtp_timestamp := wrap 32 (rtp_timestamp h + Z.of_nat SAMPLES_PER_FRAME) |>);;
  emit (Sent (rtp_bytes (rtp_sequence h) (rtp_timestamp h) (rtp_ssrc h) samples)).

(** One turn of the loop of [run]: whether it goes on.  A datagram is cut to the 2048 bytes of the buffer. *)
Definition call_turn (e : CallEvent) : C bool :=
  match e with
  | Received datagram => handle_rtp_receive (take 2048 datagram);; mret true
  | ReceiveError => mret true
  | Tick =>
      now ← ask clock;
      h ← get;
      if call_timeout h <? since now (last_activity h) then mret false else send_rtp_frame;; mret true
  | ShutdownSignal => mret false
  end.

Fixpoint call_run (es : list CallEvent) : C bool :=
  match es with
  | [] => mret true
  | e :: es => more ← call_turn e; if more : bool then call_run es else mret false
  end.
End Handler.

(** ** The memory of the conversation *)

Inductive LlmOp : Type := Chat (input : str) (reply : ChatReply) | Say (response : str) | Clear.

Definition llm_step (c : OllamaClient) (o : LlmOp) : OllamaClient :=
  match o with
  | Chat input reply => (chat_answer reply (chat_request input c).2).2
  | Say response => add_assistant_response response c
  | Clear => clear_history c
  end.

(** What has been said since the last [Clear]: the questions, and the answers that are not empty, the
    apologies for an answer that did not come among them but for a bad status. *)
Definition answered (reply : ChatReply) : list Message :=
  match reply with
  | BadStatus => []
  | Answer [] => []
  | Answer content => [assistant content]
  | BadBody => [assistant #"I'm having trouble understanding the response."]
  | NotSent => [assistant #"I'm having trouble connecting right now."]
  end.

Definition converse (said : list Message) (o : LlmOp) : list Message :=
  match o with
  | Chat input reply => said ++ [user input] ++ answered reply
  | Say response => said ++ [assistant response]
  | Clear => []
  end.

Definition remembers (c : OllamaClient) (said : list Message) : Prop :=
  history c `suffix_of` said /\ (length (history c) <= max_history c)%nat /\
  (Nat.min (length said) (max_history c - 1) <= length (history c))%nat.

#[local] Arguments to_remove : simpl never.

Lemma remember_trim m c said : remembers c said ->
  remembers (trim_history (remember m c)) (said ++ [m]) /\ max_history (trim_history (remember m c)) = max_history c /\
  system_prompt (trim_history (remember m c)) = system_prompt c /\
  history (trim_history (remember m c)) `suffix_of` history c ++ [m].
Proof.
  intros ([old ->] & Hl & Hm). unfold trim_history, remember. cbn. rewrite !length_app. cbn [length]. rewrite !length_app in Hm.
  destruct (decide _) as [Hd|Hd]; cbn; (split; [|split_and!; try done]).
  - assert (length (history c) = max_history c) as E by lia.
    assert (to_remove (length (history c) + 1) (max_history c) = Nat.min 2 (length (history c) + 1)) as Et.
    { unfold to_remove. rewrite E. by replace (max_history c + 1 - max_history c + 1)%nat with 2%nat by lia. }
    split_and!; cbn.
    + rewrite Et. exists (old ++ take (Nat.min 2 (length (history c) + 1)) (history c ++ [m])). by rewrite <- !app_assoc, take_drop.
    + rewrite length_drop, length_app, Et. change (length [m]) with 1%nat. lia.
    + rewrite length_drop, !length_app, Et. change (length [m]) with 1%nat. lia.
  - exists (take (to_remove (length (history c) + 1) (max_history c)) (history c ++ [m])). by rewrite take_drop.
  - split_and!; cbn; [by exists old; rewrite app_assoc|rewrite length_app; cbn; lia|rewrite !length_app; cbn; lia].
Qed.

Lemma trim_keeps_last m c : (2 <= max_history c)%nat -> (length (history c) <= max_history c)%nat ->
  exists hs, history (trim_history (remember m c)) = hs ++ [m] /\ hs `suffix_of` history c.
Proof.
  intros H2 Hl. unfold trim_history, remember. cbn. rewrite length_app. cbn [length]. destruct (decide _) as [Hd|Hd]; cbn; [|by eexists].
  assert (length (history c) = max_history c) as E by lia. unfold to_remove.
  replace (length (history c) + 1 - max_history c + 1)%nat with 2%nat by lia. change (2 / 2 * 2)%nat with 2%nat.
  rewrite drop_app_le by lia. eexists; split; [done|]. exists (take (Nat.min 2 (length (history c) + 1)) (history c)). by rewrite take_drop.
Qed.

Lemma chat_answer_remembers reply c said : remembers c said -> remembers (chat_answer reply c).2 (said ++ answered reply) /\
  max_history (chat_answer reply c).2 = max_history c /\ system_prompt (chat_answer reply c).2 = system_prompt c.
Proof.
  intros H. destruct reply as [| | |[|a l]]; cbn; rewrite ?app_nil_r; try done;
    match goal with |- context [remember ?m _] => destruct (remember_trim m c said H) as (? & ? & ? & ?) end; done.
Qed.

Lemma llm_step_remembers c o said : remembers c said ->
  remembers (llm_step c o) (converse said o) /\ max_history (llm_step c o) = max_history c /\ system_prompt (llm_step c o) = system_prompt c.
Proof.
  intros H. destruct o as [input reply|response|]; cbn.
  - destruct (remember_trim (user input) c said H) as (H1 & E1 & E2 & _).
    destruct (chat_answer_remembers reply _ _ H1) as (H2 & E3 & E4). rewrite <- app_assoc in H2. split; [done|]. by rewrite E3, E4.
  - by destruct (remember_trim (assistant response) c said H) as (? & ? & ? & ?).
  - split; [|done]. split_and!; cbn; [done|lia|lia].
Qed.

Lemma llm_run_remembers ops c said : remembers c said ->
  remembers (foldl llm_step c ops) (foldl converse said ops) /\ max_history (foldl llm_step c ops) = max_history c /\
  system_prompt (foldl llm_step c ops) = system_prompt c.
Proof.
  revert c said. induction ops as [|o ops IH]; intros c said H; cbn; [done|]. destruct (llm_step_remembers c o said H) as (H1 & E1 & E2).
  destruct (IH _ _ H1) as (H2 & E3 & E4). by rewrite E3, E4.
Qed.

(** The requests to the language model.  After any conversation a request is the system prompt, then the latest
    messages that were exchanged, at least all but two of as many as the configuration allows, and then
    the question; it is never longer than that and the prompt. *)
Theorem llm_context config ops input :
  (2 <= max_history_messages config)%nat ->
  let c := foldl llm_step (llm_new config) ops in
  exists context,
    messages (chat_request input c).1 = mkMessage #"system" (llm_system_prompt config) :: context ++ [user input] /\
    context `suffix_of` foldl converse [] ops /\ (length context < max_history_messages config)%nat /\
    (Nat.min (length (foldl converse [] ops)) (max_history_messages config - 2) <= length context)%nat.
Proof.
  intros H2 c. assert (remembers (llm_new config) []) as H0 by (split_and!; cbn; [done|lia|lia]).
  destruct (llm_run_remembers ops _ _ H0) as ((Hs & Hl & Hm) & E1 & E2). fold c in Hs, Hl, Hm, E1, E2. cbn in E1, E2.
  destruct (trim_keeps_last (user input) c ltac:(lia) Hl) as (hs & Eh & Hh).
  destruct (remember_trim (user input) c _ (conj Hs (conj Hl Hm))) as ((_ & Hl' & Hm') & E3 & E4 & _).
  unfold chat_request. cbn [fst messages]. rewrite E4, E2, Eh. exists hs. rewrite Eh, !length_app in *. cbn [length] in *.
  split_and!; [done|by etrans|lia|lia].
Qed.

Definition sample_llm : LlmConfig := mkLlmConfig #"http://localhost:11434" #"llama3.2:3b" #"You are Gabby" (f32_of_Z 1) 150 30 3.

Lemma llm_context_witness :
  exists context, messages (chat_request #"And now?" (foldl llm_step (llm_new sample_llm)
      [Say #"Hello"; Chat #"Who are you?" (Answer #"Gabby"); Chat #"Why?" BadStatus])).1 =
    mkMessage #"system" #"You are Gabby" :: context ++ [user #"And now?"].
Proof.
  destruct (llm_context sample_llm [Say #"Hello"; Chat #"Who are you?" (Answer #"Gabby"); Chat #"Why?" BadStatus] #"And now?" ltac:(cbn; lia))
    as (context & E & _). by exists context.
Defined.

(** With room for one message the question after the greeting is removed from its own request. *)
Example question_dropped :
  let c := add_assistant_response greeting (mkClient [] [] #"S" (f32_of_Z 1) 1 [] 1) in
  messages (chat_request #"Hi" c).1 = [mkMessage #"system" #"S"].
Proof. vm_compute. reflexivity. Qed.

(** The greeting shifts the pairs: what is removed is an answer and the next question, and the answer to it is left. *)
Example pairs_split :
  let c := foldl llm_step (add_assistant_response #"Hello" (mkClient [] [] #"S" (f32_of_Z 1) 1 [] 4))
             [Chat #"q1" (Answer #"a1"); Chat #"q2" (Answer #"a2")] in
  history c = [assistant #"a1"; user #"q2"; assistant #"a2"].
Proof. vm_compute. reflexivity. Qed.

(** ** What a call keeps

    A run is described with the frames it sent: [None] for silence, or the speech taken from the buffer. *)

Definition sent (l : list Action) : list (list Z) := omap (fun a => match a with Sent p => Some p | _ => None end) l.

(** 16-bit little-endian PCM; an odd byte at the end is left out. *)
Definition pcm (bytes : list Z) : list Z :=
  map (fun i => as_i16 (nth (2 * i) bytes 0 + 256 * nth (2 * i + 1) bytes 0)) (seq 0 (length bytes / 2)).

(** What the synthesizer gave: the output of its runs that ended well. *)
Definition given (l : list Action) : list Z :=
  concat (omap (fun a => match a with Ran _ (Exited true _ _ stdout) => Some (pcm stdout) | _ => None end) l).

(** What an answer of the language model has the caller hear. *)
Definition reply_text (reply : ChatReply) : str :=
  match reply with
  | Answer content => content
  | BadStatus => #"I'm having trouble thinking right now."
  | BadBody => #"I'm having trouble understanding the response."
  | NotSent => #"I'm having trouble connecting right now."
  end.

(** The texts given to the synthesizer, and those that are to be: the greeting and the answers, but for blank ones. *)
Definition texts (l : list Action) : list str := omap (fun a => match a with Ran text _ => Some text | _ => None end) l.
Definition replies (l : list Action) : list str := omap (fun a => match a with Asked reply => Some (reply_text reply) | _ => None end) l.
Definition said_aloud (l : list str) : list str := filter (fun text => is_empty (trim text) = false) l.
Definition script (greeted : bool) (l : list Action) : list str := said_aloud ((if greeted then [greeting] else []) ++ replies l).

(** The complete chunks of [n] of a list, and what is behind them. *)
Definition chunks {A} (n : nat) (l : list A) : list (list A) := map (fun k => take n (drop (k * n) l)) (seq 0 (length l / n)).
Definition rest {A} (n : nat) (l : list A) : list A := drop (length l / n * n) l.

(** The transforms of chunks in a row, and the state they leave. *)
Fixpoint transforms {R} `{!Fft R} (cs : list (list float)) (r : R) : list (option (list float)) * R :=
  match cs with
  | [] => ([], r)
  | c :: cs => let '(o, r) := fft_process c r in let '(os, r) := transforms cs r in (o :: os, r)
  end.

(** The samples as numbers and back; a chunk whose transform failed says nothing. *)
Definition sounds (os : list (option (list float))) : list Z := concat (map (fun o => match o with Some l => map to_i16 l | None => [] end) os).

(** The speech for a resampler that is in state [r] at first: 441 samples at 22050 Hz are transformed at a time, in
    their order; what does not fill a chunk is not heard yet. *)
Definition speech {R} `{!Fft R} (r : R) (samples : list Z) : list Z := sounds (transforms (chunks 441 (map normalized samples)) r).1.

Definition frame_of (f : option (list Z)) : list Z := default (generate_silence SAMPLES_PER_FRAME) f.

Definition packets (ssrc : Z) (frames : list (option (list Z))) : list (list Z) :=
  imap (fun k f => rtp_bytes (wrap 16 (Z.of_nat k)) (wrap 32 (160 * Z.of_nat k)) ssrc (frame_of f)) frames.

Definition spoken (frames : list (option (list Z))) : list Z := concat (omap id frames).

Definition is_frame (f : option (list Z)) : Prop := match f with Some l => length l = SAMPLES_PER_FRAME | None => True end.

(** *** Chunks *)

Lemma chunks_short {A} n (l : list A) : (length l < n)%nat -> chunks n l = [] /\ rest n l = l.
Proof. intros H. unfold chunks, rest. rewrite Nat.div_small by done. done. Qed.

Lemma chunks_one {A} n (l : list A) : (0 < n)%nat -> length l = n -> chunks n l = [l] /\ rest n l = [].
Proof.
  intros Hn E. unfold chunks, rest. rewrite E, Nat.div_same by lia. split; [|by rewrite Nat.mul_1_l, <- E, drop_all].
  cbn. rewrite drop_0, take_ge by lia. done.
Qed.

Lemma chunks_app {A} n (l1 l2 : list A) : (0 < n)%nat ->
  chunks n (l1 ++ l2) = chunks n l1 ++ chunks n (rest n l1 ++ l2) /\ rest n (l1 ++ l2) = rest n (rest n l1 ++ l2).
Proof.
  intros Hn. set (q := (length l1 / n)%nat). assert (q * n <= length l1)%nat as Hq by (pose proof (Nat.Div0.mul_div_le (length l1) n); unfold q; lia).
  assert (drop (q * n) (l1 ++ l2) = rest n l1 ++ l2) as Ed by (by rewrite drop_app_le).
  assert (length (l1 ++ l2) / n = q + length (rest n l1 ++ l2) / n)%nat as El.
  { rewrite <- Ed, length_drop, length_app. rewrite <- Nat.div_add_l by lia. f_equal. lia. }
  split.
  - unfold chunks at 1. rewrite El, seq_app, map_app. f_equal.
    + apply map_ext_in. intros k Hk%in_seq. assert ((k + 1) * n <= q * n)%nat by (apply Nat.mul_le_mono_r; lia).
      rewrite drop_app_le, take_app_le by (rewrite ?length_drop; lia). done.
    + rewrite Nat.add_0_l. unfold chunks. rewrite <- (Nat.add_0_r q) at 1. rewrite <- fmap_add_seq. change (fmap (Nat.add q)) with (map (Nat.add q)).
      rewrite map_map. apply map_ext. intros k. rewrite <- Ed, drop_drop. do 2 f_equal. lia.
  - unfold rest at 1 2. rewrite El, <- Ed, drop_drop. f_equal. lia.
Qed.

Section Speech.
Context {R : Type} `{!Fft R}.

Lemma transforms_app cs cs' (r : R) :
  transforms (cs ++ cs') r = ((transforms cs r).1 ++ (transforms cs' (transforms cs r).2).1, (transforms cs' (transforms cs r).2).2).
Proof.
  revert r. induction cs as [|c cs IH]; intros r; cbn; [by destruct (transforms cs' r)|]. destruct (fft_process c r) as [o r1]. rewrite IH.
  by destruct (transforms cs r1).
Qed.

Lemma resample_chunks_spec fuel n buf (r : R) : (0 < n)%nat -> (length buf <= fuel)%nat ->
  resample_chunks fuel n buf r = (sounds (transforms (chunks n buf) r).1, rest n buf, (transforms (chunks n buf) r).2).
Proof.
  intros Hn. revert buf r. induction fuel as [|fuel IH]; intros buf r Hf.
  { destruct (chunks_short n buf ltac:(lia)) as [-> ->]. done. }
  cbn [resample_chunks]. destruct (decide _) as [Hl|Hl]; [|by destruct (chunks_short n buf ltac:(lia)) as [-> ->]].
  destruct (chunks_one n (take n buf) Hn ltac:(rewrite length_take; lia)) as [Ec Er].
  destruct (chunks_app n (take n buf) (drop n buf) Hn) as [Ea Eb]. rewrite take_drop, Ec, Er in Ea. rewrite take_drop, Er in Eb.
  cbn [app] in Ea, Eb. rewrite Ea, Eb. cbn [transforms]. destruct (fft_process (take n buf) r) as [o r1].
  rewrite IH by (rewrite length_drop; lia). by destruct (transforms (chunks n (drop n buf)) r1).
Qed.

(** The output resampler after the samples of a speech, from its first state. *)
Record tuned (x0 : Resampler R) (samples : list Z) (x : Resampler R) : Prop := {
  tu_size : chunk_size x = 441%nat;
  tu_fft : fft x = (transforms (chunks 441 (map normalized samples)) (fft x0)).2;
  tu_buffer : buffer x = rest 441 (map normalized samples)
}.

(** More samples are heard after what was heard before. *)
Lemma resample_tuned x0 before samples (x : Resampler R) : tuned x0 before x ->
  speech (fft x0) (before ++ samples) = speech (fft x0) before ++ (resample samples x).1 /\
  tuned x0 (before ++ samples) (resample samples x).2.
Proof.
  intros [E1 E2 E3]. unfold resample, speech. rewrite resample_chunks_spec by lia. rewrite E1, E3, E2. cbn [fst snd].
  rewrite map_app. destruct (chunks_app 441 (map normalized before) (map normalized samples) ltac:(lia)) as [Ea Eb].
  rewrite Ea, transforms_app. cbn [fst snd]. split; [unfold sounds; by rewrite map_app, concat_app|].
  constructor; cbn [chunk_size fft buffer]; rewrite ?map_app; [done|by rewrite Ea, transforms_app|done].
Qed.
End Speech.

Lemma le_samples_pcm bytes : le_samples bytes = pcm bytes.
Proof.
  induction bytes as [bytes IH] using (induction_ltof1 _ (@length Z)); unfold ltof in IH. destruct bytes as [|lo [|hi l]]; [done..|].
  cbn [le_samples]. rewrite IH by (cbn; lia). unfold pcm. change (length (lo :: hi :: l)) with (2 + length l)%nat.
  replace ((2 + length l) / 2)%nat with (S (length l / 2)) by (change (2 + length l)%nat with (1 * 2 + length l)%nat; by rewrite Nat.div_add_l).
  cbn [seq map]. f_equal; [f_equal; cbn; lia|]. rewrite <- seq_shift, map_map. apply map_ext. intros i.
  replace (2 * S i)%nat with (S (S (2 * i))) by lia. done.
Qed.

Lemma keep_latest_spec max buf : 0 <= max ->
  zlen (keep_latest max buf) <= max /\ (exists k, keep_latest max buf = drop k buf) /\ (zlen buf <= max -> keep_latest max buf = buf).
Proof.
  intros Hm. unfold keep_latest. destruct (max <? zlen buf) eqn:E; zbool; unfold zlen in *.
  - split_and!; [rewrite length_drop; lia|by eexists|lia].
  - split_and!; [lia|by exists 0%nat|done].
Qed.

Definition resampler_ok {R} (chunk : nat) (r : Resampler R) : Prop := chunk_size r = chunk /\ (length (buffer r) < chunk)%nat.

Lemma resample_ok {R} `{!Fft R} chunk samples (r : Resampler R) :
  (0 < chunk)%nat -> resampler_ok chunk r -> resampler_ok chunk (resample samples r).2.
Proof. intros Hc [<- _]. destruct (resample_spec samples r) as [E H]. split; [done|]. by apply H. Qed.

(** The bounds of the buffers and of the memory. *)
Record handler_ok {V R} (h : CallHandler V R) : Prop := {
  ok_input : resampler_ok 160 (input_resampler h);
  ok_output_resampler : match output_resampler h with Some r => resampler_ok 441 r | None => True end;
  ok_output : zlen (output_buffer h) <= MAX_OUTPUT_BUFFER_SAMPLES;
  ok_stt : zlen (stt_buffer h) <= MAX_STT_BUFFER_SAMPLES;
  ok_vad : zlen (vad_buffer h) <= MAX_VAD_BUFFER_SAMPLES;
  ok_memory : (length (history (llm h)) <= max_history (llm h))%nat
}.

(** The packets, and the speech: what was spoken and what is left in the buffer is the speech of what was given,
    in order, without what the limit of the buffer took from its front.  Without a voice nothing is given. *)
Record played {V R} `{!Fft R} (o0 : option (Resampler R)) (ssrc : Z) (frames : list (option (list Z))) (samples : list Z)
    (h : CallHandler V R) : Prop := {
  pl_sequence : rtp_sequence h = wrap 16 (Z.of_nat (length frames));
  pl_timestamp : rtp_timestamp h = wrap 32 (160 * Z.of_nat (length frames));
  pl_ssrc : rtp_ssrc h = ssrc;
  pl_frames : Forall is_frame frames;
  pl_speech :
    match o0, output_resampler h with
    | Some x0, Some x =>
        is_Some (tts h) /\ tuned x0 samples x /\
        (spoken frames ++ output_buffer h) `sublist_of` speech (fft x0) samples /\
        (zlen (speech (fft x0) samples) <= MAX_OUTPUT_BUFFER_SAMPLES -> spoken frames ++ output_buffer h = speech (fft x0) samples)
    | None, None => tts h = None /\ samples = [] /\ spoken frames ++ output_buffer h = []
    | _, _ => False
    end
}.

Definition call_ok {V R W} `{!Fft R} (o0 : option (Resampler R)) (ssrc : Z) (s : World V R W) : Prop :=
  handler_ok (handler s) /\ exists frames, played o0 ssrc frames (given (log s)) (handler s) /\ sent (log s) = packets ssrc frames.

(** A piece of code preserves a property of the state. *)
Definition keeps {S A} (P : S -> Prop) (m : Code S A) : Prop := forall s a s', P s -> m s = Some (a, s') -> P s'.

Lemma keeps_ret {S A} (P : S -> Prop) (a : A) : keeps P (mret a : Code S A).
Proof. intros s b s' H [= _ <-]. done. Qed.

Lemma keeps_bind {S A B} (P : S -> Prop) (m : Code S A) (k : A -> Code S B) :
  keeps P m -> (forall a, keeps P (k a)) -> keeps P (m ≫= k).
Proof.
  intros Hm Hk s b s' H. unfold mbind, code_bind. destruct (m s) as [[a s1]|] eqn:E; [|done]. intros E2. eapply Hk; [|exact E2]. by eapply Hm.
Qed.

Section Kept.
Context {V R W : Type} `{!Vosk V} `{!Fft R} `{!Outside W}.
Variable debug : bool.
Variable o0 : option (Resampler R).
Variable ssrc : Z.

#[local] Abbreviation C := (Code (World V R W)).
#[local] Abbreviation ok := (call_ok (V:=V) (R:=R) (W:=W) o0 ssrc).

Lemma keeps_get {B} (k : CallHandler V R -> C B) :
  (forall s a s', ok s -> k (handler s) s = Some (a, s') -> ok s') -> keeps ok (get ≫= k).
Proof. intros H s a s' Hs. unfold mbind, code_bind, get. by apply H. Qed.

Lemma keeps_ask {A} (f : W -> A * W) : keeps ok (ask f).
Proof. intros s a s' H. unfold ask. destruct (f (outside s)) as [b w]. intros [= _ <-]. done. Qed.

Lemma keeps_lift {A} (o : option A) : keeps ok (lift o : C A).
Proof. intros s a s' H. unfold lift. destruct o; [|done]. intros [= _ <-]. done. Qed.

(** A change that leaves what is played alone. *)
Lemma keeps_modify (f : CallHandler V R -> CallHandler V R) :
  (forall h, handler_ok h -> handler_ok (f h)) ->
  (forall h, rtp_sequence (f h) = rtp_sequence h /\ rtp_timestamp (f h) = rtp_timestamp h /\ rtp_ssrc (f h) = rtp_ssrc h /\
    output_buffer (f h) = output_buffer h /\ output_resampler (f h) = output_resampler h /\ tts (f h) = tts h) ->
  keeps ok (modify f : C unit).
Proof.
  intros Hok Heq s a s' (H1 & fs & H2 & H3) [= _ <-]. split; [by apply Hok|]. exists fs. split; [|done]. cbn.
  destruct (Heq (handler s)) as (E1 & E2 & E3 & E4 & E5 & E6).
  destruct H2. constructor; rewrite ?E1, ?E2, ?E3, ?E4, ?E5, ?E6; done.
Qed.

(** Speech that is queued is heard behind what was queued before. *)
Lemma queue_ok samples before fs (s : World V R W) a s' :
  handler_ok (handler s) -> played o0 ssrc fs before (handler s) -> is_Some (output_resampler (handler s)) ->
  (queue samples : C unit) s = Some (a, s') ->
  handler_ok (handler s') /\ played o0 ssrc fs (before ++ samples) (handler s') /\ log s' = log s.
Proof.
  intros H1 H2 [x Ex]. unfold queue, mbind, code_bind, get. rewrite Ex.
  pose proof (resample_ok 441 samples x ltac:(lia)) as Hr. destruct H2. rewrite Ex in pl_speech0. destruct o0 as [x0|]; [|done].
  destruct pl_speech0 as (Hv & Ht & Hsub & Hall). destruct (resample_tuned x0 before samples x Ht) as [Es Ht'].
  destruct (resample samples x) as [out x'] eqn:Eo. cbn [fst snd] in *. unfold modify. intros [= _ <-]. cbn.
  destruct (keep_latest_spec MAX_OUTPUT_BUFFER_SAMPLES (output_buffer (handler s) ++ out) ltac:(done)) as (Hl & [k Hk] & Hid).
  split; [|split; [|done]].
  - destruct H1. constructor; cbn; try done. rewrite Ex in ok_output_resampler0. by apply Hr.
  - constructor; cbn; try done. split; [done|]. split; [done|]. rewrite Es. split.
    + rewrite Hk. etrans; [apply sublist_app; [done|apply sublist_drop]|]. rewrite app_assoc. by apply sublist_app.
    + intros Hz. rewrite zlen_app in Hz. pose proof (zlen_nonneg out). specialize (Hall ltac:(lia)). rewrite Hid; [by rewrite app_assoc, Hall|].
      rewrite zlen_app. apply (f_equal zlen) in Hall. rewrite zlen_app in Hall. pose proof (zlen_nonneg (spoken fs)). lia.
Qed.

Lemma send_frame_ok : keeps ok (send_rtp_frame : C unit).
Proof.
  intros s a s' (H1 & fs & H2 & H3). unfold send_rtp_frame, mbind, code_bind, get. cbv beta iota.
  set (f := if decide (SAMPLES_PER_FRAME <= length (output_buffer (handler s)))%nat then Some (take SAMPLES_PER_FRAME (output_buffer (handler s))) else None).
  set (rest := if decide (SAMPLES_PER_FRAME <= length (output_buffer (handler s)))%nat then drop SAMPLES_PER_FRAME (output_buffer (handler s)) else output_buffer (handler s)).
  assert ((if decide (SAMPLES_PER_FRAME <= length (output_buffer (handler s)))%nat
    then (take SAMPLES_PER_FRAME (output_buffer (handler s)), drop SAMPLES_PER_FRAME (output_buffer (handler s)))
    else (generate_silence SAMPLES_PER_FRAME, output_buffer (handler s))) = (frame_of f, rest)) as -> by (unfold f, rest; by destruct (decide _)).
  assert (is_frame f) as Hf by (unfold f; destruct (decide _); [|done]; cbn [is_frame]; rewrite length_take; lia).
  assert (spoken [f] ++ rest = output_buffer (handler s)) as Eo.
  { unfold f, rest, spoken. destruct (decide _); [|done]. cbn [omap list_omap id concat]. rewrite app_nil_r. apply take_drop. }
  assert (zlen rest <= zlen (output_buffer (handler s))) as Hz.
  { rewrite <- Eo, zlen_app. pose proof (zlen_nonneg (spoken [f])). lia. }
  unfold modify, emit. intros [= _ <-]. clearbody f rest. split.
  - destruct H1. constructor; cbn -[Z.add]; try done. lia.
  - exists (fs ++ [f]). destruct H2.
    assert (spoken (fs ++ [f]) ++ rest = spoken fs ++ output_buffer (handler s)) as Es.
    { unfold spoken in *. by rewrite omap_app, concat_app, <- app_assoc, Eo. }
    set (p := Sent _). assert (given (log s ++ [p]) = given (log s)) as Eg.
    { unfold given. rewrite omap_app, concat_app. apply app_nil_r. }
    split; [constructor|]; cbn [set handler log rtp_sequence rtp_timestamp rtp_ssrc output_buffer output_resampler tts]; rewrite ?Eg, ?Es; try done.
    + cbn. rewrite pl_sequence0, length_app. cbn [length]. unfold wrap. rewrite Nat2Z.inj_add, Zplus_mod_idemp_l. done.
    + cbn -[Z.mul]. rewrite pl_timestamp0, length_app. cbn [length]. unfold wrap. rewrite Zplus_mod_idemp_l. change (Z.of_nat SAMPLES_PER_FRAME) with 160. f_equal. lia.
    + apply Forall_app. auto.
    + unfold sent. rewrite omap_app. fold (sent (log s)). rewrite H3. unfold packets. rewrite imap_app. cbn [omap list_omap imap].
      by rewrite Nat.add_0_r, <- pl_sequence0, <- pl_timestamp0, <- pl_ssrc0.
Qed.

Lemma trim_history_bound m c : (length (history c) <= max_history c)%nat ->
  (length (history (trim_history (remember m c))) <= max_history (trim_history (remember m c)))%nat.
Proof.
  intros H. assert (remembers c (history c)) as Hr by (split_and!; [done|done|lia]).
  by destruct (remember_trim m c _ Hr) as ((_ & Hl & _) & _).
Qed.

Lemma chat_answer_bound reply c : (length (history c) <= max_history c)%nat ->
  (length (history (chat_answer reply c).2) <= max_history (chat_answer reply c).2)%nat.
Proof.
  intros H. assert (remembers c (history c)) as Hr by (split_and!; [done|done|lia]).
  by destruct (chat_answer_remembers reply c _ Hr) as ((_ & Hl & _) & _).
Qed.

(** A change of fields that have no bound. *)
Ltac plain := apply keeps_modify; [intros h []; by constructor|intros h; by split_and!].

Lemma synthesize_and_queue_ok text : keeps ok (synthesize_and_queue debug text : C unit).
Proof.
  intros s a s' Hs. unfold synthesize_and_queue, mbind, code_bind, get. destruct (tts (handler s)) as [t|] eqn:Et; [|by intros [= _ <-]].
  destruct Hs as (H1 & fs & H2 & H3). assert (is_Some (output_resampler (handler s))) as Hx.
  { destruct H2. destruct o0, (output_resampler (handler s)); try done. destruct pl_speech0 as [? _]. congruence. }
  unfold synthesize. destruct (is_empty (trim text)).
  { unfold mret, code_ret. intros E. destruct (queue_ok [] _ fs s a s' H1 H2 Hx E) as (H1' & H2' & El).
    split; [done|]. exists fs. rewrite El. by rewrite app_nil_r in H2'. }
  unfold mbind, code_bind, ask, emit, lift. destruct (run_piper t text (outside s)) as [run w]. cbn [outside set].
  set (s1 := mkWorld _ _ _). assert (handler s1 = handler s /\ log s1 = log s ++ [Ran text run]) as [Eh El] by done.
  assert (sent (log s1) = sent (log s)) as Es by (rewrite El; unfold sent; by rewrite omap_app, app_nil_r).
  assert (given (log s1) = given (log s) ++ given [Ran text run]) as Eg by (rewrite El; unfold given; by rewrite omap_app, concat_app).
  rewrite <- Eh in H1, H2, Hx. rewrite <- Es in H3. clearbody s1. destruct (synthesized debug text run) as [[samples|e]|] eqn:Er; [| |done]; cbn.
  - assert (given [Ran text run] = samples) as Ep.
    { destruct run as [| | | |[|] code e o]; try done. unfold synthesized in Er. destruct (debug && _); [done|]. injection Er as <-.
      unfold given. cbn. by rewrite app_nil_r, le_samples_pcm. }
    rewrite Ep in Eg. intros E. destruct (queue_ok samples _ fs s1 a s' H1 H2 Hx E) as (H1' & H2' & El').
    split; [done|]. exists fs. by rewrite El', Eg.
  - intros [= _ <-]. split; [done|]. exists fs. split; [|done]. rewrite Eg.
    assert (given [Ran text run] = []) as ->; [|by rewrite app_nil_r]. destruct run as [| | | |[|] code e' o]; try done.
    unfold synthesized in Er. by destruct (debug && _).
Qed.

Lemma chat_complete_ok input : keeps ok (chat_complete input : C str).
Proof.
  intros s a s' (H1 & fs & H2 & H3). unfold chat_complete, mbind, code_bind, get, modify, ask, mret, code_ret. cbv beta iota.
  pose proof (trim_history_bound (user input) (llm (handler s)) (ok_memory _ H1)) as Hb. unfold chat_request. cbv zeta.
  set (c := trim_history (remember (user input) (llm (handler s)))) in *. clearbody c. cbn [outside set].
  destruct (post_chat _ _) as [reply w]. pose proof (chat_answer_bound reply c Hb) as Hb2. unfold emit. cbn in Hb2 |- *.
  destruct (chat_answer reply c) as [r c'] eqn:E. cbn in *. intros [= _ <-]. split; [destruct H1; by constructor|].
  assert (given (log s ++ [Asked reply]) = given (log s)) as Eg by (unfold given; by rewrite omap_app, concat_app, app_nil_r).
  assert (sent (log s ++ [Asked reply]) = sent (log s)) as Es by (unfold sent; by rewrite omap_app, app_nil_r).
  exists fs. rewrite <- Eg in H2. rewrite <- Es in H3. split; [|exact H3]. destruct H2. by constructor.
Qed.

Lemma user_turn_ok transcript : keeps ok (process_user_turn debug transcript : C unit).
Proof.
  unfold process_user_turn. destruct (is_empty (trim transcript)); [apply keeps_ret|].
  apply keeps_bind; [apply chat_complete_ok|]. intros response. apply synthesize_and_queue_ok.
Qed.

Lemma greeting_ok : keeps ok (send_greeting debug : C unit).
Proof.
  apply keeps_bind; [apply synthesize_and_queue_ok|]. intros _.
  apply keeps_modify; [|intros h; by split_and!]. intros h []. constructor; try done. by apply trim_history_bound.
Qed.

Lemma vad_decision_ok decision : keeps ok (handle_vad_decision debug decision : C unit).
Proof.
  destruct decision; try apply keeps_ret. apply keeps_get. intros s a s' Hs. destruct (stt_final_result (stt (handler s))) as [transcript v].
  revert s a s' Hs. apply keeps_bind; [plain|]. intros _. apply keeps_bind; [apply user_turn_ok|]. intros _.
  apply keeps_bind; [plain|]. intros _. apply keeps_bind; [apply keeps_ask|]. intros now. plain.
Qed.

Lemma zlen_drop k (l : list Z) : zlen (drop k l) <= zlen l.
Proof. unfold zlen. rewrite length_drop. lia. Qed.

Lemma stt_chunk_ok : keeps ok (stt_chunk debug : C unit).
Proof.
  apply keeps_get. intros s a s' Hs. destruct (stt_accept_waveform _ _) as [partial v]. set (h := handler s). clearbody h. revert s a s' Hs.
  apply keeps_bind; [apply keeps_ask|]. intros now. destruct (vad_process _ _ _ _) as [decision d].
  apply keeps_bind; [|intros _; apply vad_decision_ok]. apply keeps_modify; [|intros h0; by split_and!].
  intros h0 []. pose proof (zlen_drop 3200 (stt_buffer h0)). pose proof (zlen_drop 1600 (vad_buffer h0)).
  constructor; try done; cbn -[drop]; lia.
Qed.

Lemma stt_chunks_ok fuel : keeps ok (stt_chunks debug fuel : C unit).
Proof.
  induction fuel as [|fuel IH]; [apply keeps_ret|]. apply keeps_get. intros s a s' Hs. destruct (chunk_ready (handler s)); [|by apply keeps_ret].
  revert s a s' Hs. apply keeps_bind; [apply stt_chunk_ok|]. intros _. exact IH.
Qed.

Lemma rtp_packet_ok data : keeps ok (handle_rtp_packet debug data : C unit).
Proof.
  apply keeps_get. intros s a s' Hs. pose proof (resample_ok 160 (map decode_ulaw (drop GABBY_RTP_HEADER_SIZE data))
    (input_resampler (handler s)) ltac:(lia) (ok_input _ (proj1 Hs))) as Hr. destruct (resample _ _) as [resampled r]. cbn [snd] in Hr.
  set (h := handler s). clearbody h. revert s a s' Hs. apply keeps_bind; [|intros _; apply stt_chunks_ok].
  apply keeps_modify; [|intros h0; by split_and!]. intros h0 []. constructor; try done; by apply keep_latest_spec.
Qed.

Lemma rtp_receive_ok data : keeps ok (handle_rtp_receive debug data : C unit).
Proof.
  unfold handle_rtp_receive. apply keeps_bind; [apply keeps_ask|]. intros now. apply keeps_bind; [plain|]. intros _.
  apply keeps_get. intros s a s' Hs. destruct (greeted (handler s)); revert s a s' Hs; (apply keeps_bind; [|intros _; destruct (decide _); [apply rtp_packet_ok|apply keeps_ret]]).
  - apply keeps_ret.
  - apply keeps_bind; [plain|]. intros _. apply greeting_ok.
Qed.

Lemma call_turn_ok e : keeps ok (call_turn debug e : C bool).
Proof.
  destruct e as [data| | |]; cbn; try apply keeps_ret.
  - apply keeps_bind; [apply rtp_receive_ok|]. intros _. apply keeps_ret.
  - apply keeps_bind; [apply keeps_ask|]. intros now. apply keeps_get. intros s a s' Hs. destruct (_ <? _); [by apply keeps_ret|].
    revert s a s' Hs. apply keeps_bind; [apply send_frame_ok|]. intros _. apply keeps_ret.
Qed.

Lemma call_run_ok es : keeps ok (call_run debug es : C bool).
Proof.
  induction es as [|e es IH]; [apply keeps_ret|]. cbn. apply keeps_bind; [apply call_turn_ok|]. intros [|]; [done|apply keeps_ret].
Qed.
End Kept.

(** *** The buffers between packets *)

Section Chunks.
Context {V R W : Type} `{!Vosk V} `{!Fft R} `{!Outside W}.
Variable debug : bool.

#[local] Abbreviation C := (Code (World V R W)).

Definition buffers (b : list Z * list Z) (s : World V R W) : Prop := (stt_buffer (handler s), vad_buffer (handler s)) = b.

Lemma buffers_modify b f : (forall h, stt_buffer (f h) = stt_buffer h /\ vad_buffer (f h) = vad_buffer h) -> keeps (buffers b) (modify f : C unit).
Proof. intros Hf s a s' H [= _ <-]. unfold buffers in *. cbn. by destruct (Hf (handler s)) as [-> ->]. Qed.

Lemma buffers_ask {A} b (f : W -> A * W) : keeps (buffers b) (ask f : C A).
Proof. intros s a s' H. unfold ask. destruct (f (outside s)) as [x w]. by intros [= _ <-]. Qed.

Lemma buffers_get {B} b (k : CallHandler V R -> C B) : (forall h, keeps (buffers b) (k h)) -> keeps (buffers b) (get ≫= k).
Proof. intros H s a s' Hs. unfold mbind, code_bind, get. by apply H. Qed.

Lemma buffers_queue b text : keeps (buffers b) (synthesize_and_queue debug text : C unit).
Proof.
  apply buffers_get. intros h. destruct (tts h); [|apply keeps_ret]. apply keeps_bind.
  - unfold synthesize. destruct (is_empty _); [apply keeps_ret|]. apply keeps_bind; [apply buffers_ask|].
    intros run. apply keeps_bind; [intros s a s' H [= _ <-]; done|]. intros _ s a s' H. unfold lift. destruct (synthesized debug text run); [|done]. by intros [= _ <-].
  - intros [samples|e]; [|apply keeps_ret]. apply buffers_get. intros h'. destruct (output_resampler h'); [|apply keeps_ret].
    destruct (resample _ _) as [x r']. by apply buffers_modify.
Qed.

Lemma buffers_turn b transcript : keeps (buffers b) (process_user_turn debug transcript : C unit).
Proof.
  unfold process_user_turn. destruct (is_empty _); [apply keeps_ret|]. apply keeps_bind; [|intros; apply buffers_queue].
  apply buffers_get. intros h. destruct (chat_request _ _) as [request c]. apply keeps_bind; [by apply buffers_modify|]. intros _.
  apply keeps_bind; [apply buffers_ask|]. intros reply. apply keeps_bind; [intros s a s' H [= _ <-]; done|]. intros _.
  destruct (chat_answer _ _) as [response c'].
  apply keeps_bind; [by apply buffers_modify|]. intros _. apply keeps_ret.
Qed.

Lemma buffers_decision b decision : keeps (buffers b) (handle_vad_decision debug decision : C unit).
Proof.
  destruct decision; try apply keeps_ret. apply buffers_get. intros h. destruct (stt_final_result _) as [transcript v].
  apply keeps_bind; [by apply buffers_modify|]. intros _. apply keeps_bind; [apply buffers_turn|]. intros _.
  apply keeps_bind; [by apply buffers_modify|]. intros _. apply keeps_bind; [apply buffers_ask|]. intros now. by apply buffers_modify.
Qed.

(** A chunk consumes, so the fuel suffices. *)
Lemma stt_chunk_consumes (s : World V R W) a s' : stt_chunk debug s = Some (a, s') -> stt_buffer (handler s') = drop 3200 (stt_buffer (handler s)).
Proof.
  unfold stt_chunk, mbind, code_bind, get, ask, modify. cbv beta iota. destruct (stt_accept_waveform _ _) as [partial v].
  destruct (clock (outside s)) as [now w]. destruct (vad_process _ _ _ _) as [decision d]. intros E.
  by injection (buffers_decision _ decision _ _ _ eq_refl E).
Qed.

Lemma stt_chunks_consume fuel (s : World V R W) a s' :
  (length (stt_buffer (handler s)) <= fuel)%nat -> stt_chunks debug fuel s = Some (a, s') -> chunk_ready (handler s') = false.
Proof.
  revert s. induction fuel as [|fuel IH]; intros s Hf; cbn [stt_chunks].
  - intros [= _ <-]. unfold chunk_ready, zlen. replace (length (stt_buffer (handler s))) with 0%nat by lia. done.
  - unfold mbind, code_bind, get. destruct (chunk_ready (handler s)) eqn:Er; [|by intros [= _ <-]].
    destruct (stt_chunk debug s) as [[u s1]|] eqn:E1; [|done]. apply IH. rewrite (stt_chunk_consumes _ _ _ E1), length_drop.
    unfold chunk_ready in Er. zbool. unfold zlen in *. lia.
Qed.

Lemma greeting_ready (s : World V R W) a s' : send_greeting debug s = Some (a, s') ->
  chunk_ready (handler s) = false -> chunk_ready (handler s') = false.
Proof.
  intros E Hr. assert (keeps (buffers (stt_buffer (handler s), vad_buffer (handler s))) (send_greeting debug : C unit)) as Hk.
  { apply keeps_bind; [apply buffers_queue|]. intros _. by apply buffers_modify. }
  specialize (Hk s a s' eq_refl E). unfold buffers in Hk. injection Hk as E1 E2. unfold chunk_ready. by rewrite E1, E2.
Qed.

Definition idle (s : World V R W) : Prop := chunk_ready (handler s) = false.

Lemma packet_idle data (s : World V R W) a s' : handle_rtp_packet debug data s = Some (a, s') -> idle s'.
Proof.
  unfold handle_rtp_packet, mbind, code_bind, get, modify. cbv beta iota. destruct (resample _ _) as [resampled r].
  apply stt_chunks_consume. cbn. done.
Qed.

Lemma receive_idle data : keeps idle (handle_rtp_receive debug data : C unit).
Proof.
  apply keeps_bind.
  { intros s a s' H. unfold ask. destruct (clock (outside s)) as [x w]. intros [= _ <-]. exact H. }
  intros now. apply keeps_bind; [intros s a s' H [= _ <-]; exact H|]. intros _ s a s' Hi. unfold mbind at 1, code_bind at 1, get at 1.
  destruct (greeted (handler s)); revert s a s' Hi; (apply keeps_bind; [|intros _; destruct (decide _); [|apply keeps_ret]; intros s a s' _; apply packet_idle]).
  - apply keeps_ret.
  - apply keeps_bind; [intros s a s1 H [= _ <-]; exact H|]. intros _ s a s' H E. exact (greeting_ready _ _ _ E H).
Qed.

Lemma turn_idle e : keeps idle (call_turn debug e : C bool).
Proof.
  destruct e as [data| | |]; cbn; try apply keeps_ret.
  - apply keeps_bind; [apply receive_idle|]. intros _. apply keeps_ret.
  - intros s a s' Hi. unfold mbind, code_bind, ask, get. destruct (clock (outside s)) as [now w]. destruct (_ <? _); [by intros [= _ <-]|].
    unfold send_rtp_frame, mbind, code_bind, get. cbv beta iota. destruct (if decide _ then _ else _) as [samples rest]. by intros [= _ <-].
Qed.

Lemma run_idle es : keeps idle (call_run debug es : C bool).
Proof.
  induction es as [|e es IH]; [apply keeps_ret|]. cbn. apply keeps_bind; [apply turn_idle|]. intros [|]; [done|apply keeps_ret].
Qed.
End Chunks.

(** *** What is spoken *)

Section Voice.
Context {V R W : Type} `{!Vosk V} `{!Fft R} `{!Outside W}.
Variable debug : bool.

#[local] Abbreviation C := (Code (World V R W)).

(** With a synthesizer every text that is to be spoken was given to it; nothing is asked before the greeting. *)
Definition voiced (s : World V R W) : Prop :=
  (is_Some (tts (handler s)) -> texts (log s) = script (greeted (handler s)) (log s)) /\
  (greeted (handler s) = false -> replies (log s) = []).

Lemma voiced_modify f : (forall h, tts (f h) = tts h /\ greeted (f h) = greeted h) -> keeps voiced (modify f : C unit).
Proof. intros Hf s a s' H [= _ <-]. unfold voiced in *. cbn. by destruct (Hf (handler s)) as [-> ->]. Qed.

Lemma voiced_ask {A} (f : W -> A * W) : keeps voiced (ask f : C A).
Proof. intros s a s' H. unfold ask. destruct (f (outside s)) as [x w]. by intros [= _ <-]. Qed.

(** A text goes to the synthesizer unless it is blank. *)
Lemma speech_texts text (s : World V R W) a s' : synthesize_and_queue debug text s = Some (a, s') ->
  tts (handler s') = tts (handler s) /\ greeted (handler s') = greeted (handler s) /\ replies (log s') = replies (log s) /\
  (is_Some (tts (handler s)) -> texts (log s') = texts (log s) ++ said_aloud [text]).
Proof.
  assert (forall samples (s : World V R W) a s', (queue samples : C unit) s = Some (a, s') ->
    tts (handler s') = tts (handler s) /\ greeted (handler s') = greeted (handler s) /\ log s' = log s) as Hq.
  { intros samples s0 a0 s0'. unfold queue, mbind, code_bind, get, modify. destruct (output_resampler (handler s0)) as [x|]; [|by intros [= _ <-]].
    destruct (resample samples x) as [o x']. by intros [= _ <-]. }
  unfold synthesize_and_queue, synthesize, mbind, code_bind, get, ask, emit, lift, said_aloud.
  destruct (tts (handler s)) as [t|] eqn:Et; [|intros [= _ <-]; rewrite Et; split_and!; try done; by intros []].
  rewrite filter_cons, filter_nil. destruct (is_empty (trim text)).
  - unfold mret, code_ret. intros E. apply Hq in E as (E1 & E2 & ->). rewrite E1, E2, Et, decide_False, app_nil_r by done. done.
  - rewrite decide_True by done. destruct (run_piper t text (outside s)) as [run w]. cbn [outside set]. set (s1 := mkWorld _ _ _).
    assert (handler s1 = handler s /\ log s1 = log s ++ [Ran text run]) as [Eh El] by done. clearbody s1.
    assert (texts (log s1) = texts (log s) ++ [text] /\ replies (log s1) = replies (log s)) as [Ex Ep]
      by (rewrite El; unfold texts, replies; by rewrite !omap_app, app_nil_r).
    rewrite <- Ex, <- Ep, <- Et, <- Eh. destruct (synthesized debug text run) as [[samples|e]|]; cbn; [| |done].
    + intros E. by apply Hq in E as (-> & -> & ->).
    + by intros [= _ <-].
Qed.

(** The answer to the user is what came of the request. *)
Lemma chat_replies input (s : World V R W) response s' : (chat_complete input : C str) s = Some (response, s') ->
  tts (handler s') = tts (handler s) /\ greeted (handler s') = greeted (handler s) /\ texts (log s') = texts (log s) /\
  replies (log s') = replies (log s) ++ [response].
Proof.
  unfold chat_complete, mbind, code_bind, get, modify, ask, emit, mret, code_ret. destruct (chat_request _ _) as [request c]. cbn [outside set].
  destruct (post_chat _ _) as [reply w]. destruct (chat_answer reply c) as [r c'] eqn:E. intros [= <- <-]. cbn.
  split_and!; [done|done|unfold texts; by rewrite omap_app, app_nil_r|]. unfold replies. rewrite omap_app. f_equal. cbn. f_equal.
  destruct reply as [| | |content]; by injection E.
Qed.

Lemma said_aloud_app l l' : said_aloud (l ++ l') = said_aloud l ++ said_aloud l'.
Proof. apply filter_app. Qed.

Lemma user_turn_voiced transcript (s : World V R W) a s' : greeted (handler s) = true ->
  voiced s -> process_user_turn debug transcript s = Some (a, s') -> voiced s' /\ greeted (handler s') = true.
Proof.
  intros Hg Hvoiced. unfold process_user_turn. destruct (is_empty (trim transcript)); [by intros [= _ <-]|]. destruct Hvoiced as [Hv _].
  unfold mbind, code_bind. destruct (chat_complete transcript s) as [[response s1]|] eqn:E1; [|done].
  apply chat_replies in E1 as (T1 & G1 & X1 & P1). intros E2. apply speech_texts in E2 as (T2 & G2 & P2 & X2).
  split; [|congruence]. split; [|rewrite G2, G1, Hg; done]. rewrite T2, T1. intros Ht. rewrite X2 by (by rewrite T1).
  rewrite X1, Hv by done. unfold script. by rewrite G2, G1, P2, P1, app_assoc, (said_aloud_app _ [response]).
Qed.

(** The greeting comes first. *)
Lemma greeting_voiced (s : World V R W) a s' : greeted (handler s) = false -> voiced s ->
  (modify (fun h => h <| greeted := true |>);; send_greeting debug : C unit) s = Some (a, s') -> voiced s' /\ greeted (handler s') = true.
Proof.
  intros Hg [Hv Hr]. unfold send_greeting, mbind, code_bind, modify. set (s1 := set handler _ s).
  destruct (synthesize_and_queue debug greeting s1) as [[u s2]|] eqn:E; [|done]. apply speech_texts in E as (T & G & P & X).
  intros [= _ E3]. assert (log s' = log s2 /\ tts (handler s') = tts (handler s2) /\
    greeted (handler s') = greeted (handler s2)) as (L3 & T3 & G3) by by rewrite <- E3. clear E3.
  change (replies (log s1)) with (replies (log s)) in P. change (texts (log s1)) with (texts (log s)) in X.
  change (greeted (handler s1)) with true in G. change (tts (handler s1)) with (tts (handler s)) in T, X. rewrite (Hr Hg) in P.
  unfold voiced. rewrite L3, T3, G3, G, T. split; [|done]. split; [|done]. intros Ht.
  rewrite X, Hv by done. unfold script. rewrite Hg, (Hr Hg), P. done.
Qed.

(** Between packets, and in the parts of a turn once the caller was greeted. *)
Definition talking (s : World V R W) : Prop := voiced s /\ greeted (handler s) = true.

Lemma talking_modify f : (forall h, tts (f h) = tts h /\ greeted (f h) = greeted h) -> keeps talking (modify f : C unit).
Proof. intros Hf s a s' [H1 H2] E. split; [by eapply voiced_modify|]. injection E as _ <-. cbn. by destruct (Hf (handler s)) as [_ ->]. Qed.

Lemma talking_ask {A} (f : W -> A * W) : keeps talking (ask f : C A).
Proof. intros s a s' [H1 H2] E. split; [by eapply voiced_ask|]. unfold ask in E. destruct (f (outside s)) as [x w]. by injection E as _ <-. Qed.

Lemma talking_get {B} (k : CallHandler V R -> C B) : (forall h, keeps talking (k h)) -> keeps talking (get ≫= k).
Proof. intros H s a s' Hs. unfold mbind, code_bind, get. by apply H. Qed.

Lemma decision_talking decision : keeps talking (handle_vad_decision debug decision : C unit).
Proof.
  destruct decision; try apply keeps_ret. apply talking_get. intros h. destruct (stt_final_result _) as [transcript v].
  apply keeps_bind; [by apply talking_modify|]. intros _. apply keeps_bind; [|intros _].
  { intros s a s' [Hv Hg]. by apply user_turn_voiced. }
  apply keeps_bind; [by apply talking_modify|]. intros _. apply keeps_bind; [apply talking_ask|]. intros now. by apply talking_modify.
Qed.

Lemma chunks_talking fuel : keeps talking (stt_chunks debug fuel : C unit).
Proof.
  induction fuel as [|fuel IH]; [apply keeps_ret|]. apply talking_get. intros h. destruct (chunk_ready h); [|apply keeps_ret].
  apply keeps_bind; [|intros _; exact IH]. apply talking_get. intros h1. destruct (stt_accept_waveform _ _) as [partial v].
  apply keeps_bind; [apply talking_ask|]. intros now. destruct (vad_process _ _ _ _) as [decision d].
  apply keeps_bind; [by apply talking_modify|]. intros _. apply decision_talking.
Qed.

Lemma packet_talking data : keeps talking (handle_rtp_packet debug data : C unit).
Proof.
  apply talking_get. intros h. destruct (resample _ _) as [resampled r]. apply keeps_bind; [by apply talking_modify|]. intros _. apply chunks_talking.
Qed.

Lemma receive_voiced data : keeps voiced (handle_rtp_receive debug data : C unit).
Proof.
  apply keeps_bind; [apply voiced_ask|]. intros now. apply keeps_bind; [by apply voiced_modify|]. intros _ s a s' Hv.
  unfold mbind at 1, code_bind at 1, get at 1. unfold mbind at 1, code_bind at 1.
  assert (forall (s : World V R W) a s', talking s ->
    (if decide (GABBY_RTP_HEADER_SIZE < length data)%nat then handle_rtp_packet debug data else mret tt : C unit) s = Some (a, s') -> voiced s') as Hrest.
  { intros s0 a0 s0' H0. destruct (decide _); [|by intros [= _ <-]; apply H0]. intros E. by apply (packet_talking data _ _ _ H0 E). }
  destruct (greeted (handler s)) eqn:Eg.
  - unfold mret at 1, code_ret at 1. apply Hrest. done.
  - destruct ((modify _;; send_greeting debug : C unit) s) as [[u s1]|] eqn:E1; [|done]. apply Hrest. by eapply greeting_voiced.
Qed.

Lemma turn_voiced e : keeps voiced (call_turn debug e : C bool).
Proof.
  destruct e as [data| | |]; cbn; try apply keeps_ret.
  - apply keeps_bind; [apply receive_voiced|]. intros _. apply keeps_ret.
  - intros s a s' Hv. unfold mbind, code_bind, ask, get. destruct (clock (outside s)) as [now w]. destruct (_ <? _); [by intros [= _ <-]|].
    unfold send_rtp_frame, mbind, code_bind, get. cbv beta iota. destruct (if decide _ then _ else _) as [samples rest].
    intros [= _ <-]. unfold voiced, script, texts, replies in *. cbn. by rewrite !omap_app, !app_nil_r.
Qed.

Lemma run_voiced es : keeps voiced (call_run debug es : C bool).
Proof.
  induction es as [|e es IH]; [apply keeps_ret|]. cbn. apply keeps_bind; [apply turn_voiced|]. intros [|]; [done|apply keeps_ret].
Qed.
End Voice.

(** *** Code that returns *)

Definition runs {S A} (m : Code S A) : Prop := forall s, is_Some (m s).

Lemma runs_bind {S A B} (m : Code S A) (k : A -> Code S B) : runs m -> (forall a, runs (k a)) -> runs (m ≫= k).
Proof. intros Hm Hk s. unfold mbind, code_bind. destruct (Hm s) as [[a s1] ->]. apply Hk. Qed.

Lemma runs_ret {S A} (a : A) : runs (mret a : Code S A).
Proof. intros s. by eexists. Qed.

Section Returns.
Context {V R W : Type} `{!Vosk V} `{!Fft R} `{!Outside W}.

#[local] Abbreviation C := (Code (World V R W)).

Lemma runs_get : runs (get : C (CallHandler V R)).
Proof. intros s. by eexists. Qed.

Lemma runs_modify f : runs (modify f : C unit).
Proof. intros s. by eexists. Qed.

Lemma runs_emit a : runs (emit a : C unit).
Proof. intros s. by eexists. Qed.

Lemma runs_ask {A} (f : W -> A * W) : runs (ask f : C A).
Proof. intros s. unfold ask. destruct (f (outside s)). by eexists. Qed.

Lemma runs_synthesized text run : runs (lift (synthesized false text run) : C (result (list Z) TtsError)).
Proof. intros s. unfold lift. destruct run as [| | | |[|] code e o]; by eexists. Qed.

(** Walk through code, with a tactic for the parts that are known to return. *)
Ltac returns_by known :=
  repeat first
    [ known | apply runs_ret | apply runs_get | apply runs_modify | apply runs_emit | apply runs_ask | apply runs_synthesized
    | apply runs_bind; [|intros]
    | match goal with |- runs (match ?e with _ => _ end) => destruct e end ].
Ltac returns := returns_by fail.

Lemma speech_returns text : runs (synthesize_and_queue false text : C unit).
Proof. unfold synthesize_and_queue, synthesize, queue. returns. Qed.

Lemma decision_returns decision : runs (handle_vad_decision false decision : C unit).
Proof.
  destruct decision; cbn [handle_vad_decision]; unfold process_user_turn, chat_complete; returns_by ltac:(apply speech_returns).
Qed.

Lemma chunks_return fuel : runs (stt_chunks false fuel : C unit).
Proof.
  induction fuel as [|fuel IH]; cbn [stt_chunks]; unfold stt_chunk; returns_by ltac:(first [exact IH|apply decision_returns]).
Qed.

Lemma turn_returns e : runs (call_turn false e : C bool).
Proof.
  destruct e as [data| | |]; cbn [call_turn]; unfold send_rtp_frame, handle_rtp_receive, send_greeting, handle_rtp_packet;
    returns_by ltac:(first [apply speech_returns|apply chunks_return]).
Qed.

Lemma run_returns es : runs (call_run false es : C bool).
Proof. induction es as [|e es IH]; cbn [call_run]; returns_by ltac:(first [apply turn_returns|exact IH]). Qed.

(** *** A call from its beginning *)

Lemma call_new_ok id bound rate vc lc tc timeout ssrc now w h :
  call_new id bound rate vc lc tc timeout ssrc now w = Ok h ->
  call_ok (output_resampler h) ssrc (mkWorld h w []) /\ chunk_ready h = false /\ greeted h = false.
Proof.
  unfold call_new. destruct bound; [|done]. destruct (stt_from_config rate) as [v|]; [|done]. cbn.
  assert (forall from to n (r : Resampler R), resampler_new from to n = Some r ->
    (0 < n)%nat -> resampler_ok n r /\ chunk_size r = n /\ buffer r = []) as Hn.
  { intros from to n r. unfold resampler_new. destruct (fft_new from to n); [|done]. intros [= <-] Hn. split_and!; [split; cbn; lia|done..]. }
  destruct rtp_to_vosk as [input|] eqn:Ei; [|done]. apply Hn in Ei as [Ei _]; [|lia]. cbn.
  assert (forall t (o : option (Resampler R)), 
    match o with Some r => is_Some t /\ chunk_size r = 441%nat /\ buffer r = [] | None => t = None end ->
    call_ok o ssrc (mkWorld (mkHandler id 0 0 ssrc v (vad_new vc now) (llm_new lc) t input o [] [] [] false now
      (default DEFAULT_CALL_TIMEOUT_SECS timeout * 1000)) w [])) as Hok.
  { intros t o Ho. split.
    - constructor; cbn; try first [done|discriminate|lia]. destruct o as [r|]; [|done]. destruct Ho as (_ & E1 & E2). split; [done|rewrite E2; cbn; lia].
    - exists []. split; [constructor|]; cbn; try done. destruct o as [r|]; [|done]. destruct Ho as (Hv & E1 & E2).
      split; [done|]. split; [by constructor|done]. }
  destruct (try_create_tts _ tc) eqn:Et.
  - destruct piper_to_rtp as [output|] eqn:Eo; [|done]. apply Hn in Eo as [_ Eo]; [|lia]. cbn. intros [= <-]. split; [apply Hok; split; [by eexists|done]|done].
  - cbn. intros [= <-]. split; [by apply Hok|done].
Qed.
End Returns.

Lemma rtp_bytes_parse sequence timestamp ssrc frame : is_u16 sequence -> is_u32 timestamp -> is_u32 ssrc ->
  parse (rtp_bytes sequence timestamp ssrc frame) =
    Some (Ok (with_payload (map encode_ulaw frame) (RtpPacket.new PCMU_PAYLOAD_TYPE sequence timestamp ssrc))).
Proof.
  intros Hs Ht Hr. rewrite <- parse_build; [done| |done]. constructor; try done.
Qed.

Lemma lookup_packets ssrc frames k p : packets ssrc frames !! k = Some p ->
  exists f, frames !! k = Some f /\ p = rtp_bytes (wrap 16 (Z.of_nat k)) (wrap 32 (160 * Z.of_nat k)) ssrc (frame_of f).
Proof. unfold packets. rewrite list_lookup_imap. intros (f & Hf & ->)%fmap_Some. by exists f. Qed.

Section Theorems.
Context {V R W : Type} `{!Vosk V} `{!Fft R} `{!Outside W}.

(** C40: what the caller hears.  Every run of a call sends packets that a receiver reads as PCMU without marker, with
    sequence numbers that count them and timestamps that count their samples from zero, modulo the widths, and the
    one SSRC; each carries 160 samples, silence or the next of the speech.  The speech in them and what is left in
    the buffer is the [speech] of what the synthesizer's process gave: the 16-bit samples of the outputs of all runs that
    ended well, in order, cut into chunks of 441, each through the transform of the resampler and back to samples.
    The texts of all runs are the greeting, once a packet has come, and then the answers to every request to the
    language model ([reply_text]), in order, but for blank ones.
    Of the speech nothing is lost while it is no more than 30 s in all.  The samples behind
    the last complete chunk, at most 440, are held back in the resampler until the next output; nothing flushes them.
    Without a synthesizer the buffer stays empty. *)
Theorem gabby_call_speech debug id bound rate vc lc tc timeout ssrc now (w : W) (h : CallHandler V R) es more s :
  is_u32 ssrc -> call_new id bound rate vc lc tc timeout ssrc now w = Ok h ->
  call_run debug es (mkWorld h w []) = Some (more, s) ->
  exists frames, length (sent (log s)) = length frames /\ Forall is_frame frames /\
    (forall k p, sent (log s) !! k = Some p -> exists f, frames !! k = Some f /\
      parse p = Some (Ok (with_payload (map encode_ulaw (frame_of f))
        (RtpPacket.new PCMU_PAYLOAD_TYPE (wrap 16 (Z.of_nat k)) (wrap 32 (160 * Z.of_nat k)) ssrc)))) /\
    match output_resampler h, output_resampler (handler s) with
    | Some x0, Some x =>
        texts (log s) = script (greeted (handler s)) (log s) /\
        (spoken frames ++ output_buffer (handler s)) `sublist_of` speech (fft x0) (given (log s)) /\
        (zlen (speech (fft x0) (given (log s))) <= MAX_OUTPUT_BUFFER_SAMPLES ->
           spoken frames ++ output_buffer (handler s) = speech (fft x0) (given (log s))) /\
        buffer x = rest 441 (map normalized (given (log s))) /\ (length (buffer x) < 441)%nat
    | None, None => given (log s) = [] /\ spoken frames ++ output_buffer (handler s) = []
    | _, _ => False
    end.
Proof.
  intros Hs Hn Hr. apply call_new_ok in Hn as (H0 & _ & Hg).
  destruct (call_run_ok debug (output_resampler h) ssrc es _ _ _ H0 Hr) as [Hok (frames & [] & E)].
  exists frames. split_and!; [|done| |].
  - rewrite E. unfold packets. apply length_imap.
  - intros k p Hp. rewrite E in Hp. destruct (lookup_packets _ _ _ _ Hp) as (f & Hf & ->). exists f. split; [done|].
    apply rtp_bytes_parse; [by apply wrap_range..|done].
  - pose proof (ok_output_resampler _ Hok) as Hb. destruct (output_resampler h) as [x0|], (output_resampler (handler s)) as [x|]; try done.
    + destruct pl_speech0 as (Hv & [_ _ Ht] & H1 & H2).
      assert (voiced s) as [Hvoice _] by (refine (run_voiced debug es _ _ _ _ Hr); split; [cbn; by rewrite Hg|done]).
      split_and!; [by apply Hvoice|done|done|done|apply Hb].
    + by destruct pl_speech0 as (_ & ? & ?).
Qed.

(** A call stays within its bounds.  Every run keeps the buffers of speech, of the recognizer, of the detector
    and of the resamplers and the memory of the model within their limits, and between events no complete chunk
    waits; without debug messages the handler does not panic, whatever is outside. *)
Theorem gabby_call_bounded debug id bound rate vc lc tc timeout ssrc now (w : W) (h : CallHandler V R) es :
  call_new id bound rate vc lc tc timeout ssrc now w = Ok h ->
  (debug = false -> is_Some (call_run debug es (mkWorld h w []))) /\
  forall more s, call_run debug es (mkWorld h w []) = Some (more, s) -> handler_ok (handler s) /\ chunk_ready (handler s) = false.
Proof.
  intros Hn. apply call_new_ok in Hn as (H0 & Hi & _). split; [intros ->; apply run_returns|].
  intros more s Hr. split; [by destruct (call_run_ok debug (output_resampler h) ssrc es _ _ _ H0 Hr)|]. by eapply (run_idle debug es); [|exact Hr].
Qed.
End Theorems.

(** *** A call *)

(** A recognizer that hears the same words, a resampler that keeps the first 161 samples of a chunk, a synthesizer
    that gives 500 samples, a clock of 20 ms. *)
#[local] Instance sample_vosk : Vosk unit := {|
  recognizer_new _ := Some tt; vosk_accept_waveform _ _ := (Some Running, tt); vosk_partial_result _ := (#"hi", tt);
  vosk_final_result _ := (Single #"hi", tt); vosk_reset _ := tt |}.

#[local] Instance sample_fft : Fft unit := {|
  fft_new _ _ _ := Some tt; fft_process l _ := (Some (take 161 l), tt); fft_reset _ := tt |}.

#[local] Instance sample_outside : Outside Z := {|
  path_exists _ _ := true; post_chat _ w := (Answer #"Yes.", w);
  run_piper _ _ w := (Exited true (Some 0) [] (concat (replicate 500 [232; 3])), w); clock w := (w, w + 20) |}.

Definition sample_tts : TtsConfig := mkTtsConfig #"piper" #"voice.onnx" #"voice.json" 22050 30.

Definition sample_call : result (CallHandler unit unit) CallError :=
  call_new #"c1" true 16000 sample_vad sample_llm sample_tts None 7 0 0.

Definition sample_events : list CallEvent := [Received (replicate 13 255); Tick; Tick; ShutdownSignal; Tick].

Lemma sample_call_runs :
  match sample_call with
  | Ok h => match call_run false sample_events (mkWorld h 0 []) with
            | Some (more, s) =>
                negb more && (length (sent (log s)) =? 2)%nat && bool_decide (given (log s) = replicate 500 1000) &&
                match output_resampler h, output_resampler (handler s) with
                | Some x0, Some x => bool_decide (speech (fft x0) (given (log s)) = replicate 161 1000) && (length (buffer x) =? 59)%nat
                | _, _ => false
                end
            | None => false
            end
  | Err _ => false
  end = true.
Proof. vm_compute. reflexivity. Qed.

(** The first frame of the greeting is sent, its next sample waits in the buffer and 59 in the resampler. *)
Lemma gabby_call_speech_witness :
  exists h more s frames, sample_call = Ok h /\ call_run false sample_events (mkWorld h 0 []) = Some (more, s) /\
    length (sent (log s)) = length frames /\ given (log s) = replicate 500 1000 /\
    spoken frames ++ output_buffer (handler s) = replicate 161 1000.
Proof.
  pose proof sample_call_runs as Hrun. destruct sample_call as [h|e] eqn:Eh; [|discriminate Hrun].
  destruct (call_run false sample_events (mkWorld h 0 [])) as [[more s]|] eqn:Er; [|discriminate Hrun].
  destruct (gabby_call_speech false #"c1" true 16000 sample_vad sample_llm sample_tts None 7 0 0 h sample_events more s
    ltac:(split; [discriminate|reflexivity]) Eh Er) as (frames & H1 & _ & _ & H2).
  apply andb_prop in Hrun as [Hrun Hx]. apply andb_prop in Hrun as [_ Hg]. apply bool_decide_eq_true in Hg.
  destruct (output_resampler h) as [x0|]; [|discriminate Hx].
  destruct (output_resampler (handler s)) as [x|]; [|discriminate Hx].
  apply andb_prop in Hx as [Hx _]. apply bool_decide_eq_true in Hx. destruct H2 as (_ & _ & H2 & _). rewrite Hx in H2.
  exists h, more, s, frames. split; [reflexivity|split; [exact Er|split; [exact H1|split; [exact Hg|]]]]. apply H2. discriminate.
Defined.

Lemma gabby_call_bounded_witness :
  exists h more s, sample_call = Ok h /\ call_run false sample_events (mkWorld h 0 []) = Some (more, s) /\ handler_ok (handler s).
Proof.
  pose proof sample_call_runs as Hrun. destruct sample_call as [h|e] eqn:Eh; [|discriminate Hrun].
  destruct (gabby_call_bounded false #"c1" true 16000 sample_vad sample_llm sample_tts None 7 0 0 h sample_events Eh) as [H1 H2].
  destruct (H1 eq_refl) as [[more s] Er]. destruct (H2 more s Er) as [H3 _]. by exists h, more, s.
Defined.

(** With debug messages a long answer whose fiftieth byte is inside a character ends the handler. *)
Example debug_message_panics :
  synthesized true (replicate 49 "a"%char ++ [chr 195; chr 169]) (Exited true (Some 0) [] []) = None.
Proof. vm_compute. reflexivity. Qed.

(** The rest of the speech that does not fill a frame is not sent: silence is. *)
Example rest_not_sent :
  let h := mkHandler (V:=unit) (R:=unit) #"c1" 0 0 7 tt (vad_new sample_vad 0) (llm_new sample_llm) None (mkResampler tt 8000 16000 160 []) None
             (replicate 159 1000) [] [] true 0 300000 in
  option_map (fun p => (length (output_buffer (handler p.2)), log p.2)) (send_rtp_frame (mkWorld h 0 [])) =
  Some (159%nat, [Sent (rtp_bytes 0 0 7 (replicate 160 0))]).
Proof. vm_compute. reflexivity. Qed.
