(* ===== verification/GabbyServer.v ===== *)
(** * The server of gabby ([src/crates/gabby/src/server.rs], [config.rs], [main.rs])

    The server answers INVITE, BYE, CANCEL and OPTIONS over UDP and runs a task for each call it
    answered.  The state of the process is the server's own and the tasks with their channels; the events are
    datagrams and what tasks do. *)

From S2P Require Import Prelude RStr RFloat SipBase SipHeader SipUri SipTyped SipHeaders SipMessage SipBuild Sample RtpPacket Mixer Rtcp GabbyAudio GabbyCall IceCandidate Sdp.
From Stdlib Require Import SpecFloat.

Local Open Scope Z_scope.

(** ** Configuration ([config.rs]) *)

Record ServerConfig : Type := mkServerConfig {
  sip_host : str; sip_port : Z; rtp_port_start : Z; public_ip : option str; call_timeout_secs : option Z
}.

#[export] Instance server_config_eta : Settable ServerConfig := fun x =>
  mkServerConfig (sip_host x) (sip_port x) (rtp_port_start x) (public_ip x) (call_timeout_secs x).

Record SttConfig : Type := mkSttConfig { stt_model_path : str; stt_sample_rate : Z }.

Record GabbyConfig : Type := mkGabbyConfig {
  cfg_server : ServerConfig; cfg_stt : SttConfig; cfg_llm : LlmConfig; cfg_tts : TtsConfig; cfg_vad : VadConfig
}.

#[export] Instance gabby_config_eta : Settable GabbyConfig := fun x =>
  mkGabbyConfig (cfg_server x) (cfg_stt x) (cfg_llm x) (cfg_tts x) (cfg_vad x).

Inductive ConfigError : Type := ReadError | ParseError | InvalidValue (what : str).

Definition default_server : ServerConfig := mkServerConfig #"0.0.0.0" 5060 10000 None None.
Definition default_stt : SttConfig := mkSttConfig #"./models/vosk-model-small-en-us-0.15" 16000.
Definition default_llm : LlmConfig :=
  mkLlmConfig #"http://localhost:11434" #"llama3.2:3b"
    #"You are Gabby, a friendly and helpful voice assistant.
Keep responses concise and natural for spoken conversation.
Avoid markdown, bullet points, or formatting.
Respond in 1-3 sentences."
    (f32_div (f32_of_Z 7) (f32_of_Z 10)) 150 30 20.
Definition default_tts : TtsConfig :=
  mkTtsConfig #"/usr/local/bin/piper" #"./models/en_US-amy-medium.onnx" #"./models/en_US-amy-medium.onnx.json" 22050 60.
Definition default_vad : VadConfig := mkVadConfig (f32_div (f32_of_Z 2) (f32_of_Z 100)) 700 500.
Definition default_config : GabbyConfig := mkGabbyConfig default_server default_stt default_llm default_tts default_vad.

Definition outside_range (x lo hi : float) : bool := SFltb x lo || SFltb hi x.

Definition validate (c : GabbyConfig) : result unit ConfigError :=
  if outside_range (silence_threshold (cfg_vad c)) f32_zero (f32_of_Z 1) then
    Err (InvalidValue #"vad.silence_threshold must be between 0.0 and 1.0")
  else if sip_port (cfg_server c) =? 0 then Err (InvalidValue #"server.sip_port cannot be 0")
  else if rtp_port_start (cfg_server c) =? 0 then Err (InvalidValue #"server.rtp_port_start cannot be 0")
  else if outside_range (llm_temperature (cfg_llm c)) f32_zero (f32_of_Z 2) then
    Err (InvalidValue #"llm.temperature must be between 0.0 and 2.0")
  else if llm_max_tokens (cfg_llm c) =? 0 then Err (InvalidValue #"llm.max_tokens must be greater than 0")
  else if silence_duration_ms (cfg_vad c) =? 0 then Err (InvalidValue #"vad.silence_duration_ms must be greater than 0")
  else Ok tt.

(** [load_or_default]: the file, when it is there, read and parsed by TOML's parser. *)
Definition load_or_default (file : option (result GabbyConfig ConfigError)) : result GabbyConfig ConfigError :=
  let? config := match file with Some parsed => parsed | None => Ok default_config end in
  let? _ := validate config in
  Ok config.

(** [main]'s override comes after the validation. *)
Definition apply_cli_overrides (port : option Z) (c : GabbyConfig) : GabbyConfig :=
  match port with Some p => c <| cfg_server := (cfg_server c) <| sip_port := p |> |> | None => c end.

(** ** Session descriptions *)

Definition utf8_lossy (body : str) : str := map chr (from_utf8_lossy (map code body)).

Definition audio_port_of (ls : list str) : option Z :=
  match find (fun l => starts_with #"m=audio " (trim l)) ls with
  | Some line => let* part := split_whitespace (trim line) !! 1%nat in parse_uint u16_max part
  | None => None
  end.

Definition extract_sdp_audio_port (body : str) : option Z := audio_port_of (lines (utf8_lossy body)).

(** The address after a prefix, without what follows a slash. *)
Definition ip_part (part : str) : str := trim (default [] (head (split "/"%char part))).

Definition connection_ip_of_line (line : str) : option str :=
  let line := trim line in
  match strip_prefix #"c=IN IP4 " line with
  | Some part => if is_empty (ip_part part) then None else Some (ip_part part)
  | None =>
      match strip_prefix #"c=IN IP6 " line with
      | Some part => if is_empty (ip_part part) then None else Some (ip_part part)
      | None => None
      end
  end.

Definition connection_ip_of (ls : list str) : option str := head (omap connection_ip_of_line ls).

Definition extract_sdp_connection_ip (body : str) : option str := connection_ip_of (lines (utf8_lossy body)).

(** The answer; [secs] is the time since the epoch. *)
Definition build_sdp_answer (secs : Z) (local_ip : str) (rtp_port : Z) : str :=
  #"v=0" ++ CRLF ++
  #"o=gabby " ++ dec secs ++ #" 1 IN IP4 " ++ local_ip ++ CRLF ++
  #"s=Gabby Voice AI" ++ CRLF ++
  #"c=IN IP4 " ++ local_ip ++ CRLF ++
  #"t=0 0" ++ CRLF ++
  #"m=audio " ++ dec rtp_port ++ #" RTP/AVP 0" ++ CRLF ++
  #"a=rtpmap:0 PCMU/8000" ++ CRLF ++
  #"a=sendrecv" ++ CRLF.

(** ** The state *)

Section Server.
Context {ip : Type} `{!IpAddr ip}.

(** [Display] and [FromStr] of [SocketAddr]; scopes are left out. *)
Definition sock_to_string (a : SocketAddr ip) : str :=
  (if is_ipv4 (addr_ip a) then ip_to_string (addr_ip a) else #"[" ++ ip_to_string (addr_ip a) ++ #"]") ++ #":" ++ dec (addr_port a).

Definition sock_parse (s : str) : option (SocketAddr ip) :=
  let* (host, port) := rsplit_once ":"%char s in
  let* p := if forallb is_ascii_digit port then parse_uint u16_max port else None in
  match ip_parse host with
  | Some i => if is_ipv4 i then Some (mkSocketAddr i p) else None
  | None =>
      match host with
      | "["%char :: inner =>
          match reverse inner with
          | "]"%char :: r => let* i := ip_parse (reverse r) in if is_ipv4 i then None else Some (mkSocketAddr i p)
          | _ => None
          end
      | _ => None
      end
  end.

Definition resolve_remote_rtp_addr (remote_rtp_ip : option str) (remote_rtp_port : Z) (source : SocketAddr ip) : SocketAddr ip :=
  let fallback := mkSocketAddr (addr_ip source) remote_rtp_port in
  match remote_rtp_ip with
  | Some i => default fallback (sock_parse (i ++ #":" ++ dec remote_rtp_port))
  | None => fallback
  end.

(** A task of a call: it runs, has ended and waits for the server to take its notice, or is over. *)
Inductive Phase : Type := Talking | Noticing | Over.

Record Task : Type := mkTask {
  t_call : str; t_port : Z; t_remote : SocketAddr ip; t_to_tag : str; t_from_tag : str; t_cseq : Z;
  t_signal : bool;  (* the message of the shutdown channel *)
  t_phase : Phase
}.

(** [active_calls] holds the sender of a task's shutdown channel, named by the task, and the port. *)
Record GabbyServer : Type := mkServer {
  config : GabbyConfig;
  local_sip_addr : SocketAddr ip;
  allocated_rtp_ports : gset Z;
  active_calls : gmap str (nat * Z);
  tasks : list Task;
  sent_responses : list (Response * SocketAddr ip)
}.

#[export] Instance task_eta : Settable Task := fun x =>
  mkTask (t_call x) (t_port x) (t_remote x) (t_to_tag x) (t_from_tag x) (t_cseq x) (t_signal x) (t_phase x).

#[export] Instance gabby_server_eta : Settable GabbyServer := fun x =>
  mkServer (config x) (local_sip_addr x) (allocated_rtp_ports x) (active_calls x) (tasks x) (sent_responses x).

Inductive ServerError : Type := IoError | ResponseBuildFailed.

(** Code of the server: a function of the state that returns or fails with an error. *)
Definition Srv (A : Type) : Type := GabbyServer -> result A ServerError * GabbyServer.

#[export] Instance srv_ret : MRet Srv := fun A a s => (Ok a, s).
#[export] Instance srv_bind : MBind Srv := fun A B k m s => match m s with (Ok a, s) => k a s | (Err e, s) => (Err e, s) end.

Definition server : Srv GabbyServer := fun s => (Ok s, s).
Definition change (f : GabbyServer -> GabbyServer) : Srv unit := fun s => (Ok tt, f s).

Definition build_response (b : RespBuilder) : Srv Response := fun s => (map_err (fun _ => ResponseBuildFailed) (resp_build b), s).

(** Whether the socket takes a response. *)
Variable sendable : Response -> bool.

Definition send_response (r : Response) (target : SocketAddr ip) : Srv unit := fun s =>
  if sendable r then (Ok tt, s <| sent_responses := sent_responses s ++ [(r, target)] |>) else (Err IoError, s).

(** ** Ports *)

(** The even offsets of the range: [(range_start..range_end).step_by(2)]. *)
Definition rtp_ports (range_start : Z) : list Z :=
  let range_end := Z.min u16_max (range_start + 10000) in
  map (fun k => range_start + 2 * k) (seqZ 0 ((range_end - range_start + 1) / 2)).

Definition free_port (allocated : gset Z) (range_start : Z) : option Z :=
  snd <$> list_find (fun p => p ∉ allocated) (rtp_ports range_start).

Definition allocate_rtp_port : Srv (option Z) := fun s =>
  match free_port (allocated_rtp_ports s) (rtp_port_start (cfg_server (config s))) with
  | Some p => (Ok (Some p), s <| allocated_rtp_ports := {[p]} ∪ allocated_rtp_ports s |>)
  | None => (Ok None, s)
  end.

Definition free_rtp_port (port : Z) (s : GabbyServer) : GabbyServer :=
  s <| allocated_rtp_ports := allocated_rtp_ports s ∖ {[port]} |>.

(** ** Requests *)

Definition respond (b : RespBuilder) (source : SocketAddr ip) : Srv unit :=
  r ← build_response b; send_response r source.

Definition call_id_of (req : Request) : str := default [] (rok (req_call_id req)).

Definition gabby_contact (s : GabbyServer) : str := #"sip:gabby@" ++ sock_to_string (local_sip_addr s).

(** [draw] is the random tag, [secs] the time since the epoch. *)
Definition handle_invite (draw : str) (secs : Z) (req : Request) (source : SocketAddr ip) : Srv unit :=
  let id := call_id_of req in
  let from_tag := default [] (rok (req_from_tag req)) in
  let cseq := default 1 (rok (req_cseq req)) in
  let remote_rtp_port := default 10000 (extract_sdp_audio_port (r_body req)) in
  let remote_rtp_ip := extract_sdp_connection_ip (r_body req) in
  respond (rs_from_request req (rs_status 100 #"Trying" resp_builder)) source;;
  let to_tag := #"gabby-" ++ draw in
  respond (rs_to_tag to_tag (rs_from_request req (rs_status 180 #"Ringing" resp_builder))) source;;
  port ← allocate_rtp_port;
  match port with
  | None => respond (rs_to_tag to_tag (rs_from_request req (rs_status 503 #"Service Unavailable" resp_builder))) source
  | Some rtp_port =>
      s ← server;
      let local_ip := default (ip_to_string (addr_ip (local_sip_addr s))) (public_ip (cfg_server (config s))) in
      respond (rs_body (build_sdp_answer secs local_ip rtp_port) #"application/sdp"
                 (rs_contact (gabby_contact s) (rs_to_tag to_tag (rs_from_request req (rs_status 200 #"OK" resp_builder))))) source;;
      change (fun s => s <| active_calls := <[id := (length (tasks s), rtp_port)]> (active_calls s) |>
                         <| tasks := tasks s ++ [mkTask id rtp_port (resolve_remote_rtp_addr remote_rtp_ip remote_rtp_port source)
                                                   to_tag from_tag cseq false Talking] |>)
  end.

(** A message into the shutdown channel, when its receiver is there. *)
Definition signal (tid : nat) (s : GabbyServer) : GabbyServer :=
  match tasks s !! tid with
  | Some t => match t_phase t with Talking => s <| tasks := <[tid := t <| t_signal := true |>]> (tasks s) |> | _ => s end
  | None => s
  end.

Definition stop_call (id : str) (s : GabbyServer) : GabbyServer :=
  match active_calls s !! id with
  | Some (tid, rtp_port) => free_rtp_port rtp_port (signal tid (s <| active_calls := delete id (active_calls s) |>))
  | None => s
  end.

Definition handle_bye (req : Request) (source : SocketAddr ip) : Srv unit :=
  respond (rs_from_request req (rs_status 200 #"OK" resp_builder)) source;;
  change (stop_call (call_id_of req)).

Definition handle_cancel (req : Request) (source : SocketAddr ip) : Srv unit :=
  respond (rs_from_request req (rs_status 200 #"OK" resp_builder)) source;;
  change (stop_call (call_id_of req)).

Definition handle_options (req : Request) (source : SocketAddr ip) : Srv unit :=
  s ← server;
  respond (rs_contact (gabby_contact s) (rs_from_request req (rs_status 200 #"OK" resp_builder))) source.

Definition handle_request (draw : str) (secs : Z) (req : Request) (source : SocketAddr ip) : Srv unit :=
  match req_method req with
  | Invite => handle_invite draw secs req source
  | Bye => handle_bye req source
  | Cancel => handle_cancel req source
  | Options => handle_options req source
  | _ => mret tt
  end.

Definition handle_sip_message (draw : str) (secs : Z) (data : str) (source : SocketAddr ip) : Srv unit :=
  match sip_message_parse data with
  | Ok (MRequest req) => handle_request draw secs req source
  | _ => mret tt
  end.

Definition handle_call_end (id : str) (s : GabbyServer) : GabbyServer :=
  match active_calls s !! id with
  | Some (_, rtp_port) => free_rtp_port rtp_port (s <| active_calls := delete id (active_calls s) |>)
  | None => s
  end.
End Server.
Arguments Task : clear implicits.
Arguments GabbyServer : clear implicits.

(** ** The process *)

(** Why a task's loop ends: the message, its sender dropped, or its own reasons (the time limit of a
    silent call, or a handler that could not be made). *)
Inductive Ending : Type := Signalled | SenderDropped | OwnReason.

Inductive ServerEvent (ip : Type) : Type :=
| Datagram (data : str) (source : SocketAddr ip) (draw : str) (secs : Z) (sendable : Response -> bool)
| SocketError
| TaskEnds (tid : nat) (why : Ending)
| TaskPanics (tid : nat)
| Notice (tid : nat).
Arguments Datagram {ip}.
Arguments SocketError {ip}.
Arguments TaskEnds {ip}.
Arguments TaskPanics {ip}.
Arguments Notice {ip}.

Section Process.
Context {ip : Type} `{!IpAddr ip}.

Definition gabby_new (c : GabbyConfig) (local : SocketAddr ip) : GabbyServer ip := mkServer c local ∅ ∅ [] [].

(** The sender of a task's channel is in the table. *)
Definition connected (s : GabbyServer ip) (tid : nat) (t : Task ip) : bool :=
  bool_decide (fst <$> active_calls s !! t_call t = Some tid).

Definition may_end (s : GabbyServer ip) (tid : nat) (t : Task ip) (why : Ending) : bool :=
  match why with
  | Signalled => t_signal t
  | SenderDropped => negb (connected s tid t)
  | OwnReason => true
  end.

Definition set_phase (tid : nat) (t : Task ip) (p : Phase) (s : GabbyServer ip) : GabbyServer ip :=
  s <| tasks := <[tid := t <| t_phase := p |>]> (tasks s) |>.

(** An event, when it can happen.  Notices come in any order. *)
Definition server_event (e : ServerEvent ip) (s : GabbyServer ip) : option (GabbyServer ip) :=
  match e with
  | Datagram data source draw secs sendable => Some (handle_sip_message sendable draw secs data source s).2
  | SocketError => Some s
  | TaskEnds tid why =>
      let* t := tasks s !! tid in
      match t_phase t with
      | Talking => if may_end s tid t why then Some (set_phase tid t Noticing s) else None
      | _ => None
      end
  | TaskPanics tid =>
      let* t := tasks s !! tid in
      match t_phase t with Talking => Some (set_phase tid t Over s) | _ => None end
  | Notice tid =>
      let* t := tasks s !! tid in
      match t_phase t with Noticing => Some (handle_call_end (t_call t) (set_phase tid t Over s)) | _ => None end
  end.

Fixpoint server_run (es : list (ServerEvent ip)) (s : GabbyServer ip) : option (GabbyServer ip) :=
  match es with
  | [] => Some s
  | e :: es => let* s := server_event e s in server_run es s
  end.

(** *** What the handlers do to the calls *)

(** Only the log of responses differs. *)
Definition same_calls (s s' : GabbyServer ip) : Prop :=
  config s' = config s /\ local_sip_addr s' = local_sip_addr s /\ allocated_rtp_ports s' = allocated_rtp_ports s /\
  active_calls s' = active_calls s /\ tasks s' = tasks s.

Lemma same_calls_trans a b c : same_calls a b -> same_calls b c -> same_calls a c.
Proof. unfold same_calls. intuition congruence. Qed.

Variable sendable : Response -> bool.

Lemma respond_same b source s : same_calls s (respond sendable b source s).2.
Proof.
  unfold respond, mbind, srv_bind, build_response, send_response. destruct (resp_build b) as [r|e]; cbn; [|done]. by destruct (sendable r).
Qed.

(** A new call: a port that was free, the entry of the call, and its task. *)
Definition call_added (id : str) (port : Z) (s s' : GabbyServer ip) : Prop :=
  config s' = config s /\ local_sip_addr s' = local_sip_addr s /\
  free_port (allocated_rtp_ports s) (rtp_port_start (cfg_server (config s))) = Some port /\
  allocated_rtp_ports s' = {[port]} ∪ allocated_rtp_ports s /\
  active_calls s' = <[id := (length (tasks s), port)]> (active_calls s) /\
  exists t, tasks s' = tasks s ++ [t] /\ t_call t = id /\ t_port t = port /\ t_signal t = false /\ t_phase t = Talking.

(** A port taken for an answer that was not sent. *)
Definition port_lost (port : Z) (s s' : GabbyServer ip) : Prop :=
  config s' = config s /\ local_sip_addr s' = local_sip_addr s /\
  free_port (allocated_rtp_ports s) (rtp_port_start (cfg_server (config s))) = Some port /\
  allocated_rtp_ports s' = {[port]} ∪ allocated_rtp_ports s /\ active_calls s' = active_calls s /\ tasks s' = tasks s.

Lemma invite_cases draw secs req source s :
  let r := handle_invite sendable draw secs req source s in
  (same_calls s r.2 /\ (r.1 = Ok tt -> free_port (allocated_rtp_ports s) (rtp_port_start (cfg_server (config s))) = None)) \/
  (exists port, call_added (call_id_of req) port s r.2) \/ (exists port e, port_lost port s r.2 /\ r.1 = Err e).
Proof.
  cbv zeta. unfold handle_invite. unfold mbind, srv_bind.
  pose proof (respond_same (rs_from_request req (rs_status 100 #"Trying" resp_builder)) source s) as H1.
  destruct (respond _ _ source s) as [[[]|e] s1]; cbn [fst snd] in *; [|left; by split].
  pose proof (respond_same (rs_to_tag (#"gabby-" ++ draw) (rs_from_request req (rs_status 180 #"Ringing" resp_builder))) source s1) as H2.
  destruct (respond _ _ source s1) as [[[]|e] s2]; cbn [fst snd] in *; [|left; by split; [eapply same_calls_trans|]].
  assert (same_calls s s2) as H by (by eapply same_calls_trans). clear s1 H1 H2.
  unfold allocate_rtp_port. destruct (free_port _ _) as [port|] eqn:Ep; cbn [fst snd].
  2:{ left. split; [eapply same_calls_trans; [exact H|]; apply respond_same|]. destruct H as (E1 & _ & E3 & _). by rewrite E1, E3 in Ep. }
  destruct H as (E1 & E2 & E3 & E4 & E5). rewrite E1, E3 in Ep. unfold server. cbn [fst snd]. set (s3 := set allocated_rtp_ports _ s2). set (b := rs_body _ _ _).
  pose proof (respond_same b source s3) as H. destruct (respond sendable b source s3) as [[[]|e] s4]; cbn [fst snd] in *; destruct H as (F1 & F2 & F3 & F4 & F5); cbn in F1, F2, F3, F4, F5.
  - right; left. exists port. unfold call_added, change. cbn. rewrite F1, F2, F3, F4, F5, E1, E2, E3, E4, E5.
    split_and!; try done. by eexists.
  - right; right. exists port, e. split; [|done]. unfold port_lost. rewrite F1, F2, F3, F4, F5, E1, E2, E3, E4, E5. by split_and!.
Qed.

(** What a BYE or CANCEL does, when it is answered. *)
Lemma stop_cases req source s :
  let r := mbind (M:=Srv) (fun _ => change (stop_call (call_id_of req))) (respond sendable (rs_from_request req (rs_status 200 #"OK" resp_builder)) source) s in
  same_calls s r.2 \/ exists s1, same_calls s s1 /\ r.2 = stop_call (call_id_of req) s1.
Proof.
  cbv zeta. unfold mbind, srv_bind.
  pose proof (respond_same (rs_from_request req (rs_status 200 #"OK" resp_builder)) source s) as H.
  destruct (respond _ _ source s) as [[[]|e] s1]; cbn [fst snd] in *; [right; by exists s1|by left].
Qed.

(** A request that stops calls with the Call-ID [id]. *)
Definition stops (data id : str) : Prop :=
  exists req, sip_message_parse data = Ok (MRequest req) /\ (req_method req = Bye \/ req_method req = Cancel) /\ call_id_of req = id.

Definition invites (data id : str) : Prop :=
  exists req, sip_message_parse data = Ok (MRequest req) /\ req_method req = Invite /\ call_id_of req = id.

Lemma message_cases draw secs data source s :
  let r := handle_sip_message sendable draw secs data source s in
  same_calls s r.2 \/
  (exists id, invites data id /\ ((exists port, call_added id port s r.2) \/ (exists port e, port_lost port s r.2 /\ r.1 = Err e))) \/
  (exists id s1, stops data id /\ same_calls s s1 /\ r.2 = stop_call id s1).
Proof.
  cbv zeta. unfold handle_sip_message. destruct (sip_message_parse data) as [[req|]|] eqn:Ed; [|by left..]. unfold handle_request.
  destruct (req_method req) eqn:Em; try by left.
  - destruct (invite_cases draw secs req source s) as [[H _]|H]; [by left|right; left]. exists (call_id_of req). split; [by exists req|exact H].
  - destruct (stop_cases req source s) as [H|[s1 H]]; [by left|right; right]. exists (call_id_of req), s1. split; [exists req; auto|exact H].
  - destruct (stop_cases req source s) as [H|[s1 H]]; [by left|right; right]. exists (call_id_of req), s1. split; [exists req; auto|exact H].
  - left. apply (respond_same (rs_contact (gabby_contact s) (rs_from_request req (rs_status 200 #"OK" resp_builder)))).
Qed.
End Process.

(** ** The ports and the calls *)

Section Calls.
Context {ip : Type} `{!IpAddr ip}.
Variable conf : GabbyConfig.

Abbreviation state := (GabbyServer ip).

Definition port_range : list Z := rtp_ports (rtp_port_start (cfg_server conf)).

(** What holds of every state: the entries hold ports that are allocated to them alone, and belong to their tasks. *)
Record ports_ok (s : state) : Prop := {
  po_config : config s = conf;
  po_entry : forall id tid p, active_calls s !! id = Some (tid, p) ->
    p ∈ allocated_rtp_ports s /\ exists t, tasks s !! tid = Some t /\ t_call t = id /\ t_port t = p;
  po_distinct : forall id id' tid tid' p, active_calls s !! id = Some (tid, p) -> active_calls s !! id' = Some (tid', p) -> id = id';
  po_range : forall p, p ∈ allocated_rtp_ports s -> p ∈ port_range
}.

Lemma free_port_spec allocated start p : free_port allocated start = Some p -> (p ∉ allocated) /\ p ∈ rtp_ports start.
Proof.
  unfold free_port. intros ([i q] & (Hl & Hn & _)%list_find_Some & ->)%fmap_Some. split; [done|]. by eapply list_elem_of_lookup_2.
Qed.

Lemma rtp_ports_range start p : p ∈ rtp_ports start -> start <= p < start + 10000 /\ p < u16_max /\ (p - start) mod 2 = 0.
Proof.
  unfold rtp_ports. intros (k & -> & Hk)%list_elem_of_fmap. apply elem_of_seqZ in Hk. unfold u16_max in *.
  split_and!; [lia| |Z.div_mod_to_equations; lia..|]; Z.div_mod_to_equations; lia.
Qed.

(** Tasks keep their calls and ports. *)
Definition same_tasks (s s' : state) : Prop :=
  (forall j t, tasks s !! j = Some t -> exists t', tasks s' !! j = Some t' /\ t_call t' = t_call t /\ t_port t' = t_port t) /\
  (forall j t', tasks s' !! j = Some t' -> exists t, tasks s !! j = Some t /\ t_call t' = t_call t /\ t_port t' = t_port t).

Lemma same_tasks_refl s : same_tasks s s.
Proof. split; eauto. Qed.

Lemma set_phase_tasks tid t p (s : state) : tasks s !! tid = Some t -> same_tasks s (set_phase tid t p s).
Proof.
  intros Ht. unfold set_phase. split; cbn; intros j u Hj.
  - destruct (decide (j = tid)) as [->|Hn].
    + rewrite list_lookup_insert_eq by (by eapply lookup_lt_Some). eexists; split; [done|]. cbn. by simplify_eq.
    + rewrite list_lookup_insert_ne by done. eauto.
  - destruct (decide (j = tid)) as [->|Hn].
    + rewrite list_lookup_insert_eq in Hj by (by eapply lookup_lt_Some). injection Hj as <-. eauto.
    + rewrite list_lookup_insert_ne in Hj by done. eauto.
Qed.

Lemma set_phase_lookup tid t p j u (s : state) : tasks s !! tid = Some t -> tasks (set_phase tid t p s) !! j = Some u ->
  (j = tid /\ u = t <| t_phase := p |>) \/ (j <> tid /\ tasks s !! j = Some u).
Proof.
  intros Ht. unfold set_phase. cbn. destruct (decide (j = tid)) as [->|Hn].
  - rewrite list_lookup_insert_eq by (by eapply lookup_lt_Some). intros [= <-]. auto.
  - rewrite list_lookup_insert_ne by done. auto.
Qed.

Lemma signal_lookup tid j u (s : state) : tasks (signal tid s) !! j = Some u ->
  exists t, tasks s !! j = Some t /\ t_call u = t_call t /\ t_port u = t_port t /\ t_phase u = t_phase t /\
    (t_signal u = t_signal t \/ j = tid).
Proof.
  unfold signal. destruct (tasks s !! tid) as [t|] eqn:Et; [|by eauto 10]. destruct (t_phase t) eqn:Ep; try by eauto 10. cbn.
  destruct (decide (j = tid)) as [->|Hn]; [|rewrite list_lookup_insert_ne by done; eauto 10].
  rewrite list_lookup_insert_eq by (by eapply lookup_lt_Some). intros [= <-]. exists t. cbn. auto 10.
Qed.

Lemma signal_tasks tid (s : state) : same_tasks s (signal tid s).
Proof.
  split.
  - intros j t Hj. unfold signal. destruct (tasks s !! tid) as [u|] eqn:Eu; [|by eauto]. destruct (t_phase u); try by eauto. cbn.
    destruct (decide (j = tid)) as [->|Hn]; [|rewrite list_lookup_insert_ne by done; eauto].
    rewrite list_lookup_insert_eq by (by eapply lookup_lt_Some). simplify_eq. by eexists.
  - intros j u Hj. destruct (signal_lookup _ _ _ _ Hj) as (t & H1 & H2 & H3 & _). eauto.
Qed.

Lemma signal_fields tid (s : state) : config (signal tid s) = config s /\ allocated_rtp_ports (signal tid s) = allocated_rtp_ports s /\
  active_calls (signal tid s) = active_calls s.
Proof. unfold signal. destruct (tasks s !! tid) as [t|]; [|done]. by destruct (t_phase t). Qed.

(** An invariant of what the calls are does not see the tasks' phases. *)
Lemma ports_ok_tasks s s' : ports_ok s -> same_tasks s s' -> config s' = config s ->
  allocated_rtp_ports s' = allocated_rtp_ports s -> active_calls s' = active_calls s -> ports_ok s'.
Proof.
  intros [H1 H2 H3 H4] [Ht _] Ec Ea Eb. constructor; rewrite ?Ec, ?Ea, ?Eb; try done. intros id tid p He.
  destruct (H2 id tid p He) as (Hp & t & Hl & Hc & Hq). split; [done|]. destruct (Ht _ _ Hl) as (t' & ? & ? & ?). exists t'. by split_and!; try congruence.
Qed.

Lemma ports_ok_same s s' : ports_ok s -> same_calls s s' -> ports_ok s'.
Proof.
  intros H (E1 & _ & E3 & E4 & E5). eapply ports_ok_tasks; [exact H| |done..]. split; rewrite E5; eauto.
Qed.

(** An entry removed with its port. *)
Lemma ports_ok_remove s s' id tid p : ports_ok s -> active_calls s !! id = Some (tid, p) -> same_tasks s s' -> config s' = config s ->
  allocated_rtp_ports s' = allocated_rtp_ports s ∖ {[p]} -> active_calls s' = delete id (active_calls s) -> ports_ok s'.
Proof.
  intros [H1 H2 H3 H4] He [Ht _] Ec Ea Eb. constructor; rewrite ?Ec, ?Ea, ?Eb; try done.
  - intros id' tid' p' [Hn Hl]%lookup_delete_Some. destruct (H2 id' tid' p' Hl) as (Hp & t & Hk & Hc & Hq). split.
    + apply elem_of_difference. split; [done|]. intros ->%elem_of_singleton. by apply Hn, (H3 id id' tid tid' p).
    + destruct (Ht _ _ Hk) as (t' & ? & ? & ?). exists t'. by split_and!; try congruence.
  - intros id' id'' tid' tid'' p' [_ Hl]%lookup_delete_Some [_ Hl']%lookup_delete_Some. by eapply H3.
  - intros q [Hq _]%elem_of_difference. by apply H4.
Qed.

Lemma ports_ok_stop s id : ports_ok s -> ports_ok (stop_call id s).
Proof.
  intros H. unfold stop_call. destruct (active_calls s !! id) as [[tid p]|] eqn:E; [|done].
  destruct (signal_fields tid (s <| active_calls := delete id (active_calls s) |>)) as (F1 & F2 & F3).
  eapply ports_ok_remove; [exact H|exact E| |exact F1|exact (f_equal (fun x => x ∖ {[p]}) F2)|exact F3].
  destruct (signal_tasks tid (s <| active_calls := delete id (active_calls s) |>)) as [Ha Hb]. split; [exact Ha|exact Hb].
Qed.

Lemma ports_ok_added s s' id p : ports_ok s -> call_added id p s s' -> ports_ok s'.
Proof.
  intros [H1 H2 H3 H4] (E1 & _ & Hf & Ea & Eb & t & Et & Hc & Hp & _). rewrite H1 in Hf. apply free_port_spec in Hf as [Hn Hr].
  constructor; rewrite ?E1, ?Ea, ?Eb, ?Et; try done.
  - intros id' tid' p' [[<- [= <- <-]]|[Hne Hl]]%lookup_insert_Some.
    + split; [set_solver|]. exists t. split; [by apply list_lookup_middle|done].
    + destruct (H2 id' tid' p' Hl) as (Hq & u & Hu & ?). split; [set_solver|]. exists u. split; [by apply lookup_app_l_Some|done].
  - intros id1 id2 tid1 tid2 q [[<- [= <- <-]]|[Hne Hl]]%lookup_insert_Some [[<- [= <-]]|[Hne' Hl']]%lookup_insert_Some; try done.
    + destruct Hn. subst. by apply (H2 _ _ _ Hl').
    + destruct Hn. subst. by apply (H2 _ _ _ Hl).
    + by eapply H3.
  - intros q [->%elem_of_singleton|Hq]%elem_of_union; [done|by apply H4].
Qed.

Lemma ports_ok_lost s s' p : ports_ok s -> port_lost p s s' -> ports_ok s'.
Proof.
  intros [H1 H2 H3 H4] (E1 & _ & Hf & Ea & Eb & Et). rewrite H1 in Hf. apply free_port_spec in Hf as [_ Hr].
  constructor; rewrite ?E1, ?Ea, ?Eb, ?Et; try done.
  - intros id tid q Hl. destruct (H2 _ _ _ Hl) as (? & ?). split; [set_solver|done].
  - intros q [->%elem_of_singleton|Hq]%elem_of_union; [done|by apply H4].
Qed.

Lemma ports_ok_event e s s' : ports_ok s -> server_event e s = Some s' -> ports_ok s'.
Proof.
  intros H. destruct e as [data source draw secs sendable| |tid why|tid|tid]; cbn.
  - intros [= <-]. destruct (message_cases sendable draw secs data source s) as [Hs|[(id & _ & [[p Ha]|(p & e & Hl & _)])|(id & s1 & _ & Hs & ->)]].
    + by eapply ports_ok_same.
    + by eapply ports_ok_added.
    + by eapply ports_ok_lost.
    + apply ports_ok_stop. by eapply ports_ok_same.
  - by intros [= <-].
  - destruct (tasks s !! tid) as [t|] eqn:Et; [|done]. cbn. destruct (t_phase t); try done. destruct (may_end s tid t why); [|done].
    intros [= <-]. eapply ports_ok_tasks; [exact H|by apply set_phase_tasks|done..].
  - destruct (tasks s !! tid) as [t|] eqn:Et; [|done]. cbn. destruct (t_phase t); try done.
    intros [= <-]. eapply ports_ok_tasks; [exact H|by apply set_phase_tasks|done..].
  - destruct (tasks s !! tid) as [t|] eqn:Et; [|done]. cbn. destruct (t_phase t); try done. intros [= <-].
    assert (ports_ok (set_phase tid t Over s)) as H' by (eapply ports_ok_tasks; [exact H|by apply set_phase_tasks|done..]).
    unfold handle_call_end. destruct (active_calls _ !! t_call t) as [[j p]|] eqn:Ee; [|done].
    eapply ports_ok_remove; [exact H'|exact Ee| |done..]. destruct (same_tasks_refl (set_phase tid t Over s)) as [Ha Hb]. split; [exact Ha|exact Hb].
Qed.

Lemma ports_ok_run es s s' : ports_ok s -> server_run es s = Some s' -> ports_ok s'.
Proof.
  revert s. induction es as [|e es IH]; intros s H; cbn; [by intros [= <-]|]. destruct (server_event e s) as [s1|] eqn:E; [|done]. cbn.
  apply IH. by eapply ports_ok_event.
Qed.

Lemma ports_ok_new local : ports_ok (gabby_new conf local).
Proof. by constructor. Qed.

(** *** Calls in good order

    A run in which no INVITE repeats a Call-ID, and the socket takes every response. *)

Definition fresh (e : ServerEvent ip) (s : state) : Prop :=
  match e with
  | Datagram data source draw secs sendable =>
      (forall id t, invites data id -> t ∈ tasks s -> t_call t <> id) /\
      (handle_sip_message sendable draw secs data source s).1 = Ok tt
  | _ => True
  end.

Fixpoint fresh_run (es : list (ServerEvent ip)) (s : state) : Prop :=
  match es with
  | [] => True
  | e :: es => fresh e s /\ forall s', server_event e s = Some s' -> fresh_run es s'
  end.

(** A BYE or CANCEL with the Call-ID has arrived. *)
Definition stopped (es : list (ServerEvent ip)) (id : str) : Prop :=
  exists data source draw secs sendable, Datagram data source draw secs sendable ∈ es /\ stops data id.

Record calls_ok (es : list (ServerEvent ip)) (s : state) : Prop := {
  co_unique : forall i j t u, tasks s !! i = Some t -> tasks s !! j = Some u -> t_call t = t_call u -> i = j;
  co_port : forall p, p ∈ allocated_rtp_ports s -> exists id tid, active_calls s !! id = Some (tid, p);
  co_talk : forall tid t, tasks s !! tid = Some t -> t_phase t = Talking ->
    active_calls s !! t_call t = Some (tid, t_port t) \/ stopped es (t_call t);
  co_signal : forall tid t, tasks s !! tid = Some t -> t_signal t = true -> stopped es (t_call t)
}.

Lemma stopped_more es e id : stopped es id -> stopped (es ++ [e]) id.
Proof. intros (d & a & b & c & f & H & Hs). exists d, a, b, c, f. split; [|done]. apply elem_of_app. auto. Qed.

Lemma calls_ok_more es e s s' : calls_ok es s -> allocated_rtp_ports s' = allocated_rtp_ports s ->
  active_calls s' = active_calls s -> tasks s' = tasks s -> calls_ok (es ++ [e]) s'.
Proof.
  intros [H1 H2 H3 H4] Ea Eb Et. constructor; rewrite ?Ea, ?Eb, ?Et; [done|done|..].
  - intros tid t Hl Hp. destruct (H3 tid t Hl Hp); [by left|right; by apply stopped_more].
  - intros tid t Hl Hp. by eapply stopped_more, H4.
Qed.

Lemma calls_ok_added es e s s' id p : ports_ok s -> calls_ok es s -> (forall t, t ∈ tasks s -> t_call t <> id) ->
  call_added id p s s' -> calls_ok (es ++ [e]) s'.
Proof.
  intros HP [H1 H2 H3 H4] Hf (E1 & _ & _ & Ea & Eb & t & Et & Hc & Hp & Hsig & Hph).
  assert (forall j u, tasks s !! j = Some u -> t_call u <> id) as Hold by (intros j u Hj; by eapply Hf, list_elem_of_lookup_2).
  assert (active_calls s !! id = None) as Hnone.
  { destruct (active_calls s !! id) as [[tid q]|] eqn:E; [|done]. destruct (po_entry _ HP _ _ _ E) as (_ & u & Hu & Hcu & _). by destruct (Hold _ _ Hu). }
  constructor; rewrite ?Ea, ?Eb, ?Et.
  - intros i j u w Hi Hj Huw. rewrite lookup_snoc_Some in Hi, Hj. destruct Hi as [[? Hi]|[-> <-]], Hj as [[? Hj]|[-> <-]].
    + by eapply H1.
    + by destruct (Hold _ _ Hi); congruence.
    + by destruct (Hold _ _ Hj); congruence.
    + done.
  - intros q [->%elem_of_singleton|Hq]%elem_of_union; [exists id; eexists; by rewrite lookup_insert_eq|].
    destruct (H2 q Hq) as (id' & tid & Hl). exists id', tid. rewrite lookup_insert_ne; [done|]. intros ->. congruence.
  - intros tid u Hl Hu. rewrite lookup_snoc_Some in Hl. destruct Hl as [[? Hl]|[-> <-]].
    + rewrite lookup_insert_ne by (intros E; by destruct (Hold _ _ Hl)). destruct (H3 tid u Hl Hu); [by left|right; by apply stopped_more].
    + left. by rewrite Hc, Hp, lookup_insert_eq.
  - intros tid u Hl Hu. rewrite lookup_snoc_Some in Hl. destruct Hl as [[? Hl]|[-> <-]]; [by eapply stopped_more, H4|congruence].
Qed.

Lemma calls_ok_stop es e s id : ports_ok s -> calls_ok es s -> stopped (es ++ [e]) id -> calls_ok (es ++ [e]) (stop_call id s).
Proof.
  intros HP H Hst. unfold stop_call. destruct (active_calls s !! id) as [[tid p]|] eqn:E; [|by eapply calls_ok_more].
  destruct H as [H1 H2 H3 H4]. destruct (po_entry _ HP _ _ _ E) as (_ & t0 & Ht0 & Hc0 & _).
  set (s1 := s <| active_calls := delete id (active_calls s) |>).
  destruct (signal_fields tid s1) as (_ & F2 & F3). unfold free_rtp_port. constructor.
  - intros i j u w Hi Hj. destruct (signal_lookup _ _ _ _ Hi) as (u0 & Hu & -> & _), (signal_lookup _ _ _ _ Hj) as (w0 & Hw & -> & _). by eapply H1.
  - intros q Hq. change (q ∈ allocated_rtp_ports (signal tid s1) ∖ {[p]}) in Hq. rewrite F2 in Hq. apply elem_of_difference in Hq as [Hq Hn].
    destruct (H2 q Hq) as (id' & tid' & Hl). exists id', tid'. change (active_calls (signal tid s1) !! id' = Some (tid', q)). rewrite F3. cbn.
    apply lookup_delete_Some. split; [|done]. intros ->. apply Hn. apply elem_of_singleton. congruence.
  - intros j u Hj Hph. destruct (signal_lookup _ _ _ _ Hj) as (u0 & Hu & Ec & Ep & Eph & _). rewrite Ec, Ep.
    destruct (decide (t_call u0 = id)) as [->|Hn]; [by right|]. rewrite Eph in Hph. destruct (H3 j u0 Hu Hph) as [Hl|Hl]; [|right; by apply stopped_more].
    left. change (active_calls (signal tid s1) !! t_call u0 = Some (j, t_port u0)). rewrite F3. cbn. by rewrite lookup_delete_ne.
  - intros j u Hj Hsig. destruct (signal_lookup _ _ _ _ Hj) as (u0 & Hu & Ec & Ep & _ & Hs). rewrite Ec. destruct Hs as [Hs| ->].
    + rewrite Hs in Hsig. by eapply stopped_more, H4.
    + change (tasks s !! tid = Some u0) in Hu. assert (u0 = t0) as -> by congruence. by rewrite Hc0.
Qed.

(** A task that no longer talks. *)
Lemma calls_ok_phase es e s tid t p : calls_ok es s -> tasks s !! tid = Some t -> p <> Talking -> calls_ok (es ++ [e]) (set_phase tid t p s).
Proof.
  intros [H1 H2 H3 H4] Ht Hp.
  assert (forall j u, tasks (set_phase tid t p s) !! j = Some u -> exists u0, tasks s !! j = Some u0 /\ t_call u = t_call u0 /\
    t_port u = t_port u0 /\ t_signal u = t_signal u0 /\ (t_phase u = Talking -> t_phase u0 = Talking)) as Hold.
  { intros j u Hj. destruct (set_phase_lookup _ _ _ _ _ _ Ht Hj) as [[-> ->]|[_ Hl]]; [|by eauto 10]. exists t. by split_and!. }
  constructor; [|done|..].
  - intros i j u w Hi Hj. destruct (Hold _ _ Hi) as (u0 & Hu & -> & _), (Hold _ _ Hj) as (w0 & Hw & -> & _). by eapply H1.
  - intros j u Hj Hph. destruct (Hold _ _ Hj) as (u0 & Hu & -> & -> & _ & Hq). destruct (H3 j u0 Hu (Hq Hph)); [by left|right; by apply stopped_more].
  - intros j u Hj Hs. destruct (Hold _ _ Hj) as (u0 & Hu & -> & _ & E & _). rewrite E in Hs. by eapply stopped_more, H4.
Qed.

(** The notice of a task: its own entry goes, if it is still there. *)
Lemma calls_ok_notice es e s tid t : ports_ok s -> calls_ok es s -> tasks s !! tid = Some t ->
  calls_ok (es ++ [e]) (handle_call_end (t_call t) (set_phase tid t Over s)).
Proof.
  intros HP H Ht. pose proof (calls_ok_phase es e s tid t Over H Ht ltac:(done)) as [G1 G2 G3 G4]. unfold handle_call_end.
  destruct (active_calls _ !! t_call t) as [[j p]|] eqn:E; [|done]. constructor; [done|..|done].
  - intros q Hq. change (q ∈ allocated_rtp_ports s ∖ {[p]}) in Hq. apply elem_of_difference in Hq as [Hq Hn].
    destruct (G2 q Hq) as (id' & tid' & Hl). exists id', tid'. apply lookup_delete_Some. split; [|done]. intros <-. apply Hn, elem_of_singleton. congruence.
  - intros i u Hi Hph. destruct (G3 i u Hi Hph) as [Hl|Hl]; [|by right]. left. apply lookup_delete_Some. split; [|done]. intros Hc.
    destruct (set_phase_lookup _ _ _ _ _ _ Ht Hi) as [[-> ->]|[Hne Hu]]; [done|]. apply Hne. by eapply (co_unique _ _ H i tid u t).
Qed.

Lemma calls_ok_event es e s s' : ports_ok s -> calls_ok es s -> fresh e s -> server_event e s = Some s' -> calls_ok (es ++ [e]) s'.
Proof.
  intros HP H. destruct e as [data source draw secs sendable| |tid why|tid|tid]; cbn.
  - intros [Hf Hok] [= <-].
    destruct (message_cases sendable draw secs data source s) as [(? & ? & ? & ? & ?)|[(id & Hi & [[p Ha]|(p & e & _ & He)])|(id & s1 & Hst & Hs & ->)]].
    + by eapply calls_ok_more.
    + eapply calls_ok_added; [done..| |done]. intros t Ht. by apply Hf.
    + congruence.
    + destruct Hs as (E1 & E2 & E3 & E4 & E5). assert (stopped (es ++ [Datagram data source draw secs sendable]) id) as Hx.
      { exists data, source, draw, secs, sendable. split; [|done]. apply elem_of_app. right. by apply list_elem_of_singleton. }
      apply calls_ok_stop; [by eapply ports_ok_same|..|done]. destruct H as [H1 H2 H3 H4]. constructor; by rewrite ?E3, ?E4, ?E5.
  - intros _ [= <-]. by eapply calls_ok_more.
  - destruct (tasks s !! tid) as [t|] eqn:Et; [|done]. cbn. destruct (t_phase t); try done. destruct (may_end s tid t why); [|done].
    intros _ [= <-]. by apply calls_ok_phase.
  - destruct (tasks s !! tid) as [t|] eqn:Et; [|done]. cbn. destruct (t_phase t); try done. intros _ [= <-]. by apply calls_ok_phase.
  - destruct (tasks s !! tid) as [t|] eqn:Et; [|done]. cbn. destruct (t_phase t); try done. intros _ [= <-]. by apply calls_ok_notice.
Qed.

Lemma calls_ok_run past es s s' : ports_ok s -> calls_ok past s -> fresh_run es s -> server_run es s = Some s' -> calls_ok (past ++ es) s'.
Proof.
  revert past s. induction es as [|e es IH]; intros past s HP H Hf; cbn; [intros [= <-]; by rewrite app_nil_r|].
  destruct Hf as [Hf Hr]. destruct (server_event e s) as [s1|] eqn:E; [|done]. cbn. intros Hs.
  replace (past ++ e :: es) with ((past ++ [e]) ++ es) by (by rewrite <- app_assoc). apply IH with s1; [by eapply ports_ok_event|by eapply calls_ok_event|by apply Hr|done].
Qed.
End Calls.

(** ** The bodies *)

(** *** The answer *)

Definition crlf_line (kv : field) : str := kv.1 :: "="%char :: kv.2 ++ CRLF.

Lemma strip_cr_snoc s : strip_cr (s ++ [CR]) = s.
Proof. unfold strip_cr. rewrite reverse_snoc, bool_decide_true by done. apply reverse_involutive. Qed.

(** Lines are the same with a carriage return before the line feed. *)
Lemma lines_crlf l : Forall field_ok l -> lines (concat (map crlf_line l)) = map (fun kv => kv.1 :: "="%char :: kv.2) l.
Proof.
  unfold lines. induction l as [|[k v] l IH]; intros H; [done|]. apply Forall_cons in H as [[Hk Hv] Hl]. cbn [map concat fst snd] in *.
  unfold crlf_line at 1. cbn [fst snd].
  replace ((k :: "="%char :: v ++ CRLF) ++ concat (map crlf_line l)) with ((k :: "="%char :: v ++ [CR]) ++ LF :: concat (map crlf_line l))
    by (cbn; by rewrite <- !app_assoc).
  rewrite split_app.
  2:{ pose proof (alpha_not_LF k Hk) as Hne. destruct Hv as [Hv _]. intros [E|[E|E%in_app_iff]]; [done|by vm_compute in E|].
      destruct E as [E|[E|[]]]; [done|by vm_compute in E]. }
  specialize (IH Hl). remember (split LF _) as r eqn:Er. destruct r as [|p r].
  { exfalso. by destruct (concat _); simpl in Er; [|repeat case_match]. }
  change (lines_of (?x :: p :: r)) with (strip_cr x :: lines_of (p :: r)). rewrite IH. f_equal.
  exact (strip_cr_snoc (k :: "="%char :: v)).
Qed.

Lemma sdp_lines d : sdp_ok d -> lines (sdp_to_string d) = map (fun kv => kv.1 :: "="%char :: kv.2) (all_fields d).
Proof. intros H. rewrite sdp_to_string_fields. apply lines_fields. by apply all_fields_ok. Qed.

Definition answer_description (secs : Z) (local_ip : str) (rtp_port : Z) : SessionDescription :=
  mkSdp 0 (mkOrigin #"gabby" (dec secs) #"1" #"IN" #"IP4" local_ip) #"Gabby Voice AI" None
    (Some (mkConnection #"IN" #"IP4" local_ip)) (mkTiming 0 0)
    [mkMedia Audio rtp_port None #"RTP/AVP" [ #"0"] None ∅ [mkAttr #"rtpmap" (Some #"0 PCMU/8000"); mkAttr #"sendrecv" None]] [].

Lemma line_lit s : negb (contains_char LF s) && (ws_len_rev (reverse s) =? 0)%nat = true -> line_ok s.
Proof.
  intros [H1 H2]%andb_prop. split; [|by apply Nat.eqb_eq]. intros H%contains_char_in. by rewrite H in H1.
Qed.

Lemma answer_ok secs local_ip rtp_port : 0 <= secs -> word local_ip -> is_u16 rtp_port -> sdp_ok (answer_description secs local_ip rtp_port).
Proof.
  intros Hs Hw Hp. constructor; cbn; try done.
  - repeat (apply Forall_cons; split); first [done|by apply word_lit|by apply word_dec].
  - by apply line_lit.
  - intros c [= <-]. split_and!; first [done|by apply word_lit].
  - apply Forall_singleton. constructor; cbn; try done; [by apply word_lit|split; [done|apply Forall_singleton; by apply word_lit]|].
    repeat (apply Forall_cons; split); try done; (split; [|by apply line_lit]); intros H%contains_char_in; by vm_compute in H.
Qed.

Lemma answer_text secs local_ip rtp_port :
  build_sdp_answer secs local_ip rtp_port = concat (map crlf_line (all_fields (answer_description secs local_ip rtp_port))).
Proof.
  unfold build_sdp_answer, all_fields, session_fields, media_fields. cbn [answer_description media map concat].
  assert (sorted_bandwidth (mkMedia Audio rtp_port None #"RTP/AVP" [ #"0"] None ∅ [mkAttr #"rtpmap" (Some #"0 PCMU/8000"); mkAttr #"sendrecv" None]) = []) as -> by done.
  unfold crlf_line, origin_text, connection_text, media_text, CRLF.
  change (dec 0) with #"0". simpl. rewrite <- !app_assoc. simpl. done.
Qed.

(** The answer is read as the description with the port and the address. *)
Lemma answer_read secs local_ip rtp_port : 0 <= secs -> word local_ip -> is_u16 rtp_port ->
  sdp_parse (build_sdp_answer secs local_ip rtp_port) = Ok (answer_description secs local_ip rtp_port).
Proof.
  intros Hs Hw Hp. pose proof (answer_ok secs local_ip rtp_port Hs Hw Hp) as H. unfold sdp_parse. rewrite answer_text, lines_crlf by by apply all_fields_ok.
  rewrite <- (all_fields_read _ H). f_equal. rewrite <- parse_lines_fields, lines_fields by by apply all_fields_ok. done.
Qed.

(** *** The offer *)

Definition line_of (kv : field) : str := kv.1 :: "="%char :: kv.2.

Lemma trim_line kv : field_ok kv -> trim (line_of kv) = line_of kv.
Proof. intros [Hk Hv]. by apply trimmed_trim, trimmed_line. Qed.

Lemma find_map {A B} (f : B -> bool) (g : A -> B) l : find f (map g l) = g <$> find (fun x => f (g x)) l.
Proof. induction l as [|x l IH]; [done|]. cbn. by destruct (f (g x)). Qed.

Lemma find_app_none {A} (f : A -> bool) l l' : Forall (fun x => f x = false) l -> find f (l ++ l') = find f l'.
Proof. induction 1 as [|x l Hx _ IH]; [done|]. cbn. by rewrite Hx. Qed.

Definition audio_line (kv : field) : bool := starts_with #"m=audio " (trim (line_of kv)).

Lemma other_line kv : field_ok kv -> kv.1 <> "m"%char -> audio_line kv = false.
Proof.
  intros Hok Hk. unfold audio_line. rewrite trim_line by done. unfold line_of, starts_with. cbn. rewrite bool_decide_false; [done|congruence].
Qed.

Lemma media_line m : media_ok m ->
  audio_line ("m"%char, media_text m) = bool_decide (media_type m = Audio).
Proof.
  intros H. unfold audio_line. rewrite trim_line by (apply media_fields_ok in H; by apply Forall_cons in H as [? _]).
  unfold line_of, media_text, starts_with. cbn [fst snd]. by destruct (media_type m).
Qed.

Lemma other_fields m : media_ok m -> Forall (fun kv => audio_line kv = false) (tail (media_fields m)).
Proof.
  intros H. apply Forall_forall. intros kv Hkv. pose proof (media_fields_ok m H) as Hok. rewrite Forall_forall in Hok.
  apply other_line; [apply Hok; by right|]. revert Hkv. cbn. rewrite !elem_of_app. intros [Hkv|[Hkv|Hkv]].
  - destruct (m_connection m); [|by inversion Hkv]. apply list_elem_of_singleton in Hkv as ->. done.
  - apply list_elem_of_fmap in Hkv as (x & -> & _). done.
  - apply list_elem_of_fmap in Hkv as (x & -> & _). done.
Qed.

Lemma find_media_line l : Forall media_ok l ->
  find audio_line (concat (map media_fields l)) = (fun m => ("m"%char, media_text m)) <$> (snd <$> list_find (fun m => media_type m = Audio) l).
Proof.
  induction 1 as [|m l Hm Hl IH]; [done|]. cbn [map concat].
  assert (media_fields m = ("m"%char, media_text m) :: tail (media_fields m)) as -> by done. cbn [app find list_find]. rewrite media_line by done.
  destruct (decide (media_type m = Audio)) as [E|E]; [by rewrite bool_decide_true|]. rewrite bool_decide_false by done.
  rewrite find_app_none by by apply other_fields. rewrite IH. by destruct (list_find _ l) as [[i x]|].
Qed.

Lemma session_lines d : sdp_ok d -> Forall (fun kv => audio_line kv = false) (session_fields d).
Proof.
  intros H. apply Forall_forall. intros kv Hkv. pose proof (session_fields_ok d H) as Hok. rewrite Forall_forall in Hok.
  apply other_line; [by apply Hok|]. revert Hkv. unfold session_fields. rewrite !elem_of_app.
  intros [Hkv|[Hkv|[Hkv|[Hkv|Hkv]]]].
  - repeat (apply elem_of_cons in Hkv as [->|Hkv]; [done|]). by inversion Hkv.
  - destruct (session_info d); [|by inversion Hkv]. apply list_elem_of_singleton in Hkv as ->. done.
  - destruct (connection d); [|by inversion Hkv]. apply list_elem_of_singleton in Hkv as ->. done.
  - apply list_elem_of_singleton in Hkv as ->. done.
  - apply list_elem_of_fmap in Hkv as (x & -> & _). done.
Qed.

(** The port is the one of the first audio section. *)
Lemma offer_port d : sdp_ok d -> utf8_lossy (sdp_to_string d) = sdp_to_string d ->
  extract_sdp_audio_port (sdp_to_string d) = m_port <$> audio_media d.
Proof.
  intros H E. unfold extract_sdp_audio_port. rewrite E, sdp_lines by done. unfold audio_port_of. fold line_of. change (map _ (all_fields d)) with (map line_of (all_fields d)).
  rewrite find_map. change (find _ (all_fields d)) with (find audio_line (all_fields d)). unfold all_fields.
  rewrite find_app_none, find_media_line by (apply H || by apply session_lines). unfold audio_media.
  destruct (list_find _ (media d)) as [[i m]|] eqn:Em; [|done]. cbn [fmap option_fmap option_map snd mbind option_bind].
  assert (media_ok m) as Hm. { apply list_find_Some in Em as (Hl & _). pose proof (so_media _ H) as Ha. rewrite Forall_forall in Ha. by eapply Ha, list_elem_of_lookup_2. }
  rewrite trim_line by (pose proof (media_fields_ok m Hm) as Hf; by apply Forall_cons in Hf as [? _]).
  pose proof (media_words_ok m Hm) as Hw. unfold line_of. cbn [fst snd]. rewrite media_text_words.
  change ("m"%char :: "="%char :: join #" " (media_type_text (media_type m) :: dec (m_port m) :: protocol m :: formats m))
    with (join #" " ((#"m=" ++ media_type_text (media_type m)) :: dec (m_port m) :: protocol m :: formats m)).
  apply Forall_cons in Hw as [[H1 H2] Hw]. rewrite split_words.
  - cbn. destruct (mo_port _ Hm). apply parse_dec. unfold u16_max. lia.
  - apply Forall_cons. split; [|done]. split; [done|]. apply Forall_app. split; [|done]. by repeat constructor.
Qed.

Lemma no_connection kv : field_ok kv -> kv.1 <> "c"%char -> connection_ip_of_line (line_of kv) = None.
Proof.
  intros Hok Hk. unfold connection_ip_of_line. rewrite trim_line by done. unfold line_of. cbn. rewrite bool_decide_false; [done|congruence].
Qed.

(** The address part of a connection that names an Internet address. *)
Definition internet_address (c : Connection) : option str :=
  if bool_decide (net_type c = #"IN") && (bool_decide (addr_type c = #"IP4") || bool_decide (addr_type c = #"IP6")) &&
     negb (is_empty (ip_part (c_address c)))
  then Some (ip_part (c_address c)) else None.

(** The connections of a description in the order of its text: the session's, then those of the sections. *)
Definition connections (d : SessionDescription) : list Connection :=
  match connection d with Some c => [c] | None => [] end ++ omap m_connection (media d).

Definition offered_address (d : SessionDescription) : option str := head (omap internet_address (connections d)).

Lemma strip_word w v r : word w -> word v -> strip_prefix (v ++ #" ") (w ++ " "%char :: r) = if bool_decide (w = v) then Some r else None.
Proof.
  intros [_ Hw] [_ Hv]. destruct (decide (w = v)) as [->|Hn].
  - rewrite bool_decide_true by done. change (" "%char :: r) with (#" " ++ r). rewrite app_assoc. apply strip_prefix_app.
  - rewrite bool_decide_false by done. destruct (strip_prefix _ _) as [t|] eqn:E; [|done]. apply strip_prefix_Some in E.
    rewrite <- app_assoc in E. exfalso. apply Hn. assert (forall u, Forall (fun c => tokc c = true) u -> ~ In " "%char u) as Hsp.
    { intros u Hu Hin. rewrite Forall_forall in Hu. specialize (Hu " "%char ltac:(by apply list_elem_of_In)). done. }
    pose proof (split_once_app " "%char w r (Hsp w Hw)) as E1. pose proof (split_once_app " "%char v t (Hsp v Hv)) as E2.
    rewrite E in E1. change (#" " ++ t) with (" "%char :: t) in E1. rewrite E2 in E1. by injection E1.
Qed.

Lemma strip_prefix_cat p q s : strip_prefix (p ++ q) s = let* s := strip_prefix p s in strip_prefix q s.
Proof. revert s. induction p as [|a p IH]; intros [|b s]; try done. cbn. case_bool_decide; [apply IH|done]. Qed.

Lemma connection_line c : connection_ok c -> field_ok ("c"%char, connection_text c) ->
  connection_ip_of_line (line_of ("c"%char, connection_text c)) = internet_address c.
Proof.
  intros (H1 & H2 & H3) Hok. unfold connection_ip_of_line. rewrite trim_line by done.
  change (line_of _) with (#"c=" ++ net_type c ++ " "%char :: addr_type c ++ " "%char :: c_address c).
  assert (forall v, word v -> strip_prefix (#"c=" ++ (#"IN" ++ #" ") ++ v ++ #" ")
    (#"c=" ++ net_type c ++ " "%char :: addr_type c ++ " "%char :: c_address c) =
    if bool_decide (net_type c = #"IN") then if bool_decide (addr_type c = v) then Some (c_address c) else None else None) as Hs.
  { intros v Hv. rewrite strip_prefix_cat, strip_prefix_app. cbn [mbind option_bind]. rewrite (strip_prefix_cat (_ ++ _)).
    rewrite strip_word by (done || (split; [done|by repeat constructor])). case_bool_decide; [|done]. cbn [mbind option_bind].
    by apply strip_word. }
  change #"c=IN IP4 " with (#"c=" ++ (#"IN" ++ #" ") ++ #"IP4" ++ #" "). change #"c=IN IP6 " with (#"c=" ++ (#"IN" ++ #" ") ++ #"IP6" ++ #" ").
  rewrite !Hs by (split; [done|by repeat constructor]). unfold internet_address.
  destruct (bool_decide (net_type c = #"IN")); [|done]. cbn [andb]. destruct (bool_decide (addr_type c = #"IP4")); cbn [orb andb].
  - by destruct (is_empty _).
  - destruct (bool_decide (addr_type c = #"IP6")); [|done]. cbn [andb]. by destruct (is_empty _).
Qed.

(** The connections among fields that are read. *)
Definition found (l : list field) : list str := omap connection_ip_of_line (map line_of l).

Lemma found_app l l' : found (l ++ l') = found l ++ found l'.
Proof. unfold found. by rewrite map_app, omap_app. Qed.

Lemma found_none l : Forall field_ok l -> Forall (fun kv : field => kv.1 <> "c"%char) l -> found l = [].
Proof.
  intros Hl Hk. induction l as [|kv l IH]; [done|]. apply Forall_cons in Hl as [? Hl]. apply Forall_cons in Hk as [? Hk].
  unfold found. cbn. rewrite no_connection by done. by apply IH.
Qed.

Lemma found_opt o : (forall c, o = Some c -> connection_ok c) -> Forall field_ok (opt_field "c" connection_text o) ->
  found (opt_field "c" connection_text o) = omap internet_address (match o with Some c => [c] | None => [] end).
Proof.
  intros Hc Hok. destruct o as [c|]; [|done]. apply Forall_cons_1 in Hok as [Hok _]. unfold found. cbn.
  rewrite connection_line; [|by apply Hc|done]. by destruct (internet_address c).
Qed.

Lemma found_media l : Forall media_ok l -> Forall field_ok (concat (map media_fields l)) ->
  found (concat (map media_fields l)) = omap internet_address (omap m_connection l).
Proof.
  induction 1 as [|m l Hm _ IH]; [done|]. cbn [map concat]. rewrite Forall_app. intros [Hf Hfs].
  rewrite found_app, IH by done.
  change (media_fields m) with ([("m"%char, media_text m)] ++ opt_field "c" connection_text (m_connection m) ++
    map (fun kv : str * Z => ("b"%char, kv.1 ++ #":" ++ dec kv.2)) (sorted_bandwidth m) ++ attribute_fields (m_attributes m)) in Hf |- *.
  rewrite !Forall_app in Hf. destruct Hf as (F1 & F2 & F3 & F4). rewrite !found_app.
  rewrite (found_none _ F1) by by repeat constructor. rewrite (found_none _ F3) by by apply Forall_map, Forall_true.
  rewrite (found_none _ F4) by by apply Forall_map, Forall_true. rewrite found_opt by (done || apply (mo_connection _ Hm)).
  cbn [app omap list_omap]. rewrite !app_nil_r. destruct (m_connection m) as [c|]; [|done]. cbn [omap list_omap]. by destruct (internet_address c).
Qed.

(** The address is the one of the first connection that has one. *)
Lemma offer_ip d : sdp_ok d -> utf8_lossy (sdp_to_string d) = sdp_to_string d ->
  extract_sdp_connection_ip (sdp_to_string d) = offered_address d.
Proof.
  intros H E. unfold extract_sdp_connection_ip, offered_address, connections. rewrite E, sdp_lines by done. unfold connection_ip_of.
  change (omap _ _) with (found (all_fields d)) at 1. f_equal. rewrite omap_app.
  pose proof (all_fields_ok d H) as Hok. unfold all_fields, session_fields in *.
  rewrite <- !app_assoc in *. rewrite !Forall_app in Hok. destruct Hok as (O1 & O2 & O3 & O4 & O5 & O6). rewrite !found_app.
  rewrite (found_none _ O1) by by repeat constructor. rewrite (found_none _ O4) by by repeat constructor.
  rewrite (found_none _ O2) by by destruct (session_info d); repeat constructor.
  rewrite (found_none _ O5) by by apply Forall_map, Forall_true.
  by rewrite found_opt, found_media by (done || apply H).
Qed.

(** ** Responses *)

Section Answers.
Context {ip : Type} `{!IpAddr ip}.
Variable req : Request.
Hypothesis Hreq : forallb other_ok (r_headers req) = true.
Hypothesis Hvia : (length (omap as_via (r_headers req)) <= 200)%nat.

(** A builder that copied the request's headers. *)
Definition copies (b : RespBuilder) : Prop :=
  s_via b = omap as_via (r_headers req) /\ s_cseq b = canonical_cseq req <$> first_of as_cseq (r_headers req).

Lemma copies_from status reason : copies (rs_from_request req (rs_status status reason resp_builder)).
Proof. split; [done|]. cbn. by destruct (first_of as_cseq (r_headers req)). Qed.

Lemma to_tag_fields tag b : copies b -> copies (rs_to_tag tag b) /\ s_status_code (rs_to_tag tag b) = s_status_code b /\ s_body (rs_to_tag tag b) = s_body b.
Proof. unfold rs_to_tag. destruct (s_to b) as [to|]; [|done]. by destruct (contains _ to). Qed.

Lemma contact_fields u b : copies b -> copies (rs_contact u b) /\ s_status_code (rs_contact u b) = s_status_code b /\ s_body (rs_contact u b) = s_body b.
Proof. unfold rs_contact. by destruct (uri_parse u). Qed.

(** A response of the request. *)
Definition answers (status : Z) (r : Response) : Prop :=
  resp_status_code r = status /\ resp_via_branch r = req_via_branch req /\ resp_cseq_method r = req_cseq_method req.

Lemma respond_answers b status source (s : GabbyServer ip) : copies b -> s_status_code b = Some status ->
  exists r, respond (fun _ => true) b source s = (Ok tt, s <| sent_responses := sent_responses s ++ [(r, source)] |>) /\
    answers status r /\ p_body r = default [] (s_body b).
Proof.
  intros [Hv Hc] Hs. destruct (resp_build_total b status Hs ltac:(by rewrite Hv)) as [r Er]. exists r.
  unfold respond, mbind, srv_bind, build_response, send_response. rewrite Er. cbn. split; [done|].
  destruct (resp_build_ok _ _ Er) as (c & Ec & Hcode & _). split.
  - split; [congruence|]. by eapply resp_build_match.
  - revert Er. unfold resp_build. rewrite Hs. cbn. destruct (push_all _ _); [|done]. by intros [= <-].
Qed.
End Answers.

Section Remote.
Context {ip : Type} `{!IpAddr ip}.

(** Where the media of a call goes, told by the offer: its address, when that is the text of an IPv4 address, or
    else the source of the INVITE, at the port of the first audio section. *)
Definition remote_of (offer : SessionDescription) (source : SocketAddr ip) : SocketAddr ip :=
  mkSocketAddr
    (match (let* a := offered_address offer in ip_parse a) with
     | Some i => if is_ipv4 i then i else addr_ip source
     | None => addr_ip source
     end)
    (default 10000 (m_port <$> audio_media offer)).

(** Without brackets only the text of an IPv4 address is one before a port. *)
Lemma sock_parse_text a port : head a <> Some "["%char -> is_u16 port ->
  sock_parse (a ++ #":" ++ dec port) =
  let* i := ip_parse a in if is_ipv4 i then Some (mkSocketAddr i port) else None.
Proof.
  intros Ha [Hp0 Hp]. unfold sock_parse. assert (Forall (fun c => is_ascii_digit c = true) (dec port)) as Hd by by apply dec_digits.
  assert (~ In ":"%char (dec port)) as Hn by (intros H; rewrite Forall_forall in Hd; specialize (Hd ":"%char ltac:(by apply list_elem_of_In)); done).
  change (#":" ++ dec port) with (":"%char :: dec port). rewrite rsplit_once_app by done. cbn [mbind option_bind].
  assert (forallb is_ascii_digit (dec port) = true) as -> by (apply forallb_forall; intros c Hc; rewrite Forall_forall in Hd; by apply Hd, list_elem_of_In).
  rewrite parse_dec by (unfold u16_max; lia). cbn [mbind option_bind]. destruct (ip_parse a) as [i|]; [done|].
  destruct a as [|c r]; [done|]. cbn in Ha. destruct c as [[] [] [] [] [] [] [] []]; done.
Qed.

Lemma resolved_remote offer (source : SocketAddr ip) :
  sdp_ok offer -> utf8_lossy (sdp_to_string offer) = sdp_to_string offer ->
  (forall a, offered_address offer = Some a -> head a <> Some "["%char) ->
  resolve_remote_rtp_addr (extract_sdp_connection_ip (sdp_to_string offer))
    (default 10000 (extract_sdp_audio_port (sdp_to_string offer))) source = remote_of offer source.
Proof.
  intros Hok Hu Hb. rewrite offer_ip, offer_port by done. unfold resolve_remote_rtp_addr, remote_of.
  assert (is_u16 (default 10000 (m_port <$> audio_media offer))) as Hp.
  { destruct (audio_media offer) as [m|] eqn:Em; [|split; vm_compute; (discriminate || reflexivity)]. cbn. assert (m ∈ media offer) as Hin.
    { revert Em. unfold audio_media. destruct (list_find _ _) as [[k x]|] eqn:El; [|done]. intros [= <-].
      apply list_find_Some in El as (Hl & _). by eapply list_elem_of_lookup_2. }
    pose proof (so_media _ Hok) as Ha. rewrite Forall_forall in Ha. by apply (mo_port _ (Ha m Hin)). }
  destruct (offered_address offer) as [a|]; [|done]. rewrite sock_parse_text by (exact Hp || by apply Hb). cbn [mbind option_bind].
  destruct (ip_parse a) as [i|]; [|done]. cbn [mbind option_bind]. by destruct (is_ipv4 i).
Qed.

End Remote.

Section Invites.
Context {ip : Type} `{!IpAddr ip}.

(** The address the answers name. *)
Definition local_ip_of (s : GabbyServer ip) : str :=
  default (ip_to_string (addr_ip (local_sip_addr s))) (public_ip (cfg_server (config s))).

Lemma invite_answered draw secs (req : Request) source (s : GabbyServer ip) :
  forallb other_ok (r_headers req) = true -> (length (omap as_via (r_headers req)) <= 200)%nat ->
  let r := handle_invite (fun _ => true) draw secs req source s in
  r.1 = Ok tt /\
  exists r100 r180 final, sent_responses r.2 = sent_responses s ++ [(r100, source); (r180, source); (final, source)] /\
    answers req 100 r100 /\ answers req 180 r180 /\
    match free_port (allocated_rtp_ports s) (rtp_port_start (cfg_server (config s))) with
    | Some port =>
        answers req 200 final /\ p_body final = build_sdp_answer secs (local_ip_of s) port /\
        active_calls r.2 = <[call_id_of req := (length (tasks s), port)]> (active_calls s) /\
        tasks r.2 = tasks s ++ [mkTask (call_id_of req) port
          (resolve_remote_rtp_addr (extract_sdp_connection_ip (r_body req)) (default 10000 (extract_sdp_audio_port (r_body req))) source)
          (#"gabby-" ++ draw) (default [] (rok (req_from_tag req))) (default 1 (rok (req_cseq req))) false Talking]
    | None => answers req 503 final /\ active_calls r.2 = active_calls s /\ tasks r.2 = tasks s
    end.
Proof.
  intros Ho Hv. cbv zeta. unfold handle_invite, mbind, srv_bind.
  pose proof (fun status reason => copies_from req status reason) as Hc.
  destruct (respond_answers req Ho Hv _ 100 source s (Hc 100 #"Trying") eq_refl) as (r100 & E1 & A1 & _). rewrite E1. cbn [fst snd].
  set (s1 := set sent_responses _ s). destruct (to_tag_fields req (#"gabby-" ++ draw) _ (Hc 180 #"Ringing")) as (C2 & S2 & _).
  destruct (respond_answers req Ho Hv _ 180 source s1 C2 S2) as (r180 & E2 & A2 & _). rewrite E2. cbn [fst snd].
  set (s2 := set sent_responses _ s1). unfold allocate_rtp_port.
  change (allocated_rtp_ports s2) with (allocated_rtp_ports s). change (config s2) with (config s).
  destruct (free_port _ _) as [port|] eqn:Ep.
  - unfold server. cbn [fst snd]. set (s3 := set allocated_rtp_ports _ s2).
    destruct (to_tag_fields req (#"gabby-" ++ draw) _ (Hc 200 #"OK")) as (C3 & S3 & _).
    destruct (contact_fields req (gabby_contact s3) _ C3) as (C4 & S4 & _).
    set (b := rs_body _ _ _). assert (copies req b) as C5 by exact C4. assert (s_status_code b = Some 200) as S5 by (etrans; [exact S4|exact S3]).
    destruct (respond_answers req Ho Hv b 200 source s3 C5 S5) as (r200 & E3 & A3 & B3). rewrite E3. cbn [fst snd].
    split; [done|]. exists r100, r180, r200. split_and!; [|done|done|done|exact B3|done|done]. cbn. by rewrite <- !app_assoc.
  - destruct (to_tag_fields req (#"gabby-" ++ draw) _ (Hc 503 #"Service Unavailable")) as (C3 & S3 & _).
    destruct (respond_answers req Ho Hv _ 503 source s2 C3 S3) as (r503 & E3 & A3 & _). rewrite E3. cbn [fst snd].
    split; [done|]. exists r100, r180, r503. split_and!; [|done|done|done|done|done]. cbn. by rewrite <- !app_assoc.
Qed.

(** C38: a call is answered.  When the socket sends what it is given, an INVITE with at most 200 Via headers, no header
    that the library could not write again and a body that is a description as the library writes it is answered with
    100, 180 and 200, or with 503 when no port is free, each a response of the request.  The description of the 200 is
    read as one audio section of PCMU at the free port that was taken.  The task of the call sends its media to the
    port of the first audio section of the offer (10000 without one), at the address of the first connection line
    that names an Internet address, the session's before those of the sections, when that is an IPv4 address; when
    there is none, or it is an IPv6 address or a name, it sends to the source of the INVITE instead ([remote_of]).
    An address written in brackets, which no connection line has, is left out. *)
Theorem gabby_answers_invite draw secs (req : Request) source (s : GabbyServer ip) offer :
  forallb other_ok (r_headers req) = true -> (length (omap as_via (r_headers req)) <= 200)%nat ->
  sdp_ok offer -> r_body req = sdp_to_string offer -> utf8_lossy (sdp_to_string offer) = sdp_to_string offer ->
  (forall a, offered_address offer = Some a -> head a <> Some "["%char) ->
  0 <= secs -> word (local_ip_of s) -> 0 <= rtp_port_start (cfg_server (config s)) ->
  let r := handle_invite (fun _ => true) draw secs req source s in
  exists r100 r180 final, sent_responses r.2 = sent_responses s ++ [(r100, source); (r180, source); (final, source)] /\
    answers req 100 r100 /\ answers req 180 r180 /\
    match free_port (allocated_rtp_ports s) (rtp_port_start (cfg_server (config s))) with
    | Some port =>
        answers req 200 final /\ sdp_parse (p_body final) = Ok (answer_description secs (local_ip_of s) port) /\
        active_calls r.2 !! call_id_of req = Some (length (tasks s), port) /\
        exists t, tasks r.2 = tasks s ++ [t] /\ t_call t = call_id_of req /\ t_port t = port /\ t_remote t = remote_of offer source
    | None => answers req 503 final /\ active_calls r.2 = active_calls s /\ tasks r.2 = tasks s
    end.
Proof.
  intros Ho Hv Hok Hb Hu Hbr Hsecs Hw Hstart r.
  destruct (invite_answered draw secs req source s Ho Hv) as (_ & r100 & r180 & final & E & A1 & A2 & H). fold r in E, H.
  exists r100, r180, final. split_and!; [done..|]. destruct (free_port _ _) as [port|] eqn:Ep; [|done].
  destruct H as (A3 & B & Hact & Ht). apply free_port_spec in Ep as [_ Hp]. apply rtp_ports_range in Hp as (Hp1 & Hp2 & _).
  split_and!; [done|rewrite B; apply answer_read; [done|done|unfold in_width, u16_max in *; lia]|rewrite Hact; by rewrite lookup_insert_eq|].
  eexists. split_and!; [exact Ht|done|done|]. cbn [t_remote]. rewrite Hb. by apply resolved_remote.
Qed.
End Invites.

(** ** The calls of a run *)

Section Runs.
Context {ip : Type} `{!IpAddr ip}.

(** C37: the calls and ports of the server.  After every run a port belongs to one call at most, is allocated, and is an
    offset of two in the range of the configuration.  When no INVITE repeats a Call-ID and every response is sent, no
    port is allocated without a call, and a call whose task runs has its entry, and no reason to end but its own,
    until a BYE or CANCEL with its Call-ID has come. *)
Theorem gabby_calls conf local es (s : GabbyServer ip) :
  server_run es (gabby_new conf local) = Some s ->
  (forall id id' tid tid' p, active_calls s !! id = Some (tid, p) -> active_calls s !! id' = Some (tid', p) -> id = id') /\
  (forall id tid p, active_calls s !! id = Some (tid, p) -> p ∈ allocated_rtp_ports s /\
    (exists t, tasks s !! tid = Some t /\ t_call t = id /\ t_port t = p) /\
    let start := rtp_port_start (cfg_server conf) in start <= p < start + 10000 /\ p < u16_max /\ (p - start) mod 2 = 0) /\
  (fresh_run es (gabby_new conf local) ->
    (forall p, p ∈ allocated_rtp_ports s <-> exists id tid, active_calls s !! id = Some (tid, p)) /\
    forall tid t, tasks s !! tid = Some t -> t_phase t = Talking -> ~ stopped es (t_call t) ->
      active_calls s !! t_call t = Some (tid, t_port t) /\ forall why, may_end s tid t why = true -> why = OwnReason).
Proof.
  intros Hr. pose proof (ports_ok_run conf es _ _ (ports_ok_new conf local) Hr) as HP. split_and!.
  - by apply (po_distinct _ _ HP).
  - intros id tid p He. destruct (po_entry _ _ HP _ _ _ He) as (Hp & Ht). split_and!; [done|done|..];
      by apply (po_range _ _ HP), rtp_ports_range in Hp as (? & ? & ?).
  - intros Hf. assert (calls_ok [] (gabby_new conf local)) as H0 by by constructor.
    pose proof (calls_ok_run conf [] es _ _ (ports_ok_new conf local) H0 Hf Hr) as [H1 H2 H3 H4]. cbn [app] in *. split.
    + intros p. split; [apply H2|]. intros (id & tid & He). by apply (po_entry _ _ HP) in He as [? _].
    + intros tid t Ht Hph Hn. destruct (H3 tid t Ht Hph) as [He|]; [|done]. split; [done|]. intros [| |]; cbn; [|unfold connected; by rewrite He, bool_decide_true|done].
      intros Hsig. by destruct Hn; eapply H4.
Qed.

(** A port that is allocated and has no entry stays so. *)
Definition leaked (p : Z) (s : GabbyServer ip) : Prop :=
  p ∈ allocated_rtp_ports s /\ forall id tid, active_calls s !! id <> Some (tid, p).

Lemma leaked_remove p s s' id tid q : leaked p s -> active_calls s !! id = Some (tid, q) ->
  allocated_rtp_ports s' = allocated_rtp_ports s ∖ {[q]} -> active_calls s' = delete id (active_calls s) -> leaked p s'.
Proof.
  intros [H1 H2] He Ea Eb. unfold leaked. rewrite Ea, Eb. split.
  - apply elem_of_difference. split; [done|]. intros ->%elem_of_singleton. by apply (H2 id tid).
  - intros id' tid' [_ Hl]%lookup_delete_Some. by apply (H2 id' tid').
Qed.

Lemma leaked_event p e s s' : leaked p s -> server_event e s = Some s' -> leaked p s'.
Proof.
  intros H. destruct e as [data source draw secs sendable| |tid why|tid|tid]; cbn.
  - intros [= <-].
    destruct (message_cases sendable draw secs data source s) as [Hs|[(id & _ & [[q Ha]|(q & e & Hl & _)])|(id & s1 & _ & Hs & ->)]]; unfold leaked in *.
    + destruct Hs as (_ & _ & -> & -> & _). done.
    + destruct Ha as (_ & _ & Hf & -> & -> & _), H as [H1 H2]. split; [set_solver|].
      apply free_port_spec in Hf as [Hn _]. intros id' tid' [[_ E]|[_ Hl]]%lookup_insert_Some; [|by apply (H2 id' tid')].
      injection E as _ ->. done.
    + destruct Hl as (_ & _ & _ & -> & -> & _), H as [H1 H2]. split; [set_solver|done].
    + destruct Hs as (_ & _ & E3 & E4 & _). rewrite <- E3, <- E4 in H. unfold stop_call. destruct (active_calls s1 !! id) as [[tid q]|] eqn:E; [|done].
      set (s2 := s1 <| active_calls := delete id (active_calls s1) |>). destruct (signal_fields tid s2) as (_ & F2 & F3).
      eapply (leaked_remove p s1); [exact H|exact E|exact (f_equal (fun x => x ∖ {[q]}) F2)|exact F3].
  - by intros [= <-].
  - destruct (tasks s !! tid) as [t|]; [|done]. cbn. destruct (t_phase t); try done. destruct (may_end s tid t why); [|done]. by intros [= <-].
  - destruct (tasks s !! tid) as [t|]; [|done]. cbn. destruct (t_phase t); try done. by intros [= <-].
  - destruct (tasks s !! tid) as [t|]; [|done]. cbn. destruct (t_phase t); try done. intros [= <-]. unfold handle_call_end.
    destruct (active_calls _ !! t_call t) as [[j q]|] eqn:E; [|done]. eapply (leaked_remove p s); [exact H|exact E|done..].
Qed.

Lemma leaked_run p es s s' : leaked p s -> server_run es s = Some s' -> leaked p s'.
Proof.
  revert s. induction es as [|e es IH]; intros s H; cbn; [by intros [= <-]|]. destruct (server_event e s) as [s1|] eqn:E; [|done]. cbn.
  apply IH. by eapply leaked_event.
Qed.

Lemma invite_adds sendable draw secs data source (s : GabbyServer ip) id : invites data id ->
  (handle_sip_message sendable draw secs data source s).1 = Ok tt ->
  free_port (allocated_rtp_ports s) (rtp_port_start (cfg_server (config s))) <> None ->
  exists p, call_added id p s (handle_sip_message sendable draw secs data source s).2.
Proof.
  intros (req & Ed & Em & <-). unfold handle_sip_message, handle_request. rewrite Ed, Em. intros Hok Hf.
  destruct (invite_cases sendable draw secs req source s) as [[_ H]|[H|(p & e & _ & He)]]; [by destruct Hf; apply H|done|congruence].
Qed.

(** C39: a repeated INVITE ends the call.  When an INVITE with the Call-ID of a call in progress is answered (the caller
    sent it again, or changes its media), what follows without any other request is that both the task of the call and
    the new one find their senders dropped and end, and no entry is left; the port of the first is lost for good. *)
Theorem gabby_repeated_invite conf local es (s : GabbyServer ip) sendable draw secs data source id tid p t :
  server_run es (gabby_new conf local) = Some s ->
  active_calls s !! id = Some (tid, p) -> tasks s !! tid = Some t -> t_phase t = Talking ->
  invites data id -> (handle_sip_message sendable draw secs data source s).1 = Ok tt ->
  free_port (allocated_rtp_ports s) (rtp_port_start (cfg_server (config s))) <> None ->
  exists s', server_run [Datagram data source draw secs sendable; TaskEnds tid SenderDropped; Notice tid;
      TaskEnds (length (tasks s)) SenderDropped] s = Some s' /\ active_calls s' !! id = None /\
    forall es' s'', server_run es' s' = Some s'' -> leaked p s''.
Proof.
  intros Hr Hact Ht Hph Hi Hok Hf. pose proof (ports_ok_run conf es _ _ (ports_ok_new conf local) Hr) as HP.
  destruct (invite_adds _ _ _ _ _ _ _ Hi Hok Hf) as (q & _ & _ & Hfq & Ea & Eb & u & Eu & Huc & _ & _ & Hup).
  cbn [server_run server_event mbind option_bind]. set (s1 := (handle_sip_message _ _ _ _ _ _).2) in *. clearbody s1.
  pose proof (lookup_lt_Some _ _ _ Ht) as Hlt.
  destruct (po_entry _ _ HP _ _ _ Hact) as (Hp & t' & Ht' & Hc & _). assert (t' = t) as -> by congruence.
  rewrite Eu, lookup_app_l, Ht by done. cbn [mbind option_bind]. rewrite Hph. cbn [may_end].
  assert (connected s1 tid t = false) as ->.
  { unfold connected. rewrite Hc, Eb, lookup_insert_eq. apply bool_decide_false. cbn. intros [= E]. lia. }
  cbn [negb mbind option_bind].
  set (s2 := set_phase tid t Noticing s1). assert (tasks s2 = <[tid := t <| t_phase := Noticing |>]> (tasks s ++ [u])) as E2 by (unfold s2, set_phase; cbn; by rewrite Eu).
  rewrite E2, list_lookup_insert_eq by (rewrite length_app; lia). cbn [mbind option_bind t_phase set t_call].
  set (s3 := set_phase tid _ Over s2). unfold handle_call_end. change (active_calls s3) with (active_calls s1). cbn [t_call]. rewrite Hc, Eb, lookup_insert_eq.
  set (s4 := free_rtp_port q _). assert (tasks s4 !! length (tasks s) = Some u) as E4.
  { change (tasks s4) with (<[tid := t <| t_phase := Noticing |> <| t_phase := Over |>]> (tasks s2)). rewrite E2, !list_lookup_insert_ne by lia. by apply list_lookup_middle. }
  rewrite E4. cbn [mbind option_bind]. rewrite Hup. cbn [may_end]. assert (active_calls s4 !! id = None) as E5.
  { change (active_calls s4) with (delete id (<[id := (length (tasks s), q)]> (active_calls s))). apply lookup_delete_eq. }
  unfold connected. rewrite Huc, E5. cbn [fmap option_fmap option_map]. rewrite bool_decide_false by done. cbn [negb].
  eexists. split; [done|]. split; [exact E5|]. intros es' s''. apply leaked_run.
  apply free_port_spec in Hfq as [Hq _].
  split.
  - change (p ∈ allocated_rtp_ports s1 ∖ {[q]}). rewrite Ea. set_solver.
  - intros id' tid'. change (delete id (<[id := (length (tasks s), q)]> (active_calls s)) !! id' <> Some (tid', p)).
    intros [Hn Hl]%lookup_delete_Some. rewrite lookup_insert_ne in Hl by done. apply Hn. by eapply (po_distinct _ _ HP).
Qed.
End Runs.

(** ** A server *)

Definition gabby_local : SocketAddr quad := mkSocketAddr (chr 192, chr 0, chr 2, chr 9) 5060.
Definition gabby_caller : SocketAddr quad := mkSocketAddr (chr 192, chr 0, chr 2, chr 1) 5062.

Definition sample_body : str := sdp_to_string (answer_description 7 #"198.51.100.4" 49170).

Definition sample_invite : Request := (fun r => mkRequest (r_method r) (r_uri r) (r_version r) (r_headers r) sample_body) (sample_request Invite).

Definition invite_bytes : str := request_to_bytes (sample_request Invite).
Definition bye_bytes : str := request_to_bytes (sample_request Bye).

Lemma sample_word : word #"198.51.100.4".
Proof. by apply word_lit. Qed.

Lemma sample_ascii : utf8_lossy sample_body = sample_body.
Proof. vm_compute. reflexivity. Qed.

Lemma gabby_answers_invite_witness :
  let r := handle_invite (fun _ => true) #"x" 7 sample_invite gabby_caller (gabby_new default_config gabby_local) in
  exists r100 r180 final t,
    sent_responses r.2 = [] ++ [(r100, gabby_caller); (r180, gabby_caller); (final, gabby_caller)] /\
    answers sample_invite 200 final /\
    tasks r.2 = [] ++ [t] /\ t_remote t = mkSocketAddr (chr 198, chr 51, chr 100, chr 4) 49170.
Proof.
  destruct (gabby_answers_invite #"x" 7 sample_invite gabby_caller (gabby_new default_config gabby_local)
    (answer_description 7 #"198.51.100.4" 49170))
    as (r100 & r180 & final & E & _ & _ & H).
  - vm_compute. reflexivity.
  - apply Nat.leb_le. vm_compute. reflexivity.
  - apply answer_ok; [discriminate|exact sample_word|split; [discriminate|reflexivity]].
  - reflexivity.
  - exact sample_ascii.
  - intros a. assert (offered_address (answer_description 7 #"198.51.100.4" 49170) = Some #"198.51.100.4") as -> by (vm_compute; reflexivity).
    intros [= <-]. discriminate.
  - discriminate.
  - apply word_lit. vm_compute. reflexivity.
  - discriminate.
  - assert (free_port (allocated_rtp_ports (gabby_new default_config gabby_local))
      (rtp_port_start (cfg_server (config (gabby_new default_config gabby_local)))) = Some 10000) as Ep by (vm_compute; reflexivity).
    rewrite Ep in H. destruct H as (A & _ & _ & t & Ht & _ & _ & Hr).
    assert (remote_of (answer_description 7 #"198.51.100.4" 49170) gabby_caller = mkSocketAddr (chr 198, chr 51, chr 100, chr 4) 49170)
      as Er by (vm_compute; reflexivity).
    exists r100, r180, final, t. split; [exact E|split; [exact A|split; [exact Ht|exact (eq_trans Hr Er)]]].
Defined.

Definition talking_run : list (ServerEvent quad) := [Datagram invite_bytes gabby_caller #"x" 7 (fun _ => true)].

(** What is checked of a run by evaluation: the entry of the call, and the phases of the tasks. *)
Definition phases (s : GabbyServer quad) : list Phase := map t_phase (tasks s).
Definition entry (s : GabbyServer quad) : option (nat * Z) := active_calls s !! #"test@example.com".

Lemma talking_runs : match server_run talking_run (gabby_new default_config gabby_local) with
  | Some s => bool_decide (entry s = Some (0%nat, 10000)) && (length (tasks s) =? 1)%nat &&
      match tasks s !! 0%nat with Some t => match t_phase t with Talking => true | _ => false end | None => false end &&
      match (handle_sip_message (fun _ => true) #"y" 8 invite_bytes gabby_caller s).1 with Ok _ => true | Err _ => false end &&
      is_some (free_port (allocated_rtp_ports s) (rtp_port_start (cfg_server (config s))))
  | None => false
  end = true.
Proof. vm_compute. reflexivity. Qed.

Lemma sample_invites : match sip_message_parse invite_bytes with
  | Ok (MRequest req) => bool_decide (req_method req = Invite) && bool_decide (call_id_of req = #"test@example.com")
  | _ => false
  end = true.
Proof. vm_compute. reflexivity. Qed.

Lemma invite_bytes_invite : invites invite_bytes #"test@example.com".
Proof.
  pose proof sample_invites as H. destruct (sip_message_parse invite_bytes) as [[req|]|] eqn:E; [|discriminate H..].
  apply andb_prop in H as [H1 H2]. apply bool_decide_eq_true in H1, H2. exists req. exact (conj E (conj H1 H2)).
Qed.

Lemma gabby_calls_witness : exists s, server_run talking_run (gabby_new default_config gabby_local) = Some s /\
  forall id tid p, active_calls s !! id = Some (tid, p) -> p ∈ allocated_rtp_ports s.
Proof.
  pose proof talking_runs as H. destruct (server_run talking_run (gabby_new default_config gabby_local)) as [s|] eqn:E; [|discriminate H].
  exists s. split; [reflexivity|]. destruct (gabby_calls default_config gabby_local talking_run s E) as (_ & H2 & _).
  intros id tid p He. exact (proj1 (H2 id tid p He)).
Defined.

Lemma gabby_repeated_invite_witness :
  exists s s', server_run talking_run (gabby_new default_config gabby_local) = Some s /\
    server_run [Datagram invite_bytes gabby_caller #"y" 8 (fun _ => true); TaskEnds 0 SenderDropped; Notice 0;
      TaskEnds (length (tasks s)) SenderDropped] s = Some s' /\ active_calls s' !! #"test@example.com" = None.
Proof.
  pose proof talking_runs as H. destruct (server_run talking_run (gabby_new default_config gabby_local)) as [s|] eqn:E; [|discriminate H].
  apply andb_prop in H as [H H5]. apply andb_prop in H as [H H4]. apply andb_prop in H as [H H3]. apply andb_prop in H as [H1 _].
  apply bool_decide_eq_true in H1. destruct (tasks s !! 0%nat) as [t|] eqn:Et; [|discriminate H3].
  destruct (t_phase t) eqn:Ep; [|discriminate H3..].
  destruct (gabby_repeated_invite default_config gabby_local talking_run s (fun _ => true) #"y" 8 invite_bytes gabby_caller #"test@example.com" 0 10000 t E)
    as (s' & Hs & Ha & _).
  - exact H1.
  - exact Et.
  - exact Ep.
  - exact invite_bytes_invite.
  - destruct (handle_sip_message _ _ _ _ _ s).1 as [[]|e]; [reflexivity|discriminate H4].
  - intros Hf. rewrite Hf in H5. discriminate H5.
  - exists s, s'. split; [reflexivity|split; [exact Hs|exact Ha]].
Defined.

(** A BYE frees the port while the task, which holds the socket, still runs: the next call gets the same port. *)
Example port_freed_early :
  option_map (fun s => (phases s, map t_port (tasks s)))
    (server_run (talking_run ++ [Datagram bye_bytes gabby_caller #"y" 8 (fun _ => true); Datagram invite_bytes gabby_caller #"z" 9 (fun _ => true)])
       (gabby_new default_config gabby_local)) = Some ([Talking; Talking], [10000; 10000]).
Proof. vm_compute. reflexivity. Qed.

(** A handler that panics gives no notice: its entry and port stay. *)
Example panic_leaves_entry :
  option_map (fun s => (phases s, entry s)) (server_run (talking_run ++ [TaskPanics 0]) (gabby_new default_config gabby_local)) =
  Some ([Over], Some (0%nat, 10000)).
Proof. vm_compute. reflexivity. Qed.

(** An odd start of the range gives odd ports. *)
Example odd_ports : free_port ∅ 10001 = Some 10001.
Proof. vm_compute. reflexivity. Qed.

(** A threshold that is not a number passes: no frame is speech then. *)
Example nan_threshold_valid :
  validate (default_config <| cfg_vad := mkVadConfig S754_nan 700 500 |>) = Ok tt /\
  vad_process 0 [32767; 32767] None (vad_new (mkVadConfig S754_nan 700 500) 0) = (Silence, vad_new (mkVadConfig S754_nan 700 500) 0).
Proof. vm_compute. split; reflexivity. Qed.

(** The connection of a media section does not take the place of the session's. *)
Example media_connection_ignored :
  extract_sdp_connection_ip #"v=0
o=a 1 1 IN IP4 192.0.2.1
s=-
c=IN IP4 192.0.2.1
t=0 0
m=audio 5000 RTP/AVP 0
c=IN IP4 198.51.100.7
" = Some #"192.0.2.1".
Proof. vm_compute. reflexivity. Qed.

(** The port given on the command line is not validated. *)
Example port_zero_on_command_line : validate (apply_cli_overrides (Some 0) default_config) = Err (InvalidValue #"server.sip_port cannot be 0") /\
  load_or_default None = Ok default_config.
Proof. vm_compute. split; reflexivity. Qed.
