(* ===== verification/SipContact.v ===== *)
(** * Contacts with preferences ([sip/headers.rs], [sip/parser/typed/contact.rs])

    The [Contact] of the session headers and the [q] of the typed one, with the text of an [f32]: what
    [str::parse] reads and what [{:.1}] writes. *)

From S2P Require Import Prelude RStr RFloat SipBase SipUri SipTyped SipRoundtrip.
From Stdlib Require Import SpecFloat.

Local Open Scope Z_scope.

(** ** The text of an [f32] *)

Fixpoint span_digits (s : str) : str * str :=
  match s with
  | c :: r => if is_ascii_digit c then let '(d, r) := span_digits r in (c :: d, r) else ([], s)
  | [] => ([], [])
  end.

Definition digits_val (s : str) : Z := foldl (fun n c => 10 * n + digit_val c) 0 s.

(** The exponent is not read beyond 65536. *)
Definition exponent_val (s : str) : Z := foldl (fun n c => if n <? 65536 then 10 * n + digit_val c else n) 0 s.

(** The nearest [f32] to [m * 10 ^ k], ties to even. *)
Definition f32_of_decimal (m k : Z) : float :=
  match m with
  | Zpos p =>
      if 0 <=? k then binary_normalize 24 128 (m * 10 ^ k) 0 false
      else SFdiv 24 128 (S754_finite false p 0) (S754_finite false (Z.to_pos (10 ^ (- k))) 0)
  | _ => S754_zero false
  end.

Definition with_sign (negative : bool) (x : float) : float := if negative then SFopp x else x.

Definition read_sign (s : str) : bool * str :=
  match s with
  | "-"%char :: r => (true, r)
  | "+"%char :: r => (false, r)
  | _ => (false, s)
  end.

(** [parse::<f32>]: digits with an optional point and exponent, an infinity or not a number. *)
Definition f32_parse (s : str) : option float :=
  let '(negative, body) := read_sign s in
  let '(int, r) := span_digits body in
  let '(frac, r) := match r with "."%char :: r => span_digits r | _ => ([], r) end in
  let named :=
    if eq_ignore_ascii_case body #"inf" || eq_ignore_ascii_case body #"infinity" then Some (with_sign negative (S754_infinity false))
    else if eq_ignore_ascii_case body #"nan" then Some S754_nan else None in
  if is_empty int && is_empty frac then named else
  let number e := Some (with_sign negative (f32_of_decimal (digits_val (int ++ frac)) (e - blen frac))) in
  match r with
  | [] => number 0
  | c :: r =>
      if bool_decide (lower c = "e"%char) then
        let '(down, r) := read_sign r in
        let '(exponent, r) := span_digits r in
        if is_empty exponent || negb (is_empty r) then named
        else number (if down then - exponent_val exponent else exponent_val exponent)
      else named
  end.

(** The tenths nearest to a positive number. *)
Definition tenths (m : positive) (e : Z) : Z := scaled 10 m e.

(** [{:.1}] *)
Definition f32_fmt1 (x : float) : str :=
  let sign s := if s : bool then #"-" else [] in
  match x with
  | S754_zero s => sign s ++ #"0.0"
  | S754_infinity s => sign s ++ #"inf"
  | S754_nan => #"NaN"
  | S754_finite s m e => sign s ++ dec (tenths m e / 10) ++ #"." ++ dec (tenths m e mod 10)
  end.

(** ** The typed [Contact] *)

Definition q_value (c : PContact.t) : option float :=
  let* v := find_param (PContact.params_of c) #"q" in f32_parse v.

(** ** The [Contact] of the session headers *)

Record Contact : Type := mkContact { uri : SipUri; display_name : option str; expires : option Z; q : option float }.

(** The name before the address, and the address with what follows it. *)
Definition split_name (value : str) : option str * str :=
  match strip_prefix [DQ] value with
  | Some stripped =>
      match split_once DQ stripped with
      | Some (name, rest) => (Some name, trim rest)
      | None => (None, value)
      end
  | None =>
      match split_once "<"%char value with
      | Some (before, rest) =>
          let name := trim before in
          (if is_empty name then None else Some name, "<"%char :: rest)
      | None => (None, value)
      end
  end.

Definition split_uri (uri_part : str) : result (str * option str) SipError :=
  match uri_part with
  | "<"%char :: r =>
      match split_once ">"%char r with
      | Some (uri, rest) => Ok (uri, if is_empty rest then None else Some rest)
      | None => Err Parse
      end
  | _ =>
      match split_once ";"%char uri_part with
      | Some (uri, rest) => Ok (uri, Some (";"%char :: rest))
      | None => Ok (uri_part, None)
      end
  end.

Definition contact_param (acc : option Z * option float) (param0 : str) : option Z * option float :=
  let param := trim param0 in
  match strip_prefix #"expires=" param with
  | Some v => (parse_uint u32_max v, acc.2)
  | None => match strip_prefix #"q=" param with Some v => (acc.1, f32_parse v) | None => acc end
  end.

Definition contact_parse (value : str) : result Contact SipError :=
  let '(name, uri_part) := split_name (trim value) in
  let? (uri_str, params) := split_uri uri_part in
  let? uri := uri_parse uri_str in
  let '(expires, q) := match params with Some p => foldl contact_param (None, None) (split ";"%char p) | None => (None, None) end in
  Ok (mkContact uri name expires q).

Definition contact_to_header_value (c : Contact) : str :=
  match display_name c with Some name => [DQ] ++ name ++ [DQ] ++ #" " | None => [] end ++
  #"<" ++ uri_to_string (uri c) ++ #">" ++
  match expires c with Some e => #";expires=" ++ dec e | None => [] end ++
  match q c with Some x => #";q=" ++ f32_fmt1 x | None => [] end.

(** ** Round trip *)

(** The preferences that one digit can say. *)
Definition tenth (k : Z) : float := f32_of_decimal k (-1).

#[export] Instance float_eq_dec : EqDecision float.
Proof. solve_decision. Defined.

Lemma tenth_text k : 0 <= k <= 10 ->
  f32_parse (f32_fmt1 (tenth k)) = Some (tenth k) /\ Forall (fun c => tokc c = true) (f32_fmt1 (tenth k)) /\
  ~ In ";"%char (f32_fmt1 (tenth k)).
Proof.
  intros Hk.
  assert (forallb (fun k => bool_decide (f32_parse (f32_fmt1 (tenth k)) = Some (tenth k)) && forallb tokc (f32_fmt1 (tenth k)) &&
    negb (contains_char ";"%char (f32_fmt1 (tenth k)))) (seqZ 0 11) = true) as H by (vm_compute; reflexivity).
  rewrite forallb_forall in H. specialize (H k ltac:(apply list_elem_of_In, elem_of_seqZ; lia)). cbv beta in H.
  apply andb_prop in H as [[H1 H2]%andb_prop H3]. split_and!.
  - by apply bool_decide_eq_true in H1.
  - apply Forall_forall. intros c Hc. rewrite forallb_forall in H2. by apply H2, list_elem_of_In.
  - intros Hc%contains_char_in. by rewrite Hc in H3.
Qed.

Record contact_ok (c : Contact) : Prop := {
  ct_uri : wf_uri (uri c) = true;
  ct_name : forall n, display_name c = Some n -> ~ In DQ n;
  ct_expires : forall e, expires c = Some e -> is_u32 e;
  ct_q : forall x, q c = Some x -> exists k, 0 <= k <= 10 /\ x = tenth k
}.

(** The parameters of a text. *)
Definition params_text (c : Contact) : str :=
  match expires c with Some e => #";expires=" ++ dec e | None => [] end ++ match q c with Some x => #";q=" ++ f32_fmt1 x | None => [] end.

Lemma params_tok c : contact_ok c -> Forall (fun c => tokc c = true) (params_text c).
Proof.
  intros [_ _ He Hq]. unfold params_text. apply Forall_app. split.
  - destruct (expires c) as [e|]; [|done]. apply Forall_app. split; [by repeat constructor|]. apply dec_tok. by destruct (He e eq_refl).
  - destruct (q c) as [x|]; [|done]. apply Forall_app. split; [by repeat constructor|]. destruct (Hq x eq_refl) as (k & Hk & ->). by apply tenth_text.
Qed.

Lemma trim_ends a s t : tokc a = true -> t <> [] -> Forall (fun c => tokc c = true) t -> trim (a :: s ++ t) = a :: s ++ t.
Proof.
  intros Ha Hne Ht. apply trim_tok.
  - by intros c r [= <- _].
  - intros r c E. destruct (exists_last Hne) as (u & d & ->). apply Forall_app in Ht as [_ Ht]. apply Forall_cons in Ht as [Hd _].
    rewrite app_comm_cons, app_assoc in E. apply app_inj_tail in E as [_ <-]. done.
Qed.

Lemma expires_param e acc : is_u32 e -> contact_param acc (#"expires=" ++ dec e) = (Some e, acc.2).
Proof.
  intros [He0 He]. unfold contact_param. rewrite trim_all_tok.
  - rewrite strip_prefix_app. rewrite parse_dec; [done|]. unfold u32_max. lia.
  - apply Forall_app. split; [by repeat constructor|by apply dec_tok].
Qed.

Lemma q_param k acc : 0 <= k <= 10 -> contact_param acc (#"q=" ++ f32_fmt1 (tenth k)) = (acc.1, Some (tenth k)).
Proof.
  intros Hk. destruct (tenth_text k Hk) as (H1 & H2 & _). unfold contact_param. rewrite trim_all_tok.
  - change (strip_prefix #"expires=" (#"q=" ++ f32_fmt1 (tenth k))) with (None : option str). by rewrite strip_prefix_app, H1.
  - apply Forall_app. split; [by repeat constructor|done].
Qed.

Lemma params_read c : contact_ok c -> params_text c <> [] ->
  foldl contact_param (None, None) (split ";"%char (params_text c)) = (expires c, q c).
Proof.
  intros [_ _ He Hq] Hne. unfold params_text in *.
  assert (forall e, 0 <= e -> ~ In ";"%char (#"expires=" ++ dec e)) as Hd.
  { intros e He0 [H|H]%in_app_iff; [by simpl in H; intuition discriminate|]. pose proof (dec_digits e He0) as F. rewrite Forall_forall in F.
    specialize (F _ (proj2 (list_elem_of_In _ _) H)). discriminate F. }
  assert (forall k, 0 <= k <= 10 -> ~ In ";"%char (#"q=" ++ f32_fmt1 (tenth k))) as Hs.
  { intros k Hk [H|H]%in_app_iff; [by simpl in H; intuition discriminate|]. by destruct (tenth_text k Hk) as (_ & _ & ?). }
  assert (forall x r, split ";"%char (";"%char :: x ++ r) = [] :: split ";"%char (x ++ r)) as Hf.
  { intros x r. exact (split_app ";"%char [] (x ++ r) (fun H => H)). }
  destruct (expires c) as [e|], (q c) as [x|].
  - destruct (Hq x eq_refl) as (k & Hk & ->). specialize (He e eq_refl). destruct (He) as [He0 _].
    change (split _ _) with (split ";"%char (";"%char :: (#"expires=" ++ dec e) ++ ";"%char :: (#"q=" ++ f32_fmt1 (tenth k)))).
    rewrite Hf, split_app, split_no by auto. cbn [foldl]. rewrite expires_param, q_param by done. done.
  - specialize (He e eq_refl). destruct (He) as [He0 _]. rewrite app_nil_r.
    pose proof (Hf (#"expires=" ++ dec e) []) as H. rewrite app_nil_r in H. change (#";expires=" ++ dec e) with (";"%char :: (#"expires=" ++ dec e)).
    rewrite H, split_no by auto. cbn [foldl]. rewrite expires_param by done. done.
  - destruct (Hq x eq_refl) as (k & Hk & ->). cbn [app].
    pose proof (Hf (#"q=" ++ f32_fmt1 (tenth k)) []) as H. rewrite app_nil_r in H. change (#";q=" ++ f32_fmt1 (tenth k)) with (";"%char :: (#"q=" ++ f32_fmt1 (tenth k))).
    rewrite H, split_no by auto. cbn [foldl]. rewrite q_param by done. done.
  - done.
Qed.

(** A contact is read back as it was printed: any name without a quote, any URI, the time, and a preference
    in tenths. *)
Theorem contact_roundtrip c : contact_ok c -> contact_parse (contact_to_header_value c) = Ok c.
Proof.
  intros H. pose proof (params_tok c H) as Hp. pose proof (params_read c H) as Hr. destruct H as [Hu Hn _ _]. unfold contact_to_header_value.
  fold (params_text c). set (tail := #"<" ++ uri_to_string (uri c) ++ #">" ++ params_text c).
  assert (Forall (fun c => tokc c = true) (#">" ++ params_text c)) as Ht by (apply Forall_app; split; [by repeat constructor|done]).
  assert (trim tail = tail) as Etail by (by apply (trim_ends "<"%char (uri_to_string (uri c)) (#">" ++ params_text c))).
  assert (split_name (trim (match display_name c with Some name => [DQ] ++ name ++ [DQ] ++ #" " | None => [] end ++ tail)) = (display_name c, tail)) as E1.
  { destruct (display_name c) as [n|]; [|cbn [app]; by rewrite Etail].
    assert (trim (([DQ] ++ n ++ [DQ] ++ #" ") ++ tail) = ([DQ] ++ n ++ [DQ] ++ #" ") ++ tail) as ->.
    { pose proof (trim_ends DQ (n ++ [DQ] ++ #" <" ++ uri_to_string (uri c)) (#">" ++ params_text c) eq_refl ltac:(done) Ht) as He.
      revert He. unfold tail. cbn [app]. rewrite <- !app_assoc. cbn [app]. rewrite <- ?app_assoc. done. }
    unfold split_name. rewrite <- !app_assoc, strip_prefix_app. change ([DQ] ++ #" " ++ tail) with (DQ :: " "%char :: tail).
    rewrite split_once_app by (by apply Hn). by rewrite trim_space, Etail. }
  unfold contact_parse. rewrite E1. unfold split_uri.
  change tail with ("<"%char :: uri_to_string (uri c) ++ ">"%char :: params_text c). cbv iota. clear tail Etail E1.
  assert (~ In ">"%char (uri_to_string (uri c))) as Hgt by (eapply plain_no; [by apply uri_text_plain|in_lit]).
  rewrite split_once_app by done. cbn [rbind].
  rewrite uri_parse_print by done. cbn [rbind]. destruct (is_empty (params_text c)) eqn:Ee.
  - assert (expires c = None /\ q c = None) as [H1 H2] by (revert Ee; unfold params_text; by destruct (expires c), (q c)). destruct c. cbn in *. by subst.
  - rewrite Hr by by destruct (params_text c). by destruct c.
Qed.

(** RFC 3261 allows three digits: what is written has one. *)
Example preference_rounded :
  option_map f32_fmt1 (f32_parse #"0.25") = Some #"0.2" /\ option_map f32_fmt1 (f32_parse #"0.04") = Some #"0.0".
Proof. vm_compute. split; reflexivity. Qed.

(** The two readers of a contact differ on a name with an escaped quote. *)
Example escaped_name :
  let value := [DQ] ++ #"A\" ++ [DQ] ++ #"B" ++ [DQ] ++ #" <sip:a@b>;q=0.5" in
  is_ok (contact_parse value) = false /\ is_ok (PContact.parse value) = true.
Proof. vm_compute. split; reflexivity. Qed.

Example parse_floats :
  f32_parse #"1e-1" = Some (tenth 1) /\ f32_parse #".5" = Some (tenth 5) /\ f32_parse #"-InF" = Some (S754_infinity true) /\
  f32_parse #"1." = Some (tenth 10) /\ f32_parse #"." = None /\ f32_parse #"1e" = None /\ f32_parse [] = None.
Proof. vm_compute. repeat split. Qed.
