(* ===== verification/UdpTransport.v ===== *)
(** * The UDP transport ([transport/udp.rs])

    A socket is what arrives on it and what is given to it.  The receive loop is a task: it waits for a
    datagram, then for room in the channel of its receiver; the events are its moves and those of the
    receiver. *)

From S2P Require Import Prelude RStr Resolver.

Local Open Scope Z_scope.

Definition MAX_UDP_SIZE : nat := Z.to_nat 65535.
Definition MTU_SAFE_SIZE : Z := 1300.

(** The capacity of the channel. *)
Definition CHANNEL_SIZE : nat := 256.

Section Udp.
Context {Addr : Type}.

Record IncomingMessage : Type := mkIncoming { data : str; source : Addr; transport : TransportProtocol }.
Record OutgoingMessage : Type := mkOutgoing { out_data : str; destination : Addr }.

(** *** The transport and its senders

    What the socket says of a datagram is an argument; a datagram that was taken goes into the log. *)

Record UdpTransport : Type := mkUdp { local_addr : Addr; datagrams : list (str * Addr) }.

Inductive IoResult (A : Type) : Type := Done (a : A) | IoError.
Arguments Done {A}.
Arguments IoError {A}.

Definition bind (bound : IoResult Addr) : IoResult UdpTransport :=
  match bound with Done a => Done (mkUdp a []) | IoError => IoError end.

Definition send_to (taken : bool) (d : str) (dest : Addr) (u : UdpTransport) : IoResult unit * UdpTransport :=
  if taken then (Done tt, mkUdp (local_addr u) (datagrams u ++ [(d, dest)])) else (IoError, u).

Definition send (taken : bool) (m : OutgoingMessage) (u : UdpTransport) : IoResult unit * UdpTransport :=
  send_to taken (out_data m) (destination m) u.

(** A datagram is cut to the buffer. *)
Definition incoming (d : str) (from : Addr) : IncomingMessage := mkIncoming (take MAX_UDP_SIZE d) from Udp.

Definition recv (r : IoResult (str * Addr)) : IoResult IncomingMessage :=
  match r with Done (d, from) => Done (incoming d from) | IoError => IoError end.

(** *** The receive loop *)

Inductive LoopPhase : Type := Receiving | Sending (m : IncomingMessage) | Stopped.

Record Receiver : Type := mkReceiver {
  phase : LoopPhase;
  channel : list IncomingMessage;
  alive : bool;  (* the receiving end has not been dropped *)
  got : list IncomingMessage  (* what the receiving end has taken *)
}.

Inductive UdpEvent : Type :=
| Arrives (r : IoResult (str * Addr))  (* [recv_from] returns *)
| Delivers  (* [tx.send] returns *)
| Takes  (* the receiver takes a message *)
| Drops.  (* the receiver is dropped *)

Definition into_receiver : Receiver := mkReceiver Receiving [] true [].

(** An event, when it can happen: a send waits while the channel is full. *)
Definition udp_event (e : UdpEvent) (s : Receiver) : option Receiver :=
  match e with
  | Arrives r =>
      match phase s with
      | Receiving =>
          Some (match recv r with
                | Done m => mkReceiver (Sending m) (channel s) (alive s) (got s)
                | IoError => s
                end)
      | _ => None
      end
  | Delivers =>
      match phase s with
      | Sending m =>
          if alive s then
            if decide (length (channel s) < CHANNEL_SIZE)%nat
            then Some (mkReceiver Receiving (channel s ++ [m]) true (got s)) else None
          else Some (mkReceiver Stopped (channel s) false (got s))
      | _ => None
      end
  | Takes =>
      match channel s with
      | m :: r => if alive s then Some (mkReceiver (phase s) r true (got s ++ [m])) else None
      | [] => None
      end
  | Drops => if alive s then Some (mkReceiver (phase s) [] false (got s)) else None
  end.

Fixpoint udp_run (es : list UdpEvent) (s : Receiver) : option Receiver :=
  match es with
  | [] => Some s
  | e :: es => let* s := udp_event e s in udp_run es s
  end.

(** What arrived, errors left out. *)
Definition arrived (es : list UdpEvent) : list IncomingMessage :=
  omap (fun e => match e with Arrives (Done (d, from)) => Some (incoming d from) | _ => None end) es.

Definition in_flight (s : Receiver) : list IncomingMessage := match phase s with Sending m => [m] | _ => [] end.

Record receiver_ok (past : list UdpEvent) (s : Receiver) : Prop := {
  rc_order : if alive s then got s ++ channel s ++ in_flight s = arrived past else got s `prefix_of` arrived past;
  rc_room : (length (channel s) <= CHANNEL_SIZE)%nat;
  rc_stopped : phase s = Stopped -> alive s = false
}.

Lemma arrived_snoc past e : arrived (past ++ [e]) = arrived past ++ arrived [e].
Proof. unfold arrived. by rewrite omap_app. Qed.

Lemma receiver_ok_event past e s s' : receiver_ok past s -> udp_event e s = Some s' -> receiver_ok (past ++ [e]) s'.
Proof.
  intros [H1 H2 H3]. destruct s as [ph ch al g]. cbn [alive got channel phase] in *. unfold in_flight in H1. cbn [phase] in H1.
  destruct e as [r| | |]; cbn [udp_event phase channel alive got].
  - destruct ph; try done. intros [= <-]. destruct r as [[d from]|]; cbn [recv]; constructor; cbn [alive got channel phase in_flight]; try done;
      rewrite arrived_snoc; destruct al; cbn; rewrite ?app_nil_r in *; try done.
    + by rewrite app_assoc, H1.
    + by apply prefix_app_r.
  - destruct ph as [|m|]; try done. destruct al.
    + destruct (decide _) as [Hl|]; [|done]. intros [= <-]. constructor; cbn [alive got channel phase]; [|rewrite length_app; cbn; lia|done].
      rewrite arrived_snoc. cbn. by rewrite !app_nil_r.
    + intros [= <-]. constructor; cbn [alive got channel phase]; [|done|done]. rewrite arrived_snoc. cbn. by rewrite app_nil_r.
  - destruct ch as [|m ch]; [done|]. destruct al; [|done]. intros [= <-]. constructor; cbn [alive got channel phase]; [|cbn in H2; lia|done].
    rewrite arrived_snoc. cbn. rewrite app_nil_r, <- H1, <- app_assoc. done.
  - destruct al; [|done]. intros [= <-]. constructor; cbn [alive got channel phase]; [|cbn; lia|done].
    rewrite arrived_snoc. cbn. rewrite app_nil_r, <- H1. by eexists.
Qed.

Lemma receiver_ok_run past es s s' : receiver_ok past s -> udp_run es s = Some s' -> receiver_ok (past ++ es) s'.
Proof.
  revert past s. induction es as [|e es IH]; intros past s H; cbn; [intros [= <-]; by rewrite app_nil_r|].
  destruct (udp_event e s) as [s1|] eqn:E; [|done]. cbn. intros Hr. replace (past ++ e :: es) with ((past ++ [e]) ++ es) by (by rewrite <- app_assoc).
  eapply IH; [|exact Hr]. by eapply receiver_ok_event.
Qed.

(** The receiver of a UDP transport is a queue: it takes what arrived, each datagram once and in order, whatever
    errors come between; at most 256 wait in the channel and one with the loop, and the loop stops only when
    its receiver is gone; while it is there, the loop can go on to the next datagram after at most one is taken. *)
Theorem udp_receiver es s :
  udp_run es into_receiver = Some s ->
  (alive s = true -> got s ++ channel s ++ in_flight s = arrived es) /\ got s `prefix_of` arrived es /\
  (length (channel s) <= CHANNEL_SIZE)%nat /\
  (alive s = true -> exists es' s', (length es' <= 2)%nat /\ udp_run es' s = Some s' /\ phase s' = Receiving).
Proof.
  intros Hr. assert (receiver_ok [] into_receiver) as H0 by (constructor; cbn; [done|lia|done]).
  destruct (receiver_ok_run [] es _ _ H0 Hr) as [H1 H2 H3]. cbn [app] in H1. split_and!; [by intros Ha; rewrite Ha in H1| |done|].
  - destruct (alive s); [|done]. rewrite <- H1. by eexists.
  - intros Ha. destruct (phase s) as [|m|] eqn:Ep; [by exists [], s; split_and!; [cbn; lia|..]| |by rewrite H3 in Ha].
    destruct (decide (length (channel s) < CHANNEL_SIZE)%nat) as [Hl|Hl].
    + exists [Delivers]. cbn. rewrite Ep, Ha, decide_True by done. eexists. split_and!; [lia|done|done].
    + destruct (channel s) as [|x ch] eqn:Ec; [unfold CHANNEL_SIZE in Hl; cbn in Hl; lia|]. exists [Takes; Delivers]. cbn. rewrite Ec, Ha. cbn. rewrite Ep.
      rewrite decide_True by (cbn in H2; lia). eexists. split_and!; [lia|done|done].
Qed.
End Udp.
Arguments Done {A}.
Arguments IoError {A}.
Arguments mkIncoming {Addr}.

(** Datagrams and an error between them. *)
Lemma udp_receiver_witness :
  exists s, udp_run [Arrives (Done ( #"a", 1)); Delivers; Arrives IoError; Arrives (Done ( #"b", 2)); Takes] into_receiver = Some s /\
    got s ++ channel s ++ in_flight s = [mkIncoming #"a" 1 Udp; mkIncoming #"b" 2 Udp].
Proof.
  eexists. split; [reflexivity|].
  destruct (udp_receiver [Arrives (Done ( #"a", 1)); Delivers; Arrives IoError; Arrives (Done ( #"b", 2)); Takes] _ eq_refl) as (H & _).
  rewrite H by reflexivity. reflexivity.
Defined.
