(* ===== verification/StackConfig.v ===== *)
(** * The settings of the stack ([core/config.rs])

    Records with their defaults, and the timers of the settings against those of the transaction layer. *)

From S2P Require Import Prelude RStr TxTimer.

Local Open Scope Z_scope.

Record IdentityConfig : Type := mkIdentity {
  display_name : option str; uri : str; auth_username : option str; auth_password : option str; realm : option str
}.

Definition identity_default : IdentityConfig := mkIdentity None #"sip:anonymous@localhost" None None None.

Record TransportConfig (Addr : Type) : Type := mkTransport {
  udp_bind : option Addr; tcp_bind : option Addr; tls_bind : option Addr;
  tls_cert_path : option str; tls_key_path : option str; outbound_proxy : option str
}.
Arguments mkTransport {Addr}.

(** [parse] reads a socket address; the default is unwrapped. *)
Definition transport_default {Addr} (parse : str -> option Addr) : option (TransportConfig Addr) :=
  (fun a => mkTransport (Some a) None None None None None) <$> parse #"0.0.0.0:5060".

Record CodecConfig : Type := mkCodec { name : str; payload_type : Z; clock_rate : Z; channels : Z; fmtp : option str }.

Definition pcmu : CodecConfig := mkCodec #"PCMU" 0 8000 1 None.
Definition pcma : CodecConfig := mkCodec #"PCMA" 8 8000 1 None.
Definition g722 : CodecConfig := mkCodec #"G722" 9 8000 1 None.
Definition opus : CodecConfig := mkCodec #"opus" 111 48000 2 (Some #"minptime=10;useinbandfec=1").
Definition telephone_event : CodecConfig := mkCodec #"telephone-event" 101 8000 1 (Some #"0-16").

Record MediaConfig : Type := mkMedia { rtp_port_range : Z * Z; codecs : list CodecConfig; jitter_buffer_ms : Z; ptime_ms : Z }.

Definition media_default : MediaConfig := mkMedia (10000, 20000) [pcmu; pcma] 60 20.

Record StackConfig (Addr : Type) : Type := mkStack { identity : IdentityConfig; transport : TransportConfig Addr; media : MediaConfig }.
Arguments mkStack {Addr}.

Definition stack_default {Addr} (parse : str -> option Addr) : option (StackConfig Addr) :=
  (fun t => mkStack identity_default t media_default) <$> transport_default parse.

Record TimerConfig : Type := mkTimerConfig { t1_ms : Z; t2_ms : Z; t4_ms : Z }.

Definition timer_config_default : TimerConfig := mkTimerConfig 500 4000 5000.

(** [u32] arithmetic of a release build. *)
Definition timer_b_ms (c : TimerConfig) : Z := wrap 32 (64 * t1_ms c).
Definition timer_f_ms (c : TimerConfig) : Z := wrap 32 (64 * t1_ms c).
Definition timer_d_ms (c : TimerConfig) : Z := 32000.
Definition timer_h_ms (c : TimerConfig) : Z := wrap 32 (64 * t1_ms c).

(** The timers of the settings are those of the transaction layer with the same T1, as long as 64 * T1 fits. *)
Theorem timer_config_agrees c :
  0 <= t1_ms c < 2 ^ 26 ->
  from_millis (timer_b_ms c) = timer_b (with_t1 (t1_ms c)) /\ from_millis (timer_f_ms c) = timer_f (with_t1 (t1_ms c)) /\
  from_millis (timer_h_ms c) = timer_h (with_t1 (t1_ms c)) /\ from_millis (timer_d_ms c) <= timer_d (with_t1 (t1_ms c)) /\
  (c = timer_config_default ->
    timer_default = mkTimers (from_millis (t1_ms c)) (from_millis (t2_ms c)) (from_millis (t4_ms c))).
Proof.
  intros H. unfold timer_b_ms, timer_f_ms, timer_h_ms. rewrite wrap_small by (unfold in_width; lia).
  unfold timer_b, timer_f, timer_h, timer_d, timer_d_ms, with_t1, from_millis, from_secs, NS_PER_MS, NS_PER_SEC. cbn [TxTimer.t1].
  split_and!; [lia..|]. intros ->. reflexivity.
Qed.

(** From 2^26 ms on the products wrap. *)
Example timer_wraps : timer_b_ms (mkTimerConfig (2 ^ 26) 4000 5000) = 0.
Proof. vm_compute. reflexivity. Qed.

(** Timer D of the settings is not more than 32 seconds. *)
Example timer_d_is_32s : from_millis (timer_d_ms timer_config_default) = from_secs 32.
Proof. vm_compute. reflexivity. Qed.
